(* ===== verification/_CoqProject ===== *)
-Q . S2P
Prelude.v
Js.v
Paths.v
Types.v
Errors.v
Notifications.v
MemoryBudget.v
WorkerPool.v
Placement.v
Eviction.v
Store.v
ModelName.v
Requests.v
RunnerLogs.v
StartupLogs.v
LiveLogs.v
WorkerAgent.v
AgentSafety.v
Catalog.v
Modules.v
OrasImport.v
WeightsBrowser.v
Lifecycle.v
RoutingMap.v
SleepWake.v
Deploy.v
WorkerClient.v
Reconciliation.v
Launch.v
LeaderElection.v
Move.v
ModelRoutes.v
WakeRequest.v
Views.v
Apptainer.v
AgentContract.v
WorkerReports.v
Heartbeat.v
DashboardAuth.v
Config.v
Upstreams.v
Forwarding.v
InferenceProxy.v
DashboardFallback.v
EventStream.v
BrowserState.v
DashboardGates.v
EngineArgs.v
ModelColors.v
Panels.v
BrowserSession.v
ChatStream.v
ChatSession.v
RunnerStub.v
Workspace.v
