(* ===== verification/Prelude.v ===== *)
(** * Sardeenz: a verification development

    Sardeenz serves large models on a shared pool of GPUs.  Its control plane
    (src/control-plane, TypeScript) decides which worker hosts which model instance,
    takes instances through their lifecycle (start, sleep, wake, stop, move), and tells
    the request proxies where to send traffic.  Several replicas of it run; one, the
    leader, acts.  All of them share a Redis server, call worker agents and runners over
    HTTP, and keep some state in the process.  A worker agent (src/runners/dev-worker)
    starts the runner processes on its host and reports its devices and their memory.  The
    dashboard (src/dashboard) is a server that authenticates users and forwards to the
    control plane, and a user interface.

    ** The parts and the files

    - [Prelude], [Js], [Types], [Errors]: the state-and-exception monad with its weakest
      preconditions; the JavaScript values the code uses (insertion-ordered [Map]s,
      strings, [Number(..)], JSON values); the enums and records of the contract
      (packages/types) and of Redis; [ControlPlaneError] (errors.ts).
    - [Paths] (utils/path-containment.ts), [Notifications] (services/notification.ts and
      the list route): POSIX path resolution and the containment check; the capped Redis
      list of notifications, with its own small world of one list.
    - [MemoryBudget] (services/memory-budget.ts), [WorkerPool] (services/worker-pool.ts),
      [Placement] (services/placement.ts), [Eviction] (services/eviction.ts): the
      in-process services.  Each class is a record of its fields, each method a function
      on it; Redis replies and the clock are arguments.
    - [Store]: the world the asynchronous methods run in.  [RedisDb] has one typed map
      per key family, [Local] the in-process state, [Event] what a method does to the
      outside, [Env] everything that is not this method: how long an awaited call takes,
      what others do to Redis and to the process meanwhile, which calls fail (before or
      after taking effect), what workers and runners answer.  A theorem for every [Env]
      is a theorem for every interleaving at the [await]s.  The file also holds the
      program logic: [preserves] (a relation every run respects, by a hint database),
      [guar] (every event satisfies a condition), [justified] (every event is justified
      by the events before it, with facts learned on the way), [Rely], [total].
    - [ModelName] (utils/model-name.ts), [Lifecycle] (services/model-lifecycle.ts),
      [RoutingMap] (services/routing-map.ts), [SleepWake] (services/sleep-wake.ts),
      [WorkerClient] (clients/worker.ts), [Deploy] (services/deploy-orchestration.ts),
      [Move] (services/move-orchestration.ts): the services on Redis, one definition per
      method under its own name, its branches in the order of the code.  A Lua script or
      MULTI transaction is one atomic function on [RedisDb].
    - [Reconciliation] (services/reconciliation.ts), [LeaderElection]
      (services/leader-election.ts): the periodic tick with all its steps, on the same
      world; the lease protocol of one process against the Kubernetes API, on a world of
      one lease.
    - [Requests], [Launch], [ModelRoutes] (routes/models.ts): the checks on request
      bodies; the launch pipeline [deployFromRecord] with capacity reclamation and
      [teardownInstance]; the route handlers that change state.  A handler returns its
      reply and the task it leaves running ([Outcome]); [serve] runs both.  The seven
      in-flight sets are the [RouteClaims] of [Local].
    - [WakeRequest] (routes/internal.ts), [Views] (the reading routes of routes/models.ts,
      workers.ts and cluster.ts): the wake the proxy asks for, on the same world; what the
      control plane shows of its models, workers and memory, as functions of its state.
    - [Config] (the three config.ts): the readers of environment variables and the
      configuration of control plane, worker and dashboard.
    - [Catalog] (services/catalog-service.ts, catalog-view.ts, routes/catalog.ts),
      [Modules] (services/module-store.ts), [OrasImport] (services/sif-importer.ts),
      [WeightsBrowser] (services/weights-browser.ts): the catalog of runner images; the
      directory of imported images, as a transition system whose steps are the pieces of
      [runImport] and [uninstall] between two [await]s; the pull of one image from a
      registry, as a writer of requests and progress; the folder picker.
    - [StartupLogs] (services/startup-log-capture.ts, startup-log-repository.ts and the
      stored-log route), [LiveLogs] (the live route of routes/model-logs.ts): how the output
      of a start gets from a worker into the database and to a viewer.
    - [RunnerLogs] (dev-worker/src/runner-log-buffer.ts, routes/logs.ts), [WorkerAgent] and
      [AgentSafety] (runner-manager.ts, launcher.ts), [AgentContract] (routes/runners.ts,
      read by the control plane's client), [Apptainer] (apptainer-launcher.ts),
      [WorkerReports] (registration.ts, measured-sample.ts, proc-tree.ts, gpu-detect.ts),
      [Heartbeat] (registration.ts and shutdown in index.ts, with a clock):
      the worker agent.  [Agent] is the manager with the calls under way; [step] runs the
      piece of code a [Label] names.  [RunnerStub] (runner-stub: state.ts, server.ts, routes)
      is the simulated runner: its state machine with ticks, requests and destruction.
    - [DashboardAuth] (dashboard/server: plugins/auth.ts, routes/auth.ts, config.ts,
      kubernetes-rbac.ts, inference-concurrency-limiter.ts, and the registration of every
      route), [InferenceProxy] (routes/inference.ts), [EventStream] (routes/events.ts and the
      browser's useEventStream.ts), [Upstreams] (clients/prometheus.ts, routes/metrics.ts,
      clients/github.ts), [Forwarding] (clients/control-plane.ts and the routes that fall back
      to Redis), [DashboardFallback] (clients/redis.ts): who may do what through the
      dashboard's server, the inference it forwards, the events it relays, what it asks of
      the control plane and other servers, and what it shows while the control plane is down.
    - [EngineArgs] (utils/engineArgs.ts), [ModelColors] (utils/memorySegments.ts), [Panels]
      (utils/gpuMemoryPanel.ts, Playground/sidebarGroups.ts), [DashboardGates] (what may be
      moved or deleted), [Workspace] (Playground: workspaceState.ts, useWorkspaceState.ts):
      the state functions of the user interface.
    - [BrowserSession] (contexts/AuthContext.tsx), [BrowserState]
      (contexts/NotificationContext.tsx, hooks/useModelLogs.ts, hooks/useModels.ts),
      [ChatStream] (utils/parseSse.ts, streamChatCompletion of api/client.ts, and the stream
      the simulated runner writes), [ChatSession] (chatSessionState.ts, useChatSession.ts):
      the hooks, as transition systems whose steps are callbacks, timers and clicks.

    ** What the theorems show

    - Memory: the reservation maps implement a ledger of holds; available memory is
      total minus used minus holds and stays within bounds; placement is sound,
      complete and never over-commits; eviction picks only evictable instances, in LRU
      order, no more than needed, at a bounded rate.
    - Lifecycle: every command of sleep, wake and stop changes one record along an edge
      of the state machine, under any interference; with Redis working and nobody else writing
      each ends in its target state or in ERROR; a runner is told to sleep only when idle; each polling
      loop ends.
    - Deploy: the capacity held for an instance is released or kept exactly as the
      worker's answer warrants, and the instance settles.
    - Routing: the stored entries implement a table, every change is published, a
      completed cutover has been acknowledged by every connected proxy.
    - Moves: a recorded move excludes others and only advances; a run touches only the
      instance its phase allows; no two runs delete both sides; traffic moves before the
      source drains and comes back when the replacement fails; every step ends.
    - Reconciliation: an instance goes to ERROR or away only when what the tick has read
      justifies it; dead workers are cleared; a tick always returns.
    - Leadership: every write to the lease follows the protocol, and in every history of such
      runs on hosts with a bounded clock skew, a lease that has not expired is not changed by
      another host, unless somebody shuts down.
    - Requests: deploy accepts exactly the bodies that meet the field rules; a launch is
      dispatched only while it is allowed, and leaves nothing behind when it fails; making
      room touches only evictable instances; a record is deleted only after its runner is
      gone; a graceful request touches its own model only; every request gives its claims
      back, and its background task cannot reject (both with the stated exceptions).
    - Images: the catalog admits well-formed entries with distinct ids and files; an import
      that succeeds has the pinned content, asks only the registry and https token services,
      and reports rising progress; a recorded digest is that of the file beside it, unless an import fails between its
      two renames or two imports of a file overlap; the
      picker offers only folders a deploy accepts.
    - Logs: the capture stores each line of the worker's stream once and in order, however
      the stream is cut and however often it is retried; a viewer reads a prefix of it and,
      at the end, all of it; a live connection ends once and pipes one stream.
    - Worker: port blocks never overlap and are never lost, booked memory is the sum over the
      runners that are up, cold starts run one at a time, a cancelled start never comes up;
      the control plane reads the truth from a worker's answers (starts of one instance that
      look for ports together apart); a launch stays inside its
      two directories, cannot be given a reserved flag, and ends; announcement and memory
      report arrive as they were sent, and measured memory is attributed exactly; a prompt
      worker is ONLINE at every moment, and one that is shown up was healthy within the
      timeout.
    - Dashboard: no guarded handler runs without the role it needs; password guesses are
      limited, OAuth sessions are earned; the slots of the inference limit are exactly the
      requests that are open, however clients and upstream end them; every change of the
      routing table reaches the browser; metrics stay within their tenancy and look-ups are
      spaced; a forwarded call arrives as it was meant and
      its failure is never shown as success; the view from Redis agrees with the control
      plane's.
    - User interface: the form and the launcher agree about flags, the move dialog and the
      placement about devices; models get distinct colours, the bar of a device adds up to
      its capacity, the sidebar groups each model where it is placed; the panes show open,
      distinct sessions; a streamed answer is shown whole however it is cut, and a completed
      one never changes; the drawer follows the stored notifications; the event source always
      reconnects and loses no memory update; a session ends before its token does.
    - Simulated runner and configuration: the start-up ends after exactly its ticks, what the
      runner reports is true; numbers, addresses and lists of the environment are read as
      they were written.
    - Where the code and its comments differ, or a race is open, a theorem exhibits it.

    ** Bounds and fuel

    The polling loops [while (!aborted)] get [S timeoutMs] rounds from [poll_until]; with a
    positive polling interval every round takes at least a millisecond, so the bound is
    enough, and the termination theorems prove that [OutOfFuel], which no JavaScript handler
    sees, is never the result.  The launcher's health loop ends within
    [timeout / interval + 2] rounds ([Apptainer.launch_outcome]); the scan of a challenge
    header gets the length of its text.  Work that the code starts side by side
    ([Promise.all], [allSettled]) runs in order here; what the others of a group do meanwhile
    to Redis and to the process is among the interference [Env] quantifies over.  Numbers
    that the code requires to be integers are [Z]; sizes in bytes stay below 2^53 in the
    code's contract, so no rounding is modelled; the colour hash and the
    delay of a browser timer keep their 32 bits; shares of memory that the panel divides are
    rationals.  Text is
    a list of 8-bit characters; where a length in the code counts UTF-16 units, the modelled
    texts are ASCII.

    ** Parameters

    What is not under src/ is a parameter with documented laws: [JsDate] (printing and
    parsing of dates), [RedisScan] (SCAN with its patterns), [LocaleCompare] (the locale's
    string order), the JSON parser ([JsonText] for the text of a log line), [UrlOps] (the
    URL class), SHA-256, the registry, the token verifier, the identity provider and the
    access review, the file system ([realpath], [readdir]) and process table, the division of
    bytes by devices ([share]), and the environments [Env], [ReconEnv], [RouteEnv], [NEnv] and
    that of the lease: what Redis, PostgreSQL, Kubernetes, workers and runners answer.  Each
    has a concrete instance, used by the witnesses.

    ** Not modelled

    HTTP routing, the SQL of the model and instance repositories, NVML, the wiring of the services at start-up and shutdown,
    the counters of metrics, the React components
    and their layout, the generated request and response interfaces, the previous version of
    the dashboard kept for reference (src/dashboard/reference), the Rust proxy, the Python
    runners.  Fire-and-forget notifications are left to the environment, or appear as an
    event. *)
From stdpp Require Import base tactics list gmap strings sorting.
From Stdlib Require Import ZArith Lia.

(** ** The state-and-exception monad of the services

    A TypeScript [async] method of the control plane reads and writes shared
    state and either returns or throws; a throw keeps the writes made before
    it.  [M W E A] is that: a function from a world to a result ([inl] a thrown
    value, [inr] a returned one) and the world left behind. *)
Definition M (W E A : Type) : Type := W → (E + A) * W.

#[global] Instance M_ret W E : MRet (M W E) := λ A a w, (inr a, w).
#[global] Instance M_bind W E : MBind (M W E) := λ A B k m w,
  match m w with
  | (inl e, w') => (inl e, w')
  | (inr a, w') => k a w'
  end.

(** [throw e]. *)
Definition throw {W E A} (e : E) : M W E A := λ w, (inl e, w).

(** [try { m } catch (e) { h }]. *)
Definition catch {W E A} (m : M W E A) (h : E → M W E A) : M W E A := λ w,
  match m w with
  | (inl e, w') => h e w'
  | (inr a, w') => (inr a, w')
  end.

(** [try { m } finally { f }]: [f] runs either way; if it throws, that wins. *)
Definition finally {W E A} (m : M W E A) (f : M W E unit) : M W E A := λ w,
  let '(r, w') := m w in
  match f w' with
  | (inl e, w'') => (inl e, w'')
  | (inr _, w'') => (r, w'')
  end.

(** Reading and updating the world. *)
Definition gets {W E A} (f : W → A) : M W E A := λ w, (inr (f w), w).
Definition modify {W E} (f : W → W) : M W E unit := λ w, (inr tt, f w).

(** [if (c) { m }]. *)
Definition when {W E} (c : bool) (m : M W E unit) : M W E unit :=
  if c then m else mret tt.

(** [for (const x of xs) { f(x) }]. *)
Fixpoint for_each {W E A} (xs : list A) (f : A → M W E unit) : M W E unit :=
  match xs with
  | [] => mret tt
  | x :: xs' => f x ;; for_each xs' f
  end.

(** ** Weakest preconditions for the monad *)
Definition wp {W E A} (m : M W E A) (Q : A → W → Prop) (X : E → W → Prop) (w : W) : Prop :=
  match m w with
  | (inr a, w') => Q a w'
  | (inl e, w') => X e w'
  end.

Section wp.
Context {W E : Type}.
Implicit Types (w : W).

Lemma wp_ret {A} (a : A) (Q : A → W → Prop) (X : E → W → Prop) w : Q a w → wp (mret a) Q X w.
Proof. done. Qed.

Lemma wp_throw {A} (e : E) (Q : A → W → Prop) X w : X e w → wp (throw e) Q X w.
Proof. done. Qed.

Lemma wp_bind {A B} (m : M W E A) (k : A → M W E B) Q X w :
  wp m (λ a, wp (k a) Q X) X w → wp (m ≫= k) Q X w.
Proof. unfold wp, mbind, M_bind. by destruct (m w) as [[e|a] w']. Qed.

Lemma wp_catch {A} (m : M W E A) (h : E → M W E A) Q X w :
  wp m Q (λ e, wp (h e) Q X) w → wp (catch m h) Q X w.
Proof. unfold wp, catch. by destruct (m w) as [[e|a] w']. Qed.

Lemma wp_gets {A} (f : W → A) (Q : A → W → Prop) (X : E → W → Prop) w :
  Q (f w) w → wp (gets f) Q X w.
Proof. done. Qed.

Lemma wp_modify (f : W → W) (Q : unit → W → Prop) (X : E → W → Prop) w :
  Q tt (f w) → wp (modify f) Q X w.
Proof. done. Qed.

Lemma wp_mono {A} (m : M W E A) (Q Q' : A → W → Prop) (X X' : E → W → Prop) w :
  wp m Q X w →
  (∀ a w', Q a w' → Q' a w') →
  (∀ e w', X e w' → X' e w') →
  wp m Q' X' w.
Proof. unfold wp. destruct (m w) as [[e|a] w']; eauto. Qed.

Lemma wp_and {A} (m : M W E A) (Q1 Q2 : A → W → Prop) (X1 X2 : E → W → Prop) w :
  wp m Q1 X1 w → wp m Q2 X2 w → wp m (λ a w', Q1 a w' ∧ Q2 a w') (λ e w', X1 e w' ∧ X2 e w') w.
Proof. unfold wp. destruct (m w) as [[e|a] w']; eauto. Qed.

(** A loop keeps what each of its iterations keeps. *)
Lemma wp_for_each {A} (xs : list A) (f : A → M W E unit) (I : W → Prop) (X : E → W → Prop) w :
  I w → (∀ x w', x ∈ xs → I w' → wp (f x) (λ _, I) X w') → wp (for_each xs f) (λ _, I) X w.
Proof.
  revert w. induction xs as [|x xs IH]; intros w HI Hf; [done|].
  apply wp_bind. eapply wp_mono; [apply Hf; [set_solver|done]| |done].
  intros [] w' HI'. apply IH; [done|]. intros y w'' Hy. apply Hf. set_solver.
Qed.
End wp.

(** ** Inverting a run that returned *)
Lemma bind_returned {W E A B} (m : M W E A) (k : A → M W E B) w b w' :
  (m ≫= k) w = (inr b, w') → ∃ a w1, m w = (inr a, w1) ∧ k a w1 = (inr b, w').
Proof. unfold mbind, M_bind. destruct (m w) as [[e|a] w1]; [done|]. eauto. Qed.

Lemma finally_returned {W E A} (m : M W E A) f w a w' :
  finally m f w = (inr a, w') → ∃ w1, m w = (inr a, w1) ∧ f w1 = (inr tt, w').
Proof. unfold finally. destruct (m w) as [r w1] eqn:Hm. destruct (f w1) as [[e|[]] w2] eqn:Hf; [done|]. intros [= -> ->]. eauto. Qed.

(** ** Lists *)

(** [List.filter] with a boolean test keeps a sub-list. *)
Lemma filter_all {A} (p : A → bool) l : Forall (λ x, p x = true) l → List.filter p l = l.
Proof. induction 1 as [|x l Hx _ IH]; [done|]. simpl. by rewrite Hx, IH. Qed.
Lemma filter_none {A} (p : A → bool) l : Forall (λ x, p x = false) l → List.filter p l = [].
Proof. induction 1 as [|x l Hx _ IH]; [done|]. simpl. by rewrite Hx. Qed.
Lemma filter_bool_sublist {A} (f : A → bool) (l : list A) : List.filter f l `sublist_of` l.
Proof. induction l as [|x l IH]; simpl; [done|]. case_match; by constructor. Qed.

(** ** Justified traces

    [justified J l]: every event of [l] stands in the relation [J] to the events
    before it. *)
Definition justified {E} (J : list E → E → Prop) (l : list E) : Prop := ∀ l1 e l2, l = l1 ++ e :: l2 → J l1 e.

Section justified.
Context {E} (J : list E → E → Prop).

Lemma justified_nil : justified J [].
Proof. by intros [] ??. Qed.

Lemma justified_app l l' :
  justified J l → (∀ l1 e l2, l' = l1 ++ e :: l2 → J (l ++ l1) e) → justified J (l ++ l').
Proof.
  intros Hl Hl' l1 e l2 Heq. apply app_eq_app in Heq as (k & [[-> Hk]|[-> Hk]]).
  - destruct k as [|e' k]; simplify_eq/=; [|by eapply Hl].
    specialize (Hl' [] e l2 eq_refl). by rewrite !app_nil_r in Hl'.
  - by apply (Hl' _ _ l2).
Qed.

Lemma justified_snoc l e : justified J l → J l e → justified J (l ++ [e]).
Proof.
  intros Hl He. apply justified_app; [done|]. intros [|e' l1] e1 l2; [|by destruct l1].
  intros [= <- <-]. by rewrite app_nil_r.
Qed.
End justified.
