(* ===== verification/Js.v ===== *)
(** * The parts of the JavaScript runtime the sources use

    Insertion-ordered [Map]s, strings ([join], [startsWith], [lastIndexOf],
    [slice]), truthiness, decimal printing and [Number], the values
    [JSON.parse] returns, and the comparison of an integer with a quotient.
    Everything is executable; the lemmas are the ones the components share. *)
From stdpp Require Import base tactics list strings gmap sets.
From Stdlib Require Import ZArith Lia Ascii DecimalString DecimalZ DecimalPos.
From S2P Require Import Prelude.

(** ** [Map]: iteration follows the order of first insertion *)
Section jsmap.
Context {K V : Type} `{!EqDecision K}.
Implicit Types (m : list (K * V)) (k : K) (v : V).

Fixpoint jm_get m k : option V :=
  match m with
  | [] => None
  | (k', v) :: m' => if decide (k' = k) then Some v else jm_get m' k
  end.

(** [m.set(k, v)]: an existing key keeps its place, a new one goes last. *)
Fixpoint jm_set m k v : list (K * V) :=
  match m with
  | [] => [(k, v)]
  | (k', v') :: m' => if decide (k' = k) then (k', v) :: m' else (k', v') :: jm_set m' k v
  end.

Fixpoint jm_delete m k : list (K * V) :=
  match m with
  | [] => []
  | (k', v') :: m' => if decide (k' = k) then jm_delete m' k else (k', v') :: jm_delete m' k
  end.

Definition jm_has m k : bool := bool_decide (is_Some (jm_get m k)).
Definition jm_keys m : list K := m.*1.
Definition jm_values m : list V := m.*2.

Lemma jm_get_set_eq m k v : jm_get (jm_set m k v) k = Some v.
Proof. induction m as [|[k' v'] m IH]; simpl; repeat (case_decide; simpl); congruence. Qed.

Lemma jm_get_set_ne m k k' v : k ≠ k' → jm_get (jm_set m k v) k' = jm_get m k'.
Proof.
  intros Hne. induction m as [|[k0 v0] m IH]; simpl; repeat (case_decide; simpl); congruence.
Qed.

Lemma jm_get_delete_eq m k : jm_get (jm_delete m k) k = None.
Proof. induction m as [|[k' v'] m IH]; simpl; [done|]. repeat (case_decide; simpl); congruence. Qed.

Lemma jm_get_delete_ne m k k' : k ≠ k' → jm_get (jm_delete m k) k' = jm_get m k'.
Proof.
  intros Hne. induction m as [|[k0 v0] m IH]; simpl; repeat (case_decide; simpl); congruence.
Qed.

Lemma jm_get_None m k : jm_get m k = None ↔ k ∉ jm_keys m.
Proof.
  unfold jm_keys. induction m as [|[k' v'] m IH]; csimpl; [set_solver|].
  case_decide; rewrite elem_of_cons; [naive_solver|]. rewrite IH. naive_solver.
Qed.

Lemma jm_get_elem_of m k v : jm_get m k = Some v → (k, v) ∈ m.
Proof. induction m as [|[k' v'] m IH]; simpl; [done|]. case_decide; set_solver. Qed.

Lemma jm_get_elem_of_NoDup m k v : NoDup (jm_keys m) → (k, v) ∈ m → jm_get m k = Some v.
Proof.
  unfold jm_keys. induction m as [|[k' v'] m IH]; csimpl; [set_solver|].
  intros [Hni Hnd]%NoDup_cons [[= -> ->]|Hin]%elem_of_cons; [by rewrite decide_True|].
  rewrite decide_False; [by apply IH|]. intros ->. apply Hni. apply list_elem_of_fmap. by exists (k, v).
Qed.

Lemma jm_keys_set m k v : jm_keys (jm_set m k v) = if decide (k ∈ jm_keys m) then jm_keys m else jm_keys m ++ [k].
Proof.
  unfold jm_keys. induction m as [|[k' v'] m IH]; csimpl; [done|].
  destruct (decide (k' = k)) as [->|Hk]; csimpl.
  - rewrite decide_True; [done|]. apply elem_of_cons. by left.
  - rewrite IH. repeat case_decide; try done; exfalso; set_solver.
Qed.

Lemma jm_keys_delete m k x : x ∈ jm_keys (jm_delete m k) ↔ x ∈ jm_keys m ∧ x ≠ k.
Proof.
  unfold jm_keys. induction m as [|[k' v'] m IH]; csimpl; [set_solver|].
  case_decide; csimpl; rewrite ?elem_of_cons, IH; naive_solver.
Qed.

Lemma jm_set_NoDup m k v : NoDup (jm_keys m) → NoDup (jm_keys (jm_set m k v)).
Proof.
  intros Hnd. rewrite jm_keys_set. case_decide; [done|].
  apply NoDup_app; repeat split; [done|set_solver|apply NoDup_singleton].
Qed.

Lemma jm_delete_NoDup m k : NoDup (jm_keys m) → NoDup (jm_keys (jm_delete m k)).
Proof.
  induction m as [|[k' v'] m IH]; csimpl; [done|].
  intros [Hni Hnd]%NoDup_cons. case_decide; [by apply IH|].
  csimpl. apply NoDup_cons. split; [|by apply IH].
  change ((jm_delete m k).*1) with (jm_keys (jm_delete m k)). rewrite jm_keys_delete. naive_solver.
Qed.

Lemma jm_delete_id m k : jm_get m k = None → jm_delete m k = m.
Proof. induction m as [|[k' v'] m IH]; simpl; [done|]. case_decide; [done|]. intros ?. by rewrite IH. Qed.

Lemma Forall_jm_set_at (P : K * V → Prop) m k v : P (k, v) → Forall P m → Forall P (jm_set m k v).
Proof.
  intros Hv. induction 1 as [|[k' v'] m Hp Hm IH]; simpl; [by repeat constructor|].
  case_decide; subst; by repeat constructor.
Qed.
Lemma Forall_jm_set (P : K * V → Prop) m k v :
  (∀ k', P (k', v)) → Forall P m → Forall P (jm_set m k v).
Proof. intros Hv. by apply Forall_jm_set_at. Qed.

Lemma Forall_jm_delete (P : K * V → Prop) m k : Forall P m → Forall P (jm_delete m k).
Proof. induction 1 as [|[k' v'] m Hp _ IH]; simpl; [done|]. case_decide; [done|by constructor]. Qed.

Lemma Forall_jm_get (P : K * V → Prop) m k v : Forall P m → jm_get m k = Some v → P (k, v).
Proof. intros HP Hget%jm_get_elem_of. by eapply Forall_forall in HP. Qed.
End jsmap.

Arguments jm_get : simpl never.
Lemma jm_get_cons {K V} `{!EqDecision K} (k' : K) (v : V) m k : jm_get ((k', v) :: m) k = if decide (k' = k) then Some v else jm_get m k.
Proof. done. Qed.
Arguments jm_set : simpl never.
Arguments jm_delete : simpl never.

Create HintDb jsmap.
Create Rewrite HintDb jsmap_rw.
#[export] Hint Rewrite @jm_get_set_eq @jm_get_delete_eq : jsmap_rw.
#[export] Hint Rewrite @jm_get_set_ne @jm_get_delete_ne using done : jsmap_rw.
#[export] Hint Resolve jm_set_NoDup jm_delete_NoDup : jsmap.

(** ** Strings *)

(** Truthiness of a nullable string and of a nullable number: [null],
    [undefined], [""] and [0] are falsy. *)
Definition truthy_str (o : option string) : bool :=
  match o with Some s => negb (bool_decide (s = "")) | None => false end.
Definition truthy_num (o : option Z) : bool :=
  match o with Some z => negb (Z.eqb z 0) | None => false end.

(** [xs.join(sep)]. *)
Fixpoint js_join (sep : string) (xs : list string) : string :=
  match xs with
  | [] => ""
  | [x] => x
  | x :: xs' => x +:+ sep +:+ js_join sep xs'
  end.

Fixpoint str_length (s : string) : nat :=
  match s with EmptyString => 0 | String _ s' => S (str_length s') end.

(** [s.slice(0, n)] and [s.slice(n)] for [0 <= n <= s.length]. *)
Fixpoint str_take (n : nat) (s : string) : string :=
  match n, s with
  | S n', String c s' => String c (str_take n' s')
  | _, _ => EmptyString
  end.
Fixpoint str_drop (n : nat) (s : string) : string :=
  match n, s with
  | S n', String _ s' => str_drop n' s'
  | O, _ => s
  | _, EmptyString => EmptyString
  end.

(** [s.startsWith(p)], [s.endsWith(p)], and [s.includes(c)] for one character. *)
Fixpoint starts_with (p s : string) : bool :=
  match p, s with
  | EmptyString, _ => true
  | String a p', String b s' => bool_decide (a = b) && starts_with p' s'
  | String _ _, EmptyString => false
  end.
Definition ends_with (p s : string) : bool :=
  Nat.leb (str_length p) (str_length s) && bool_decide (str_drop (str_length s - str_length p) s = p).
Fixpoint has_char (c : ascii) (s : string) : bool :=
  match s with
  | EmptyString => false
  | String a s' => bool_decide (a = c) || has_char c s'
  end.

(** [s.lastIndexOf(c)]; [None] is [-1]. *)
Fixpoint last_index (c : ascii) (s : string) : option nat :=
  match s with
  | EmptyString => None
  | String a s' =>
      match last_index c s' with
      | Some n => Some (S n)
      | None => if decide (a = c) then Some 0 else None
      end
  end.

Definition newline : ascii := ascii_of_nat 10.
(** [s.split(c)]: a non-empty list of the pieces between the occurrences of [c]. *)
Fixpoint split_on (c : ascii) (s : string) : list string :=
  match s with
  | EmptyString => [EmptyString]
  | String a s' =>
      if decide (a = c) then EmptyString :: split_on c s'
      else match split_on c s' with
           | [] => [String a EmptyString]
           | p :: ps => String a p :: ps
           end
  end.

(** [text.trim()]: the white space of the 8-bit characters *)
Definition js_space (c : ascii) : bool :=
  let n := nat_of_ascii c in (Nat.leb 9 n && Nat.leb n 13) || Nat.eqb n 32 || Nat.eqb n 160.
Fixpoint trim_start (s : string) : string :=
  match s with String c s' => if js_space c then trim_start s' else s | EmptyString => "" end.
Fixpoint trim_end (s : string) : string :=
  match s with
  | EmptyString => ""
  | String c s' =>
      let t := trim_end s' in
      if js_space c && bool_decide (t = "") then "" else String c t
  end.
Definition js_trim (s : string) : string := trim_end (trim_start s).

(** [s.includes(p)] *)
Fixpoint includes (p s : string) : bool :=
  starts_with p s || match s with EmptyString => false | String _ s' => includes p s' end.

(** [toUpperCase] and [toLowerCase] on ASCII letters, and the character classes of the regular
    expressions [[A-Za-z0-9_.-]] and [[a-fA-F0-9]]. *)
Definition in_chars (lo hi : nat) (c : ascii) : bool := Nat.leb lo (nat_of_ascii c) && Nat.leb (nat_of_ascii c) hi.
Definition upper_char (c : ascii) : ascii := if in_chars 97 122 c then ascii_of_nat (nat_of_ascii c - 32) else c.
Definition lower_char (c : ascii) : ascii := if in_chars 65 90 c then ascii_of_nat (nat_of_ascii c + 32) else c.
Fixpoint map_chars (f : ascii → ascii) (s : string) : string :=
  match s with EmptyString => EmptyString | String c s' => String (f c) (map_chars f s') end.
Definition to_upper : string → string := map_chars upper_char.
Definition to_lower : string → string := map_chars lower_char.
Definition name_char (c : ascii) : bool :=
  in_chars 65 90 c || in_chars 97 122 c || in_chars 48 57 c ||
  bool_decide (c = "_"%char) || bool_decide (c = "."%char) || bool_decide (c = "-"%char).
Definition hex_char (c : ascii) : bool := in_chars 48 57 c || in_chars 97 102 c || in_chars 65 70 c.
Fixpoint all_chars (f : ascii → bool) (s : string) : bool :=
  match s with EmptyString => true | String c s' => f c && all_chars f s' end.
(** [/^[A-Za-z0-9_.-]+$/.test(s)] *)
Definition name_re (s : string) : bool := negb (bool_decide (s = "")) && all_chars name_char s.

Notation colon := ":"%char.

(** ** Numbers *)

(** The text of an integer in a template literal, and [Number(text)] on the
    texts such literals produce ([None] is [NaN]; hexadecimal and exponent texts, which
    are not written here, are left out). *)
Definition show_int (z : Z) : string := NilZero.string_of_int (Z.to_int z).
Definition js_Number (s : string) : option Z := Z.of_int <$> NilZero.int_of_string s.

(** [a >= r / t] on the doubles of three integers: [r / 0] is an infinity of the
    sign of [r], or [NaN], which no number reaches. *)
Definition ge_quot (a r t : Z) : bool :=
  if Z.ltb 0 t then Z.leb r (a * t)
  else if Z.ltb t 0 then Z.leb (a * t) r
  else Z.ltb r 0.

(** ** The values of [JSON.parse]

    [NumInt] is a double with an integral value, [NumOther] any other number (given by
    its floor; an infinity by an integer beyond all finite doubles) that
    [JSON.parse] can return: [Number.isInteger] separates them. *)
Inductive jsnum := NumInt (z : Z) | NumOther (floor : Z).

Inductive json :=
| JNull
| JBool (b : bool)
| JNum (n : jsnum)
| JStr (s : string)
| JArr (l : list json)
| JObj (fields : list (string * json)).

(** [o.key] of a plain object: [None] is [undefined]. *)
Definition obj_get (fields : list (string * json)) (key : string) : option json :=
  jm_get fields key.

(** [typeof v === 'number' && Number.isInteger(v)]. *)
Definition is_integer (v : option json) : option Z :=
  match v with Some (JNum (NumInt z)) => Some z | _ => None end.

(** [typeof v === 'string'] and [typeof v === 'string' && v.length > 0]. *)
Definition is_string (v : option json) : option string :=
  match v with Some (JStr s) => Some s | _ => None end.
Definition is_nonempty_string (v : option json) : option string :=
  match v with Some (JStr s) => if decide (s = "") then None else Some s | _ => None end.

(** *** String lemmas *)
Lemma str_app_cons a s t : String a s +:+ t = String a (s +:+ t).
Proof. done. Qed.

Lemma str_app_nil_r s : s +:+ "" = s.
Proof. induction s as [|a s IH]; [done|]. by rewrite str_app_cons, IH. Qed.

Lemma str_app_assoc a b c : (a +:+ b) +:+ c = a +:+ (b +:+ c).
Proof. induction a as [|x a IH]; [done|]. by rewrite !str_app_cons, IH. Qed.

Lemma str_take_app a b : str_take (str_length a) (a +:+ b) = a.
Proof. induction a as [|x a IH]; [by destruct b|]. rewrite str_app_cons. simpl. by rewrite IH. Qed.

Lemma str_drop_app a b : str_drop (str_length a) (a +:+ b) = b.
Proof. induction a as [|x a IH]; [by destruct b|]. rewrite str_app_cons. simpl. by rewrite IH. Qed.

Lemma str_length_app a b : str_length (a +:+ b) = str_length a + str_length b.
Proof. induction a as [|x a IH]; [done|]. rewrite str_app_cons. simpl. by rewrite IH. Qed.

Lemma starts_with_app p s : starts_with p (p +:+ s) = true.
Proof. induction p as [|a p IH]; [by destruct s|]. rewrite str_app_cons. simpl. by rewrite bool_decide_eq_true_2, IH. Qed.

Lemma starts_with_spec p s : starts_with p s = true ↔ ∃ t, s = p +:+ t.
Proof.
  split; [|intros [t ->]; apply starts_with_app].
  revert s. induction p as [|a p IH]; intros s; [by exists s|].
  destruct s as [|b s]; simpl; [done|]. rewrite andb_true_iff, bool_decide_eq_true.
  intros [-> [t ->]%IH]. by exists t.
Qed.

Lemma ends_with_app p s : ends_with p (s +:+ p) = true.
Proof.
  unfold ends_with. rewrite str_length_app, andb_true_iff, bool_decide_eq_true. split.
  - apply Nat.leb_le. lia.
  - replace (str_length s + str_length p - str_length p) with (str_length s) by lia. apply str_drop_app.
Qed.

Lemma has_char_app c a b : has_char c (a +:+ b) = has_char c a || has_char c b.
Proof. induction a as [|x a IH]; [done|]. rewrite str_app_cons. simpl. by rewrite IH, orb_assoc. Qed.

Lemma last_index_None c s : last_index c s = None ↔ has_char c s = false.
Proof.
  induction s as [|a s IH]; simpl; [done|].
  rewrite orb_false_iff, bool_decide_eq_false.
  destruct (last_index c s); [|case_decide]; naive_solver.
Qed.

Lemma last_index_app c a b : has_char c b = false → last_index c (a +:+ String c b) = Some (str_length a).
Proof.
  intros Hb. induction a as [|x a IH].
  - simpl. apply last_index_None in Hb. by rewrite Hb, decide_True.
  - rewrite str_app_cons. simpl. by rewrite IH.
Qed.

(** A separator that the left pieces (the right pieces) do not contain splits a
    string in one way only. *)
Lemma sep_inj_l c a a' b b' :
  has_char c a = false → has_char c a' = false →
  a +:+ String c b = a' +:+ String c b' → a = a' ∧ b = b'.
Proof.
  revert a'. induction a as [|x a IH]; intros [|x' a']; simpl;
    rewrite ?orb_false_iff, ?bool_decide_eq_false; intros Ha Ha' Heq; simplify_eq; [done|naive_solver|naive_solver|].
  destruct Ha, Ha'. destruct (IH a') as [-> ->]; naive_solver.
Qed.

Lemma sep_inj_r c a a' b b' :
  has_char c b = false → has_char c b' = false →
  a +:+ String c b = a' +:+ String c b' → a = a' ∧ b = b'.
Proof.
  intros Hb Hb' Heq.
  assert (str_length a = str_length a') as Hlen.
  { apply (f_equal (last_index c)) in Heq. rewrite !last_index_app in Heq by done. congruence. }
  assert (a = a') as ->.
  { rewrite <- (str_take_app a (String c b)), <- (str_take_app a' (String c b')), Heq. by f_equal. }
  split; [done|]. apply (f_equal (str_drop (str_length a'))) in Heq. rewrite !str_drop_app in Heq. by simplify_eq.
Qed.

(** A string with exactly one separator has one piece before it. *)
Lemma sep_unique c a a' b b' :
  has_char c a = false → has_char c b = false →
  a +:+ String c b = a' +:+ String c b' → a' = a.
Proof.
  intros Ha Hb. revert a' Ha. induction a as [|x a IH]; intros [|x' a'] Ha Heq; [done|..].
  - rewrite str_app_cons in Heq. injection Heq as <- ->.
    rewrite has_char_app in Hb. simpl in Hb. rewrite bool_decide_eq_true_2 in Hb by done.
    by rewrite orb_true_r in Hb.
  - rewrite str_app_cons in Heq. injection Heq as -> _. simpl in Ha.
    by rewrite bool_decide_eq_true_2 in Ha.
  - rewrite !str_app_cons in Heq. injection Heq as <- Heq. simpl in Ha.
    apply orb_false_iff in Ha as [_ Ha]. f_equal. by apply IH.
Qed.

(** [split] and [join] undo each other, and splitting distributes over a separator. *)
Lemma split_on_not_nil c s : split_on c s ≠ [].
Proof. destruct s as [|a s]; simpl; [done|]. case_decide; [done|]. by destruct (split_on c s). Qed.

Lemma split_on_app c a b : split_on c (a +:+ String c b) = split_on c a ++ split_on c b.
Proof.
  induction a as [|x a IH].
  - change ("" +:+ String c b) with (String c b). simpl. by rewrite decide_True.
  - rewrite str_app_cons. simpl. rewrite IH. case_decide; [done|].
    pose proof (split_on_not_nil c a). by destruct (split_on c a).
Qed.

Lemma split_on_no_char c a : has_char c a = false → split_on c a = [a].
Proof.
  induction a as [|x a IH]; [done|]. simpl. rewrite orb_false_iff, bool_decide_eq_false.
  intros [Hx Ha]. rewrite decide_False by done. by rewrite IH.
Qed.

Lemma join_split c s : js_join (String c "") (split_on c s) = s.
Proof.
  induction s as [|a s IH]; [done|]. simpl. pose proof (split_on_not_nil c s) as Hn.
  case_decide as Ha.
  - subst. destruct (split_on c s) as [|p ps]; [done|].
    change (js_join (String c "") ("" :: p :: ps)) with ("" +:+ String c "" +:+ js_join (String c "") (p :: ps)).
    by rewrite IH.
  - destruct (split_on c s) as [|p ps]; [done|]. destruct ps as [|q ps]; [by simplify_eq/=|].
    change (js_join (String c "") (String a p :: q :: ps)) with (String a p +:+ String c "" +:+ js_join (String c "") (q :: ps)).
    rewrite str_app_cons. f_equal. exact IH.
Qed.

(** ** The items of [new Set(xs)], in order, without those already [seen] *)
Fixpoint js_unique (xs : list string) (seen : list string) : list string :=
  match xs with
  | [] => []
  | x :: xs' => if decide (x ∈ seen) then js_unique xs' seen else x :: js_unique xs' (x :: seen)
  end.
Lemma elem_of_js_unique xs seen x : x ∈ js_unique xs seen ↔ x ∈ xs ∧ x ∉ seen.
Proof.
  revert seen. induction xs as [|y xs IH]; intros seen; simpl; [set_solver|]. case_decide; rewrite ?elem_of_cons, IH; [naive_solver|].
  rewrite elem_of_cons. destruct (decide (x = y)); naive_solver.
Qed.
Lemma js_unique_NoDup xs seen : NoDup (js_unique xs seen).
Proof.
  revert seen. induction xs as [|y xs IH]; intros seen; simpl; [constructor|]. case_decide; [apply IH|].
  constructor; [|apply IH]. rewrite elem_of_js_unique. set_solver.
Qed.

(** *** Number lemmas *)
Lemma js_Number_show_int z : js_Number (show_int z) = Some z.
Proof.
  unfold js_Number, show_int. rewrite NilZero.isi.
  - simpl. by rewrite DecimalZ.of_to.
  - intros Heq. assert (z = 0%Z) as -> by (rewrite <- (DecimalZ.of_to z), Heq; done). done.
  - intros Heq. assert (z = 0%Z) as -> by (rewrite <- (DecimalZ.of_to z), Heq; done). done.
Qed.

#[global] Instance show_int_inj : Inj (=) (=) show_int.
Proof. intros x y Heq. apply (f_equal js_Number) in Heq. rewrite !js_Number_show_int in Heq. by simplify_eq. Qed.

Lemma string_of_uint_no_colon d : has_char colon (NilEmpty.string_of_uint d) = false.
Proof. induction d; simpl; auto. Qed.

Lemma show_int_no_colon z : has_char colon (show_int z) = false.
Proof.
  unfold show_int, NilZero.string_of_int, NilZero.string_of_uint.
  destruct (Z.to_int z) as [d|d]; destruct d; simpl; rewrite ?string_of_uint_no_colon; done.
Qed.

Lemma ge_quot_pos a r t : (0 < t)%Z → ge_quot a r t = true ↔ (r ≤ a * t)%Z.
Proof. intros. unfold ge_quot. destruct (Z.ltb_spec 0 t); [|lia]. apply Z.leb_le. Qed.
