(* ===== verification/Paths.v ===== *)
(** * Path containment (control-plane/src/utils/path-containment.ts)

    [isContainedIn] guards every model path a request or a stored record names: it
    must lie strictly inside the weights directory.  It works on texts with [resolve]
    of [node:path] (POSIX), which is modelled here; the theorem restates the prefix test
    on texts as a prefix of lists of path segments. *)
From stdpp Require Import base tactics list strings.
From Stdlib Require Import ZArith Lia Ascii.
From S2P Require Import Prelude Js.

Definition slash : ascii := "/"%char.

(** [normalizeString] for an absolute path: the segments, without empty ones and [.],
    where [..] takes back the segment before it, if any. *)
Definition normalize_step (acc : list string) (seg : string) : list string :=
  if decide (seg = "" ∨ seg = ".") then acc
  else if decide (seg = "..") then take (length acc - 1) acc
  else acc ++ [seg].
Definition normalize (segs : list string) : list string := foldl normalize_step [] segs.

(** [resolve(path)] in the directory [cwd], as its segments and as a text *)
Definition resolve_segs (cwd path : string) : list string :=
  normalize (split_on slash (if starts_with "/" path then path else cwd +:+ "/" +:+ path)).
Definition path_text (segs : list string) : string := "/" +:+ js_join "/" segs.
Definition resolve (cwd path : string) : string := path_text (resolve_segs cwd path).

Definition isContainedIn (cwd candidate root : string) : bool :=
  if negb (starts_with "/" candidate) then false
  else starts_with (resolve cwd root +:+ "/") (resolve cwd candidate).

(** ** Lemmas *)
Definition proper_seg (s : string) : Prop := s ≠ "" ∧ s ≠ "." ∧ s ≠ ".." ∧ has_char slash s = false.

Lemma split_on_no_slash c s x : x ∈ split_on c s → has_char c x = false.
Proof.
  revert x. induction s as [|a s IH]; intros x; simpl.
  - intros ->%list_elem_of_singleton. done.
  - case_decide as Ha; [intros [-> |Hx]%elem_of_cons; auto|].
    pose proof (split_on_not_nil c s). destruct (split_on c s) as [|y ys]; [done|].
    intros [-> |Hx]%elem_of_cons; [|apply IH; by right]. simpl. rewrite bool_decide_eq_false_2 by done. apply IH. by left.
Qed.

Lemma normalize_proper segs acc :
  Forall (λ s, has_char slash s = false) segs → Forall proper_seg acc → Forall proper_seg (foldl normalize_step acc segs).
Proof.
  revert acc. induction segs as [|s segs IH]; intros acc Hs Hacc; simpl; [done|].
  apply Forall_cons in Hs as [Hs Hrest]. apply IH; [done|]. unfold normalize_step.
  case_decide as He; [done|]. case_decide; [by apply Forall_take|].
  apply Forall_app. split; [done|]. constructor; [|done]. unfold proper_seg. tauto.
Qed.
Lemma resolve_proper cwd p : Forall proper_seg (resolve_segs cwd p).
Proof. apply normalize_proper; [|done]. apply Forall_forall. intros x. apply split_on_no_slash. Qed.

Lemma split_join_segs segs : segs ≠ [] → Forall proper_seg segs → split_on slash (js_join "/" segs) = segs.
Proof.
  intros Hne Hp. induction Hp as [|s segs (_ & _ & _ & Hs) Hp IH]; [done|].
  destruct segs as [|s' segs]; [by apply split_on_no_char|].
  change (js_join "/" (s :: s' :: segs)) with (s +:+ String slash (js_join "/" (s' :: segs))).
  rewrite split_on_app, IH, split_on_no_char by done. done.
Qed.

Lemma join_app a b : a ≠ [] → b ≠ [] → js_join "/" (a ++ b) = js_join "/" a +:+ "/" +:+ js_join "/" b.
Proof.
  intros Ha Hb. induction a as [|x a IH]; [done|]. destruct a as [|y a].
  - by destruct b.
  - change ((x :: y :: a) ++ b) with (x :: (y :: a ++ b)).
    change (js_join "/" (x :: y :: a ++ b)) with (x +:+ "/" +:+ js_join "/" ((y :: a) ++ b)). rewrite IH by done.
    change (js_join "/" (x :: y :: a)) with (x +:+ "/" +:+ js_join "/" (y :: a)). by rewrite !str_app_assoc.
Qed.

Lemma path_text_prefix a b :
  Forall proper_seg a → Forall proper_seg b →
  starts_with (path_text a +:+ "/") (path_text b) = true ↔ a ≠ [] ∧ ∃ rest, rest ≠ [] ∧ b = a ++ rest.
Proof.
  intros Ha Hb. rewrite starts_with_spec. unfold path_text. split.
  - intros [t Ht]. rewrite !str_app_assoc in Ht. injection Ht as Ht. change (js_join "/" b = js_join "/" a +:+ "/" +:+ t) in Ht. destruct a as [|x a].
    { exfalso. destruct b as [|y b]; [done|]. apply Forall_cons in Hb as [(Hy & _ & _ & Hs) _].
      destruct y as [|c y]; [done|]. simpl in Hs. apply orb_false_iff in Hs as [Hc%bool_decide_eq_false _].
      apply Hc. destruct b; by injection Ht. }
    split; [done|]. destruct b as [|y b]; [by destruct a, x|].
    assert (split_on slash (js_join "/" (y :: b)) = y :: b) as Hsb by (by apply split_join_segs).
    rewrite Ht in Hsb. change ("/" +:+ t) with (String slash t) in Hsb. rewrite split_on_app, split_join_segs in Hsb by done.
    exists (split_on slash t). split; [apply split_on_not_nil|done].
  - intros (Hne & rest & Hr & ->). exists (js_join "/" rest). by rewrite join_app, !str_app_assoc by done.
Qed.

(** The containment check is exactly "strictly below the root".  A path passes
    [isContainedIn] if and only if it is absolute, the resolved root is not [/], and its
    resolved segments are those of the root followed by at least one more; a resolved
    path has no [..], [.] or empty segment, so no text escapes the root that way, and no
    sibling whose name merely begins with the root's name passes.  (With the root [/]
    nothing passes.) *)
Theorem isContainedIn_spec cwd candidate root :
  (isContainedIn cwd candidate root = true ↔
     starts_with "/" candidate = true ∧ resolve_segs cwd root ≠ [] ∧
     ∃ rest, rest ≠ [] ∧ resolve_segs cwd candidate = resolve_segs cwd root ++ rest) ∧
  Forall proper_seg (resolve_segs cwd candidate).
Proof.
  split; [|apply resolve_proper]. unfold isContainedIn, resolve.
  destruct (starts_with "/" candidate); cbn [negb]; [|naive_solver].
  rewrite path_text_prefix by apply resolve_proper. naive_solver.
Qed.

Example contained_examples :
  isContainedIn "/app" "/models/llama/../qwen" "/models" = true ∧
  isContainedIn "/app" "/models/../etc" "/models" = false ∧
  isContainedIn "/app" "/models2/x" "/models" = false ∧
  isContainedIn "/app" "/models/" "/models" = false ∧
  isContainedIn "/app" "/app/weights/x" "weights" = true ∧
  isContainedIn "/app" "/x" "/" = false.
Proof. by vm_compute. Qed.
