(* ===== verification/Types.v ===== *)
(** * Shared data types

    The enums of [packages/types] and the records the services persist in
    Redis.  An enum member's JavaScript value is its name, given by the
    [*_str] functions. *)
From stdpp Require Import base tactics list strings gmap.
From Stdlib Require Import ZArith.
From S2P Require Import Prelude Js.

(** ** Enums of the generated contract types *)
Module ModelLifecycleState.
Inductive t := PENDING | STARTING | ACTIVE | DRAINING | SLEEPING | STOPPING | STOPPED | ERROR.
#[global] Instance t_eq_dec : EqDecision t.
Proof. solve_decision. Defined.
End ModelLifecycleState.
Notation ModelLifecycleState := ModelLifecycleState.t.

Definition all_lifecycle_states : list ModelLifecycleState :=
  [ModelLifecycleState.PENDING; ModelLifecycleState.STARTING; ModelLifecycleState.ACTIVE;
   ModelLifecycleState.DRAINING; ModelLifecycleState.SLEEPING; ModelLifecycleState.STOPPING;
   ModelLifecycleState.STOPPED; ModelLifecycleState.ERROR].

Definition lifecycle_str (s : ModelLifecycleState) : string :=
  match s with
  | ModelLifecycleState.PENDING => "PENDING"
  | ModelLifecycleState.STARTING => "STARTING"
  | ModelLifecycleState.ACTIVE => "ACTIVE"
  | ModelLifecycleState.DRAINING => "DRAINING"
  | ModelLifecycleState.SLEEPING => "SLEEPING"
  | ModelLifecycleState.STOPPING => "STOPPING"
  | ModelLifecycleState.STOPPED => "STOPPED"
  | ModelLifecycleState.ERROR => "ERROR"
  end.

Module ModelState.
Inductive t := ACTIVE | SLEEPING | STARTING | DRAINING | ERROR.
#[global] Instance t_eq_dec : EqDecision t.
Proof. solve_decision. Defined.
End ModelState.
Notation ModelState := ModelState.t.

Module Protocol.
Inductive t := openai | oip.
#[global] Instance t_eq_dec : EqDecision t.
Proof. solve_decision. Defined.
End Protocol.
Notation Protocol := Protocol.t.

Module RoutingMapUpdateType.
Inductive t :=
| MODEL_STATE_CHANGED | ENDPOINT_ADDED | ENDPOINT_REMOVED | ENDPOINT_UPDATED | MODEL_ADDED | MODEL_REMOVED.
#[global] Instance t_eq_dec : EqDecision t.
Proof. solve_decision. Defined.
End RoutingMapUpdateType.
Notation RoutingMapUpdateType := RoutingMapUpdateType.t.

Module RunnerState.
Inductive t := STARTING | READY | BUSY | SLEEPING | ERROR.
#[global] Instance t_eq_dec : EqDecision t.
Proof. solve_decision. Defined.
End RunnerState.
Notation RunnerState := RunnerState.t.

Module WorkerStatus.
Inductive t := ONLINE | DEGRADED | OFFLINE.
#[global] Instance t_eq_dec : EqDecision t.
Proof. solve_decision. Defined.
End WorkerStatus.
Notation WorkerStatus := WorkerStatus.t.

Module DeviceType.
Inductive t := CUDA | ROCM | CPU | OTHER.
#[global] Instance t_eq_dec : EqDecision t.
Proof. solve_decision. Defined.
End DeviceType.
Notation DeviceType := DeviceType.t.

Definition device_str (d : DeviceType) : string :=
  match d with
  | DeviceType.CUDA => "CUDA" | DeviceType.ROCM => "ROCM"
  | DeviceType.CPU => "CPU" | DeviceType.OTHER => "OTHER"
  end.
Definition all_device_types : list DeviceType :=
  [DeviceType.CUDA; DeviceType.ROCM; DeviceType.CPU; DeviceType.OTHER].

Module ModelType.
Inductive t := LLM | DIFFUSION | PREDICTIVE | EMBEDDING | OTHER.
#[global] Instance t_eq_dec : EqDecision t.
Proof. solve_decision. Defined.
End ModelType.
Notation ModelType := ModelType.t.

Definition model_type_str (d : ModelType) : string :=
  match d with
  | ModelType.LLM => "LLM" | ModelType.DIFFUSION => "DIFFUSION"
  | ModelType.PREDICTIVE => "PREDICTIVE" | ModelType.EMBEDDING => "EMBEDDING" | ModelType.OTHER => "OTHER"
  end.
Definition all_model_types : list ModelType :=
  [ModelType.LLM; ModelType.DIFFUSION; ModelType.PREDICTIVE; ModelType.EMBEDDING; ModelType.OTHER].

Module SleepLevel.
Inductive t := L1_HOST_RAM.
#[global] Instance t_eq_dec : EqDecision t.
Proof. solve_decision. Defined.
End SleepLevel.
Notation SleepLevel := SleepLevel.t.

Definition sleep_level_str (l : SleepLevel) : string :=
  match l with SleepLevel.L1_HOST_RAM => "L1_HOST_RAM" end.
Definition all_sleep_levels : list SleepLevel := [SleepLevel.L1_HOST_RAM].

(** [isEnumValue(v, enumObj)]: the member whose value is the string [v]. *)
Definition enum_value {T} (str : T → string) (members : list T) (v : option json) : option T :=
  s ← is_string v; find (λ m, bool_decide (str m = s)) members.

Lemma enum_value_Some {T} (str : T → string) (members : list T) v m :
  enum_value str members v = Some m → v = Some (JStr (str m)) ∧ m ∈ members.
Proof.
  unfold enum_value. destruct v as [[]|]; simpl; try done.
  intros [Hin Heq]%find_some. apply bool_decide_eq_true in Heq. subst. split; [done|]. by apply list_elem_of_In.
Qed.

Lemma device_str_inj d d' : device_str d = device_str d' → d = d'.
Proof. by destruct d, d'. Qed.

(** ** Records persisted in Redis *)

(** [InstanceState] of model-lifecycle.ts.  [runnerEnginePort] and [protocol]
    are optional there; [null] and [undefined] are both [None].
    [runnerStartAmbiguous] is absent or [true]. *)
Record InstanceState := mkInstance {
  instanceId : string;
  modelName : string;
  state : ModelLifecycleState;
  protocol : option Protocol;
  workerId : option string;
  runnerHost : option string;
  runnerPort : option Z;
  runnerEnginePort : option Z;
  runnerId : option string;
  deviceIndices : option (list Z);
  lastInferenceAt : option string;
  stateChangedAt : string;
  errorMessage : option string;
  runnerStartAmbiguous : bool;
}.
#[global] Instance InstanceState_eq_dec : EqDecision InstanceState.
Proof. solve_decision. Defined.

Module MoveOperationPhase.
Inductive t := REPLACEMENT_STARTING | REPLACEMENT_READY | CUTTING_OVER | SOURCE_DRAINING | REPLACEMENT_CLEANUP.
#[global] Instance t_eq_dec : EqDecision t.
Proof. solve_decision. Defined.
End MoveOperationPhase.
Notation MoveOperationPhase := MoveOperationPhase.t.

Record MoveOperation := mkMove {
  operationId : string;
  mv_modelName : string;
  sourceInstanceId : string;
  replacementInstanceId : string;
  targetWorkerId : string;
  targetDeviceIndices : list Z;
  phase : MoveOperationPhase;
  createdAt : string;
  updatedAt : string;
  mv_errorMessage : option string;
}.

#[global] Instance MoveOperation_eq_dec : EqDecision MoveOperation.
Proof. solve_decision. Defined.

Record RunnerEndpoint := mkEndpoint {
  ep_host : string;
  ep_port : Z;
  ep_weight : Z;
  ep_healthy : bool;
  ep_runnerId : option string;
}.
#[global] Instance RunnerEndpoint_eq_dec : EqDecision RunnerEndpoint.
Proof. solve_decision. Defined.

Record RoutingEntry := mkEntry {
  re_modelName : string;
  re_state : ModelState;
  re_protocol : Protocol;
  re_endpoints : list RunnerEndpoint;
  re_updatedAt : string;
  re_metadata : option (option string * option Z);
}.

Record RoutingMapUpdate := mkUpdate {
  up_type : RoutingMapUpdateType;
  up_modelName : string;
  up_state : option ModelState;
  up_endpoint : option RunnerEndpoint;
  up_timestamp : string;
}.

(** ** Dates

    [new Date(ms).toISOString()] and [new Date(text).getTime()] ([None] is
    [NaN]).  The ECMAScript date grammar leaves texts outside its own format to
    the engine, so both are parameters; the one law used is that a timestamp
    this program printed reads back. *)
Class JsDate := {
  toISOString : Z → string;
  getTime : string → option Z;
  getTime_toISOString ms : getTime (toISOString ms) = Some ms;
}.

(** A date implementation, for closed examples: decimal milliseconds. *)
#[export] Instance decimal_date : JsDate | 100 := {|
  toISOString := show_int;
  getTime := js_Number;
  getTime_toISOString := js_Number_show_int;
|}.
