(* ===== verification/Errors.v ===== *)
(** * Errors thrown by the control plane (control-plane/src/errors.ts)

    [ControlPlaneError] with its HTTP status, code and message, its named
    constructors, and the other throwables the services meet. *)
From stdpp Require Import base tactics list strings.
From Stdlib Require Import ZArith.
From S2P Require Import Prelude Js Types.

Inductive ErrorCode :=
| MODEL_NOT_FOUND | MODEL_ALREADY_EXISTS | INVALID_STATE | WORKER_NOT_FOUND | PLACEMENT_FAILED
| EVICTION_FAILED | RUNNER_UNAVAILABLE | RUNNER_TIMEOUT | NOT_LEADER | REDIS_ERROR | DATABASE_ERROR
| INVALID_REQUEST | CATALOG_NOT_FOUND | CATALOG_FETCH_FAILED | MODULE_IN_USE
| PROXY_PROTOCOL_UNSUPPORTED | UNAUTHORIZED | INTERNAL_ERROR.
#[global] Instance ErrorCode_eq_dec : EqDecision ErrorCode.
Proof. solve_decision. Defined.

Record ControlPlaneError := mkCPError {
  statusCode : Z;
  code : ErrorCode;
  message : string;
}.
#[global] Instance ControlPlaneError_eq_dec : EqDecision ControlPlaneError.
Proof. solve_decision. Defined.

Definition modelNotFound (modelName : string) : ControlPlaneError :=
  mkCPError 404 MODEL_NOT_FOUND ("Model not found: " +:+ modelName).
Definition modelAlreadyExists (modelName : string) : ControlPlaneError :=
  mkCPError 409 MODEL_ALREADY_EXISTS ("Model already exists: " +:+ modelName).
Definition invalidState (modelName currentState action : string) : ControlPlaneError :=
  mkCPError 409 INVALID_STATE
    ("Cannot " +:+ action +:+ " model " +:+ modelName +:+ ": current state is " +:+ currentState).
Definition invalidInstanceState (modelName instanceId instanceState action : string) : ControlPlaneError :=
  mkCPError 409 INVALID_STATE
    ("Cannot " +:+ action +:+ " model " +:+ modelName +:+ ": instance " +:+ instanceId +:+ " is in " +:+ instanceState +:+ " state").
Definition operationInProgress (modelName action detail : string) : ControlPlaneError :=
  mkCPError 409 INVALID_STATE ("Cannot " +:+ action +:+ " model " +:+ modelName +:+ ": " +:+ detail).
Definition workerNotFound (workerId : string) : ControlPlaneError :=
  mkCPError 404 WORKER_NOT_FOUND ("Worker not found: " +:+ workerId).
Definition placementFailed (modelName reason : string) : ControlPlaneError :=
  mkCPError 503 PLACEMENT_FAILED ("Placement failed for " +:+ modelName +:+ ": " +:+ reason).
Definition notLeader : ControlPlaneError := mkCPError 503 NOT_LEADER "This instance is not the active leader".
Definition invalidRequest (msg : string) : ControlPlaneError :=
  mkCPError 400 INVALID_REQUEST msg.

(** What a service can throw: a [ControlPlaneError], a [WorkerHttpError] of
    clients/worker.ts, deploy-orchestration's [DeployOwnershipLostError], or
    another [Error] with its message.  [OutOfFuel] is thrown by no code: it is
    what a polling loop of the model returns when its iteration bound is too
    small, and the loops' theorems exclude it. *)
Inductive Exn :=
| CPError (e : ControlPlaneError)
| WorkerHttpError (msg : string) (status : Z)
| DeployOwnershipLost
| OtherError (msg : string)
| OutOfFuel.
#[global] Instance Exn_eq_dec : EqDecision Exn.
Proof. solve_decision. Defined.

(** [err instanceof Error ? err.message : String(err)]. *)
Definition err_message (e : Exn) : string :=
  match e with
  | CPError e => message e
  | WorkerHttpError msg _ => msg
  | DeployOwnershipLost => "Deployment ownership was lost during runner startup"
  | OtherError msg => msg
  | OutOfFuel => ""
  end.
