(* ===== verification/Notifications.v ===== *)
(** * Notifications (control-plane/src/services/notification.ts)

    The newest 200 notifications are a Redis list, newest first.  Every awaited command
    of the service can find the list changed by another request; a pipeline sends its
    commands together but the server may run others between them, and a command of a
    pipeline that fails is not reported to the service.  The texts in the list are JSON
    of the records here. *)
From stdpp Require Import base tactics list strings sets.
From Stdlib Require Import ZArith Lia.
From S2P Require Import Prelude Js Types Errors.

Record StoredNotification := mkNotification {
  n_id : string;
  n_title : string;
  n_description : option string;
  n_variant : string;
  n_timestamp : string;
  n_isRead : bool;
  n_source : option (string * option string);
}.
#[global] Instance StoredNotification_eq_dec : EqDecision StoredNotification.
Proof. solve_decision. Defined.

Record NotificationParams := mkParams {
  np_title : string; np_description : option string; np_variant : string; np_source : option (string * option string);
}.

Definition MAX_NOTIFICATIONS : Z := 200.
Definition mark_read (n : StoredNotification) : StoredNotification :=
  mkNotification (n_id n) (n_title n) (n_description n) (n_variant n) (n_timestamp n) true (n_source n).

(** ** Redis lists *)

(** The [start]..[stop] range of LRANGE and LTRIM; negative positions count from the end. *)
Definition lrange {A} (start stop : Z) (l : list A) : list A :=
  let len := Z.of_nat (length l) in
  let from := Z.max 0 (if Z.ltb start 0 then start + len else start)%Z in
  let to := (if Z.ltb stop 0 then stop + len else stop)%Z in
  take (Z.to_nat (to + 1 - from)) (drop (Z.to_nat from) l).
(** [LSET]: an error past the end, reported as [false] *)
Definition lset {A} (index : nat) (x : A) (l : list A) : bool * list A := (bool_decide (index < length l), <[index := x]> l).
(** [LREM key 1 x]: the first occurrence from the head *)
Fixpoint lrem1 {A} `{!EqDecision A} (x : A) (l : list A) : list A :=
  match l with [] => [] | y :: l' => if decide (y = x) then l' else y :: lrem1 x l' end.

(** ** The world of one request *)
Record NWorld := mkNW { nw_list : list StoredNotification; nw_published : list StoredNotification; nw_now : Z; nw_step : nat }.
Inductive NFault := NNoFault | NFailBefore (msg : string) | NFailAfter (msg : string).
Class NEnv := {
  ne_interfere : nat → list StoredNotification → list StoredNotification;
  ne_fault : nat → NFault;
  ne_command_error : nat → bool;         (** a command of a pipeline failed *)
  ne_uuid : nat → string;
}.
Notation NSvc := (M NWorld Exn).

Definition set_list (l : list StoredNotification) (w : NWorld) : NWorld := mkNW l (nw_published w) (nw_now w) (nw_step w).

Section service.
Context `{!NEnv, !JsDate}.

Definition n_tick (w : NWorld) : NWorld :=
  mkNW (ne_interfere (nw_step w) (nw_list w)) (nw_published w) (nw_now w) (S (nw_step w)).
Definition n_call {A} (f : list StoredNotification → Exn + (A * list StoredNotification)) : NSvc A := λ w,
  let w1 := n_tick w in
  match ne_fault (nw_step w) with
  | NNoFault => match f (nw_list w1) with inl e => (inl e, w1) | inr (a, l) => (inr a, set_list l w1) end
  | NFailBefore msg => (inl (OtherError msg), w1)
  | NFailAfter msg => (inl (OtherError msg), match f (nw_list w1) with inl _ => w1 | inr (_, l) => set_list l w1 end)
  end.
Definition n_read {A} (f : list StoredNotification → A) : NSvc A := n_call (λ l, inr (f l, l)).
Definition n_write (f : list StoredNotification → list StoredNotification) : NSvc unit := n_call (λ l, inr (tt, f l)).
(** One command of a pipeline *)
Definition piped (f : list StoredNotification → list StoredNotification) : NSvc unit := λ w,
  let w1 := n_tick w in
  (inr tt, if ne_command_error (nw_step w) then w1 else set_list (f (nw_list w1)) w1).
(** [await pipeline.exec()]: the commands, then the reply, which can be lost *)
Definition n_exec (commands : list (list StoredNotification → list StoredNotification)) : NSvc unit :=
  for_each commands piped ;; n_read (λ _, tt).

Definition n_publish (n : StoredNotification) : NSvc unit := λ w,
  let w1 := n_tick w in
  let sent := mkNW (nw_list w1) (nw_published w1 ++ [n]) (nw_now w1) (nw_step w1) in
  match ne_fault (nw_step w) with
  | NNoFault => (inr tt, sent)
  | NFailBefore msg => (inl (OtherError msg), w1)
  | NFailAfter msg => (inl (OtherError msg), sent)
  end.

Definition createNotification (params : NotificationParams) : NSvc StoredNotification :=
  id ← gets (λ w, ne_uuid (nw_step w));
  now ← gets nw_now;
  let notification := mkNotification id (np_title params) (np_description params) (np_variant params)
                        (toISOString now) false (np_source params) in
  n_exec [cons notification; lrange 0 (MAX_NOTIFICATIONS - 1)] ;;
  n_publish notification ;;
  mret notification.

Definition listNotifications (limit offset : Z) : NSvc (list StoredNotification) :=
  n_read (lrange offset (offset + limit - 1)).

Definition markAsRead (id : string) : NSvc unit :=
  rawList ← n_read (lrange 0 (-1));
  match list_find (λ n, n_id n = id) rawList with
  | None => mret tt
  | Some (index, notification) =>
      n_call (λ l, let '(ok, l') := lset index (mark_read notification) l in
                   if ok then inr (tt, l') else inl (OtherError "ERR index out of range"))
  end.

Definition markAllAsRead : NSvc unit :=
  rawList ← n_read (lrange 0 (-1));
  match rawList with
  | [] => mret tt
  | _ => n_exec (imap (λ index n l, (lset index (mark_read n) l).2) rawList)
  end.

Definition removeNotification (id : string) : NSvc unit :=
  rawList ← n_read (lrange 0 (-1));
  match list_find (λ n, n_id n = id) rawList with
  | None => mret tt
  | Some (_, target) => n_write (lrem1 target)
  end.

Definition clearAll : NSvc unit := n_write (λ _, []).

(** The query of [GET /api/v1/notifications] (routes/notifications.ts): [None] is a
    parameter that is absent or no integer. *)
Definition page_limit (raw : option Z) : Z :=
  match raw with Some n => if Z.ltb 0 n && Z.leb n 500 then n else 50 | None => 50 end.
Definition page_offset (raw : option Z) : Z :=
  match raw with Some n => if Z.leb 0 n then n else 0 | None => 0 end.
Definition get_notifications (limit offset : option Z) : NSvc (list StoredNotification) :=
  listNotifications (page_limit limit) (page_offset offset).
End service.

(** ** Lists *)
Lemma lrange_all {A} (l : list A) : lrange 0 (-1) l = l.
Proof. unfold lrange. simpl. rewrite Z.sub_0_r. apply take_ge. lia. Qed.
Lemma lrange_page {A} (l : list A) limit offset :
  (0 < limit)%Z → (0 ≤ offset)%Z → lrange offset (offset + limit - 1) l = take (Z.to_nat limit) (drop (Z.to_nat offset) l).
Proof.
  intros Hl Ho. unfold lrange. destruct (Z.ltb_spec offset 0); [lia|]. destruct (Z.ltb_spec (offset + limit - 1) 0); [lia|].
  rewrite Z.max_r by done. f_equal. lia.
Qed.
Lemma lrem1_delete {A} `{!EqDecision A} (x : A) a b : x ∉ a → lrem1 x (a ++ x :: b) = a ++ b.
Proof.
  induction a as [|y a IH]; simpl; intros Hx; [by rewrite decide_True|].
  rewrite decide_False by set_solver. f_equal. apply IH. set_solver.
Qed.
Lemma list_find_split {A} (P : A → Prop) `{!∀ x, Decision (P x)} l i x :
  list_find P l = Some (i, x) → ∃ a b, l = a ++ x :: b ∧ length a = i ∧ P x ∧ Forall (λ y, ¬ P y) a.
Proof.
  intros (Hi & HP & Hb)%list_find_Some. exists (take i l), (drop (S i) l).
  split; [by rewrite take_drop_middle|]. split; [apply length_take_le; apply lookup_lt_Some in Hi; lia|]. split; [done|].
  apply Forall_forall. intros y [j Hj]%list_elem_of_lookup. apply lookup_take_Some in Hj as [Hj ?]. eauto.
Qed.

(** ** What each operation does when no other request interferes *)
Inductive n_op := NCreate (params : NotificationParams) | NRead (id : string) | NReadAll | NRemove (id : string) | NClear.

(** The specification: what is stored, as a list of distinct notifications, newest first. *)
Definition apply_op (new : NotificationParams → StoredNotification) (op : n_op) (l : list StoredNotification) : list StoredNotification :=
  match op with
  | NCreate params => take 200 (new params :: l)
  | NRead id => (λ n, if decide (n_id n = id) then mark_read n else n) <$> l
  | NReadAll => mark_read <$> l
  | NRemove id => filter (λ n, n_id n ≠ id) l
  | NClear => []
  end.

Class NQuiet `{!NEnv} : Prop := {
  nq_interfere n l : ne_interfere n l = l;
  nq_fault n : ne_fault n = NNoFault;
  nq_command n : ne_command_error n = false;
}.

Section quiet.
Context `{!NEnv, !NQuiet, !JsDate}.

Definition run_op (op : n_op) : NSvc unit :=
  match op with
  | NCreate params => createNotification params ;; mret tt
  | NRead id => markAsRead id
  | NReadAll => markAllAsRead
  | NRemove id => removeNotification id
  | NClear => clearAll
  end.
Definition new_notification (w : NWorld) (params : NotificationParams) : StoredNotification :=
  mkNotification (ne_uuid (nw_step w)) (np_title params) (np_description params) (np_variant params)
    (toISOString (nw_now w)) false (np_source params).

Lemma wp_n_call {A} (f : list StoredNotification → Exn + (A * list StoredNotification)) a l Q X w :
  f (nw_list w) = inr (a, l) → (∀ w', nw_list w' = l → nw_step w ≤ nw_step w' → Q a w') → wp (n_call f) Q X w.
Proof.
  intros Hf HQ. unfold wp, n_call. cbn [n_tick nw_list]. rewrite nq_fault, nq_interfere, Hf. apply HQ; [done|]. simpl. lia.
Qed.
Lemma wp_n_read {A} (f : list StoredNotification → A) (Q : A → NWorld → Prop) X w :
  (∀ w', nw_list w' = nw_list w → nw_step w ≤ nw_step w' → Q (f (nw_list w)) w') → wp (n_read f) Q X w.
Proof. intros HQ. by eapply wp_n_call. Qed.
Lemma wp_piped f (Q : unit → NWorld → Prop) X w :
  (∀ w', nw_list w' = f (nw_list w) → nw_step w < nw_step w' → Q tt w') → wp (piped f) Q X w.
Proof. intros HQ. unfold wp, piped. cbn [n_tick nw_list]. rewrite nq_command, nq_interfere. apply HQ; [done|]. simpl. lia. Qed.
Lemma wp_n_exec fs (Q : unit → NWorld → Prop) X w :
  (∀ w', nw_list w' = foldl (λ l f, f l) (nw_list w) fs → nw_step w + length fs ≤ nw_step w' → Q tt w') → wp (n_exec fs) Q X w.
Proof.
  intros HQ. unfold n_exec. apply wp_bind. revert w HQ. induction fs as [|f fs IH]; intros w HQ; simpl.
  - apply wp_ret, wp_n_read. intros w' Hl Hs. apply HQ; [done|]. simpl. lia.
  - apply wp_bind, wp_piped. intros w1 Hl1 Hs1. apply IH. intros w2 Hl2 Hs2. apply HQ; [by rewrite Hl2, Hl1|]. simpl. lia.
Qed.

(** Writing every position in turn marks every notification. *)
Lemma lset_all (l pre : list StoredNotification) :
  foldl (λ l f, f l) (pre ++ l) (imap (λ i n l, (lset (length pre + i) (mark_read n) l).2) l) = pre ++ (mark_read <$> l).
Proof.
  revert pre. induction l as [|n l IH]; intros pre; [done|]. rewrite imap_cons. csimpl.
  rewrite Nat.add_0_r. replace (<[length pre := mark_read n]> (pre ++ n :: l)) with ((pre ++ [mark_read n]) ++ l).
  2: { rewrite <- app_assoc. simpl. induction pre as [|m pre IHd]; simpl; [done|]. by rewrite IHd. }
  etransitivity; [|etransitivity; [apply (IH (pre ++ [mark_read n]))|by rewrite <- app_assoc]].
  f_equal. apply imap_ext. intros i m _. simpl.
  rewrite length_app. simpl. by replace (length pre + 1 + i) with (length pre + S i) by lia.
Qed.

Lemma distinct_ids (l a b : list StoredNotification) n :
  l = a ++ n :: b → NoDup (n_id <$> l) → ∀ m, m ∈ a ++ b → n_id m ≠ n_id n.
Proof.
  intros -> Hnd m Hm Heq. rewrite fmap_app, fmap_cons in Hnd. apply NoDup_app in Hnd as (_ & Hd & Hc).
  apply NoDup_cons in Hc as [Hn _]. apply elem_of_app in Hm as [Hm|Hm].
  - apply (Hd (n_id m)); [by apply list_elem_of_fmap_2|]. rewrite Heq. by left.
  - apply Hn. rewrite <- Heq. by apply list_elem_of_fmap_2.
Qed.

Lemma fmap_others (f : StoredNotification → StoredNotification) id (l : list StoredNotification) :
  (∀ m, m ∈ l → n_id m ≠ id) → (λ n, if decide (n_id n = id) then f n else n) <$> l = l.
Proof.
  induction l as [|m l IH]; intros Hl; [done|]. csimpl. rewrite decide_False by (apply Hl; by left).
  f_equal. apply IH. intros n Hn. apply Hl. by right.
Qed.
Lemma filter_others id (l : list StoredNotification) : (∀ m, m ∈ l → n_id m ≠ id) → filter (λ n, n_id n ≠ id) l = l.
Proof. intros Hl. induction l as [|m l IH]; [done|]. rewrite filter_cons_True by (apply Hl; by left). f_equal. apply IH. intros n Hn. apply Hl. by right. Qed.

Lemma run_op_quiet op w (Q : NWorld → Prop) X :
  NoDup (n_id <$> nw_list w) →
  (∀ w', nw_list w' = apply_op (new_notification w) op (nw_list w) →
         nw_step w ≤ nw_step w' → (∀ p, op = NCreate p → nw_step w < nw_step w') → Q w') →
  wp (run_op op) (λ _, Q) X w.
Proof.
  intros Hnd HQ. destruct op as [params|id| |id|]; simpl.
  - apply wp_bind. unfold createNotification. apply wp_bind, wp_gets, wp_bind, wp_gets, wp_bind, wp_n_exec. intros w1 Hl1 Hs1.
    apply wp_bind. unfold wp, n_publish. cbn [n_tick nw_list nw_step]. rewrite nq_fault. apply HQ; simpl in *; [|lia|intros; lia].
    rewrite nq_interfere, Hl1. reflexivity.
  - apply wp_bind, wp_n_read. intros w1 Hl1 Hs1. rewrite lrange_all. destruct (list_find _ _) as [[i n]|] eqn:Hf.
    + apply list_find_split in Hf as (a & b & Hl & <- & <- & _). eapply wp_n_call; [rewrite Hl1, Hl; simpl; by rewrite bool_decide_eq_true_2 by (rewrite length_app; simpl; lia)|].
      intros w2 Hl2 Hs2. apply HQ; [|lia|done]. rewrite Hl2, Hl. pose proof (distinct_ids _ a b n Hl Hnd) as Hd.
      simpl. rewrite fmap_app, fmap_cons, decide_True by done.
      rewrite !fmap_others by (intros m Hm; apply Hd, elem_of_app; auto). clear. induction a as [|m a IH]; simpl; [done|]. by rewrite IH.
    + apply wp_ret, HQ; [|lia|done]. rewrite Hl1. simpl. rewrite fmap_others; [done|]. apply list_find_None in Hf.
      by apply Forall_forall.
  - apply wp_bind, wp_n_read. intros w1 Hl1 Hs1. rewrite lrange_all. destruct (nw_list w) as [|n l] eqn:Hw.
    + apply wp_ret, HQ; [by rewrite Hl1|lia|done].
    + apply wp_n_exec. intros w2 Hl2 Hs2. apply HQ; [|lia|done]. rewrite Hl2, Hl1. exact (lset_all (n :: l) []).
  - apply wp_bind, wp_n_read. intros w1 Hl1 Hs1. rewrite lrange_all. destruct (list_find _ _) as [[i n]|] eqn:Hf.
    + apply list_find_split in Hf as (a & b & Hl & <- & <- & _). eapply wp_n_call; [done|]. intros w2 Hl2 Hs2.
      pose proof (distinct_ids _ a b n Hl Hnd) as Hd.
      apply HQ; [|lia|done]. rewrite Hl2, Hl1, Hl. simpl. rewrite filter_app, filter_cons_False by (intros Hn; by apply Hn).
      rewrite !filter_others by (intros m Hm; apply Hd, elem_of_app; auto). apply lrem1_delete.
      intros Hn. by apply (Hd n); [apply elem_of_app; left|].
    + apply wp_ret, HQ; [|lia|done]. rewrite Hl1. simpl. rewrite filter_others; [done|]. apply list_find_None in Hf.
      by apply Forall_forall.
  - eapply wp_n_call; [done|]. intros w1 Hl1 Hs1. by apply HQ.
Qed.

(** The notification list implements its specification.  When no other request
    interferes and Redis works, every operation returns and leaves the list the
    specification asks for: a new notification comes first and only the newest 200
    stay, marking and removing act on exactly the notification with that id (and on none
    when there is none), and the others keep their content and their order. *)
Theorem notifications_refine op w :
  NoDup (n_id <$> nw_list w) →
  let '(r, w') := run_op op w in r = inr tt ∧ nw_list w' = apply_op (new_notification w) op (nw_list w).
Proof.
  intros Hnd. pose proof (run_op_quiet op w (λ w', nw_list w' = apply_op (new_notification w) op (nw_list w)) (λ _ _, False) Hnd) as Hwp.
  unfold wp in Hwp. destruct (run_op op w) as [[e|[]] w']; [by destruct Hwp|]. split; [done|]. by apply Hwp.
Qed.

(** Ids stay distinct and future ids stay fresh. *)
Definition notifications_ok (w : NWorld) : Prop :=
  NoDup (n_id <$> nw_list w) ∧ length (nw_list w) ≤ 200 ∧ ∀ n, nw_step w ≤ n → ne_uuid n ∉ n_id <$> nw_list w.

Lemma run_op_ok op w : Inj (=) (=) ne_uuid → notifications_ok w → wp (run_op op) (λ _, notifications_ok) (λ _ _, False) w.
Proof.
  intros Hinj (Hnd & Hlen & Hfresh). apply run_op_quiet; [done|]. intros w' Hl Hs Hc. unfold notifications_ok. rewrite Hl.
  assert (∀ f : StoredNotification → StoredNotification, (∀ n, n_id (f n) = n_id n) → n_id <$> (f <$> nw_list w) = n_id <$> nw_list w) as Hf.
  { intros f Hf. rewrite <- list_fmap_compose. apply list_fmap_ext. intros i x _. apply Hf. }
  destruct op as [params|id| |id|]; cbn [apply_op].
  - set (new := new_notification w params). assert (NoDup (n_id <$> new :: nw_list w)) as Hn.
    { csimpl. apply NoDup_cons. split; [apply (Hfresh (nw_step w)); lia|done]. }
    pose proof (sublist_take (new :: nw_list w) 200) as Hsub. specialize (Hc params eq_refl).
    fold new.
    split_and!.
    + eapply sublist_NoDup; [exact Hn|]. exact (fmap_sublist n_id _ _ Hsub).
    + rewrite length_take. lia.
    + intros n Hle [m [Hm Hin]]%list_elem_of_fmap. assert (m ∈ new :: nw_list w) as Hm'.
      { eapply elem_of_submseteq; [exact Hin|]. apply sublist_submseteq, Hsub. }
      apply elem_of_cons in Hm' as [-> |Hm']; [apply Hinj in Hm; lia|]. apply (Hfresh n); [lia|]. rewrite Hm. by apply list_elem_of_fmap_2.
  - rewrite Hf, length_fmap; [|intros n; by case_decide]. split_and!; [done..|]. intros n Hle. apply Hfresh. lia.
  - rewrite Hf, length_fmap by done. split_and!; [done..|]. intros n Hle. apply Hfresh. lia.
  - split_and!.
    + eapply sublist_NoDup; [done|]. apply fmap_sublist, sublist_filter.
    + etransitivity; [apply length_filter|done].
    + intros n Hle [m [Hm [_ Hin]%list_elem_of_filter]]%list_elem_of_fmap. apply (Hfresh n); [lia|]. rewrite Hm. by apply list_elem_of_fmap_2.
  - split_and!; [apply NoDup_nil_2|simpl; lia|]. intros n _. apply not_elem_of_nil.
Qed.

(** The list stays bounded and its ids distinct.  Starting from at most 200
    notifications with distinct ids, any sequence of operations, with fresh UUIDs, ends
    normally with at most 200 notifications with distinct ids. *)
Theorem notifications_bounded ops w :
  Inj (=) (=) ne_uuid → notifications_ok w →
  let '(r, w') := for_each ops run_op w in r = inr tt ∧ NoDup (n_id <$> nw_list w') ∧ length (nw_list w') ≤ 200.
Proof.
  intros Hinj Hok.
  assert (wp (for_each ops run_op) (λ _, notifications_ok) (λ _ _, False) w) as Hwp.
  { apply (wp_for_each ops run_op notifications_ok); [done|]. intros op w' _ Hw'. by apply run_op_ok. }
  unfold wp in Hwp. destruct (for_each ops run_op w) as [[e|[]] w']; [done|]. by destruct Hwp as (? & ? & _).
Qed.
End quiet.

(** A page of the list.  With a positive limit and a non-negative offset a page is
    that many notifications after that offset; the route's defaults make every request
    such a page, of at most 500. *)
Theorem notifications_page `{!NEnv, !NQuiet} limit offset w :
  (0 < page_limit limit ≤ 500)%Z ∧ (0 ≤ page_offset offset)%Z ∧
  (get_notifications limit offset w).1 =
    inr (take (Z.to_nat (page_limit limit)) (drop (Z.to_nat (page_offset offset)) (nw_list w))).
Proof.
  assert (0 < page_limit limit ≤ 500)%Z as Hl.
  { unfold page_limit. destruct limit as [n|]; [|lia]. destruct (Z.ltb_spec 0 n), (Z.leb_spec n 500); simpl; lia. }
  assert (0 ≤ page_offset offset)%Z as Ho.
  { unfold page_offset. destruct offset as [n|]; [|lia]. destruct (Z.leb_spec 0 n); lia. }
  split; [done|]. split; [done|]. unfold get_notifications, listNotifications, n_read, n_call. cbn [n_tick nw_list].
  rewrite nq_fault, nq_interfere. simpl. rewrite lrange_page by lia. done.
Qed.

(** Marking by position loses a notification when another one arrives.
    [markAsRead] finds the position of a notification and then writes to that position;
    if a new notification is pushed between the two commands, the entry that has moved
    there is overwritten by a second copy of the one being marked: the one before it in
    the list (the new one, when the marked one was first) is lost. *)
Theorem markAsRead_race `{!NEnv} (a b : list StoredNotification) (n new lost : StoredNotification) w :
  let id := n_id n in
  nw_list w = a ++ n :: b → Forall (λ m, n_id m ≠ id) a →
  ne_fault (nw_step w) = NNoFault → ne_fault (S (nw_step w)) = NNoFault →
  (∀ l, ne_interfere (nw_step w) l = l) → (∀ l, ne_interfere (S (nw_step w)) l = new :: l) →
  last (new :: a) = Some lost →
  let '(r, w') := markAsRead id w in
  r = inr tt ∧ nw_list w' = take (length a) (new :: a) ++ [mark_read n; n] ++ b ∧
  (NoDup (new :: nw_list w) → lost ≠ mark_read n → lost ∉ nw_list w').
Proof.
  intros id Hl Ha Hf0 Hf1 Hi0 Hi1 Hlost. unfold markAsRead, mbind, M_bind, n_read, n_call at 1. cbn [n_tick nw_list].
  rewrite Hf0, Hi0, lrange_all, Hl. cbn [fst snd].
  assert (list_find (λ m, n_id m = id) (a ++ n :: b) = Some (length a, n)) as ->.
  { apply list_find_Some. split_and!; [by apply list_lookup_middle|done|]. intros j y Hj Hlt.
    rewrite lookup_app_l in Hj by done. eapply Forall_lookup_1 in Ha; done. }
  unfold n_call. cbn [n_tick nw_list set_list nw_step]. rewrite Hf1, Hi1. unfold lset.
  rewrite bool_decide_eq_true_2 by (simpl; rewrite length_app; simpl; lia). cbn [nw_list set_list].
  assert (new :: a = take (length a) (new :: a) ++ [lost]) as Hsplit.
  { apply last_Some in Hlost as [l' Hl']. rewrite Hl'. f_equal.
    assert (length a = length l') as -> by (apply (f_equal length) in Hl'; rewrite length_app in Hl'; simpl in Hl'; lia).
    by rewrite take_app_length. }
  set (pre := take (length a) (new :: a)) in *. assert (length pre = length a) as Hpre by (unfold pre; rewrite length_take; simpl; lia).
  assert (new :: a ++ n :: b = pre ++ lost :: n :: b) as Hall.
  { change (new :: a ++ n :: b) with ((new :: a) ++ n :: b). rewrite Hsplit. by rewrite <- app_assoc. }
  assert (<[length a := mark_read n]> (new :: a ++ n :: b) = pre ++ [mark_read n; n] ++ b) as Hw.
  { rewrite Hall, <- Hpre. clear. induction pre as [|m pre IH]; simpl; [done|]. by rewrite IH. }
  rewrite Hw. split; [done|]. split; [done|]. intros Hnd Hne Hin. rewrite Hall in Hnd.
  apply NoDup_app in Hnd as (_ & Hd & Hc). apply NoDup_cons in Hc as [Hc _].
  apply elem_of_app in Hin as [Hin|Hin]; [apply (Hd lost); [done|by left]|].
  apply elem_of_cons in Hin as [->|Hin]; [done|]. exact (Hc Hin).
Qed.

(** ** Closed examples *)
Definition ex_notification (id : string) : StoredNotification := mkNotification id "t" None "info" "0" false None.
Definition ex_nworld : NWorld := mkNW [ex_notification "b"; ex_notification "a"] [] 1000 0.
(** ids [n], [nn], ... distinct from [a] and [b] *)
Fixpoint ex_uuid (n : nat) : string := match n with O => "n" | S n => "n" +:+ ex_uuid n end.
Definition calm_n : NEnv := {| ne_interfere := λ _ l, l; ne_fault := λ _, NNoFault; ne_command_error := λ _, false; ne_uuid := ex_uuid |}.
Lemma calm_n_quiet : @NQuiet calm_n.
Proof. by split. Qed.
Definition busy_n : NEnv := {|
  ne_interfere := λ k l, if decide (k = 1) then ex_notification "c" :: l else l;
  ne_fault := λ _, NNoFault; ne_command_error := λ _, false; ne_uuid := ex_uuid |}.

Lemma notifications_refine_witness :
  nw_list (@run_op calm_n decimal_date (NRead "a") ex_nworld).2 = [ex_notification "b"; mark_read (ex_notification "a")].
Proof.
  pose proof (@notifications_refine calm_n calm_n_quiet decimal_date (NRead "a") ex_nworld) as H.
  destruct (run_op _ ex_nworld) as [r w']. destruct H as [_ H]; [|exact H].
  apply (bool_decide_unpack _). vm_compute. exact I.
Defined.

Lemma ex_uuid_length n : String.length (ex_uuid n) = S n.
Proof. induction n as [|n IH]; [done|]. change (S (String.length (ex_uuid n)) = S (S n)). by rewrite IH. Qed.
Lemma notifications_bounded_witness :
  length (nw_list (for_each [NCreate (mkParams "x" None "info" None); NClear; NReadAll] (@run_op calm_n decimal_date) ex_nworld).2) ≤ 200.
Proof.
  pose proof (@notifications_bounded calm_n calm_n_quiet decimal_date [NCreate (mkParams "x" None "info" None); NClear; NReadAll] ex_nworld) as H.
  destruct (for_each _ _ ex_nworld) as [r w']. apply H.
  - intros x y Hxy. apply (f_equal String.length) in Hxy. rewrite !ex_uuid_length in Hxy. congruence.
  - split_and!; [apply (bool_decide_unpack _); vm_compute; exact I|simpl; lia|].
    intros n _ Hin. simpl in Hin. destruct n; rewrite !elem_of_cons in Hin; destruct Hin as [?|[?|Hin]]; try discriminate; by apply not_elem_of_nil in Hin.
Defined.

Lemma markAsRead_race_witness :
  ex_notification "b" ∉ nw_list (@markAsRead busy_n "a" ex_nworld).2.
Proof.
  pose proof (@markAsRead_race busy_n [ex_notification "b"] [] (ex_notification "a") (ex_notification "c") (ex_notification "b") ex_nworld) as H.
  cbn zeta in H. destruct (markAsRead _ ex_nworld) as [r w'].
  destruct H as (_ & _ & H); [reflexivity|repeat constructor; discriminate|reflexivity..|].
  apply H; [apply (bool_decide_unpack _); vm_compute; exact I|discriminate].
Defined.
