(* ===== verification/MemoryBudget.v ===== *)
(** * Memory budgets and placement holds (control-plane/src/services/memory-budget.ts)

    Workers report per-device memory as JSON texts; [MemoryBudgetService] keeps
    the last report of each worker and, on top of it, the holds of instances
    that were placed but have not reported usage yet.  [BudgetState] is the
    service's two [Map]s; every method is a function on it.  The clock, the JSON
    parser and the date functions are arguments. *)
From stdpp Require Import base tactics list strings gmap sets.
From Stdlib Require Import ZArith Lia.
From S2P Require Import Prelude Js Types.

(** ** Data *)
Record KvCache := mkKv { kv_totalBytes : Z; kv_usedBytes : Z; kv_preallocBytes : Z; kv_freeBytes : Z }.

Record DeviceBudget := mkDevice {
  deviceIndex : Z;
  deviceType : string;
  totalBytes : Z;
  usedBytes : Z;
  availableBytes : Z;
  deviceName : option string;
  utilizationPercent : option Z;
  temperatureC : option Z;
  kvCache : option KvCache;
}.

Record InstanceMeasurement := mkMeasurement {
  im_instanceId : string;
  im_modelName : string;
  im_deviceIndex : Z;
  measuredUsedBytes : Z;
}.

Record WorkerBudget := mkBudget {
  wb_workerId : string;
  wb_devices : list DeviceBudget;
  lastReportAt : string;
  stale : bool;
  instanceMeasurements : option (list InstanceMeasurement);
}.

Record ClusterSummary := mkSummary { cs_totalBytes : Z; cs_usedBytes : Z; cs_availableBytes : Z }.

(** A validated device of a report ([WorkerDeviceMemory] of the worker contract). *)
Record WorkerDeviceMemory := mkDeviceMemory {
  wd_deviceIndex : Z;
  wd_deviceType : DeviceType;
  wd_memoryUsedBytes : Z;
  wd_memoryTotalBytes : Z;
  wd_deviceName : option string;
  wd_utilizationPercent : option Z;
  wd_temperatureC : option Z;
  wd_kvCache : option KvCache;
}.

(** The service's fields: [budgets] by worker id, and [reservations] by
    [`${workerId}:${deviceIndex}`], each a map from instance id to bytes. *)
Record BudgetState := mkState {
  budgets : list (string * WorkerBudget);
  reservations : list (string * list (string * Z));
}.
Definition init_state : BudgetState := mkState [] [].

(** ** Report validation *)
Definition nonNegativeInt (v : option json) : option Z :=
  z ← is_integer v; guard (0 ≤ z)%Z;; Some z.

Definition validateKVCacheBlock (raw : json) : option KvCache :=
  match raw with
  | JObj kv =>
      total ← nonNegativeInt (obj_get kv "totalBytes");
      used ← nonNegativeInt (obj_get kv "usedBytes");
      prealloc ← nonNegativeInt (obj_get kv "preallocBytes");
      free ← nonNegativeInt (obj_get kv "freeBytes");
      Some (mkKv total used prealloc free)
  | _ => None
  end.

Definition validateDevice (raw : json) : option WorkerDeviceMemory :=
  match raw with
  | JObj d =>
      index ← nonNegativeInt (obj_get d "deviceIndex");
      type ← enum_value device_str all_device_types (obj_get d "deviceType");
      used ← nonNegativeInt (obj_get d "memoryUsedBytes");
      total ← nonNegativeInt (obj_get d "memoryTotalBytes");
      (* the NVML extras and the kvcached block are dropped when malformed *)
      let name := is_nonempty_string (obj_get d "deviceName") in
      let utilization :=
        u ← is_integer (obj_get d "utilizationPercent"); guard (0 ≤ u ≤ 100)%Z;; Some u in
      let temperature := is_integer (obj_get d "temperatureC") in
      let kv := kv ← obj_get d "kvCache"; validateKVCacheBlock kv in
      Some (mkDeviceMemory index type used total name utilization temperature kv)
  | _ => None
  end.

Definition validateInstanceMeasurement (raw : json) : option InstanceMeasurement :=
  match raw with
  | JObj m =>
      instance ← is_nonempty_string (obj_get m "instanceId");
      model ← is_nonempty_string (obj_get m "modelName");
      index ← nonNegativeInt (obj_get m "deviceIndex");
      used ← nonNegativeInt (obj_get m "memoryUsedBytes");
      Some (mkMeasurement instance model index used)
  | _ => None
  end.

(** ** Holds *)
Definition reservationKey (workerId : string) (deviceIndex : Z) : string :=
  workerId +:+ ":" +:+ show_int deviceIndex.

Definition sum_bytes (perInstance : list (string * Z)) : Z :=
  foldr Z.add 0%Z (jm_values perInstance).

Definition getReservation (st : BudgetState) (workerId : string) (deviceIndex : Z) : Z :=
  match jm_get (reservations st) (reservationKey workerId deviceIndex) with
  | None => 0%Z
  | Some perModel => sum_bytes perModel
  end.

Definition available (total used held : Z) : Z := Z.max 0 (total - used - held).

(** [devices.find(d => d.deviceIndex === i)] updated in place. *)
Fixpoint update_device (f : DeviceBudget → DeviceBudget) (i : Z) (ds : list DeviceBudget) : list DeviceBudget :=
  match ds with
  | [] => []
  | d :: ds' => if decide (deviceIndex d = i) then f d :: ds' else d :: update_device f i ds'
  end.

Definition set_available (held : Z) (d : DeviceBudget) : DeviceBudget :=
  mkDevice (deviceIndex d) (deviceType d) (totalBytes d) (usedBytes d)
    (available (totalBytes d) (usedBytes d) held)
    (deviceName d) (utilizationPercent d) (temperatureC d) (kvCache d).

Definition set_devices (ds : list DeviceBudget) (b : WorkerBudget) : WorkerBudget :=
  mkBudget (wb_workerId b) ds (lastReportAt b) (stale b) (instanceMeasurements b).

(** [deviceIndex] is [None] for [NaN], which equals no device's index. *)
Definition recomputeDeviceBudget (workerId : string) (deviceIndex : option Z) (st : BudgetState) : BudgetState :=
  match jm_get (budgets st) workerId, deviceIndex with
  | Some budget, Some i =>
      let held := getReservation st workerId i in
      let budget' := set_devices (update_device (set_available held) i (wb_devices budget)) budget in
      mkState (jm_set (budgets st) workerId budget') (reservations st)
  | _, _ => st
  end.

Definition reserveCapacity (workerId : string) (deviceIndex : Z) (instanceId : string) (bytes : Z)
    (st : BudgetState) : BudgetState :=
  let rk := reservationKey workerId deviceIndex in
  let perInstance := default [] (jm_get (reservations st) rk) in
  let st' := mkState (budgets st) (jm_set (reservations st) rk (jm_set perInstance instanceId bytes)) in
  recomputeDeviceBudget workerId (Some deviceIndex) st'.

(** One entry of the loop of [releaseInstanceReservations]. *)
Definition release_entry (instanceId rk : string) (st : BudgetState) : BudgetState :=
  match jm_get (reservations st) rk with
  | None => st
  | Some perInstance =>
      if jm_has perInstance instanceId then
        let perInstance' := jm_delete perInstance instanceId in
        let reservations' :=
          if decide (perInstance' = []) then jm_delete (reservations st) rk
          else jm_set (reservations st) rk perInstance' in
        let sep := last_index colon rk in
        let workerId := match sep with Some n => str_take n rk | None => str_take (str_length rk - 1) rk end in
        let index := match sep with Some n => str_drop (S n) rk | None => rk end in
        recomputeDeviceBudget workerId (js_Number index) (mkState (budgets st) reservations')
      else st
  end.

(** The loop visits the keys present when it starts: it deletes only the entry
    it is at, and adds none. *)
Definition releaseInstanceReservations (instanceId : string) (st : BudgetState) : BudgetState :=
  foldl (λ st rk, release_entry instanceId rk st) st (jm_keys (reservations st)).

Definition clear_entry (workerId key : string) (st : BudgetState) : BudgetState :=
  let prefix := workerId +:+ ":" in
  if starts_with prefix key then
    recomputeDeviceBudget workerId (js_Number (str_drop (str_length prefix) key))
      (mkState (budgets st) (jm_delete (reservations st) key))
  else st.

Definition clearWorkerReservations (workerId : string) (st : BudgetState) : BudgetState :=
  foldl (λ st key, clear_entry workerId key st) st (jm_keys (reservations st)).

(** ** Reading reports *)
Section service.
Context (JSON_parse : string → option json) `{!JsDate}.
Context (keyPrefix : string) (staleAfterSecs : Z).

Definition workerMemoryKey (workerId : string) : string :=
  js_join ":" [keyPrefix; "workers"; workerId; "memory"].

(** [NaN] compares false, so an unreadable timestamp is never stale. *)
Definition isStale (now : Z) (reportedAt : string) : bool :=
  match getTime reportedAt with
  | Some reportedMs => Z.ltb (staleAfterSecs * 1000) (now - reportedMs)
  | None => false
  end.

Definition to_device_budget (st : BudgetState) (workerId : string) (d : WorkerDeviceMemory) : DeviceBudget :=
  mkDevice (wd_deviceIndex d) (device_str (wd_deviceType d)) (wd_memoryTotalBytes d) (wd_memoryUsedBytes d)
    (available (wd_memoryTotalBytes d) (wd_memoryUsedBytes d)
       (getReservation st workerId (wd_deviceIndex d)))
    (wd_deviceName d) (wd_utilizationPercent d) (wd_temperatureC d) (wd_kvCache d).

(** [for] over [report.devices]: the first device that does not validate rejects the report. *)
Definition validate_devices (raw : list json) : option (list WorkerDeviceMemory) :=
  mapM validateDevice raw.

Definition parseReport (now : Z) (raw : string) (workerId : string) (st : BudgetState) : option WorkerBudget :=
  match JSON_parse raw with
  | Some (JObj report) =>
      match obj_get report "devices" with
      | Some (JArr rawDevices) =>
          validated ← validate_devices rawDevices;
          let measurements :=
            match obj_get report "instances" with
            | Some (JArr rawInstances) => Some (omap validateInstanceMeasurement rawInstances)
            | _ => None
            end in
          let reportedAt := default (toISOString now) (is_string (obj_get report "reportedAt")) in
          Some (mkBudget workerId (to_device_budget st workerId <$> validated) reportedAt false measurements)
      | _ => None
      end
  | _ => None
  end.

Definition set_budgets (bs : list (string * WorkerBudget)) (st : BudgetState) : BudgetState :=
  mkState bs (reservations st).

(** [raw] is the reply of GET on the worker's memory key; [null] and the empty
    text both count as no report. *)
Definition refreshWorkerBudget (now : Z) (workerId : string) (raw : option string) (st : BudgetState) :
    option WorkerBudget * BudgetState :=
  if truthy_str raw then
    match parseReport now (default "" raw) workerId st with
    | None => (None, set_budgets (jm_delete (budgets st) workerId) st)
    | Some budget => (Some budget, set_budgets (jm_set (budgets st) workerId budget) st)
    end
  else
    (None, clearWorkerReservations workerId (set_budgets (jm_delete (budgets st) workerId) st)).

(** The worker id inside a scanned key: the known prefix and suffix are stripped. *)
Definition worker_of_key (key : string) : string :=
  let prefixSegment := js_join ":" [keyPrefix; "workers"] +:+ ":" in
  let suffixSegment := ":memory" in
  let inner := if starts_with prefixSegment key then str_drop (str_length prefixSegment) key else key in
  if ends_with suffixSegment inner then str_take (str_length inner - str_length suffixSegment) inner else inner.

(** One iteration over the pipeline's replies: [raw] is [None] when the command
    failed or its reply is not a string. *)
Definition refresh_entry (now : Z) (acc : BudgetState * list string) (kr : string * option string) :
    BudgetState * list string :=
  let '(st, seen) := acc in
  match kr.2 with
  | None => acc
  | Some raw =>
      let workerId := worker_of_key kr.1 in
      match parseReport now raw workerId st with
      | Some budget => (set_budgets (jm_set (budgets st) workerId budget) st, workerId :: seen)
      | None => acc
      end
  end.

Definition drop_unseen (seen : list string) (st : BudgetState) : BudgetState :=
  foldl (λ st workerId,
    if decide (workerId ∈ seen) then st
    else clearWorkerReservations workerId (set_budgets (jm_delete (budgets st) workerId) st))
    st (jm_keys (budgets st)).

(** [results] is [None] when [pipeline.exec()] returned [null]. *)
Definition refreshAll (now : Z) (keys : list string) (results : option (list (option string)))
    (st : BudgetState) : BudgetState :=
  match keys with
  | [] => init_state
  | _ =>
      match results with
      | None => st
      | Some raws =>
          let '(st', seen) := foldl (refresh_entry now) (st, []) (zip keys raws) in
          drop_unseen seen st'
      end
  end.

(** ** Reads *)
Definition with_staleness (now : Z) (b : WorkerBudget) : WorkerBudget :=
  mkBudget (wb_workerId b) (wb_devices b) (lastReportAt b) (isStale now (lastReportAt b)) (instanceMeasurements b).

Definition getWorkerBudget (now : Z) (workerId : string) (st : BudgetState) : option WorkerBudget :=
  with_staleness now <$> jm_get (budgets st) workerId.

Definition getAllBudgets (now : Z) (st : BudgetState) : list WorkerBudget :=
  with_staleness now <$> jm_values (budgets st).

Definition add_device (s : ClusterSummary) (d : DeviceBudget) : ClusterSummary :=
  mkSummary (cs_totalBytes s + totalBytes d)%Z (cs_usedBytes s + usedBytes d)%Z
    (cs_availableBytes s + availableBytes d)%Z.

Definition getClusterSummary (now : Z) (st : BudgetState) : ClusterSummary :=
  foldl (λ s b, if stale b then s else foldl add_device s (wb_devices b))
    (mkSummary 0 0 0) (getAllBudgets now st).

Definition add_measurement (acc : list (string * Z)) (m : InstanceMeasurement) : list (string * Z) :=
  jm_set acc (im_instanceId m) (default 0 (jm_get acc (im_instanceId m)) + measuredUsedBytes m)%Z.

Definition getMeasuredByInstance (now : Z) (st : BudgetState) : list (string * Z) :=
  foldl (λ acc b, if stale b then acc else foldl add_measurement acc (default [] (instanceMeasurements b)))
    [] (getAllBudgets now st).

(** The value [writeClusterMemorySnapshot] stores at [{prefix}:cluster:memory]
    after a refresh: each worker's devices, stale ones included, and the summary. *)
Definition clusterMemorySnapshot (now : Z) (st : BudgetState) :
    list (string * list DeviceBudget) * ClusterSummary :=
  ((λ b, (wb_workerId b, wb_devices b)) <$> getAllBudgets now st, getClusterSummary now st).
End service.

(** ** Lemmas on holds *)

(** The hold of one instance on one device. *)
Definition hold (st : BudgetState) (w : string) (i : Z) (inst : string) : option Z :=
  perInstance ← jm_get (reservations st) (reservationKey w i); jm_get perInstance inst.

Lemma reservationKey_inj w w' i i' : reservationKey w i = reservationKey w' i' → w = w' ∧ i = i'.
Proof.
  unfold reservationKey. simpl. intros Heq.
  apply sep_inj_r in Heq as [-> Heq]; [by apply (inj show_int) in Heq|apply show_int_no_colon..].
Qed.

Lemma reservationKey_last w i : last_index colon (reservationKey w i) = Some (str_length w).
Proof. apply last_index_app, show_int_no_colon. Qed.

Lemma reservationKey_worker w i : str_take (str_length w) (reservationKey w i) = w.
Proof. apply str_take_app. Qed.

Lemma reservationKey_index w i : str_drop (S (str_length w)) (reservationKey w i) = show_int i.
Proof.
  unfold reservationKey. rewrite <- str_app_assoc.
  replace (S (str_length w)) with (str_length (w +:+ ":")) by (rewrite str_length_app; simpl; lia).
  apply str_drop_app.
Qed.

(** [devices.find(d => d.deviceIndex === i)]. *)
Definition find_device (i : Z) (ds : list DeviceBudget) : option DeviceBudget :=
  List.find (λ d, bool_decide (deviceIndex d = i)) ds.

Lemma find_update_device f i j ds :
  (∀ d, deviceIndex (f d) = deviceIndex d) →
  find_device j (update_device f i ds) = if decide (i = j) then f <$> find_device j ds else find_device j ds.
Proof.
  intros Hf. unfold find_device.
  induction ds as [|d ds IH]; simpl; [by case_decide|].
  destruct (decide (deviceIndex d = i)) as [<-|Hne]; simpl; rewrite ?Hf.
  - repeat case_decide; repeat case_bool_decide; simplify_eq; done.
  - rewrite IH. repeat case_decide; repeat case_bool_decide; simplify_eq; done.
Qed.

(** A device's [availableBytes] is what its totals and the current holds give. *)
Definition consistent_at (st : BudgetState) (w : string) (i : Z) : Prop :=
  ∀ b d, jm_get (budgets st) w = Some b → find_device i (wb_devices b) = Some d →
    availableBytes d = available (totalBytes d) (usedBytes d) (getReservation st w i).

Definition consistent (st : BudgetState) : Prop := ∀ w i, consistent_at st w i.

(** Every reservation key was built for a worker whose id has no colon. *)
Definition keys_ok (st : BudgetState) : Prop :=
  ∀ k, k ∈ jm_keys (reservations st) → ∃ w i, has_char colon w = false ∧ k = reservationKey w i.

Lemma recompute_reservations w i st : reservations (recomputeDeviceBudget w i st) = reservations st.
Proof. unfold recomputeDeviceBudget. by repeat case_match. Qed.

Lemma getReservation_ext st st' w i :
  jm_get (reservations st) (reservationKey w i) = jm_get (reservations st') (reservationKey w i) →
  getReservation st w i = getReservation st' w i.
Proof. unfold getReservation. by intros ->. Qed.

(** Recomputing one device after a change of holds there restores consistency
    everywhere. *)
Lemma recompute_consistent w i st st' :
  consistent st →
  budgets st' = budgets st →
  (∀ k, k ≠ reservationKey w i → jm_get (reservations st') k = jm_get (reservations st) k) →
  consistent (recomputeDeviceBudget w (Some i) st').
Proof.
  intros Hc Hb Hr w' j b d Hget Hfind.
  rewrite (getReservation_ext _ st') by (by rewrite recompute_reservations).
  unfold recomputeDeviceBudget in Hget.
  destruct (jm_get (budgets st') w) as [b0|] eqn:Hb0; simpl in Hget.
  - destruct (decide (w = w')) as [<-|Hne].
    + rewrite jm_get_set_eq in Hget. simplify_eq. simpl in Hfind.
      rewrite find_update_device in Hfind by done. case_decide as Hij.
      * subst. by destruct (find_device j (wb_devices b0)); simplify_eq/=.
      * rewrite Hb in Hb0. rewrite (Hc _ _ _ _ Hb0 Hfind). f_equal. apply getReservation_ext.
        symmetry. apply Hr. by intros [_ ?]%reservationKey_inj.
    + rewrite jm_get_set_ne in Hget by done. rewrite Hb in Hget. rewrite (Hc _ _ _ _ Hget Hfind).
      f_equal. apply getReservation_ext. symmetry. apply Hr. by intros [? _]%reservationKey_inj.
  - rewrite Hb in Hget, Hb0. rewrite (Hc _ _ _ _ Hget Hfind). f_equal. apply getReservation_ext.
    symmetry. apply Hr. intros [-> _]%reservationKey_inj. congruence.
Qed.

Lemma recompute_NaN w st : recomputeDeviceBudget w None st = st.
Proof. unfold recomputeDeviceBudget. by repeat case_match. Qed.

(** *** [reserveCapacity] *)
Lemma reserveCapacity_reservations w i inst bytes st :
  reservations (reserveCapacity w i inst bytes st) =
  jm_set (reservations st) (reservationKey w i)
    (jm_set (default [] (jm_get (reservations st) (reservationKey w i))) inst bytes).
Proof. apply recompute_reservations. Qed.

Lemma reserveCapacity_consistent w i inst bytes st :
  consistent st → consistent (reserveCapacity w i inst bytes st).
Proof. intros Hc. apply (recompute_consistent w i st); [done..|]. intros k Hk. simpl. by rewrite jm_get_set_ne. Qed.

Lemma reserveCapacity_hold w i inst bytes st w' i' inst' :
  hold (reserveCapacity w i inst bytes st) w' i' inst' =
  if decide (w = w' ∧ i = i' ∧ inst = inst') then Some bytes else hold st w' i' inst'.
Proof.
  unfold hold. rewrite reserveCapacity_reservations.
  destruct (decide (reservationKey w i = reservationKey w' i')) as [Heq|Hne].
  - rewrite Heq, jm_get_set_eq. apply reservationKey_inj in Heq as [-> ->]. simpl.
    case_decide as Hd.
    + destruct Hd as (_ & _ & ->). apply jm_get_set_eq.
    + rewrite jm_get_set_ne by naive_solver. by destruct (jm_get (reservations st) (reservationKey w' i')).
  - rewrite jm_get_set_ne by done. rewrite decide_False by naive_solver. done.
Qed.

(** *** [releaseInstanceReservations] *)
Lemma release_entry_get_ne inst rk k st :
  k ≠ rk → jm_get (reservations (release_entry inst rk st)) k = jm_get (reservations st) k.
Proof.
  intros Hne. unfold release_entry. repeat case_match; try done; rewrite recompute_reservations; simpl;
    case_decide; by rewrite ?jm_get_delete_ne, ?jm_get_set_ne by done.
Qed.

(** What the entry at [rk] leaves there. *)
Lemma release_entry_get_eq inst rk st inst' :
  (perInstance ← jm_get (reservations (release_entry inst rk st)) rk; jm_get perInstance inst') =
  if decide (inst' = inst) then None else perInstance ← jm_get (reservations st) rk; jm_get perInstance inst'.
Proof.
  unfold release_entry. destruct (jm_get (reservations st) rk) as [per|] eqn:Hrk;
    [|rewrite Hrk; simpl; by case_decide].
  unfold jm_has. case_bool_decide as Hhas.
  - rewrite recompute_reservations. simpl. case_decide as Hnil.
    + rewrite jm_get_delete_eq. simpl. case_decide; [done|].
      rewrite <- (jm_get_delete_ne per inst) by done. by rewrite Hnil.
    + rewrite jm_get_set_eq. simpl. case_decide as Heq; [subst; apply jm_get_delete_eq|].
      by rewrite jm_get_delete_ne.
  - rewrite Hrk. simpl. case_decide; [subst|done]. by apply eq_None_not_Some.
Qed.

Lemma release_entry_keys inst rk st k :
  k ∈ jm_keys (reservations (release_entry inst rk st)) → k ∈ jm_keys (reservations st).
Proof.
  unfold release_entry. destruct (jm_get (reservations st) rk) as [per|] eqn:Hrk; [|done].
  case_match; [|done]. rewrite recompute_reservations. simpl. case_decide.
  - rewrite jm_keys_delete. naive_solver.
  - rewrite jm_keys_set, decide_True; [done|]. destruct (decide (rk ∈ jm_keys (reservations st))) as [|Hn]; [done|].
    apply jm_get_None in Hn. congruence.
Qed.

Lemma release_entry_consistent inst w i st :
  consistent st → consistent (release_entry inst (reservationKey w i) st).
Proof.
  intros Hc. unfold release_entry. destruct (jm_get (reservations st) (reservationKey w i)); [|done].
  case_match; [|done]. rewrite reservationKey_last, reservationKey_worker, reservationKey_index, js_Number_show_int.
  apply (recompute_consistent w i st); [done..|]. intros k Hk. simpl.
  case_decide; by rewrite ?jm_get_delete_ne, ?jm_get_set_ne by done.
Qed.

(** Folding an operation that is confined to its own key over a list of keys. *)
Lemma foldl_release_get inst ks st k inst' :
  (perInstance ← jm_get (reservations (foldl (λ st rk, release_entry inst rk st) st ks)) k;
   jm_get perInstance inst') =
  if decide (k ∈ ks ∧ inst' = inst) then None
  else perInstance ← jm_get (reservations st) k; jm_get perInstance inst'.
Proof.
  revert st. induction ks as [|rk ks IH]; intros st; [by rewrite decide_False by set_solver|].
  cbn [foldl]. rewrite IH. destruct (decide (k = rk)) as [->|Hne].
  - rewrite release_entry_get_eq. repeat case_decide; set_solver.
  - rewrite release_entry_get_ne by done. repeat case_decide; set_solver.
Qed.

Lemma releaseInstanceReservations_hold inst st w i inst' :
  hold (releaseInstanceReservations inst st) w i inst' =
  if decide (inst' = inst) then None else hold st w i inst'.
Proof.
  unfold hold, releaseInstanceReservations. rewrite foldl_release_get.
  destruct (decide (reservationKey w i ∈ jm_keys (reservations st))) as [Hin|Hni].
  - repeat case_decide; naive_solver.
  - apply jm_get_None in Hni. rewrite Hni. simpl. by repeat case_decide.
Qed.

Lemma foldl_release_inv inst ks st :
  consistent st → keys_ok st → (∀ k, k ∈ ks → ∃ w i, k = reservationKey w i) →
  consistent (foldl (λ st rk, release_entry inst rk st) st ks) ∧
  keys_ok (foldl (λ st rk, release_entry inst rk st) st ks).
Proof.
  revert st. induction ks as [|rk ks IH]; intros st Hc Hk Hks; simpl; [done|].
  destruct (Hks rk) as (w & i & ->); [set_solver|].
  apply IH; [by apply release_entry_consistent| |set_solver].
  intros k ?%release_entry_keys. by apply Hk.
Qed.

Lemma release_inv inst st :
  consistent st → keys_ok st →
  consistent (releaseInstanceReservations inst st) ∧ keys_ok (releaseInstanceReservations inst st).
Proof. intros Hc Hk. apply foldl_release_inv; [done..|]. intros k (w & i & _ & ->)%Hk. eauto. Qed.

(** *** [clearWorkerReservations] *)
Lemma worker_prefix_key w w' i :
  has_char colon w' = false → starts_with (w +:+ ":") (reservationKey w' i) = true → w = w'.
Proof.
  intros Hw' [t Ht]%starts_with_spec. rewrite str_app_assoc in Ht.
  by eapply sep_unique; [exact Hw'|apply (show_int_no_colon i)|exact Ht].
Qed.

Lemma clear_entry_get w key k st :
  jm_get (reservations (clear_entry w key st)) k =
  if decide (k = key ∧ starts_with (w +:+ ":") k = true) then None else jm_get (reservations st) k.
Proof.
  unfold clear_entry. destruct (starts_with (w +:+ ":") key) eqn:Hs.
  - rewrite recompute_reservations. cbn [reservations]. case_decide as Hd.
    + destruct Hd as [-> _]. apply jm_get_delete_eq.
    + apply jm_get_delete_ne. intros ->. naive_solver.
  - rewrite decide_False; [done|]. intros [-> Hs']. congruence.
Qed.

Lemma foldl_clear_get w ks k st :
  jm_get (reservations (foldl (λ st key, clear_entry w key st) st ks)) k =
  if decide (k ∈ ks ∧ starts_with (w +:+ ":") k = true) then None else jm_get (reservations st) k.
Proof.
  revert st. induction ks as [|key ks IH]; intros st; [by rewrite decide_False by set_solver|].
  cbn [foldl]. rewrite IH, clear_entry_get. repeat case_decide; set_solver.
Qed.

Lemma clear_get w k st :
  jm_get (reservations (clearWorkerReservations w st)) k =
  if decide (starts_with (w +:+ ":") k = true) then None else jm_get (reservations st) k.
Proof.
  unfold clearWorkerReservations. rewrite foldl_clear_get.
  destruct (decide (k ∈ jm_keys (reservations st))) as [Hin|Hni%jm_get_None].
  - repeat case_decide; naive_solver.
  - rewrite Hni. by repeat case_decide.
Qed.

Lemma clear_budgets_ne w w' st :
  w' ≠ w → jm_get (budgets (clearWorkerReservations w st)) w' = jm_get (budgets st) w'.
Proof.
  intros Hne. unfold clearWorkerReservations. generalize (jm_keys (reservations st)) as ks. intros ks.
  revert st. induction ks as [|k ks IH]; intros st; [done|]. cbn [foldl]. rewrite IH.
  unfold clear_entry, recomputeDeviceBudget. repeat case_match; try done. simpl. by rewrite jm_get_set_ne.
Qed.

Lemma keys_ok_get st k per : keys_ok st → jm_get (reservations st) k = Some per →
  ∃ w i, has_char colon w = false ∧ k = reservationKey w i.
Proof. intros Hk Hget. apply Hk, list_elem_of_fmap. exists (k, per). split; [done|]. by apply jm_get_elem_of. Qed.

Lemma keys_ok_mono st st' :
  keys_ok st → (∀ k, is_Some (jm_get (reservations st') k) → is_Some (jm_get (reservations st) k)) → keys_ok st'.
Proof.
  intros Hk Hsub k Hin. assert (is_Some (jm_get (reservations st') k)) as Hs.
  { apply not_eq_None_Some. rewrite jm_get_None. tauto. }
  apply Hsub in Hs as [per ?]. by eapply keys_ok_get.
Qed.

Lemma clear_hold w st w' i inst :
  keys_ok st →
  hold (clearWorkerReservations w st) w' i inst = if decide (w' = w) then None else hold st w' i inst.
Proof.
  intros Hk. unfold hold. rewrite clear_get. destruct (decide (w' = w)) as [->|Hne].
  - rewrite decide_True; [done|]. apply starts_with_spec. exists (show_int i).
    unfold reservationKey. by rewrite str_app_assoc.
  - case_decide as Hs; [|done].
    destruct (jm_get (reservations st) (reservationKey w' i)) as [per|] eqn:Hget; [|done].
    destruct (keys_ok_get _ _ _ Hk Hget) as (w0 & i0 & Hw0 & Heq).
    apply reservationKey_inj in Heq as [-> ->]. by apply worker_prefix_key in Hs.
Qed.

Lemma clear_entry_inv w key st :
  (∃ w' i, has_char colon w' = false ∧ key = reservationKey w' i) →
  consistent st → keys_ok st → consistent (clear_entry w key st) ∧ keys_ok (clear_entry w key st).
Proof.
  intros (w' & i & Hw' & ->) Hc Hk. split.
  - unfold clear_entry. case_match eqn:Hs; [|done].
    apply worker_prefix_key in Hs as ->; [|done].
    replace (str_length (w' +:+ ":")) with (S (str_length w')) by (rewrite str_length_app; simpl; lia).
    rewrite reservationKey_index, js_Number_show_int.
    apply (recompute_consistent w' i st); [done..|]. intros k Hne. simpl. by rewrite jm_get_delete_ne.
  - eapply keys_ok_mono; [done|]. intros k. rewrite clear_entry_get. case_decide; [by intros []|done].
Qed.

Lemma foldl_clear_inv w ks st :
  (∀ k, k ∈ ks → ∃ w' i, has_char colon w' = false ∧ k = reservationKey w' i) →
  consistent st → keys_ok st →
  consistent (foldl (λ st key, clear_entry w key st) st ks) ∧
  keys_ok (foldl (λ st key, clear_entry w key st) st ks).
Proof.
  revert st. induction ks as [|key ks IH]; intros st Hks Hc Hk; [done|].
  destruct (clear_entry_inv w key st) as [??]; [set_solver|done..|]. apply IH; [set_solver|done..].
Qed.

Lemma clear_inv w st :
  consistent st → keys_ok st → consistent (clearWorkerReservations w st) ∧ keys_ok (clearWorkerReservations w st).
Proof. intros Hc Hk. apply foldl_clear_inv; [apply Hk|done..]. Qed.

(** *** Refreshes *)
Lemma delete_budget_inv w st :
  consistent st → keys_ok st →
  consistent (set_budgets (jm_delete (budgets st) w) st) ∧ keys_ok (set_budgets (jm_delete (budgets st) w) st).
Proof.
  intros Hc Hk. split; [|done]. intros w' i b d Hget. apply (Hc w' i b d). simpl in Hget.
  destruct (decide (w = w')) as [->|]; [by rewrite jm_get_delete_eq in Hget|by rewrite jm_get_delete_ne in Hget].
Qed.

Lemma find_device_fmap st w i ds d :
  find_device i (to_device_budget st w <$> ds) = Some d →
  availableBytes d = available (totalBytes d) (usedBytes d) (getReservation st w i).
Proof.
  intros [Hin Hi]%find_some. apply list_elem_of_In, list_elem_of_fmap in Hin as (x & -> & _).
  by apply bool_decide_eq_true in Hi as <-.
Qed.

Section refresh.
Context (JSON_parse : string → option json) `{!JsDate} (keyPrefix : string).

(** What a parsed report is made of. *)
Lemma parseReport_Some now raw w st b :
  parseReport JSON_parse now raw w st = Some b →
  wb_workerId b = w ∧ stale b = false ∧ ∃ report rawDevices ds,
    JSON_parse raw = Some (JObj report) ∧
    obj_get report "devices" = Some (JArr rawDevices) ∧
    mapM validateDevice rawDevices = Some ds ∧ wb_devices b = to_device_budget st w <$> ds.
Proof.
  unfold parseReport, validate_devices. intros Hp. repeat case_match; try done.
  all: apply bind_Some in Hp as (ds & Hds & ?); simplify_eq/=; naive_solver.
Qed.

Lemma set_parsed_inv now raw w st b :
  parseReport JSON_parse now raw w st = Some b →
  consistent st → keys_ok st →
  consistent (set_budgets (jm_set (budgets st) w b) st) ∧ keys_ok (set_budgets (jm_set (budgets st) w b) st).
Proof.
  intros (_ & _ & report & rawDevices & ds & _ & _ & _ & Hds)%parseReport_Some Hc Hk. split; [|done].
  intros w' i b' d Hget Hfind. simpl in Hget. destruct (decide (w = w')) as [->|Hne].
  - rewrite jm_get_set_eq in Hget. simplify_eq. rewrite Hds in Hfind. by eapply find_device_fmap.
  - rewrite jm_get_set_ne in Hget by done. by apply (Hc w' i b' d).
Qed.

Lemma refreshWorkerBudget_inv now w raw st :
  consistent st → keys_ok st →
  consistent (refreshWorkerBudget JSON_parse now w raw st).2 ∧
  keys_ok (refreshWorkerBudget JSON_parse now w raw st).2.
Proof.
  intros Hc Hk. unfold refreshWorkerBudget. repeat case_match; simpl.
  - by eapply set_parsed_inv.
  - by apply delete_budget_inv.
  - destruct (delete_budget_inv w st) as [??]; [done..|]. by apply clear_inv.
Qed.

Lemma refresh_entries_inv now krs st seen :
  consistent st → keys_ok st →
  let st' := (foldl (refresh_entry JSON_parse keyPrefix now) (st, seen) krs).1 in
  consistent st' ∧ keys_ok st'.
Proof.
  revert st seen. induction krs as [|[k [raw|]] krs IH]; intros st seen Hc Hk; [done| |by apply IH].
  cbn [foldl]. unfold refresh_entry at 2. simpl. case_match eqn:Hp; [|by apply IH].
  destruct (set_parsed_inv _ _ _ _ _ Hp Hc Hk). by apply IH.
Qed.

Lemma drop_unseen_inv seen st :
  consistent st → keys_ok st → consistent (drop_unseen seen st) ∧ keys_ok (drop_unseen seen st).
Proof.
  unfold drop_unseen. generalize (jm_keys (budgets st)) as ws. intros ws.
  revert st. induction ws as [|w ws IH]; intros st Hc Hk; [done|]. cbn [foldl].
  case_decide; [by apply IH|]. destruct (delete_budget_inv w st) as [??]; [done..|].
  destruct (clear_inv w (set_budgets (jm_delete (budgets st) w) st)) as [??]; [done..|]. by apply IH.
Qed.

Lemma init_inv : consistent init_state ∧ keys_ok init_state.
Proof. split; [done|]. intros k. set_solver. Qed.

Lemma refreshAll_inv now keys results st :
  consistent st → keys_ok st →
  consistent (refreshAll JSON_parse keyPrefix now keys results st) ∧
  keys_ok (refreshAll JSON_parse keyPrefix now keys results st).
Proof.
  intros Hc Hk. unfold refreshAll. destruct keys as [|k keys]; [apply init_inv|].
  destruct results as [raws|]; [|done].
  destruct (foldl _ _ _) as [st' seen] eqn:Hf.
  destruct (refresh_entries_inv now (zip (k :: keys) raws) st []) as [??]; [done..|].
  rewrite Hf in *. by apply drop_unseen_inv.
Qed.
End refresh.

(** ** Reachable states *)

(** The mutators of the service, with the replies Redis gave them. *)
Inductive budget_op :=
| Reserve (w : string) (i : Z) (inst : string) (bytes : Z)
| Release (inst : string)
| Clear (w : string)
| RefreshWorker (now : Z) (w : string) (raw : option string)
| RefreshAll (now : Z) (keys : list string) (results : option (list (option string))).

Definition run_op (JSON_parse : string → option json) `{!JsDate} (keyPrefix : string)
    (st : BudgetState) (op : budget_op) : BudgetState :=
  match op with
  | Reserve w i inst bytes => reserveCapacity w i inst bytes st
  | Release inst => releaseInstanceReservations inst st
  | Clear w => clearWorkerReservations w st
  | RefreshWorker now w raw => (refreshWorkerBudget JSON_parse now w raw st).2
  | RefreshAll now keys results => refreshAll JSON_parse keyPrefix now keys results st
  end.

(** Holds are taken on workers whose id has no colon, for a non-negative size. *)
Definition op_ok (op : budget_op) : Prop :=
  match op with Reserve w _ _ bytes => has_char colon w = false ∧ (0 ≤ bytes)%Z | _ => True end.

Lemma reserve_keys_ok w i inst bytes st :
  has_char colon w = false → keys_ok st → keys_ok (reserveCapacity w i inst bytes st).
Proof.
  intros Hw Hk k. rewrite reserveCapacity_reservations, jm_keys_set.
  case_decide; [apply Hk|]. rewrite elem_of_app, list_elem_of_singleton. intros [?| ->]; [by apply Hk|eauto].
Qed.

Lemma run_op_inv JSON_parse `{!JsDate} keyPrefix st op :
  op_ok op → consistent st → keys_ok st →
  consistent (run_op JSON_parse keyPrefix st op) ∧ keys_ok (run_op JSON_parse keyPrefix st op).
Proof.
  destruct op; simpl; intros Hop Hc Hk.
  - split; [by apply reserveCapacity_consistent|]. by apply reserve_keys_ok; [apply Hop|].
  - by apply release_inv.
  - by apply clear_inv.
  - by apply refreshWorkerBudget_inv.
  - by apply refreshAll_inv.
Qed.

Lemma run_ops_inv JSON_parse `{!JsDate} keyPrefix ops st :
  Forall op_ok ops → consistent st → keys_ok st →
  consistent (foldl (run_op JSON_parse keyPrefix) st ops) ∧ keys_ok (foldl (run_op JSON_parse keyPrefix) st ops).
Proof.
  intros Hops. revert st. induction Hops as [|op ops Hop _ IH]; intros st Hc Hk; [done|].
  destruct (run_op_inv JSON_parse keyPrefix st op) as [??]; [done..|]. by apply IH.
Qed.

(** *** Non-negative holds keep [availableBytes] within the device *)
Definition device_bounded (d : DeviceBudget) : Prop :=
  (0 ≤ totalBytes d)%Z ∧ (0 ≤ usedBytes d)%Z ∧ (0 ≤ availableBytes d ≤ totalBytes d)%Z.

Definition nonneg_entry (kp : string * list (string * Z)) : Prop := Forall (λ iv, (0 ≤ iv.2)%Z) kp.2.

Definition bounded (st : BudgetState) : Prop :=
  Forall (λ wb, Forall device_bounded (wb_devices wb.2)) (budgets st) ∧ Forall nonneg_entry (reservations st).

Lemma sum_bytes_nonneg per : Forall (λ iv : string * Z, (0 ≤ iv.2)%Z) per → (0 ≤ sum_bytes per)%Z.
Proof. unfold sum_bytes, jm_values. induction 1 as [|[k v] per Hv _ IH]; csimpl; simpl in *; lia. Qed.

Lemma getReservation_nonneg st w i : Forall nonneg_entry (reservations st) → (0 ≤ getReservation st w i)%Z.
Proof.
  intros Hr. unfold getReservation. case_match eqn:Hget; [|done].
  apply sum_bytes_nonneg. by apply (Forall_jm_get _ _ _ _ Hr) in Hget.
Qed.

Lemma set_available_bounded held d : (0 ≤ held)%Z → device_bounded d → device_bounded (set_available held d).
Proof. unfold device_bounded, set_available, available. simpl. lia. Qed.

Lemma update_device_bounded held i ds :
  (0 ≤ held)%Z → Forall device_bounded ds → Forall device_bounded (update_device (set_available held) i ds).
Proof.
  intros Hh. induction 1 as [|d ds Hd Hds IH]; simpl; [done|].
  case_decide; constructor; auto using set_available_bounded.
Qed.

Lemma recompute_bounded w i st : bounded st → bounded (recomputeDeviceBudget w i st).
Proof.
  intros [Hb Hr]. unfold recomputeDeviceBudget. repeat case_match; try done.
  split; [|done]. simpl. apply Forall_jm_set; [|done]. intros ?. simpl.
  apply update_device_bounded; [by apply getReservation_nonneg|].
  match goal with H : jm_get (budgets st) _ = Some _ |- _ => by apply (Forall_jm_get _ _ _ _ Hb) in H end.
Qed.

Lemma release_entry_bounded inst rk st : bounded st → bounded (release_entry inst rk st).
Proof.
  intros [Hb Hr]. unfold release_entry. destruct (jm_get (reservations st) rk) as [per|] eqn:Hget; [|done].
  apply (Forall_jm_get _ _ _ _ Hr) in Hget. case_match; [|done].
  apply recompute_bounded. split; [done|]. simpl.
  case_decide; [by apply Forall_jm_delete|]. apply Forall_jm_set; [|done]. intros ?. by apply Forall_jm_delete.
Qed.

Lemma clear_entry_bounded w k st : bounded st → bounded (clear_entry w k st).
Proof.
  intros [Hb Hr]. unfold clear_entry. case_match; [|done].
  apply recompute_bounded. split; [done|]. by apply Forall_jm_delete.
Qed.

Lemma foldl_bounded {A} (f : BudgetState → A → BudgetState) xs st :
  (∀ st x, bounded st → bounded (f st x)) → bounded st → bounded (foldl f st xs).
Proof. intros Hf. revert st. induction xs as [|x xs IH]; intros st Hb; [done|]. apply IH. by apply Hf. Qed.

Lemma clear_bounded w st : bounded st → bounded (clearWorkerReservations w st).
Proof. apply foldl_bounded. intros. by apply clear_entry_bounded. Qed.

Lemma nonNegativeInt_Some v z : nonNegativeInt v = Some z → v = Some (JNum (NumInt z)) ∧ (0 ≤ z)%Z.
Proof.
  unfold nonNegativeInt, is_integer. intros (z' & Hv & Hg)%bind_Some.
  repeat case_match; simplify_option_eq; done.
Qed.

Lemma validateDevice_nonneg raw d :
  validateDevice raw = Some d → (0 ≤ wd_memoryTotalBytes d)%Z ∧ (0 ≤ wd_memoryUsedBytes d)%Z.
Proof.
  unfold validateDevice. intros Hv. case_match; try done.
  repeat (apply bind_Some in Hv as (? & ?%nonNegativeInt_Some & Hv) || apply bind_Some in Hv as (? & _ & Hv)).
  simplify_eq/=. naive_solver.
Qed.

Lemma delete_budget_bounded w st : bounded st → bounded (set_budgets (jm_delete (budgets st) w) st).
Proof. intros [Hb Hr]. split; [|done]. by apply Forall_jm_delete. Qed.

Lemma set_parsed_bounded JSON_parse `{!JsDate} now raw w st b :
  parseReport JSON_parse now raw w st = Some b → bounded st → bounded (set_budgets (jm_set (budgets st) w b) st).
Proof.
  intros (_ & _ & report & rawDevices & ds & _ & _ & Hm & Hds)%parseReport_Some [Hb Hr]. split; [|done].
  apply Forall_jm_set; [|done]. intros k. simpl. rewrite Hds. apply Forall_fmap.
  apply mapM_Some in Hm. eapply Forall2_Forall_r; [exact Hm|].
  apply Forall_true. intros x d [??]%validateDevice_nonneg. pose proof (getReservation_nonneg st w (wd_deviceIndex d) Hr).
  unfold device_bounded, to_device_budget, available. simpl. lia.
Qed.

Lemma refresh_entries_bounded JSON_parse `{!JsDate} keyPrefix now krs st seen :
  bounded st → bounded (foldl (refresh_entry JSON_parse keyPrefix now) (st, seen) krs).1.
Proof.
  revert st seen. induction krs as [|[k [raw|]] krs IH]; intros st seen Hb; [done| |by apply IH].
  cbn [foldl]. unfold refresh_entry at 2. simpl. case_match eqn:Hp; [|by apply IH].
  apply IH. by eapply set_parsed_bounded.
Qed.

Lemma drop_unseen_bounded seen st : bounded st → bounded (drop_unseen seen st).
Proof.
  apply foldl_bounded. intros st' w Hb. case_decide; [done|]. by apply clear_bounded, delete_budget_bounded.
Qed.

Lemma run_op_bounded JSON_parse `{!JsDate} keyPrefix st op :
  op_ok op → bounded st → bounded (run_op JSON_parse keyPrefix st op).
Proof.
  destruct op as [w i inst bytes|inst|w|now w raw|now keys results]; simpl; intros Hop Hb.
  - apply recompute_bounded. destruct Hop as [_ Hbytes], Hb as [Hb Hr]. split; [done|]. simpl.
    apply Forall_jm_set; [|done]. intros ?. unfold nonneg_entry. simpl.
    apply Forall_jm_set; [done|]. destruct (jm_get (reservations st) _) eqn:Hget; simpl; [|done].
    by apply (Forall_jm_get _ _ _ _ Hr) in Hget.
  - apply foldl_bounded; [|done]. intros. by apply release_entry_bounded.
  - by apply clear_bounded.
  - unfold refreshWorkerBudget. repeat case_match; simpl.
    + by eapply set_parsed_bounded.
    + by apply delete_budget_bounded.
    + by apply clear_bounded, delete_budget_bounded.
  - unfold refreshAll. destruct keys as [|k keys]; [by split|]. destruct results as [raws|]; [|done].
    destruct (foldl _ _ _) as [st' seen] eqn:Hf. apply drop_unseen_bounded.
    pose proof (refresh_entries_bounded JSON_parse keyPrefix now (zip (k :: keys) raws) st [] Hb) as Hb'.
    by rewrite Hf in Hb'.
Qed.

Lemma run_ops_bounded JSON_parse `{!JsDate} keyPrefix ops st :
  Forall op_ok ops → bounded st → bounded (foldl (run_op JSON_parse keyPrefix) st ops).
Proof.
  intros Hops. revert st. induction Hops as [|op ops Hop _ IH]; intros st Hb; [done|].
  apply IH. by apply run_op_bounded.
Qed.

(** *** The ledger of holds, abstractly: the hold by worker, device and instance, and the workers
    with a report. *)
Record Ledger := mkLedger { lg_hold : string → Z → string → option Z; lg_known : gset string }.
Definition empty_ledger : Ledger := mkLedger (λ _ _ _, None) ∅.
(** The holds that go when a worker is lost: its own, and those of the workers whose id extends
    its id by a colon. *)
Definition loses (gone w : string) : bool := bool_decide (w = gone) || starts_with (gone +:+ ":") w.
Definition lose (gone : list string) (h : string → Z → string → option Z) : string → Z → string → option Z :=
  λ w i inst, if existsb (λ g, loses g w) gone then None else h w i inst.

Section ledger.
Context (JSON_parse : string → option json) `{!JsDate} (keyPrefix : string).

(** A report with a list of devices all of which validate. *)
Definition readable (raw : string) : bool :=
  match JSON_parse raw with
  | Some (JObj report) =>
      match obj_get report "devices" with Some (JArr ds) => bool_decide (is_Some (mapM validateDevice ds)) | _ => false end
  | _ => false
  end.
(** The workers of which a readable report was read. *)
Definition reported (krs : list (string * option string)) : list string :=
  omap (λ kr : string * option string, match kr.2 with Some raw => if readable raw then Some (worker_of_key keyPrefix kr.1) else None | None => None end) krs.

Definition ledger_step (g : Ledger) (op : budget_op) : Ledger :=
  match op with
  | Reserve w' i' inst' bytes => mkLedger (λ w i inst, if decide (w' = w ∧ i' = i ∧ inst' = inst) then Some bytes else lg_hold g w i inst) (lg_known g)
  | Release inst' => mkLedger (λ w i inst, if decide (inst = inst') then None else lg_hold g w i inst) (lg_known g)
  | Clear w' => mkLedger (lose [w'] (lg_hold g)) (lg_known g)
  | RefreshWorker _ w' raw =>
      if truthy_str raw then mkLedger (lg_hold g) (if readable (default "" raw) then {[w']} ∪ lg_known g else lg_known g ∖ {[w']})
      else mkLedger (lose [w'] (lg_hold g)) (lg_known g ∖ {[w']})
  | RefreshAll _ [] _ => empty_ledger
  | RefreshAll _ _ None => g
  | RefreshAll _ keys (Some raws) =>
      let seen := list_to_set (reported (zip keys raws)) in
      mkLedger (lose (elements (lg_known g ∖ seen)) (lg_hold g)) seen
  end.

(** The two maps stand for the ledger. *)
Definition represents (st : BudgetState) (g : Ledger) : Prop :=
  (∀ w i inst, hold st w i inst = lg_hold g w i inst) ∧ (∀ w, w ∈ jm_keys (budgets st) ↔ w ∈ lg_known g).

Lemma key_under gone w i : starts_with (gone +:+ ":") (reservationKey w i) = loses gone w.
Proof.
  unfold reservationKey, loses. apply eq_true_iff_eq. rewrite orb_true_iff, bool_decide_eq_true, !starts_with_spec. split.
  - intros [x Heq]. revert w Heq. pose proof (show_int_no_colon i) as Hn. induction gone as [|c gone IH]; intros [|c' w] Heq; simpl in Heq.
    + by left.
    + injection Heq as -> _. right. by exists w.
    + injection Heq as <- Heq. exfalso. change ("" +:+ show_int i) with (show_int i) in Heq. rewrite Heq, !has_char_app in Hn. simpl in Hn. by rewrite orb_true_r in Hn.
    + injection Heq as <- Heq. destruct (IH w Heq) as [->|[y ->]]; [by left|]. right. by exists y.
  - intros [->|[x ->]]; [exists (show_int i); by rewrite str_app_assoc|]. exists (x +:+ ":" +:+ show_int i). by rewrite !str_app_assoc.
Qed.
Lemma clear_hold_any gone st w i inst : hold (clearWorkerReservations gone st) w i inst = lose [gone] (hold st) w i inst.
Proof. unfold hold at 1, lose. rewrite clear_get, key_under. simpl. rewrite orb_false_r. case_decide as Hl; [by rewrite Hl|]. by apply not_true_is_false in Hl as ->. Qed.

Lemma recompute_known w i st x : x ∈ jm_keys (budgets (recomputeDeviceBudget w i st)) ↔ x ∈ jm_keys (budgets st).
Proof.
  unfold recomputeDeviceBudget. destruct (jm_get (budgets st) w) as [b|] eqn:Hb, i as [i|]; try done. cbn [budgets]. rewrite jm_keys_set, decide_True; [done|].
  apply list_elem_of_fmap. exists (w, b). split; [done|]. by apply jm_get_elem_of.
Qed.
Lemma foldl_known (f : string → BudgetState → BudgetState) ks st x :
  (∀ k st, x ∈ jm_keys (budgets (f k st)) ↔ x ∈ jm_keys (budgets st)) →
  x ∈ jm_keys (budgets (foldl (λ st k, f k st) st ks)) ↔ x ∈ jm_keys (budgets st).
Proof. intros Hf. revert st. induction ks as [|k ks IH]; intros st; [done|]. cbn [foldl]. by rewrite IH. Qed.
Lemma clear_known gone st x : x ∈ jm_keys (budgets (clearWorkerReservations gone st)) ↔ x ∈ jm_keys (budgets st).
Proof. apply foldl_known. intros k st'. unfold clear_entry. case_match; [|done]. by rewrite recompute_known. Qed.
Lemma release_known inst st x : x ∈ jm_keys (budgets (releaseInstanceReservations inst st)) ↔ x ∈ jm_keys (budgets st).
Proof. apply foldl_known. intros k st'. unfold release_entry. repeat case_match; try done; by rewrite recompute_known. Qed.
Lemma elem_of_set_key {A} (m : list (string * A)) k v x : x ∈ jm_keys (jm_set m k v) ↔ x = k ∨ x ∈ jm_keys m.
Proof. rewrite jm_keys_set. case_decide; set_solver. Qed.

Lemma parseReport_readable now raw w st : is_Some (parseReport JSON_parse now raw w st) ↔ readable raw = true.
Proof.
  assert (∀ A (b : bool), b = false → is_Some (@None A) ↔ b = true) as Hno by (intros A b ->; split; [by intros []|done]).
  unfold parseReport, readable, validate_devices. destruct (JSON_parse raw) as [[| | | | |report]|]; try by apply Hno.
  destruct (obj_get report "devices") as [[| | | |ds|]|]; try by apply Hno. rewrite bool_decide_eq_true.
  destruct (mapM validateDevice ds); simpl; split; intros []; eauto; done.
Qed.
Lemma refresh_entries_ledger now krs st seen : let r := foldl (refresh_entry JSON_parse keyPrefix now) (st, seen) krs in
  reservations r.1 = reservations st ∧ (∀ w, w ∈ jm_keys (budgets r.1) ↔ w ∈ jm_keys (budgets st) ∨ w ∈ reported krs) ∧ (∀ w, w ∈ r.2 ↔ w ∈ seen ∨ w ∈ reported krs).
Proof.
  revert st seen. induction krs as [|[k [raw|]] krs IH]; intros st seen; [simpl; set_solver| |exact (IH st seen)].
  cbn [foldl]. unfold refresh_entry at 2 4 6. cbn [snd fst]. unfold reported. cbn [omap list_omap snd fst]. fold (reported krs).
  pose proof (parseReport_readable now raw (worker_of_key keyPrefix k) st) as Hp. destruct (parseReport _ _ _ _ _) as [b|].
  - rewrite (proj1 Hp) by done. destruct (IH (set_budgets (jm_set (budgets st) (worker_of_key keyPrefix k) b) st) (worker_of_key keyPrefix k :: seen)) as (H1 & H2 & H3).
    split; [exact H1|]. split; intros w; [rewrite H2; cbn [budgets set_budgets]; rewrite elem_of_set_key|rewrite H3]; set_solver.
  - destruct (readable raw); [by destruct (proj2 Hp eq_refl)|]. apply IH.
Qed.
Lemma drop_unseen_ledger seen st :
  (∀ w i inst, hold (drop_unseen seen st) w i inst = lose (filter (.∉ seen) (jm_keys (budgets st))) (hold st) w i inst) ∧
  (∀ w, w ∈ jm_keys (budgets (drop_unseen seen st)) ↔ w ∈ jm_keys (budgets st) ∧ w ∈ seen).
Proof.
  unfold drop_unseen. assert (∀ ws st, let st' := foldl (λ st w, if decide (w ∈ seen) then st else clearWorkerReservations w (set_budgets (jm_delete (budgets st) w) st)) st ws in
    (∀ w i inst, hold st' w i inst = lose (filter (.∉ seen) ws) (hold st) w i inst) ∧
    (∀ w, w ∈ jm_keys (budgets st') ↔ w ∈ jm_keys (budgets st) ∧ (w ∈ ws → w ∈ seen))) as Hall.
  { induction ws as [|w0 ws IH]; intros st0; [simpl; set_solver|]. cbn [foldl]. rewrite filter_cons. destruct (decide (w0 ∈ seen)) as [Hin|Hni].
    - rewrite decide_False by tauto. destruct (IH st0) as [H1 H2]. split; [done|]. intros w. rewrite H2. set_solver.
    - rewrite decide_True by done. destruct (IH (clearWorkerReservations w0 (set_budgets (jm_delete (budgets st0) w0) st0))) as [H1 H2]. split.
      + intros w i inst. rewrite H1. unfold lose at 1. rewrite clear_hold_any. unfold lose. simpl. rewrite orb_false_r. by destruct (loses w0 w), (existsb _ _).
      + intros w. rewrite H2, clear_known. cbn [budgets set_budgets]. rewrite jm_keys_delete. set_solver. }
  destruct (Hall (jm_keys (budgets st)) st) as [H1 H2]. split; [done|]. intros w. rewrite H2. tauto.
Qed.
Lemma lose_ext l1 l2 h1 h2 w i inst : (∀ x, x ∈ l1 ↔ x ∈ l2) → h1 w i inst = h2 w i inst → lose l1 h1 w i inst = lose l2 h2 w i inst.
Proof.
  intros Hl Hh. unfold lose. rewrite Hh. assert (existsb (λ g, loses g w) l1 = existsb (λ g, loses g w) l2) as ->; [|done].
  apply eq_true_iff_eq. rewrite !existsb_exists. setoid_rewrite <- list_elem_of_In. by setoid_rewrite Hl.
Qed.

Lemma refreshAll_represents now keys results st g :
  represents st g → represents (refreshAll JSON_parse keyPrefix now keys results st) (ledger_step g (RefreshAll now keys results)).
Proof.
  intros [Hh Hk]. unfold refreshAll. destruct keys as [|k keys]; [split; [done|simpl; set_solver]|]. destruct results as [raws|]; [|by split].
  destruct (refresh_entries_ledger now (zip (k :: keys) raws) st []) as (H1 & H2 & H3). destruct (foldl _ _ _) as [st' seen]. cbn [fst snd] in *.
  destruct (drop_unseen_ledger seen st') as [Hd1 Hd2]. cbn [ledger_step]. split; cbn [lg_hold lg_known].
  - intros w i inst. rewrite Hd1. apply lose_ext; [|unfold hold; rewrite H1; apply Hh].
    intros x. rewrite list_elem_of_filter, H2, H3, elem_of_elements, elem_of_difference, elem_of_list_to_set, Hk. set_solver.
  - intros w. rewrite Hd2, H2, H3, elem_of_list_to_set. set_solver.
Qed.
Lemma run_op_represents st g op : represents st g → represents (run_op JSON_parse keyPrefix st op) (ledger_step g op).
Proof.
  intros Hr. pose proof Hr as [Hh Hk]. destruct op as [w' i' inst' bytes|inst'|w'|now w' raw|now keys results]; [..|by apply refreshAll_represents]; cbn [run_op ledger_step].
  - split; cbn; intros; [rewrite reserveCapacity_hold|unfold reserveCapacity; rewrite recompute_known]; [by rewrite Hh|apply Hk].
  - split; cbn; intros; [rewrite releaseInstanceReservations_hold; by rewrite Hh|rewrite release_known; apply Hk].
  - split; cbn [lg_hold lg_known]; intros; [rewrite clear_hold_any; by apply lose_ext|rewrite clear_known; apply Hk].
  - unfold refreshWorkerBudget. destruct (truthy_str raw).
    + pose proof (parseReport_readable now (default "" raw) w' st) as Hp. destruct (parseReport _ _ _ _ _) as [budget|]; simpl.
      * rewrite (proj1 Hp) by done. split; [exact Hh|]. intros w. cbn [budgets set_budgets lg_known]. rewrite elem_of_set_key, Hk. set_solver.
      * destruct (readable _); [by destruct (proj2 Hp eq_refl)|]. split; [exact Hh|]. intros w. cbn [budgets set_budgets lg_known]. rewrite jm_keys_delete, Hk. set_solver.
    + split; cbn [lg_hold lg_known snd]; intros; [rewrite clear_hold_any; apply lose_ext; [done|apply Hh]|]. rewrite clear_known. cbn [budgets set_budgets]. rewrite jm_keys_delete, Hk. set_solver.
Qed.
Lemma run_ops_represents ops st g : represents st g → represents (foldl (run_op JSON_parse keyPrefix) st ops) (foldl ledger_step g ops).
Proof. revert st g. induction ops as [|op ops IH]; intros st g Hr; [done|]. apply IH. by apply run_op_represents. Qed.
End ledger.

Lemma worker_of_memory_key keyPrefix w : worker_of_key keyPrefix (workerMemoryKey keyPrefix w) = w.
Proof.
  unfold worker_of_key, workerMemoryKey. cbn [js_join].
  replace (keyPrefix +:+ ":" +:+ "workers" +:+ ":" +:+ w +:+ ":" +:+ "memory")
    with (((keyPrefix +:+ ":" +:+ "workers") +:+ ":") +:+ (w +:+ ":memory")) by (by rewrite !str_app_assoc).
  rewrite starts_with_app, str_drop_app, ends_with_app, str_length_app, Nat.add_sub. apply str_take_app.
Qed.

(** ** Properties *)

(** Whatever sequence of reservations, releases, worker losses and report
    refreshes the service has processed, each device's [availableBytes] is
    [max(0, total - used - holds)] for the holds it has now: no operation leaves a
    device with a figure computed from old holds. *)
Theorem reachable_consistent (JSON_parse : string → option json) `{!JsDate} keyPrefix ops w b i d :
  Forall op_ok ops →
  let st := foldl (run_op JSON_parse keyPrefix) init_state ops in
  jm_get (budgets st) w = Some b →
  find_device i (wb_devices b) = Some d →
  availableBytes d = Z.max 0 (totalBytes d - usedBytes d - getReservation st w i).
Proof.
  intros Hops st. destruct init_inv as [??].
  destruct (run_ops_inv JSON_parse keyPrefix ops init_state Hops) as [Hc _]; [done..|]. apply Hc.
Qed.

(** In every reachable state every device of every worker has
    [0 <= availableBytes <= totalBytes], also when two devices of a report carry
    the same index. *)
Theorem reachable_bounded (JSON_parse : string → option json) `{!JsDate} keyPrefix ops w b d :
  Forall op_ok ops →
  let st := foldl (run_op JSON_parse keyPrefix) init_state ops in
  jm_get (budgets st) w = Some b → d ∈ wb_devices b →
  (0 ≤ availableBytes d ≤ totalBytes d)%Z.
Proof.
  intros Hops st Hget Hd.
  destruct (run_ops_bounded JSON_parse keyPrefix ops init_state Hops) as [Hb _]; [by split|].
  apply (Forall_jm_get _ _ _ _ Hb) in Hget. simpl in Hget. eapply Forall_forall in Hget; [|done]. apply Hget.
Qed.


(** A device entry is accepted exactly when its index, device type, used and
    total memory are well-formed, and it then carries those values: no NVML extra
    or kvcached block, however malformed, rejects it. *)
Theorem validateDevice_core d index type used total :
  (∃ dev, validateDevice (JObj d) = Some dev ∧ wd_deviceIndex dev = index ∧ wd_deviceType dev = type ∧
          wd_memoryUsedBytes dev = used ∧ wd_memoryTotalBytes dev = total) ↔
  obj_get d "deviceIndex" = Some (JNum (NumInt index)) ∧ (0 ≤ index)%Z ∧
  obj_get d "deviceType" = Some (JStr (device_str type)) ∧
  obj_get d "memoryUsedBytes" = Some (JNum (NumInt used)) ∧ (0 ≤ used)%Z ∧
  obj_get d "memoryTotalBytes" = Some (JNum (NumInt total)) ∧ (0 ≤ total)%Z.
Proof.
  assert (∀ z, (0 ≤ z)%Z → nonNegativeInt (Some (JNum (NumInt z))) = Some z) as Hnn.
  { intros z Hz. unfold nonNegativeInt. simpl. by rewrite option_guard_True. }
  unfold validateDevice. split.
  - intros (dev & Hv & <- & <- & <- & <-).
    apply bind_Some in Hv as (? & [? ?]%nonNegativeInt_Some & Hv).
    apply bind_Some in Hv as (? & [? _]%enum_value_Some & Hv).
    apply bind_Some in Hv as (? & [? ?]%nonNegativeInt_Some & Hv).
    apply bind_Some in Hv as (? & [? ?]%nonNegativeInt_Some & Hv). by simplify_eq/=.
  - intros (-> & ? & -> & -> & ? & -> & ?). rewrite !Hnn by done. simpl.
    destruct type; simpl; eauto 10.
Qed.

(** [clearWorkerReservations] matches holds by the text prefix
    [`${workerId}:`], so losing worker [w] also drops every hold of any worker whose
    id extends [w] by a colon, and does not recompute that worker's devices: their
    [availableBytes] keeps the figure computed from the dropped holds. *)
Theorem clear_drops_other_worker w x i inst st :
  let st' := clearWorkerReservations w st in
  hold st' (w +:+ ":" +:+ x) i inst = None ∧
  jm_get (budgets st') (w +:+ ":" +:+ x) = jm_get (budgets st) (w +:+ ":" +:+ x).
Proof.
  split.
  - unfold hold. rewrite clear_get, decide_True; [done|]. apply starts_with_spec.
    exists (x +:+ ":" +:+ show_int i). unfold reservationKey. by rewrite !str_app_assoc.
  - apply clear_budgets_ne. intros Heq. apply (f_equal str_length) in Heq.
    rewrite str_length_app in Heq. simpl in Heq. lia.
Qed.

(** One unreadable report loses the holds of its worker in [refreshAll],
    although the worker is still present in Redis, while [refreshWorkerBudget]
    given the same text keeps them. *)
Theorem refreshAll_malformed_drops_holds (JSON_parse : string → option json) `{!JsDate} keyPrefix now w raw b st i inst bytes :
  raw ≠ "" → keys_ok st →
  jm_get (budgets st) w = Some b → JSON_parse raw = None → hold st w i inst = Some bytes →
  hold (refreshAll JSON_parse keyPrefix now [workerMemoryKey keyPrefix w] (Some [Some raw]) st) w i inst = None ∧
  hold (refreshWorkerBudget JSON_parse now w (Some raw) st).2 w i inst = Some bytes.
Proof.
  intros Hraw Hk Hb Hj Hh.
  assert (parseReport JSON_parse now raw w st = None) as Hp by (unfold parseReport; by rewrite Hj).
  split.
  - unfold refreshAll. simpl. rewrite worker_of_memory_key, Hp. unfold drop_unseen.
    assert (∀ ws st', keys_ok st' → w ∈ ws ∨ hold st' w i inst = None →
      hold (foldl (λ st w', if decide (w' ∈ []) then st
              else clearWorkerReservations w' (set_budgets (jm_delete (budgets st) w') st)) st' ws) w i inst = None) as Hall.
    { clear. induction ws as [|w' ws IH]; intros st' Hk' Hor; [set_solver|]. cbn [foldl].
      rewrite decide_False by set_solver. apply IH.
      - apply (keys_ok_mono st'); [done|]. intros k. rewrite clear_get. case_decide; [by intros []|done].
      - rewrite clear_hold by done. change (hold (set_budgets _ _)) with (hold st'). case_decide; set_solver. }
    apply Hall; [done|]. left. unfold jm_keys. apply list_elem_of_fmap. exists (w, b). split; [done|].
    by apply jm_get_elem_of.
  - unfold refreshWorkerBudget, truthy_str. rewrite bool_decide_eq_false_2 by done. simpl. by rewrite Hp.
Qed.

(** ** Examples *)
Definition example_report : json :=
  JObj [("devices", JArr [JObj [("deviceIndex", JNum (NumInt 0)); ("deviceType", JStr "CUDA");
                                ("memoryUsedBytes", JNum (NumInt 10)); ("memoryTotalBytes", JNum (NumInt 100));
                                ("temperatureC", JStr "hot")]]);
        ("reportedAt", JStr "1000")].
Definition example_parse (text : string) : option json :=
  if decide (text = "report") then Some example_report else None.
Definition example_ops : list budget_op :=
  [RefreshWorker 1000 "w1" (Some "report"); Reserve "w1" 0 "inst-a" 30; Reserve "w1" 0 "inst-b" 25;
   Reserve "w1" 0 "inst-a" 20; Release "inst-b"].
Definition example_device (avail : Z) : DeviceBudget := mkDevice 0 "CUDA" 100 10 avail None None None None.

Lemma reachable_consistent_witness : availableBytes (example_device 70) = Z.max 0 (100 - 10 - 20).
Proof.
  apply (reachable_consistent example_parse "sardeenz" example_ops "w1"
           (mkBudget "w1" [example_device 70] "1000" false None) 0 (example_device 70));
    [repeat constructor; done|vm_compute; reflexivity..].
Defined.

Lemma reachable_bounded_witness : (0 ≤ availableBytes (example_device 70) ≤ totalBytes (example_device 70))%Z.
Proof.
  apply (reachable_bounded example_parse "sardeenz" example_ops "w1"
           (mkBudget "w1" [example_device 70] "1000" false None) (example_device 70));
    [repeat constructor; done|vm_compute; reflexivity|set_solver].
Defined.

(** Worker [w1] reports, and [w2] has vanished by the refresh of all workers. *)
Example ledger_after_refresh :
  let g := foldl (ledger_step example_parse "sardeenz") empty_ledger
    (example_ops ++ [RefreshWorker 1500 "w2" (Some "report"); Reserve "w2" 1 "inst-c" 5; RefreshAll 2000 [workerMemoryKey "sardeenz" "w1"] (Some [Some "report"])]) in
  lg_hold g "w1" 0 "inst-a" = Some 20%Z ∧ lg_hold g "w2" 1 "inst-c" = None.
Proof. split; vm_compute; reflexivity. Qed.

Lemma refreshAll_malformed_witness :
  hold (refreshAll example_parse "sardeenz" 2000 [workerMemoryKey "sardeenz" "w1"] (Some [Some "garbage"])
          (foldl (run_op example_parse "sardeenz") init_state example_ops)) "w1" 0 "inst-a" = None.
Proof.
  refine (proj1 (refreshAll_malformed_drops_holds example_parse "sardeenz" 2000 "w1" "garbage"
           (mkBudget "w1" [example_device 70] "1000" false None) _ 0 "inst-a" 20 _ _ _ _ _));
    [done| |vm_compute; reflexivity..].
  intros k Hk. vm_compute in Hk. exists "w1", 0%Z. split; [done|]. by apply list_elem_of_singleton in Hk.
Defined.
