(* ===== verification/WorkerPool.v ===== *)
(** * The worker registry (control-plane/src/services/worker-pool.ts)

    Workers announce themselves in Redis ([{prefix}:workers:{id}:info]) and keep a
    heartbeat beside it; [WorkerPoolService] holds the registry in memory.  Every
    method is a function of the registry, of the replies Redis gave and of the
    clock. *)
From stdpp Require Import base tactics list strings gmap sets.
From Stdlib Require Import ZArith Lia.
From S2P Require Import Prelude Js Types.

(** ** Data *)
Record WorkerCapability := mkCapability {
  runnerType : string;
  engineName : string;
  supportedModelTypes : list ModelType;
  supportedDeviceTypes : list DeviceType;
  supportedSleepLevels : list SleepLevel;
  engineVersion : option string;
  maxTensorParallelism : Z;
  kvCacheElasticSharing : bool;
  features : option (list (string * json));
}.

Record WorkerDevice := mkWorkerDevice {
  wdi_deviceIndex : Z;
  wdi_deviceType : DeviceType;
  wdi_memoryTotalBytes : Z;
}.

Record WorkerInfoPayload := mkInfo {
  wi_capabilities : list WorkerCapability;
  wi_devices : list WorkerDevice;
  wi_managementUrl : string;
}.

Record WorkerRecord := mkWorker {
  wr_workerId : string;
  status : WorkerStatus;
  capabilities : list WorkerCapability;
  devices : list WorkerDevice;
  lastHeartbeatAt : option string;
  joinedAt : string;
  managementUrl : string;
}.

(** The registry: the [workers] Map, by worker id in order of discovery. *)
Abbreviation WorkerPool := (list (string * WorkerRecord)).

(** ** Keys *)
Definition extractWorkerIdFromInfoKey (key : string) : option string :=
  let parts := split_on colon key in
  if decide (length parts < 4 ∨ last parts ≠ Some "info") then None
  else Some (js_join ":" (drop 2 (take (length parts - 1) parts))).

Definition infoKey (keyPrefix workerId : string) : string :=
  js_join ":" [keyPrefix; "workers"; workerId; "info"].
Definition heartbeatKey (keyPrefix workerId : string) : string :=
  js_join ":" [keyPrefix; "workers"; workerId; "heartbeat"].
Definition infoScanPattern (keyPrefix : string) : string :=
  js_join ":" [keyPrefix; "workers"; "*"; "info"].

(** ** Validation of announcements *)
Definition isNonNegativeInteger (v : option json) : option Z :=
  z ← is_integer v; guard (0 ≤ z)%Z;; Some z.

Definition isEnumArray {T} (str : T → string) (members : list T) (v : option json) : option (list T) :=
  match v with
  | Some (JArr (x :: xs)) => mapM (λ item, enum_value str members (Some item)) (x :: xs)
  | _ => None
  end.

(** A field that may be absent: [undefined] passes with [None], a present value
    must pass [check]. *)
Definition optional_field {T} (v : option json) (check : option json → option T) : option (option T) :=
  match v with None => Some None | Some _ => Some <$> check v end.

Definition validateCapability (raw : json) : option WorkerCapability :=
  match raw with
  | JObj c =>
      rt ← is_nonempty_string (obj_get c "runnerType");
      en ← is_string (obj_get c "engineName");
      mts ← isEnumArray model_type_str all_model_types (obj_get c "supportedModelTypes");
      dts ← isEnumArray device_str all_device_types (obj_get c "supportedDeviceTypes");
      sls ← isEnumArray sleep_level_str all_sleep_levels (obj_get c "supportedSleepLevels");
      ev ← optional_field (obj_get c "engineVersion") is_string;
      mtp ← optional_field (obj_get c "maxTensorParallelism")
              (λ v, z ← isNonNegativeInteger v; guard (1 ≤ z)%Z;; Some z);
      kv ← optional_field (obj_get c "kvCacheElasticSharing")
             (λ v, match v with Some (JBool b) => Some b | _ => None end);
      fs ← optional_field (obj_get c "features") (λ v, match v with Some (JObj o) => Some o | _ => None end);
      Some (mkCapability rt en mts dts sls ev (default 1%Z mtp) (default false kv) fs)
  | _ => None
  end.

Definition validateDevice (raw : json) : option WorkerDevice :=
  match raw with
  | JObj d =>
      index ← isNonNegativeInteger (obj_get d "deviceIndex");
      type ← enum_value device_str all_device_types (obj_get d "deviceType");
      total ← isNonNegativeInteger (obj_get d "memoryTotalBytes");
      Some (mkWorkerDevice index type total)
  | _ => None
  end.

Section service.
Context (JSON_parse : string → option json) `{!JsDate}.
Context (keyPrefix : string) (heartbeatTimeoutSecs : Z).

Definition parseWorkerInfo (raw : string) : option WorkerInfoPayload :=
  match JSON_parse raw with
  | Some (JObj parsed) =>
      url ← is_nonempty_string (obj_get parsed "managementUrl");
      match obj_get parsed "capabilities" with
      | Some (JArr (c :: cs)) =>
          caps ← mapM validateCapability (c :: cs);
          match obj_get parsed "devices" with
          | Some (JArr ds) => devs ← mapM validateDevice ds; Some (mkInfo caps devs url)
          | _ => None
          end
      | _ => None
      end
  | _ => None
  end.

(** [ageMs >= timeoutMs / 2] on doubles is [2 * ageMs >= timeoutMs]. *)
Definition resolveHeartbeatStatus (now : Z) (hb : option string) : WorkerStatus :=
  if truthy_str hb then
    match getTime (default "" hb) with
    | None => WorkerStatus.OFFLINE
    | Some at_ms =>
        let ageMs := (now - at_ms)%Z in
        let timeoutMs := (heartbeatTimeoutSecs * 1000)%Z in
        if Z.leb timeoutMs ageMs then WorkerStatus.OFFLINE
        else if Z.leb timeoutMs (2 * ageMs) then WorkerStatus.DEGRADED
        else WorkerStatus.ONLINE
    end
  else WorkerStatus.OFFLINE.

(** The two writes to a record on reading its heartbeat. *)
Definition set_heartbeat (now : Z) (hb : option string) (r : WorkerRecord) : WorkerRecord :=
  mkWorker (wr_workerId r) (resolveHeartbeatStatus now hb) (capabilities r) (devices r) hb
    (joinedAt r) (managementUrl r).

(** ** Discovery *)

(** One scanned info key with its reply ([None]: an error or not a string). *)
Definition discover_entry (now : Z) (acc : WorkerPool * list string) (kr : string * option string) :
    WorkerPool * list string :=
  let '(ws, discovered) := acc in
  match kr.2 with
  | None => acc
  | Some raw =>
      match extractWorkerIdFromInfoKey kr.1 with
      | None => acc
      | Some workerId =>
          if decide (workerId = "") then acc else
          match parseWorkerInfo raw with
          | None => acc
          | Some payload =>
              let existing := jm_get ws workerId in
              let record := mkWorker workerId
                (default WorkerStatus.OFFLINE (status <$> existing))
                (wi_capabilities payload) (wi_devices payload)
                (existing ≫= lastHeartbeatAt)
                (default (toISOString now) (joinedAt <$> existing))
                (wi_managementUrl payload) in
              (jm_set ws workerId record, discovered ++ [workerId])
          end
      end
  end.

(** The loop over the heartbeat replies, in discovery and in [checkHeartbeats]. *)
Definition heartbeat_entry (now : Z) (ws : WorkerPool) (wr : string * option string) : WorkerPool :=
  match jm_get ws wr.1 with
  | None => ws
  | Some record => jm_set ws wr.1 (set_heartbeat now wr.2 record)
  end.

(** [infoResults] is what [exec()] returned for the info keys ([None]: [null]), and
    [hbResults] the reply of the second pipeline to the heartbeat keys of a list
    of workers. *)
Definition discoverWorkers (now : Z) (infoKeys : list string)
    (infoResults : option (list (option string)))
    (hbResults : list string → option (list (option string))) (ws : WorkerPool) : WorkerPool :=
  match infoKeys with
  | [] => ws
  | _ =>
      match infoResults with
      | None => ws
      | Some raws =>
          let '(ws', discovered) := foldl (discover_entry now) (ws, []) (zip infoKeys raws) in
          match discovered with
          | [] => ws'
          | _ =>
              match hbResults discovered with
              | None => ws'
              | Some hbs => foldl (heartbeat_entry now) ws' (zip discovered hbs)
              end
          end
      end
  end.

(** Returns the registry and the detail snapshots written for the dashboard. *)
Definition checkHeartbeats (now : Z) (results : list string → option (list (option string)))
    (ws : WorkerPool) : WorkerPool * list (string * WorkerRecord) :=
  let workerIds := jm_keys ws in
  match workerIds with
  | [] => (ws, [])
  | _ =>
      match results workerIds with
      | None => (ws, [])
      | Some hbs =>
          let ws' := foldl (heartbeat_entry now) ws (zip workerIds hbs) in
          (ws', omap (λ w, r ← jm_get ws' w; Some (js_join ":" [keyPrefix; "worker"; w; "detail"], r)) workerIds)
      end
  end.
End service.

Definition getWorker (workerId : string) (ws : WorkerPool) : option WorkerRecord := jm_get ws workerId.
Definition getAllWorkers (ws : WorkerPool) : list WorkerRecord := jm_values ws.
Definition getDeadWorkers (ws : WorkerPool) : list WorkerRecord :=
  filter (λ w, status w = WorkerStatus.OFFLINE) (jm_values ws).
Definition removeWorker (workerId : string) (ws : WorkerPool) : WorkerPool := jm_delete ws workerId.

(** ** Lemmas *)
Lemma js_join_cons2 sep x y xs : js_join sep (x :: y :: xs) = x +:+ sep +:+ js_join sep (y :: xs).
Proof. done. Qed.

Lemma split_info_key keyPrefix w :
  split_on colon (infoKey keyPrefix w) = split_on colon keyPrefix ++ ["workers"] ++ split_on colon w ++ ["info"].
Proof.
  unfold infoKey. cbn [js_join].
  change (keyPrefix +:+ ":" +:+ "workers" +:+ ":" +:+ w +:+ ":" +:+ "info")
    with (keyPrefix +:+ String colon ("workers" +:+ String colon (w +:+ String colon "info"))).
  by rewrite !split_on_app.
Qed.

(** The key of a worker reads back as everything after the first two segments. *)
Lemma extract_info_key keyPrefix p ps w :
  split_on colon keyPrefix = p :: ps →
  extractWorkerIdFromInfoKey (infoKey keyPrefix w) =
  Some (js_join ":" (drop 1 (ps ++ ["workers"]) ++ split_on colon w)).
Proof.
  intros Hp. unfold extractWorkerIdFromInfoKey. rewrite split_info_key, Hp.
  rewrite (app_assoc ["workers"]), (app_assoc (p :: ps)).
  rewrite decide_False.
  - rewrite length_app, Nat.add_sub, take_app_length. f_equal. f_equal.
    rewrite app_assoc. simpl. by destruct ps.
  - rewrite last_snoc. pose proof (split_on_not_nil colon w).
    rewrite !length_app. simpl. destruct (split_on colon w); [done|]. simpl. intros [?|?]; [lia|done].
Qed.

Definition severity (s : WorkerStatus) : nat :=
  match s with WorkerStatus.ONLINE => 0 | WorkerStatus.DEGRADED => 1 | WorkerStatus.OFFLINE => 2 end.

Section heartbeats.
Context `{!JsDate} (timeoutSecs : Z).

Lemma heartbeat_entry_get now ws w hb w' :
  jm_get (heartbeat_entry timeoutSecs now ws (w, hb)) w' =
  if decide (w' = w) then set_heartbeat timeoutSecs now hb <$> jm_get ws w' else jm_get ws w'.
Proof.
  unfold heartbeat_entry. simpl. destruct (jm_get ws w) as [r|] eqn:Hr; case_decide as Hw; subst.
  - by rewrite jm_get_set_eq, Hr.
  - by rewrite jm_get_set_ne.
  - by rewrite Hr.
  - done.
Qed.

Lemma heartbeat_entries_get now ws ids (hb : string → option string) w :
  NoDup ids →
  jm_get (foldl (heartbeat_entry timeoutSecs now) ws (zip ids (hb <$> ids))) w =
  if decide (w ∈ ids) then set_heartbeat timeoutSecs now (hb w) <$> jm_get ws w else jm_get ws w.
Proof.
  intros Hnd. revert ws. induction Hnd as [|x ids Hx Hnd IH]; intros ws; [by rewrite decide_False by set_solver|].
  csimpl. rewrite IH, heartbeat_entry_get. repeat case_decide; set_solver.
Qed.

End heartbeats.

Section lemmas.
Context (JSON_parse : string → option json) `{!JsDate} (keyPrefix : string).

(** The record a discovery writes for a worker, before its heartbeat is read. *)
Definition discovered_record (now : Z) (ws : WorkerPool) (info : WorkerInfoPayload) (w : string) : WorkerRecord :=
  mkWorker w (default WorkerStatus.OFFLINE (status <$> jm_get ws w)) (wi_capabilities info) (wi_devices info)
    (jm_get ws w ≫= lastHeartbeatAt) (default (toISOString now) (joinedAt <$> jm_get ws w)) (wi_managementUrl info).

Lemma discover_entries_get now ids (raw : string → string) (info : string → WorkerInfoPayload) :
  has_char colon keyPrefix = false → NoDup ids → "" ∉ ids →
  (∀ w, w ∈ ids → parseWorkerInfo JSON_parse (raw w) = Some (info w)) →
  ∀ ws found,
  let '(ws', found') :=
    foldl (discover_entry JSON_parse now) (ws, found)
      (zip (infoKey keyPrefix <$> ids) ((λ w, Some (raw w)) <$> ids)) in
  found' = found ++ ids ∧
  ∀ w, jm_get ws' w = if decide (w ∈ ids) then Some (discovered_record now ws (info w) w) else jm_get ws w.
Proof.
  intros Hp Hnd. induction Hnd as [|x ids Hx Hnd IH]; intros He Hraw ws found.
  { simpl. by rewrite app_nil_r. }
  csimpl. rewrite (extract_info_key keyPrefix keyPrefix []) by (by apply split_on_no_char). csimpl.
  rewrite join_split, decide_False, Hraw by set_solver.
  specialize (IH ltac:(set_solver) ltac:(set_solver) (jm_set ws x (discovered_record now ws (info x) x)) (found ++ [x])).
  fold (discovered_record now ws (info x) x). destruct (foldl _ _ _) as [ws' found'].
  destruct IH as [-> IH]. split; [by rewrite <- app_assoc|]. intros w. rewrite IH.
  unfold discovered_record. destruct (decide (w = x)) as [->|Hne].
  - rewrite decide_False by done. rewrite decide_True by set_solver. by rewrite jm_get_set_eq.
  - rewrite jm_get_set_ne by done. repeat case_decide; set_solver.
Qed.
End lemmas.

Lemma isEnumArray_Some {T} (str : T → string) members v xs :
  isEnumArray str members v = Some xs → xs ≠ [].
Proof.
  unfold isEnumArray. intros Hv. repeat case_match; try done.
  apply mapM_Some in Hv. by inversion Hv.
Qed.

Lemma validateCapability_Some raw c :
  validateCapability raw = Some c →
  runnerType c ≠ "" ∧ supportedModelTypes c ≠ [] ∧ supportedDeviceTypes c ≠ [] ∧
  supportedSleepLevels c ≠ [] ∧ (1 ≤ maxTensorParallelism c)%Z.
Proof.
  unfold validateCapability. intros Hv. case_match; try done.
  apply bind_Some in Hv as (rt & Hrt & Hv). apply bind_Some in Hv as (en & _ & Hv).
  apply bind_Some in Hv as (mts & Hmts%isEnumArray_Some & Hv).
  apply bind_Some in Hv as (dts & Hdts%isEnumArray_Some & Hv).
  apply bind_Some in Hv as (sls & Hsls%isEnumArray_Some & Hv).
  apply bind_Some in Hv as (ev & _ & Hv). apply bind_Some in Hv as (mtp & Hmtp & Hv).
  apply bind_Some in Hv as (kv & _ & Hv). apply bind_Some in Hv as (fs & _ & Hv).
  simplify_eq/=. repeat split; try done.
  - unfold is_nonempty_string in Hrt. by repeat case_match; simplify_option_eq.
  - unfold optional_field in Hmtp. case_match; simplify_option_eq; lia.
Qed.

(** ** Properties *)

(** A heartbeat the worker wrote at time [t] makes it ONLINE while its age is
    below half the timeout, DEGRADED from half the timeout on, and OFFLINE from the
    timeout on; and without a new heartbeat the status only ever worsens as the
    clock advances, whatever text the heartbeat holds. *)
Theorem heartbeat_status_spec `{!JsDate} timeoutSecs t now :
  toISOString t ≠ "" → (0 < timeoutSecs)%Z →
  let s := resolveHeartbeatStatus timeoutSecs now (Some (toISOString t)) in
  (s = WorkerStatus.ONLINE ↔ (2 * (now - t) < timeoutSecs * 1000)%Z) ∧
  (s = WorkerStatus.OFFLINE ↔ (timeoutSecs * 1000 ≤ now - t)%Z) ∧
  (∀ hb now', (now ≤ now')%Z →
     severity (resolveHeartbeatStatus timeoutSecs now hb) ≤ severity (resolveHeartbeatStatus timeoutSecs now' hb)).
Proof.
  intros Hne Ht. simpl.
  assert (∀ now' hb, resolveHeartbeatStatus timeoutSecs now' hb =
    match (if truthy_str hb then getTime (default "" hb) else None) with
    | None => WorkerStatus.OFFLINE
    | Some at_ms =>
        if Z.leb (timeoutSecs * 1000) (now' - at_ms) then WorkerStatus.OFFLINE
        else if Z.leb (timeoutSecs * 1000) (2 * (now' - at_ms)) then WorkerStatus.DEGRADED
        else WorkerStatus.ONLINE
    end) as Hr.
  { intros now' hb. unfold resolveHeartbeatStatus. by destruct (truthy_str hb). }
  rewrite Hr. unfold truthy_str. rewrite bool_decide_eq_false_2 by done. simpl.
  rewrite getTime_toISOString. repeat split.
  1-4: repeat case_match; try done; rewrite ?Z.leb_le, ?Z.leb_gt in *; intros; lia || done.
  intros hb now' Hnow. rewrite !Hr. repeat case_match; simpl; try lia; rewrite ?Z.leb_le, ?Z.leb_gt in *; lia.
Qed.

(** Discovery registers every worker whose announcement validates, under the id
    in its key, with the announced capabilities, devices and URL, the status its own
    heartbeat key gives, and the join time it had if it was already known; it leaves
    every other worker untouched. *)
Theorem discoverWorkers_registers (JSON_parse : string → option json) `{!JsDate} keyPrefix timeoutSecs now
    ids (raw : string → string) (info : string → WorkerInfoPayload) (hb : string → option string) ws w :
  has_char colon keyPrefix = false → NoDup ids → "" ∉ ids →
  (∀ w, w ∈ ids → parseWorkerInfo JSON_parse (raw w) = Some (info w)) →
  getWorker w (discoverWorkers JSON_parse timeoutSecs now (infoKey keyPrefix <$> ids)
                 (Some ((λ w, Some (raw w)) <$> ids)) (λ ws, Some (hb <$> ws)) ws) =
  if decide (w ∈ ids) then
    Some (mkWorker w (resolveHeartbeatStatus timeoutSecs now (hb w))
            (wi_capabilities (info w)) (wi_devices (info w)) (hb w)
            (default (toISOString now) (joinedAt <$> getWorker w ws)) (wi_managementUrl (info w)))
  else getWorker w ws.
Proof.
  intros Hp Hnd He Hraw. unfold getWorker, discoverWorkers.
  pose proof (discover_entries_get JSON_parse keyPrefix now ids raw info Hp Hnd He Hraw ws []) as Hd.
  destruct ids as [|x ids]; [done|]. cbn [fmap list_fmap] in Hd |- *.
  destruct (foldl _ _ _) as [ws' found]. destruct Hd as [-> Hget]. simpl app.
  etransitivity; [exact (heartbeat_entries_get timeoutSecs now ws' (x :: ids) hb w Hnd)|].
  rewrite Hget. by case_decide.
Qed.

(** A worker id, colons included, reads back from its info key under any prefix
    without a colon. *)
Theorem extract_roundtrip keyPrefix w :
  has_char colon keyPrefix = false → extractWorkerIdFromInfoKey (infoKey keyPrefix w) = Some w.
Proof.
  intros Hp. rewrite (extract_info_key keyPrefix keyPrefix []) by (by apply split_on_no_char).
  simpl. by rewrite join_split.
Qed.

(** Under a prefix that itself contains a colon the id read back is not the
    worker's: it starts with the rest of the prefix's segments and the word
    [workers], so the heartbeat of a worker registered under it is looked up at a
    key nobody writes. *)
Theorem extract_colon_prefix p q w :
  has_char colon p = false → has_char colon q = false →
  extractWorkerIdFromInfoKey (infoKey (p +:+ ":" +:+ q) w) = Some ("workers:" +:+ w).
Proof.
  intros Hp Hq. rewrite (extract_info_key _ p [q]).
  - simpl. f_equal. rewrite <- (join_split colon w) at 2. pose proof (split_on_not_nil colon w).
    by destruct (split_on colon w).
  - change (p +:+ ":" +:+ q) with (p +:+ String colon q).
    rewrite split_on_app, !split_on_no_char by done. done.
Qed.

(** An announcement that is accepted names at least one capability, every
    capability has a runner type, at least one model type, device type and sleep
    level, and a tensor-parallel limit of at least one; placement relies on that. *)
Theorem parseWorkerInfo_sound (JSON_parse : string → option json) raw info c :
  parseWorkerInfo JSON_parse raw = Some info →
  wi_managementUrl info ≠ "" ∧ wi_capabilities info ≠ [] ∧
  (c ∈ wi_capabilities info →
   runnerType c ≠ "" ∧ supportedModelTypes c ≠ [] ∧ supportedDeviceTypes c ≠ [] ∧
   supportedSleepLevels c ≠ [] ∧ (1 ≤ maxTensorParallelism c)%Z).
Proof.
  unfold parseWorkerInfo. intros Hv. destruct (JSON_parse raw) as [[| | | | |parsed]|]; try done.
  apply bind_Some in Hv as (url & Hurl & Hv).
  destruct (obj_get parsed "capabilities") as [[| | | |[|x xs]|]|]; try done.
  apply bind_Some in Hv as (caps & Hcaps & Hv). apply mapM_Some in Hcaps as Hc.
  destruct (obj_get parsed "devices") as [[| | | |ds|]|]; try done.
  apply bind_Some in Hv as (devs & _ & Hv). simplify_eq/=. split; [|split].
  - unfold is_nonempty_string in Hurl. by repeat case_match; simplify_option_eq.
  - by inversion Hc.
  - assert (Forall (λ c, runnerType c ≠ "" ∧ supportedModelTypes c ≠ [] ∧ supportedDeviceTypes c ≠ [] ∧
      supportedSleepLevels c ≠ [] ∧ (1 ≤ maxTensorParallelism c)%Z) caps) as Hall.
    { eapply Forall2_Forall_r; [exact Hc|]. apply Forall_true. intros r y. apply validateCapability_Some. }
    intros Hin. by eapply Forall_forall in Hall.
Qed.

(** ** Examples *)
Definition example_capability : json :=
  JObj [("runnerType", JStr "vllm"); ("engineName", JStr "vLLM"); ("supportedModelTypes", JArr [JStr "LLM"]);
        ("supportedDeviceTypes", JArr [JStr "CUDA"]); ("supportedSleepLevels", JArr [JStr "L1_HOST_RAM"]);
        ("maxTensorParallelism", JNum (NumInt 2))].
Definition example_info : json :=
  JObj [("managementUrl", JStr "http://w:8090"); ("capabilities", JArr [example_capability]); ("devices", JArr [])].
Definition example_parse (text : string) : option json :=
  if decide (text = "info") then Some example_info else None.
Definition example_payload : WorkerInfoPayload :=
  mkInfo [mkCapability "vllm" "vLLM" [ModelType.LLM] [DeviceType.CUDA] [SleepLevel.L1_HOST_RAM] None 2 false None]
    [] "http://w:8090".

Lemma heartbeat_status_witness :
  resolveHeartbeatStatus 30 24999 (Some (toISOString 10000)) = WorkerStatus.ONLINE ↔ (2 * (24999 - 10000) < 30 * 1000)%Z.
Proof. apply (heartbeat_status_spec 30 10000 24999); [done|lia]. Defined.

Lemma discoverWorkers_witness :
  status <$> getWorker "w1" (discoverWorkers example_parse 30 50000 (infoKey "sardeenz" <$> ["w1"])
    (Some [Some "info"]) (λ ws, Some ((λ _, Some "45000") <$> ws)) []) = Some WorkerStatus.ONLINE.
Proof.
  rewrite (discoverWorkers_registers example_parse "sardeenz" 30 50000 ["w1"] (λ _, "info") (λ _, example_payload)
             (λ _, Some "45000") [] "w1");
    [reflexivity|reflexivity|apply NoDup_singleton|set_solver|intros w Hw; reflexivity].
Defined.

Lemma extract_roundtrip_witness : extractWorkerIdFromInfoKey (infoKey "sardeenz" "10.0.0.7:8090") = Some "10.0.0.7:8090".
Proof. apply (extract_roundtrip "sardeenz" "10.0.0.7:8090"). reflexivity. Defined.

Lemma extract_colon_prefix_witness : extractWorkerIdFromInfoKey (infoKey "team:sardeenz" "w1") = Some "workers:w1".
Proof. apply (extract_colon_prefix "team" "sardeenz" "w1"); reflexivity. Defined.

Lemma parseWorkerInfo_sound_witness : wi_capabilities example_payload ≠ [].
Proof.
  apply (parseWorkerInfo_sound example_parse "info" example_payload
           (mkCapability "" "" [] [] [] None 1 false None)). reflexivity.
Defined.
