(* ===== verification/Placement.v ===== *)
(** * Placement (control-plane/src/services/placement.ts)

    The pipeline narrows the registered workers by health, runner type and
    hardware, then by the free memory of each worker's devices, and lets a
    strategy choose among the candidates left.  The strategy is an interface in
    the source; it is the class [PlacementStrategy] here, and the pipeline's
    theorems are proved for every strategy. *)
From stdpp Require Import base tactics list strings gmap sets.
From Stdlib Require Import ZArith Lia.
From S2P Require Import Prelude Js Types MemoryBudget WorkerPool.

(** ** Data *)
Record PlacementRequest := mkRequest {
  req_modelName : string;
  req_runnerType : string;
  requiredMemory : Z;
  req_deviceType : option string;
  tensorParallel : Z;
}.

Record PlacementCandidate := mkCandidate {
  pc_workerId : string;
  pc_capability : WorkerCapability;
  pc_devices : list DeviceBudget;
  availableMemory : Z;
}.

Record PlacementResult := mkResult {
  pr_workerId : string;
  pr_runnerType : string;
  pr_devices : list (Z * string);
}.

(** [select] is only called on a non-empty list, given as its head and tail; a
    strategy chooses one of the candidates it is given. *)
Class PlacementStrategy := {
  select : PlacementCandidate → list PlacementCandidate → PlacementCandidate;
  select_candidate c cs : select c cs ∈ c :: cs;
}.

Fixpoint most_available (best : PlacementCandidate) (cs : list PlacementCandidate) : PlacementCandidate :=
  match cs with
  | [] => best
  | c :: cs' => most_available (if Z.ltb (availableMemory best) (availableMemory c) then c else best) cs'
  end.

Lemma most_available_elem best cs : most_available best cs ∈ best :: cs.
Proof.
  revert best. induction cs as [|c cs IH]; intros best; simpl; [set_solver|].
  specialize (IH (if Z.ltb (availableMemory best) (availableMemory c) then c else best)). case_match; set_solver.
Qed.

#[export] Instance MostAvailableCapacityStrategy : PlacementStrategy := {|
  select := most_available;
  select_candidate := most_available_elem;
|}.

(** ** The filters *)

(** [capability.supportedDeviceTypes.includes(t)] for the text of a device type. *)
Definition supports_device (c : WorkerCapability) (t : string) : bool :=
  bool_decide (t ∈ device_str <$> supportedDeviceTypes c).

(** [!request.deviceType || t === request.deviceType]. *)
Definition device_type_allowed (r : PlacementRequest) (t : string) : bool :=
  negb (truthy_str (req_deviceType r)) || bool_decide (req_deviceType r = Some t).

Definition filterByHealth (workers : list WorkerRecord) : list WorkerRecord :=
  filter (λ w, status w = WorkerStatus.ONLINE) workers.

Definition find_capability (r : PlacementRequest) (w : WorkerRecord) : option WorkerCapability :=
  List.find (λ c, bool_decide (runnerType c = req_runnerType r)) (capabilities w).

Definition filterByRunnerType (r : PlacementRequest) (workers : list WorkerRecord) :
    list (WorkerRecord * WorkerCapability) :=
  omap (λ w, c ← find_capability r w; Some (w, c)) workers.

Definition hardware_ok (r : PlacementRequest) (wc : WorkerRecord * WorkerCapability) : bool :=
  let '(w, c) := wc in
  if Z.ltb (maxTensorParallelism c) (tensorParallel r) then false
  else existsb (λ d, device_type_allowed r (device_str (wdi_deviceType d)) &&
                     supports_device c (device_str (wdi_deviceType d))) (devices w).

Arguments hardware_ok : simpl never.

Definition filterByHardware (r : PlacementRequest) (cs : list (WorkerRecord * WorkerCapability)) :
    list (WorkerRecord * WorkerCapability) :=
  List.filter (hardware_ok r) cs.

(** [d.availableBytes >= request.requiredMemory / request.tensorParallel]. *)
Definition has_room (r : PlacementRequest) (d : DeviceBudget) : bool :=
  ge_quot (availableBytes d) (requiredMemory r) (tensorParallel r).

Definition eligible_devices (r : PlacementRequest) (c : WorkerCapability) (b : WorkerBudget) : list DeviceBudget :=
  let ds := List.filter (λ d, has_room r d && supports_device c (deviceType d)) (wb_devices b) in
  if truthy_str (req_deviceType r) then
    List.filter (λ d, bool_decide (req_deviceType r = Some (deviceType d))) ds
  else ds.

Definition capacity_candidate (r : PlacementRequest) (budgets : list (string * WorkerBudget))
    (wc : WorkerRecord * WorkerCapability) : option PlacementCandidate :=
  let '(w, c) := wc in
  match jm_get budgets (wr_workerId w) with
  | None => None
  | Some b =>
      if stale b then None else
      let ds := eligible_devices r c b in
      if Z.leb (tensorParallel r) (Z.of_nat (length ds)) then
        Some (mkCandidate (wr_workerId w) c ds (foldl (λ sum d, sum + availableBytes d)%Z 0%Z ds))
      else None
  end.

Definition filterByCapacity (r : PlacementRequest) (cs : list (WorkerRecord * WorkerCapability))
    (budgets : list (string * WorkerBudget)) : list PlacementCandidate :=
  omap (capacity_candidate r budgets) cs.

(** [xs.slice(0, n)]. *)
Definition slice_to {A} (n : Z) (xs : list A) : list A :=
  if Z.ltb n 0 then take (Z.to_nat (Z.of_nat (length xs) + n)) xs else take (Z.to_nat n) xs.

Definition device_ref (d : DeviceBudget) : Z * string := (deviceIndex d, deviceType d).

(** ** The pipeline *)
Definition place `{!PlacementStrategy} (r : PlacementRequest) (workers : list WorkerRecord)
    (budgets : list (string * WorkerBudget)) : option PlacementResult :=
  match filterByHealth workers with
  | [] => None
  | healthyWorkers =>
      match filterByRunnerType r healthyWorkers with
      | [] => None
      | afterRunnerType =>
          match filterByHardware r afterRunnerType with
          | [] => None
          | afterHardware =>
              match filterByCapacity r afterHardware budgets with
              | [] => None
              | c :: cs =>
                  let selected := select c cs in
                  Some (mkResult (pc_workerId selected) (req_runnerType r)
                          (device_ref <$> slice_to (tensorParallel r) (List.filter (has_room r) (pc_devices selected))))
              end
          end
      end
  end.

(** The per-device refusals of [placeFixed]; unlike the filters it compares the
    requested device type whenever it is not [undefined]. *)
Definition fixed_device_ok (r : PlacementRequest) (c : WorkerCapability) (d : option DeviceBudget) : bool :=
  match d with
  | None => false
  | Some d =>
      has_room r d &&
      (bool_decide (req_deviceType r = None) || bool_decide (req_deviceType r = Some (deviceType d))) &&
      supports_device c (deviceType d)
  end.

Definition placeFixed (r : PlacementRequest) (workerId : string) (deviceIndices : list Z)
    (workers : list WorkerRecord) (budgets : list (string * WorkerBudget)) : option PlacementResult :=
  if decide (Z.of_nat (length deviceIndices) ≠ tensorParallel r) then None else
  match List.find (λ w, bool_decide (wr_workerId w = workerId)) workers with
  | None => None
  | Some worker =>
      match filterByHealth [worker] with
      | [] => None
      | _ =>
          match filterByRunnerType r [worker] with
          | [] => None
          | (w, capability) :: rest =>
              if Z.ltb (maxTensorParallelism capability) (tensorParallel r) then None else
              match filterByHardware r ((w, capability) :: rest) with
              | [] => None
              | _ =>
                  match jm_get budgets workerId with
                  | None => None
                  | Some b =>
                      if stale b then None else
                      let ds := (λ i, find_device i (wb_devices b)) <$> deviceIndices in
                      if forallb (fixed_device_ok r capability) ds then
                        Some (mkResult workerId (req_runnerType r) (device_ref <$> omap id ds))
                      else None
                  end
              end
          end
      end
  end.

Definition eligibleWorkerIds (r : PlacementRequest) (workers : list WorkerRecord) : gset string :=
  match filterByHealth workers with
  | [] => ∅
  | healthyWorkers =>
      match filterByRunnerType r healthyWorkers with
      | [] => ∅
      | afterRunnerType => list_to_set ((λ wc, wr_workerId wc.1) <$> filterByHardware r afterRunnerType)
      end
  end.

(** The loop of [deployFromRecord] (routes/models.ts) that holds a placement's
    share on each of its devices; the share is a whole number of bytes here. *)
Definition reserve_placement (res : PlacementResult) (instanceId : string) (share : Z) (st : BudgetState) : BudgetState :=
  foldl (λ st d, reserveCapacity (pr_workerId res) d.1 instanceId share st) st (pr_devices res).

(** ** Lemmas *)

(** All candidates the filters leave, in the workers' order. *)
Definition candidates (r : PlacementRequest) (workers : list WorkerRecord) (budgets : list (string * WorkerBudget)) :
    list PlacementCandidate :=
  filterByCapacity r (filterByHardware r (filterByRunnerType r (filterByHealth workers))) budgets.

Definition result_of (r : PlacementRequest) (sel : PlacementCandidate) : PlacementResult :=
  mkResult (pc_workerId sel) (req_runnerType r)
    (device_ref <$> slice_to (tensorParallel r) (List.filter (has_room r) (pc_devices sel))).

Lemma place_eq `{!PlacementStrategy} r workers budgets :
  place r workers budgets =
  match candidates r workers budgets with [] => None | c :: cs => Some (result_of r (select c cs)) end.
Proof.
  unfold place, candidates. destruct (filterByHealth workers) as [|w ws]; [done|].
  destruct (filterByRunnerType r (w :: ws)) as [|wc wcs]; [done|].
  by destruct (filterByHardware r (wc :: wcs)).
Qed.

(** A worker that can host the request with capability [c] on budget [b]. *)
Definition can_host (r : PlacementRequest) (budgets : list (string * WorkerBudget))
    (w : WorkerRecord) (c : WorkerCapability) (b : WorkerBudget) : Prop :=
  status w = WorkerStatus.ONLINE ∧ find_capability r w = Some c ∧ hardware_ok r (w, c) = true ∧
  jm_get budgets (wr_workerId w) = Some b ∧ stale b = false ∧
  (tensorParallel r ≤ Z.of_nat (length (eligible_devices r c b)))%Z.

Definition candidate_of (r : PlacementRequest) (w : WorkerRecord) (c : WorkerCapability) (b : WorkerBudget) :
    PlacementCandidate :=
  mkCandidate (wr_workerId w) c (eligible_devices r c b)
    (foldl (λ sum d, sum + availableBytes d)%Z 0%Z (eligible_devices r c b)).

Lemma elem_of_candidates r workers budgets cand :
  cand ∈ candidates r workers budgets ↔
  ∃ w c b, w ∈ workers ∧ can_host r budgets w c b ∧ cand = candidate_of r w c b.
Proof.
  unfold candidates, filterByCapacity, can_host. rewrite list_elem_of_omap. split.
  - intros ([w c] & Hin & Hcap). apply list_elem_of_In, filter_In in Hin as [Hin Hhw].
    apply list_elem_of_In, list_elem_of_omap in Hin as (w' & Hw' & Hfind).
    apply list_elem_of_filter in Hw' as [Hon Hw'].
    destruct (find_capability r w') as [c'|] eqn:Hf; [|done]. injection Hfind as -> ->.
    simpl in Hcap. destruct (jm_get budgets (wr_workerId w)) as [b|] eqn:Hb; [|done].
    destruct (stale b) eqn:Hs; [done|]. destruct (Z.leb_spec (tensorParallel r) (Z.of_nat (length (eligible_devices r c b)))); [|done].
    injection Hcap as <-. exists w, c, b. repeat split; done.
  - intros (w & c & b & Hin & (Hon & Hf & Hhw & Hb & Hs & Hlen) & ->). exists (w, c). split.
    + apply list_elem_of_In, filter_In. split; [|done]. apply list_elem_of_In, list_elem_of_omap. exists w.
      split; [by apply list_elem_of_filter|]. by rewrite Hf.
    + simpl. rewrite Hb, Hs. by apply Z.leb_le in Hlen as ->.
Qed.

Lemma find_capability_Some r w c :
  find_capability r w = Some c → c ∈ capabilities w ∧ runnerType c = req_runnerType r.
Proof. intros [Hin Hc]%find_some. apply bool_decide_eq_true in Hc. by apply list_elem_of_In in Hin. Qed.

(** What makes a device of a budget usable for a request. *)
Definition device_usable (r : PlacementRequest) (c : WorkerCapability) (d : DeviceBudget) : Prop :=
  has_room r d = true ∧ supports_device c (deviceType d) = true ∧ device_type_allowed r (deviceType d) = true.

Lemma elem_of_eligible r c b d : d ∈ eligible_devices r c b ↔ d ∈ wb_devices b ∧ device_usable r c d.
Proof.
  unfold eligible_devices, device_usable, device_type_allowed.
  destruct (truthy_str (req_deviceType r)) eqn:Ht; simpl;
    rewrite list_elem_of_In, ?filter_In, ?andb_true_iff, <- list_elem_of_In; naive_solver.
Qed.

Lemma eligible_sublist r c b : eligible_devices r c b `sublist_of` wb_devices b.
Proof.
  assert (∀ (f : DeviceBudget → bool) ds, List.filter f ds `sublist_of` ds) as Hf.
  { intros f ds. induction ds as [|d ds IH]; simpl; [done|]. case_match; by constructor. }
  unfold eligible_devices. case_match; [etrans; apply Hf|apply Hf].
Qed.

(** Every candidate's devices already have room, so [place] takes its first
    [tensorParallel] devices. *)
Lemma result_of_candidate r w c b :
  (0 ≤ tensorParallel r)%Z →
  result_of r (candidate_of r w c b) =
  mkResult (wr_workerId w) (req_runnerType r)
    (device_ref <$> take (Z.to_nat (tensorParallel r)) (eligible_devices r c b)).
Proof.
  intros Htp. unfold result_of, candidate_of. simpl. rewrite filter_all.
  - unfold slice_to. destruct (Z.ltb_spec (tensorParallel r) 0); [lia|done].
  - apply Forall_forall. intros d [_ [Hr _]]%elem_of_eligible. done.
Qed.

Lemma place_Some `{!PlacementStrategy} r workers budgets res :
  (0 ≤ tensorParallel r)%Z → place r workers budgets = Some res →
  ∃ w c b, w ∈ workers ∧ can_host r budgets w c b ∧
    res = mkResult (wr_workerId w) (req_runnerType r)
            (device_ref <$> take (Z.to_nat (tensorParallel r)) (eligible_devices r c b)).
Proof.
  intros Htp. rewrite place_eq. destruct (candidates r workers budgets) as [|x xs] eqn:Hc; [done|].
  intros [= <-]. assert (select x xs ∈ candidates r workers budgets) as Hin by (rewrite Hc; apply select_candidate).
  apply elem_of_candidates in Hin as (w & c & b & Hw & Hh & Heq). exists w, c, b. split; [done|]. split; [done|].
  rewrite Heq. by apply result_of_candidate.
Qed.

Lemma most_available_first best cs :
  ∃ pre post, best :: cs = pre ++ most_available best cs :: post ∧
    Forall (λ c, availableMemory c < availableMemory (most_available best cs))%Z pre ∧
    Forall (λ c, availableMemory c ≤ availableMemory (most_available best cs))%Z post.
Proof.
  revert best. induction cs as [|c cs IH]; intros best; [by exists [], []|].
  cbn [most_available]. destruct (Z.ltb_spec (availableMemory best) (availableMemory c)) as [Hlt|Hge].
  - destruct (IH c) as (pre & post & Heq & Hpre & Hpost). exists (best :: pre), post.
    split; [by rewrite Heq|]. split; [|done]. constructor; [|done].
    destruct pre as [|p pre]; simpl in Heq; [injection Heq as <- _; lia|].
    injection Heq as -> _. inversion_clear Hpre. lia.
  - destruct (IH best) as (pre & post & Heq & Hpre & Hpost).
    destruct pre as [|p pre]; simpl in Heq.
    + injection Heq as Heq1 Heq2. exists [], (c :: post). rewrite <- Heq1 in *. split; [by rewrite <- Heq2|].
      split; [done|]. constructor; [lia|done].
    + injection Heq as <- Hcs. exists (best :: c :: pre), post. split; [simpl; by rewrite <- Hcs|]. split; [|done].
      inversion_clear Hpre as [|? ? Hp Hpre']. constructor; [done|]. constructor; [lia|done].
Qed.

Lemma find_device_NoDup d ds :
  NoDup (deviceIndex <$> ds) → d ∈ ds → find_device (deviceIndex d) ds = Some d.
Proof.
  unfold find_device. induction ds as [|x ds IH]; csimpl; [set_solver|].
  intros [Hx Hnd]%NoDup_cons [->|Hin]%elem_of_cons; [by rewrite bool_decide_eq_true_2|].
  rewrite bool_decide_eq_false_2; [by apply IH|]. intros Heq. apply Hx. rewrite Heq.
  by apply list_elem_of_fmap_2.
Qed.

Lemma find_worker_NoDup (w : WorkerRecord) ws :
  NoDup (wr_workerId <$> ws) → w ∈ ws →
  List.find (λ w', bool_decide (wr_workerId w' = wr_workerId w)) ws = Some w.
Proof.
  induction ws as [|x ws IH]; csimpl; [set_solver|].
  intros [Hx Hnd]%NoDup_cons [->|Hin]%elem_of_cons; [by rewrite bool_decide_eq_true_2|].
  rewrite bool_decide_eq_false_2; [by apply IH|]. intros Heq. apply Hx. rewrite Heq.
  by apply list_elem_of_fmap_2.
Qed.

Lemma hardware_ok_tp r w c : hardware_ok r (w, c) = true → (tensorParallel r ≤ maxTensorParallelism c)%Z.
Proof. unfold hardware_ok. destruct (Z.ltb_spec (maxTensorParallelism c) (tensorParallel r)); [done|lia]. Qed.

Lemma usable_fixed_ok r c d :
  req_deviceType r ≠ Some "" → device_usable r c d → fixed_device_ok r c (Some d) = true.
Proof.
  intros Hne (Hr & Hs & Ha). simpl. rewrite Hr, Hs. simpl. rewrite andb_true_r.
  unfold device_type_allowed, truthy_str in Ha. destruct (req_deviceType r) as [t|]; [|done].
  rewrite bool_decide_eq_false_2 in Ha by congruence. simpl in Ha. by rewrite Ha, orb_true_r.
Qed.

(** Looking up the indices of devices of a budget finds those devices. *)
Lemma lookup_chosen b ds :
  NoDup (deviceIndex <$> wb_devices b) → (∀ d, d ∈ ds → d ∈ wb_devices b) →
  (λ i, find_device i (wb_devices b)) <$> (device_ref <$> ds).*1 = Some <$> ds.
Proof.
  intros Hnd. induction ds as [|d ds IH]; intros Hds; csimpl; [done|].
  rewrite find_device_NoDup by set_solver. f_equal. apply IH. set_solver.
Qed.

Lemma omap_id_Some {A} (xs : list A) : omap id (Some <$> xs) = xs.
Proof. induction xs as [|x xs IH]; [done|]. csimpl. by rewrite IH. Qed.

Lemma reserve_devices_other w i inst share st ds :
  i ∉ ds.*1 →
  getReservation (foldl (λ st (d : Z * string), reserveCapacity w d.1 inst share st) st ds) w i = getReservation st w i.
Proof.
  revert st. induction ds as [|d ds IH]; intros st Hi; [done|]. cbn [foldl]. rewrite IH by set_solver.
  apply getReservation_ext. rewrite reserveCapacity_reservations, jm_get_set_ne; [done|].
  intros [_ <-]%reservationKey_inj. set_solver.
Qed.

Lemma sum_bytes_set_new per inst v : jm_get per inst = None → sum_bytes (jm_set per inst v) = (sum_bytes per + v)%Z.
Proof.
  unfold sum_bytes, jm_values. induction per as [|[k b] per IH]; unfold jm_get, jm_set;
    fold (@jm_get string Z _) (@jm_set string Z _); csimpl; [lia|].
  case_decide; [done|]. csimpl. intros Hn. rewrite IH by done. lia.
Qed.

Lemma reserve_getReservation w i inst share st :
  hold st w i inst = None → getReservation (reserveCapacity w i inst share st) w i = (getReservation st w i + share)%Z.
Proof.
  unfold hold, getReservation. rewrite reserveCapacity_reservations, jm_get_set_eq.
  destruct (jm_get (reservations st) (reservationKey w i)) as [per|]; simpl; intros Hh.
  - by apply sum_bytes_set_new.
  - rewrite sum_bytes_set_new by done. done.
Qed.

(** Reserving on distinct devices adds the share to each of them once. *)
Lemma reserve_devices_sum w i inst share st ds :
  NoDup ds.*1 → i ∈ ds.*1 → hold st w i inst = None →
  getReservation (foldl (λ st (d : Z * string), reserveCapacity w d.1 inst share st) st ds) w i =
  (getReservation st w i + share)%Z.
Proof.
  intros Hnd. revert st. induction ds as [|d ds IH]; intros st Hin Hh; [set_solver|].
  csimpl in *. apply NoDup_cons in Hnd as [Hd Hnd]. destruct (decide (i = d.1)) as [->|Hne].
  - rewrite reserve_devices_other by done. by apply reserve_getReservation.
  - rewrite IH; [|done|set_solver|].
    + f_equal. apply getReservation_ext. rewrite reserveCapacity_reservations, jm_get_set_ne; [done|].
      intros [_ ?]%reservationKey_inj. congruence.
    + rewrite reserveCapacity_hold, decide_False; [done|]. naive_solver.
Qed.

(** ** Properties *)

(** A placement is sound under every selection strategy: it names an ONLINE
    registered worker whose first capability for the requested runner type allows
    the request's tensor parallelism, and exactly [tensorParallel] of the devices in
    that worker's current, non-stale budget, each with room for its share of the
    memory, of a type the capability supports and of the requested type. *)
Theorem place_sound `{!PlacementStrategy} r workers budgets res :
  (0 < tensorParallel r)%Z → place r workers budgets = Some res →
  ∃ w c b ds,
    w ∈ workers ∧ wr_workerId w = pr_workerId res ∧ status w = WorkerStatus.ONLINE ∧
    c ∈ capabilities w ∧ runnerType c = req_runnerType r ∧ (tensorParallel r ≤ maxTensorParallelism c)%Z ∧
    jm_get budgets (pr_workerId res) = Some b ∧ stale b = false ∧
    pr_devices res = device_ref <$> ds ∧ ds `sublist_of` wb_devices b ∧
    Z.of_nat (length ds) = tensorParallel r ∧
    Forall (λ d, (requiredMemory r ≤ availableBytes d * tensorParallel r)%Z ∧
                 supports_device c (deviceType d) = true ∧
                 device_type_allowed r (deviceType d) = true) ds.
Proof.
  intros Htp Hp. apply place_Some in Hp as (w & c & b & Hw & (Hon & Hf & Hhw & Hb & Hs & Hlen) & ->); [|lia].
  destruct (find_capability_Some _ _ _ Hf) as [Hc Hrt]. apply hardware_ok_tp in Hhw.
  exists w, c, b, (take (Z.to_nat (tensorParallel r)) (eligible_devices r c b)). simpl.
  repeat split; try done.
  - etrans; [apply sublist_take|apply eligible_sublist].
  - rewrite length_take. lia.
  - apply Forall_forall. intros d Hd. eapply elem_of_sublist in Hd; [|apply sublist_take].
    apply elem_of_eligible in Hd as (_ & Hr & Hsd & Ha). split; [|done]. by apply ge_quot_pos in Hr.
Qed.

(** And it is complete: the pipeline answers [null] exactly when no registered
    worker can host the request, whatever the strategy. *)
Theorem place_complete `{!PlacementStrategy} r workers budgets :
  place r workers budgets = None ↔ ¬ ∃ w c b, w ∈ workers ∧ can_host r budgets w c b.
Proof.
  rewrite place_eq. split.
  - intros Hn (w & c & b & Hw & Hh).
    assert (candidate_of r w c b ∈ candidates r workers budgets) as Hin by (apply elem_of_candidates; exists w, c, b; done).
    destruct (candidates r workers budgets); [set_solver|done].
  - intros Hn. destruct (candidates r workers budgets) as [|x xs] eqn:Hc; [done|]. exfalso.
    assert (x ∈ candidates r workers budgets) as Hin by (rewrite Hc; set_solver).
    apply elem_of_candidates in Hin as (w & c & b & Hw & Hh & _). eauto 10.
Qed.

(** The default strategy picks a worker whose eligible devices have the most
    free memory in total, and the earliest such worker when several tie. *)
Theorem place_most_available r workers budgets res :
  place r workers budgets = Some res →
  ∃ pre sel post, candidates r workers budgets = pre ++ sel :: post ∧ res = result_of r sel ∧
    Forall (λ c, availableMemory c < availableMemory sel)%Z pre ∧
    Forall (λ c, availableMemory c ≤ availableMemory sel)%Z post.
Proof.
  rewrite place_eq. destruct (candidates r workers budgets) as [|x xs]; [done|]. intros [= <-].
  destruct (most_available_first x xs) as (pre & post & Heq & Hpre & Hpost).
  exists pre, (most_available x xs), post. done.
Qed.

(** The two entry points agree: the worker and devices automatic placement
    chose are accepted, unchanged, by the validation of a caller-selected placement.
    (Registered workers and the devices of a report are distinct, and the request
    does not name the empty device type, which [place] reads as no constraint.) *)
Theorem placeFixed_accepts_place `{!PlacementStrategy} r workers budgets res :
  (0 < tensorParallel r)%Z → req_deviceType r ≠ Some "" →
  NoDup (wr_workerId <$> workers) →
  (∀ w b, jm_get budgets w = Some b → NoDup (deviceIndex <$> wb_devices b)) →
  place r workers budgets = Some res →
  placeFixed r (pr_workerId res) (pr_devices res).*1 workers budgets = Some res.
Proof.
  intros Htp Hty Hws Hds Hp.
  apply place_Some in Hp as (w & c & b & Hw & (Hon & Hf & Hhw & Hb & Hs & Hlen) & ->); [|lia].
  unfold placeFixed. cbn [pr_workerId pr_devices].
  rewrite decide_False by (rewrite !length_fmap, length_take; lia).
  rewrite find_worker_NoDup by done.
  unfold filterByHealth, filterByRunnerType. rewrite filter_cons_True by done. csimpl. rewrite Hf. csimpl.
  pose proof (hardware_ok_tp _ _ _ Hhw) as Hmax.
  destruct (Z.ltb_spec (maxTensorParallelism c) (tensorParallel r)); [lia|].
  unfold filterByHardware. cbn [List.filter]. rewrite Hhw, Hb, Hs.
  rewrite lookup_chosen; [|by eapply Hds|].
  - rewrite omap_id_Some. rewrite (proj2 (forallb_forall _ _)); [done|].
    intros o Ho. apply list_elem_of_In, list_elem_of_fmap in Ho as (d & -> & Hd).
    eapply elem_of_sublist in Hd; [|apply sublist_take]. apply elem_of_eligible in Hd as [_ Hu].
    by apply usable_fixed_ok.
  - intros d Hd. eapply elem_of_sublist in Hd; [|apply sublist_take]. by apply elem_of_eligible in Hd as [? _].
Qed.

(** Eviction looks only at workers automatic placement could use: every worker
    [place] returns is in [eligibleWorkerIds]. *)
Theorem place_eligible `{!PlacementStrategy} r workers budgets res :
  (0 < tensorParallel r)%Z → place r workers budgets = Some res →
  pr_workerId res ∈ eligibleWorkerIds r workers.
Proof.
  intros Htp Hp. apply place_Some in Hp as (w & c & b & Hw & (Hon & Hf & Hhw & _) & ->); [|lia].
  assert ((w, c) ∈ filterByHardware r (filterByRunnerType r (filterByHealth workers))) as Hin.
  { apply list_elem_of_In, filter_In. split; [|done]. apply list_elem_of_In, list_elem_of_omap. exists w.
    split; [by apply list_elem_of_filter|]. by rewrite Hf. }
  unfold eligibleWorkerIds. cbn [pr_workerId].
  destruct (filterByHealth workers) as [|w0 ws]; [by apply elem_of_nil in Hin|].
  destruct (filterByRunnerType r (w0 :: ws)) as [|p ps]; [by apply elem_of_nil in Hin|].
  apply elem_of_list_to_set, list_elem_of_fmap. by exists (w, c).
Qed.

(** C21: a placement never over-commits: when the budgets were read in a consistent
    state and the new instance held nothing yet, reserving its share on the chosen
    devices leaves, on each of them, [used + holds <= total]. *)
Theorem placement_never_overcommits `{!PlacementStrategy} r workers st res inst share i d b :
  (0 < tensorParallel r)%Z → (0 < share)%Z → requiredMemory r = (share * tensorParallel r)%Z →
  consistent st → (∀ w j, hold st w j inst = None) →
  (∀ w b, jm_get (budgets st) w = Some b → NoDup (deviceIndex <$> wb_devices b)) →
  place r workers (budgets st) = Some res →
  i ∈ (pr_devices res).*1 →
  jm_get (budgets st) (pr_workerId res) = Some b → find_device i (wb_devices b) = Some d →
  (usedBytes d + getReservation (reserve_placement res inst share st) (pr_workerId res) i ≤ totalBytes d)%Z.
Proof.
  intros Htp Hsh Hreq Hc Hh Hnd Hp Hi Hb Hd.
  apply place_Some in Hp as (w & c & b' & Hw & (Hon & Hf & Hhw & Hb' & Hs & Hlen) & ->); [|lia].
  cbn [pr_workerId pr_devices] in *. assert (b' = b) as -> by congruence. unfold reserve_placement. cbn [pr_workerId pr_devices].
  assert (NoDup (device_ref <$> take (Z.to_nat (tensorParallel r)) (eligible_devices r c b)).*1) as Hnd'.
  { rewrite <- list_fmap_compose. eapply sublist_NoDup; [by apply (Hnd _ _ Hb)|].
    apply fmap_sublist. etrans; [apply sublist_take|apply eligible_sublist]. }
  rewrite reserve_devices_sum by (try apply Hh; done).
  pose proof (Hc _ _ _ _ Hb Hd) as Hav. unfold available in Hav.
  apply list_elem_of_fmap in Hi as (p & -> & (x & -> & Hx)%list_elem_of_fmap).
  eapply elem_of_sublist in Hx; [|apply sublist_take]. apply elem_of_eligible in Hx as (Hx & Hr & _).
  simpl in Hd. rewrite find_device_NoDup in Hd by (done || by apply (Hnd _ _ Hb)). simplify_eq.
  apply ge_quot_pos in Hr; [|done]. rewrite Hreq in Hr.
  assert (share ≤ availableBytes d)%Z by nia. simpl in *. lia.
Qed.

(** ** Examples *)
Definition example_worker (w : string) : WorkerRecord :=
  mkWorker w WorkerStatus.ONLINE
    [mkCapability "vllm" "vLLM" [ModelType.LLM] [DeviceType.CUDA] [SleepLevel.L1_HOST_RAM] None 2 false None]
    [mkWorkerDevice 0 DeviceType.CUDA 100; mkWorkerDevice 1 DeviceType.CUDA 100] (Some "0") "0" "http://w".
Definition example_dev (i avail : Z) : DeviceBudget := mkDevice i "CUDA" 100 (100 - avail) avail None None None None.
Definition example_budget (w : string) (a0 a1 : Z) : string * WorkerBudget :=
  (w, mkBudget w [example_dev 0 a0; example_dev 1 a1] "0" false None).
Definition example_workers : list WorkerRecord := [example_worker "w1"; example_worker "w2"].
Definition example_state : BudgetState := mkState [example_budget "w1" 50 60; example_budget "w2" 90 40] [].
Definition example_request : PlacementRequest := mkRequest "m" "vllm" 80 (Some "CUDA") 2.
Definition example_result : PlacementResult := mkResult "w2" "vllm" [(0%Z, "CUDA"); (1%Z, "CUDA")].

Lemma example_state_distinct w b :
  jm_get (budgets example_state) w = Some b → NoDup (deviceIndex <$> wb_devices b).
Proof.
  unfold example_state, example_budget. simpl. unfold jm_get. repeat case_decide; intros; simplify_eq; simpl;
    by apply (bool_decide_unpack _); vm_compute.
Qed.

Lemma place_sound_witness : ∃ w, w ∈ example_workers ∧ wr_workerId w = "w2" ∧ status w = WorkerStatus.ONLINE.
Proof.
  destruct (place_sound example_request example_workers (budgets example_state) example_result)
    as (w & _ & _ & _ & ? & ? & ? & _); [done|vm_compute; reflexivity|]. by exists w.
Defined.

Lemma place_most_available_witness :
  ∃ pre sel post, candidates example_request example_workers (budgets example_state) = pre ++ sel :: post ∧
    example_result = result_of example_request sel.
Proof.
  destruct (place_most_available example_request example_workers (budgets example_state) example_result)
    as (pre & sel & post & ? & ? & _); [vm_compute; reflexivity|]. by exists pre, sel, post.
Defined.

Lemma placeFixed_accepts_place_witness :
  placeFixed example_request "w2" [0; 1]%Z example_workers (budgets example_state) = Some example_result.
Proof.
  apply (placeFixed_accepts_place example_request example_workers (budgets example_state) example_result);
    [done|done|apply (bool_decide_unpack _); vm_compute; done|apply example_state_distinct|vm_compute; reflexivity].
Defined.

Lemma place_eligible_witness : "w2" ∈ eligibleWorkerIds example_request example_workers.
Proof.
  apply (place_eligible example_request example_workers (budgets example_state) example_result);
    [done|vm_compute; reflexivity].
Defined.

Lemma placement_never_overcommits_witness :
  (usedBytes (example_dev 1 40) +
   getReservation (reserve_placement example_result "inst" 40 example_state) "w2" 1 ≤ 100)%Z.
Proof.
  apply (placement_never_overcommits example_request example_workers example_state example_result "inst" 40 1
           (example_dev 1 40) (example_budget "w2" 90 40).2);
    [done|done|done| |done|apply example_state_distinct|vm_compute; reflexivity|set_solver|vm_compute; reflexivity|vm_compute; reflexivity].
  intros w i b d Hb Hd. unfold example_state, example_budget in Hb. simpl in Hb. unfold jm_get in Hb.
  unfold find_device in Hd. unfold getReservation. simpl.
  repeat case_decide; simplify_eq; simpl in Hd; repeat case_bool_decide; simplify_eq; done.
Defined.
