(* ===== verification/Eviction.v ===== *)
(** * Eviction (control-plane/src/services/eviction.ts)

    When placement finds no room, [EvictionEngine.selectVictims] chooses
    instances to stop: it filters the running instances, drops those whose size
    is unknown, and lets a strategy pick in its order until enough bytes would be
    freed, at most [maxPerCycle] per call, and none while a circuit breaker over
    the recent evictions is open.  The strategy is an interface in the source and
    the class [EvictionStrategy] here. *)
From stdpp Require Import base tactics list strings gmap sets sorting.
From Stdlib Require Import ZArith Lia OrdersEx.
From S2P Require Import Prelude Js Types.

(** ** Data *)
Record EvictionCandidate := mkVictim {
  ev_instanceId : string;
  ev_modelName : string;
  ev_state : ModelLifecycleState;
  ev_workerId : string;
  memoryBytes : Z;
  ev_lastInferenceAt : option string;
  pinned : bool;
}.

Record EvictionConfig := mkConfig {
  maxPerCycle : Z;
  minActiveTimeSecs : Z;
  circuitBreakerThreshold : Z;
  circuitBreakerWindowSecs : Z;
}.

Definition default_config : EvictionConfig := mkConfig 3 60 5 60.

(** A strategy returns some of the candidates it is given, each at most once. *)
Class EvictionStrategy := {
  strategy_selectVictims : list EvictionCandidate → Z → list EvictionCandidate;
  strategy_sub cs required : strategy_selectVictims cs required ⊆+ cs;
}.

(** ** [Array.prototype.sort] with a comparator: a stable sort *)
Section sort.
Context {A : Type} (cmp : A → A → Z).

(** [x] goes after the elements it does not precede. *)
Fixpoint insert_sorted (x : A) (l : list A) : list A :=
  match l with
  | [] => [x]
  | y :: l' => if Z.ltb (cmp x y) 0 then x :: l else y :: insert_sorted x l'
  end.
Definition js_sort (l : list A) : list A := foldl (λ acc x, insert_sorted x acc) [] l.

Lemma insert_sorted_perm x l : insert_sorted x l ≡ₚ x :: l.
Proof. induction l as [|y l IH]; simpl; [done|]. case_match; [done|]. rewrite IH. apply Permutation_swap. Qed.

Lemma foldl_insert_perm l acc : foldl (λ acc x, insert_sorted x acc) acc l ≡ₚ l ++ acc.
Proof.
  revert acc. induction l as [|x l IH]; intros acc; simpl; [done|].
  rewrite IH, insert_sorted_perm. by rewrite Permutation_middle.
Qed.

Lemma js_sort_perm l : js_sort l ≡ₚ l.
Proof. unfold js_sort. rewrite foldl_insert_perm. by rewrite app_nil_r. Qed.

(** With a comparator of a total preorder the result is sorted. *)
Context (Htotal : ∀ x y, (cmp x y < 0)%Z → (cmp y x > 0)%Z)
        (Htotal' : ∀ x y, (0 ≤ cmp x y)%Z → (cmp y x ≤ 0)%Z)
        (Htrans : ∀ x y z, (cmp x y ≤ 0)%Z → (cmp y z ≤ 0)%Z → (cmp x z ≤ 0)%Z).

Definition ordered (x y : A) : Prop := (cmp x y ≤ 0)%Z.

Lemma insert_sorted_sorted x l : StronglySorted ordered l → StronglySorted ordered (insert_sorted x l).
Proof.
  induction 1 as [|y l Hl IH Hy]; simpl; [by repeat constructor|].
  destruct (Z.ltb_spec (cmp x y) 0) as [Hlt|Hge].
  - constructor; [by constructor|]. constructor; [unfold ordered; lia|].
    eapply Forall_impl; [exact Hy|]. intros z Hz. unfold ordered in *. eapply Htrans; [|done]. lia.
  - constructor; [done|]. rewrite insert_sorted_perm. constructor; [|done]. by apply Htotal'.
Qed.

Lemma js_sort_sorted l : StronglySorted ordered (js_sort l).
Proof.
  unfold js_sort. assert (StronglySorted ordered []) as Hacc by constructor.
  revert Hacc. generalize (@nil A) as acc. induction l as [|x l IH]; intros acc Hacc; simpl; [done|].
  apply IH. by apply insert_sorted_sorted.
Qed.
End sort.

(** ** Least recently used first

    [a.localeCompare(b)] is the engine's collation; it is a parameter, a total
    preorder on texts. *)
Class LocaleCompare := {
  localeCompare : string → string → Z;
  localeCompare_lt x y : (localeCompare x y < 0)%Z → (localeCompare y x > 0)%Z;
  localeCompare_ge x y : (0 ≤ localeCompare x y)%Z → (localeCompare y x ≤ 0)%Z;
  localeCompare_trans x y z : (localeCompare x y ≤ 0)%Z → (localeCompare y z ≤ 0)%Z → (localeCompare x z ≤ 0)%Z;
}.

Section lru.
Context `{!LocaleCompare}.

(** Never-used candidates come first, in their given order. *)
Definition lru_compare (a b : EvictionCandidate) : Z :=
  match truthy_str (ev_lastInferenceAt a), truthy_str (ev_lastInferenceAt b) with
  | false, false => 0
  | false, true => -1
  | true, false => 1
  | true, true => localeCompare (default "" (ev_lastInferenceAt a)) (default "" (ev_lastInferenceAt b))
  end%Z.

Fixpoint take_until (freed required : Z) (cs : list EvictionCandidate) : list EvictionCandidate :=
  match cs with
  | [] => []
  | c :: cs' =>
      if Z.leb required freed then [] else c :: take_until (freed + memoryBytes c) required cs'
  end.

Definition lru_selectVictims (cs : list EvictionCandidate) (required : Z) : list EvictionCandidate :=
  take_until 0 required (js_sort lru_compare cs).

Lemma take_until_prefix freed required cs : take_until freed required cs `prefix_of` cs.
Proof.
  revert freed. induction cs as [|c cs IH]; intros freed; simpl; [done|].
  case_match; [apply prefix_nil|]. by apply prefix_cons.
Qed.

Lemma lru_selectVictims_sub cs required : lru_selectVictims cs required ⊆+ cs.
Proof.
  unfold lru_selectVictims. rewrite <- (js_sort_perm lru_compare cs) at 2.
  destruct (take_until_prefix 0 required (js_sort lru_compare cs)) as [rest Heq].
  rewrite Heq at 2. apply submseteq_inserts_r. done.
Qed.

#[export] Instance LruEvictionStrategy : EvictionStrategy := {|
  strategy_selectVictims := lru_selectVictims;
  strategy_sub := lru_selectVictims_sub;
|}.
End lru.

(** ** The engine *)
Section engine.
Context `{!JsDate} (config : EvictionConfig).

(** [isCircuitBreakerOpen] also forgets the evictions outside the window. *)
Definition prune_recent (now : Z) (recent : list Z) : list Z :=
  filter (λ t, (now - circuitBreakerWindowSecs config * 1000 < t)%Z) recent.
Definition isCircuitBreakerOpen (now : Z) (recent : list Z) : bool * list Z :=
  let recent' := prune_recent now recent in
  (Z.leb (circuitBreakerThreshold config) (Z.of_nat (length recent')), recent').

(** [activeAge >= minActiveTimeSecs], in whole milliseconds; [NaN] compares false. *)
Definition old_enough (now : Z) (m : InstanceState) : bool :=
  if decide (stateChangedAt m = "") then true
  else match getTime (stateChangedAt m) with
       | Some t => Z.leb (minActiveTimeSecs config * 1000) (now - t)
       | None => false
       end.

Definition eviction_eligible (now : Z) (pinnedModels : gset string) (targets : option (gset string))
    (m : InstanceState) : bool :=
  (bool_decide (state m = ModelLifecycleState.ACTIVE) || bool_decide (state m = ModelLifecycleState.SLEEPING)) &&
  bool_decide (modelName m ∉ pinnedModels) &&
  match targets with None => true | Some ws => bool_decide (default "" (workerId m) ∈ ws) end &&
  old_enough now m.

Definition to_candidate (memoryByModel : gmap string Z) (m : InstanceState) : EvictionCandidate :=
  mkVictim (instanceId m) (modelName m) (state m) (default "" (workerId m))
    (default 0%Z (memoryByModel !! modelName m)) (lastInferenceAt m) false.

(** [victims.slice(0, maxPerCycle)] *)
Definition slice_victims (vs : list EvictionCandidate) : list EvictionCandidate :=
  if Z.ltb (maxPerCycle config) 0 then take (Z.to_nat (Z.of_nat (length vs) + maxPerCycle config)) vs
  else take (Z.to_nat (maxPerCycle config)) vs.

Definition selectVictims `{!EvictionStrategy} (now : Z) (allInstances : list InstanceState)
    (pinnedModels : gset string) (requiredBytes : Z) (targets : option (gset string))
    (memoryByModel : gmap string Z) (recent : list Z) : list EvictionCandidate * list Z :=
  let '(breakerOpen, recent') := isCircuitBreakerOpen now recent in
  if breakerOpen then ([], recent') else
  let candidates := to_candidate memoryByModel <$> List.filter (eviction_eligible now pinnedModels targets) allInstances in
  let sized := List.filter (λ c, Z.ltb 0 (memoryBytes c)) candidates in
  match sized with
  | [] => ([], recent')
  | _ => (slice_victims (strategy_selectVictims sized requiredBytes), recent')
  end.

Lemma eligible_spec now pins targets sizes m :
  eviction_eligible now pins targets m = true → Z.ltb 0 (memoryBytes (to_candidate sizes m)) = true →
  (state m = ModelLifecycleState.ACTIVE ∨ state m = ModelLifecycleState.SLEEPING) ∧
  modelName m ∉ pins ∧
  (∀ ws, targets = Some ws → default "" (workerId m) ∈ ws) ∧
  (∀ t, getTime (stateChangedAt m) = Some t → stateChangedAt m ≠ "" →
        (minActiveTimeSecs config * 1000 ≤ now - t)%Z) ∧
  (∃ size, sizes !! modelName m = Some size ∧ 0 < size)%Z.
Proof.
  unfold eviction_eligible, old_enough. simpl. rewrite !andb_true_iff, orb_true_iff, !bool_decide_eq_true.
  intros [[[Hst Hpin] Htg] Hage] Hpos%Z.ltb_lt. repeat split; try done.
  - intros ws ->. by apply bool_decide_eq_true in Htg.
  - intros t Ht Hne. rewrite decide_False, Ht in Hage by done. by apply Z.leb_le.
  - destruct (sizes !! modelName m) as [size|]; simpl in Hpos; [by exists size|lia].
Qed.

Definition recordEviction (now : Z) (recent : list Z) : list Z := recent ++ [now].
End engine.

(** ** Runs of the engine

    A cycle selects victims and then records the evictions that succeeded, at
    times no earlier than the selection; cycles follow one another in time.
    [engine_run now recent log] is a run that has reached time [now] with the
    engine's [recentEvictions] and the times of all evictions so far. *)
Section runs.
Context `{!JsDate} `{!EvictionStrategy} (config : EvictionConfig).

Inductive engine_run : Z → list Z → list Z → Prop :=
| run_start now : engine_run now [] []
| run_cycle now recent log now' now'' insts pins required targets sizes victims recent' times :
    engine_run now recent log →
    (now ≤ now')%Z → (now' ≤ now'')%Z →
    selectVictims config now' insts pins required targets sizes recent = (victims, recent') →
    length times ≤ length victims →
    Forall (λ t, now' ≤ t ≤ now'')%Z times →
    engine_run now'' (foldl (λ r t, recordEviction t r) recent' times) (log ++ times).

(** Evictions among [log] in the window that ends at time [T]. *)
Definition in_window (T : Z) (log : list Z) : list Z :=
  filter (λ t, T - circuitBreakerWindowSecs config * 1000 < t ∧ t ≤ T)%Z log.

Lemma recordEviction_all times recent : foldl (λ r t, recordEviction t r) recent times = recent ++ times.
Proof.
  revert recent. induction times as [|t ts IH]; intros recent; simpl; [by rewrite app_nil_r|].
  rewrite IH. unfold recordEviction. by rewrite <- app_assoc.
Qed.

Lemma selectVictims_recent now insts pins required targets sizes recent :
  (selectVictims config now insts pins required targets sizes recent).2 = prune_recent config now recent.
Proof. unfold selectVictims, isCircuitBreakerOpen. by repeat case_match. Qed.

Lemma slice_victims_length vs : (0 ≤ maxPerCycle config)%Z → (Z.of_nat (length (slice_victims config vs)) ≤ maxPerCycle config)%Z.
Proof.
  intros Hmax. unfold slice_victims. destruct (Z.ltb_spec (maxPerCycle config) 0); [lia|].
  rewrite length_take. lia.
Qed.

Lemma slice_victims_sub vs : slice_victims config vs ⊆+ vs.
Proof. unfold slice_victims. case_match; apply sublist_submseteq, sublist_take. Qed.

(** A selection that returns a victim found the breaker closed. *)
Lemma selectVictims_bounds now insts pins required targets sizes recent :
  (0 ≤ maxPerCycle config)%Z →
  let '(vs, recent') := selectVictims config now insts pins required targets sizes recent in
  vs = [] ∨ (Z.of_nat (length vs) ≤ maxPerCycle config ∧
             Z.of_nat (length recent') < circuitBreakerThreshold config)%Z.
Proof.
  intros Hmax. unfold selectVictims, isCircuitBreakerOpen.
  destruct (Z.leb_spec (circuitBreakerThreshold config) (Z.of_nat (length (prune_recent config now recent)))); [by left|].
  cbn zeta iota. destruct (List.filter _ (_ <$> _)); [by left|]. right. split; [by apply slice_victims_length|lia].
Qed.

Lemma prune_app now l k : prune_recent config now (l ++ k) = prune_recent config now l ++ prune_recent config now k.
Proof. apply filter_app. Qed.

Lemma prune_prune now now' l : (now ≤ now')%Z → prune_recent config now' (prune_recent config now l) = prune_recent config now' l.
Proof.
  intros Hle. unfold prune_recent. apply list_filter_filter_l. intros t. lia.
Qed.

Lemma in_window_prune T now l : (now ≤ T)%Z → length (in_window T l) ≤ length (prune_recent config now l).
Proof.
  intros Hle. unfold in_window, prune_recent. induction l as [|t l IH]; [done|].
  rewrite !filter_cons. repeat case_decide; simpl; lia.
Qed.

(** The engine's memory holds exactly the evictions still inside the window. *)
Lemma engine_run_recent now recent log :
  engine_run now recent log →
  Forall (λ t, t ≤ now)%Z log ∧ ∀ n, (now ≤ n)%Z → prune_recent config n log = prune_recent config n recent.
Proof.
  induction 1 as [|now recent log now' now'' insts pins required targets sizes victims recent' times Hrun [IHle IH] H1 H2 Hsel Hlen Ht]; [done|].
  split.
  - apply Forall_app. split; eapply Forall_impl; eauto; simpl; intros; lia.
  - intros n Hn. rewrite recordEviction_all, !prune_app. f_equal.
    pose proof (selectVictims_recent now' insts pins required targets sizes recent) as Hr. rewrite Hsel in Hr.
    simpl in Hr. rewrite Hr, prune_prune by lia. apply IH. lia.
Qed.

Lemma in_window_late T l : Forall (λ t, T < t)%Z l → in_window T l = [].
Proof. induction 1 as [|t l Ht _ IH]; [done|]. unfold in_window. rewrite filter_cons_False by lia. exact IH. Qed.

(** The circuit breaker limits the eviction rate.  However the cycles of a
    run are timed, and whatever the strategy picks, no window of
    [circuitBreakerWindowSecs] contains more than
    [circuitBreakerThreshold - 1 + maxPerCycle] evictions. *)
Theorem circuit_breaker_bounds_rate now recent log T :
  (0 ≤ maxPerCycle config)%Z →
  engine_run now recent log →
  (Z.of_nat (length (in_window T log)) ≤ Z.max 0 (circuitBreakerThreshold config - 1 + maxPerCycle config))%Z.
Proof.
  intros Hmax. induction 1 as [|now recent log now' now'' insts pins required targets sizes victims recent' times Hrun IH H1 H2 Hsel Hlen Ht]; [simpl; lia|].
  assert (in_window T (log ++ times) = in_window T log ++ in_window T times) as -> by apply filter_app.
  rewrite length_app.
  destruct (Z.lt_ge_cases T now') as [HT|HT].
  { rewrite (in_window_late T times); [simpl; lia|]. eapply Forall_impl; [exact Ht|]. simpl. intros t ?. lia. }
  pose proof (selectVictims_bounds now' insts pins required targets sizes recent Hmax) as Hb.
  pose proof (selectVictims_recent now' insts pins required targets sizes recent) as Hr.
  rewrite Hsel in Hb, Hr. destruct Hb as [->|[Hvs Hth]].
  { destruct times; [|simpl in Hlen; lia]. simpl. lia. }
  destruct (engine_run_recent _ _ _ Hrun) as [_ Hrec].
  pose proof (in_window_prune T now' log HT) as Hp. rewrite (Hrec now') in Hp by lia.
  simpl in Hr. rewrite <- Hr in Hp.
  assert (length (in_window T times) ≤ length times) by apply length_filter. lia.
Qed.

(** The victims come from the eligible instances of positive size. *)
Definition evictable (now : Z) (insts : list InstanceState) (pins : gset string) (targets : option (gset string))
    (sizes : gmap string Z) : list EvictionCandidate :=
  List.filter (λ c, Z.ltb 0 (memoryBytes c)) (to_candidate sizes <$> List.filter (eviction_eligible config now pins targets) insts).
Lemma selectVictims_sub now insts pins required targets sizes recent :
  (selectVictims config now insts pins required targets sizes recent).1 ⊆+ evictable now insts pins targets sizes.
Proof.
  unfold selectVictims, isCircuitBreakerOpen. fold (evictable now insts pins targets sizes). case_match; [apply submseteq_nil_l|].
  destruct (evictable now insts pins targets sizes) eqn:Hs; [done|]. rewrite <- Hs. simpl.
  etransitivity; [apply slice_victims_sub|]. apply strategy_sub.
Qed.
Lemma selectVictims_victim now insts pins required targets sizes recent v :
  v ∈ (selectVictims config now insts pins required targets sizes recent).1 →
  ∃ m, m ∈ insts ∧ v = to_candidate sizes m ∧
    (state m = ModelLifecycleState.ACTIVE ∨ state m = ModelLifecycleState.SLEEPING) ∧
    modelName m ∉ pins ∧
    (∀ ws, targets = Some ws → default "" (workerId m) ∈ ws) ∧
    (∀ t, getTime (stateChangedAt m) = Some t → stateChangedAt m ≠ "" →
          (minActiveTimeSecs config * 1000 ≤ now - t)%Z) ∧
    (∃ size, sizes !! modelName m = Some size ∧ 0 < size)%Z.
Proof.
  intros Hv. pose proof (elem_of_submseteq _ _ _ Hv (selectVictims_sub now insts pins required targets sizes recent)) as Hv'.
  apply list_elem_of_In, filter_In in Hv' as [Hin Hpos].
  apply list_elem_of_In, list_elem_of_fmap in Hin as (m & -> & [Hm Hel]%list_elem_of_In%filter_In).
  exists m. split; [by apply list_elem_of_In|]. split; [done|]. by apply eligible_spec.
Qed.

(** Only evictable instances are ever chosen.  Whatever the strategy, each
    victim comes from a distinct running (ACTIVE or SLEEPING) instance of an
    unpinned model, on an allowed worker, that has been in its state for at least
    [minActiveTimeSecs], and whose configured size is positive; and at most
    [maxPerCycle] are chosen. *)
Theorem selectVictims_safe now insts pins required targets sizes recent :
  let vs := (selectVictims config now insts pins required targets sizes recent).1 in
  vs ⊆+ (to_candidate sizes <$> insts) ∧
  ((0 ≤ maxPerCycle config)%Z → (Z.of_nat (length vs) ≤ maxPerCycle config)%Z) ∧
  ∀ v, v ∈ vs → ∃ m, m ∈ insts ∧ v = to_candidate sizes m ∧
    (state m = ModelLifecycleState.ACTIVE ∨ state m = ModelLifecycleState.SLEEPING) ∧
    modelName m ∉ pins ∧
    (∀ ws, targets = Some ws → default "" (workerId m) ∈ ws) ∧
    (∀ t, getTime (stateChangedAt m) = Some t → stateChangedAt m ≠ "" →
          (minActiveTimeSecs config * 1000 ≤ now - t)%Z) ∧
    (∃ size, sizes !! modelName m = Some size ∧ 0 < size)%Z.
Proof.
  simpl. split; [|split].
  - etransitivity; [apply selectVictims_sub|]. etransitivity; [apply sublist_submseteq, filter_bool_sublist|].
    apply fmap_submseteq, sublist_submseteq, filter_bool_sublist.
  - intros Hmax. pose proof (selectVictims_bounds now insts pins required targets sizes recent Hmax) as Hb.
    destruct (selectVictims _ _ _ _ _ _ _ _) as [vs r]. simpl. destruct Hb as [->|[? _]]; simpl; lia.
  - apply selectVictims_victim.
Qed.
End runs.

(** ** The least-recently-used strategy *)
Section lru_theorems.
Context `{!LocaleCompare}.

(** Bytes that stopping all of [vs] would free. *)
Fixpoint freed_by (vs : list EvictionCandidate) : Z :=
  match vs with [] => 0 | v :: vs' => memoryBytes v + freed_by vs' end.

Lemma lru_compare_ge x y : (0 ≤ lru_compare x y)%Z → (lru_compare y x ≤ 0)%Z.
Proof. unfold lru_compare. repeat case_match; try lia. apply localeCompare_ge. Qed.

Lemma lru_compare_trans x y z : (lru_compare x y ≤ 0)%Z → (lru_compare y z ≤ 0)%Z → (lru_compare x z ≤ 0)%Z.
Proof. unfold lru_compare. repeat case_match; try lia. apply localeCompare_trans. Qed.

Lemma lru_sorted cs : StronglySorted (ordered lru_compare) (js_sort lru_compare cs).
Proof. apply js_sort_sorted; [apply lru_compare_ge|apply lru_compare_trans]. Qed.

(** The loop stops as soon as enough bytes are freed, and not before. *)
Lemma take_until_spec freed required cs :
  let vs := take_until freed required cs in
  (∀ pre v, vs = pre ++ [v] → freed + freed_by pre < required)%Z ∧
  (required ≤ freed + freed_by vs ∨ vs = cs)%Z.
Proof.
  revert freed. induction cs as [|c cs IH]; intros freed; simpl.
  { split; [intros [|??] v Heq; done|by right]. }
  destruct (Z.leb_spec required freed) as [Hle|Hlt].
  { split; [intros [|??] v Heq; done|left; simpl; lia]. }
  destruct (IH (freed + memoryBytes c)%Z) as [IH1 IH2]. split.
  - intros [|p pre] v Heq; simpl in Heq; injection Heq as -> Heq; simpl; [lia|]. specialize (IH1 pre v Heq). lia.
  - simpl. destruct IH2 as [? | ->]; [left; lia|by right].
Qed.

(** The strategy evicts in least-recently-used order and no more than it
    needs.  The victims and the spared candidates are a rearrangement of the
    candidates; every victim was used no later than every spared one (never-used
    candidates first); without its last victim the choice frees too little; and it
    frees enough unless every candidate is taken. *)
Theorem lru_victims_minimal cs required :
  let vs := lru_selectVictims cs required in
  ∃ spared, vs ++ spared ≡ₚ cs ∧
    (∀ v s, v ∈ vs → s ∈ spared → (lru_compare v s ≤ 0)%Z) ∧
    (∀ pre v, vs = pre ++ [v] → (freed_by pre < required)%Z) ∧
    ((required ≤ freed_by vs)%Z ∨ spared = []).
Proof.
  simpl. unfold lru_selectVictims. pose proof (lru_sorted cs) as Hs. pose proof (js_sort_perm lru_compare cs) as Hp.
  destruct (take_until_spec 0 required (js_sort lru_compare cs)) as [Hmin Hall].
  destruct (take_until_prefix 0 required (js_sort lru_compare cs)) as [spared Heq].
  exists spared. rewrite <- Heq. split; [done|]. split.
  - rewrite Heq in Hs. intros v s Hv Hsp. by apply (StronglySorted_app_1_elem_of (ordered lru_compare) _ _ v s Hs).
  - split; [intros pre v Hpre; specialize (Hmin pre v Hpre); lia|].
    destruct Hall as [?|Hvs]; [left; lia|right].
    rewrite Hvs in Heq. by apply (app_inv_head (js_sort lru_compare cs)); rewrite app_nil_r.
Qed.
End lru_theorems.

(** ** Closed examples, with code-point order for [localeCompare] *)
Definition codepoint_compare (x y : string) : Z :=
  match String.compare x y with Lt => -1 | Eq => 0 | Gt => 1 end.

Lemma codepoint_compare_flip x y : codepoint_compare y x = (- codepoint_compare x y)%Z.
Proof. unfold codepoint_compare. rewrite String.compare_antisym. by destruct (String.compare x y). Qed.

Lemma codepoint_compare_le x y : (codepoint_compare x y ≤ 0)%Z ↔ x = y ∨ String_as_OT.lt x y.
Proof.
  unfold codepoint_compare. 
  assert (CompSpec eq String_as_OT.lt x y (String.compare x y)) as Hc by exact (String_as_OT.compare_spec x y).
  destruct Hc as [Heq|Hlt|Hgt].
  - split; [by left|done].
  - split; [by right|done].
  - split; [lia|]. intros [-> |Hlt]; exfalso.
    + by apply (StrictOrder_Irreflexive (R := String_as_OT.lt)) in Hgt.
    + by apply (StrictOrder_Asymmetric String_as_OT.lt_strorder _ _ Hlt).
Qed.

Lemma codepoint_compare_trans x y z :
  (codepoint_compare x y ≤ 0)%Z → (codepoint_compare y z ≤ 0)%Z → (codepoint_compare x z ≤ 0)%Z.
Proof.
  rewrite !codepoint_compare_le. intros [-> |H1] [-> |H2]; auto.
  right. by apply (StrictOrder_Transitive (R := String_as_OT.lt) x y z).
Qed.

#[export] Instance codepoint_locale : LocaleCompare | 100.
Proof.
  refine {| localeCompare := codepoint_compare; localeCompare_trans := codepoint_compare_trans |};
    intros x y; rewrite (codepoint_compare_flip x y); lia.
Defined.

Definition ex_running (id model changed : string) (last : option string) : InstanceState :=
  mkInstance id model ModelLifecycleState.ACTIVE None (Some "w1") None None None None None last changed None false.
Definition ex_instances : list InstanceState :=
  [ex_running "a" "m1" "0" (Some "9"); ex_running "b" "m2" "0" (Some "3"); ex_running "c" "m3" "99999" None].
Definition ex_sizes : gmap string Z := <["m1" := 40%Z]> (<["m2" := 30%Z]> ∅).

Lemma circuit_breaker_witness :
  (Z.of_nat (length (in_window default_config 100000%Z [100000; 100000]%Z)) ≤ 7)%Z.
Proof.
  apply (circuit_breaker_bounds_rate default_config 100000%Z [100000; 100000]%Z [100000; 100000]%Z 100000); [done|].
  eapply (run_cycle default_config 100000 [] [] 100000 100000 ex_instances ∅ 60 None ex_sizes _ [] [100000; 100000]%Z).
  - constructor.
  - done.
  - done.
  - vm_compute. reflexivity.
  - vm_compute. lia.
  - repeat constructor; lia.
Defined.

Example ex_lru : (ev_instanceId <$> (selectVictims default_config 100000 ex_instances ∅ 20 None ex_sizes []).1) = ["b"].
Proof. vm_compute. reflexivity. Qed.
