(* ===== verification/Store.v ===== *)
(** * The shared world of the services

    The services of the control plane are methods over a Redis server, in-process
    state, a clock, and HTTP calls to workers and runners.  [World] is what a
    method sees; [Env] is everything outside it: how long each awaited call takes,
    what other processes and other requests of this process do meanwhile, which
    calls fail (before or after taking effect), and what workers and runners
    answer.  All of it is arbitrary, indexed by the number of awaited calls made
    so far, so a theorem for every [Env] is a theorem for every interleaving of the
    method with the rest of the system at its [await]s.

    Redis holds JSON texts; here each of the program's key families is a typed
    store under the program's own key texts, since every text under such a key was
    written by [JSON.stringify] (or by [cjson.encode] of the same object) and is
    read back with [JSON.parse]. *)
From stdpp Require Import base tactics list strings gmap sets.
From Stdlib Require Import ZArith Lia Ascii.
From S2P Require Import Prelude Js Types Errors MemoryBudget WorkerPool.

(** [redisKey(prefix, ...parts)] of clients/redis.ts *)
Definition redisKey (prefix : string) (parts : list string) : string := js_join ":" (prefix :: parts).

(** ** Redis *)
Record RedisDb := mkDb {
  db_instances : gmap string InstanceState;   (** [{prefix}:models:{modelName}:{instanceId}] *)
  db_moves : gmap string MoveOperation;       (** [{prefix}:move-operations:{modelName}] *)
  db_inference : gmap string string;          (** [{prefix}:inference:last:{modelName}] *)
  db_routing : gmap string RoutingEntry;      (** the hash [{prefix}:routing-map] *)
  db_updates : list RoutingMapUpdate;         (** messages published on [{prefix}:routing-updates] *)
  db_barriers : list (string * string);       (** (barrierId, modelName) on [{prefix}:routing-barriers] *)
  db_presence : gmap string string;           (** [{prefix}:proxies:{proxyId}] *)
  db_acks : gmap string (gset string);        (** the sets [{prefix}:routing-barrier-acks:{barrierId}] *)
}.
Definition empty_db : RedisDb := mkDb ∅ ∅ ∅ ∅ [] [] ∅ ∅.

Definition set_instances (f : gmap string InstanceState → gmap string InstanceState) (d : RedisDb) : RedisDb :=
  mkDb (f (db_instances d)) (db_moves d) (db_inference d) (db_routing d) (db_updates d) (db_barriers d) (db_presence d) (db_acks d).
Definition set_moves (f : gmap string MoveOperation → gmap string MoveOperation) (d : RedisDb) : RedisDb :=
  mkDb (db_instances d) (f (db_moves d)) (db_inference d) (db_routing d) (db_updates d) (db_barriers d) (db_presence d) (db_acks d).
Definition set_routing (f : gmap string RoutingEntry → gmap string RoutingEntry) (d : RedisDb) : RedisDb :=
  mkDb (db_instances d) (db_moves d) (db_inference d) (f (db_routing d)) (db_updates d) (db_barriers d) (db_presence d) (db_acks d).
Definition publish (u : RoutingMapUpdate) (d : RedisDb) : RedisDb :=
  mkDb (db_instances d) (db_moves d) (db_inference d) (db_routing d) (db_updates d ++ [u]) (db_barriers d) (db_presence d) (db_acks d).
Definition publish_barrier (b : string * string) (d : RedisDb) : RedisDb :=
  mkDb (db_instances d) (db_moves d) (db_inference d) (db_routing d) (db_updates d) (db_barriers d ++ [b]) (db_presence d) (db_acks d).
Definition set_acks (f : gmap string (gset string) → gmap string (gset string)) (d : RedisDb) : RedisDb :=
  mkDb (db_instances d) (db_moves d) (db_inference d) (db_routing d) (db_updates d) (db_barriers d) (db_presence d) (f (db_acks d)).

(** ** Answers of runners and workers *)
Record HealthStatus := mkHealth {
  h_state : RunnerState;
  h_activeRequests : option Z;
  h_message : option string;
}.
Record StartRunnerResponse := mkStarted {
  sr_runnerId : string;
  sr_host : string;
  sr_port : Z;
  sr_enginePort : option Z;
}.

(** [POST /runners] failed: with a non-2xx answer ([WorkerHttpError]), or without one. *)
Inductive StartFailure := StartRejected (msg : string) (status : Z) | StartNoReply (msg : string).
Definition start_exn (f : StartFailure) : Exn :=
  match f with StartRejected msg status => WorkerHttpError msg status | StartNoReply msg => OtherError msg end.

(** An HTTP response: its status, its body as text, and what parsing the body as
    JSON gives (an error, or an object of the type the caller casts it to). *)
Record HttpResponse (B : Type) := mkHttp { rs_status : Z; rs_text : string; rs_json : string + B }.
Arguments mkHttp {B}. Arguments rs_status {B}. Arguments rs_text {B}. Arguments rs_json {B}.
(** [response.ok] *)
Definition rs_ok {B} (r : HttpResponse B) : bool := Z.leb 200 (rs_status r) && Z.leb (rs_status r) 299.

(** The body of a runner-by-instance answer. *)
Record RunnerByInstanceResponse := mkByInstance {
  bi_starting : bool;                            (** [state === STARTING]; otherwise READY *)
  bi_runnerId : string;
  bi_host : option string;
  bi_port : option Z;
  bi_enginePort : option Z;
}.

Inductive Fault := NoFault | FailBefore (msg : string) | FailAfter (msg : string).

(** What a method does to the outside, in order. *)
Inductive Event :=
| EvRedis (before after : RedisDb)               (** one atomic command, script or transaction *)
| EvHealth (reply : option HealthStatus)         (** [GET /health]; [None] when the call failed *)
| EvSleep | EvWake                               (** [POST /sleep], [POST /wake] sent to the runner *)
| EvStartRunner (instanceId : string) (reply : StartFailure + StartRunnerResponse)
                                                 (** [POST /runners] sent to the worker *)
| EvFindRunner (instanceId : string) (reply : option (HttpResponse RunnerByInstanceResponse))
                                                 (** [GET /runners/by-instance/{id}/status]; [None]: no response *)
| EvGetRunner (runnerId : string) (status : option Z)  (** [GET /runners/{id}] and the status of the response *)
| EvStopRunner (runnerId : string) (status : option Z) (** [DELETE /runners/{id}], the same *)
| EvSide (what : string)                         (** a write to the relational database, or to a key only the dashboard reads *)
| EvRead (what : string)                         (** a read of the relational database, or of a worker's keys *)
| EvModelRow (name : string) (found : option bool) (** [SELECT] of one model's row; [None]: it failed *)
| EvDeadWorkers (workerIds : list string)        (** the log line 'Dead workers detected' *)
| EvCluster (type : string) (workerId : option string) (** a message on the cluster-events channel *)
| EvGauge (metric : string) (labels : list string) (value : Z) (** [gauge.set(labels, value)] *)
| EvCount (metric : string)                      (** [counter.inc(...)] *)
| EvClock (now : Z)                              (** [Date.now()] read for a comparison with a record's age *)
| EvNotify (title description : string)          (** a notification was requested, not awaited *)
| EvStateMetric (from to : ModelLifecycleState). (** [stateTransitionsTotal.inc] *)

(** The flags of the reconciliation loop. *)
Record ReconFlags := mkRecon { wasLeader : bool; recon_running : bool; legacyPruneDone : bool; recon_timer : bool }.
Definition init_recon : ReconFlags := mkRecon false false false false.

(** The in-flight claims of the model routes: one set of names per kind of operation. *)
Inductive claim_kind :=
| stoppingInFlight | instanceOpInFlight | deletingInFlight | movingInFlight
| launchingInFlight | modelLifecycleInFlight | configurationUpdateInFlight.
#[global] Instance claim_kind_eq_dec : EqDecision claim_kind.
Proof. solve_decision. Defined.
Definition RouteClaims : Type := claim_kind → gset string.
Definition no_claims : RouteClaims := λ _, ∅.

(** In-process state shared by all requests of this process. *)
Record Local := mkLocal {
  l_budget : BudgetState;
  l_pool : WorkerPool;
  l_running : gset string;                       (** [running] of the move orchestrator *)
  l_recon : ReconFlags;
  l_claims : RouteClaims;
  l_evictions : list Z;                          (** [recentEvictions] of the eviction engine *)
}.
Definition set_budget (f : BudgetState → BudgetState) (l : Local) : Local :=
  mkLocal (f (l_budget l)) (l_pool l) (l_running l) (l_recon l) (l_claims l) (l_evictions l).
Definition set_pool (f : WorkerPool → WorkerPool) (l : Local) : Local :=
  mkLocal (l_budget l) (f (l_pool l)) (l_running l) (l_recon l) (l_claims l) (l_evictions l).
Definition set_running (f : gset string → gset string) (l : Local) : Local :=
  mkLocal (l_budget l) (l_pool l) (f (l_running l)) (l_recon l) (l_claims l) (l_evictions l).
Definition set_recon (f : ReconFlags → ReconFlags) (l : Local) : Local :=
  mkLocal (l_budget l) (l_pool l) (l_running l) (f (l_recon l)) (l_claims l) (l_evictions l).
Definition set_claims (k : claim_kind) (f : gset string → gset string) (l : Local) : Local :=
  mkLocal (l_budget l) (l_pool l) (l_running l) (l_recon l)
    (λ k', if decide (k' = k) then f (l_claims l k) else l_claims l k') (l_evictions l).
Definition set_evictions (f : list Z → list Z) (l : Local) : Local :=
  mkLocal (l_budget l) (l_pool l) (l_running l) (l_recon l) (l_claims l) (f (l_evictions l)).

Record World := mkWorld {
  w_db : RedisDb;
  w_local : Local;
  w_now : Z;
  w_step : nat;
  w_trace : list Event;
}.

Class Env := {
  env_elapsed : nat → nat;                       (** milliseconds an awaited call takes *)
  env_interfere_db : nat → RedisDb → RedisDb;    (** what others do to Redis before it *)
  env_interfere_local : nat → Local → Local;     (** what other requests do in this process *)
  env_fault : nat → Fault;
  env_pipe_error : nat → nat → bool;             (** the [i]-th command of a pipeline failed *)
  env_exec_null : nat → bool;                    (** [exec()] resolved to [null] *)
  env_uuid : nat → string;
  env_health : nat → string + HealthStatus;      (** an error message, or the reply *)
  env_runner : nat → option string;              (** [/sleep], [/wake]: [None] is a 2xx reply *)
  env_start : nat → StartFailure + StartRunnerResponse;
  env_lookup : nat → string + HttpResponse RunnerByInstanceResponse;
                                                 (** the request failed, or the worker's response *)
  env_worker : nat → string + HttpResponse unit; (** the same for a worker's other short calls *)
  env_leader : nat → bool;                       (** [leaderElection.isLeader] *)
  env_side : nat → option string;                (** relational-database writes: [None] succeeds *)
  env_owner : nat → bool;                        (** [isStillOwner()] *)
  env_cancelled : nat → bool;                    (** [isCancelled()] *)
}.

(** An environment with nothing else in it: calls succeed, nobody interferes. *)
Definition quiet_env (elapsed : nat → nat) (health : nat → string + HealthStatus)
    (start : nat → StartFailure + StartRunnerResponse) : Env := {|
  env_elapsed := elapsed; env_interfere_db := λ _ d, d; env_interfere_local := λ _ l, l;
  env_fault := λ _, NoFault; env_pipe_error := λ _ _, false; env_exec_null := λ _, false;
  env_uuid := λ n, show_int (Z.of_nat n); env_health := health; env_runner := λ _, None; env_start := start;
  env_lookup := λ _, inl ""; env_worker := λ _, inr (mkHttp 204 "" (inr tt)); env_leader := λ _, true;
  env_side := λ _, None; env_owner := λ _, true; env_cancelled := λ _, false;
|}.

Notation Svc := (M World Exn).

(** Time passes and others act: what happens while a call is awaited. *)
Definition tick `{!Env} (w : World) : World :=
  mkWorld (env_interfere_db (w_step w) (w_db w)) (env_interfere_local (w_step w) (w_local w))
    (w_now w + Z.of_nat (env_elapsed (w_step w))) (S (w_step w)) (w_trace w).

Definition log_event (e : Event) (w : World) : World :=
  mkWorld (w_db w) (w_local w) (w_now w) (w_step w) (w_trace w ++ [e]).
Definition set_db (d : RedisDb) (w : World) : World :=
  mkWorld d (w_local w) (w_now w) (w_step w) (w_trace w).
Definition set_local (f : Local → Local) (w : World) : World :=
  mkWorld (w_db w) (f (w_local w)) (w_now w) (w_step w) (w_trace w).
Definition set_now (t : Z) (w : World) : World :=
  mkWorld (w_db w) (w_local w) t (w_step w) (w_trace w).

(** One Redis command, script or transaction: atomic on the server. *)
Definition redis_call `{!Env} {A} (f : RedisDb → A * RedisDb) : Svc A := λ w,
  let w1 := tick w in
  let '(a, d) := f (w_db w1) in
  let done := log_event (EvRedis (w_db w1) d) (set_db d w1) in
  match env_fault (w_step w) with
  | NoFault => (inr a, done)
  | FailBefore msg => (inl (OtherError msg), w1)
  | FailAfter msg => (inl (OtherError msg), done)
  end.

(** A pipeline of reads, [None] when [exec()] resolved to [null]; every command
    has its own error, so a reply is the value read or [None]. *)
Definition pipeline_get `{!Env} {A} (lookup : RedisDb → string → option A) (keys : list string) :
    Svc (option (list (option A))) := λ w,
  let replies d := imap (λ i k, if env_pipe_error (w_step w) i then None else lookup d k) keys in
  redis_call (λ d, (if env_exec_null (w_step w) then None else Some (replies d), d)) w.

(** An HTTP call whose answer the environment gives; [ev] records what was sent. *)
Definition http_call `{!Env} {F A} (reply : nat → F + A) (exn : F → Exn) (ev : F + A → Event) : Svc A := λ w,
  let r := reply (w_step w) in
  (match r with inl f => inl (exn f) | inr a => inr a end, log_event (ev r) (tick w)).

Definition getHealth `{!Env} : Svc HealthStatus :=
  http_call env_health OtherError (λ r, EvHealth (match r with inl _ => None | inr h => Some h end)).
Definition runner_command `{!Env} (ev : Event) : Svc unit :=
  http_call (λ n, match env_runner n with None => inr tt | Some e => inl e end) OtherError (λ _, ev).
Definition startRunner `{!Env} (instanceId : string) : Svc StartRunnerResponse :=
  http_call env_start start_exn (EvStartRunner instanceId).
Definition side_call `{!Env} (what : string) : Svc unit :=
  http_call (λ n, match env_side n with None => inr tt | Some e => inl e end) OtherError (λ _, EvSide what).

(** [leaderElection.isLeader], [workerPool.getWorker(..)] and
    [memoryBudget.releaseInstanceReservations(..)], as the services call them *)
Definition isLeader `{!Env} : Svc bool := gets (λ w, env_leader (w_step w)).
Definition getWorkerNow (workerId : string) : Svc (option WorkerRecord) :=
  gets (λ w, getWorker workerId (l_pool (w_local w))).
Definition releaseHolds (id : string) : Svc unit := modify (set_local (set_budget (releaseInstanceReservations id))).

(** [delaySafe(ms, signal)] with [signal = AbortSignal.timeout(..)] firing at
    [deadline]: wakes after [ms], or when the signal fires if that is sooner. *)
Definition delaySafe `{!Env} (ms deadline : Z) : Svc unit := λ w,
  (inr tt, tick (set_now (Z.max (w_now w) (Z.min (w_now w + ms) deadline)) w)).

(** [Date.now()]. *)
Definition date_now : Svc Z := gets w_now.

(** The polling loops: [while (!signal.aborted) { body; await delaySafe(interval, signal) }]
    and what follows the loop.  [body] either leaves the loop with a value or goes on.
    Time advances by at least a millisecond per round when [interval > 0], so
    [S timeoutMs] rounds are enough. *)
Fixpoint poll_loop `{!Env} {S A} (fuel : nat) (deadline interval : Z) (body : S → Svc (S + A)) (timedOut : Svc A) (st : S) : Svc A :=
  match fuel with
  | O => throw OutOfFuel
  | Datatypes.S fuel' =>
      now ← date_now;
      if Z.leb deadline now then timedOut else
      r ← body st;
      match r with
      | inr a => mret a
      | inl st' => delaySafe interval deadline ;; poll_loop fuel' deadline interval body timedOut st'
      end
  end.
Definition poll_until `{!Env} {S A} (timeoutMs interval : Z) (body : S → Svc (S + A)) (timedOut : Svc A) (st : S) : Svc A :=
  now ← date_now;
  poll_loop (Datatypes.S (Z.to_nat timeoutMs)) (now + timeoutMs) interval body timedOut st.

(** [try { m } catch (err) { h }].  [OutOfFuel] is no JavaScript exception, so no
    handler sees it: a method that contains a [try] runs out of fuel whenever a loop
    inside it does. *)
Definition attempt {W A} (m : M W Exn A) (h : Exn → M W Exn A) : M W Exn A :=
  catch m (λ e, if decide (e = OutOfFuel) then throw e else h e).
(** [x => Some x] on the result *)
Definition found {W A} (m : M W Exn A) : M W Exn (option A) := a ← m; mret (Some a).
(** [await m.catch(() => {})] *)
Definition swallow {W} (m : M W Exn unit) : M W Exn unit := attempt m (λ _, mret tt).

(** ** SCAN and its patterns

    A full [SCAN MATCH] iteration reports every key present throughout that
    matches, possibly more than once, in no particular order.  In a pattern, [*]
    matches any text; a literal piece matches itself when it has no [*], [?], [[]
    or backslash.  The cursor iteration is one
    atomic call here, so keys created or deleted between two of its batches are
    seen as created or deleted before or after the whole iteration. *)
Definition glob_plain (s : string) : bool :=
  negb (has_char "*"%char s || has_char "?"%char s || has_char "["%char s || has_char "\"%char s).

Class RedisScan := {
  glob_match : string → string → bool;
  scan_keys : nat → string → list string → list string;
  scan_keys_spec n p ks k : k ∈ scan_keys n p ks ↔ k ∈ ks ∧ glob_match p k = true;
  glob_match_star l s : glob_plain l = true →
    glob_match (l +:+ "*") s = true ↔ ∃ t, s = l +:+ t;
  glob_match_star_star l m s : glob_plain l = true → glob_plain m = true →
    glob_match (l +:+ "*" +:+ m +:+ "*") s = true ↔ ∃ t u, s = l +:+ t +:+ m +:+ u;
}.

(** The cursor loop of SCAN, as one read of the matching keys. *)
Definition scanKeys `{!Env, !RedisScan} {A} (store : RedisDb → gmap string A) (pattern : string) : Svc (list string) := λ w,
  redis_call (λ d, (scan_keys (w_step w) pattern (map_to_list (store d)).*1, d)) w.

(** ** Keys *)
Lemma redisKey_cons prefix x xs : redisKey prefix (x :: xs) = prefix +:+ String colon (js_join ":" (x :: xs)).
Proof. done. Qed.

(** A matcher and a scan, for closed examples: [*] matches any text, every other
    character itself, and the scan keeps the order of the keys. *)
Fixpoint star_match (p s : string) {struct p} : bool :=
  match p with
  | EmptyString => bool_decide (s = "")
  | String c p' =>
      if bool_decide (c = "*"%char) then
        (fix any (s : string) : bool :=
           star_match p' s || match s with EmptyString => false | String _ s' => any s' end) s
      else match s with EmptyString => false | String a s' => bool_decide (a = c) && star_match p' s' end
  end.

Lemma star_match_star p s : star_match (String "*" p) s = true ↔ ∃ t u, s = t +:+ u ∧ star_match p u = true.
Proof.
  simpl. induction s as [|a s IH].
  - rewrite orb_false_r. split; [by exists "", ""|]. intros (t & u & Heq & Hm). destruct t; [|done]. change ("" +:+ u) with u in Heq. by subst.
  - rewrite orb_true_iff, IH. split.
    + intros [Hm|(t & u & -> & Hm)]; [by exists "", (String a s)|by exists (String a t), u].
    + intros (t & u & Heq & Hm). destruct t as [|b t]; [left; change ("" +:+ u) with u in Heq; by subst|].
      right. exists t, u. rewrite str_app_cons in Heq. by simplify_eq.
Qed.

Lemma star_match_plain l p s : has_char "*" l = false →
  star_match (l +:+ p) s = true ↔ ∃ u, s = l +:+ u ∧ star_match p u = true.
Proof.
  revert s. induction l as [|c l IH]; intros s Hl.
  { split; [by exists s|]. by intros (u & -> & ?). }
  simpl in Hl. rewrite orb_false_iff, bool_decide_eq_false in Hl. destruct Hl as [Hc Hl].
  rewrite str_app_cons. simpl. rewrite bool_decide_eq_false_2 by done.
  destruct s as [|a s]; [split; [done|by intros (u & ? & _)]|].
  rewrite andb_true_iff, bool_decide_eq_true, IH by done. split.
  - intros [-> (u & -> & Hu)]. by exists u.
  - intros (u & Heq & Hu). rewrite str_app_cons in Heq. simplify_eq. eauto.
Qed.

Lemma glob_plain_no_star l : glob_plain l = true → has_char "*" l = false.
Proof. unfold glob_plain. rewrite negb_true_iff, !orb_false_iff. tauto. Qed.

Lemma star_match_all s : star_match "*" s = true.
Proof. apply star_match_star. exists s, "". by rewrite str_app_nil_r. Qed.

Lemma star_glob_1 l s : glob_plain l = true → star_match (l +:+ "*") s = true ↔ ∃ t, s = l +:+ t.
Proof.
  intros Hl%glob_plain_no_star. rewrite star_match_plain by done. split; [naive_solver|].
  intros [t ->]. exists t. split; [done|apply star_match_all].
Qed.

Lemma star_glob_2 l m s : glob_plain l = true → glob_plain m = true →
  star_match (l +:+ "*" +:+ m +:+ "*") s = true ↔ ∃ t u, s = l +:+ t +:+ m +:+ u.
Proof.
  intros Hl%glob_plain_no_star Hm. rewrite star_match_plain by done.
  setoid_rewrite star_match_star. setoid_rewrite (star_glob_1 m); [|done]. naive_solver.
Qed.

#[export] Instance star_scan : RedisScan | 100.
Proof.
  refine {| glob_match := star_match; scan_keys := λ _ p ks, List.filter (star_match p) ks;
            glob_match_star := star_glob_1; glob_match_star_star := star_glob_2 |}.
  intros n p ks k. by rewrite !list_elem_of_In, filter_In.
Defined.

(** ** What a method does to the world, compositionally

    [preserves R m]: from any world, [m] leads to an [R]-related one, whatever the
    environment does.  [TraceRel R ok] lists what a preorder must allow for the
    methods to preserve it: waiting, writing to Redis, and the events that satisfy
    [ok]; [LocalRel R] is for methods that also change in-process state, and [ServicesRel R]
    for those that change the parts of it that the services own: capacity holds, running
    moves and past evictions. *)
Definition preserves (R : relation World) {A} (m : Svc A) : Prop := ∀ w, R w (m w).2.

Class TraceRel `{!Env} (R : relation World) (ok : Event → Prop) := {
  trace_rel_preorder :: PreOrder R;
  trace_rel_tick w : R w (tick w);
  trace_rel_redis w d : ok (EvRedis (w_db w) d) → R w (log_event (EvRedis (w_db w) d) (set_db d w));
  trace_rel_now w t : (w_now w ≤ t)%Z → R w (set_now t w);
  trace_rel_event w e : ok e → R w (log_event e w);
}.
Class LocalRel (R : relation World) := local_rel w f : R w (set_local f w).
Class ServicesRel (R : relation World) := {
  services_budget w f : R w (set_local (set_budget f) w);
  services_running w f : R w (set_local (set_running f) w);
  services_evictions w f : R w (set_local (set_evictions f) w);
}.
#[export] Instance local_services R : LocalRel R → ServicesRel R.
Proof. intros HR. split; intros; apply local_rel. Qed.

Section preserves.
Context `{!Env} (R : relation World) (ok : Event → Prop) `{!TraceRel R ok}.

Lemma preserves_ret {A} (a : A) : preserves R (mret a).
Proof. intros w. reflexivity. Qed.
Lemma preserves_throw {A} e : preserves R (throw (A := A) e).
Proof. intros w. reflexivity. Qed.
Lemma preserves_gets {A} (f : World → A) : preserves R (gets f).
Proof. intros w. reflexivity. Qed.
Lemma preserves_now : preserves R date_now.
Proof. intros w. reflexivity. Qed.
Lemma preserves_local `{!LocalRel R} f : preserves R (modify (set_local f)).
Proof. intros w. apply local_rel. Qed.
Lemma preserves_budget `{!ServicesRel R} f : preserves R (modify (set_local (set_budget f))).
Proof. intros w. apply services_budget. Qed.
Lemma preserves_running `{!ServicesRel R} f : preserves R (modify (set_local (set_running f))).
Proof. intros w. apply services_running. Qed.
Lemma preserves_evictions `{!ServicesRel R} f : preserves R (modify (set_local (set_evictions f))).
Proof. intros w. apply services_evictions. Qed.
Lemma preserves_delay ms t : preserves R (delaySafe ms t).
Proof. intros w. etransitivity; [|apply trace_rel_tick]. apply trace_rel_now. lia. Qed.
Lemma preserves_event e : ok e → preserves R (modify (log_event e)).
Proof. intros He w. by apply trace_rel_event. Qed.

Lemma preserves_bind {A B} (m : Svc A) (k : A → Svc B) :
  preserves R m → (∀ a, preserves R (k a)) → preserves R (m ≫= k).
Proof.
  intros Hm Hk w. unfold mbind, M_bind. specialize (Hm w).
  destruct (m w) as [[e|a] w']; [done|]. etransitivity; [done|apply Hk].
Qed.
Lemma preserves_catch {A} (m : Svc A) h : preserves R m → (∀ e, preserves R (h e)) → preserves R (catch m h).
Proof.
  intros Hm Hh w. unfold catch. specialize (Hm w).
  destruct (m w) as [[e|a] w']; [|done]. etransitivity; [done|apply Hh].
Qed.
Lemma preserves_finally {A} (m : Svc A) f : preserves R m → preserves R f → preserves R (finally m f).
Proof.
  intros Hm Hf w. unfold finally. specialize (Hm w). destruct (m w) as [r w'].
  specialize (Hf w'). destruct (f w') as [[e|[]] w'']; simpl in *; by etransitivity.
Qed.
Lemma preserves_when c m : preserves R m → preserves R (when c m).
Proof. destruct c; simpl; [auto|]. intros _. apply preserves_ret. Qed.
Lemma preserves_for_each_in {A} (xs : list A) f : (∀ x, x ∈ xs → preserves R (f x)) → preserves R (for_each xs f).
Proof.
  induction xs as [|x xs IH]; simpl; intros Hf; [apply preserves_ret|].
  apply preserves_bind; [apply Hf; set_solver|]. intros _. apply IH. set_solver.
Qed.
Lemma preserves_for_each {A} (xs : list A) f : (∀ x, preserves R (f x)) → preserves R (for_each xs f).
Proof. intros Hf. by apply preserves_for_each_in. Qed.

Lemma preserves_redis {A} (f : RedisDb → A * RedisDb) : (∀ d, ok (EvRedis d (f d).2)) → preserves R (redis_call f).
Proof.
  intros Hf w. unfold redis_call. specialize (Hf (w_db (tick w))). destruct (f _) as [a d].
  assert (R w (log_event (EvRedis (w_db (tick w)) d) (set_db d (tick w)))) as Hdone.
  { etransitivity; [apply trace_rel_tick|]. by apply trace_rel_redis. }
  destruct (env_fault (w_step w)); [done|apply trace_rel_tick|done].
Qed.
Lemma preserves_pipeline {A} (lookup : RedisDb → string → option A) keys :
  (∀ d, ok (EvRedis d d)) → preserves R (pipeline_get lookup keys).
Proof. intros HG w. apply preserves_redis. intros d. apply HG. Qed.
Lemma preserves_scan `{!RedisScan} {A} (store : RedisDb → gmap string A) p :
  (∀ d, ok (EvRedis d d)) → preserves R (scanKeys store p).
Proof. intros HG w. apply preserves_redis. intros d. apply HG. Qed.
Lemma preserves_http {F A} (reply : nat → F + A) exn ev :
  (∀ n, ok (ev (reply n))) → preserves R (http_call reply exn ev).
Proof. intros Hev w. simpl. etransitivity; [apply trace_rel_tick|]. by apply trace_rel_event. Qed.

Lemma preserves_poll {S A} fuel deadline interval (body : S → Svc (S + A)) timedOut st :
  (∀ st, preserves R (body st)) → preserves R timedOut →
  preserves R (poll_loop fuel deadline interval body timedOut st).
Proof.
  intros Hb Ht. revert st. induction fuel as [|fuel IH]; intros st; simpl; [apply preserves_throw|].
  apply preserves_bind; [apply preserves_now|]. intros now. destruct (Z.leb deadline now); [done|].
  apply preserves_bind; [apply Hb|]. intros [st'|a]; [|apply preserves_ret].
  apply preserves_bind; [apply preserves_delay|]. intros _. apply IH.
Qed.
Lemma preserves_poll_until {S A} timeoutMs interval (body : S → Svc (S + A)) timedOut st :
  (∀ st, preserves R (body st)) → preserves R timedOut →
  preserves R (poll_until timeoutMs interval body timedOut st).
Proof. intros Hb Ht. apply preserves_bind; [apply preserves_now|]. intros now. by apply preserves_poll. Qed.
Lemma preserves_scan_bind `{!RedisScan} {A B} (store : RedisDb → gmap string A) p (f : list string → Svc B) :
  (∀ d, ok (EvRedis d d)) → (∀ ks, (∀ k, k ∈ ks → glob_match p k = true) → preserves R (f ks)) →
  preserves R (scanKeys store p ≫= f).
Proof.
  intros Hd Hf w. unfold mbind, M_bind. pose proof (preserves_scan store p Hd w) as Hs.
  unfold scanKeys, redis_call in *. destruct (env_fault (w_step w)); try done.
  etransitivity; [exact Hs|]. apply Hf. intros k Hk. cbn [fst] in Hk. by apply scan_keys_spec in Hk as [_ ?].
Qed.
End preserves.

Create HintDb preserves.
#[export] Hint Resolve preserves_ret preserves_throw preserves_gets preserves_now preserves_budget preserves_running preserves_evictions preserves_local preserves_delay
  preserves_event preserves_bind preserves_catch preserves_finally preserves_when preserves_for_each preserves_redis
  preserves_pipeline preserves_scan preserves_http preserves_poll_until : preserves.
#[export] Hint Extern 2 (preserves _ (if ?b then _ else _)) => destruct b : preserves.
#[export] Hint Extern 2 (preserves _ (match ?x with _ => _ end)) => destruct x : preserves.
#[export] Hint Extern 0 (TraceRel _ _) => typeclasses eauto : preserves.
#[export] Hint Extern 0 (LocalRel _) => typeclasses eauto : preserves.
#[export] Hint Extern 0 (ServicesRel _) => typeclasses eauto : preserves.

Ltac solve_preserves := eauto 40 with preserves.

(** *** Guarantees

    [guar G m]: every event [m] adds to the trace satisfies [G].  With [G] a
    condition on single Redis commands this is the guarantee half of a
    rely-guarantee argument. *)
Definition trace_adds (G : Event → Prop) (w w' : World) : Prop := ∃ l, w_trace w' = w_trace w ++ l ∧ Forall G l.
Notation guar G := (preserves (trace_adds G)).

Lemma trace_adds_same G w w' : w_trace w' = w_trace w → trace_adds G w w'.
Proof. intros Heq. exists []. by rewrite Heq, app_nil_r. Qed.

#[export] Instance trace_adds_rel `{!Env} G : TraceRel (trace_adds G) G.
Proof.
  split; [|intros; by apply trace_adds_same| |intros; by apply trace_adds_same|].
  - split; [intros w; by apply trace_adds_same|].
    intros w1 w2 w3 (l & Hl & HG) (l' & Hl' & HG'). exists (l ++ l').
    split; [by rewrite Hl', Hl, app_assoc|by apply Forall_app].
  - intros w d He. exists [EvRedis (w_db w) d]. split; [done|by constructor].
  - intros w e He. exists [e]. split; [done|by constructor].
Qed.
#[export] Instance trace_adds_local G : LocalRel (trace_adds G).
Proof. intros w f. by apply trace_adds_same. Qed.

(** A guarantee bounds the whole trace of a run that starts with an empty one. *)
Lemma guar_run G {A} (m : Svc A) w : guar G m → w_trace w = [] → Forall G (w_trace (m w).2).
Proof. intros Hm Hw. destruct (Hm w) as (l & Hl & HG). by rewrite Hl, Hw. Qed.

(** *** Rely and guarantee on the Redis contents

    When what others do to Redis respects a preorder [S], a method whose own
    commands respect [S] takes the contents along [S]. *)
Class Rely `{!Env} (S : relation RedisDb) : Prop := rely n d : S d (env_interfere_db n d).
Definition db_rel (S : relation RedisDb) (w w' : World) : Prop := S (w_db w) (w_db w').
Definition db_event (S : relation RedisDb) (e : Event) : Prop :=
  match e with EvRedis d d' => S d d' | _ => True end.

#[export] Instance db_rel_rel `{!Env} S `{!PreOrder S, !Rely S} : TraceRel (db_rel S) (db_event S).
Proof.
  split; unfold db_rel.
  - split; [intros w; reflexivity|]. intros w1 w2 w3 H12 H23. by etransitivity.
  - intros w. apply rely.
  - done.
  - intros w t _. reflexivity.
  - intros w e _. reflexivity.
Qed.
#[export] Instance db_rel_local S `{!PreOrder S} : LocalRel (db_rel S).
Proof. intros w f. unfold db_rel. reflexivity. Qed.

(** *** Growth of the trace, and time *)
Definition trace_grows (w w' : World) : Prop := w_trace w `prefix_of` w_trace w' ∧ (w_now w ≤ w_now w')%Z.
Notation grows := (preserves trace_grows).
Definition any_event (e : Event) : Prop := True.
Lemma any_event_ok e : any_event e.
Proof. done. Qed.
#[export] Hint Resolve any_event_ok : preserves.

#[export] Instance trace_grows_rel `{!Env} : TraceRel trace_grows any_event.
Proof.
  split.
  - split; [intros w; split; [done|lia]|]. intros w1 w2 w3 [H12 ?] [H23 ?]. split; [by transitivity (w_trace w2)|lia].
  - intros w. split; [done|simpl; lia].
  - intros w d _. split; [by eexists|simpl; lia].
  - intros w t Ht. by split.
  - intros w e _. split; [by exists [e]|simpl; lia].
Qed.
#[export] Instance trace_grows_local : LocalRel trace_grows.
Proof. intros w f. split; [done|simpl; lia]. Qed.

(** *** Justified traces

    A step whose events satisfy [G] keeps a trace justified when [G] gives [J] after
    everything that has happened so far. *)
Section justified.
Context (J : list Event → Event → Prop).

Lemma wp_justified {A} (m : Svc A) G w :
  guar G m → justified J (w_trace w) → (∀ l e, w_trace w `prefix_of` l → G e → J l e) →
  wp m (λ _ w', justified J (w_trace w') ∧ w_trace w `prefix_of` w_trace w')
       (λ _ w', justified J (w_trace w')) w.
Proof.
  intros Hm HJ HG. destruct (Hm w) as (l & Hl & Hall).
  assert (justified J (w_trace (m w).2)) as HJ'.
  { rewrite Hl. apply justified_app; [done|]. intros l1 e l2 ->. apply HG; [by apply prefix_app_r|].
    rewrite Forall_app, Forall_cons in Hall. tauto. }
  unfold wp. destruct (m w) as [[e|a] w']; [done|]. split; [done|]. exists l. exact Hl.
Qed.

(** The same as a relation on worlds, for methods that run while the facts [F]
    about the past hold; [preserves_learn] is how a method comes to know more. *)
Definition justifies (F : list Event → Prop) (w w' : World) : Prop :=
  F (w_trace w) → justified J (w_trace w) → F (w_trace w') ∧ justified J (w_trace w').
Class Stable (F : list Event → Prop) : Prop := stable l l' : F l → F (l ++ l').

#[export] Instance stable_and F F' : Stable F → Stable F' → Stable (λ l, F l ∧ F' l).
Proof. intros HF HF' l l' []. split; by apply stable. Qed.
#[export] Instance stable_pure (P : Prop) : Stable (λ _, P).
Proof. by intros l l' ?. Qed.

Lemma justifies_event F w w' e :
  Stable F → (∀ l, F l → J l e) → w_trace w' = w_trace w ++ [e] → justifies F w w'.
Proof.
  intros HF He Htr HFw HJ. rewrite Htr. split; [by apply stable|]. apply justified_snoc; auto.
Qed.
(** An event that may happen whenever [F] holds. *)
Definition covered (F : list Event → Prop) (e : Event) : Prop := ∀ l, F l → J l e.
#[export] Instance justifies_rel `{!Env} F `{!Stable F} : TraceRel (justifies F) (covered F).
Proof.
  split; [split|..]; try by unfold justifies.
  - unfold justifies. intros w1 w2 w3 H12 H23 ??. destruct H12; auto.
  - intros w d He. by apply (justifies_event F _ _ (EvRedis (w_db w) d)).
  - intros w e He. by apply (justifies_event F _ _ e).
Qed.
#[export] Instance justifies_local F : LocalRel (justifies F).
Proof. by intros w f. Qed.

Lemma preserves_learn {A B} F (F' : A → list Event → Prop) (m : Svc A) (k : A → Svc B) :
  preserves (justifies F) m →
  (∀ a w w', F (w_trace w) → F (w_trace w') → m w = (inr a, w') → F' a (w_trace w')) →
  (∀ a, preserves (justifies (λ l, F l ∧ F' a l)) (k a)) →
  preserves (justifies F) (m ≫= k).
Proof.
  intros Hm Hl Hk w HF HJ. specialize (Hm w HF HJ). unfold mbind, M_bind.
  destruct (m w) as [[e|a] w'] eqn:Hrun; [done|]. destruct Hm as [HF' HJ'].
  destruct (Hk a w') as [[] ?]; [|done..]. split; [done|]. by eapply Hl.
Qed.
Lemma justified_run {A} F (m : Svc A) w :
  preserves (justifies F) m → F [] → w_trace w = [] → justified J (w_trace (m w).2).
Proof. intros Hm HF Hw. apply Hm; rewrite Hw; [done|apply justified_nil]. Qed.
End justified.

(** *** In-process state, when no other request changes it *)
Class QuietLocal `{!Env} : Prop := quiet_local n l : env_interfere_local n l = l.
Definition same_local (w w' : World) : Prop := w_local w' = w_local w.

#[export] Instance same_local_rel `{!Env, !QuietLocal} : TraceRel same_local any_event.
Proof.
  split; [|intros w; apply quiet_local|done..].
  split; [by intros w|]. intros w1 w2 w3 H12 H23. unfold same_local in *. congruence.
Qed.

(** ** Loops end: no method runs out of fuel *)
Definition total {A} (m : Svc A) : Prop := ∀ w, (m w).1 ≠ inl OutOfFuel.

Section total.
Context `{!Env}.

Lemma total_ret {A} (a : A) : total (mret a).
Proof. by intros w. Qed.
Lemma total_throw {A} e : e ≠ OutOfFuel → total (throw (A := A) e).
Proof. intros He w [= ?]. done. Qed.
Lemma total_gets {A} (f : World → A) : total (gets f).
Proof. by intros w. Qed.
Lemma total_now : total date_now.
Proof. by intros w. Qed.
Lemma total_modify f : total (modify f).
Proof. by intros w. Qed.
Lemma total_delay ms t : total (delaySafe ms t).
Proof. by intros w. Qed.
Lemma total_bind {A B} (m : Svc A) (k : A → Svc B) : total m → (∀ a, total (k a)) → total (m ≫= k).
Proof.
  intros Hm Hk w. unfold mbind, M_bind. specialize (Hm w). destruct (m w) as [[e|a] w']; simpl in *; [congruence|apply Hk].
Qed.
Lemma total_catch {A} (m : Svc A) h : total m → (∀ e, e ≠ OutOfFuel → total (h e)) → total (catch m h).
Proof.
  intros Hm Hh w. unfold catch. specialize (Hm w). destruct (m w) as [[e|a] w']; simpl in *; [|done].
  apply Hh. congruence.
Qed.
Lemma total_finally {A} (m : Svc A) f : total m → total f → total (finally m f).
Proof.
  intros Hm Hf w. unfold finally. specialize (Hm w). destruct (m w) as [r w'].
  specialize (Hf w'). destruct (f w') as [[e|[]] w'']; simpl in *; congruence.
Qed.
Lemma total_when c m : total m → total (when c m).
Proof. by destruct c. Qed.
Lemma total_for_each {A} (xs : list A) f : (∀ x, total (f x)) → total (for_each xs f).
Proof. intros Hf. induction xs as [|x xs IH]; simpl; [apply total_ret|]. by apply total_bind. Qed.
Lemma total_redis {A} (f : RedisDb → A * RedisDb) : total (redis_call f).
Proof. intros w. unfold redis_call. destruct (f _). by destruct (env_fault (w_step w)). Qed.
Lemma total_pipeline {A} (lookup : RedisDb → string → option A) keys : total (pipeline_get lookup keys).
Proof. intros w. apply total_redis. Qed.
Lemma total_scan `{!RedisScan} {A} (store : RedisDb → gmap string A) p : total (scanKeys store p).
Proof. intros w. apply total_redis. Qed.
Lemma total_http {F A} (reply : nat → F + A) exn ev : (∀ f, exn f ≠ OutOfFuel) → total (http_call reply exn ev).
Proof. intros He w. simpl. destruct (reply _); [|done]. intros [= ?]. by eapply He. Qed.

Lemma poll_loop_total {S A} fuel deadline interval (body : S → Svc (S + A)) timedOut st w :
  (0 < interval)%Z → (∀ st, total (body st)) → (∀ st, grows (body st)) → total timedOut →
  (Z.max 0 (deadline - w_now w) < Z.of_nat fuel)%Z →
  (poll_loop fuel deadline interval body timedOut st w).1 ≠ inl OutOfFuel.
Proof.
  intros Hi Hb Hg Ht. revert st w. induction fuel as [|fuel IH]; intros st w Hfuel; [lia|].
  cbn [poll_loop]. unfold mbind, M_bind, date_now, gets.
  destruct (Z.leb_spec deadline (w_now w)) as [Hd|Hd]; [apply Ht|].
  pose proof (Hb st w) as Hb1. pose proof (Hg st w) as [_ Hg1].
  destruct (body st w) as [[e|[st'|a]] w1]; simpl in *; [congruence| |done].
  apply IH. simpl. lia.
Qed.

(** With a positive polling interval every polling loop ends. *)
Lemma total_poll_until {S A} timeoutMs interval (body : S → Svc (S + A)) timedOut st :
  (0 < interval)%Z → (∀ st, total (body st)) → (∀ st, grows (body st)) → total timedOut →
  total (poll_until timeoutMs interval body timedOut st).
Proof.
  intros Hi Hb Hg Ht w. unfold poll_until, mbind, M_bind, date_now, gets.
  apply poll_loop_total; auto. lia.
Qed.
End total.

Create HintDb total.
#[export] Hint Resolve total_ret total_gets total_now total_modify total_delay total_bind total_catch total_finally total_when
  total_for_each total_redis total_pipeline total_scan total_http total_poll_until : total.
#[export] Hint Extern 1 (total (throw _)) => apply total_throw; first [done | congruence] : total.
#[export] Hint Extern 2 (total (if ?b then _ else _)) => destruct b : total.
#[export] Hint Extern 2 (total (match ?x with _ => _ end)) => destruct x : total.
#[export] Hint Extern 1 (OtherError _ ≠ OutOfFuel) => done : total.

Ltac solve_total := eauto 40 with total preserves.

(** ** [try] and [catch] *)
Section attempt.
Context `{!Env}.

Lemma preserves_attempt (R : relation World) ok `{!TraceRel R ok} {A} (m : Svc A) h :
  preserves R m → (∀ e, preserves R (h e)) → preserves R (attempt m h).
Proof. intros Hm Hh. unfold attempt. solve_preserves. Qed.
Lemma preserves_swallow (R : relation World) ok `{!TraceRel R ok} (m : Svc unit) : preserves R m → preserves R (swallow m).
Proof. intros Hm. apply (preserves_attempt R ok); solve_preserves. Qed.
Lemma preserves_found (R : relation World) ok `{!TraceRel R ok} {A} (m : Svc A) : preserves R m → preserves R (found m).
Proof. intros Hm. unfold found. solve_preserves. Qed.

Lemma total_attempt {A} (m : Svc A) h : total m → (∀ e, e ≠ OutOfFuel → total (h e)) → total (attempt m h).
Proof. intros Hm Hh. apply total_catch; [done|]. intros e He. rewrite decide_False by done. auto. Qed.
Lemma total_swallow (m : Svc unit) : total m → total (swallow m).
Proof. intros Hm. apply total_attempt; [done|]. intros e _. apply total_ret. Qed.
Lemma total_found {A} (m : Svc A) : total m → total (found m).
Proof. intros Hm. unfold found. solve_total. Qed.

(** [m] returns, whatever the world. *)
Definition returns {A} (m : Svc A) : Prop := ∀ w, ∃ a, (m w).1 = inr a.

Lemma returns_bind {A B} (m : Svc A) (k : A → Svc B) : returns m → (∀ a, returns (k a)) → returns (m ≫= k).
Proof.
  intros Hm Hk w. unfold mbind, M_bind. destruct (Hm w) as [a Ha].
  destruct (m w) as [r w']; simpl in Ha; subst r. apply Hk.
Qed.
Lemma returns_attempt {A} (m : Svc A) h : total m → (∀ e, returns (h e)) → returns (attempt m h).
Proof.
  intros Hm Hh w. unfold attempt, catch. specialize (Hm w). destruct (m w) as [[e|a] w']; simpl in *; [|by exists a].
  rewrite decide_False by congruence. apply Hh.
Qed.
Lemma returns_ret {A} (a : A) : returns (mret a).
Proof. intros w. by exists a. Qed.
Lemma returns_swallow (m : Svc unit) : total m → returns (swallow m).
Proof. intros Hm. apply returns_attempt; [done|]. intros e. apply returns_ret. Qed.
End attempt.

#[export] Hint Resolve preserves_attempt preserves_swallow preserves_found : preserves.
#[export] Hint Resolve total_attempt total_swallow total_found : total.

(** ** Inverting runs that returned *)
Section returned.
Context `{!Env}.

Lemma redis_returned {A} (f : RedisDb → A * RedisDb) w a w' :
  redis_call f w = (inr a, w') →
  let d := w_db (tick w) in
  a = (f d).1 ∧ w' = log_event (EvRedis d (f d).2) (set_db (f d).2 (tick w)).
Proof.
  unfold redis_call. cbn zeta. destruct (f (w_db (tick w))) as [a' d'].
  destruct (env_fault (w_step w)); [|done|done]. by intros [= -> <-].
Qed.

Lemma scan_returned `{!RedisScan} {A} (store : RedisDb → gmap string A) p w ks w' :
  scanKeys store p w = (inr ks, w') →
  let d := w_db (tick w) in
  ks = scan_keys (w_step w) p (map_to_list (store d)).*1 ∧ w' = log_event (EvRedis d d) (set_db d (tick w)).
Proof. exact (redis_returned _ w ks w'). Qed.

Lemma poll_loop_returned {S A} fuel deadline interval (body : S → Svc (S + A)) timedOut (Q : A → World → Prop) st w a w' :
  (∀ st w a w', body st w = (inr (inr a), w') → Q a w') →
  (∀ w a w', timedOut w = (inr a, w') → Q a w') →
  poll_loop fuel deadline interval body timedOut st w = (inr a, w') → Q a w'.
Proof.
  intros Hb Ht. revert st w. induction fuel as [|fuel IH]; intros st w; [done|]. cbn [poll_loop].
  intros (now & w1 & _ & Hrun)%bind_returned. destruct (Z.leb deadline now); [by eapply Ht|].
  apply bind_returned in Hrun as ([st'|a'] & w2 & Hbody & Hrun).
  - apply bind_returned in Hrun as ([] & w3 & _ & Hrun). by eapply IH.
  - injection Hrun as -> <-. by eapply Hb.
Qed.

Lemma poll_until_returned {S A} timeoutMs interval (body : S → Svc (S + A)) timedOut (Q : A → World → Prop) st w a w' :
  (∀ st w a w', body st w = (inr (inr a), w') → Q a w') →
  (∀ w a w', timedOut w = (inr a, w') → Q a w') →
  poll_until timeoutMs interval body timedOut st w = (inr a, w') → Q a w'.
Proof. intros Hb Ht (now & w1 & _ & Hrun)%bind_returned. by eapply poll_loop_returned. Qed.
End returned.
