(* ===== verification/ModelName.v ===== *)
(** * Model names (control-plane/src/utils/model-name.ts)

    Every route checks the model name it is given before using it in a Redis
    pattern; the admitted names contain no separator and no pattern character. *)
From stdpp Require Import base tactics list strings.
From Stdlib Require Import ZArith Lia Ascii.
From S2P Require Import Prelude Js Types Errors Store.

(** [[A-Za-z0-9._/-]] *)
Definition name_char (c : ascii) : bool :=
  let n := nat_of_ascii c in
  (Nat.leb 65 n && Nat.leb n 90) || (Nat.leb 97 n && Nat.leb n 122) || (Nat.leb 48 n && Nat.leb n 57) ||
  bool_decide (c = "."%char) || bool_decide (c = "_"%char) || bool_decide (c = "/"%char) || bool_decide (c = "-"%char).

Fixpoint all_chars (f : ascii → bool) (s : string) : bool :=
  match s with EmptyString => true | String c s' => f c && all_chars f s' end.

(** [MODEL_NAME_PATTERN.test(modelName)] with [/^[A-Za-z0-9._/-]{1,200}$/] *)
Definition MODEL_NAME_PATTERN (modelName : string) : bool :=
  all_chars name_char modelName && Nat.leb 1 (str_length modelName) && Nat.leb (str_length modelName) 200.

Definition assertValidModelName {W} (modelName : string) : M W Exn unit :=
  if MODEL_NAME_PATTERN modelName then mret tt
  else throw (CPError (invalidRequest "modelName must match ^[A-Za-z0-9._/-]{1,200}$")).

Definition slash_message : string :=
  "modelName must not contain '/' for an oip-protocol runner: the KServe V2 surface routes " +:+
  "POST /oip/v2/models/{model}/infer by a single path segment, so a name with a slash would " +:+
  "be listed but unroutable".

Definition assertModelNameRoutableForProtocol {W} (modelName : string) (protocol : Protocol) : M W Exn unit :=
  if bool_decide (protocol = Protocol.oip) && has_char "/" modelName then throw (CPError (invalidRequest slash_message))
  else mret tt.

(** ** Lemmas *)
Lemma all_chars_no c f s : f c = false → all_chars f s = true → has_char c s = false.
Proof.
  intros Hc. induction s as [|a s IH]; simpl; [done|].
  rewrite andb_true_iff, orb_false_iff, bool_decide_eq_false. intros [Ha Hs]. split; [congruence|auto].
Qed.

Lemma valid_name_chars name c : MODEL_NAME_PATTERN name = true → name_char c = false → has_char c name = false.
Proof.
  unfold MODEL_NAME_PATTERN. rewrite !andb_true_iff. intros [[Hall _] _] Hc. by eapply all_chars_no.
Qed.

Lemma valid_name_no_colon name : MODEL_NAME_PATTERN name = true → has_char colon name = false.
Proof. intros H. by apply valid_name_chars. Qed.

Lemma valid_name_plain name : MODEL_NAME_PATTERN name = true → glob_plain name = true.
Proof.
  intros H. unfold glob_plain. by rewrite !(valid_name_chars name) by done.
Qed.
