(* ===== verification/Requests.v ===== *)
(** * Request bodies of the model routes (control-plane/src/routes/models.ts)

    What POST /api/v1/models, PUT /api/v1/models/:modelName and the move route accept as
    their JSON body, check by check in the code's order.  A text is a sequence of
    characters, so lengths agree with JavaScript's on texts without surrogate pairs. *)
From stdpp Require Import base tactics list strings.
From Stdlib Require Import ZArith Lia Ascii.
From S2P Require Import Prelude Js Paths Types Errors ModelName.

(** [body?.key]: only an object has the fields the routes ask for. *)
Definition body_get (body : json) (key : string) : option json :=
  match body with JObj fields => obj_get fields key | _ => None end.

(** [n <= 0], [n < 1] *)
Definition num_le_0 (n : jsnum) : bool := match n with NumInt z => Z.leb z 0 | NumOther f => Z.ltb f 0 end.
Definition num_lt_1 (n : jsnum) : bool := match n with NumInt z => Z.ltb z 1 | NumOther f => Z.ltb f 1 end.

(** [/^[A-Za-z0-9_.-]+$/] *)
Definition module_char (c : ascii) : bool := name_char c && negb (bool_decide (c = "/"%char)).
Definition RUNTIME_MODULE_PATTERN (s : string) : bool := all_chars module_char s && Nat.leb 1 (str_length s).
Definition MAX_ENGINE_ARGS_COUNT : nat := 128.
Definition MAX_ENGINE_ARG_LENGTH : nat := 512.

(** What the repository is given. *)
Record ModelParams := mkParams {
  mp_name : string;
  mp_runnerType : string;
  mp_modelPath : string;
  mp_requiredMemory : jsnum;
  mp_deviceType : option json;
  mp_tensorParallel : option jsnum;
  mp_engineConfig : option json;
  mp_engineArgs : option (list string);
  mp_runtimeModule : option string;
  mp_servedModelName : option string;
  mp_displayName : option string;
  mp_pinned : option json;
}.

Section validation.
Context {W : Type} (cwd weightsDir : string) (body : json).
Notation Check A := (M W Exn A).
Definition reject {A} (msg : string) : Check A := throw (CPError (invalidRequest msg)).

Definition required_message (fields : string) : string :=
  fields +:+ "runnerType (string), modelPath (string), and requiredMemory (positive number) are required".
(** The required fields, [modelName] apart. *)
Definition check_required (msg : string) : Check (string * string * jsnum) :=
  match is_nonempty_string (body_get body "runnerType"), is_nonempty_string (body_get body "modelPath"),
        body_get body "requiredMemory" with
  | Some rt, Some path, Some (JNum n) => if num_le_0 n then reject msg else mret (rt, path, n)
  | _, _, _ => reject msg
  end.
Definition check_path (path : string) : Check unit :=
  if isContainedIn cwd path weightsDir then mret tt
  else reject "modelPath must be an absolute path inside the weights directory".
Definition tensor_message : string := "tensorParallel must be a positive integer".
(** Deploy: any number from 1 on; update: an integer from 1 on. *)
Definition check_tensorParallel : Check (option jsnum) :=
  match body_get body "tensorParallel" with
  | None => mret None
  | Some (JNum n) => if num_lt_1 n then reject tensor_message else mret (Some n)
  | Some _ => reject tensor_message
  end.
Definition check_tensorParallel_update : Check (option jsnum) :=
  match body_get body "tensorParallel" with
  | Some (JNum (NumInt z)) => if Z.ltb z 1 then reject tensor_message else mret (Some (NumInt z))
  | _ => reject tensor_message
  end.
(** A text that is absent or matches [pattern]. *)
Definition check_text (key : string) (pattern : string → bool) (msg : string) : Check (option string) :=
  match body_get body key with
  | None => mret None
  | Some (JStr s) => if pattern s then mret (Some s) else reject msg
  | Some _ => reject msg
  end.
Definition strings_of (l : list json) : option (list string) := mapM (λ v, match v with JStr s => Some s | _ => None end) l.
Definition check_engineArgs : Check (option (list string)) :=
  match body_get body "engineArgs" with
  | None => mret None
  | Some (JArr l) =>
      match strings_of l with
      | None => reject "engineArgs must be an array of strings"
      | Some args =>
          if Nat.ltb MAX_ENGINE_ARGS_COUNT (length args) then reject "engineArgs must contain at most 128 elements"
          else if existsb (λ a, Nat.ltb MAX_ENGINE_ARG_LENGTH (str_length a)) args
          then reject "each engineArgs element must be at most 512 characters" else mret (Some args)
      end
  | Some _ => reject "engineArgs must be an array of strings"
  end.
Definition check_displayName : Check (option string) :=
  match body_get body "displayName" with
  | None => mret None
  | Some (JStr s) =>
      let trimmed := js_trim s in
      if Nat.eqb (str_length trimmed) 0 || Nat.ltb 200 (str_length trimmed)
      then reject "displayName must be 1–200 characters when provided" else mret (Some trimmed)
  | Some _ => reject "displayName must be a string"
  end.
(** [runtimeModule must match ^[A-Za-z0-9_.-]+$ (e.g. "vllm-0.21")] *)
Definition module_message : string :=
  let quote := String (ascii_of_nat 34) "" in
  "runtimeModule must match ^[A-Za-z0-9_.-]+$ (e.g. " +:+ quote +:+ "vllm-0.21" +:+ quote +:+ ")".
Definition check_optional : Check (option string * option (list string) * option string * option string) :=
  runtimeModule ← check_text "runtimeModule" RUNTIME_MODULE_PATTERN module_message;
  engineArgs ← check_engineArgs;
  servedModelName ← check_text "servedModelName" MODEL_NAME_PATTERN "servedModelName must match ^[A-Za-z0-9._/-]{1,200}$";
  displayName ← check_displayName;
  mret (runtimeModule, engineArgs, servedModelName, displayName).

Definition validate_deploy : Check ModelParams :=
  let msg := required_message "modelName (string), " in
  match is_nonempty_string (body_get body "modelName") with
  | None => reject msg
  | Some name =>
      '(runnerType, path, memory) ← check_required msg;
      assertValidModelName name ;;
      check_path path ;;
      tp ← check_tensorParallel;
      '(runtimeModule, engineArgs, served, display) ← check_optional;
      mret (mkParams name runnerType path memory (body_get body "deviceType") tp (body_get body "engineConfig")
              engineArgs runtimeModule served display (body_get body "pinned"))
  end.

Definition validate_update (name : string) : Check ModelParams :=
  '(runnerType, path, memory) ← check_required (required_message "");
  check_path path ;;
  tp ← check_tensorParallel_update;
  match body_get body "pinned" with
  | Some (JBool b) =>
      '(runtimeModule, engineArgs, served, display) ← check_optional;
      mret (mkParams name runnerType path memory (body_get body "deviceType") tp (body_get body "engineConfig")
              engineArgs runtimeModule served display (Some (JBool b)))
  | _ => reject "pinned must be a boolean"
  end.

(** The move's target: a worker and distinct device indices. *)
Definition device_index (v : json) : option Z :=
  match v with JNum (NumInt z) => if Z.ltb z 0 then None else Some z | _ => None end.
Definition validate_move : Check (string * list Z) :=
  match is_nonempty_string (body_get body "targetWorkerId"), body_get body "targetDeviceIndices" with
  | Some worker, Some (JArr (v :: vs)) =>
      match mapM device_index (v :: vs) with
      | Some indices =>
          if bool_decide (NoDup indices) then mret (worker, indices)
          else reject "A target worker and unique non-negative device indices are required"
      | None => reject "A target worker and unique non-negative device indices are required"
      end
  | _, _ => reject "A target worker and unique non-negative device indices are required"
  end.
End validation.

(** ** What the checks accept *)

(** [m] accepts exactly the value that satisfies [P], if there is one, and otherwise answers
    400 INVALID_REQUEST; it changes nothing. *)
Definition decides {W A} (m : M W Exn A) (P : A → Prop) : Prop := ∀ w,
  (∃ a, m w = (inr a, w) ∧ ∀ a', P a' ↔ a' = a) ∨
  ((∀ a, ¬ P a) ∧ ∃ msg, m w = (inl (CPError (invalidRequest msg)), w)).

Section combinators.
Context {W : Type}.
Lemma decides_ret {A} (a : A) P : (∀ a', P a' ↔ a' = a) → decides (W := W) (mret a) P.
Proof. intros HP w. left. eauto. Qed.
Lemma decides_reject {A} msg (P : A → Prop) : (∀ a, ¬ P a) → decides (W := W) (reject msg) P.
Proof. intros HP w. right. split; [done|]. by exists msg. Qed.
(** A check that comes first: [R] implies that it accepts, and it accepts one value only. *)
Lemma decides_bind {A B} (m : M W Exn A) (k : A → M W Exn B) (P : A → Prop) (R : B → Prop) :
  decides m P → (∀ b, R b → ∃ a, P a) →
  (∀ a, P a → (∀ a', P a' → a' = a) → decides (k a) R) → decides (m ≫= k) R.
Proof.
  intros Hm HR Hk w. unfold mbind, M_bind. destruct (Hm w) as [(a & -> & Ha)|(Hn & msg & ->)].
  - apply Hk; [by apply Ha|]. intros a'. apply Ha.
  - right. split; [|by exists msg]. intros b (a & Pa)%HR. by eapply Hn.
Qed.
End combinators.

Section spec.
Context {W : Type} (cwd weightsDir : string) (body : json).
Notation get := (body_get body).

(** An optional field: absent, or present with a value that [R] accepts as [x]. *)
Definition optional {A} (key : string) (R : json → A → Prop) (o : option A) : Prop :=
  match o with None => body_get body key = None | Some x => ∃ v, body_get body key = Some v ∧ R v x end.

Definition engine_args_ok (v : json) (args : list string) : Prop :=
  v = JArr (JStr <$> args) ∧ length args ≤ 128 ∧ Forall (λ a, str_length a ≤ 512) args.
Definition display_ok (v : json) (d : string) : Prop :=
  ∃ s, v = JStr s ∧ d = js_trim s ∧ 1 ≤ str_length d ≤ 200.

(** The rules that deploy and update share. *)
Record common_ok (p : ModelParams) : Prop := {
  ok_runnerType : get "runnerType" = Some (JStr (mp_runnerType p)) ∧ mp_runnerType p ≠ "";
  ok_modelPath : get "modelPath" = Some (JStr (mp_modelPath p)) ∧ mp_modelPath p ≠ "" ∧ isContainedIn cwd (mp_modelPath p) weightsDir = true;
  ok_requiredMemory : get "requiredMemory" = Some (JNum (mp_requiredMemory p)) ∧ num_le_0 (mp_requiredMemory p) = false;
  ok_runtimeModule : optional "runtimeModule" (λ v s, v = JStr s ∧ RUNTIME_MODULE_PATTERN s = true) (mp_runtimeModule p);
  ok_engineArgs : optional "engineArgs" engine_args_ok (mp_engineArgs p);
  ok_servedModelName : optional "servedModelName" (λ v s, v = JStr s ∧ MODEL_NAME_PATTERN s = true) (mp_servedModelName p);
  ok_displayName : optional "displayName" display_ok (mp_displayName p);
  ok_raw : mp_deviceType p = get "deviceType" ∧ mp_engineConfig p = get "engineConfig" ∧ mp_pinned p = get "pinned";
}.
Definition deploy_ok (p : ModelParams) : Prop :=
  get "modelName" = Some (JStr (mp_name p)) ∧ MODEL_NAME_PATTERN (mp_name p) = true ∧ common_ok p ∧
  optional "tensorParallel" (λ v n, v = JNum n ∧ num_lt_1 n = false) (mp_tensorParallel p).
Definition update_ok (name : string) (p : ModelParams) : Prop :=
  mp_name p = name ∧ common_ok p ∧ (∃ b, get "pinned" = Some (JBool b)) ∧
  ∃ z, mp_tensorParallel p = Some (NumInt z) ∧ get "tensorParallel" = Some (JNum (NumInt z)) ∧ (1 ≤ z)%Z.

Ltac solve_field := intros [?|]; cbn [optional]; repeat split; intros; repeat (destruct_and?; match goal with H : ∃ _, _ |- _ => destruct H end);
  destruct_and?; simplify_eq; eauto 10 with lia; try congruence.
Lemma check_text_decides key pattern msg :
  decides (W := W) (check_text body key pattern msg) (optional key (λ v s, v = JStr s ∧ pattern s = true)).
Proof.
  unfold check_text. destruct (get key) as [[| | |s| |]|] eqn:Hk; try (apply decides_reject; unfold not; solve_field).
  - destruct (pattern s) eqn:Hp; [apply decides_ret|apply decides_reject; unfold not]; solve_field.
  - apply decides_ret. solve_field.
Qed.

Lemma strings_of_Some l args : strings_of l = Some args ↔ l = JStr <$> args.
Proof.
  unfold strings_of. rewrite mapM_Some. split.
  - induction 1 as [|v a l' args' Hv _ IH]; [done|]. destruct v; simplify_eq. csimpl. by f_equal.
  - intros ->. induction args as [|a args IH]; csimpl; [constructor|]. by constructor.
Qed.

Lemma check_engineArgs_decides : decides (W := W) (check_engineArgs body) (optional "engineArgs" engine_args_ok).
Proof.
  unfold check_engineArgs. destruct (get "engineArgs") as [[| | | |l|]|] eqn:Hk;
    try (apply decides_reject; intros [args|]; cbn [optional]; [intros (v & ? & -> & _)|]; congruence).
  - destruct (strings_of l) as [args|] eqn:Hl.
    + apply strings_of_Some in Hl. unfold MAX_ENGINE_ARGS_COUNT, MAX_ENGINE_ARG_LENGTH.
      assert (∀ args', engine_args_ok (JArr l) args' → args' = args) as Huniq.
      { intros args' ([= Heq] & _). rewrite Hl in Heq. by apply (list_fmap_eq_inj JStr) in Heq; [|intros ?? [= ->]]. }
      assert (∀ o, optional "engineArgs" engine_args_ok o → ∃ args', o = Some args' ∧ args' = args ∧ engine_args_ok (JArr l) args) as Hopt.
      { intros [args'|]; cbn [optional]; [|congruence]. intros (v & Hv & Ha). assert (v = JArr l) as -> by congruence.
        pose proof (Huniq args' Ha) as ->. eauto. }
      destruct (Nat.ltb_spec 128 (length args)) as [Hlen|Hlen].
      { apply decides_reject. intros o (args' & -> & -> & _ & ? & _)%Hopt. lia. }
      destruct (existsb _ args) eqn:Hex.
      * apply decides_reject. intros o (args' & -> & -> & _ & _ & Hall)%Hopt. apply existsb_exists in Hex as (a & Ha & Hlt%Nat.ltb_lt).
        rewrite Forall_forall in Hall. specialize (Hall a). apply list_elem_of_In in Ha. specialize (Hall Ha). lia.
      * apply decides_ret. intros o. split; [by intros (args' & -> & -> & _)%Hopt|]. intros ->. exists (JArr l). split; [done|].
        split; [by rewrite Hl|]. split; [lia|]. apply Forall_forall. intros a Ha%list_elem_of_In.
        apply Nat.nlt_ge. intros Hlt. assert (existsb (λ a, Nat.ltb 512 (str_length a)) args = true); [|congruence].
        apply existsb_exists. exists a. split; [done|by apply Nat.ltb_lt].
    + apply decides_reject. intros [args|]; cbn [optional]; [|congruence]. intros (v & Hv & Ha & _).
      assert (strings_of l = Some args) by (apply strings_of_Some; congruence). congruence.
  - apply decides_ret. solve_field.
Qed.

Lemma check_displayName_decides : decides (W := W) (check_displayName body) (optional "displayName" display_ok).
Proof.
  unfold check_displayName, display_ok. destruct (get "displayName") as [[| | |s| |]|] eqn:Hk;
    try (apply decides_reject; unfold not; solve_field).
  - destruct (Nat.eqb_spec (str_length (js_trim s)) 0); simpl.
    { apply decides_reject. unfold not. solve_field. }
    destruct (Nat.ltb_spec 200 (str_length (js_trim s))); [apply decides_reject; unfold not; solve_field|].
    apply decides_ret. intros [d|]; cbn [optional]; [|by split; congruence]. split.
    + intros (v & ? & s' & -> & -> & _). congruence.
    + intros [= ->]. exists (JStr s). split; [done|]. exists s. split_and!; [done..|lia|lia].
  - apply decides_ret. solve_field.
Qed.

Lemma check_required_decides msg : decides (W := W) (check_required body msg)
  (λ p, get "runnerType" = Some (JStr p.1.1) ∧ p.1.1 ≠ "" ∧ get "modelPath" = Some (JStr p.1.2) ∧ p.1.2 ≠ "" ∧
        get "requiredMemory" = Some (JNum p.2) ∧ num_le_0 p.2 = false).
Proof.
  assert (∀ o s, is_nonempty_string o = Some s ↔ o = Some (JStr s) ∧ s ≠ "") as Hne.
  { intros [[| | |t| |]|] s; simpl; try case_decide; naive_solver. }
  unfold check_required.
  destruct (is_nonempty_string (get "runnerType")) as [rt|] eqn:Hr;
    [|apply decides_reject; intros p (? & ? & _); assert (is_nonempty_string (get "runnerType") = Some p.1.1) by (by apply Hne); congruence].
  destruct (is_nonempty_string (get "modelPath")) as [path|] eqn:Hp;
    [|apply decides_reject; intros p (_ & _ & ? & ? & _); assert (is_nonempty_string (get "modelPath") = Some p.1.2) by (by apply Hne); congruence].
  apply Hne in Hr as [Hr ?], Hp as [Hp ?].
  destruct (get "requiredMemory") as [[| |n| | |]|] eqn:Hm;
    try (apply decides_reject; intros p (_ & _ & _ & _ & ? & _); congruence).
  destruct (num_le_0 n) eqn:Hn; [apply decides_reject; intros p (_ & _ & _ & _ & ? & ?); congruence|].
  apply decides_ret. intros [[rt' path'] n']; simpl. split; [|by intros [= -> -> ->]].
  intros (? & _ & ? & _ & ? & _). congruence.
Qed.

Lemma check_path_decides path : decides (W := W) (check_path cwd weightsDir path) (λ _, isContainedIn cwd path weightsDir = true).
Proof.
  unfold check_path. destruct (isContainedIn _ _ _); [apply decides_ret; by intros []|by apply decides_reject].
Qed.
Lemma check_name_decides name : decides (W := W) (assertValidModelName name) (λ _, MODEL_NAME_PATTERN name = true).
Proof.
  unfold assertValidModelName. destruct (MODEL_NAME_PATTERN name); [apply decides_ret; by intros []|by apply decides_reject].
Qed.
Lemma check_tensor_decides :
  decides (W := W) (check_tensorParallel body) (optional "tensorParallel" (λ v n, v = JNum n ∧ num_lt_1 n = false)).
Proof.
  unfold check_tensorParallel. destruct (get "tensorParallel") as [[| |n| | |]|] eqn:Hk; try (apply decides_reject; unfold not; solve_field).
  - destruct (num_lt_1 n) eqn:Hn; [apply decides_reject; unfold not|apply decides_ret]; solve_field.
  - apply decides_ret. solve_field.
Qed.
Lemma check_tensor_update_decides :
  decides (W := W) (check_tensorParallel_update body)
    (λ o, ∃ z, o = Some (NumInt z) ∧ get "tensorParallel" = Some (JNum (NumInt z)) ∧ (1 ≤ z)%Z).
Proof.
  unfold check_tensorParallel_update. destruct (get "tensorParallel") as [[| |[z|f]| | |]|] eqn:Hk;
    try (apply decides_reject; intros o (z' & -> & ? & _); congruence).
  destruct (Z.ltb_spec z 1); [apply decides_reject; intros o (z' & -> & [= <-] & ?); lia|]. apply decides_ret. intros o. split.
  - intros (z' & -> & [= <-] & _). done.
  - intros ->. eauto.
Qed.

Definition optional_ok (q : option string * option (list string) * option string * option string) : Prop :=
  optional "runtimeModule" (λ v s, v = JStr s ∧ RUNTIME_MODULE_PATTERN s = true) q.1.1.1 ∧
  optional "engineArgs" engine_args_ok q.1.1.2 ∧
  optional "servedModelName" (λ v s, v = JStr s ∧ MODEL_NAME_PATTERN s = true) q.1.2 ∧
  optional "displayName" display_ok q.2.
Lemma check_optional_decides : decides (W := W) (check_optional body) optional_ok.
Proof.
  unfold check_optional. eapply decides_bind; [apply check_text_decides|intros q (? & _); eauto|intros rm Hrm Urm].
  eapply decides_bind; [apply check_engineArgs_decides|intros q (_ & ? & _); eauto|intros ea Hea Uea].
  eapply decides_bind; [apply check_text_decides|intros q (_ & _ & ? & _); eauto|intros sn Hsn Usn].
  eapply decides_bind; [apply check_displayName_decides|intros q (_ & _ & _ & ?); eauto|intros dn Hdn Udn].
  apply decides_ret. intros [[[rm' ea'] sn'] dn']. unfold optional_ok; simpl. split; [|by intros [= -> -> -> ->]].
  intros (?%Urm & ?%Uea & ?%Usn & ?%Udn). by subst.
Qed.
Lemma common_optional p : common_ok p → optional_ok (mp_runtimeModule p, mp_engineArgs p, mp_servedModelName p, mp_displayName p).
Proof. by intros []. Qed.
Lemma common_required p : common_ok p →
  ∃ q, get "runnerType" = Some (JStr q.1.1) ∧ q.1.1 ≠ "" ∧ get "modelPath" = Some (JStr q.1.2) ∧ q.1.2 ≠ "" ∧
        get "requiredMemory" = Some (JNum q.2) ∧ num_le_0 q.2 = false.
Proof. intros [[] (? & ? & ?) []]. by exists (mp_runnerType p, mp_modelPath p, mp_requiredMemory p). Qed.

(** Deploy accepts exactly the bodies its rules describe.  A body is admitted iff
    the name matches the pattern, the runner type and the path are non-empty texts, the path
    lies in the weights directory, the memory is a positive number, and the optional
    fields, where present, obey their rules (tensor parallelism at least 1, module and served name
    by their patterns, at most 128 engine arguments of at most 512 characters, a display name of
    1 to 200 characters once trimmed); the parameters stored are then those of the body.
    Every other body is answered with 400 INVALID_REQUEST, and nothing is changed. *)
Theorem validate_deploy_exact : decides (W := W) (validate_deploy cwd weightsDir body) deploy_ok.
Proof.
  unfold validate_deploy. destruct (is_nonempty_string (get "modelName")) as [name|] eqn:Hn.
  2: { apply decides_reject. intros p (Hg & Hpat & _). rewrite Hg in Hn. simpl in Hn. case_decide as He; [|done]. by rewrite He in Hpat. }
  assert (get "modelName" = Some (JStr name)) as Hname.
  { destruct (get "modelName") as [[]|]; simpl in Hn; try done. case_decide; [done|]. by injection Hn as ->. }
  eapply decides_bind; [apply check_required_decides|intros p (_ & _ & Hc & _); by eapply common_required|].
  intros [[rt path] memory] (Hrt & Hrt' & Hpath & Hpath' & Hmem & Hmem') _. simpl in *.
  eapply decides_bind; [apply check_name_decides|intros p (Hg & Hpat & _); exists tt; congruence|intros [] Hpat _].
  eapply decides_bind; [apply check_path_decides|intros p (_ & _ & [_ (? & _ & ?) _ _ _ _ _ _] & _); exists tt; congruence|intros [] Hin _].
  eapply decides_bind; [apply check_tensor_decides|intros p (_ & _ & _ & ?); eauto|intros tp Htp Utp].
  eapply decides_bind; [apply check_optional_decides|intros p (_ & _ & Hc & _); eexists; by apply common_optional|].
  intros [[[rm ea] sn] dn] Hopt Uopt. apply decides_ret. intros p. split.
  - intros (? & _ & Hc & Hp). apply common_optional in Hc as Ho. apply Uopt in Ho. apply Utp in Hp.
    destruct Hc as [[] (? & ? & ?) [] _ _ _ _ (? & ? & ?)], p; simpl in *. congruence.
  - intros ->. destruct Hopt as (? & ? & ? & ?). by repeat split.
Qed.

Lemma validate_update_exact name : decides (W := W) (validate_update cwd weightsDir body name) (update_ok name).
Proof.
  unfold validate_update.
  eapply decides_bind; [apply check_required_decides|intros p (_ & Hc & _); by eapply common_required|].
  intros [[rt path] memory] (Hrt & Hrt' & Hpath & Hpath' & Hmem & Hmem') _. simpl in *.
  eapply decides_bind; [apply check_path_decides|intros p (_ & [_ (? & _ & ?) _ _ _ _ _ _] & _); exists tt; congruence|intros [] Hin _].
  eapply decides_bind; [apply check_tensor_update_decides|intros p (_ & _ & _ & z & ?); exists (mp_tensorParallel p), z; done|intros tp Htp Utp].
  destruct (get "pinned") as [[|b| | | |]|] eqn:Hpin; try (apply decides_reject; intros p (_ & _ & [b' ?] & _); congruence).
  eapply decides_bind; [apply check_optional_decides|intros p (_ & Hc & _); eexists; by apply common_optional|].
  intros [[[rm ea] sn] dn] Hopt Uopt. apply decides_ret. intros p. split.
  - intros (? & Hc & _ & Hp). apply common_optional in Hc as Ho. apply Uopt in Ho. apply Utp in Hp.
    destruct Hc as [[] (? & ? & ?) [] _ _ _ _ (? & ? & ?)], p; simpl in *. congruence.
  - intros ->. destruct Hopt as (? & ? & ? & ?), Htp as (z & ? & ? & ?). split; [done|]. split; [by repeat split|]. split; [by exists b|]. by exists z.
Qed.
End spec.

(** The message of deploy asks for an integer; the check lets 1.5 pass, which update refuses. *)
Definition half_devices : json :=
  JObj [("modelName", JStr "m"); ("runnerType", JStr "vllm"); ("modelPath", JStr "/weights/x"); ("requiredMemory", JNum (NumInt 10));
        ("tensorParallel", JNum (NumOther 1)); ("pinned", JBool false)].
Theorem deploy_accepts_fractional_tensorParallel :
  (∃ p, validate_deploy "/" "/weights" half_devices tt = (inr p, tt) ∧ mp_tensorParallel p = Some (NumOther 1)) ∧
  validate_update "/" "/weights" half_devices "m" tt = (inl (CPError (invalidRequest tensor_message)), tt).
Proof. split; [eexists; split|]; vm_compute; reflexivity. Qed.
