(* ===== verification/RunnerLogs.v ===== *)
(** * Launch logs of the worker (runners/dev-worker/src/runner-log-buffer.ts, routes/logs.ts)

    [RunnerLogBuffer] keeps the last lines each runner printed while it started, hands new
    lines to the connected viewers, and forgets the logs of failed launches after a while.
    [Hub] is the buffer together with the event streams of routes/logs.ts: a viewer first
    gets the buffered lines, then each new line, then one [end] frame. *)
From stdpp Require Import base tactics list strings gmap sets.
From Stdlib Require Import ZArith Lia Ascii.
From S2P Require Import Prelude Js.

(** ** The lines *)
Inductive LogStream := stdout | stderr.
Record RunnerLogLine := mkLine { ll_ts : string; ll_stream : LogStream; ll_content : string }.

Definition DEFAULT_CAP : nat := 1000.
Definition RETAIN_TTL_MS : Z := 15 * 60 * 1000.
Definition MAX_RETAINED : nat := 20.

(** ** [POLL_NOISE_RE], as a matcher

    A dash, spaces, a double quote, one of GET, POST and HEAD, spaces, one of the control
    endpoints, and the end of a word.  The character after each group of spaces is no
    space, so taking all spaces is exact, and no alternative is a prefix of another. *)
Definition word_char (c : ascii) : bool :=
  let n := nat_of_ascii c in
  (Nat.leb 48 n && Nat.leb n 57) || (Nat.leb 65 n && Nat.leb n 90) || (Nat.leb 97 n && Nat.leb n 122) || Nat.eqb n 95.
(** What is left of [s] behind [p]. *)
Definition after (p s : string) : option string :=
  if starts_with p s then Some (str_drop (str_length p) s) else None.
Definition after_spaces (s : string) : option string :=
  match s with String c s' => if js_space c then Some (trim_start s') else None | EmptyString => None end.
Definition after_one_of (ps : list string) (s : string) : option string :=
  match List.find (λ p, starts_with p s) ps with Some p => after p s | None => None end.
Definition word_boundary (s : string) : bool :=
  match s with String c _ => negb (word_char c) | EmptyString => true end.
Definition poll_noise_here (s : string) : bool :=
  match
    s ← after "-" s; s ← after_spaces s; s ← after (String (ascii_of_nat 34) "") s;
    s ← after_one_of ["GET"; "POST"; "HEAD"] s; s ← after_spaces s;
    after_one_of ["/health"; "/progress"; "/memory-report"; "/sleep-status"; "/capabilities"] s
  with Some rest => word_boundary rest | None => false end.
Fixpoint POLL_NOISE_RE (s : string) : bool :=
  poll_noise_here s || match s with String _ s' => POLL_NOISE_RE s' | EmptyString => false end.

(** [content.split('\n')] without the empty piece behind a final newline, without the polls. *)
Definition content_lines (content : string) : list string :=
  let lines := split_on newline content in
  if bool_decide (List.last lines EmptyString = EmptyString) then List.removelast lines else lines.
(** The [n]-th of them is stamped with [ts n]. *)
Definition log_lines (stream : LogStream) (content : string) (ts : nat → string) : list RunnerLogLine :=
  imap (λ n raw, mkLine (ts n) stream raw) (List.filter (λ raw, negb (POLL_NOISE_RE raw)) (content_lines content)).

(** ** The buffer

    A subscriber is known by a number; the listener sets keep the order of subscription. *)
Record LogBuffer := mkLogs {
  buffers : list (string * list RunnerLogLine);
  logListeners : list (string * list nat);
  endListeners : list (string * list nat);
  ended : gset string;
  retainTimers : list (string * Z);     (** when the timer fires *)
}.
Definition no_logs : LogBuffer := mkLogs [] [] [] ∅ [].

Definition getBuffer (r : string) (b : LogBuffer) : list RunnerLogLine := default [] (jm_get (buffers b) r).
Definition has_logs (r : string) (b : LogBuffer) : bool := jm_has (buffers b) r.
Definition isEnded (r : string) (b : LogBuffer) : bool := bool_decide (r ∈ ended b).
Definition log_subscribers (r : string) (b : LogBuffer) : list nat := default [] (jm_get (logListeners b) r).
Definition end_subscribers (r : string) (b : LogBuffer) : list nat := default [] (jm_get (endListeners b) r).

Section cap.
Context (cap : nat).
(** The last [cap] of [l]: [buffer.splice(0, buffer.length - cap)] when it is longer. *)
Definition newest (l : list RunnerLogLine) : list RunnerLogLine := drop (length l - cap) l.

(** The new buffer and the lines handed to the subscribers. *)
Definition append (r : string) (stream : LogStream) (content : string) (ts : nat → string) (b : LogBuffer) :
    LogBuffer * list RunnerLogLine :=
  if bool_decide (content_lines content = []) then (b, []) else
  let lines := log_lines stream content ts in
  (mkLogs (jm_set (buffers b) r (newest (getBuffer r b ++ lines))) (logListeners b) (endListeners b) (ended b) (retainTimers b), lines).

Definition subscribe (m : list (string * list nat)) (r : string) (c : nat) : list (string * list nat) :=
  jm_set m r (default [] (jm_get m r) ++ [c]).
Definition unsubscribe (m : list (string * list nat)) (r : string) (c : nat) : list (string * list nat) :=
  match jm_get m r with Some l => jm_set m r (filter (.≠ c) l) | None => m end.
Definition onLog (r : string) (c : nat) (b : LogBuffer) : LogBuffer :=
  mkLogs (buffers b) (subscribe (logListeners b) r c) (endListeners b) (ended b) (retainTimers b).
Definition onEnd (r : string) (c : nat) (b : LogBuffer) : LogBuffer :=
  mkLogs (buffers b) (logListeners b) (subscribe (endListeners b) r c) (ended b) (retainTimers b).
Definition off (r : string) (c : nat) (b : LogBuffer) : LogBuffer :=
  mkLogs (buffers b) (unsubscribe (logListeners b) r c) (unsubscribe (endListeners b) r c) (ended b) (retainTimers b).

(** The mark; the subscribers are those of [endListeners]. *)
Definition markEnded (r : string) (b : LogBuffer) : LogBuffer :=
  mkLogs (buffers b) (logListeners b) (endListeners b) ({[r]} ∪ ended b) (retainTimers b).

Definition drop_logs (r : string) (b : LogBuffer) : LogBuffer :=
  mkLogs (jm_delete (buffers b) r) (jm_delete (logListeners b) r) (jm_delete (endListeners b) r)
    (ended b ∖ {[r]}) (jm_delete (retainTimers b) r).

Definition retain (now : Z) (r : string) (b : LogBuffer) : LogBuffer :=
  let b' :=
    if negb (jm_has (retainTimers b) r) && Nat.leb MAX_RETAINED (length (retainTimers b)) then
      match jm_keys (retainTimers b) with oldest :: _ => drop_logs oldest b | [] => b end
    else b in
  mkLogs (buffers b') (logListeners b') (endListeners b') (ended b')
    (jm_set (retainTimers b') r (now + RETAIN_TTL_MS)%Z).

(** ** The event streams *)
Inductive Frame := FLog (line : RunnerLogLine) | FEnd.
Record Client := mkClient { cl_runner : string; cl_frames : list Frame; cl_open : bool }.
Record Hub := mkHub { hub_logs : LogBuffer; hub_clients : gmap nat Client }.
Definition no_hub : Hub := mkHub no_logs ∅.

Definition write_frames (fs : list Frame) (c : Client) : Client := mkClient (cl_runner c) (cl_frames c ++ fs) (cl_open c).
Definition close_client (c : Client) : Client := mkClient (cl_runner c) (cl_frames c) false.

(** [cleanup] *)
Definition cleanup (c : nat) (h : Hub) : Hub :=
  match hub_clients h !! c with
  | Some cl => if cl_open cl then mkHub (off (cl_runner cl) c (hub_logs h)) (<[c := close_client cl]> (hub_clients h)) else h
  | None => h
  end.
Definition write (fs : list Frame) (c : nat) (h : Hub) : Hub :=
  mkHub (hub_logs h) (alter (write_frames fs) c (hub_clients h)).

(** [stream]: replay, subscribe; a stream that has ended is closed at once. *)
Definition stream (c : nat) (r : string) (h : Hub) : Hub :=
  let h1 := mkHub (onLog r c (hub_logs h)) (<[c := mkClient r (FLog <$> getBuffer r (hub_logs h)) true]> (hub_clients h)) in
  let h2 := if isEnded r (hub_logs h) then write [FEnd] c h1 else h1 in
  let h3 := mkHub (onEnd r c (hub_logs h2)) (hub_clients h2) in
  if isEnded r (hub_logs h) then cleanup c h3 else h3.

Definition append_hub (r : string) (s : LogStream) (content : string) (ts : nat → string) (h : Hub) : Hub :=
  let '(b, lines) := append r s content ts (hub_logs h) in
  foldl (λ h c, write (FLog <$> lines) c h) (mkHub b (hub_clients h)) (log_subscribers r (hub_logs h)).
(** Each listener of the end writes its frame and cleans up. *)
Definition end_hub (r : string) (h : Hub) : Hub :=
  foldl (λ h c, cleanup c (write [FEnd] c h)) (mkHub (markEnded r (hub_logs h)) (hub_clients h)) (end_subscribers r (hub_logs h)).

(** What happens to the hub. *)
Inductive LogOp :=
| OpAppend (r : string) (s : LogStream) (content : string) (ts : nat → string)
| OpEnd (r : string)
| OpDrop (r : string)
| OpRetain (now : Z) (r : string)
| OpExpire (r : string)                  (** the timer of [retain] *)
| OpConnect (c : nat) (r : string)
| OpClose (c : nat).                     (** the viewer goes away *)
Definition run_log_op (op : LogOp) (h : Hub) : Hub :=
  match op with
  | OpAppend r s content ts => append_hub r s content ts h
  | OpEnd r => end_hub r h
  | OpDrop r => mkHub (drop_logs r (hub_logs h)) (hub_clients h)
  | OpRetain now r => mkHub (retain now r (hub_logs h)) (hub_clients h)
  | OpExpire r => if jm_has (retainTimers (hub_logs h)) r then mkHub (drop_logs r (hub_logs h)) (hub_clients h) else h
  | OpConnect c r => if decide (is_Some (hub_clients h !! c)) then h else stream c r h
  | OpClose c => cleanup c h
  end.
Definition run_log_ops (ops : list LogOp) (h : Hub) : Hub := foldl (λ h op, run_log_op op h) h ops.
End cap.

Example poll_noise :
  let q := String (ascii_of_nat 34) "" in
  POLL_NOISE_RE ("INFO: 127.0.0.1:52012 - " +:+ q +:+ "GET /health HTTP/1.1" +:+ q +:+ " 200 OK") = true ∧
  POLL_NOISE_RE ("- " +:+ q +:+ "GET /healthz") = false ∧ POLL_NOISE_RE "loading /health" = false.
Proof. by vm_compute. Qed.

(** ** Bounds *)
Definition logs_ok (cap : nat) (b : LogBuffer) : Prop :=
  (∀ r l, jm_get (buffers b) r = Some l → length l ≤ cap) ∧
  NoDup (jm_keys (retainTimers b)) ∧ length (retainTimers b) ≤ MAX_RETAINED.

Lemma jm_length {V} (m : list (string * V)) : length (jm_keys m) = length m.
Proof. apply length_fmap. Qed.
Lemma jm_set_length {V} (m : list (string * V)) (k : string) (v : V) :
  length (jm_set m k v) = if decide (k ∈ jm_keys m) then length m else S (length m).
Proof. rewrite <- !jm_length, jm_keys_set. case_decide; [done|]. rewrite length_app. simpl. lia. Qed.
Lemma jm_delete_length {V} (m : list (string * V)) (k : string) : length (jm_delete m k) ≤ length m.
Proof. unfold jm_delete. induction m as [|[k' v] m IH]; simpl; [done|]. case_decide; simpl; lia. Qed.
Lemma jm_delete_first_length {V} (m : list (string * V)) (k : string) (v : V) : length (jm_delete ((k, v) :: m) k) ≤ length m.
Proof. unfold jm_delete at 1. rewrite decide_True by done. apply jm_delete_length. Qed.

Lemma newest_length cap l : length (newest cap l) ≤ cap.
Proof. unfold newest. rewrite length_drop. lia. Qed.

Lemma drop_logs_ok cap r b : logs_ok cap b → logs_ok cap (drop_logs r b).
Proof.
  intros (Hb & Hn & Hl). split_and!; simpl; [|by apply jm_delete_NoDup|].
  - intros r' l. destruct (decide (r' = r)) as [->|]; [by rewrite jm_get_delete_eq|]. rewrite jm_get_delete_ne by done. apply Hb.
  - pose proof (jm_delete_length (retainTimers b) r). lia.
Qed.
Lemma retain_ok cap now r b : logs_ok cap b → logs_ok cap (retain now r b).
Proof.
  intros Hok. unfold retain. cbn zeta. set (b' := if (_ && _) then _ else b).
  assert (logs_ok cap b' ∧ (r ∉ jm_keys (retainTimers b') → length (retainTimers b') < MAX_RETAINED)) as [(Hb & Hn & Hl) Hlt].
  { subst b'. destruct (jm_has (retainTimers b) r) eqn:Hh; cbn [negb andb].
    { split; [done|]. intros Hr. unfold jm_has in Hh. apply bool_decide_eq_true in Hh as [v Hv].
      by rewrite (proj2 (jm_get_None _ _) Hr) in Hv. }
    destruct (Nat.leb_spec MAX_RETAINED (length (retainTimers b))) as [Hm|Hm]; [|split; [done|intros _; exact Hm]].
    destruct Hok as (Hb & Hn & Hl). destruct (retainTimers b) as [|[oldest t] m] eqn:Ht; [simpl in *; unfold MAX_RETAINED in *; lia|].
    simpl. split; [apply drop_logs_ok; split_and!; [done|rewrite Ht; done|rewrite Ht; done]|]. intros _. simpl. rewrite Ht.
    pose proof (jm_delete_first_length m oldest t). simpl in *. lia. }
  split_and!; simpl; [done|by apply jm_set_NoDup|]. rewrite jm_set_length. case_decide; [done|]. specialize (Hlt H). lia.
Qed.
Lemma append_ok cap r s content ts b : logs_ok cap b → logs_ok cap (append cap r s content ts b).1.
Proof.
  intros (Hb & Hn & Hl). unfold append. case_bool_decide; simpl; [done|]. split_and!; simpl; [|done..].
  intros r' l. destruct (decide (r' = r)) as [->|Hr].
  - rewrite jm_get_set_eq. intros [= <-]. apply newest_length.
  - rewrite jm_get_set_ne by done. apply Hb.
Qed.

(** Only the listeners change. *)
Definition same_store (b b' : LogBuffer) : Prop :=
  buffers b' = buffers b ∧ ended b' = ended b ∧ retainTimers b' = retainTimers b.
Lemma cleanup_store c h : same_store (hub_logs h) (hub_logs (cleanup c h)).
Proof. unfold cleanup. repeat case_match; done. Qed.
Lemma same_store_ok cap b b' : same_store b b' → logs_ok cap b → logs_ok cap b'.
Proof. unfold logs_ok. by intros (-> & _ & ->). Qed.
Lemma foldl_store (f : Hub → nat → Hub) l h :
  (∀ h c, same_store (hub_logs h) (hub_logs (f h c))) → same_store (hub_logs h) (hub_logs (foldl f h l)).
Proof.
  intros Hf. revert h. induction l as [|c l IH]; intros h; [done|]. simpl.
  destruct (Hf h c) as (H1 & H2 & H3), (IH (f h c)) as (H4 & H5 & H6). unfold same_store. by rewrite H4, H5, H6.
Qed.
Lemma end_hub_store r h : same_store (markEnded r (hub_logs h)) (hub_logs (end_hub r h)).
Proof.
  unfold end_hub. change (markEnded r (hub_logs h)) with (hub_logs (mkHub (markEnded r (hub_logs h)) (hub_clients h))) at 1.
  apply foldl_store. intros h0 c. exact (cleanup_store c (write [FEnd] c h0)).
Qed.
Lemma append_hub_store cap r s content ts h : same_store (append cap r s content ts (hub_logs h)).1 (hub_logs (append_hub cap r s content ts h)).
Proof.
  unfold append_hub. destruct (append _ _ _ _ _ _) as [b lines]. simpl.
  change b with (hub_logs (mkHub b (hub_clients h))) at 1. by apply foldl_store.
Qed.
Lemma stream_store c r h : same_store (hub_logs h) (hub_logs (stream c r h)).
Proof.
  unfold stream. destruct (isEnded r (hub_logs h)); [|done].
  match goal with |- same_store _ (hub_logs (cleanup _ ?h3)) => destruct (cleanup_store c h3) as (H1 & H2 & H3) end.
  unfold same_store. by rewrite H1, H2, H3.
Qed.
Lemma run_log_op_ok cap op h : logs_ok cap (hub_logs h) → logs_ok cap (hub_logs (run_log_op cap op h)).
Proof.
  intros Hok. destruct op; simpl.
  - eapply same_store_ok; [apply append_hub_store|]. by apply append_ok.
  - eapply same_store_ok; [apply end_hub_store|done].
  - by apply drop_logs_ok.
  - by apply retain_ok.
  - destruct (jm_has _ _); [by apply drop_logs_ok|done].
  - case_decide; [done|]. eapply same_store_ok; [apply stream_store|done].
  - eapply same_store_ok; [apply cleanup_store|done].
Qed.

(** The worker's launch logs stay bounded.  Whatever runners print, viewers do and launches
    fail, each runner's buffer holds at most [cap] lines, and at most [MAX_RETAINED] logs wait
    for their timer. *)
Theorem launch_logs_bounded cap ops r :
  length (getBuffer r (hub_logs (run_log_ops cap ops no_hub))) ≤ cap ∧
  length (retainTimers (hub_logs (run_log_ops cap ops no_hub))) ≤ MAX_RETAINED.
Proof.
  assert (logs_ok cap (hub_logs (run_log_ops cap ops no_hub))) as (Hb & _ & Hl).
  { unfold run_log_ops. assert (logs_ok cap (hub_logs no_hub)) as Hok by (split_and!; [done|constructor|simpl; unfold MAX_RETAINED; lia]).
    revert Hok. generalize no_hub. induction ops as [|op ops IH]; intros h Hok; [done|]. apply IH. by apply run_log_op_ok. }
  split; [|done]. unfold getBuffer. destruct (jm_get _ r) eqn:Hr; simpl; [by eapply Hb|lia].
Qed.

(** ** What a viewer sees *)

(** A subscriber is an open stream of that runner, and subscribed once. *)
Definition hub_ok (h : Hub) : Prop := ∀ r,
  NoDup (log_subscribers r (hub_logs h)) ∧ NoDup (end_subscribers r (hub_logs h)) ∧
  ∀ c, c ∈ log_subscribers r (hub_logs h) ∨ c ∈ end_subscribers r (hub_logs h) →
       ∃ fs, hub_clients h !! c = Some (mkClient r fs true).

Notation subs m r := (default [] (jm_get m r)).
Lemma subs_subscribe m r c r' : subs (subscribe m r c) r' = if decide (r' = r) then subs m r' ++ [c] else subs m r'.
Proof. unfold subscribe. case_decide as Hr; [subst; by rewrite jm_get_set_eq|by rewrite jm_get_set_ne]. Qed.
Lemma subs_unsubscribe m r c r' : subs (unsubscribe m r c) r' = if decide (r' = r) then filter (.≠ c) (subs m r') else subs m r'.
Proof.
  unfold unsubscribe. destruct (jm_get m r) as [l|] eqn:Hl.
  - case_decide as Hr; [subst; by rewrite jm_get_set_eq, Hl|by rewrite jm_get_set_ne].
  - case_decide as Hr; [subst; by rewrite Hl|done].
Qed.
Lemma subs_delete m r r' : subs (jm_delete m r : list (string * list nat)) r' = if decide (r' = r) then [] else subs m r'.
Proof. case_decide as Hr; [subst; by rewrite jm_get_delete_eq|by rewrite jm_get_delete_ne]. Qed.

(** The listeners of another buffer with a store of its own. *)
Lemma hub_ok_store b b' cs :
  logListeners b' = logListeners b → endListeners b' = endListeners b → hub_ok (mkHub b cs) → hub_ok (mkHub b' cs).
Proof. intros H1 H2 Hok r. specialize (Hok r). unfold log_subscribers, end_subscribers in *. simpl in *. by rewrite H1, H2. Qed.

Lemma hub_write_ok fs c h : hub_ok h → hub_ok (write fs c h).
Proof.
  intros Hok r. destruct (Hok r) as (H1 & H2 & H3). split_and!; [done..|]. intros c' Hc'. destruct (H3 c' Hc') as [fs' Hcl]. simpl.
  destruct (decide (c' = c)) as [->|]; [|rewrite lookup_alter_ne by done; eauto].
  rewrite lookup_alter_eq, Hcl. simpl. eauto.
Qed.
Lemma cleanup_ok c h : hub_ok h → hub_ok (cleanup c h).
Proof.
  intros Hok. unfold cleanup. destruct (hub_clients h !! c) as [[r0 fs0 op]|] eqn:Hc; [|done]. destruct op; simpl; [|done].
  intros r. destruct (Hok r) as (H1 & H2 & H3). unfold log_subscribers, end_subscribers in *. simpl.
  rewrite !subs_unsubscribe. case_decide as Hr.
  - subst. split_and!; [by apply NoDup_filter..|]. intros c'. rewrite !list_elem_of_filter. intros Hc'.
    assert (c' ≠ c) as Hne by naive_solver. rewrite lookup_insert_ne by done. apply H3. naive_solver.
  - split_and!; [done..|]. intros c' Hc'. destruct (H3 c' Hc') as [fs Hfs]. assert (c' ≠ c) by congruence.
    rewrite lookup_insert_ne by done. eauto.
Qed.

(** *** One frame to every subscriber *)
Lemma foldl_write fs l h c :
  NoDup l → hub_clients (foldl (λ h c, write fs c h) h l) !! c =
    if decide (c ∈ l) then write_frames fs <$> hub_clients h !! c else hub_clients h !! c.
Proof.
  revert h. induction l as [|c0 l IH]; intros h Hnd; [done|]. apply NoDup_cons in Hnd as [Hni Hnd]. simpl. rewrite IH by done. simpl.
  destruct (decide (c = c0)) as [->|Hne].
  - rewrite (decide_False (P := c0 ∈ l)) by done. rewrite decide_True by set_solver. apply lookup_alter_eq.
  - rewrite lookup_alter_ne by done. destruct (decide (c ∈ l)); [rewrite decide_True by set_solver|rewrite decide_False by set_solver]; done.
Qed.
Lemma foldl_write_logs fs l h : hub_logs (foldl (λ h c, write fs c h) h l) = hub_logs h.
Proof. revert h. induction l as [|c l IH]; intros h; [done|]. simpl. by rewrite IH. Qed.
Lemma foldl_write_ok fs l h : hub_ok h → hub_ok (foldl (λ h c, write fs c h) h l).
Proof. revert h. induction l as [|c l IH]; intros h Hh; [done|]. simpl. by apply IH, hub_write_ok. Qed.

(** *** The end of a stream *)
Definition finish_client (c : Client) : Client := mkClient (cl_runner c) (cl_frames c ++ [FEnd]) false.
Lemma end_client c h r fs :
  hub_clients h !! c = Some (mkClient r fs true) →
  hub_clients (cleanup c (write [FEnd] c h)) = <[c := mkClient r (fs ++ [FEnd]) false]> (hub_clients h) ∧
  hub_logs (cleanup c (write [FEnd] c h)) = off r c (hub_logs h).
Proof.
  intros Hc. unfold cleanup, write. simpl. rewrite lookup_alter_eq, Hc. simpl. split; [|done].
  apply map_eq. intros c'. destruct (decide (c' = c)) as [->|]; [by rewrite !lookup_insert_eq|].
  rewrite !lookup_insert_ne, lookup_alter_ne by done. done.
Qed.
Lemma foldl_end r l h :
  NoDup l → (∀ c, c ∈ l → ∃ fs, hub_clients h !! c = Some (mkClient r fs true)) →
  let h' := foldl (λ h c, cleanup c (write [FEnd] c h)) h l in
  (∀ c, hub_clients h' !! c = if decide (c ∈ l) then finish_client <$> hub_clients h !! c else hub_clients h !! c) ∧
  (∀ r' c, c ∈ log_subscribers r' (hub_logs h') ↔ c ∈ log_subscribers r' (hub_logs h) ∧ (r' = r → c ∉ l)) ∧
  (∀ r' c, c ∈ end_subscribers r' (hub_logs h') ↔ c ∈ end_subscribers r' (hub_logs h) ∧ (r' = r → c ∉ l)).
Proof.
  revert h. induction l as [|c0 l IH]; intros h Hnd Hl; simpl.
  { split_and!; intros; rewrite ?decide_False by set_solver; set_solver. }
  apply NoDup_cons in Hnd as [Hni Hnd]. destruct (Hl c0) as [fs0 Hc0]; [set_solver|].
  destruct (end_client c0 h r fs0 Hc0) as [Hcs Hlg].
  destruct (IH (cleanup c0 (write [FEnd] c0 h)) Hnd) as (H1 & H2 & H3).
  { intros c Hc. destruct (Hl c) as [fs Hfs]; [set_solver|]. exists fs. rewrite Hcs, lookup_insert_ne by set_solver. done. }
  split_and!.
  - intros c. rewrite H1, Hcs. destruct (decide (c = c0)) as [->|Hne].
    + rewrite (decide_False (P := c0 ∈ l)) by done. rewrite decide_True, lookup_insert_eq, Hc0 by set_solver. done.
    + rewrite lookup_insert_ne by done. destruct (decide (c ∈ l)); [rewrite decide_True by set_solver|rewrite decide_False by set_solver]; done.
  - intros r' c. rewrite H2, Hlg. unfold log_subscribers. simpl. rewrite subs_unsubscribe. case_decide as Hr; rewrite ?list_elem_of_filter, ?elem_of_cons; naive_solver.
  - intros r' c. rewrite H3, Hlg. unfold end_subscribers. simpl. rewrite subs_unsubscribe. case_decide as Hr; rewrite ?list_elem_of_filter, ?elem_of_cons; naive_solver.
Qed.

(** *** Every operation keeps the subscriptions in order *)
Lemma stream_ok c r h : hub_ok h → hub_clients h !! c = None → hub_ok (stream c r h).
Proof.
  intros Hok Hc. unfold stream. cbn zeta.
  assert (∀ h2, hub_logs h2 = onLog r c (hub_logs h) → (∃ fs, hub_clients h2 = <[c := mkClient r fs true]> (hub_clients h)) →
    hub_ok (mkHub (onEnd r c (hub_logs h2)) (hub_clients h2))) as Hsub.
  { intros h2 Hl [fs Hcs] r'. rewrite Hl, Hcs. destruct (Hok r') as (H1 & H2 & H3). unfold log_subscribers, end_subscribers in *. simpl in *.
    rewrite !subs_subscribe.
    assert (∀ c', c' ∈ subs (logListeners (hub_logs h)) r' ∨ c' ∈ subs (endListeners (hub_logs h)) r' → c' ≠ c) as Hne by (intros c' Hc' ->; destruct (H3 c Hc'); congruence).
    case_decide as Hr; [subst r'|].
    - split_and!.
      + apply NoDup_app. split_and!; [done| |apply NoDup_singleton]. intros c' Hc' ->%list_elem_of_singleton. by eapply Hne; [left|].
      + apply NoDup_app. split_and!; [done| |apply NoDup_singleton]. intros c' Hc' ->%list_elem_of_singleton. by eapply Hne; [right|].
      + intros c'. rewrite !elem_of_app, !list_elem_of_singleton. intros Hc'. destruct (decide (c' = c)) as [->|]; [rewrite lookup_insert_eq; eauto|].
        rewrite lookup_insert_ne by done. apply H3. naive_solver.
    - split_and!; [done..|]. intros c' Hc'. rewrite lookup_insert_ne by (intros ->; by eapply Hne). eauto. }
  destruct (isEnded r (hub_logs h)); [apply cleanup_ok|]; apply Hsub; [done| |done|]; simpl; [|eauto].
  eexists. apply map_eq. intros c'. destruct (decide (c' = c)) as [->|].
  - rewrite lookup_alter_eq, !lookup_insert_eq. simpl. reflexivity.
  - by rewrite lookup_alter_ne, !lookup_insert_ne by done.
Qed.
Lemma drop_logs_hub_ok r b cs : hub_ok (mkHub b cs) → hub_ok (mkHub (drop_logs r b) cs).
Proof.
  intros Hok r'. destruct (Hok r') as (H1 & H2 & H3). unfold log_subscribers, end_subscribers in *. simpl in *. rewrite !subs_delete.
  case_decide; [|done]. split_and!; [constructor..|]. set_solver.
Qed.
Lemma end_hub_spec r h : hub_ok h →
  (∀ c, hub_clients (end_hub r h) !! c =
     if decide (c ∈ end_subscribers r (hub_logs h)) then finish_client <$> hub_clients h !! c else hub_clients h !! c) ∧
  (∀ r' c, c ∈ log_subscribers r' (hub_logs (end_hub r h)) ↔ c ∈ log_subscribers r' (hub_logs h) ∧ (r' = r → c ∉ end_subscribers r (hub_logs h))) ∧
  (∀ r' c, c ∈ end_subscribers r' (hub_logs (end_hub r h)) ↔ c ∈ end_subscribers r' (hub_logs h) ∧ (r' = r → c ∉ end_subscribers r (hub_logs h))).
Proof.
  intros Hok. destruct (Hok r) as (_ & Hnd & Hopen). unfold end_hub.
  apply (foldl_end r _ (mkHub (markEnded r (hub_logs h)) (hub_clients h)) Hnd). simpl. intros c Hc. apply Hopen. by right.
Qed.
Lemma run_log_op_hub_ok cap op h : hub_ok h → hub_ok (run_log_op cap op h).
Proof.
  intros Hok. destruct op as [r s content ts|r|r|now r|r|c r|c]; simpl.
  - unfold append_hub. destruct (append cap r s content ts (hub_logs h)) as [b lines] eqn:Ha. apply foldl_write_ok. destruct h as [b0 cs].
    unfold append in Ha. simpl in Ha. case_bool_decide; injection Ha as <- _; [done|]. by eapply hub_ok_store; [..|exact Hok].
  - unfold end_hub. assert (hub_ok (mkHub (markEnded r (hub_logs h)) (hub_clients h))) as Hm by (destruct h; by eapply hub_ok_store; [..|exact Hok]).
    revert Hm. generalize (mkHub (markEnded r (hub_logs h)) (hub_clients h)). induction (end_subscribers r (hub_logs h)) as [|c l IH]; intros h0 H0; [done|].
    apply IH, cleanup_ok, hub_write_ok, H0.
  - destruct h. by apply drop_logs_hub_ok.
  - unfold retain. cbn zeta. set (b' := if (_ && _) then _ else hub_logs h).
    assert (hub_ok (mkHub b' (hub_clients h))) as Hb'; [|by eapply hub_ok_store; [..|exact Hb']].
    subst b'. destruct h as [b cs]. simpl. destruct (_ && _); [|done]. destruct (jm_keys _); [done|]. by apply drop_logs_hub_ok.
  - destruct (jm_has _ _); [|done]. destruct h. by apply drop_logs_hub_ok.
  - case_decide as Hc; [done|]. apply stream_ok; [done|]. by apply eq_None_not_Some.
  - by apply cleanup_ok.
Qed.
Lemma run_log_ops_hub_ok cap ops h : hub_ok h → hub_ok (run_log_ops cap ops h).
Proof. revert h. induction ops as [|op ops IH]; intros h Hh; [done|]. by apply IH, run_log_op_hub_ok. Qed.
Lemma no_hub_ok : hub_ok no_hub.
Proof. intros r. split_and!; [constructor..|]. set_solver. Qed.

(** *** The frames of one viewer *)
Definition attached (h : Hub) (c : nat) (r : string) (fs : list Frame) : Prop :=
  hub_clients h !! c = Some (mkClient r fs true) ∧
  c ∈ log_subscribers r (hub_logs h) ∧ c ∈ end_subscribers r (hub_logs h).

(** The frames that [ops] bring to a viewer [c] of [r], until the end of the stream or of the
    viewer; [None] when the logs of [r] are thrown away (or scheduled for it) before. *)
Fixpoint live (r : string) (c : nat) (ops : list LogOp) : option (list Frame) :=
  match ops with
  | [] => Some []
  | OpAppend r' s content ts :: ops' =>
      fs ← live r c ops'; Some ((if decide (r' = r) then FLog <$> log_lines s content ts else []) ++ fs)
  | OpEnd r' :: ops' => if decide (r' = r) then Some [FEnd] else live r c ops'
  | OpClose c' :: ops' => if decide (c' = c) then Some [] else live r c ops'
  | (OpDrop r' | OpRetain _ r' | OpExpire r') :: ops' => if decide (r' = r) then None else live r c ops'
  | OpConnect _ _ :: ops' => live r c ops'
  end.
(** What a viewer that connects in [h] sees behind the replay. *)
Definition to_come (h : Hub) (r : string) (c : nat) (ops : list LogOp) : option (list Frame) :=
  if isEnded r (hub_logs h) then Some [FEnd]
  else if jm_has (retainTimers (hub_logs h)) r then None else live r c ops.

Lemma closed_op cap op h c r fs :
  hub_ok h → hub_clients h !! c = Some (mkClient r fs false) → hub_clients (run_log_op cap op h) !! c = Some (mkClient r fs false).
Proof.
  intros Hok Hc.
  assert (∀ r', c ∉ log_subscribers r' (hub_logs h) ∧ c ∉ end_subscribers r' (hub_logs h)) as Hni.
  { intros r'. destruct (Hok r') as (_ & _ & H3). split; intros Hin; destruct (H3 c) as [? ?]; auto; congruence. }
  destruct op as [r' s content ts|r'|r'|now r'|r'|c' r'|c']; simpl.
  - unfold append_hub. destruct (append _ _ _ _ _ _) as [b lines]. rewrite foldl_write by apply Hok. rewrite decide_False by apply Hni. done.
  - rewrite (proj1 (end_hub_spec r' h Hok)), decide_False by apply Hni. done.
  - done.
  - done.
  - by destruct (jm_has _ _).
  - case_decide as Hc'; [done|]. assert (c ≠ c') by (intros ->; apply Hc'; eauto). unfold stream. cbn zeta.
    destruct (isEnded r' (hub_logs h)); unfold cleanup; simpl; [|by rewrite lookup_insert_ne].
    rewrite lookup_alter_eq, lookup_insert_eq. simpl. by rewrite lookup_insert_ne, lookup_alter_ne, lookup_insert_ne.
  - unfold cleanup. destruct (hub_clients h !! c') as [[r0 fs0 []]|] eqn:Hc'; [|done..]. simpl. rewrite lookup_insert_ne; [done|congruence].
Qed.
Lemma closed_ops cap ops h c r fs :
  hub_ok h → hub_clients h !! c = Some (mkClient r fs false) → hub_clients (run_log_ops cap ops h) !! c = Some (mkClient r fs false).
Proof.
  revert h. induction ops as [|op ops IH]; intros h Hok Hc; [done|]. apply IH; [by apply run_log_op_hub_ok|by apply closed_op].
Qed.

Lemma attached_append cap r' s content ts h c r fs : hub_ok h → attached h c r fs →
  attached (append_hub cap r' s content ts h) c r (fs ++ if decide (r' = r) then FLog <$> log_lines s content ts else []).
Proof.
  intros Hok (Hc & Hl & He). unfold append_hub. destruct (append cap r' s content ts (hub_logs h)) as [b lines] eqn:Ha.
  unfold attached. rewrite foldl_write_logs, foldl_write by apply Hok. simpl.
  assert (logListeners b = logListeners (hub_logs h) ∧ endListeners b = endListeners (hub_logs h) ∧ lines = log_lines s content ts) as (H1 & H2 & ->).
  { unfold append in Ha. case_bool_decide as Hn; injection Ha as <- <-; [|done]. unfold log_lines. by rewrite Hn. }
  unfold log_subscribers, end_subscribers. rewrite H1, H2. split; [|done]. destruct (Hok r') as (_ & _ & H3). destruct (decide (r' = r)) as [->|Hr].
  - rewrite decide_True by done. by rewrite Hc.
  - rewrite decide_False, app_nil_r; [done|]. intros Hin. destruct (H3 c) as [? ?]; [by left|]. congruence.
Qed.
Lemma attached_end r' h c r fs : hub_ok h → attached h c r fs → r' ≠ r → attached (end_hub r' h) c r fs.
Proof.
  intros Hok (Hc & Hl & He) Hr. destruct (end_hub_spec r' h Hok) as (H1 & H2 & H3). destruct (Hok r') as (_ & _ & H4).
  split; [|split]; [|apply H2; naive_solver|apply H3; naive_solver]. rewrite H1, decide_False; [done|]. intros Hin.
  destruct (H4 c) as [? ?]; [by right|]. congruence.
Qed.
Lemma attached_drop r' h c r fs : attached h c r fs → r' ≠ r → attached (mkHub (drop_logs r' (hub_logs h)) (hub_clients h)) c r fs.
Proof. intros (Hc & Hl & He) Hr. unfold attached, log_subscribers, end_subscribers. simpl. by rewrite !jm_get_delete_ne. Qed.
Lemma attached_retain now r' h c r fs : attached h c r fs → jm_has (retainTimers (hub_logs h)) r = false →
  attached (mkHub (retain now r' (hub_logs h)) (hub_clients h)) c r fs.
Proof.
  intros Hat Hn. unfold retain. cbn zeta. set (b' := if (_ && _) then _ else hub_logs h).
  assert (attached (mkHub b' (hub_clients h)) c r fs) as Hb'; [|exact Hb']. subst b'. destruct (_ && _); [|done].
  destruct (jm_keys (retainTimers (hub_logs h))) as [|o ks] eqn:Hk; [done|]. apply attached_drop; [done|]. intros ->.
  unfold jm_has in Hn. apply bool_decide_eq_false in Hn. apply Hn. destruct (jm_get _ r) eqn:Hg; [eauto|]. apply jm_get_None in Hg. rewrite Hk in Hg. set_solver.
Qed.
Lemma attached_stream c' r' h c r fs : attached h c r fs → hub_clients h !! c' = None → attached (stream c' r' h) c r fs.
Proof.
  intros (Hc & Hl & He) Hc'. assert (c ≠ c') by congruence. unfold stream, attached, log_subscribers, end_subscribers in *. cbn zeta.
  destruct (isEnded r' (hub_logs h)); unfold cleanup; simpl.
  - rewrite lookup_alter_eq, lookup_insert_eq. simpl. rewrite lookup_insert_ne, lookup_alter_ne, lookup_insert_ne by done.
    rewrite !subs_unsubscribe, !subs_subscribe. split; [done|]. case_decide; rewrite ?list_elem_of_filter, ?elem_of_app; naive_solver.
  - rewrite lookup_insert_ne by done. rewrite !subs_subscribe. split; [done|]. case_decide; rewrite ?elem_of_app; naive_solver.
Qed.
Lemma attached_cleanup c' h c r fs : attached h c r fs → c' ≠ c → attached (cleanup c' h) c r fs.
Proof.
  intros (Hc & Hl & He) Hne. unfold cleanup. destruct (hub_clients h !! c') as [[r0 fs0 []]|]; [|done..].
  unfold attached, log_subscribers, end_subscribers in *. simpl. rewrite lookup_insert_ne by done. rewrite !subs_unsubscribe.
  split; [done|]. case_decide; rewrite ?list_elem_of_filter; naive_solver.
Qed.

Lemma jm_has_false {V} (m : list (string * V)) k : jm_has m k = false ↔ jm_get m k = None.
Proof. unfold jm_has. rewrite bool_decide_eq_false, <- eq_None_not_Some. done. Qed.
Lemma jm_get_delete_None {V} (m : list (string * V)) k k' : jm_get m k' = None → jm_get (jm_delete m k) k' = None.
Proof. destruct (decide (k = k')) as [->|]; [rewrite jm_get_delete_eq; done|by rewrite jm_get_delete_ne]. Qed.

(** Only [retain] sets a timer. *)
Lemma run_log_op_timers cap op h r :
  (∀ now, op ≠ OpRetain now r) → jm_get (retainTimers (hub_logs h)) r = None → jm_get (retainTimers (hub_logs (run_log_op cap op h))) r = None.
Proof.
  intros Hop Hn. destruct op as [r' s content ts|r'|r'|now r'|r'|c' r'|c']; simpl.
  - destruct (append_hub_store cap r' s content ts h) as (_ & _ & ->). unfold append. by case_bool_decide.
  - by destruct (end_hub_store r' h) as (_ & _ & ->).
  - by apply jm_get_delete_None.
  - assert (r' ≠ r) by (intros ->; by eapply Hop). unfold retain. cbn zeta. simpl. rewrite jm_get_set_ne by done.
    destruct (_ && _); [|done]. destruct (jm_keys _); [done|]. simpl. by apply jm_get_delete_None.
  - destruct (jm_has _ _); [|done]. simpl. by apply jm_get_delete_None.
  - case_decide; [done|]. by destruct (stream_store c' r' h) as (_ & _ & ->).
  - by destruct (cleanup_store c' h) as (_ & _ & ->).
Qed.

Lemma attached_ops cap ops h c r fs new :
  hub_ok h → attached h c r fs → jm_get (retainTimers (hub_logs h)) r = None → live r c ops = Some new →
  cl_frames <$> hub_clients (run_log_ops cap ops h) !! c = Some (fs ++ new).
Proof.
  revert h fs new. induction ops as [|op ops IH]; intros h fs new Hok Hat Hn Hlive.
  { injection Hlive as <-. destruct Hat as [Hc _]. simpl. by rewrite Hc, app_nil_r. }
  pose proof (run_log_op_hub_ok cap op h Hok) as Hok'. change (run_log_ops cap (op :: ops) h) with (run_log_ops cap ops (run_log_op cap op h)).
  assert (∀ new' fs', (∀ now, op ≠ OpRetain now r) → attached (run_log_op cap op h) c r fs' → live r c ops = Some new' → fs ++ new = fs' ++ new' →
    cl_frames <$> hub_clients (run_log_ops cap ops (run_log_op cap op h)) !! c = Some (fs ++ new)) as Hgo.
  { intros new' fs' Hop Hat' Hl ->. eapply IH; try done. by apply run_log_op_timers. }
  destruct op as [r' s content ts|r'|r'|now r'|r'|c' r'|c']; simpl in Hlive.
  - destruct (live r c ops) as [new'|] eqn:Hl; [|done]. injection Hlive as <-. eapply Hgo; [done|by apply attached_append|done|]. by rewrite <- app_assoc.
  - case_decide as Hr; [subst r'|by eapply Hgo; [done|apply attached_end|..]]. injection Hlive as <-. destruct Hat as (Hc & _ & He).
    destruct (end_hub_spec r h Hok) as (H1 & _). erewrite closed_ops; [|done|simpl; rewrite H1, decide_True, Hc by done; reflexivity]. done.
  - case_decide; [done|]. eapply Hgo; [done|by apply attached_drop|done..].
  - case_decide as Hr; [done|]. eapply Hgo; [congruence|apply attached_retain; [done|by apply jm_has_false]|done..].
  - case_decide as Hr; [done|]. eapply Hgo; [done| |done..]. simpl. destruct (jm_has _ _); [by apply attached_drop|done].
  - eapply Hgo; [done| |done..]. simpl. case_decide as Hc'; [done|]. apply attached_stream; [done|]. by apply eq_None_not_Some.
  - case_decide as Hc'; [subst c'|by eapply Hgo; [done|apply attached_cleanup|..]]. injection Hlive as <-. destruct Hat as (Hc & _ & _).
    erewrite closed_ops; [|done|simpl; unfold cleanup; rewrite Hc; simpl; by rewrite lookup_insert_eq]. simpl. by rewrite app_nil_r.
Qed.

(** A viewer of a launch misses nothing.  Whatever happened on the worker before, a viewer
    that connects to the logs of a runner gets the buffered lines, then every further line
    of this runner in order (the polls left out), then one end frame, and nothing behind it;
    one that connects after the end gets the buffered lines and the end frame at once.  This
    holds until the logs are thrown away, which the worker does only to ended ones. *)
Theorem viewer_sees_launch cap before after c r frames :
  let h := run_log_ops cap before no_hub in
  hub_clients h !! c = None → to_come h r c after = Some frames →
  cl_frames <$> hub_clients (run_log_ops cap (OpConnect c r :: after) h) !! c =
    Some ((FLog <$> getBuffer r (hub_logs h)) ++ frames).
Proof.
  cbn zeta. set (h := run_log_ops cap before no_hub). intros Hc Hcome. assert (hub_ok h) as Hok by apply run_log_ops_hub_ok, no_hub_ok.
  change (run_log_ops cap (OpConnect c r :: after) h) with (run_log_ops cap after (run_log_op cap (OpConnect c r) h)).
  pose proof (run_log_op_hub_ok cap (OpConnect c r) h Hok) as Hok'.
  unfold to_come in Hcome. simpl in Hok' |- *. rewrite decide_False in Hok' |- * by (rewrite Hc; by intros [? ?]).
  destruct (isEnded r (hub_logs h)) eqn:He.
  - injection Hcome as <-. erewrite closed_ops; [|done|]; [|unfold stream; cbn zeta; rewrite He; unfold cleanup; simpl;
      rewrite lookup_alter_eq, lookup_insert_eq; simpl; by rewrite lookup_insert_eq]. done.
  - destruct (jm_has _ r) eqn:Hh; [done|]. eapply attached_ops; [done| | |done].
    + unfold stream, attached, log_subscribers, end_subscribers. cbn zeta. rewrite He. simpl. rewrite lookup_insert_eq, !subs_subscribe, !decide_True by done.
      set_solver.
    + destruct (stream_store c r h) as (_ & _ & ->). by apply jm_has_false.
Qed.

Definition ex_chunk : string := "loading" +:+ String newline ("weights" +:+ String newline "").
Lemma viewer_sees_launch_witness :
  cl_frames <$> hub_clients (run_log_ops 10 [OpConnect 1 "r"; OpAppend "r" stdout "ready" (λ _, "t2"); OpEnd "r"; OpAppend "r" stdout "GET" (λ _, "t3")]
    (run_log_ops 10 [OpAppend "r" stdout ex_chunk (λ n, show_int (Z.of_nat n))] no_hub)) !! 1 =
  Some [FLog (mkLine "0" stdout "loading"); FLog (mkLine "1" stdout "weights"); FLog (mkLine "t2" stdout "ready"); FEnd].
Proof. apply (viewer_sees_launch 10 [OpAppend "r" stdout ex_chunk (λ n, show_int (Z.of_nat n))] _ 1 "r" [FLog (mkLine "t2" stdout "ready"); FEnd]); reflexivity. Defined.
