(* ===== verification/StartupLogs.v ===== *)
(** * Durable startup logs
    (control-plane/src/services: startup-log-capture.ts, startup-log-repository.ts; routes/model-logs.ts)

    The control plane copies the log stream of a starting runner ([RunnerLogs]) into its
    database and shows it to viewers from there.  The stream is text that arrives in arbitrary
    pieces; the database is two tables.  JSON, and what happens to the connections, are
    arguments. *)
From stdpp Require Import base tactics list sorting strings gmap sets.
From Stdlib Require Import ZArith Lia Ascii Sorted.
From S2P Require Import Prelude Js RunnerLogs.

(** ** Server-sent events *)
Definition LF : ascii := "010"%char.
Definition CR : ascii := "013"%char.
(** The length of [/\r?\n/] at the front of a text, and of [/\r?\n\r?\n/]. *)
Definition eol_len (s : string) : option nat :=
  match s with
  | String a s' =>
      if decide (a = LF) then Some 1 else
      match s' with String b _ => if decide (a = CR ∧ b = LF) then Some 2 else None | EmptyString => None end
  | EmptyString => None
  end.
Definition gap_len (s : string) : option nat :=
  n ← eol_len s; m ← eol_len (str_drop n s); Some (n + m).

(** [s.split(re)], where [len] gives the length of the separator at the front of a text; [skip]
    characters still belong to the last one. *)
Definition onto (c : ascii) (pieces : list string) : list string :=
  match pieces with p :: ps => String c p :: ps | [] => [String c ""] end.
Section split.
Context (len : string → option nat).
Fixpoint split_go (skip : nat) (s : string) : list string :=
  match s with
  | EmptyString => [""]
  | String c s' =>
      match skip with
      | S k => split_go k s'
      | O => match len s with Some n => "" :: split_go (n - 1) s' | None => onto c (split_go 0 s') end
      end
  end.
Definition split_by : string → list string := split_go 0.
End split.
Definition split_frames : string → list string := split_by gap_len.
Definition split_lines : string → list string := split_by eol_len.

Section logs.
Context (JSON_parse : string → option json).
Definition event_of (frame : string) : option string :=
  line ← List.find (starts_with "event:") (split_lines frame); Some (js_trim (str_drop 6 line)).
Definition data_of (frame : string) : string :=
  js_join (String LF "") ((λ line, trim_start (str_drop 5 line)) <$> List.filter (starts_with "data:") (split_lines frame)).
Definition stream_of (s : string) : option LogStream :=
  if decide (s = "stdout") then Some stdout else if decide (s = "stderr") then Some stderr else None.
Definition line_of (v : json) : option RunnerLogLine :=
  match v with
  | JObj o =>
      ts ← is_string (obj_get o "ts"); s ← is_string (obj_get o "stream") ≫= stream_of; content ← is_string (obj_get o "content");
      Some (mkLine ts s content)
  | _ => None
  end.
Definition frame_line (frame : string) : option RunnerLogLine :=
  if bool_decide (event_of frame = Some "log") && negb (bool_decide (data_of frame = "")) then JSON_parse (data_of frame) ≫= line_of else None.

(** One round of the loop of [consume]: the buffer, and the lines handed to [append]. *)
Definition consume_chunk (buffer chunk : string) : string * list RunnerLogLine :=
  let frames := split_frames (buffer +:+ chunk) in
  (List.last frames "", omap frame_line (List.removelast frames)).
Fixpoint consume_from (buffer : string) (chunks : list string) : list (list RunnerLogLine) :=
  match chunks with
  | [] => []
  | c :: cs => let '(buffer', lines) := consume_chunk buffer c in lines :: consume_from buffer' cs
  end.
(** [consume]: the batches, one for each piece. *)
Definition consume (chunks : list string) : list (list RunnerLogLine) := consume_from "" chunks.
End logs.

(** ** The repository *)
Inductive StartupLogOutcome := IN_PROGRESS | SUCCEEDED | OUTCOME_FAILED | UNKNOWN.
Record StartupLogSession := mkSession {
  ss_instanceId : string;
  ss_modelName : string;
  ss_workerId : string;
  ss_outcome : StartupLogOutcome;
  ss_captureComplete : bool;
  ss_errorMessage : option string;
}.
Record LineRow := mkRow { lr_id : nat; lr_instance : string; lr_line : RunnerLogLine }.
(** The tables: the sessions in order of insertion, the lines in order of their serial id, and
    the sequence of ids, which never goes back. *)
Record LogDb := mkLogDb { ld_sessions : list StartupLogSession; ld_lines : list LineRow; ld_next : nat }.
Definition empty_logs : LogDb := mkLogDb [] [] 1.

Definition createSession (i model worker : string) (d : LogDb) : LogDb :=
  if existsb (λ s, bool_decide (ss_instanceId s = i)) (ld_sessions d) then d
  else mkLogDb (ld_sessions d ++ [mkSession i model worker IN_PROGRESS false None]) (ld_lines d) (ld_next d).
Definition append_lines (i : string) (lines : list RunnerLogLine) (d : LogDb) : LogDb :=
  mkLogDb (ld_sessions d) (ld_lines d ++ imap (λ n l, mkRow (ld_next d + n) i l) lines) (ld_next d + length lines).
Definition clearLines (i : string) (d : LogDb) : LogDb :=
  mkLogDb (ld_sessions d) (List.filter (λ r, negb (bool_decide (lr_instance r = i))) (ld_lines d)) (ld_next d).
Definition update_session (i : string) (f : StartupLogSession → StartupLogSession) (d : LogDb) : LogDb :=
  mkLogDb ((λ s, if decide (ss_instanceId s = i) then f s else s) <$> ld_sessions d) (ld_lines d) (ld_next d).
Definition markCaptureComplete (i : string) : LogDb → LogDb :=
  update_session i (λ s, mkSession (ss_instanceId s) (ss_modelName s) (ss_workerId s) (ss_outcome s) true (ss_errorMessage s)).
Definition markOutcome (i : string) (outcome : StartupLogOutcome) (err : option string) : LogDb → LogDb :=
  update_session i (λ s, mkSession (ss_instanceId s) (ss_modelName s) (ss_workerId s) outcome (ss_captureComplete s) err).
Definition find_session (i : string) (d : LogDb) : option StartupLogSession :=
  List.find (λ s, bool_decide (ss_instanceId s = i)) (ld_sessions d).
Definition listIncomplete (d : LogDb) : list StartupLogSession := List.filter (λ s, negb (ss_captureComplete s)) (ld_sessions d).
(** The timestamps of a worker's lines are ISO texts, which [toISOString] of the stored time gives back. *)
Definition linesAfter (i : string) (after : nat) (d : LogDb) : list LineRow :=
  List.filter (λ r, bool_decide (lr_instance r = i) && Nat.ltb after (lr_id r)) (ld_lines d).
Definition lines_of (i : string) (d : LogDb) : list RunnerLogLine := lr_line <$> linesAfter i 0 d.

(** ** The capture *)
(** One round of the loop of [capture]: there was nothing to read from (no such worker, no
    answer, not a stream), or a stream was read, to its end or up to a failure. *)
Inductive Attempt := NoStream | Streamed (chunks : list string) (finished : bool).
Section capture.
Context (JSON_parse : string → option json).
Definition attempt_capture (i : string) (a : Attempt) (d : LogDb) : bool * LogDb :=
  match a with
  | NoStream => (false, d)
  | Streamed chunks finished =>
      let d' := foldl (λ d lines, append_lines i lines d) (clearLines i d) (consume JSON_parse chunks) in
      if finished then (true, markCaptureComplete i d') else (false, d')
  end.
(** The loop, on the attempts made; the flag says whether it has returned. *)
Fixpoint capture (i : string) (attempts : list Attempt) (d : LogDb) : bool * LogDb :=
  match attempts with
  | [] => (false, d)
  | a :: rest => let '(ended_, d') := attempt_capture i a d in if ended_ then (true, d') else capture i rest d'
  end.
End capture.

(** ** The viewer (routes/model-logs.ts) *)
Inductive Shown := ShownLine (l : RunnerLogLine) | ShownEnd.
Record Viewer := mkViewer { vw_cursor : nat; vw_shown : list Shown; vw_ended : bool }.
Definition new_viewer : Viewer := mkViewer 0 [] false.
Definition row_line (r : LineRow) : Shown := ShownLine (lr_line r).
(** The two awaits of a round: the new lines, then the session. *)
Definition show_lines (i : string) (d : LogDb) (v : Viewer) : Viewer :=
  if vw_ended v then v else
  let rows := linesAfter i (vw_cursor v) d in
  mkViewer (match List.last (Some <$> rows) None with Some r => lr_id r | None => vw_cursor v end)
    (vw_shown v ++ (row_line <$> rows)) false.
Definition check_session (i : string) (d : LogDb) (v : Viewer) : Viewer :=
  if vw_ended v then v else
  match find_session i d with
  | Some s => if ss_captureComplete s then mkViewer (vw_cursor v) (vw_shown v ++ [ShownEnd]) true else v
  | None => v
  end.

(** ** Frames do not depend on how the text arrives *)
Section split_lemmas.
Context (len : string → option nat).
Hypothesis len_pos : ∀ s n, len s = Some n → 0 < n.
Hypothesis len_empty : len "" = None.
Lemma split_go_skip k s : split_go len k s = split_go len 0 (str_drop k s).
Proof.
  revert k. induction s as [|c s IH]; intros k; [by destruct k|]. destruct k as [|k]; [done|]. simpl split_go at 1. simpl str_drop. apply IH.
Qed.
Lemma split_by_eq s :
  split_by len s = match len s with
                   | Some n => "" :: split_by len (str_drop n s)
                   | None => match s with EmptyString => [""] | String c s' => onto c (split_by len s') end
                   end.
Proof.
  unfold split_by. destruct s as [|c s]; [by rewrite len_empty|]. cbn [split_go]. destruct (len (String c s)) as [n|] eqn:Hl; [|done].
  rewrite split_go_skip. apply len_pos in Hl. destruct n as [|n]; [lia|]. by replace (S n - 1) with n by lia.
Qed.
Lemma split_by_not_nil s : split_by len s ≠ [].
Proof. rewrite split_by_eq. destruct (len s); [done|]. destruct s; [done|]. by destruct (split_by len s). Qed.
Lemma str_length_drop n s : str_length (str_drop n s) = str_length s - n.
Proof. revert s. induction n as [|n IH]; intros [|c s]; simpl; [done|lia|done|]. apply IH. Qed.
(** A single piece is the text. *)
Lemma split_by_single s t : split_by len s = [t] → t = s.
Proof.
  revert t. induction s as [|c s IH]; intros t; rewrite split_by_eq; [rewrite len_empty; congruence|].
  destruct (len (String c s)) as [n|]; [intros [= _ Hn]; by apply split_by_not_nil in Hn|].
  pose proof (split_by_not_nil s). destruct (split_by len s) as [|p ps] eqn:E; [done|]. intros [= <- ->]. f_equal. by apply IH.
Qed.
(** The last piece has no separator in it. *)
Lemma split_by_last s fs t : split_by len s = fs ++ [t] → split_by len t = [t].
Proof.
  remember (str_length s) as n eqn:Hn. revert s fs t Hn. induction (lt_wf n) as [n _ IH]; intros s fs t ->. intros Hs.
  destruct fs as [|f fs]; [simpl in Hs; by pose proof (split_by_single _ _ Hs) as ->|].
  rewrite split_by_eq in Hs. destruct (len s) as [n|] eqn:Hl.
  - injection Hs as <- Hs. eapply (IH (str_length (str_drop n s))); [|reflexivity|exact Hs]. rewrite str_length_drop. apply len_pos in Hl as ?.
    destruct s; [congruence|]. simpl. lia.
  - destruct s as [|c s]; [by destruct fs|]. pose proof (split_by_not_nil s). destruct (split_by len s) as [|p ps] eqn:E; [done|]. injection Hs as <- ->.
    eapply (IH (str_length s)); [simpl; lia|reflexivity|]. rewrite E. by instantiate (1 := p :: fs).
Qed.

Hypothesis len_app : ∀ a b n, len a = Some n → len (a +:+ b) = Some n ∧ n ≤ str_length a.
Hypothesis len_cut : ∀ a b n, len a = None → len (a +:+ b) = Some n → split_by len a = [a].
(** What has been split so far stays split; only the last piece may grow. *)
Lemma split_by_app a b fs t : split_by len a = fs ++ [t] → split_by len (a +:+ b) = fs ++ split_by len (t +:+ b).
Proof.
  remember (str_length a) as n eqn:Hn. revert a fs t Hn. induction (lt_wf n) as [n _ IH]; intros a fs t -> Ha.
  destruct fs as [|f fs]; [simpl in *; by pose proof (split_by_single _ _ Ha) as ->|].
  rewrite split_by_eq in Ha. destruct (len a) as [n|] eqn:Hl.
  - injection Ha as <- Ha. destruct (len_app a b n Hl) as [Hlb Hle]. rewrite split_by_eq, Hlb. simpl. f_equal.
    assert (str_drop n (a +:+ b) = str_drop n a +:+ b) as ->.
    { clear -Hle. revert a Hle. induction n as [|n IH]; intros [|c a]; simpl; intros; [done|done|lia|]. apply IH. lia. }
    apply (IH (str_length (str_drop n a))); [|reflexivity|exact Ha]. rewrite str_length_drop. apply len_pos in Hl. lia.
  - destruct a as [|c a]; [by destruct fs|]. destruct (len (String c a +:+ b)) as [n|] eqn:Hlb.
    { apply len_cut in Hlb; [|done]. rewrite split_by_eq, Hl in Hlb. rewrite Hlb in Ha. by destruct fs. }
    rewrite split_by_eq, Hlb, str_app_cons. pose proof (split_by_not_nil a). destruct (split_by len a) as [|p ps] eqn:E; [done|]. injection Ha as <- ->.
    rewrite (IH (str_length a) ltac:(simpl; lia) a (p :: fs) t eq_refl E). done.
Qed.
End split_lemmas.

Lemma eol_len_bounds s n : eol_len s = Some n → 0 < n ≤ str_length s.
Proof. destruct s as [|a [|b s]]; simpl; [done|..]; repeat case_decide; intros [= <-]; lia. Qed.
Lemma eol_len_app a b n : eol_len a = Some n → eol_len (a +:+ b) = Some n.
Proof. destruct a as [|x [|y a]]; [done|..]; rewrite ?str_app_cons; simpl; repeat case_decide; done. Qed.
Lemma eol_len_cut a b n : eol_len a = None → eol_len (a +:+ b) = Some n → a = "" ∨ a = String CR "".
Proof.
  destruct a as [|x a]; [by left|]. rewrite str_app_cons. simpl. case_decide; [done|]. destruct a as [|y a].
  - intros _. change ("" +:+ b) with b. destruct b as [|z b]; [done|]. case_decide as Hd; [|done]. intros _. right. by destruct Hd as [-> _].
  - rewrite str_app_cons. intros ->. done.
Qed.
Lemma str_drop_split n a b : n ≤ str_length a → str_drop n (a +:+ b) = str_drop n a +:+ b.
Proof. revert a. induction n as [|n IH]; intros [|c a]; simpl; intros; [done|done|lia|]. apply IH. lia. Qed.
Lemma gap_len_app a b n : gap_len a = Some n → gap_len (a +:+ b) = Some n ∧ n ≤ str_length a.
Proof.
  unfold gap_len. intros (k & Hk & (m & Hm & [= <-])%bind_Some)%bind_Some. pose proof (eol_len_bounds _ _ Hk). pose proof (eol_len_bounds _ _ Hm) as Hb.
  rewrite str_length_drop in Hb. rewrite (eol_len_app _ _ _ Hk). simpl. rewrite str_drop_split by lia. rewrite (eol_len_app _ _ _ Hm). simpl. split; [done|lia].
Qed.
Lemma gap_len_pos s n : gap_len s = Some n → 0 < n.
Proof. unfold gap_len. intros (k & Hk & (m & Hm & [= <-])%bind_Some)%bind_Some. apply eol_len_bounds in Hk. lia. Qed.
Lemma gap_len_cut a b n : gap_len a = None → gap_len (a +:+ b) = Some n → split_frames a = [a].
Proof.
  unfold gap_len at 1 2. intros Ha (k & Hk & (m & Hm & _)%bind_Some)%bind_Some. destruct (eol_len a) as [k'|] eqn:Hl.
  - rewrite (eol_len_app _ _ _ Hl) in Hk. injection Hk as ->. simpl in Ha. destruct (eol_len (str_drop k a)) eqn:Hl2; [done|].
    pose proof (eol_len_bounds _ _ Hl) as Hb. rewrite str_drop_split in Hm by lia. destruct (eol_len_cut _ _ _ Hl2 Hm) as [Hd|Hd].
    all: destruct a as [|x a]; [done|]; simpl in Hl; case_decide; [injection Hl as <-|destruct a as [|y a]; [done|]; case_decide as Hxy; [|done]; injection Hl as <-; destruct Hxy as [-> ->]];
      subst; cbn [str_drop] in Hd; first [replace a with "" by (by destruct a)|replace a with (String CR "") by (by destruct a)]; by vm_compute.
  - destruct (eol_len_cut _ _ _ Hl Hk) as [-> | ->]; by vm_compute.
Qed.
Lemma split_frames_app a b fs t : split_frames a = fs ++ [t] → split_frames (a +:+ b) = fs ++ split_frames (t +:+ b).
Proof. apply split_by_app; [apply gap_len_pos|done|apply gap_len_app|apply gap_len_cut]. Qed.
Lemma split_frames_snoc s : ∃ fs t, split_frames s = fs ++ [t] ∧ split_frames t = [t].
Proof.
  pose proof (split_by_not_nil gap_len gap_len_pos eq_refl s) as Hne. destruct (exists_last Hne) as (fs & t & E). exists fs, t. split; [exact E|].
  eapply split_by_last; [apply gap_len_pos|done|exact E].
Qed.

Lemma consume_from_spec JSON_parse buffer chunks :
  split_frames buffer = [buffer] →
  concat (consume_from JSON_parse buffer chunks) = omap (frame_line JSON_parse) (List.removelast (split_frames (buffer +:+ foldr String.append "" chunks))).
Proof.
  revert buffer. induction chunks as [|c cs IH]; intros buffer Hb; simpl foldr; [by rewrite str_app_nil_r, Hb|].
  destruct (split_frames_snoc (buffer +:+ c)) as (fs & t & E & Ht). cbn [consume_from]. unfold consume_chunk. rewrite E, last_last, removelast_last.
  cbn [concat]. rewrite (IH t Ht). rewrite <- str_app_assoc, (split_frames_app _ _ _ _ E).
  rewrite removelast_app by (apply split_by_not_nil; [apply gap_len_pos|done]). by rewrite omap_app.
Qed.
Lemma consume_spec JSON_parse chunks :
  concat (consume JSON_parse chunks) = omap (frame_line JSON_parse) (List.removelast (split_frames (foldr String.append "" chunks))).
Proof. by apply (consume_from_spec JSON_parse ""). Qed.

(** The captured lines do not depend on how the stream is cut.  Whatever the pieces in which
    the text arrives, even in the middle of a line break, [consume] stores the lines of the
    frames that are complete in the whole text, in their order. *)
Theorem consume_any_chunks JSON_parse chunks :
  concat (consume JSON_parse chunks) = omap (frame_line JSON_parse) (List.removelast (split_frames (foldr String.append "" chunks))).
Proof. apply consume_spec. Qed.

(** ** A stream of the worker, read back *)
Definition stream_text (s : LogStream) : string := match s with stdout => "stdout" | stderr => "stderr" end.
Definition line_json (l : RunnerLogLine) : json := JObj [("ts", JStr (ll_ts l)); ("stream", JStr (stream_text (ll_stream l))); ("content", JStr (ll_content l))].
(** The JSON of a log line as the worker writes it, without indentation: read back by
    [JSON.parse], in one line, and beginning with its brace. *)
Class JsonText := {
  JSON_stringify : json → string;
  JSON_parse_text : string → option json;
  json_roundtrip l : JSON_parse_text (JSON_stringify (line_json l)) = Some (line_json l);
  json_one_line l : has_char LF (JSON_stringify (line_json l)) = false ∧ has_char CR (JSON_stringify (line_json l)) = false;
  json_front l : starts_with "{" (JSON_stringify (line_json l)) = true;
}.
Section roundtrip.
Context `{!JsonText}.
Definition nl : string := String LF "".
(** What routes/logs.ts of the worker writes for a frame, and for a ping. *)
Definition frame_text (f : Frame) : string :=
  match f with
  | FLog l => "event: log" +:+ nl +:+ "data: " +:+ JSON_stringify (line_json l) +:+ nl +:+ nl
  | FEnd => "event: end" +:+ nl +:+ "data: {}" +:+ nl +:+ nl
  end.
Definition ping_text : string := ": ping" +:+ nl +:+ nl.

Lemma eol_none c s : c ≠ LF → c ≠ CR → eol_len (String c s) = None.
Proof. intros. simpl. rewrite decide_False by done. destruct s; [done|]. rewrite decide_False by naive_solver. done. Qed.
Lemma split_plain len a s : (∀ c t, c ≠ LF → c ≠ CR → len (String c t) = None) → (∀ t n, len t = Some n → 0 < n) → len "" = None →
  has_char LF a = false → has_char CR a = false → ∃ p ps, split_by len s = p :: ps ∧ split_by len (a +:+ s) = (a +:+ p) :: ps.
Proof.
  intros Hnone Hpos Hempty. induction a as [|c a IH]; intros H1 H2.
  - pose proof (split_by_not_nil len Hpos Hempty s). destruct (split_by len s) as [|p ps] eqn:E; [done|]. exists p, ps. split; [done|]. by change ("" +:+ s) with s.
  - simpl in H1, H2. apply orb_false_iff in H1 as [Hc1%bool_decide_eq_false H1], H2 as [Hc2%bool_decide_eq_false H2].
    destruct (IH H1 H2) as (p & ps & E & E'). exists p, ps. split; [done|]. rewrite str_app_cons, split_by_eq by done. rewrite Hnone by congruence.
    by rewrite E'.
Qed.

Lemma gap_none c s : c ≠ LF → c ≠ CR → gap_len (String c s) = None.
Proof. intros. unfold gap_len. by rewrite eol_none. Qed.
Lemma eol_len_pos s n : eol_len s = Some n → 0 < n.
Proof. intros ?%eol_len_bounds. lia. Qed.
Definition plain (s : string) : Prop := has_char LF s = false ∧ has_char CR s = false.
Lemma plain_front c s : plain (String c s) → c ≠ LF ∧ c ≠ CR.
Proof. intros [H1 H2]. simpl in *. apply orb_false_iff in H1 as [?%bool_decide_eq_false _], H2 as [?%bool_decide_eq_false _]. split; congruence. Qed.
Lemma split_frames_plain a rest : plain a → split_frames (a +:+ nl +:+ nl +:+ rest) = a :: split_frames rest.
Proof.
  intros [H1 H2]. destruct (split_plain gap_len a (nl +:+ nl +:+ rest) gap_none gap_len_pos eq_refl H1 H2) as (p & ps & E & E').
  unfold split_frames. rewrite E'. rewrite split_by_eq in E by (done || apply gap_len_pos). change (gap_len (nl +:+ nl +:+ rest)) with (Some 2) in E.
  cbn [str_drop nl] in E. change (str_drop 2 (nl +:+ nl +:+ rest)) with (str_drop 0 rest) in E. replace (str_drop 0 rest) with rest in E by (by destruct rest).
  injection E as <- <-. by rewrite str_app_nil_r.
Qed.
Lemma split_frames_two a b rest : plain a → plain b → b ≠ "" → split_frames (a +:+ nl +:+ b +:+ nl +:+ nl +:+ rest) = (a +:+ nl +:+ b) :: split_frames rest.
Proof.
  intros [H1 H2] Hb Hne. destruct (split_plain gap_len a (nl +:+ b +:+ nl +:+ nl +:+ rest) gap_none gap_len_pos eq_refl H1 H2) as (p & ps & E & E').
  assert (gap_len (nl +:+ b +:+ nl +:+ nl +:+ rest) = None) as Hg.
  { destruct b as [|c b]; [done|]. destruct (plain_front _ _ Hb). change (gap_len (nl +:+ String c b +:+ nl +:+ nl +:+ rest)) with (m ← eol_len (String c (b +:+ nl +:+ nl +:+ rest)); Some (1 + m)).
    by rewrite eol_none. }
  assert (split_by gap_len (nl +:+ b +:+ nl +:+ nl +:+ rest) = onto LF (split_frames (b +:+ nl +:+ nl +:+ rest))) as Hs
    by (rewrite split_by_eq, Hg by (done || apply gap_len_pos); done).
  rewrite split_frames_plain in Hs by done. rewrite Hs in E. injection E as <- <-. unfold split_frames. by rewrite E'.
Qed.
Lemma split_lines_two a b : plain a → plain b → split_lines (a +:+ nl +:+ b) = [a; b].
Proof.
  intros [H1 H2] [H3 H4]. destruct (split_plain eol_len a (nl +:+ b) eol_none eol_len_pos eq_refl H1 H2) as (p & ps & E & E').
  destruct (split_plain eol_len b "" eol_none eol_len_pos eq_refl H3 H4) as (p' & ps' & E2 & E2'). injection E2 as <- <-. rewrite !str_app_nil_r in E2'.
  assert (split_by eol_len (nl +:+ b) = "" :: split_by eol_len b) as Hs.
  { rewrite split_by_eq by (done || apply eol_len_pos). change (eol_len (nl +:+ b)) with (Some 1). cbv iota. by destruct b. }
  rewrite Hs, E2' in E. injection E as <- <-. unfold split_lines. by rewrite E', str_app_nil_r.
Qed.

(** What arrives: frames, and pings ([None]). *)
Definition item_text (it : option Frame) : string := match it with Some f => frame_text f | None => ping_text end.
Definition item_line (it : option Frame) : option RunnerLogLine := match it with Some (FLog l) => Some l | _ => None end.
Definition texts (items : list (option Frame)) : string := foldr String.append "" (item_text <$> items).
Lemma has_char_plain a b : plain a → plain b → plain (a +:+ b).
Proof. intros [H1 H2] [H3 H4]. unfold plain. by rewrite !has_char_app, H1, H2, H3, H4. Qed.
Lemma json_front_trim l : trim_start (JSON_stringify (line_json l)) = JSON_stringify (line_json l) ∧ JSON_stringify (line_json l) ≠ "".
Proof. destruct (proj1 (starts_with_spec _ _) (json_front l)) as (r & ->). done. Qed.
Lemma frame_split it rest : ∃ frame, split_frames (item_text it +:+ rest) = frame :: split_frames rest ∧ frame_line JSON_parse_text frame = item_line it.
Proof.
  destruct it as [[l|]|]; simpl item_text.
  - assert (plain ("data: " +:+ JSON_stringify (line_json l))) as Hp by (apply has_char_plain; [done|apply json_one_line]).
    exists ("event: log" +:+ nl +:+ "data: " +:+ JSON_stringify (line_json l)). split.
    + rewrite <- (split_frames_two "event: log" ("data: " +:+ JSON_stringify (line_json l)) rest) by done. by rewrite !str_app_assoc.
    + unfold frame_line, event_of, data_of. rewrite split_lines_two by done. cbn [List.find List.filter].
      change (starts_with "event:" "event: log") with true. change (starts_with "data:" "event: log") with false.
      change (starts_with "data:" ("data: " +:+ JSON_stringify (line_json l))) with (starts_with "data:" ("data:" +:+ " " +:+ JSON_stringify (line_json l))). rewrite starts_with_app.
      cbn [fmap list_fmap js_join]. change (str_drop 5 ("data: " +:+ JSON_stringify (line_json l))) with (String " " (JSON_stringify (line_json l))).
      change (trim_start (String " " (JSON_stringify (line_json l)))) with (trim_start (JSON_stringify (line_json l))). destruct (json_front_trim l) as [-> Hne].
      rewrite (bool_decide_eq_false_2 (JSON_stringify (line_json l) = "")) by done. rewrite json_roundtrip. by destruct l as [? [] ?].
  - exists ("event: end" +:+ nl +:+ "data: {}"). split; [|by vm_compute]. rewrite <- (split_frames_two "event: end" "data: {}" rest) by done. done.
  - exists ": ping". split; [|by vm_compute]. rewrite <- (split_frames_plain ": ping" rest) by done. done.
Qed.
Lemma texts_lines items : omap (frame_line JSON_parse_text) (List.removelast (split_frames (texts items))) = omap item_line items.
Proof.
  induction items as [|it items IH]; [done|]. change (texts (it :: items)) with (item_text it +:+ texts items).
  destruct (frame_split it (texts items)) as (frame & -> & Hf).
  pose proof (split_by_not_nil gap_len gap_len_pos eq_refl (texts items)) as Hne. change (split_by gap_len (texts items)) with (split_frames (texts items)) in Hne.
  destruct (split_frames (texts items)) as [|f fs] eqn:E; [done|]. change (List.removelast (frame :: f :: fs)) with (frame :: List.removelast (f :: fs)).
  cbn [omap list_omap]. rewrite Hf. rewrite <- IH. by destruct (item_line it).
Qed.
End roundtrip.

(** ** The tables *)
Definition rows_of (i : string) (d : LogDb) : list LineRow := List.filter (λ r, bool_decide (lr_instance r = i)) (ld_lines d).
(** The ids rise with the order of insertion, from 1, and the sequence is past all of them. *)
Definition log_wf (d : LogDb) : Prop := 1 ≤ ld_next d ∧ StronglySorted Nat.lt (lr_id <$> ld_lines d) ∧ Forall (λ r, 1 ≤ lr_id r < ld_next d) (ld_lines d).

Lemma filter_comp {A} (p q : A → bool) l : List.filter p (List.filter q l) = List.filter (λ x, q x && p x) l.
Proof. induction l as [|x l IH]; [done|]. simpl. destruct (q x); simpl; [|done]. destruct (p x); by rewrite IH. Qed.
Lemma linesAfter_rows i n d : linesAfter i n d = List.filter (λ r, Nat.ltb n (lr_id r)) (rows_of i d).
Proof. unfold linesAfter, rows_of. by rewrite filter_comp. Qed.
Lemma new_rows_lines n i lines : lr_line <$> imap (λ k l, mkRow (n + k) i l) lines = lines.
Proof.
  rewrite fmap_imap. unfold compose. simpl. induction lines as [|l lines IH] using rev_ind; [done|]. by rewrite imap_app, IH.
Qed.
Lemma new_rows_all (P : LineRow → Prop) n i lines : (∀ k l, k < length lines → P (mkRow (n + k) i l)) → Forall P (imap (λ k l, mkRow (n + k) i l) lines).
Proof. intros HP. apply Forall_lookup. intros k r (l & Hl & ->)%list_lookup_imap_Some. apply HP. by apply lookup_lt_Some in Hl. Qed.

Lemma lines_of_append i j lines d : 1 ≤ ld_next d →
  lines_of j (append_lines i lines d) = lines_of j d ++ (if decide (j = i) then lines else []).
Proof.
  intros Hn. unfold lines_of, linesAfter, append_lines. simpl. rewrite List.filter_app, fmap_app. f_equal. case_decide as Hj.
  - subst j. rewrite filter_all; [apply new_rows_lines|]. apply new_rows_all. intros. simpl. rewrite bool_decide_eq_true_2 by done. apply Nat.ltb_lt. lia.
  - rewrite filter_none; [done|]. apply new_rows_all. intros. simpl. by rewrite bool_decide_eq_false_2.
Qed.
Lemma lines_of_clear i j d : lines_of j (clearLines i d) = if decide (j = i) then [] else lines_of j d.
Proof.
  unfold lines_of, linesAfter, clearLines. simpl. rewrite filter_comp. case_decide as Hj.
  - subst j. rewrite filter_none; [done|]. apply Forall_forall. intros r _. case_bool_decide; done.
  - f_equal. apply List.filter_ext. intros r. repeat case_bool_decide; naive_solver.
Qed.
Lemma lines_of_batches i j batches d : 1 ≤ ld_next d →
  let d' := foldl (λ d lines, append_lines i lines d) d batches in
  lines_of j d' = lines_of j d ++ (if decide (j = i) then concat batches else []) ∧ ld_sessions d' = ld_sessions d ∧ 1 ≤ ld_next d'.
Proof.
  revert d. induction batches as [|b bs IH]; intros d Hn; simpl; [split; [case_decide; by rewrite app_nil_r|done]|].
  destruct (IH (append_lines i b d)) as (-> & -> & ?); [simpl; lia|]. split; [|done]. rewrite lines_of_append by done. case_decide; by rewrite <- app_assoc.
Qed.
Lemma find_update i f d : (∀ s, ss_instanceId (f s) = ss_instanceId s) → find_session i (update_session i f d) = f <$> find_session i d.
Proof.
  intros Hf. unfold find_session, update_session. simpl. induction (ld_sessions d) as [|s ss IH]; [done|]. rewrite fmap_cons. simpl.
  case_decide as Hs; simpl.
  - rewrite !bool_decide_eq_true_2 by (by rewrite ?Hf). done.
  - rewrite bool_decide_eq_false_2 by done. apply IH.
Qed.

(** ** The capture stores each line once *)
Section faithful.
Context `{!JsonText}.
Definition unfinished (a : Attempt) : Prop := match a with NoStream => True | Streamed _ finished => finished = false end.
Lemma attempt_unfinished i a d : unfinished a → 1 ≤ ld_next d →
  let '(ended_, d') := attempt_capture JSON_parse_text i a d in
  ended_ = false ∧ (∀ j, j ≠ i → lines_of j d' = lines_of j d) ∧ ld_sessions d' = ld_sessions d ∧ 1 ≤ ld_next d'.
Proof.
  destruct a as [|chunks [|]]; simpl; [done|done|]. intros _ Hn. split; [done|].
  split; [|apply (lines_of_batches i i (consume JSON_parse_text chunks) (clearLines i d) Hn)]. intros j Hj.
  destruct (lines_of_batches i j (consume JSON_parse_text chunks) (clearLines i d) Hn) as (-> & _). rewrite lines_of_clear, !decide_False by done. apply app_nil_r.
Qed.
Lemma capture_retries i attempts rest d : Forall unfinished attempts → 1 ≤ ld_next d → ∃ d',
  capture JSON_parse_text i (attempts ++ rest) d = capture JSON_parse_text i rest d' ∧
  (∀ j, j ≠ i → lines_of j d' = lines_of j d) ∧ ld_sessions d' = ld_sessions d ∧ 1 ≤ ld_next d'.
Proof.
  intros Ha. revert d. induction Ha as [|a attempts Ha _ IH]; intros d Hn; [by exists d|]. simpl.
  pose proof (attempt_unfinished i a d Ha Hn) as Hd. destruct (attempt_capture JSON_parse_text i a d) as [e d1]. destruct Hd as (-> & Hj & Hs & Hn1).
  destruct (IH d1 Hn1) as (d' & -> & Hj' & Hs' & ?). exists d'. split_and!; [done| |congruence|done]. intros j ?. by rewrite Hj', Hj.
Qed.

(** C20: a captured start-up log is faithful.  However often the capture failed before, and
    whatever part of the log it had stored by then, and in whatever pieces the stream arrives:
    the first attempt that reads the stream of the worker to its end ends the capture with
    exactly the lines of that stream stored for the instance, in order and once each, with its
    session marked complete, and with the lines of every other instance as they were. *)
Theorem captured_logs_faithful i attempts items chunks d :
  Forall unfinished attempts → foldr String.append "" chunks = texts items → 1 ≤ ld_next d →
  let '(ended_, d') := capture JSON_parse_text i (attempts ++ [Streamed chunks true]) d in
  ended_ = true ∧ lines_of i d' = omap item_line items ∧ (∀ j, j ≠ i → lines_of j d' = lines_of j d) ∧
  ss_captureComplete <$> find_session i d' = (λ _, true) <$> find_session i d.
Proof.
  intros Ha Hc Hn. destruct (capture_retries i attempts [Streamed chunks true] d Ha Hn) as (d1 & -> & Hj & Hs & Hn1). simpl.
  pose proof (λ j, lines_of_batches i j (consume JSON_parse_text chunks) (clearLines i d1) Hn1) as Hb. simpl in Hb.
  split_and!; [done| | |].
  - destruct (Hb i) as (Hl & _). etransitivity; [exact Hl|]. by rewrite lines_of_clear, !decide_True, consume_spec, Hc, texts_lines by done.
  - intros j Hji. destruct (Hb j) as (Hl & _). etransitivity; [exact Hl|]. rewrite lines_of_clear, !decide_False, app_nil_r by done. by apply Hj.
  - unfold markCaptureComplete. rewrite find_update by done. destruct (Hb i) as (_ & Hss & _). unfold find_session. rewrite Hss. simpl. rewrite Hs. by destruct (List.find _ _).
Qed.
End faithful.

(** ** The viewer *)
(** What can happen while a viewer reads the log of [i]: the capture appends, starts over or
    completes, and the two reads of a round of the viewer, which are separate queries. *)
Inductive LogOp := OpAppend (j : string) (lines : list RunnerLogLine) | OpComplete (j : string) | OpClear (j : string) | OpLines | OpSession.
Definition log_op (i : string) (op : LogOp) (s : LogDb * Viewer) : LogDb * Viewer :=
  let '(d, v) := s in
  match op with
  | OpAppend j lines => (append_lines j lines d, v)
  | OpComplete j => (markCaptureComplete j d, v)
  | OpClear j => (clearLines j d, v)
  | OpLines => (d, show_lines i d v)
  | OpSession => (d, check_session i d v)
  end.
Definition log_ops (i : string) (ops : list LogOp) (s : LogDb * Viewer) : LogDb * Viewer := foldl (λ s op, log_op i op s) s ops.
Definition shown_line (s : Shown) : option RunnerLogLine := match s with ShownLine l => Some l | ShownEnd => None end.
Definition lines_shown (v : Viewer) : list RunnerLogLine := omap shown_line (vw_shown v).

Lemma shown_rows (rows : list LineRow) : omap shown_line (row_line <$> rows) = lr_line <$> rows.
Proof. induction rows as [|r rows IH]; [done|]. rewrite fmap_cons. change (lr_line r :: omap shown_line (row_line <$> rows) = lr_line r :: (lr_line <$> rows)). by rewrite IH. Qed.
(** The rows of the instance, split at the cursor. *)
Definition read_to (i : string) (d : LogDb) (v : Viewer) : Prop :=
  ∃ old new, rows_of i d = old ++ new ∧ lines_shown v = lr_line <$> old ∧
    Forall (λ r, lr_id r ≤ vw_cursor v) old ∧ Forall (λ r, vw_cursor v < lr_id r) new.
Lemma read_after i d v old new : Forall (λ r, lr_id r ≤ vw_cursor v) old → Forall (λ r, vw_cursor v < lr_id r) new →
  rows_of i d = old ++ new → linesAfter i (vw_cursor v) d = new.
Proof.
  intros Ho Hw Hr. rewrite linesAfter_rows, Hr, List.filter_app, filter_none, filter_all; [done|..].
  - eapply Forall_impl; [exact Hw|]. intros r ?. by apply Nat.ltb_lt.
  - eapply Forall_impl; [exact Ho|]. intros r ?. by apply Nat.ltb_ge.
Qed.
Lemma log_wf_append i lines d : log_wf d → log_wf (append_lines i lines d).
Proof.
  intros (Hn & Hs & Hb). unfold append_lines. split_and!; simpl; [lia| |].
  - rewrite fmap_app. apply StronglySorted_app_2; [|done|].
    + intros x y Hx Hy. apply list_elem_of_fmap in Hx as (r & -> & Hr), Hy as (r' & -> & Hr'). rewrite Forall_forall in Hb. apply Hb in Hr.
      assert (Forall (λ r, ld_next d ≤ lr_id r) (imap (λ k l, mkRow (ld_next d + k) i l) lines)) as Hall by (apply new_rows_all; simpl; lia).
      rewrite Forall_forall in Hall. apply Hall in Hr'. lia.
    + clear. generalize (ld_next d) as n. induction lines as [|l lines IH]; intros n; simpl; [constructor|].
      assert (imap ((λ k l, mkRow (n + k) i l) ∘ S) lines = imap (λ k l, mkRow (S n + k) i l) lines) as -> by (apply imap_ext; intros; simpl; f_equal; lia).
      constructor; [apply IH|]. apply Forall_fmap. apply new_rows_all. simpl. intros. lia.
  - apply Forall_app. split; [eapply Forall_impl; [exact Hb|]; simpl; lia|]. apply new_rows_all. simpl. lia.
Qed.
Lemma rows_of_append i j lines d : rows_of i (append_lines j lines d) = rows_of i d ++ (if decide (j = i) then imap (λ k l, mkRow (ld_next d + k) j l) lines else []).
Proof.
  unfold rows_of, append_lines. simpl. rewrite List.filter_app. f_equal. case_decide as Hj.
  - apply filter_all, new_rows_all. intros. simpl. by rewrite bool_decide_eq_true_2.
  - apply filter_none, new_rows_all. intros. simpl. by rewrite bool_decide_eq_false_2.
Qed.
Lemma StronglySorted_filter_fmap (p : LineRow → bool) l : StronglySorted Nat.lt (lr_id <$> l) → StronglySorted Nat.lt (lr_id <$> List.filter p l).
Proof.
  induction l as [|r rs IH]; intros Hs; simpl in *; [constructor|]. inversion Hs as [|? ? Hs' Hr]; subst. destruct (p r); [|by apply IH].
  rewrite fmap_cons. constructor; [by apply IH|]. rewrite Forall_fmap in *. apply Forall_forall. intros r' Hin.
  apply list_elem_of_In, filter_In in Hin as [Hin _]. rewrite Forall_forall in Hr. apply Hr. by apply list_elem_of_In.
Qed.
Lemma rows_sorted i d : log_wf d → StronglySorted Nat.lt (lr_id <$> rows_of i d).
Proof. intros (_ & Hs & _). by apply StronglySorted_filter_fmap. Qed.
Lemma lines_of_rows i d : log_wf d → lines_of i d = lr_line <$> rows_of i d.
Proof.
  intros (_ & _ & Hb). unfold lines_of. f_equal. rewrite linesAfter_rows. apply filter_all. apply Forall_forall. intros r Hin.
  apply list_elem_of_In, filter_In in Hin as [Hin%list_elem_of_In _]. rewrite Forall_forall in Hb. apply Hb in Hin. apply Nat.ltb_lt. lia.
Qed.
(** One read of the lines: everything stored is shown, and the cursor is past it. *)
Lemma show_lines_reads i d v : log_wf d → vw_ended v = false → read_to i d v →
  lines_shown (show_lines i d v) = lr_line <$> rows_of i d ∧ read_to i d (show_lines i d v) ∧ vw_ended (show_lines i d v) = false.
Proof.
  intros Hwf He (old & new & Hr & Hl & Ho & Hn). pose proof (rows_sorted i d Hwf) as Hs. unfold show_lines. rewrite He, (read_after i d v old new) by done.
  match goal with |- context [mkViewer ?c ?l ?b] => set (v' := mkViewer c l b) end.
  assert (lines_shown v' = lr_line <$> rows_of i d) as Hl'. { unfold lines_shown in *. simpl. by rewrite omap_app, (shown_rows new), Hl, Hr, fmap_app. }
  split; [done|]. split; [|done]. exists (rows_of i d), []. rewrite app_nil_r. split_and!; [done|done| |constructor]. simpl.
  destruct new as [|r new _] using rev_ind; simpl; [by rewrite Hr, app_nil_r|]. rewrite fmap_app. simpl. rewrite last_last.
  rewrite Hr in Hs |- *. rewrite !fmap_app in Hs. apply StronglySorted_app in Hs as (Hcross & _ & (Hcross' & _)%StronglySorted_app).
  rewrite !Forall_app, !Forall_forall. split_and!; [|intros r' Hr'|intros r' ->%list_elem_of_singleton; lia].
  - intros r' Hr'. assert (lr_id r' < lr_id r); [|lia]. apply Hcross; [by apply list_elem_of_fmap_2|]. set_solver.
  - assert (lr_id r' < lr_id r); [|lia]. apply Hcross'; [by apply list_elem_of_fmap_2|]. set_solver.
Qed.
Lemma log_wf_clear i d : log_wf d → log_wf (clearLines i d).
Proof.
  intros (Hn & Hs & Hb). split_and!; simpl; [done|by apply StronglySorted_filter_fmap|]. apply Forall_forall. intros r Hin.
  apply list_elem_of_In, filter_In in Hin as [Hin%list_elem_of_In _]. rewrite Forall_forall in Hb. by apply Hb.
Qed.
Lemma rows_of_clear i j d : j ≠ i → rows_of i (clearLines j d) = rows_of i d.
Proof. intros Hj. unfold rows_of, clearLines. simpl. rewrite filter_comp. apply List.filter_ext. intros r. repeat case_bool_decide; naive_solver. Qed.

Definition viewer_inv (i : string) (s : LogDb * Viewer) : Prop := log_wf s.1 ∧ read_to i s.1 s.2 ∧ vw_cursor s.2 < ld_next s.1.
Lemma show_cursor i d v : log_wf d → vw_cursor v < ld_next d → vw_cursor (show_lines i d v) < ld_next d.
Proof.
  intros (_ & _ & Hb) Hc. unfold show_lines. destruct (vw_ended v); [done|]. simpl.
  destruct (linesAfter i (vw_cursor v) d) as [|r rows _] eqn:E using rev_ind; [done|]. rewrite fmap_app. simpl. rewrite last_last.
  assert (r ∈ linesAfter i (vw_cursor v) d) as Hr by (rewrite E; set_solver). apply list_elem_of_In, filter_In in Hr as [Hr%list_elem_of_In _].
  rewrite Forall_forall in Hb. apply Hb in Hr. lia.
Qed.
Lemma viewer_step i op s : op ≠ OpClear i → viewer_inv i s → viewer_inv i (log_op i op s).
Proof.
  destruct s as [d v]. intros Hop (Hwf & Hr & Hc). simpl in *. destruct op as [j lines|j|j| |]; unfold viewer_inv; simpl.
  - split_and!; [by apply log_wf_append| |simpl; lia]. destruct Hr as (old & new & Hr & Hl & Ho & Hn).
    exists old. eexists. split_and!; [rewrite rows_of_append, Hr, <- app_assoc; reflexivity|done|done|]. apply Forall_app. split; [done|].
    case_decide; [|constructor]. apply new_rows_all. simpl. lia.
  - done.
  - split_and!; [by apply log_wf_clear| |done]. unfold read_to. rewrite rows_of_clear by congruence. done.
  - split_and!; [done| |by apply show_cursor]. destruct (vw_ended v) eqn:He; [unfold show_lines; by rewrite He|]. by apply show_lines_reads.
  - assert (lines_shown (check_session i d v) = lines_shown v ∧ vw_cursor (check_session i d v) = vw_cursor v) as [Hl Hcu].
    { unfold check_session. destruct (vw_ended v); [done|]. destruct (find_session i d) as [s|]; [|done]. destruct (ss_captureComplete s); [|done].
      unfold lines_shown. simpl. by rewrite omap_app, app_nil_r. }
    unfold read_to. by rewrite Hl, Hcu.
Qed.
Lemma viewer_runs i ops s : Forall (λ op, op ≠ OpClear i) ops → viewer_inv i s → viewer_inv i (log_ops i ops s).
Proof. intros Hops. revert s. induction Hops as [|op ops Hop _ IH]; intros s Hs; [done|]. by apply IH, viewer_step. Qed.

(** A viewer of a start-up log reads it in order and without gaps.  While the capture
    appends to the log, completes it, and does as it likes with other instances, and whenever
    the two queries of a round run, what the viewer has been sent is a prefix of the lines
    stored: nothing is skipped, repeated or reordered.  And when the capture is complete, the
    next round sends exactly the rest, and ends the stream. *)
Theorem viewer_faithful i ops d :
  log_wf d → Forall (λ op, op ≠ OpClear i) ops →
  let '(d', v) := log_ops i ops (d, new_viewer) in
  lines_shown v `prefix_of` lines_of i d' ∧
  (vw_ended v = false → ss_captureComplete <$> find_session i d' = Some true →
   let v' := check_session i d' (show_lines i d' v) in vw_ended v' = true ∧ lines_shown v' = lines_of i d').
Proof.
  intros Hwf Hops. assert (viewer_inv i (d, new_viewer)) as Hi.
  { split_and!; simpl; [done| |destruct Hwf; lia]. exists [], (rows_of i d). split_and!; [done|done|constructor|]. apply Forall_forall. intros r Hin.
    apply list_elem_of_In, filter_In in Hin as [Hin%list_elem_of_In _]. destruct Hwf as (_ & _ & Hb). rewrite Forall_forall in Hb. apply Hb in Hin. simpl. lia. }
  pose proof (viewer_runs i ops _ Hops Hi) as Hinv. destruct (log_ops i ops (d, new_viewer)) as [d' v]. destruct Hinv as (Hwf' & Hr & _). simpl in *.
  rewrite lines_of_rows by done. split.
  - destruct Hr as (old & new & -> & -> & _). rewrite fmap_app. by apply prefix_app_r.
  - intros He (s & Hs & Hc)%fmap_Some. destruct (show_lines_reads i d' v Hwf' He Hr) as (Hl & _ & He'). unfold check_session. rewrite He', Hs, <- Hc.
    split; [done|]. unfold lines_shown in *. simpl. by rewrite omap_app, Hl, app_nil_r.
Qed.

(** ** What the reads of a viewer can miss *)
Definition sample_line (n : string) : RunnerLogLine := mkLine "t" stdout n.
Definition sample_db : LogDb := createSession "i" "m" "w" empty_logs.
(** The two reads of a round are separate queries: when the last lines are stored and the
    capture completed between them, the stream is ended without those lines. *)
Theorem viewer_misses_tail :
  let '(d, v) := log_ops "i" [OpAppend "i" [sample_line "a"]; OpLines; OpAppend "i" [sample_line "b"]; OpComplete "i"; OpSession] (sample_db, new_viewer) in
  vw_ended v = true ∧ lines_shown v = [sample_line "a"] ∧ lines_of "i" d = [sample_line "a"; sample_line "b"].
Proof. by vm_compute. Qed.
(** A capture that starts over gives its lines new ids, past the cursor of every viewer: a
    viewer is sent again what it had been sent. *)
Theorem viewer_repeats_after_retry :
  let '(d, v) := log_ops "i" [OpAppend "i" [sample_line "a"]; OpLines; OpClear "i"; OpAppend "i" [sample_line "a"]; OpLines] (sample_db, new_viewer) in
  lines_shown v = [sample_line "a"; sample_line "a"] ∧ lines_of "i" d = [sample_line "a"].
Proof. by vm_compute. Qed.
(** The loop of the capture has no bound: as long as no stream is to be had it goes on. *)
Theorem capture_never_gives_up JSON_parse i n d : capture JSON_parse i (replicate n NoStream) d = (false, d).
Proof. induction n as [|n IH]; [done|]. exact IH. Qed.

(** ** Concrete inputs *)
(** A text form of the log lines with what the worker's JSON guarantees: a brace, then each
    field, two letters to a character, closed by a slash. *)
Definition nibble (n : nat) : ascii := ascii_of_nat (65 + n).
Fixpoint spell (s : string) : string :=
  match s with
  | EmptyString => "/"
  | String c s' => String (nibble (nat_of_ascii c / 16)) (String (nibble (nat_of_ascii c mod 16)) (spell s'))
  end.
Fixpoint unspell (s : string) : option (string * string) :=
  match s with
  | String "/" r => Some ("", r)
  | String a (String b r) => '(w, r') ← unspell r; Some (String (ascii_of_nat ((nat_of_ascii a - 65) * 16 + (nat_of_ascii b - 65))) w, r')
  | _ => None
  end.
Definition spell_json (v : json) : string :=
  match v with JObj [(_, JStr a); (_, JStr b); (_, JStr c)] => "{" +:+ spell a +:+ spell b +:+ spell c | _ => "{" end.
Definition unspell_json (s : string) : option json :=
  '(a, r) ← unspell (str_drop 1 s); '(b, r) ← unspell r; '(c, _) ← unspell r; Some (JObj [("ts", JStr a); ("stream", JStr b); ("content", JStr c)]).
Lemma spell_char c : nibble (nat_of_ascii c / 16) ≠ "/"%char ∧ plain (String (nibble (nat_of_ascii c / 16)) (String (nibble (nat_of_ascii c mod 16)) "")) ∧
  ascii_of_nat ((nat_of_ascii (nibble (nat_of_ascii c / 16)) - 65) * 16 + (nat_of_ascii (nibble (nat_of_ascii c mod 16)) - 65)) = c.
Proof. destruct c as [[] [] [] [] [] [] [] []]; by vm_compute. Qed.
Lemma unspell_step a b r : a ≠ "/"%char →
  unspell (String a (String b r)) = ('(w, r') ← unspell r; Some (String (ascii_of_nat ((nat_of_ascii a - 65) * 16 + (nat_of_ascii b - 65))) w, r')).
Proof. intros Ha. destruct a as [[] [] [] [] [] [] [] []]; first [done|by vm_compute in Ha]. Qed.
Lemma unspell_spell s r : unspell (spell s +:+ r) = Some (s, r).
Proof.
  induction s as [|c s IH]; [done|]. cbn [spell]. rewrite !str_app_cons. destruct (spell_char c) as (Hc & _ & Hd). rewrite unspell_step, IH by exact Hc. cbn [mbind option_bind]. rewrite Hd. reflexivity.
Qed.
Lemma spell_plain s : plain (spell s).
Proof.
  induction s as [|c s IH]; [done|]. cbn [spell]. destruct (spell_char c) as (_ & Hp & _).
  change (String ?a (String ?b ?r)) with (String a (String b "") +:+ r). by apply has_char_plain.
Qed.
#[local] Instance spelled : JsonText.
Proof.
  refine {| JSON_stringify := spell_json; JSON_parse_text := unspell_json |}.
  - intros [ts s c]. unfold unspell_json. change (spell_json (line_json (mkLine ts s c))) with ("{" +:+ spell ts +:+ spell (stream_text s) +:+ spell c).
    rewrite <- (str_app_nil_r (spell c)). rewrite (str_drop_split 1 "{") by (simpl; lia). change (str_drop 1 "{" +:+ ?t) with t. do 3 (rewrite unspell_spell; cbn [mbind option_bind]). reflexivity.
  - intros [ts s c]. change (plain ("{" +:+ spell ts +:+ spell (stream_text s) +:+ spell c)). repeat apply has_char_plain; done || apply spell_plain.
  - by intros [ts s c].
Defined.

Definition two_lines : list (option Frame) := [Some (FLog (sample_line "a")); None; Some (FLog (sample_line "b")); Some FEnd].
Lemma captured_logs_faithful_witness :
  capture JSON_parse_text "i" [NoStream; Streamed [texts [Some (FLog (sample_line "a"))]] false; Streamed [texts two_lines] true] sample_db ≠ (false, sample_db) ∧
  lines_of "i" (capture JSON_parse_text "i" [NoStream; Streamed [texts [Some (FLog (sample_line "a"))]] false; Streamed [texts two_lines] true] sample_db).2 = [sample_line "a"; sample_line "b"].
Proof.
  pose proof (captured_logs_faithful "i" [NoStream; Streamed [texts [Some (FLog (sample_line "a"))]] false] two_lines [texts two_lines] sample_db
    ltac:(repeat constructor) eq_refl ltac:(simpl; lia)) as Hf. cbn [app] in Hf.
  destruct (capture _ _ _ _) as [e d]. destruct Hf as (-> & Hl & _). split; [done|]. exact Hl.
Defined.
Lemma viewer_faithful_witness :
  let '(d, v) := log_ops "i" [OpAppend "i" [sample_line "a"]; OpLines; OpClear "j"; OpAppend "i" [sample_line "b"]; OpComplete "i"] (sample_db, new_viewer) in
  lines_shown (check_session "i" d (show_lines "i" d v)) = [sample_line "a"; sample_line "b"].
Proof.
  pose proof (viewer_faithful "i" [OpAppend "i" [sample_line "a"]; OpLines; OpClear "j"; OpAppend "i" [sample_line "b"]; OpComplete "i"] sample_db
    ltac:(split_and!; repeat constructor) ltac:(repeat constructor; discriminate)) as Hv.
  destruct (log_ops _ _ _) as [d v] eqn:E. vm_compute in E. injection E as <- <-. apply Hv; by vm_compute.
Defined.
