(* ===== verification/LiveLogs.v ===== *)
(** * The live start-up log of a model (control-plane/src/routes/model-logs.ts)

    [GET /models/:modelName/logs] holds a connection open, polls the state of the model until an
    instance has a worker, attaches to the log stream of that worker and pipes it through.  The
    polls are asynchronous and are started by an interval timer that does not wait for them, so
    they can overlap; the connection is a machine whose steps are the continuations of the
    awaits, the timers and the events of the two streams. *)
From stdpp Require Import base tactics list strings sets.
From Stdlib Require Import ZArith Lia.
From S2P Require Import Prelude Js Types Eviction.
Open Scope Z_scope.

Definition DEFAULT_MAX_WAIT_MS : Z := 5 * 60000.
(** [config?.deployTimeoutSecs]: absent, or a number of seconds. *)
Definition resolveMaxWaitMs (deployTimeoutSecs : option Z) : Z :=
  match deployTimeoutSecs with
  | Some secs => if 0 <? secs then Z.min (secs * 1000) DEFAULT_MAX_WAIT_MS else DEFAULT_MAX_WAIT_MS
  | None => DEFAULT_MAX_WAIT_MS
  end.

Inductive LiveEvent := EvEnd (reason : string) | EvPing | EvWaiting | EvChunk (text : string).
(** Where a poll waits: for the instances of the model, or for the answer of the worker of the
    instance it attaches to. *)
Inductive PollPhase := PInstances | PAttach (instance : string).
Record Live := mkLive {
  lv_ended : bool;
  lv_attaching : bool;
  lv_timer : bool;
  lv_first : bool;
  lv_pipes : list string;
  lv_written : list LiveEvent;
  lv_polls : list PollPhase;
}.
Definition write (e : LiveEvent) (s : Live) : Live :=
  mkLive (lv_ended s) (lv_attaching s) (lv_timer s) (lv_first s) (lv_pipes s) (lv_written s ++ [e]) (lv_polls s).
Definition cleanup (s : Live) : Live :=
  if lv_ended s then s else mkLive true (lv_attaching s) false (lv_first s) (lv_pipes s) (lv_written s) (lv_polls s).
Definition end_with (reason : string) (s : Live) : Live := cleanup (write (EvEnd reason) s).
Definition set_attaching (b : bool) (s : Live) : Live :=
  mkLive (lv_ended s) b (lv_timer s) (lv_first s) (lv_pipes s) (lv_written s) (lv_polls s).
Definition stop_timer (s : Live) : Live :=
  mkLive (lv_ended s) (lv_attaching s) false (lv_first s) (lv_pipes s) (lv_written s) (lv_polls s).
Definition set_polls (ps : list PollPhase) (s : Live) : Live :=
  mkLive (lv_ended s) (lv_attaching s) (lv_timer s) (lv_first s) (lv_pipes s) (lv_written s) ps.
Definition add_pipe (instance : string) (s : Live) : Live :=
  mkLive (lv_ended s) (lv_attaching s) (lv_timer s) (lv_first s) (lv_pipes s ++ [instance]) (lv_written s) (lv_polls s).

(** The first statement of [poll]. *)
Definition begin_poll (s : Live) : Live :=
  if lv_ended s || lv_attaching s then s else set_polls (lv_polls s ++ [PInstances]) s.

Section live.
Context `{!LocaleCompare} (maxWaitMs : Z).

Definition newest_first (a b : InstanceState) : Z := localeCompare (stateChangedAt b) (stateChangedAt a).
Definition current (instances : list InstanceState) : option InstanceState :=
  match List.find (λ i, bool_decide (state i = ModelLifecycleState.STARTING)) instances with
  | Some i => Some i
  | None => head (js_sort newest_first instances)
  end.

Lemma current_some instances : instances ≠ [] → is_Some (current instances).
Proof.
  intros Hne. unfold current. destruct (List.find _ _); [by eexists|]. pose proof (js_sort_perm newest_first instances) as Hp.
  destruct (js_sort newest_first instances); [by apply Permutation_nil_l in Hp|by eexists].
Qed.

(** The end of [poll], [elapsed] milliseconds after the request. *)
Definition poll_tail (elapsed : Z) (s : Live) : Live :=
  if lv_ended s then s
  else if maxWaitMs <=? elapsed then end_with "timed out waiting for runner placement" s
  else write EvWaiting s.

(** The continuation of [getInstancesForModel] in poll [k]; [None] when it threw, and [known]
    says which workers the pool has. *)
Definition poll_instances (k : nat) (instances : option (list InstanceState)) (known : string → bool) (elapsed : Z) (s : Live) : Live :=
  let left := set_polls (delete k (lv_polls s)) s in
  match instances with
  | None => left
  | Some is_ =>
      if lv_ended s then left else
      if bool_decide (is_ = []) then end_with "model removed" left else
      match current is_ with
      | None => left
      | Some c =>
          if truthy_str (workerId c) then
            if known (default "" (workerId c)) then set_polls (<[k := PAttach (instanceId c)]> (lv_polls s)) (set_attaching true s)
            else poll_tail elapsed (set_attaching false left)
          else poll_tail elapsed left
      end
  end.

Inductive Upstream := Unreachable | Response (status : Z) (ok body : bool).
(** The continuation of the request in [tryAttach], and what [poll] does with its result. *)
Definition poll_upstream (k : nat) (instance : string) (r : Upstream) (status_text : string) (elapsed : Z) (s : Live) : Live :=
  let left := set_attaching false (set_polls (delete k (lv_polls s)) s) in
  match r with
  | Unreachable => poll_tail elapsed left
  | Response status ok body =>
      if lv_ended s then stop_timer left
      else if status =? 404 then poll_tail elapsed left
      else if negb ok || negb body then stop_timer (end_with ("worker returned " +:+ status_text) left)
      else stop_timer (add_pipe instance left)
  end.

Inductive LiveLabel :=
  | LInstances (k : nat) (instances : option (list InstanceState)) (known : string → bool) (elapsed : Z)
  | LUpstream (k : nat) (r : Upstream) (status_text : string) (elapsed : Z)
  | LArm | LTick | LPing | LChunk (text : string) | LPipeEnd | LClose.
(** [LArm]: the statement after the first [await poll()]. [LClose]: the client or the upstream
    connection failed or closed. *)
Definition live_step (l : LiveLabel) (s : Live) : option Live :=
  match l with
  | LInstances k is_ known elapsed => match lv_polls s !! k with Some PInstances => Some (poll_instances k is_ known elapsed s) | _ => None end
  | LUpstream k r text elapsed => match lv_polls s !! k with Some (PAttach i) => Some (poll_upstream k i r text elapsed s) | _ => None end
  | LArm =>
      if lv_first s && bool_decide (lv_polls s = [])
      then Some (mkLive (lv_ended s) (lv_attaching s) (negb (lv_ended s) && bool_decide (lv_pipes s = [])) false (lv_pipes s) (lv_written s) (lv_polls s))
      else None
  | LTick => if lv_timer s then Some (begin_poll s) else None
  | LPing => if lv_ended s then None else Some (write EvPing s)
  | LChunk text => if lv_ended s || bool_decide (lv_pipes s = []) then None else Some (write (EvChunk text) s)
  | LPipeEnd => if bool_decide (lv_pipes s = []) then None else Some (if lv_ended s then s else end_with "" s)
  | LClose => Some (cleanup s)
  end.
Fixpoint live_run (ls : list LiveLabel) (s : Live) : option Live :=
  match ls with [] => Some s | l :: ls' => live_step l s ≫= live_run ls' end.
(** After the headers: the first poll is under way. *)
Definition live_init : Live := begin_poll (mkLive false false false true [] [] []).
Inductive live_reach (ok : Live → LiveLabel → Prop) : Live → Prop :=
  | live_start : live_reach ok live_init
  | live_next s l s' : live_reach ok s → ok s l → live_step l s = Some s' → live_reach ok s'.

(** ** The end of the stream *)
Definition is_end (e : LiveEvent) : Prop := match e with EvEnd _ => True | _ => False end.
(** No end so far; or the connection has ended, with at most one end, the last thing written. *)
Definition end_inv (s : Live) : Prop :=
  ∃ l tl, lv_written s = l ++ tl ∧ Forall (λ e, ¬ is_end e) l ∧ (tl = [] ∨ lv_ended s = true ∧ ∃ r, tl = [EvEnd r]).
Lemma end_inv_write e s : ¬ is_end e → lv_ended s = false → end_inv s → end_inv (write e s).
Proof.
  intros He Hs (l & tl & Hw & Hl & [-> |[? _]]); [|congruence]. rewrite app_nil_r in Hw. exists (l ++ [e]), []. unfold write. simpl. rewrite Hw, app_nil_r.
  split_and!; [done| |by left]. apply Forall_app. split; [done|by constructor].
Qed.
Lemma end_inv_end r s : lv_ended s = false → end_inv s → end_inv (end_with r s).
Proof.
  intros Hs (l & tl & Hw & Hl & [-> |[? _]]); [|congruence]. rewrite app_nil_r in Hw. exists l, [EvEnd r]. unfold end_with, cleanup, write. simpl. rewrite Hs, Hw.
  split_and!; [done|done|]. right. split; [done|]. by exists r.
Qed.
Lemma end_inv_same s s' : lv_ended s' = lv_ended s → lv_written s' = lv_written s → end_inv s → end_inv s'.
Proof. intros He Hw. unfold end_inv. by rewrite He, Hw. Qed.
Lemma end_inv_cleanup s : end_inv s → end_inv (cleanup s).
Proof.
  unfold cleanup. destruct (lv_ended s) eqn:He; [done|]. intros (l & tl & Hw & Hl & [-> |[? _]]); [|congruence]. exists l, []. split_and!; [done|done|by left].
Qed.
Lemma end_inv_tail elapsed s : end_inv s → end_inv (poll_tail elapsed s).
Proof. unfold poll_tail. intros Hi. destruct (lv_ended s) eqn:He; [done|]. destruct (maxWaitMs <=? elapsed); [by apply end_inv_end|]. apply end_inv_write; [by intros []|done|done]. Qed.
Hint Resolve end_inv_tail end_inv_end end_inv_cleanup : core.
Lemma end_inv_step l s s' : live_step l s = Some s' → end_inv s → end_inv s'.
Proof.
  intros Hstep Hi. destruct l as [k is_ known elapsed|k r text elapsed| | | | | |]; simpl in Hstep.
  - destruct (lv_polls s !! k) as [[|]|]; [|done|done]. injection Hstep as <-. unfold poll_instances.
    repeat case_match; try apply end_inv_end; try apply end_inv_tail; done || by apply (end_inv_same s).
  - destruct (lv_polls s !! k) as [[|i]|]; [done| |done]. injection Hstep as <-. unfold poll_upstream.
    repeat case_match; try apply end_inv_tail; try by apply (end_inv_same s).
    eapply end_inv_same; [..|apply (end_inv_end ("worker returned " +:+ text) (set_attaching false (set_polls (delete k (lv_polls s)) s)))]; done.
  - destruct (lv_first s && _); [|done]. injection Hstep as <-. by apply (end_inv_same s).
  - destruct (lv_timer s); [|done]. injection Hstep as <-. unfold begin_poll. destruct (_ || _); [done|]. by apply (end_inv_same s).
  - destruct (lv_ended s) eqn:He; [done|]. injection Hstep as <-. by apply end_inv_write; [intros []|..].
  - destruct (lv_ended s) eqn:He; [done|]. simpl in Hstep. case_bool_decide; [done|]. injection Hstep as <-. by apply end_inv_write; [intros []|..].
  - case_bool_decide; [done|]. injection Hstep as <-. destruct (lv_ended s) eqn:He; auto.
  - injection Hstep as <-. auto.
Qed.

(** ** One stream *)
(** No poll is started while another one still waits for the instances of the model. *)
Definition unhurried (s : Live) (l : LiveLabel) : Prop := l = LTick → PInstances ∉ lv_polls s.
Definition one_inv (s : Live) : Prop :=
  match lv_polls s with
  | [] => lv_attaching s = false ∧ (lv_pipes s = [] ∨ length (lv_pipes s) = 1%nat ∧ lv_timer s = false)
  | [PInstances] => lv_attaching s = false ∧ lv_pipes s = []
  | [PAttach _] => lv_attaching s = true ∧ lv_pipes s = []
  | _ => False
  end.
Lemma poll_tail_keeps elapsed s :
  lv_polls (poll_tail elapsed s) = lv_polls s ∧ lv_attaching (poll_tail elapsed s) = lv_attaching s ∧ lv_pipes (poll_tail elapsed s) = lv_pipes s.
Proof. unfold poll_tail, end_with, cleanup, write. destruct (lv_ended s) eqn:He; [done|]. destruct (maxWaitMs <=? elapsed); simpl; by rewrite ?He. Qed.
Lemma one_inv_empty s : lv_polls s = [] → lv_attaching s = false → lv_pipes s = [] → one_inv s.
Proof. unfold one_inv. intros -> -> ->. auto. Qed.
Lemma one_inv_tail elapsed s : lv_polls s = [] → lv_attaching s = false → lv_pipes s = [] → one_inv (poll_tail elapsed s).
Proof. destruct (poll_tail_keeps elapsed s) as (Hp & Ha & Hi). intros. apply one_inv_empty; congruence. Qed.
Lemma one_inv_write e s : one_inv s → one_inv (write e s).
Proof. done. Qed.
Lemma one_inv_cleanup s : one_inv s → one_inv (cleanup s).
Proof. unfold one_inv, cleanup. destruct (lv_ended s); [done|]. simpl. destruct (lv_polls s) as [|[] []]; naive_solver. Qed.
Lemma one_inv_end r s : one_inv s → one_inv (end_with r s).
Proof. intros. by apply one_inv_cleanup. Qed.
(** The invariant at a poll that answers: it is the only one. *)
Lemma one_inv_poll s k ph : one_inv s → lv_polls s !! k = Some ph →
  lv_polls s = [ph] ∧ k = 0%nat ∧ lv_pipes s = [] ∧ lv_attaching s = match ph with PInstances => false | PAttach _ => true end.
Proof.
  unfold one_inv. destruct (lv_polls s) as [|[|i] [|? ?]]; intros Hi Hk; try done; destruct k as [|k]; try done; injection Hk as <-; naive_solver.
Qed.
Lemma one_inv_step l s s' : unhurried s l → live_step l s = Some s' → one_inv s → one_inv s'.
Proof.
  intros Hu Hstep Hi. destruct l as [k is_ known elapsed|k r text elapsed| | | | | |]; simpl in Hstep.
  - destruct (lv_polls s !! k) as [[|]|] eqn:Hk; [|done|done]. injection Hstep as <-. destruct (one_inv_poll _ _ _ Hi Hk) as (Hp & -> & Hpi & Ha).
    unfold poll_instances. rewrite Hp. simpl. repeat case_match; try apply one_inv_end; (by apply one_inv_tail) || (by apply one_inv_empty) || idtac.
    unfold one_inv. simpl. done.
  - destruct (lv_polls s !! k) as [[|i]|] eqn:Hk; [done| |done]. injection Hstep as <-. destruct (one_inv_poll _ _ _ Hi Hk) as (Hp & -> & Hpi & Ha).
    unfold poll_upstream. rewrite Hp. simpl. repeat case_match; (by apply one_inv_tail) || (by apply one_inv_empty) || idtac.
    + unfold end_with, cleanup, write. simpl. by destruct (lv_ended s); apply one_inv_empty.
    + unfold one_inv. simpl. rewrite Hpi. split; [done|]. by right.
  - destruct (lv_first s); [|done]. simpl in Hstep. case_bool_decide as Hp; [|done]. injection Hstep as <-. unfold one_inv in *. simpl. rewrite Hp in *.
    destruct Hi as [? [-> |[? ?]]]; [by split; [|left]|]. split; [done|]. right. split; [done|]. rewrite bool_decide_eq_false_2; [by rewrite andb_false_r|]. by destruct (lv_pipes s).
  - destruct (lv_timer s) eqn:Ht; [|done]. injection Hstep as <-. specialize (Hu eq_refl). unfold begin_poll. destruct (lv_ended s || lv_attaching s) eqn:Hea; [done|].
    apply orb_false_iff in Hea as [_ Ha]. unfold one_inv in *. simpl. destruct (lv_polls s) as [|[|i] [|? ?]]; simpl; [|set_solver|done|naive_solver congruence|done].
    destruct Hi as [_ [Hpi|[_ ?]]]; [done|congruence].
  - destruct (lv_ended s) eqn:He; [done|]. by injection Hstep as <-.
  - destruct (lv_ended s || _) eqn:He; [done|]. by injection Hstep as <-.
  - case_bool_decide; [done|]. injection Hstep as <-. destruct (lv_ended s) eqn:He; [done|]. by apply one_inv_end.
  - injection Hstep as <-. by apply one_inv_cleanup.
Qed.

(** The live log stream is ended once, and pipes one worker stream.  In every state the
    connection can reach, an end event is the last thing written to it, and only when it has
    ended; and as long as no timer tick finds an earlier poll still waiting for the state of the
    model, at most one worker stream is ever piped into the response. *)
Theorem live_stream_single s :
  live_reach unhurried s →
  (length (lv_pipes s) ≤ 1)%nat ∧ ∀ l1 r l2, lv_written s = l1 ++ EvEnd r :: l2 → l2 = [] ∧ lv_ended s = true.
Proof.
  intros Hr. assert (one_inv s ∧ end_inv s) as [Ho (l & tl & Hw & Hl & Htl)].
  { induction Hr as [|s l s' _ IH Hu Hstep]; [|destruct IH; split; [by eapply one_inv_step|by eapply end_inv_step]].
    split; [done|]. exists [], []. split_and!; [done|constructor|by left]. }
  split.
  - unfold one_inv in Ho. destruct (lv_polls s) as [|[|i] [|? ?]]; try done; destruct Ho as [_ Ho]; [destruct Ho as [-> |[-> _]]|rewrite Ho..]; simpl; lia.
  - intros l1 r l2 E. rewrite Hw in E. assert (∀ a, ¬ Forall (λ e, ¬ is_end e) (a ++ EvEnd r :: l2)) as Hno.
    { intros a (_ & Hc)%Forall_app. inversion Hc as [|? ? Hn]; subst. by apply Hn. }
    destruct Htl as [-> |(He & r' & ->)]; [rewrite app_nil_r in E; subst; by apply Hno in Hl|].
    destruct l2 as [|x l2 _] using rev_ind; [done|]. rewrite app_comm_cons, app_assoc in E. apply app_inj_tail in E as [-> _].
    exfalso. apply Forall_app in Hl as [_ Hc]. inversion Hc as [|? ? Hn]; subst. by apply Hn.
Qed.

(** The wait for a runner is bounded.  The limit is at most five minutes whatever is
    configured; and from then on a poll that gets an answer leaves the connection ended, or
    piping, or with a request to a worker under way: it never waits on. *)
Theorem live_wait_bounded secs l s s' :
  maxWaitMs = resolveMaxWaitMs secs → live_step l s = Some s' →
  (match l with LInstances _ (Some _) _ elapsed | LUpstream _ _ _ elapsed => maxWaitMs ≤ elapsed | _ => False end) →
  0 < maxWaitMs ≤ 300000 ∧ (lv_ended s' = true ∨ lv_pipes s' ≠ [] ∨ ∃ i, PAttach i ∈ lv_polls s').
Proof.
  intros Hm Hstep He. split; [rewrite Hm; unfold resolveMaxWaitMs, DEFAULT_MAX_WAIT_MS; destruct secs as [n|]; [destruct (0 <? n) eqn:E; lia|lia]|].
  assert (∀ elapsed t, maxWaitMs ≤ elapsed → lv_ended (poll_tail elapsed t) = true) as Htail.
  { intros elapsed t Hle. unfold poll_tail. destruct (lv_ended t) eqn:Het; [done|]. unfold end_with, cleanup, write. apply Z.leb_le in Hle as ->. simpl. by rewrite Het. }
  assert (∀ r t, lv_ended (end_with r t) = true) as Hend by (intros r t; unfold end_with, cleanup, write; simpl; by destruct (lv_ended t) eqn:E).
  destruct l as [k is_ known elapsed|k r text elapsed| | | | | |]; try done; simpl in Hstep.
  - destruct is_ as [is_|]; [|done]. destruct (lv_polls s !! k) as [[|]|] eqn:Hk; [|done|done]. injection Hstep as <-. unfold poll_instances.
    destruct (lv_ended s) eqn:Hes; [by left|]. case_bool_decide as Hne; [left; apply Hend|]. destruct (current is_) as [c|] eqn:Hc; [|by apply current_some in Hne as (? & ?); congruence].
    repeat case_match; try (left; by apply Htail). right. right. exists (instanceId c). simpl. apply list_elem_of_insert. by apply lookup_lt_Some in Hk.
  - destruct (lv_polls s !! k) as [[|i]|] eqn:Hk; [done| |done]. injection Hstep as <-. unfold poll_upstream.
    repeat case_match; try (left; by apply Htail); simpl; [by left|left; apply Hend|]. right. left. by destruct (lv_pipes s).
Qed.
End live.

(** ** Two polls that overlap *)
Definition started : InstanceState :=
  mkInstance "i" "m" ModelLifecycleState.STARTING None (Some "w") None None None None None None "t" None false.
(** The guard of [poll] is read before the await on the instances and [attaching] is set after
    it, so two polls can both pass: when a tick finds the first poll still waiting, both open
    the stream of the worker and both pipe it into the response. *)
Theorem overlapping_polls_attach_twice :
  ∃ s, live_run 1000 [LInstances 0 None (λ _, true) 0; LArm; LTick; LTick;
                      LInstances 0 (Some [started]) (λ _, true) 1; LInstances 1 (Some [started]) (λ _, true) 2;
                      LUpstream 0 (Response 200 true true) "200" 3; LUpstream 0 (Response 200 true true) "200" 4] live_init = Some s ∧
    lv_pipes s = ["i"; "i"].
Proof. eexists. split; [vm_compute; reflexivity|done]. Qed.

Lemma live_stream_single_witness : (length (lv_pipes (end_with "model removed" (set_polls [] live_init))) ≤ 1)%nat.
Proof.
  apply (live_stream_single 1000). eapply (live_next 1000 unhurried live_init (LInstances 0 (Some []) (λ _, true) 0)); [constructor|done|by vm_compute].
Defined.
Lemma live_wait_bounded_witness :
  0 < resolveMaxWaitMs (Some 900) ≤ 300000 ∧ live_step 300000 (LInstances 0 (Some [started]) (λ _, false) 300001) live_init ≠ None.
Proof.
  split; [|done]. eapply (live_wait_bounded _ (Some 900) (LInstances 0 (Some [started]) (λ _, false) 300001) live_init); [reflexivity|reflexivity|]. vm_compute. discriminate.
Defined.
