(* ===== verification/WorkerAgent.v ===== *)
(** * The worker agent's runner manager (runners/dev-worker/src/runner-manager.ts)

    [RunnerManager] starts and stops runner processes on one worker: it hands out blocks of
    ports, refuses a second runner for an instance, books the devices' memory, serializes cold
    starts, and finds runners by instance for the control plane (routes/runners.ts).  Its calls
    interleave at their [await]s.  [Agent] is the manager with the calls under way; each piece of
    code between two [await]s is a function, and [step] runs the piece a [Label] names. *)
From stdpp Require Import base tactics list strings gmap sets.
From Stdlib Require Import ZArith Lia.
From S2P Require Import Prelude Js RunnerLogs.

(** ** Configuration and requests *)
Record DevWorkerConfig := mkWorkerConfig {
  wc_workerPort : Z;
  wc_runnerPortStart : Z;
  wc_maxRunners : nat;
  wc_runnerType : string;
  wc_deviceType : string;
  wc_advertiseHost : string;
}.

Record StartRunnerParams := mkStart {
  sp_modelName : string;
  sp_instanceId : string;
  sp_runnerType : string;
  sp_modelPath : string;
  sp_requiredMemory : Z;
  sp_deviceType : option string;
  sp_tensorParallel : Z;
  sp_runtimeModule : option string;
  sp_engineConfig : option (list (string * json));
  sp_engineArgs : option (list string);
  sp_servedModelName : option string;
  sp_entrypoint : option (list string);
  sp_devices : list (Z * string);       (** [deviceIndex], [deviceType] *)
}.

(** launcher.ts *)
Record LaunchSpec := mkSpec {
  ls_runnerId : string;
  ls_modelName : string;
  ls_modelPath : string;
  ls_runnerType : string;
  ls_runtimeModule : option string;
  ls_deviceType : string;
  ls_requiredMemory : Z;
  ls_tensorParallel : Z;
  ls_engineConfig : option (list (string * json));
  ls_engineArgs : option (list string);
  ls_servedModelName : option string;
  ls_entrypoint : option (list string);
  ls_devices : list (Z * string);
  ls_port : Z;
  ls_enginePort : Z;
  ls_grpcPort : Z;
  ls_metricsPort : Z;
}.
Record LaunchHandle := mkHandle { lh_host : string; lh_port : Z; lh_enginePort : Z; lh_pid : option Z }.
#[global] Instance LaunchHandle_eq_dec : EqDecision LaunchHandle.
Proof. solve_decision. Defined.

(** What the manager relies on: a launcher answers with the management port it was given. *)
Class RunnerLauncher := {
  serializeColdStarts : bool;
  handle_of : LaunchSpec → option Z → LaunchHandle;       (** for a process id *)
  handle_of_port spec pid : lh_port (handle_of spec pid) = ls_port spec;
}.
(** stub-launcher.ts: one server for management and inference, no process. *)
#[global, refine] Instance StubLauncher (config : DevWorkerConfig) : RunnerLauncher := {
  serializeColdStarts := false;
  handle_of spec _ := mkHandle (wc_advertiseHost config) (ls_port spec) (ls_port spec) None;
}.
Proof. done. Defined.
(** apptainer-launcher.ts *)
#[global, refine] Instance ApptainerLauncher (advertiseHost : string) : RunnerLauncher := {
  serializeColdStarts := true;
  handle_of spec pid := mkHandle advertiseHost (ls_port spec) (ls_enginePort spec) pid;
}.
Proof. done. Defined.

(** ** The state of the manager *)
Record RunnerRecord := mkRunner {
  rr_runnerId : string;
  rr_instanceId : string;
  rr_modelName : string;
  rr_port : Z;
  rr_enginePort : Z;
  rr_grpcPort : Z;
  rr_metricsPort : Z;
  rr_host : string;
  rr_requiredMemory : Z;
  rr_devices : list (Z * string);
  rr_handle : LaunchHandle;
}.
Record PendingRunner := mkPending {
  pe_instanceId : string;
  pe_modelName : string;
  pe_handle : option LaunchHandle;
  pe_cancelRequested : bool;
}.
(** With the ledger of [WorkerRegistration] and the log streams. *)
Record RunnerManager := mkManager {
  runners : list (string * RunnerRecord);
  pendingRunners : list (string * PendingRunner);
  modelRunners : list (string * list string);
  instanceRunners : list (string * string);
  failedInstanceLogRunners : list (string * string);
  usedPorts : gset Z;
  deviceMemoryUsed : list Z;
  log_hub : Hub;
}.
Definition set_runners f (m : RunnerManager) := mkManager (f (runners m)) (pendingRunners m) (modelRunners m)
  (instanceRunners m) (failedInstanceLogRunners m) (usedPorts m) (deviceMemoryUsed m) (log_hub m).
Definition set_pending f (m : RunnerManager) := mkManager (runners m) (f (pendingRunners m)) (modelRunners m)
  (instanceRunners m) (failedInstanceLogRunners m) (usedPorts m) (deviceMemoryUsed m) (log_hub m).
Definition set_models f (m : RunnerManager) := mkManager (runners m) (pendingRunners m) (f (modelRunners m))
  (instanceRunners m) (failedInstanceLogRunners m) (usedPorts m) (deviceMemoryUsed m) (log_hub m).
Definition set_instances f (m : RunnerManager) := mkManager (runners m) (pendingRunners m) (modelRunners m)
  (f (instanceRunners m)) (failedInstanceLogRunners m) (usedPorts m) (deviceMemoryUsed m) (log_hub m).
Definition set_failed f (m : RunnerManager) := mkManager (runners m) (pendingRunners m) (modelRunners m)
  (instanceRunners m) (f (failedInstanceLogRunners m)) (usedPorts m) (deviceMemoryUsed m) (log_hub m).
Definition set_ports f (m : RunnerManager) := mkManager (runners m) (pendingRunners m) (modelRunners m)
  (instanceRunners m) (failedInstanceLogRunners m) (f (usedPorts m)) (deviceMemoryUsed m) (log_hub m).
Definition set_ledger f (m : RunnerManager) := mkManager (runners m) (pendingRunners m) (modelRunners m)
  (instanceRunners m) (failedInstanceLogRunners m) (usedPorts m) (f (deviceMemoryUsed m)) (log_hub m).
Definition set_hub f (m : RunnerManager) := mkManager (runners m) (pendingRunners m) (modelRunners m)
  (instanceRunners m) (failedInstanceLogRunners m) (usedPorts m) (deviceMemoryUsed m) (f (log_hub m)).

(** ** The ledger (registration.ts) *)
Definition in_range (deviceIndex : Z) (ledger : list Z) : bool := Z.leb 0 deviceIndex && Z.ltb deviceIndex (Z.of_nat (length ledger)).
Definition allocateMemory (deviceIndex bytes : Z) (ledger : list Z) : list Z :=
  if in_range deviceIndex ledger then alter (λ used, used + bytes)%Z (Z.to_nat deviceIndex) ledger else ledger.
Definition freeMemory (deviceIndex bytes : Z) (ledger : list Z) : list Z :=
  if in_range deviceIndex ledger then alter (λ used, Z.max 0 (used - bytes)) (Z.to_nat deviceIndex) ledger else ledger.
(** [Math.floor(requiredMemory / devices.length)] *)
Definition perDeviceMemory (requiredMemory : Z) (devices : list (Z * string)) : Z := (requiredMemory / Z.of_nat (length devices))%Z.
Definition allocate_devices (requiredMemory : Z) (devices : list (Z * string)) (ledger : list Z) : list Z :=
  foldl (λ l d, allocateMemory d.1 (perDeviceMemory requiredMemory devices) l) ledger devices.
Definition free_devices (requiredMemory : Z) (devices : list (Z * string)) (ledger : list Z) : list Z :=
  foldl (λ l d, freeMemory d.1 (perDeviceMemory requiredMemory devices) l) ledger devices.

(** ** Ports *)
Definition PORTS_PER_RUNNER : Z := 4.
Section manager.
Context (config : DevWorkerConfig).
(** The [i]-th block. *)
Definition block_base (i : nat) : Z := (wc_runnerPortStart config + PORTS_PER_RUNNER * Z.of_nat i)%Z.
Definition usable_block (i : nat) : bool :=
  negb (Z.leb (block_base i) (wc_workerPort config) && Z.leb (wc_workerPort config) (block_base i + PORTS_PER_RUNNER - 1)).
(** The loop of [allocatePorts] from block [i] on, up to the first one that is not in use. *)
Fixpoint scan_blocks (n i : nat) (used : gset Z) : option nat :=
  match n with
  | O => None
  | S n' =>
      if bool_decide (block_base i ∈ used) || negb (usable_block i) then scan_blocks n' (S i) used else Some i
  end.
Definition next_block (i : nat) (used : gset Z) : option nat := scan_blocks (wc_maxRunners config - i) i used.

(** ** The pieces of [startRunner] *)
Definition launch_spec (runnerId : string) (p : StartRunnerParams) (i : nat) : LaunchSpec :=
  mkSpec runnerId (sp_modelName p) (sp_modelPath p)
    (if bool_decide (sp_runnerType p = "") then wc_runnerType config else sp_runnerType p) (sp_runtimeModule p)
    (if truthy_str (sp_deviceType p) then default "" (sp_deviceType p) else wc_deviceType config)
    (sp_requiredMemory p) (sp_tensorParallel p) (sp_engineConfig p) (sp_engineArgs p) (sp_servedModelName p)
    (sp_entrypoint p) (sp_devices p)
    (block_base i) (block_base i + 1) (block_base i + 2) (block_base i + 3).

Definition add_model_runner (model runnerId : string) (ms : list (string * list string)) : list (string * list string) :=
  let ids := default [] (jm_get ms model) in
  jm_set ms model (if bool_decide (runnerId ∈ ids) then ids else ids ++ [runnerId]).
Definition remove_model_runner (model runnerId : string) (ms : list (string * list string)) : list (string * list string) :=
  match jm_get ms model with
  | None => ms
  | Some ids =>
      let ids' := filter (.≠ runnerId) ids in
      if bool_decide (ids' = []) then jm_delete ms model else jm_set ms model ids'
  end.

(** Behind [await this.allocatePorts()]: the slots of the instance and of the model. *)
Definition reserve_slots (runnerId : string) (p : StartRunnerParams) (m : RunnerManager) : RunnerManager :=
  set_pending (λ ps, jm_set ps runnerId (mkPending (sp_instanceId p) (sp_modelName p) None false))
    (set_models (add_model_runner (sp_modelName p) runnerId)
       (set_instances (λ is_, jm_set is_ (sp_instanceId p) runnerId) m)).

(** The runner is up. *)
Definition record_of (runnerId : string) (p : StartRunnerParams) (i : nat) (h : LaunchHandle) : RunnerRecord :=
  mkRunner runnerId (sp_instanceId p) (sp_modelName p) (lh_port h) (lh_enginePort h) (block_base i + 2) (block_base i + 3)
    (lh_host h) (sp_requiredMemory p) (sp_devices p) h.
Definition record_runner (runnerId : string) (p : StartRunnerParams) (i : nat) (h : LaunchHandle) (m : RunnerManager) : RunnerManager :=
  set_pending (λ ps, jm_delete ps runnerId)
    (set_ledger (allocate_devices (sp_requiredMemory p) (sp_devices p))
       (set_failed (λ fs, jm_delete fs (sp_instanceId p))
          (set_runners (λ rs, jm_set rs runnerId (record_of runnerId p i h)) m))).

(** The [catch] and [finally] of [startRunner]. *)
Definition remember_failed (instance runnerId : string) (fs : list (string * string)) : list (string * string) :=
  let fs' := if negb (jm_has fs instance) && Nat.leb MAX_RETAINED (length fs) then
               match jm_keys fs with oldest :: _ => if bool_decide (oldest = "") then fs else jm_delete fs oldest | [] => fs end
             else fs in
  jm_set fs' instance runnerId.
Definition seal_logs (now : Z) (runnerId : string) (h : Hub) : Hub :=
  let h' := end_hub runnerId h in mkHub (retain now runnerId (hub_logs h')) (hub_clients h').
Definition roll_back (now : Z) (runnerId : string) (p : StartRunnerParams) (i : nat) (m : RunnerManager) : RunnerManager :=
  set_pending (λ ps, jm_delete ps runnerId)
    (set_failed (remember_failed (sp_instanceId p) runnerId)
       (set_hub (seal_logs now runnerId)
          (set_models (remove_model_runner (sp_modelName p) runnerId)
             (set_instances (λ is_, jm_delete is_ (sp_instanceId p))
                (set_ports (λ u, u ∖ {[block_base i]}) m))))).

(** ** The end of a runner *)
Definition forget_runner (runnerId : string) (r : RunnerRecord) (m : RunnerManager) : RunnerManager :=
  set_ledger (free_devices (rr_requiredMemory r) (rr_devices r))
    (set_models (remove_model_runner (rr_modelName r) runnerId)
       (set_instances (λ is_, jm_delete is_ (rr_instanceId r))
          (set_ports (λ u, u ∖ {[rr_port r]})
             (set_runners (λ rs, jm_delete rs runnerId) m)))).
Definition handleUnexpectedExit (now : Z) (runnerId : string) (m : RunnerManager) : RunnerManager :=
  match jm_get (runners m) runnerId with
  | None => m
  | Some r => set_hub (seal_logs now runnerId) (forget_runner runnerId r m)
  end.

(** [stopRunner] up to its [await]: what it then waits for. *)
Inductive StopResult := StopNotFound | StopPending | StopRecorded.
Definition stopRunner (runnerId : string) (m : RunnerManager) : StopResult * RunnerManager :=
  match jm_get (runners m) runnerId, jm_get (pendingRunners m) runnerId with
  | None, Some pe =>
      (StopPending, set_pending (λ ps, jm_set ps runnerId (mkPending (pe_instanceId pe) (pe_modelName pe) (pe_handle pe) true)) m)
  | None, None => (StopNotFound, m)
  | Some r, _ => (StopRecorded, forget_runner runnerId r m)
  end.
(** Behind it. *)
Definition drop_runner_logs (runnerId : string) (h : Hub) : Hub :=
  let h' := end_hub runnerId h in mkHub (drop_logs runnerId (hub_logs h')) (hub_clients h').

(** ** Lookups *)
Definition getRunner (runnerId : string) (m : RunnerManager) : option RunnerRecord := jm_get (runners m) runnerId.
Definition getRunnerIdForModel (model : string) (m : RunnerManager) : option string :=
  ids ← jm_get (modelRunners m) model; List.last (Some <$> ids) None.
Definition getRunnerIdForInstance (instance : string) (m : RunnerManager) : option string * RunnerManager :=
  let active := jm_get (instanceRunners m) instance in
  if truthy_str active then (active, m) else
  let failed := jm_get (failedInstanceLogRunners m) instance in
  if negb (truthy_str failed) then (None, m) else
  if has_logs (default "" failed) (hub_logs (log_hub m)) then (failed, m)
  else (None, set_failed (λ fs, jm_delete fs instance) m).
Definition getAllRunners (m : RunnerManager) : list RunnerRecord := jm_values (runners m).
Definition getRunnerProcesses (m : RunnerManager) : list (Z * (string * string)) :=
  omap (λ r, pid ← lh_pid (rr_handle r); Some (pid, (rr_instanceId r, rr_modelName r))) (jm_values (runners m)).
End manager.

(** ** The manager with its calls under way *)

(** Where a start waits; [i] is its block of ports. *)
Inductive Phase :=
| Probing (i : nat) (k : nat)      (** for the probe of port [base + k] *)
| Allocated (i : nat)              (** for [allocatePorts] to return *)
| Queued (i : nat)                 (** for the cold starts before it *)
| Starting (i : nat)               (** for the launcher *)
| Cancelling (i : nat).            (** for the stop of a runner that came up after a cancellation *)
Definition phase_block (ph : Phase) : nat :=
  match ph with Probing i _ | Allocated i | Queued i | Starting i | Cancelling i => i end.
(** Behind [reserve_slots]. *)
Definition reserved (ph : Phase) : bool := match ph with Probing _ _ | Allocated _ => false | _ => true end.
Record StartCall := mkCall { ca_params : StartRunnerParams; ca_runner : string; ca_phase : Phase }.
Definition at_phase (ph : Phase) (c : StartCall) : StartCall := mkCall (ca_params c) (ca_runner c) ph.

Record Agent := mkAgent {
  ag_manager : RunnerManager;
  ag_calls : gmap nat StartCall;
  ag_chain : list nat;               (** [coldStartChain]: the starts that have not settled *)
  ag_issued : gset string;           (** the runner ids drawn so far *)
  ag_stopping : gset string;         (** whose [handle.stop()] [stopRunner] awaits *)
}.
Definition init_agent (devices : nat) : Agent :=
  mkAgent (mkManager [] [] [] [] [] ∅ (replicate devices 0%Z) no_hub) ∅ [] ∅ ∅.

Inductive Label :=
| LStart (c : nat) (p : StartRunnerParams) (runnerId : string)
| LProbe (c : nat) (free : bool)
| LAllocated (c : nat)
| LBegin (c : nat) (now : Z)                          (** its turn in the chain *)
| LHandle (c : nat) (pid : option Z)                  (** [onLaunchHandle] *)
| LLog (c : nat) (s : LogStream) (content : string) (ts : nat → string)
| LStartupComplete (c : nat)
| LReady (c : nat) (pid : option Z)
| LFailed (c : nat) (now : Z)
| LCancelled (c : nat) (now : Z)
| LExit (runnerId : string) (now : Z)
| LStop (runnerId : string)
| LStopped (runnerId : string)                        (** [handle.stop()] has returned *)
| LLookup (instance : string)
| LView (c : nat) (runnerId : string)                 (** a viewer of the logs comes *)
| LLeave (c : nat)                                    (** and goes *)
| LExpire (runnerId : string).                        (** the timer of retained logs *)

Section agent.
Context (config : DevWorkerConfig) (probes : bool) `{!RunnerLauncher}.
Notation spec_of c i := (launch_spec config (ca_runner c) (ca_params c) i).

(** [launch]: at once, or behind the chain. *)
Definition launched (i : nat) : Phase := if serializeColdStarts then Queued i else Starting i.
Definition allocated (i : nat) : Phase := if probes then Probing i 0 else Allocated i.
Definition cancel_requested (runnerId : string) (m : RunnerManager) : bool :=
  match jm_get (pendingRunners m) runnerId with Some pe => pe_cancelRequested pe | None => false end.
Definition settle (c : nat) (chain : list nat) : list nat := filter (.≠ c) chain.
Definition put (c : nat) (call : StartCall) (a : Agent) : Agent :=
  mkAgent (ag_manager a) (<[c := call]> (ag_calls a)) (ag_chain a) (ag_issued a) (ag_stopping a).
Definition with_manager (f : RunnerManager → RunnerManager) (a : Agent) : Agent :=
  mkAgent (f (ag_manager a)) (ag_calls a) (ag_chain a) (ag_issued a) (ag_stopping a).
(** The call is over. *)
Definition finish_call (c : nat) (a : Agent) : Agent :=
  mkAgent (ag_manager a) (delete c (ag_calls a)) (settle c (ag_chain a)) (ag_issued a) (ag_stopping a).

Definition step (l : Label) (a : Agent) : option Agent :=
  match l with
  | LStart c p runnerId =>
      if decide (is_Some (ag_calls a !! c) ∨ runnerId ∈ ag_issued a ∨ runnerId = "") then None else
      if jm_has (instanceRunners (ag_manager a)) (sp_instanceId p) then None else       (* ConflictError *)
      i ← next_block config 0 (usedPorts (ag_manager a));                               (* port range exhausted *)
      Some (mkAgent (set_ports (union {[block_base config i]}) (ag_manager a))
              (<[c := mkCall p runnerId (allocated i)]> (ag_calls a)) (ag_chain a) ({[runnerId]} ∪ ag_issued a) (ag_stopping a))
  | LProbe c free =>
      call ← ag_calls a !! c;
      match ca_phase call with
      | Probing i k =>
          if free then Some (put c (at_phase (if Nat.ltb k 3 then Probing i (S k) else Allocated i) call) a)
          else
            let a' := with_manager (set_ports (λ u, u ∖ {[block_base config i]})) a in
            match next_block config (S i) (usedPorts (ag_manager a')) with
            | Some j => Some (put c (at_phase (Probing j 0) call) (with_manager (set_ports (union {[block_base config j]})) a'))
            | None => Some (finish_call c a')
            end
      | _ => None
      end
  | LAllocated c =>
      call ← ag_calls a !! c;
      match ca_phase call with
      | Allocated i =>
          let a' := with_manager (reserve_slots (ca_runner call) (ca_params call)) (put c (at_phase (launched i) call) a) in
          Some (if serializeColdStarts then mkAgent (ag_manager a') (ag_calls a') (ag_chain a' ++ [c]) (ag_issued a') (ag_stopping a') else a')
      | _ => None
      end
  | LBegin c now =>
      call ← ag_calls a !! c;
      match ca_phase call with
      | Queued i =>
          if bool_decide (head (ag_chain a) = Some c) then
            if cancel_requested (ca_runner call) (ag_manager a)
            then Some (finish_call c (with_manager (roll_back config now (ca_runner call) (ca_params call) i) a))
            else Some (put c (at_phase (Starting i) call) a)
          else None
      | _ => None
      end
  | LHandle c pid =>
      call ← ag_calls a !! c;
      match ca_phase call with
      | Starting i =>
          Some (with_manager (set_pending (λ ps,
            match jm_get ps (ca_runner call) with
            | Some pe => jm_set ps (ca_runner call)
                (mkPending (pe_instanceId pe) (pe_modelName pe) (Some (handle_of (spec_of call i) pid)) (pe_cancelRequested pe))
            | None => ps
            end)) a)
      | _ => None
      end
  | LLog c s content ts =>
      call ← ag_calls a !! c;
      match ca_phase call with
      | Starting i => Some (with_manager (set_hub (append_hub DEFAULT_CAP (ca_runner call) s content ts)) a)
      | _ => None
      end
  | LStartupComplete c =>
      call ← ag_calls a !! c;
      match ca_phase call with
      | Starting i => Some (with_manager (set_hub (end_hub (ca_runner call))) a)
      | _ => None
      end
  | LReady c pid =>
      call ← ag_calls a !! c;
      match ca_phase call with
      | Starting i =>
          if cancel_requested (ca_runner call) (ag_manager a) then
            Some (mkAgent (ag_manager a) (<[c := at_phase (Cancelling i) call]> (ag_calls a)) (settle c (ag_chain a)) (ag_issued a) (ag_stopping a))
          else
            Some (finish_call c (with_manager
              (record_runner config (ca_runner call) (ca_params call) i (handle_of (spec_of call i) pid)) a))
      | _ => None
      end
  | LFailed c now =>
      call ← ag_calls a !! c;
      match ca_phase call with
      | Starting i => Some (finish_call c (with_manager (roll_back config now (ca_runner call) (ca_params call) i) a))
      | _ => None
      end
  | LCancelled c now =>
      call ← ag_calls a !! c;
      match ca_phase call with
      | Cancelling i => Some (finish_call c (with_manager (roll_back config now (ca_runner call) (ca_params call) i) a))
      | _ => None
      end
  | LExit runnerId now => Some (with_manager (handleUnexpectedExit now runnerId) a)
  | LStop runnerId =>
      let '(r, m) := stopRunner runnerId (ag_manager a) in
      Some (mkAgent m (ag_calls a) (ag_chain a) (ag_issued a)
              (match r with StopRecorded => {[runnerId]} ∪ ag_stopping a | _ => ag_stopping a end))
  | LStopped runnerId =>
      if decide (runnerId ∈ ag_stopping a) then
        Some (mkAgent (set_hub (drop_runner_logs runnerId) (ag_manager a)) (ag_calls a) (ag_chain a) (ag_issued a) (ag_stopping a ∖ {[runnerId]}))
      else None
  | LLookup instance => Some (with_manager (λ m, (getRunnerIdForInstance instance m).2) a)
  | LView c runnerId => Some (with_manager (set_hub (run_log_op DEFAULT_CAP (OpConnect c runnerId))) a)
  | LLeave c => Some (with_manager (set_hub (run_log_op DEFAULT_CAP (OpClose c))) a)
  | LExpire runnerId => Some (with_manager (set_hub (run_log_op DEFAULT_CAP (OpExpire runnerId))) a)
  end.

(** The agents that can arise, and those that arise when no two starts of one instance look for
    ports at the same time. *)
Definition no_rival (p : StartRunnerParams) (a : Agent) : Prop := ∀ c call,
  ag_calls a !! c = Some call → reserved (ca_phase call) = false → sp_instanceId (ca_params call) ≠ sp_instanceId p.
Inductive reachable (P : Label → Agent → Prop) (devices : nat) : Agent → Prop :=
| reach_init : reachable P devices (init_agent devices)
| reach_step l a a' : reachable P devices a → P l a → step l a = Some a' → reachable P devices a'.
End agent.

Arguments settle : simpl never.

Fixpoint run_labels `{!RunnerLauncher} (config : DevWorkerConfig) (probes : bool) (ls : list Label) (a : Agent) : option Agent :=
  match ls with
  | [] => Some a
  | l :: ls' => a' ← step config probes l a; run_labels config probes ls' a'
  end.
