(* ===== verification/AgentSafety.v ===== *)
(** * Safety of the runner manager (runners/dev-worker/src/runner-manager.ts)

    Invariants of every agent that the interleaved calls of [RunnerManager] can reach: who owns
    which ports, what the memory ledger shows, who may start, and what a lookup by instance
    means to the control plane that asks. *)
From stdpp Require Import base tactics list strings gmap sets.
From Stdlib Require Import ZArith Lia.
From S2P Require Import Prelude Js RunnerLogs WorkerAgent.

(** One case per piece of code, with its guards. *)
Ltac step_cases H :=
  unfold step, put, with_manager, finish_call in H; cbn zeta in H;
  repeat match type of H with
  | (if decide ?P then _ else _) = Some _ => destruct (decide P); [try discriminate H|try discriminate H]
  | (if ?b then _ else _) = Some _ => let E := fresh "E" in destruct b eqn:E; try discriminate H
  | match ?x with _ => _ end = Some _ => let E := fresh "E" in destruct x eqn:E; try discriminate H
  | (?x ≫= _) = Some _ => let E := fresh "E" in destruct x eqn:E; cbn in H; try discriminate H
  | (let '(_, _) := ?x in _) = Some _ => let E := fresh "E" in destruct x eqn:E
  end;
  try (injection H as <-).

(** ** What a step changes

    The steps up to what the invariants look at. *)
Section effects.
Context (config : DevWorkerConfig) (probes : bool) `{!RunnerLauncher}.
Notation base := (block_base config).

Inductive effect : Label → Agent → Agent → Prop :=
| ef_new c p id i ph m cs ch is_ st :
    cs !! c = None → id ∉ is_ → id ≠ "" → jm_get (instanceRunners m) (sp_instanceId p) = None →
    next_block config 0 (usedPorts m) = Some i → phase_block ph = i → reserved ph = false →
    effect (LStart c p id) (mkAgent m cs ch is_ st)
      (mkAgent (set_ports (union {[base i]}) m) (<[c := mkCall p id ph]> cs) ch ({[id]} ∪ is_) st)
| ef_move l c call ph m cs ch ch' is_ st :
    cs !! c = Some call → phase_block ph = phase_block (ca_phase call) → reserved ph = reserved (ca_phase call) →
    effect l (mkAgent m cs ch is_ st) (mkAgent m (<[c := at_phase ph call]> cs) ch' is_ st)
| ef_retry l c call j ph m cs ch is_ st :
    cs !! c = Some call → reserved (ca_phase call) = false →
    next_block config (S (phase_block (ca_phase call))) (usedPorts m ∖ {[base (phase_block (ca_phase call))]}) = Some j →
    phase_block ph = j → reserved ph = false →
    effect l (mkAgent m cs ch is_ st)
      (mkAgent (set_ports (union {[base j]}) (set_ports (λ u, u ∖ {[base (phase_block (ca_phase call))]}) m)) (<[c := at_phase ph call]> cs) ch is_ st)
| ef_abandon l c call m cs ch ch' is_ st :
    cs !! c = Some call → reserved (ca_phase call) = false →
    effect l (mkAgent m cs ch is_ st)
      (mkAgent (set_ports (λ u, u ∖ {[base (phase_block (ca_phase call))]}) m) (delete c cs) ch' is_ st)
| ef_reserve l c call ph m cs ch ch' is_ st :
    cs !! c = Some call → reserved (ca_phase call) = false → phase_block ph = phase_block (ca_phase call) → reserved ph = true →
    effect l (mkAgent m cs ch is_ st)
      (mkAgent (reserve_slots (ca_runner call) (ca_params call) m) (<[c := at_phase ph call]> cs) ch' is_ st)
| ef_fail l c call now m cs ch ch' is_ st :
    cs !! c = Some call → reserved (ca_phase call) = true →
    effect l (mkAgent m cs ch is_ st)
      (mkAgent (roll_back config now (ca_runner call) (ca_params call) (phase_block (ca_phase call)) m) (delete c cs) ch' is_ st)
| ef_record l c call h pid m cs ch ch' is_ st :
    cs !! c = Some call → reserved (ca_phase call) = true → cancel_requested (ca_runner call) m = false →
    h = handle_of (launch_spec config (ca_runner call) (ca_params call) (phase_block (ca_phase call))) pid →
    effect l (mkAgent m cs ch is_ st)
      (mkAgent (record_runner config (ca_runner call) (ca_params call) (phase_block (ca_phase call)) h m) (delete c cs) ch' is_ st)
| ef_forget l id r hub' m cs ch is_ st st' :
    jm_get (runners m) id = Some r →
    effect l (mkAgent m cs ch is_ st) (mkAgent (set_hub hub' (forget_runner id r m)) cs ch is_ st')
| ef_pending l id pe pe' m cs ch is_ st :
    jm_get (pendingRunners m) id = Some pe → pe_instanceId pe' = pe_instanceId pe →
    (pe_cancelRequested pe = true → pe_cancelRequested pe' = true) →
    effect l (mkAgent m cs ch is_ st) (mkAgent (set_pending (λ ps, jm_set ps id pe') m) cs ch is_ st)
| ef_quiet l failed hub' m cs ch is_ st st' :
    (∀ i v, jm_get (failed (failedInstanceLogRunners m)) i = Some v → jm_get (failedInstanceLogRunners m) i = Some v) →
    effect l (mkAgent m cs ch is_ st) (mkAgent (set_hub hub' (set_failed failed m)) cs ch is_ st').

Lemma set_hub_id m : m = set_hub id (set_failed id m).
Proof. by destruct m. Qed.
Lemma quiet_hub l f m cs ch is_ st st' : effect l (mkAgent m cs ch is_ st) (mkAgent (set_hub f m) cs ch is_ st').
Proof. by apply (ef_quiet l id f m cs ch is_ st st'). Qed.
Lemma quiet_same l m cs ch is_ st : effect l (mkAgent m cs ch is_ st) (mkAgent m cs ch is_ st).
Proof. pose proof (ef_quiet l id id m cs ch is_ st st (λ i v Hi, Hi)) as He. by rewrite <- set_hub_id in He. Qed.

Lemma step_effect l a a' : step config probes l a = Some a' → effect l a a'.
Proof.
  intros Hs. destruct a as [m cs ch is_ st]. destruct l; step_cases Hs; cbn [ag_manager ag_calls ag_chain ag_issued ag_stopping] in *.
  - apply ef_new with (i := n0); try done; [by apply eq_None_not_Some; naive_solver|naive_solver|naive_solver| |unfold allocated; by destruct probes..].
    unfold jm_has in E. by apply bool_decide_eq_false, eq_None_not_Some in E.
  - eapply ef_move; [done|rewrite E0; by case_match|rewrite E0; by case_match].
  - pose proof (ef_retry (LProbe c false) c s n (Probing n 0) m cs ch is_ st E) as He. rewrite E0 in He. by apply He.
  - pose proof (ef_abandon (LProbe c false) c s m cs ch (settle c ch) is_ st E) as He. rewrite E0 in He. by apply He.
  - destruct serializeColdStarts eqn:E1; (eapply ef_reserve; [done|by rewrite E0|rewrite E0; unfold launched; by rewrite E1|unfold launched; by rewrite E1]).
  - pose proof (ef_fail (LBegin c now) c s now m cs ch (settle c ch) is_ st E) as He. rewrite E0 in He. by apply He.
  - eapply ef_move; [done|by rewrite E0|by rewrite E0].
  - destruct (jm_get (pendingRunners m) (ca_runner s)) as [pe|] eqn:Hp.
    + match goal with |- effect _ _ (mkAgent (set_pending ?f m) _ _ _ _) =>
        replace (set_pending f m) with (set_pending (λ ps, jm_set ps (ca_runner s) (mkPending (pe_instanceId pe) (pe_modelName pe)
          (Some (handle_of (launch_spec config (ca_runner s) (ca_params s) i) pid)) (pe_cancelRequested pe))) m) by (unfold set_pending; by rewrite Hp) end.
      by eapply ef_pending.
    + match goal with |- effect _ _ (mkAgent (set_pending ?f m) _ _ _ _) =>
        replace (set_pending f m) with m by (destruct m; unfold set_pending; simpl in *; by rewrite Hp) end. apply quiet_same.
  - apply quiet_hub.
  - apply quiet_hub.
  - eapply ef_move; [done|by rewrite E0|by rewrite E0].
  - pose proof (ef_record (LReady c pid) c s (handle_of (launch_spec config (ca_runner s) (ca_params s) i) pid) pid m cs ch (settle c ch) is_ st E) as He.
    rewrite E0 in He. by apply He.
  - pose proof (ef_fail (LFailed c now) c s now m cs ch (settle c ch) is_ st E) as He. rewrite E0 in He. by apply He.
  - pose proof (ef_fail (LCancelled c now) c s now m cs ch (settle c ch) is_ st E) as He. rewrite E0 in He. by apply He.
  - unfold handleUnexpectedExit. destruct (jm_get (runners m) runnerId) eqn:Hr; [by apply ef_forget|apply quiet_same].
  - unfold stopRunner in E. destruct (jm_get (runners m) runnerId) as [rr|] eqn:Hr; [|destruct (jm_get (pendingRunners m) runnerId) as [pe|] eqn:Hp];
      injection E as <- <-.
    + exact (ef_forget _ runnerId rr id m cs ch is_ st _ Hr).
    + by eapply ef_pending.
    + apply quiet_same.
  - apply quiet_hub.
  - unfold getRunnerIdForInstance. repeat (case_match; simpl); try apply quiet_same. apply (ef_quiet _ (λ fs, jm_delete fs instance) id m cs ch is_ st st).
    intros i v. destruct (decide (i = instance)) as [->|]; [by rewrite jm_get_delete_eq|by rewrite jm_get_delete_ne].
  - apply quiet_hub.
  - apply quiet_hub.
  - apply quiet_hub.
Qed.
End effects.

Section ports.
Context (config : DevWorkerConfig) (probes : bool) `{!RunnerLauncher}.
Notation base := (block_base config).

Lemma block_base_inj i j : base i = base j → i = j.
Proof. unfold block_base, PORTS_PER_RUNNER. lia. Qed.
Lemma scan_blocks_spec n i used j : scan_blocks config n i used = Some j → i ≤ j < i + n ∧ base j ∉ used ∧ usable_block config j = true.
Proof.
  revert i. induction n as [|n IH]; intros i; simpl; [done|]. destruct (bool_decide _ || _) eqn:Hb.
  - intros (? & ? & ?)%IH. split_and!; [lia..|done|done].
  - intros [= <-]. apply orb_false_iff in Hb as [H1%bool_decide_eq_false H2%negb_false_iff]. split_and!; [lia..|done|done].
Qed.
Lemma next_block_spec i used j : next_block config i used = Some j → j < wc_maxRunners config ∧ base j ∉ used ∧ usable_block config j = true.
Proof. intros (? & ? & ?)%scan_blocks_spec. split_and!; [lia|done..]. Qed.

(** A block belongs to a start under way or to a runner. *)
Inductive owner := OCall (c : nat) | ORunner (id : string).
Definition owns (a : Agent) (o : owner) (b : Z) : Prop :=
  match o with
  | OCall c => ∃ call, ag_calls a !! c = Some call ∧ base (phase_block (ca_phase call)) = b
  | ORunner id => ∃ r, jm_get (runners (ag_manager a)) id = Some r ∧ rr_port r = b
  end.
Definition valid_base (b : Z) : Prop := ∃ i, b = base i ∧ i < wc_maxRunners config ∧ usable_block config i = true.
Record ports_ok (a : Agent) : Prop := {
  po_used b : b ∈ usedPorts (ag_manager a) ↔ ∃ o, owns a o b;
  po_once o o' b : owns a o b → owns a o' b → o = o';
  po_valid o b : owns a o b → valid_base b;
}.

(** The ways ownership changes. *)
Lemma ports_same a a' : (∀ o b, owns a' o b ↔ owns a o b) → usedPorts (ag_manager a') = usedPorts (ag_manager a) → ports_ok a → ports_ok a'.
Proof.
  intros Ho Hu [H1 H2 H3]. split.
  - intros b. rewrite Hu, H1. by setoid_rewrite Ho.
  - intros o o' b. rewrite !Ho. apply H2.
  - intros o b. rewrite Ho. apply H3.
Qed.
Lemma ports_add a a' o k i :
  next_block config k (usedPorts (ag_manager a)) = Some i →
  (∀ o' b, owns a' o' b ↔ owns a o' b ∨ o' = o ∧ b = base i) → usedPorts (ag_manager a') = {[base i]} ∪ usedPorts (ag_manager a) →
  ports_ok a → ports_ok a'.
Proof.
  intros (Hm & Hn & Hv)%next_block_spec Ho Hu [H1 H2 H3].
  assert (∀ o', ¬ owns a o' (base i)) as Hnone by (intros o' ?; apply Hn, H1; eauto). split.
  - intros b. rewrite Hu, elem_of_union, elem_of_singleton, H1. setoid_rewrite Ho. naive_solver.
  - intros o1 o2 b. rewrite !Ho. intros [|[-> ->]] [|[-> ?]]; subst; naive_solver.
  - intros o' b. rewrite Ho. intros [|[-> ->]]; [by eapply H3|]. by exists i.
Qed.
Lemma ports_remove a a' o b :
  owns a o b → (∀ o' b', owns a' o' b' ↔ owns a o' b' ∧ o' ≠ o) → usedPorts (ag_manager a') = usedPorts (ag_manager a) ∖ {[b]} →
  ports_ok a → ports_ok a'.
Proof.
  intros Hb Ho Hu [H1 H2 H3]. split.
  - intros b'. rewrite Hu, elem_of_difference, elem_of_singleton, H1. setoid_rewrite Ho. split.
    + intros [[o' Ho'] Hne]. exists o'. split; [done|]. intros ->. apply Hne. destruct o; simpl in *; naive_solver.
    + intros (o' & Ho' & Hne). split; [eauto|]. intros ->. by apply Hne, (H2 _ _ b).
  - intros o1 o2 b'. rewrite !Ho. intros [? _] [? _]. by eapply H2.
  - intros o' b'. rewrite Ho. intros [? _]. by eapply H3.
Qed.
Lemma ports_pass a a' o o2 b :
  owns a o b → (∀ b', ¬ owns a o2 b') → (∀ o' b', owns a' o' b' ↔ owns a o' b' ∧ o' ≠ o ∨ o' = o2 ∧ b' = b) →
  usedPorts (ag_manager a') = usedPorts (ag_manager a) → ports_ok a → ports_ok a'.
Proof.
  intros Hb Hfresh Ho Hu [H1 H2 H3]. split.
  - intros b'. rewrite Hu, H1. setoid_rewrite Ho. split.
    + intros [o' Ho']. destruct (decide (b' = b)) as [->|Hne]; [eauto|]. exists o'. left. split; [done|]. intros ->. destruct o; simpl in *; naive_solver.
    + intros (o' & [[? ?]|[-> ->]]); eauto.
  - intros o1 o3 b'. rewrite !Ho. intros [[Ha Hn]|[-> ->]] [[Hc Hn']|[-> ?]]; subst; try done.
    + by eapply H2.
    + destruct Hn. by eapply H2.
    + destruct Hn'. by eapply H2.
  - intros o' b'. rewrite Ho. intros [[? _]|[-> ->]]; by eapply H3.
Qed.

(** *** Identities *)
Record ids_ok (a : Agent) : Prop := {
  io_call c call : ag_calls a !! c = Some call → ca_runner call ∈ ag_issued a ∧ jm_get (runners (ag_manager a)) (ca_runner call) = None;
  io_once c c' call call' : ag_calls a !! c = Some call → ag_calls a !! c' = Some call' → ca_runner call = ca_runner call' → c = c';
  io_runner id r : jm_get (runners (ag_manager a)) id = Some r → id ∈ ag_issued a;
  io_pending id pe : jm_get (pendingRunners (ag_manager a)) id = Some pe →
    ∃ c call, ag_calls a !! c = Some call ∧ ca_runner call = id ∧ reserved (ca_phase call) = true;
  io_reserved c call : ag_calls a !! c = Some call → reserved (ca_phase call) = true →
    is_Some (jm_get (pendingRunners (ag_manager a)) (ca_runner call));
}.
Lemma ids_init n : ids_ok (init_agent n).
Proof. split; simpl; intros; simplify_map_eq. Qed.


Ltac by_key :=
  repeat match goal with
  | H : context [<[?c := _]> _ !! ?c'] |- _ => destruct (decide (c' = c)) as [->|]; [rewrite lookup_insert_eq in H; simplify_eq|rewrite lookup_insert_ne in H by done]
  | H : delete ?c _ !! ?c' = Some _ |- _ => destruct (decide (c' = c)) as [->|]; [by rewrite lookup_delete_eq in H|rewrite lookup_delete_ne in H by done]
  | H : jm_get (jm_set _ ?k _) ?k' = _ |- _ => destruct (decide (k' = k)) as [->|]; [rewrite jm_get_set_eq in H; simplify_eq|rewrite jm_get_set_ne in H by done]
  | H : jm_get (jm_delete _ ?k) ?k' = Some _ |- _ => destruct (decide (k' = k)) as [->|]; [by rewrite jm_get_delete_eq in H|rewrite jm_get_delete_ne in H by done]
  end; simpl in *.

(** One call [c] keeps its runner, or goes. *)
Lemma ids_calls_move m cs ch is_ st m' ch' st' c call ph :
  ids_ok (mkAgent m cs ch is_ st) → cs !! c = Some call → runners m' = runners m →
  (∀ id, is_Some (jm_get (pendingRunners m') id) ↔ is_Some (jm_get (pendingRunners m) id) ∨ id = ca_runner call ∧ reserved ph = true) →
  (reserved (ca_phase call) = true → reserved ph = true) →
  ids_ok (mkAgent m' (<[c := at_phase ph call]> cs) ch' is_ st').
Proof.
  intros [H1 H2 H3 H4 H5] Hc Hr Hp Hph. simpl in *. split; simpl; rewrite ?Hr; [| |done| |].
  - intros c' call' Hc'. by_key; eauto.
  - intros c1 c2 call1 call2 Hc1 Hc2 Heq. by_key; eauto.
  - intros id pe Hpe. assert (is_Some (jm_get (pendingRunners m') id)) as [[pe0 Hpe0]|[-> ?]]%Hp by eauto.
    + destruct (H4 _ _ Hpe0) as (c' & call' & Hc' & ? & ?). destruct (decide (c' = c)) as [->|]; [|exists c', call'; by rewrite lookup_insert_ne].
      eexists c, _. rewrite lookup_insert_eq. split; [done|]. simplify_eq. split; [done|]. simpl. auto.
    + eexists c, _. rewrite lookup_insert_eq. done.
  - intros c' call' Hc' Hres. apply Hp. by_key; eauto.
Qed.
Lemma ids_calls_gone m cs ch is_ st m' ch' st' c call :
  ids_ok (mkAgent m cs ch is_ st) → cs !! c = Some call →
  (∀ id, id ≠ ca_runner call → jm_get (runners m') id = jm_get (runners m) id) →
  (∀ id, is_Some (jm_get (pendingRunners m') id) ↔ is_Some (jm_get (pendingRunners m) id) ∧ id ≠ ca_runner call) →
  ids_ok (mkAgent m' (delete c cs) ch' is_ st').
Proof.
  intros [H1 H2 H3 H4 H5] Hc Hr Hp. simpl in *.
  assert (∀ c' call', c' ≠ c → cs !! c' = Some call' → ca_runner call' ≠ ca_runner call) as Hne by (intros c' call' Hn Hc' Heq; by apply Hn, (H2 _ _ call' call)).
  split; simpl.
  - intros c' call' Hc'. by_key. rewrite Hr by eauto. eauto.
  - intros c1 c2 call1 call2 Hc1 Hc2. by_key. eauto.
  - intros id r Hid. destruct (decide (id = ca_runner call)) as [->|]; [by apply (H1 c)|]. rewrite Hr in Hid by done. eauto.
  - intros id pe Hpe. assert (is_Some (jm_get (pendingRunners m') id)) as [[pe0 Hpe0] Hn]%Hp by eauto.
    destruct (H4 _ _ Hpe0) as (c' & call' & Hc' & <- & ?). exists c', call'. rewrite lookup_delete_ne by congruence. done.
  - intros c' call' Hc' Hres. apply Hp. by_key. split; eauto.
Qed.
Lemma ids_same m cs ch is_ st m' st' :
  ids_ok (mkAgent m cs ch is_ st) →
  (∀ id, is_Some (jm_get (runners m') id) → is_Some (jm_get (runners m) id)) →
  (∀ id, is_Some (jm_get (pendingRunners m') id) ↔ is_Some (jm_get (pendingRunners m) id)) →
  ids_ok (mkAgent m' cs ch is_ st').
Proof.
  intros [H1 H2 H3 H4 H5] Hr Hp. simpl in *. split; simpl; [|done| | |].
  - intros c call Hc. destruct (H1 c call Hc) as [? Hn]. split; [done|]. apply eq_None_not_Some. intros Hs%Hr. rewrite Hn in Hs. by destruct Hs.
  - intros id r Hid. destruct (Hr id) as [r' ?]; eauto.
  - intros id pe Hpe. assert (is_Some (jm_get (pendingRunners m') id)) as [pe0 Hpe0]%Hp by eauto. eauto.
  - intros c call Hc Hres. apply Hp. eauto.
Qed.
Lemma is_Some_delete {V} (m : list (string * V)) k k' : is_Some (jm_get (jm_delete m k) k') ↔ is_Some (jm_get m k') ∧ k' ≠ k.
Proof.
  destruct (decide (k' = k)) as [->|]; [rewrite jm_get_delete_eq; split; [by intros []|naive_solver]|]. rewrite jm_get_delete_ne by done. naive_solver.
Qed.
Lemma is_Some_set {V} (m : list (string * V)) k k' v : is_Some (jm_get (jm_set m k v) k') ↔ is_Some (jm_get m k') ∨ k' = k.
Proof.
  destruct (decide (k' = k)) as [->|]; [rewrite jm_get_set_eq; naive_solver|]. rewrite jm_get_set_ne by done. naive_solver.
Qed.

Lemma ids_effect l a a' : effect config l a a' → ids_ok a → ids_ok a'.
Proof.
  intros He Hok. destruct He.
  - destruct Hok as [H1' H2' H3' H4' H5']. split; simpl in *.
    + intros c' call' Hc'. by_key; [split; [set_solver|]|destruct (H1' _ _ Hc'); split; [set_solver|done]].
      destruct (jm_get (runners m) id) eqn:Hr; [|done]. by apply H3' in Hr.
    + intros c1 c2 call1 call2 [[<- <-]|[? Hc1]]%lookup_insert_Some [[<- <-]|[? Hc2]]%lookup_insert_Some Heq; simpl in Heq; [done| | |by eapply H2'].
      * apply H1' in Hc2. naive_solver.
      * apply H1' in Hc1. naive_solver.
    + intros id' r Hr. apply H3' in Hr. set_solver.
    + intros id' pe Hpe. destruct (H4' _ _ Hpe) as (c' & call' & Hc' & ? & ?). exists c', call'. rewrite lookup_insert_ne by congruence. done.
    + intros c' call' Hc' Hres. by_key; [congruence|eauto].
  - eapply ids_calls_move; [done..| |congruence]. intros id. split; [by left|]. intros [|[-> Hr]]; [done|]. eapply (io_reserved _ Hok); [done|congruence].
  - eapply ids_calls_move; [done..| |congruence]. intros id. simpl. split; [by left|]. intros [|[_ ?]]; [done|congruence].
  - eapply ids_calls_gone; [done..|]. simpl. intros id. split; [|naive_solver]. intros [pe Hpe]. split; [eauto|]. intros ->.
    destruct (io_pending _ Hok _ _ Hpe) as (c' & call' & Hc' & Heq & ?). assert (c' = c) as -> by by eapply (io_once _ Hok). simpl in *. congruence.
  - eapply ids_calls_move; [done..| |congruence]. intros id. simpl. rewrite is_Some_set. naive_solver.
  - eapply ids_calls_gone; [done..|]. intros id. simpl. apply is_Some_delete.
  - eapply ids_calls_gone; [done..| |]; intros id; simpl; [intros ?; by apply jm_get_set_ne|apply is_Some_delete].
  - eapply ids_same; [done| |done]. intros id'. simpl. rewrite is_Some_delete. naive_solver.
  - eapply ids_same; [done..|]. intros id'. simpl. rewrite is_Some_set. naive_solver.
  - by eapply ids_same.
Qed.

(** *** Ports *)
Lemma owns_move m cs ch is_ st m' ch' is' st' c call ph :
  cs !! c = Some call → phase_block ph = phase_block (ca_phase call) → runners m' = runners m →
  ∀ o b, owns (mkAgent m' (<[c := at_phase ph call]> cs) ch' is' st') o b ↔ owns (mkAgent m cs ch is_ st) o b.
Proof.
  intros Hc Hph Hr [c'|id] b; simpl; [|by rewrite Hr]. destruct (decide (c' = c)) as [->|]; [|by rewrite lookup_insert_ne].
  rewrite lookup_insert_eq, Hc. split; intros (? & [= <-] & <-); eexists; (split; [reflexivity|]); simpl; by rewrite Hph.
Qed.
Lemma owns_call_gone m cs ch is_ st m' ch' st' c :
  runners m' = runners m →
  ∀ o b, owns (mkAgent m' (delete c cs) ch' is_ st') o b ↔ owns (mkAgent m cs ch is_ st) o b ∧ o ≠ OCall c.
Proof.
  intros Hr [c'|id] b; simpl; [|rewrite Hr; naive_solver]. destruct (decide (c' = c)) as [->|Hne]; [rewrite lookup_delete_eq; naive_solver|].
  rewrite lookup_delete_ne by done. naive_solver.
Qed.

Lemma ports_effect l a a' : effect config l a a' → ids_ok a → ports_ok a → ports_ok a'.
Proof.
  intros He Hids Hok. destruct He.
  - eapply (ports_add (mkAgent m cs ch is_ st) _ (OCall c)); [done| |done|done]. intros [c'|id'] b; simpl; [|naive_solver].
    destruct (decide (c' = c)) as [->|]; [rewrite lookup_insert_eq; split; [intros (? & [= <-] & <-); simpl; naive_solver|]|rewrite lookup_insert_ne by done; naive_solver].
    intros [(? & ? & ?)|[_ ->]]; [congruence|]. eexists; split; [done|]. simpl. congruence.
  - eapply ports_same; [| |exact Hok]; [by eapply owns_move|done].
  - set (i := phase_block (ca_phase call)) in *.
    eapply (ports_add (mkAgent (set_ports (λ u, u ∖ {[base i]}) m) (delete c cs) ch is_ st) _ (OCall c)); [done| |done|].
    + intros [c'|id'] b; simpl; [|naive_solver]. destruct (decide (c' = c)) as [->|].
      * rewrite lookup_insert_eq, lookup_delete_eq. split; [intros (? & [= <-] & <-); simpl; right; split; congruence|].
        intros [(? & ? & ?)|[_ ->]]; [congruence|]. eexists; split; [done|]. simpl. congruence.
      * rewrite lookup_insert_ne, lookup_delete_ne by done. naive_solver.
    + eapply (ports_remove (mkAgent m cs ch is_ st) _ (OCall c) (base i)); [simpl; eauto|by apply owns_call_gone|done|done].
  - eapply (ports_remove (mkAgent m cs ch is_ st) _ (OCall c)); [simpl; eauto|by apply owns_call_gone|done|done].
  - eapply ports_same; [| |exact Hok]; [by eapply owns_move|done].
  - eapply (ports_remove (mkAgent m cs ch is_ st) _ (OCall c)); [simpl; eauto|by apply owns_call_gone|done|done].
  - destruct (io_call _ Hids c call) as [_ Hnone]; [done|]. simpl in Hnone.
    eapply (ports_pass (mkAgent m cs ch is_ st) _ (OCall c) (ORunner (ca_runner call))); [simpl; eauto| | |done|done].
    + simpl. rewrite Hnone. naive_solver.
    + intros [c'|id'] b; simpl.
      * destruct (decide (c' = c)) as [->|]; [rewrite lookup_delete_eq; naive_solver|rewrite lookup_delete_ne by done; naive_solver].
      * destruct (decide (id' = ca_runner call)) as [->|].
        -- assert (lh_port h = base (phase_block (ca_phase call))) as Hport by (subst h; apply handle_of_port).
           rewrite jm_get_set_eq, Hnone. split; [intros (? & [= <-] & <-); simpl; naive_solver|].
           intros [[(? & ? & ?) ?]|[_ ->]]; [done|]. by eexists.
        -- rewrite jm_get_set_ne by done. naive_solver.
  - eapply (ports_remove (mkAgent m cs ch is_ st) _ (ORunner id)); [simpl; eauto| |done|done]. intros [c'|id'] b; simpl; [naive_solver|].
    destruct (decide (id' = id)) as [->|]; [rewrite jm_get_delete_eq; naive_solver|rewrite jm_get_delete_ne by done; naive_solver].
  - by eapply ports_same; [| |exact Hok].
  - by eapply ports_same; [| |exact Hok].
Qed.

Lemma reachable_ids P n a : reachable config probes P n a → ids_ok a.
Proof. induction 1 as [|l a a' _ IH _ Hs]; [apply ids_init|]. eapply ids_effect; [by apply (step_effect config probes)|done]. Qed.
Lemma ports_init n : ports_ok (init_agent n).
Proof. assert (∀ o b, ¬ owns (init_agent n) o b) by (intros [|] b; simpl; intros (? & ? & ?); simplify_map_eq). split; simpl; set_solver. Qed.
Lemma reachable_ports P n a : reachable config probes P n a → ports_ok a.
Proof.
  induction 1 as [|l a a' Hr IH _ Hs]; [apply ports_init|].
  eapply ports_effect; [by apply (step_effect config probes)|by eapply reachable_ids|done].
Qed.

(** The ports of a block. *)
Definition in_block (b p : Z) : Prop := (b ≤ p < b + PORTS_PER_RUNNER)%Z.

(** C10: no two runners share a port, and no port is lost.  However starts, stops, crashes and port
    probes interleave, each start under way and each runner has a block of four ports of its
    own inside the configured range, none of them the worker's management port; and a block
    counts as used exactly while someone has it, so a worker never runs out of ports
    with fewer than [maxRunners] blocks taken. *)
Theorem runner_ports_disjoint P n a o o' b b' p :
  reachable config probes P n a → owns a o b → owns a o' b' → in_block b p →
  (o ≠ o' → ¬ in_block b' p) ∧ p ≠ wc_workerPort config ∧
  (wc_runnerPortStart config ≤ p < wc_runnerPortStart config + PORTS_PER_RUNNER * Z.of_nat (wc_maxRunners config))%Z ∧
  (∀ u, u ∈ usedPorts (ag_manager a) ↔ ∃ o, owns a o u).
Proof.
  intros Hr Hb Hb' Hp. apply reachable_ports in Hr as [H1 H2 H3].
  destruct (H3 _ _ Hb) as (i & -> & Hi & Hu), (H3 _ _ Hb') as (j & -> & Hj & _). unfold usable_block in Hu.
  apply negb_true_iff, andb_false_iff in Hu. rewrite !Z.leb_gt in Hu. unfold in_block, block_base, PORTS_PER_RUNNER in *. split_and!; [|lia..|done].
  intros Hne Hp'. apply Hne. assert (i = j) as -> by lia. by eapply H2.
Qed.
End ports.

(** ** The memory ledger *)
Fixpoint booked_by (bytes : Z) (devices : list (Z * string)) (d : Z) : Z :=
  match devices with
  | [] => 0
  | dv :: devices' => (if Z.eqb dv.1 d then bytes else 0) + booked_by bytes devices' d
  end%Z.
(** What a runner holds on device [d]. *)
Definition runner_share (r : RunnerRecord) (d : Z) : Z :=
  booked_by (perDeviceMemory (rr_requiredMemory r) (rr_devices r)) (rr_devices r) d.
Fixpoint total_share (rs : list (string * RunnerRecord)) (d : Z) : Z :=
  match rs with [] => 0 | (_, r) :: rs' => runner_share r d + total_share rs' d end%Z.

Lemma booked_by_nonneg bytes devices d : (0 ≤ bytes)%Z → (0 ≤ booked_by bytes devices d)%Z.
Proof. intros Hb. induction devices as [|dv ds IH]; simpl; [lia|]. case_match; lia. Qed.

Section ledger.
Context (devices : list (Z * string)) (bytes : Z).
Lemma alter_ledger (f : Z → Z) d l n v : l !! n = Some v → in_range d l = true →
  alter f (Z.to_nat d) l !! n = Some (if Z.eqb d (Z.of_nat n) then f v else v).
Proof.
  intros Hn Hr. unfold in_range in Hr. apply andb_prop in Hr as [H1%Z.leb_le H2%Z.ltb_lt]. destruct (Z.eqb_spec d (Z.of_nat n)) as [->|Hne].
  - rewrite Nat2Z.id, list_lookup_alter, Hn. by rewrite decide_True.
  - rewrite list_lookup_alter_ne; [done|lia].
Qed.
Lemma out_of_range d l n v : l !! n = Some v → in_range d l = false → Z.eqb d (Z.of_nat n) = false.
Proof.
  intros Hn%lookup_lt_Some Hr. apply Z.eqb_neq. unfold in_range in Hr. apply andb_false_iff in Hr. rewrite Z.leb_gt, Z.ltb_ge in Hr. lia.
Qed.
Lemma allocate_fold l n v : l !! n = Some v →
  foldl (λ l d, allocateMemory d.1 bytes l) l devices !! n = Some (v + booked_by bytes devices (Z.of_nat n))%Z.
Proof.
  revert l v. induction devices as [|dv ds IH]; intros l v Hn; simpl; [by rewrite Z.add_0_r|].
  rewrite (IH _ (if Z.eqb dv.1 (Z.of_nat n) then v + bytes else v)%Z).
  - f_equal. case_match; lia.
  - unfold allocateMemory. destruct (in_range dv.1 l) eqn:Hr; [exact (alter_ledger (λ used, used + bytes)%Z _ _ _ _ Hn Hr)|by rewrite (out_of_range _ _ _ _ Hn Hr)].
Qed.
Lemma free_fold l n v : (0 ≤ bytes)%Z → l !! n = Some v → (booked_by bytes devices (Z.of_nat n) ≤ v)%Z →
  foldl (λ l d, freeMemory d.1 bytes l) l devices !! n = Some (v - booked_by bytes devices (Z.of_nat n))%Z.
Proof.
  intros Hb. revert l v. induction devices as [|dv ds IH]; intros l v Hn Hle; simpl in *; [by rewrite Z.sub_0_r|].
  pose proof (booked_by_nonneg bytes ds (Z.of_nat n) Hb).
  rewrite (IH _ (if Z.eqb dv.1 (Z.of_nat n) then v - bytes else v)%Z).
  - f_equal. case_match; lia.
  - unfold freeMemory. destruct (in_range dv.1 l) eqn:Hr; [|by rewrite (out_of_range _ _ _ _ Hn Hr)].
    rewrite (alter_ledger _ _ _ _ _ Hn Hr). destruct (Z.eqb _ _); [f_equal; lia|done].
  - destruct (Z.eqb _ _); lia.
Qed.
End ledger.

Lemma total_share_new rs id r d : jm_get rs id = None → total_share (jm_set rs id r) d = (total_share rs d + runner_share r d)%Z.
Proof.
  unfold jm_get, jm_set. induction rs as [|[k r'] rs IH]; simpl; [lia|]. case_decide; [done|]. intros Hn. simpl. rewrite IH by done. lia.
Qed.
Lemma total_share_delete rs id r d : NoDup (jm_keys rs) → jm_get rs id = Some r → total_share rs d = (runner_share r d + total_share (jm_delete rs id) d)%Z.
Proof.
  induction rs as [|[k r'] rs IH]; [done|]. intros [Hni Hnd]%NoDup_cons Hg. unfold jm_get in Hg. unfold jm_delete. simpl in *.
  destruct (decide (k = id)) as [->|Hne]; [|simpl; rewrite IH by done; unfold jm_delete; lia].
  injection Hg as ->. fold (jm_delete rs id). rewrite jm_delete_id; [done|]. by apply jm_get_None.
Qed.
Lemma total_share_nonneg rs d : Forall (λ kr, (0 ≤ rr_requiredMemory kr.2)%Z) rs → (0 ≤ total_share rs d)%Z.
Proof.
  induction 1 as [|[k r] rs Hr _ IH]; simpl; [lia|]. assert (0 ≤ runner_share r d)%Z; [|lia]. apply booked_by_nonneg.
  unfold perDeviceMemory. apply Z_div_nonneg_nonneg; simpl in *; lia.
Qed.

(** Requests ask for a size. *)
Definition sized_start (l : Label) (_ : Agent) : Prop :=
  match l with LStart _ p _ => (0 ≤ sp_requiredMemory p)%Z | _ => True end.

Section ledger_invariant.
Context (config : DevWorkerConfig) (probes : bool) `{!RunnerLauncher}.

Record ledger_ok (a : Agent) : Prop := {
  lo_keys : NoDup (jm_keys (runners (ag_manager a)));
  lo_sizes : Forall (λ kr, (0 ≤ rr_requiredMemory kr.2)%Z) (runners (ag_manager a));
  lo_calls c call : ag_calls a !! c = Some call → (0 ≤ sp_requiredMemory (ca_params call))%Z;
  lo_exact d v : deviceMemoryUsed (ag_manager a) !! d = Some v → v = total_share (runners (ag_manager a)) (Z.of_nat d);
}.

Lemma perDevice_nonneg memory ds : (0 ≤ memory)%Z → (0 ≤ perDeviceMemory memory ds)%Z.
Proof. intros. unfold perDeviceMemory. apply Z_div_nonneg_nonneg; lia. Qed.
Lemma fold_length (f : list Z → Z * string → list Z) l ds : (∀ l d, length (f l d) = length l) → length (foldl f l ds) = length l.
Proof. intros Hf. revert l. induction ds as [|d ds IH]; intros l; [done|]. simpl. by rewrite IH. Qed.
Lemma allocate_length d b l : length (allocateMemory d b l) = length l.
Proof. unfold allocateMemory. case_match; [apply length_alter|done]. Qed.
Lemma free_length d b l : length (freeMemory d b l) = length l.
Proof. unfold freeMemory. case_match; [apply length_alter|done]. Qed.

Lemma ledger_effect l a a' : effect config l a a' → sized_start l a → ids_ok a → ledger_ok a → ledger_ok a'.
Proof.
  intros He Hp Hids [H1 H2 H3 H4]. destruct He; simpl in *.
  - split; simpl; [done..| |done]. intros c' call' [[<- <-]|[? ?]]%lookup_insert_Some; simpl; eauto.
  - split; simpl; [done..| |done]. intros c' call' [[<- <-]|[? ?]]%lookup_insert_Some; simpl; eauto.
  - split; simpl; [done..| |done]. intros c' call' [[<- <-]|[? ?]]%lookup_insert_Some; simpl; eauto.
  - split; simpl; [done..| |done]. intros c' call' [? ?]%lookup_delete_Some; eauto.
  - split; simpl; [done..| |done]. intros c' call' [[<- <-]|[? ?]]%lookup_insert_Some; simpl; eauto.
  - split; simpl; [done..| |done]. intros c' call' [? ?]%lookup_delete_Some; eauto.
  - destruct (io_call _ Hids c call) as [_ Hnone]; [done|]. simpl in Hnone. split; simpl.
    + by apply jm_set_NoDup.
    + apply Forall_jm_set; [simpl; eauto|done].
    + intros c' call' [? ?]%lookup_delete_Some; eauto.
    + intros d v Hv. rewrite total_share_new by done. unfold allocate_devices in Hv.
      destruct (deviceMemoryUsed m !! d) as [v0|] eqn:Hv0.
      * rewrite (allocate_fold _ _ _ _ _ Hv0) in Hv. injection Hv as <-. rewrite (H4 _ _ Hv0). done.
      * apply lookup_ge_None in Hv0. apply lookup_lt_Some in Hv. rewrite fold_length in Hv by (intros; apply allocate_length). lia.
  - assert (0 ≤ rr_requiredMemory r)%Z as Hr by (apply jm_get_elem_of in H0; rewrite Forall_forall in H2; by apply (H2 (id, r))).
    split; simpl; [by apply jm_delete_NoDup|by apply Forall_jm_delete|done|]. intros d v Hv. unfold free_devices in Hv.
    destruct (deviceMemoryUsed m !! d) as [v0|] eqn:Hv0.
    + pose proof (total_share_delete _ _ _ (Z.of_nat d) H1 H0) as Ht.
      assert (0 ≤ total_share (jm_delete (runners m) id) (Z.of_nat d))%Z by by apply total_share_nonneg, Forall_jm_delete.
      rewrite (free_fold _ _ _ _ _ (perDevice_nonneg _ _ Hr) Hv0) in Hv.
      * injection Hv as <-. rewrite (H4 _ _ Hv0), Ht. unfold runner_share. lia.
      * rewrite (H4 _ _ Hv0), Ht. unfold runner_share. lia.
    + apply lookup_ge_None in Hv0. apply lookup_lt_Some in Hv. rewrite fold_length in Hv by (intros; apply free_length). lia.
  - by split.
  - by split.
Qed.

Lemma reachable_ledger n a : reachable config probes sized_start n a → ledger_ok a.
Proof.
  induction 1 as [|l a a' Hr IH Hp Hs].
  - split; simpl; [constructor|constructor|done|]. intros d' v' Hd'. by apply lookup_replicate in Hd' as [-> _].
  - eapply ledger_effect; [by apply (step_effect config probes)|done|by eapply reachable_ids|done].
Qed.

Lemma reachable_ledger_length P n a : reachable config probes P n a → length (deviceMemoryUsed (ag_manager a)) = n.
Proof.
  induction 1 as [|l a a' Hr IH Hp Hs]; [by apply length_replicate|]. rewrite <- IH. apply (step_effect config probes) in Hs. destruct Hs; try done; simpl.
  - unfold allocate_devices. apply fold_length. intros. apply allocate_length.
  - unfold free_devices. apply fold_length. intros. apply free_length.
Qed.

(** C11: the worker's memory ledger is exact.  However starts, stops and crashes interleave, and
    whatever device numbers requests name, the bytes booked on a device are the sum of the shares
    of the runners that are up: nothing is freed twice and nothing stays booked for a runner
    that is gone. *)
Theorem runner_ledger_exact n a d v :
  reachable config probes sized_start n a → deviceMemoryUsed (ag_manager a) !! d = Some v →
  v = total_share (runners (ag_manager a)) (Z.of_nat d).
Proof. intros Hr. apply (lo_exact _ (reachable_ledger n a Hr)). Qed.
End ledger_invariant.

(** ** Cold starts *)
Section cold_starts.
Context (config : DevWorkerConfig) (probes : bool) `{!RunnerLauncher}.
Context (Hserial : serializeColdStarts = true).

Definition in_chain (ph : Phase) : bool := match ph with Queued _ | Starting _ => true | _ => false end.
Definition is_starting (ph : Phase) : bool := match ph with Starting _ => true | _ => false end.
Record chain_ok (a : Agent) : Prop := {
  co_nodup : NoDup (ag_chain a);
  co_members c : c ∈ ag_chain a ↔ ∃ call, ag_calls a !! c = Some call ∧ in_chain (ca_phase call) = true;
  co_head c call : ag_calls a !! c = Some call → is_starting (ca_phase call) = true → head (ag_chain a) = Some c;
}.

(** A call outside the chain comes, changes or goes. *)
Lemma chain_aside m cs ch is_ st m' cs' is' st' c :
  chain_ok (mkAgent m cs ch is_ st) → c ∉ ch → (∀ c', c' ≠ c → cs' !! c' = cs !! c') →
  (∀ call, cs' !! c = Some call → in_chain (ca_phase call) = false) → chain_ok (mkAgent m' cs' ch is' st').
Proof.
  intros [H1 H2 H3] Hc Hcs Hnew. simpl in *. split; simpl; [done| |].
  - intros c'. destruct (decide (c' = c)) as [->|]; [|by rewrite H2, Hcs]. split; [done|]. intros (call & Hcall & Hin). by rewrite Hnew in Hin.
  - intros c' call Hcall Hst. destruct (decide (c' = c)) as [->|]; [|rewrite Hcs in Hcall by done; eauto].
    apply Hnew in Hcall. by destruct (ca_phase call).
Qed.
(** The head of the chain settles. *)
Lemma chain_settle m cs ch is_ st m' cs' is' st' c call :
  chain_ok (mkAgent m cs ch is_ st) → cs !! c = Some call → head ch = Some c → (∀ c', c' ≠ c → cs' !! c' = cs !! c') →
  (∀ call, cs' !! c = Some call → in_chain (ca_phase call) = false) → chain_ok (mkAgent m' cs' (settle c ch) is' st').
Proof.
  intros [H1 H2 H3] Hc Hh Hcs Hnew. simpl in *. split; simpl; [by apply NoDup_filter| |].
  - intros c'. unfold settle. rewrite list_elem_of_filter. destruct (decide (c' = c)) as [->|]; [|rewrite H2, Hcs by done; naive_solver].
    split; [naive_solver|]. intros (call' & Hcall & Hin). by rewrite Hnew in Hin.
  - intros c' call' Hcall Hst. destruct (decide (c' = c)) as [->|Hne].
    + apply Hnew in Hcall. by destruct (ca_phase call').
    + rewrite Hcs in Hcall by done. apply H3 in Hcall; [|done]. congruence.
Qed.
Lemma chain_quiet m cs ch is_ st m' is' st' : chain_ok (mkAgent m cs ch is_ st) → chain_ok (mkAgent m' cs ch is' st').
Proof. intros [H1 H2 H3]. by split. Qed.
Lemma settle_aside c ch : c ∉ ch → settle c ch = ch.
Proof.
  unfold settle. intros Hc. induction ch as [|x ch IH]; [done|]. rewrite filter_cons_True by set_solver. f_equal. apply IH. set_solver.
Qed.

Lemma chain_step l a a' : chain_ok a → step config probes l a = Some a' → chain_ok a'.
Proof.
  intros Hok Hs. assert (∀ c call, ag_calls a !! c = Some call → in_chain (ca_phase call) = false → c ∉ ag_chain a) as Hout.
  { intros c call Hc Hin (call' & Hc' & Hin')%(co_members _ Hok). congruence. }
  assert (∀ c call i, ag_calls a !! c = Some call → ca_phase call = Starting i → head (ag_chain a) = Some c) as Hhead.
  { intros c call i Hc Hph. eapply (co_head _ Hok); [done|by rewrite Hph]. }
  destruct a as [m cs ch is_ st]. destruct l; step_cases Hs; cbn [ag_manager ag_calls ag_chain ag_issued ag_stopping] in *; try by eapply chain_quiet.
  - eapply (chain_aside _ _ _ _ _ _ _ _ _ c); [done| |by intros; apply lookup_insert_ne|].
    + intros (call' & Hc' & _)%(co_members _ Hok). simpl in Hc'. naive_solver.
    + intros call. rewrite lookup_insert_eq. intros [= <-]. simpl. unfold allocated. by destruct probes.
  - eapply (chain_aside _ _ _ _ _ _ _ _ _ c); [done|eapply Hout; [done|by rewrite E0]|by intros; apply lookup_insert_ne|].
    intros call. rewrite lookup_insert_eq. intros [= <-]. simpl. by case_match.
  - eapply (chain_aside _ _ _ _ _ _ _ _ _ c); [done|eapply Hout; [done|by rewrite E0]|by intros; apply lookup_insert_ne|].
    intros call. rewrite lookup_insert_eq. by intros [= <-].
  - assert (c ∉ ch) as Hc by (eapply Hout; [done|by rewrite E0]). rewrite settle_aside by done.
    eapply (chain_aside _ _ _ _ _ _ _ _ _ c); [done|done|by intros; apply lookup_delete_ne|]. intros call. by rewrite lookup_delete_eq.
  - rewrite Hserial. assert (c ∉ ch) as Hc by (eapply Hout; [done|by rewrite E0]). destruct Hok as [H1 H2 H3]. simpl in *.
    unfold launched. rewrite Hserial. split; simpl.
    + apply NoDup_app. split_and!; [done| |apply NoDup_singleton]. set_solver.
    + intros c'. rewrite elem_of_app, list_elem_of_singleton. destruct (decide (c' = c)) as [->|]; [rewrite lookup_insert_eq; naive_solver|].
      rewrite lookup_insert_ne, H2 by done. naive_solver.
    + intros c' call [[<- <-]|[? Hc']]%lookup_insert_Some Hst; [done|]. apply H3 in Hc'; [|done]. by destruct ch.
  - apply bool_decide_eq_true in E1. eapply chain_settle; [done..|by intros; apply lookup_delete_ne|]. intros call. by rewrite lookup_delete_eq.
  - apply bool_decide_eq_true in E1. destruct Hok as [H1 H2 H3]. simpl in *. split; simpl; [done| |].
    + intros c'. destruct (decide (c' = c)) as [->|]; [|by rewrite lookup_insert_ne]. rewrite lookup_insert_eq, H2. split; [naive_solver|].
      intros _. exists s. by rewrite E0.
    + intros c' call [[<- <-]|[? Hc']]%lookup_insert_Some Hst; [done|]. eauto.
  - eapply chain_settle; [done|done|by eapply Hhead|by intros; apply lookup_insert_ne|]. intros call. rewrite lookup_insert_eq. by intros [= <-].
  - eapply chain_settle; [done|done|by eapply Hhead|by intros; apply lookup_delete_ne|]. intros call. by rewrite lookup_delete_eq.
  - eapply chain_settle; [done|done|by eapply Hhead|by intros; apply lookup_delete_ne|]. intros call. by rewrite lookup_delete_eq.
  - rewrite settle_aside by (eapply Hout; [done|by rewrite E0]).
    eapply (chain_aside _ _ _ _ _ _ _ _ _ c); [done|eapply Hout; [done|by rewrite E0]|by intros; apply lookup_delete_ne|]. intros call. by rewrite lookup_delete_eq.
Qed.

(** With a launcher that asks for it, one engine starts at a time: a start is handed to the
    launcher only when every start queued before it has come up, failed or been cancelled. *)
Theorem cold_starts_serialized P n a c c' call call' i j :
  reachable config probes P n a → ag_calls a !! c = Some call → ca_phase call = Starting i →
  ag_calls a !! c' = Some call' → ca_phase call' = Starting j → c = c'.
Proof.
  intros Hr Hc Hph Hc' Hph'. assert (chain_ok a) as Hok.
  { clear Hc Hc'. induction Hr as [|l a a' Hr IH Hp Hs]; [|by eapply chain_step]. split; simpl; [constructor| |done]. intros c0. split; [set_solver|].
    intros (? & Hn & _). simplify_map_eq. }
  assert (head (ag_chain a) = Some c) by (eapply (co_head _ Hok); [done|by rewrite Hph]).
  assert (head (ag_chain a) = Some c') by (eapply (co_head _ Hok); [done|by rewrite Hph']). congruence.
Qed.
End cold_starts.

(** ** Cancellation *)
Section cancellation.
Context (config : DevWorkerConfig) (probes : bool) `{!RunnerLauncher}.
Definition next (a a' : Agent) : Prop := ∃ l, step config probes l a = Some a'.

Record doomed (id : string) (a : Agent) : Prop := {
  do_issued : id ∈ ag_issued a;
  do_runner : jm_get (runners (ag_manager a)) id = None;
  do_pending pe : jm_get (pendingRunners (ag_manager a)) id = Some pe → pe_cancelRequested pe = true;
  do_call c call : ag_calls a !! c = Some call → ca_runner call = id → reserved (ca_phase call) = true;
}.
Lemma doomed_effect id l a a' : effect config l a a' → ids_ok a → doomed id a → doomed id a'.
Proof.
  intros He Hids [H1 H2 H3 H4]. destruct He; simpl in *.
  - split; simpl; [set_solver|done|done|]. intros c' call' [[<- <-]|[? ?]]%lookup_insert_Some; simpl; [congruence|eauto].
  - split; simpl; try done. intros c' call' [[<- <-]|[? ?]]%lookup_insert_Some; simpl; [|eauto]. intros Heq. assert (reserved (ca_phase call) = true) by eauto. congruence.
  - split; simpl; try done. intros c' call' [[<- <-]|[? ?]]%lookup_insert_Some; simpl; [|eauto]. intros Heq. assert (reserved (ca_phase call) = true) by eauto. congruence.
  - split; simpl; try done. intros c' call' [? ?]%lookup_delete_Some. eauto.
  - assert (ca_runner call ≠ id) by (intros Heq; assert (reserved (ca_phase call) = true) by eauto; congruence). split; simpl; try done.
    + intros pe. rewrite jm_get_set_ne by done. apply H3.
    + intros c' call' [[<- <-]|[? ?]]%lookup_insert_Some; simpl; [congruence|eauto].
  - split; simpl; try done.
    + intros pe Hpe. apply H3. destruct (decide (id = ca_runner call)) as [->|]; [by rewrite jm_get_delete_eq in Hpe|by rewrite jm_get_delete_ne in Hpe].
    + intros c' call' [? ?]%lookup_delete_Some. eauto.
  - assert (ca_runner call ≠ id) as Hne.
    { intros <-. destruct (io_reserved _ Hids c call) as [pe Hpe]; [done..|]. simpl in Hpe. pose proof (H3 _ Hpe). unfold cancel_requested in *. rewrite Hpe in *. congruence. }
    split; simpl; try done.
    + by rewrite jm_get_set_ne.
    + intros pe Hpe. apply H3. by rewrite jm_get_delete_ne in Hpe.
    + intros c' call' [? ?]%lookup_delete_Some. eauto.
  - split; simpl; try done. by apply jm_get_delete_None.
  - split; simpl; try done. intros pe1. destruct (decide (id0 = id)) as [->|]; [rewrite jm_get_set_eq; intros [= <-]; eauto|rewrite jm_get_set_ne by done; apply H3].
  - by split.
Qed.

(** C28: a cancelled start never comes up.  When [DELETE /runners/:runnerId] finds a runner that is
    still starting, whatever the launcher does and whatever else happens, the runner is never
    recorded, so no memory is booked for it and no lookup calls it ready. *)
Theorem cancelled_start_never_runs P n a id a1 a2 :
  reachable config probes P n a → (stopRunner id (ag_manager a)).1 = StopPending → step config probes (LStop id) a = Some a1 →
  rtc next a1 a2 → getRunner id (ag_manager a2) = None.
Proof.
  intros Hr Hstop Hs1 Hrtc. pose proof (reachable_ids _ _ _ _ _ Hr) as Hids.
  assert (ids_ok a1) as Hids1 by (eapply ids_effect; [by apply (step_effect config probes)|done]).
  assert (doomed id a1) as Hd.
  { destruct a as [m cs ch is_ st]. simpl in *. unfold stopRunner in *. destruct (jm_get (runners m) id) eqn:Hrun; [done|].
    destruct (jm_get (pendingRunners m) id) as [pe|] eqn:Hpe; [|done]. injection Hs1 as <-. destruct (io_pending _ Hids _ _ Hpe) as (c & call & Hc & <- & Hres).
    split; simpl; [by apply (io_call _ Hids c)|done|rewrite jm_get_set_eq; by intros ? [= <-]|].
    intros c' call' Hc' Heq. assert (c' = c) as -> by by eapply (io_once _ Hids). simpl in *. congruence. }
  clear Hr Hstop Hs1 Hids. clear a. induction Hrtc as [a|a a' a2 [l Hs] _ IH]; [by apply do_runner|].
  apply (step_effect config probes) in Hs. apply IH; [by eapply ids_effect|by eapply doomed_effect].
Qed.
End cancellation.

(** ** Lookups by instance *)
Section instances.
Context (config : DevWorkerConfig) (probes : bool) `{!RunnerLauncher}.
(** No two starts of one instance look for ports at the same time. *)
Definition exclusive_starts (l : Label) (a : Agent) : Prop := match l with LStart _ p _ => no_rival p a | _ => True end.

Record instances_ok (a : Agent) : Prop := {
  no_reserved c call : ag_calls a !! c = Some call → reserved (ca_phase call) = true →
    jm_get (instanceRunners (ag_manager a)) (sp_instanceId (ca_params call)) = Some (ca_runner call);
  no_runner id r : jm_get (runners (ag_manager a)) id = Some r → jm_get (instanceRunners (ag_manager a)) (rr_instanceId r) = Some id;
  no_waiting c call : ag_calls a !! c = Some call → reserved (ca_phase call) = false →
    jm_get (instanceRunners (ag_manager a)) (sp_instanceId (ca_params call)) = None;
  no_two c c' call call' : ag_calls a !! c = Some call → ag_calls a !! c' = Some call' → reserved (ca_phase call) = false →
    reserved (ca_phase call') = false → sp_instanceId (ca_params call) = sp_instanceId (ca_params call') → c = c';
  no_empty id : id ∈ ag_issued a → id ≠ "";
}.
Lemma instances_effect l a a' : effect config l a a' → exclusive_starts l a → ids_ok a → instances_ok a → instances_ok a'.
Proof.
  intros He Hex Hids [H1 H2 H3 H4 H5]. destruct He; simpl in *.
  - unfold no_rival in Hex. simpl in Hex. split; simpl; [|done| | |set_solver].
    + intros c' call' [[<- <-]|[? ?]]%lookup_insert_Some Hres; simpl in *; [congruence|eauto].
    + intros c' call' [[<- <-]|[? ?]]%lookup_insert_Some Hres; simpl in *; [done|eauto].
    + intros c1 c2 call1 call2 [[<- <-]|[? Hc1]]%lookup_insert_Some [[<- <-]|[? Hc2]]%lookup_insert_Some Hr1 Hr2 Heq; simpl in *; [done| | |by eapply H4].
      * by destruct (Hex c2 call2).
      * by destruct (Hex c1 call1).
  - split; simpl; [|done| | |done].
    + intros c' call' [[<- <-]|[? ?]]%lookup_insert_Some Hres; simpl in *; [apply (H1 c); congruence|eauto].
    + intros c' call' [[<- <-]|[? ?]]%lookup_insert_Some Hres; simpl in *; [apply (H3 c); congruence|eauto].
    + intros c1 c2 call1 call2 [[<- <-]|[? Hc1]]%lookup_insert_Some [[<- <-]|[? Hc2]]%lookup_insert_Some Hr1 Hr2 Heq; simpl in *; [done|..].
      * eapply (H4 c c2 call call2); congruence.
      * eapply (H4 c1 c call1 call); congruence.
      * by eapply H4.
  - split; simpl; [|done| | |done].
    + intros c' call' [[<- <-]|[? ?]]%lookup_insert_Some Hres; simpl in *; [congruence|eauto].
    + intros c' call' [[<- <-]|[? ?]]%lookup_insert_Some Hres; simpl in *; [apply (H3 c); congruence|eauto].
    + intros c1 c2 call1 call2 [[<- <-]|[? Hc1]]%lookup_insert_Some [[<- <-]|[? Hc2]]%lookup_insert_Some Hr1 Hr2 Heq; simpl in *; [done|..].
      * eapply (H4 c c2 call call2); congruence.
      * eapply (H4 c1 c call1 call); congruence.
      * by eapply H4.
  - split; simpl; [|done| | |done]; intros *; rewrite ?lookup_delete_Some; [intros [_ ?]; by apply (H1 c0)|intros [_ ?]; by apply (H3 c0)|].
    intros [_ ?] [_ ?]. by eapply H4.
  - assert (jm_get (instanceRunners m) (sp_instanceId (ca_params call)) = None) as Hnone by eauto.
    assert (∀ i v, jm_get (instanceRunners m) i = Some v → i ≠ sp_instanceId (ca_params call)) as Hne by (intros i v Hi ->; congruence).
    split; simpl; [| | | |done].
    + intros c' call' [[<- <-]|[? Hc']]%lookup_insert_Some Hres; simpl in *; [by rewrite jm_get_set_eq|].
      pose proof (H1 c' call' Hc' Hres) as Hg. by rewrite jm_get_set_ne by (intros Heq; by apply Hne in Hg).
    + intros id r Hr. pose proof (H2 id r Hr) as Hg. by rewrite jm_get_set_ne by (intros Heq; by apply Hne in Hg).
    + intros c' call' [[<- <-]|[Hn Hc']]%lookup_insert_Some Hres; simpl in *; [congruence|]. rewrite jm_get_set_ne; [eauto|]. intros Heq. apply Hn. by eapply H4.
    + intros c1 c2 call1 call2 [[<- <-]|[? Hc1]]%lookup_insert_Some [[<- <-]|[? Hc2]]%lookup_insert_Some Hr1 Hr2 Heq; simpl in *; [congruence..|by eapply H4].
  - assert (∀ i v, v ≠ ca_runner call → jm_get (instanceRunners m) i = Some v → i ≠ sp_instanceId (ca_params call)) as Hne.
    { intros i v Hv Hi ->. rewrite (H1 c call) in Hi by done. congruence. }
    split; simpl; [| | | |done].
    + intros c' call' [Hn Hc']%lookup_delete_Some Hres. assert (ca_runner call' ≠ ca_runner call) by (intros Heq; apply Hn; symmetry; by eapply (io_once _ Hids)).
      pose proof (H1 c' call' Hc' Hres) as Hg. by rewrite jm_get_delete_ne by (intros Heq; by eapply Hne in Hg).
    + intros id r Hr. assert (id ≠ ca_runner call) by (intros ->; destruct (io_call _ Hids c call) as [_ Hx]; simpl in *; congruence).
      pose proof (H2 id r Hr) as Hg. by rewrite jm_get_delete_ne by (intros Heq; by eapply Hne in Hg).
    + intros c' call' [Hn Hc']%lookup_delete_Some Hres. apply jm_get_delete_None. eauto.
    + intros c1 c2 call1 call2 [_ ?]%lookup_delete_Some [_ ?]%lookup_delete_Some. by eapply H4.
  - split; simpl; [| | | |done].
    + intros c' call' [Hn Hc']%lookup_delete_Some. eauto.
    + intros id r Hr. destruct (decide (id = ca_runner call)) as [->|]; [rewrite jm_get_set_eq in Hr; injection Hr as <-; simpl; by eapply H1|].
      rewrite jm_get_set_ne in Hr by done. eauto.
    + intros c' call' [Hn Hc']%lookup_delete_Some. eauto.
    + intros c1 c2 call1 call2 [_ ?]%lookup_delete_Some [_ ?]%lookup_delete_Some. by eapply H4.
  - assert (∀ i v, v ≠ id → jm_get (instanceRunners m) i = Some v → rr_instanceId r ≠ i) as Hne.
    { intros i v Hv Hi <-. rewrite (H2 id r) in Hi by done. congruence. }
    split; simpl; [| | |done|done].
    + intros c' call' Hc' Hres. assert (ca_runner call' ≠ id) by (intros <-; destruct (io_call _ Hids c' call') as [_ Hx]; simpl in *; congruence).
      pose proof (H1 c' call' Hc' Hres) as Hg. rewrite jm_get_delete_ne; [done|by eapply Hne].
    + intros id' r' Hr'. destruct (decide (id' = id)) as [->|]; [by rewrite jm_get_delete_eq in Hr'|]. rewrite jm_get_delete_ne in Hr' by done.
      pose proof (H2 id' r' Hr') as Hg. rewrite jm_get_delete_ne; [done|by eapply Hne].
    + intros c' call' Hc' Hres. apply jm_get_delete_None. eauto.
  - by split.
  - by split.
Qed.
Lemma reachable_instances n a : reachable config probes exclusive_starts n a → instances_ok a.
Proof.
  induction 1 as [|l a a' Hr IH Hp Hs].
  - split; simpl; intros; simplify_map_eq; set_solver.
  - eapply instances_effect; [by apply (step_effect config probes)|done|by eapply reachable_ids|done].
Qed.

(** Whose slot an instance is; and whose logs a failed start left. *)
Definition slot_of (a : Agent) (i id : string) : Prop :=
  (∃ c call, ag_calls a !! c = Some call ∧ reserved (ca_phase call) = true ∧ ca_runner call = id ∧ sp_instanceId (ca_params call) = i) ∨
  (∃ r, jm_get (runners (ag_manager a)) id = Some r ∧ rr_instanceId r = i).
Definition slots_ok (a : Agent) : Prop := ∀ i id, jm_get (instanceRunners (ag_manager a)) i = Some id → slot_of a i id.
Definition failed_ok (a : Agent) : Prop := ∀ i id, jm_get (failedInstanceLogRunners (ag_manager a)) i = Some id →
  id ∈ ag_issued a ∧ jm_get (runners (ag_manager a)) id = None ∧ ∀ c call, ag_calls a !! c = Some call → ca_runner call ≠ id.

Lemma slot_move m cs ch is_ st m' ch' is' st' c call ph i id :
  cs !! c = Some call → runners m' = runners m → (reserved (ca_phase call) = true → reserved ph = true) →
  slot_of (mkAgent m cs ch is_ st) i id → slot_of (mkAgent m' (<[c := at_phase ph call]> cs) ch' is' st') i id.
Proof.
  intros Hc Hr Hph [(c' & call' & Hc' & Hres & <- & <-)|Hrun]; [left|right; simpl; by rewrite Hr]. simpl in *. destruct (decide (c' = c)) as [->|].
  - eexists c, _. rewrite lookup_insert_eq. simplify_eq. split; [done|]. simpl. auto.
  - exists c', call'. by rewrite lookup_insert_ne.
Qed.
Lemma slots_effect l a a' : effect config l a a' → ids_ok a → slots_ok a → slots_ok a'.
Proof.
  intros He Hids Hok. destruct He; intros i0 id0; simpl.
  - intros [(c' & call' & Hc' & Hrest)|Hrun]%Hok; [left|by right]. exists c', call'. simpl in *. rewrite lookup_insert_ne by congruence. done.
  - intros Hs%Hok. eapply slot_move; [| | |exact Hs]; [done|done|congruence].
  - intros Hs%Hok. eapply slot_move; [| | |exact Hs]; [done|done|congruence].
  - intros [(c' & call' & Hc' & Hres & Hrest)|Hrun]%Hok; [left|by right]. exists c', call'. simpl in *. rewrite lookup_delete_ne by congruence. done.
  - destruct (decide (i0 = sp_instanceId (ca_params call))) as [->|]; [rewrite jm_get_set_eq|rewrite jm_get_set_ne by done].
    + intros [= <-]. left. eexists c, _. simpl. by rewrite lookup_insert_eq.
    + intros Hs%Hok. eapply slot_move; [| | |exact Hs]; [done|done|congruence].
  - destruct (decide (i0 = sp_instanceId (ca_params call))) as [->|]; [by rewrite jm_get_delete_eq|rewrite jm_get_delete_ne by done].
    intros [(c' & call' & Hc' & Hres & Hrest & Hi)|Hrun]%Hok; [left|by right]. exists c', call'. simpl in *. rewrite lookup_delete_ne by congruence. done.
  - intros [(c' & call' & Hc' & Hres & Hid & Hi)|(r & Hrun & Hi)]%Hok; simpl in *.
    + destruct (decide (c' = c)) as [->|]; [|left; exists c', call'; simpl; by rewrite lookup_delete_ne]. right. simplify_eq. simpl. rewrite jm_get_set_eq. by eexists.
    + destruct (decide (id0 = ca_runner call)) as [->|]; [|right; exists r; simpl; by rewrite jm_get_set_ne].
      destruct (io_call _ Hids c call) as [_ Hx]; [done|]. simpl in Hx. congruence.
  - destruct (decide (i0 = rr_instanceId r)) as [->|]; [by rewrite jm_get_delete_eq|rewrite jm_get_delete_ne by done].
    intros [Hcall|(r' & Hrun & Hi)]%Hok; [by left|right]. exists r'. simpl in *. rewrite jm_get_delete_ne by congruence. done.
  - apply Hok.
  - apply Hok.
Qed.
Lemma remember_failed_get i id fs i' id' :
  jm_get (remember_failed i id fs) i' = Some id' → i' = i ∧ id' = id ∨ jm_get fs i' = Some id'.
Proof.
  unfold remember_failed. cbn zeta. destruct (decide (i' = i)) as [->|]; [rewrite jm_get_set_eq; intros [= <-]; by left|].
  rewrite jm_get_set_ne by done. destruct (_ && _); [|by right]. destruct (jm_keys fs) as [|o ks]; [by right|]. case_bool_decide; [by right|].
  destruct (decide (i' = o)) as [->|]; [by rewrite jm_get_delete_eq|]. rewrite jm_get_delete_ne by done. by right.
Qed.
Lemma failed_effect l a a' : effect config l a a' → ids_ok a → failed_ok a → failed_ok a'.
Proof.
  intros He Hids Hok. destruct He; intros i0 id0; simpl in *.
  - intros (H1' & H2' & H3')%Hok. split_and!; [simpl in *; set_solver|done|]. intros c' call' [[<- <-]|[? ?]]%lookup_insert_Some; simpl; [by intros ->|eauto].
  - intros (H1' & H2' & H3')%Hok. split_and!; [done|done|]. intros c' call' [[<- <-]|[? ?]]%lookup_insert_Some; simpl; eauto.
  - intros (H1' & H2' & H3')%Hok. split_and!; [done|done|]. intros c' call' [[<- <-]|[? ?]]%lookup_insert_Some; simpl; eauto.
  - intros (H1' & H2' & H3')%Hok. split_and!; [done|done|]. intros c' call' [? ?]%lookup_delete_Some; eauto.
  - intros (H1' & H2' & H3')%Hok. split_and!; [done|done|]. intros c' call' [[<- <-]|[? ?]]%lookup_insert_Some; simpl; eauto.
  - destruct (io_call _ Hids c call) as [Hi Hn]; [done|]. intros [[-> ->]|(H1' & H2' & H3')%Hok]%remember_failed_get.
    + split_and!; [done|done|]. intros c' call' [Hne Hc']%lookup_delete_Some Heq. apply Hne. symmetry. by eapply (io_once _ Hids).
    + split_and!; [done|done|]. intros c' call' [? ?]%lookup_delete_Some; eauto.
  - destruct (decide (i0 = sp_instanceId (ca_params call))) as [->|]; [by rewrite jm_get_delete_eq|rewrite jm_get_delete_ne by done].
    intros (H1' & H2' & H3')%Hok. split_and!; [done| |intros c' call' [? ?]%lookup_delete_Some; eauto].
    rewrite jm_get_set_ne; [done|]. intros Heq. by eapply (H3' c call).
  - intros (H1' & H2' & H3')%Hok. split_and!; [done|by apply jm_get_delete_None|done].
  - apply Hok.
  - intros Hf. apply (Hok i0). simpl. auto.
Qed.
Lemma reachable_slots P n a : reachable config probes P n a → slots_ok a ∧ failed_ok a.
Proof.
  induction 1 as [|l a a' Hr [IH1 IH2] Hp Hs]; [by split|]. apply (step_effect config probes) in Hs. apply reachable_ids in Hr.
  split; [by eapply slots_effect|by eapply failed_effect].
Qed.
End instances.
