(* ===== verification/Catalog.v ===== *)
(** * The runner catalog
    (control-plane/src/services: catalog-service.ts, catalog-view.ts, proxy-protocols.ts; routes/catalog.ts)

    The catalog is a YAML document that lists the runner images that may be imported into the
    module store.  [parse] admits the entries that are well formed and do not clash;
    [buildCatalogView] merges them with what the store holds; the in-use guard protects the
    images of live models.  The YAML and JSON parsers and the transport are arguments. *)
From stdpp Require Import base tactics list strings gmap sets.
From Stdlib Require Import ZArith Lia Ascii.
From S2P Require Import Prelude Js Types Errors.

(** ** Digests *)
(** [image.match(/@sha256:([a-fA-F0-9]{64})$/)?.[1]?.toLowerCase()] *)
Definition imageDigest (image : string) : option string :=
  let n := str_length image in
  if Nat.ltb n 72 then None else
  let tail := str_drop (n - 72) image in
  if starts_with "@sha256:" tail && all_chars hex_char (str_drop 8 tail) then Some (to_lower (str_drop 8 tail)) else None.

(** ** Entries *)
Record CatalogEntry := mkCatalogEntry {
  ce_id : string;
  ce_title : string;
  ce_description : string;
  ce_runnerType : string;
  ce_version : string;
  ce_image : string;
  ce_sifName : string;
  ce_protocol : Protocol;
  ce_maxTensorParallelism : jsnum;
  ce_kvCacheElasticSharing : bool;
  ce_engine : option string;
  ce_license : option string;
  ce_icon : option string;
  ce_minVRAMGiB : option jsnum;
  ce_tags : option (list string);
  ce_supportedModelTypes : option (list string);
  ce_supportedDeviceTypes : option (list string);
  ce_supportedSleepLevels : option (list string);
  ce_features : option (list (string * json));
  ce_entrypoint : option (list string);
}.
Inductive InvalidReason :=
| NotAnObject | MissingField (key : string) | InvalidName | MissingDigest | InvalidProtocol | DuplicateId | DuplicateSifName.
Record CatalogInvalidEntry := mkInvalid { ci_id : option string; ci_reason : InvalidReason }.

(** [typeof raw === 'object']: an array is one too, without the fields. *)
Definition object_fields (raw : json) : option (list (string * json)) :=
  match raw with JObj o => Some o | JArr _ => Some [] | _ => None end.
Definition string_array (v : option json) : option (list string) :=
  match v with Some (JArr l) => Some (omap (λ x, match x with JStr s => Some s | _ => None end) l) | _ => None end.
Definition is_number (v : option json) : option jsnum := match v with Some (JNum n) => Some n | _ => None end.
Definition is_boolean (v : option json) : option bool := match v with Some (JBool b) => Some b | _ => None end.
Definition required_fields : list string := ["id"; "title"; "description"; "runnerType"; "version"; "image"; "sifName"].
Definition protocol_of (v : option json) : option Protocol :=
  match v with
  | Some (JStr s) => if decide (s = "openai") then Some Protocol.openai else if decide (s = "oip") then Some Protocol.oip else None
  | _ => None
  end.
(** A required field, once [required] has been checked. *)
Definition str_field (e : list (string * json)) (key : string) : string := default "" (is_string (obj_get e key)).

Definition validateEntry (raw : json) : CatalogInvalidEntry + CatalogEntry :=
  match object_fields raw with
  | None => inl (mkInvalid None NotAnObject)
  | Some e =>
      let idIfString := is_string (obj_get e "id") in
      match List.find (λ key, bool_decide (is_nonempty_string (obj_get e key) = None)) required_fields with
      | Some key => inl (mkInvalid idIfString (MissingField key))
      | None =>
          let image := str_field e "image" in
          if negb (name_re (str_field e "id")) || negb (name_re (str_field e "sifName")) then inl (mkInvalid idIfString InvalidName) else
          if starts_with "oras://" image && bool_decide (imageDigest image = None) then inl (mkInvalid idIfString MissingDigest) else
          match protocol_of (obj_get e "protocol") with
          | None => inl (mkInvalid idIfString InvalidProtocol)
          | Some protocol =>
              inr (mkCatalogEntry (str_field e "id") (str_field e "title") (str_field e "description") (str_field e "runnerType")
                (str_field e "version") image (str_field e "sifName") protocol
                (default (NumInt 1) (is_number (obj_get e "maxTensorParallelism"))) (default false (is_boolean (obj_get e "kvCacheElasticSharing")))
                (is_string (obj_get e "engine")) (is_string (obj_get e "license")) (is_string (obj_get e "icon"))
                (is_number (obj_get e "minVRAMGiB")) (string_array (obj_get e "tags"))
                (string_array (obj_get e "supportedModelTypes")) (string_array (obj_get e "supportedDeviceTypes"))
                (string_array (obj_get e "supportedSleepLevels"))
                (match obj_get e "features" with Some (JObj o) => Some o | _ => None end)
                (argv ← string_array (obj_get e "entrypoint"); if decide (argv = []) then None else Some argv))
          end
      end
  end.

(** ** The document *)
Record Parsed := mkParsed { pa_entries : list CatalogEntry; pa_invalid : list CatalogInvalidEntry }.
(** One round of the loop over [runners]; [seenIds] and [seenSifNames] are those of the entries
    admitted so far. *)
Definition accept_entry (acc : Parsed) (raw : json) : Parsed :=
  match validateEntry raw with
  | inl bad => mkParsed (pa_entries acc) (pa_invalid acc ++ [bad])
  | inr entry =>
      if bool_decide (ce_id entry ∈ ce_id <$> pa_entries acc) then mkParsed (pa_entries acc) (pa_invalid acc ++ [mkInvalid (Some (ce_id entry)) DuplicateId]) else
      if bool_decide (ce_sifName entry ∈ ce_sifName <$> pa_entries acc) then mkParsed (pa_entries acc) (pa_invalid acc ++ [mkInvalid (Some (ce_id entry)) DuplicateSifName]) else
      mkParsed (pa_entries acc ++ [entry]) (pa_invalid acc)
  end.
Definition parse_runners (runners : list json) : Parsed := foldl accept_entry (mkParsed [] []) runners.
Section catalog.
Context (parseYaml : string → option json).
(** [None]: the method throws. *)
Definition parse (raw : string) : option Parsed :=
  doc ← parseYaml raw; fields ← object_fields doc;
  match obj_get fields "runners" with Some (JArr runners) => Some (parse_runners runners) | _ => None end.
End catalog.

(** ** The service *)
Record CatalogSnapshot := mkSnapshot {
  sn_source : string;
  sn_fetchedAt : string;
  sn_entries : list CatalogEntry;
  sn_invalidEntries : list CatalogInvalidEntry;
}.
(** [fetchRaw]: where the document is read from, or the refusal. *)
Inductive FetchPlan := Refused | FetchHttp | ReadFile (is_url : bool).
Definition has_scheme (scheme source : string) : bool := starts_with scheme (to_lower source).
Definition fetch_plan (source : string) (allowInsecureCatalog : bool) : FetchPlan :=
  if has_scheme "http://" source || has_scheme "https://" source then
    if has_scheme "http://" source && negb allowInsecureCatalog then Refused else FetchHttp
  else ReadFile (starts_with "file://" source).

Section service.
Context (parseYaml : string → option json) (source : string) (allowInsecureCatalog : bool).
(** [text]: the answer of the transport, [None] when it throws. *)
Definition refresh (now : string) (text : option string) (cache : option CatalogSnapshot) : option CatalogSnapshot * option CatalogSnapshot :=
  match fetch_plan source allowInsecureCatalog with
  | Refused => (None, cache)
  | _ =>
      match (raw ← text; parse parseYaml raw) with
      | None => (None, cache)
      | Some p => let s := mkSnapshot source now (pa_entries p) (pa_invalid p) in (Some s, Some s)
      end
  end.
Definition load (now : string) (text : option string) (cache : option CatalogSnapshot) : option CatalogSnapshot * option CatalogSnapshot :=
  match cache with Some s => (Some s, cache) | None => refresh now text cache end.
Definition resolveRunnerMetadata (now : string) (text : option string) (runnerType : string) (cache : option CatalogSnapshot) :
    (Protocol * option (list string)) * option CatalogSnapshot :=
  let '(snapshot, cache') := load now text cache in
  match snapshot ≫= λ s, List.find (λ e, bool_decide (ce_runnerType e = runnerType)) (sn_entries s) with
  | None => ((Protocol.openai, None), cache')
  | Some entry => ((ce_protocol entry, ce_entrypoint entry), cache')
  end.
End service.

(** ** The merged view (catalog-view.ts) *)
Inductive CatalogItemState := NOT_IMPORTED | IMPORTING | IMPORTED | FAILED.
#[global] Instance CatalogItemState_eq_dec : EqDecision CatalogItemState.
Proof. solve_decision. Defined.
Record CatalogItemStatus := mkStatus {
  st_id : string;
  st_state : CatalogItemState;
  st_percentComplete : option Z;
  st_error : option string;
}.
Record CatalogItem := mkItem { it_entry : CatalogEntry; it_status : CatalogItemStatus; it_updateAvailable : bool }.
Record RunnerCatalogView := mkView {
  cv_runners : list CatalogItem;
  cv_unmanagedModules : list string;      (** before [sort()] *)
  cv_invalidEntries : list CatalogInvalidEntry;
}.
Definition item_of (importedModules : list (string * option string)) (transientById : list (string * CatalogItemStatus)) (entry : CatalogEntry) : CatalogItem :=
  let status :=
    match jm_get transientById (ce_id entry) with
    | Some s => s
    | None => mkStatus (ce_id entry) (if jm_has importedModules (ce_sifName entry) then IMPORTED else NOT_IMPORTED) None None
    end in
  let catalogDigest := imageDigest (ce_image entry) in
  let importedDigest := jm_get importedModules (ce_sifName entry) ≫= λ d, d in
  mkItem entry status
    (bool_decide (st_state status = IMPORTED) && (bool_decide (catalogDigest = None) || negb (bool_decide (importedDigest = catalogDigest)))).
Definition buildCatalogView (snapshot : CatalogSnapshot) (importedModules : list (string * option string)) (transientById : list (string * CatalogItemStatus)) : RunnerCatalogView :=
  mkView (item_of importedModules transientById <$> sn_entries snapshot)
    (List.filter (λ stem, negb (bool_decide (stem ∈ ce_sifName <$> sn_entries snapshot))) (jm_keys importedModules))
    (sn_invalidEntries snapshot).

(** ** The in-use guard (catalog-view.ts, routes/catalog.ts) *)
Definition isModuleInUse (runnerType : string) (active : list string) : bool := existsb (λ a, bool_decide (a = runnerType)) active.
(** [states]: the name and state of every instance; [records]: the name and runner type of every
    model. *)
Definition isEntryInUse (states : list (string * ModelLifecycleState)) (records : list (string * string)) (runnerType : string) : bool :=
  let activeNames := (List.filter (λ s, negb (bool_decide (s.2 = ModelLifecycleState.STOPPED))) states).*1 in
  match activeNames with
  | [] => false
  | _ => isModuleInUse runnerType (List.filter (λ r, bool_decide (r.1 ∈ activeNames)) records).*2
  end.

(** proxy-protocols.ts: the families the proxy advertises, [None] when it says nothing usable. *)
Definition getSupported (JSON_parse : string → option json) (raw : option string) : option (list string) :=
  if truthy_str raw then v ← JSON_parse (default "" raw); string_array (Some v) else None.
Definition protocol_str (p : Protocol) : string := match p with Protocol.openai => "openai" | Protocol.oip => "oip" end.
(** The guards of [POST /catalog/:id/import], up to [startImport]: the entry to import or the
    error. *)
Definition import_guard (isLeader : bool) (snapshot : CatalogSnapshot) (id : string) (supported : option (list string)) : ErrorCode + CatalogEntry :=
  if negb isLeader then inl NOT_LEADER else
  match List.find (λ e, bool_decide (ce_id e = id)) (sn_entries snapshot) with
  | None => inl CATALOG_NOT_FOUND
  | Some entry =>
      match supported with
      | Some l => if bool_decide (protocol_str (ce_protocol entry) ∈ l) then inr entry else inl PROXY_PROTOCOL_UNSUPPORTED
      | None => inr entry
      end
  end.
(** The guards of [DELETE /catalog/:id], up to [uninstall]. *)
Definition uninstall_guard (isLeader : bool) (snapshot : CatalogSnapshot) (id : string) (states : list (string * ModelLifecycleState)) (records : list (string * string)) :
    ErrorCode + CatalogEntry :=
  if negb isLeader then inl NOT_LEADER else
  match List.find (λ e, bool_decide (ce_id e = id)) (sn_entries snapshot) with
  | None => inl CATALOG_NOT_FOUND
  | Some entry => if isEntryInUse states records (ce_runnerType entry) then inl MODULE_IN_USE else inr entry
  end.

(** ** What [parse] admits *)
Definition entry_ok (e : CatalogEntry) : Prop :=
  name_re (ce_id e) = true ∧ name_re (ce_sifName e) = true ∧ ce_runnerType e ≠ "" ∧ ce_version e ≠ "" ∧
  (starts_with "oras://" (ce_image e) = true → is_Some (imageDigest (ce_image e))) ∧ ce_entrypoint e ≠ Some [].
Lemma is_nonempty_str_field e key : is_nonempty_string (obj_get e key) ≠ None → str_field e key ≠ "".
Proof. unfold is_nonempty_string, str_field. destruct (obj_get e key) as [[]|]; simpl; try done. by case_decide. Qed.
Lemma validateEntry_ok raw e : validateEntry raw = inr e → entry_ok e.
Proof.
  unfold validateEntry. destruct (object_fields raw) as [f|]; [|done]. destruct (List.find _ required_fields) as [key|] eqn:Hreq; [done|].
  assert (∀ key, key ∈ required_fields → str_field f key ≠ "") as Hne.
  { intros key Hk. apply is_nonempty_str_field. pose proof (find_none _ _ Hreq key (proj1 (list_elem_of_In _ _) Hk)) as Hn. by apply bool_decide_eq_false in Hn. }
  destruct (name_re (str_field f "id")) eqn:H1; [|done]. destruct (name_re (str_field f "sifName")) eqn:H2; [|done]. cbn [negb orb].
  destruct (starts_with "oras://" (str_field f "image") && _) eqn:H3; [done|]. destruct (protocol_of _); [|done]. intros [= <-].
  split_and!; cbn [ce_id ce_sifName ce_runnerType ce_version ce_image ce_entrypoint]; [done..|apply Hne; unfold required_fields; set_solver|apply Hne; unfold required_fields; set_solver| |].
  - intros Ho. rewrite Ho in H3. apply bool_decide_eq_false in H3. by apply not_eq_None_Some in H3.
  - destruct (string_array (obj_get f "entrypoint")) as [argv|]; simpl; [case_decide; congruence|done].
Qed.

Record parsed_ok (done_ : list json) (p : Parsed) : Prop := {
  po_ids : NoDup (ce_id <$> pa_entries p);
  po_sifs : NoDup (ce_sifName <$> pa_entries p);
  po_from e : e ∈ pa_entries p → ∃ raw, raw ∈ done_ ∧ validateEntry raw = inr e;
  po_counted : length (pa_entries p) + length (pa_invalid p) = length done_;
  po_first raw e : raw ∈ done_ → validateEntry raw = inr e → ce_id e ∈ ce_id <$> pa_entries p ∨ ce_sifName e ∈ ce_sifName <$> pa_entries p;
}.
Lemma accept_entry_mono p raw e : e ∈ pa_entries p → e ∈ pa_entries (accept_entry p raw).
Proof. unfold accept_entry. intros He. destruct (validateEntry raw); [done|]. repeat case_bool_decide; simpl; set_solver. Qed.
Lemma accept_entry_first p raw e :
  validateEntry raw = inr e → ce_id e ∈ ce_id <$> pa_entries (accept_entry p raw) ∨ ce_sifName e ∈ ce_sifName <$> pa_entries (accept_entry p raw).
Proof.
  intros He. unfold accept_entry. rewrite He. case_bool_decide; [by left|]. case_bool_decide; [by right|]. left. simpl. rewrite fmap_app. set_solver.
Qed.
Lemma accept_entry_ok dn p raw : parsed_ok dn p → parsed_ok (dn ++ [raw]) (accept_entry p raw).
Proof.
  intros [H1 H2 H3 H4 H5]. pose proof (accept_entry_mono p raw) as Hmono. pose proof (accept_entry_first p raw) as Hfirst.
  assert (∀ raw' e, raw' ∈ dn ++ [raw] → validateEntry raw' = inr e →
    ce_id e ∈ ce_id <$> pa_entries (accept_entry p raw) ∨ ce_sifName e ∈ ce_sifName <$> pa_entries (accept_entry p raw)) as Hkeep.
  { intros raw' e [Hr| ->%list_elem_of_singleton]%elem_of_app Hv; [|by apply Hfirst]. destruct (H5 _ _ Hr Hv) as [Hin|Hin]; [left|right];
      apply list_elem_of_fmap in Hin as (e' & -> & He'); apply list_elem_of_fmap; eauto. }
  clear Hmono Hfirst. unfold accept_entry in *. destruct (validateEntry raw) as [bad|e] eqn:Hv; [|case_bool_decide as Hi; [|case_bool_decide as Hs]].
  1-3: split; simpl in *; [done|done| |rewrite !length_app; simpl; lia|done];
       intros e' (raw' & ? & ?)%H3; exists raw'; split; [set_solver|done].
  split; simpl in *; [rewrite fmap_app; apply NoDup_app; split_and!; [done|set_solver|apply NoDup_singleton]|rewrite fmap_app; apply NoDup_app; split_and!; [done|set_solver|apply NoDup_singleton]| |rewrite !length_app; simpl; lia|done].
  intros e' [(raw' & ? & ?)%H3| ->%list_elem_of_singleton]%elem_of_app; [exists raw'|exists raw]; (split; [set_solver|done]).
Qed.
Lemma parse_runners_ok runners : parsed_ok runners (parse_runners runners).
Proof.
  unfold parse_runners. assert (∀ dn p rs, parsed_ok dn p → parsed_ok (dn ++ rs) (foldl accept_entry p rs)) as Hgen.
  { intros dn p rs. revert dn p. induction rs as [|r rs IH]; intros dn p Hp; simpl; [by rewrite app_nil_r|].
    replace (dn ++ r :: rs) with ((dn ++ [r]) ++ rs) by (by rewrite <- app_assoc). by apply IH, accept_entry_ok. }
  apply (Hgen [] (mkParsed [] [])). split; simpl; [constructor|constructor|set_solver|done|set_solver].
Qed.

(** C35: the catalog never lets one module stand for two runners.  Of whatever YAML list, the
    admitted entries have distinct ids and distinct image files, each is one of the listed
    entries and well formed (file-safe names, a pinned digest for a registry image); every listed
    entry is either admitted or reported, and an entry that is well formed is left out only
    for one that came before it and has its id or its file. *)
Theorem catalog_parse_sound runners :
  let p := parse_runners runners in
  NoDup (ce_id <$> pa_entries p) ∧ NoDup (ce_sifName <$> pa_entries p) ∧
  (∀ e, e ∈ pa_entries p → entry_ok e ∧ ∃ raw, raw ∈ runners ∧ validateEntry raw = inr e) ∧
  length (pa_entries p) + length (pa_invalid p) = length runners ∧
  (∀ raw e, raw ∈ runners → validateEntry raw = inr e → ∃ e', e' ∈ pa_entries p ∧ (ce_id e = ce_id e' ∨ ce_sifName e = ce_sifName e')).
Proof.
  simpl. destruct (parse_runners_ok runners) as [H1 H2 H3 H4 H5]. split_and!; [done..| |done|].
  - intros e He. destruct (H3 e He) as (raw & ? & Hv). split; [by eapply validateEntry_ok|eauto].
  - intros raw e Hr Hv. destruct (H5 _ _ Hr Hv) as [Hin|Hin]; apply list_elem_of_fmap in Hin as (e' & ? & ?); eauto.
Qed.

(** ** The guard *)
Lemma isEntryInUse_spec states records runnerType :
  isEntryInUse states records runnerType = true ↔
  ∃ name s, (name, s) ∈ states ∧ s ≠ ModelLifecycleState.STOPPED ∧ (name, runnerType) ∈ records.
Proof.
  unfold isEntryInUse, isModuleInUse.
  assert (∀ name, name ∈ (List.filter (λ s, negb (bool_decide (s.2 = ModelLifecycleState.STOPPED))) states).*1 ↔
    ∃ s, (name, s) ∈ states ∧ s ≠ ModelLifecycleState.STOPPED) as Hact.
  { intros name. rewrite list_elem_of_fmap. split.
    - intros ([n s] & -> & Hin). apply list_elem_of_In, List.filter_In in Hin as [Hin Hs]. apply negb_true_iff, bool_decide_eq_false in Hs.
      apply list_elem_of_In in Hin. eauto.
    - intros (s & Hin & Hs). exists (name, s). split; [done|]. apply list_elem_of_In, List.filter_In. split; [by apply list_elem_of_In|].
      apply negb_true_iff. by apply bool_decide_eq_false. }
  set (names := (List.filter _ states).*1) in *.
  transitivity (existsb (λ a, bool_decide (a = runnerType)) (List.filter (λ r, bool_decide (r.1 ∈ names)) records).*2 = true).
  { destruct names; [|done]. split; [done|]. intros He. apply existsb_exists in He as (x & Hx & _).
    apply list_elem_of_In, list_elem_of_fmap in Hx as ([n rt] & _ & Hin). apply list_elem_of_In, List.filter_In in Hin as [_ Hn].
    apply bool_decide_eq_true in Hn. set_solver. }
  rewrite existsb_exists. split.
  - intros (x & Hx & Heq). apply bool_decide_eq_true in Heq as ->. apply list_elem_of_In, list_elem_of_fmap in Hx as ([n rt] & Hrt & Hin).
    simpl in Hrt. subst rt. apply list_elem_of_In, List.filter_In in Hin as [Hin Hn]. apply bool_decide_eq_true, Hact in Hn as (s & ? & ?).
    apply list_elem_of_In in Hin. eauto.
  - intros (name & s & Hs & Hne & Hr). exists runnerType. split; [|by apply bool_decide_eq_true]. apply list_elem_of_In, list_elem_of_fmap.
    exists (name, runnerType). split; [done|]. apply list_elem_of_In, List.filter_In. split; [by apply list_elem_of_In|]. apply bool_decide_eq_true, Hact. eauto.
Qed.

(** The image of a live model is not deleted.  The delete route gets past its guards only on
    the leader, for an entry of the catalog, and when no instance that is not stopped belongs
    to a recorded model of the entry's runner type. *)
Theorem uninstall_spares_live_models isLeader snapshot id states records entry :
  uninstall_guard isLeader snapshot id states records = inr entry →
  isLeader = true ∧ entry ∈ sn_entries snapshot ∧ ce_id entry = id ∧
  ∀ name s, (name, s) ∈ states → (name, ce_runnerType entry) ∈ records → s = ModelLifecycleState.STOPPED.
Proof.
  unfold uninstall_guard. destruct isLeader; [|done]. destruct (List.find _ _) as [e|] eqn:Hf; [|done].
  destruct (isEntryInUse _ _ _) eqn:Hu; [done|]. intros [= <-]. apply find_some in Hf as [Hin Hid]. apply bool_decide_eq_true in Hid.
  split_and!; [done|by apply list_elem_of_In|done|]. intros name s Hs Hr. destruct (decide (s = ModelLifecycleState.STOPPED)) as [|Hne]; [done|].
  assert (isEntryInUse states records (ce_runnerType e) = true); [|congruence]. apply isEntryInUse_spec. eauto.
Qed.

Definition ex_catalog_entry (id sif : string) : json :=
  JObj [("id", JStr id); ("title", JStr "t"); ("description", JStr "d"); ("runnerType", JStr "vllm"); ("version", JStr "0.24");
        ("image", JStr "dev"); ("sifName", JStr sif); ("protocol", JStr "openai")].
Example duplicates_rejected :
  let p := parse_runners [ex_catalog_entry "a" "x"; ex_catalog_entry "b" "x"; ex_catalog_entry "a" "y"; JArr []; JNull; ex_catalog_entry "c/d" "z"] in
  (ce_id <$> pa_entries p, ci_reason <$> pa_invalid p) = (["a"], [DuplicateSifName; DuplicateId; MissingField "id"; NotAnObject; InvalidName]).
Proof. by vm_compute. Qed.
Lemma uninstall_spares_live_models_witness :
  ∃ entry, uninstall_guard true (mkSnapshot "s" "t" (pa_entries (parse_runners [ex_catalog_entry "a" "x"])) []) "a"
      [("m", ModelLifecycleState.STOPPED); ("k", ModelLifecycleState.ACTIVE)] [("m", "vllm"); ("k", "mlserver")] = inr entry ∧ ce_id entry = "a".
Proof.
  eexists. split; [vm_compute; reflexivity|]. eapply (uninstall_spares_live_models true (mkSnapshot "s" "t" (pa_entries (parse_runners [ex_catalog_entry "a" "x"])) []) "a"
    [("m", ModelLifecycleState.STOPPED); ("k", ModelLifecycleState.ACTIVE)] [("m", "vllm"); ("k", "mlserver")]). vm_compute. reflexivity.
Defined.
