(* ===== verification/Modules.v ===== *)
(** * The module store (control-plane/src/services/module-store.ts)

    Imported runner images live as files of one directory, each beside a metadata file that
    says which digest it was made from.  [Store] is that directory together with the service's
    map of running and failed imports; imports and uninstalls run concurrently, so each of
    their awaits is a step, and a run is any sequence of steps. *)
From stdpp Require Import base tactics list strings gmap sets.
From Stdlib Require Import ZArith Lia Ascii.
From S2P Require Import Prelude Js Types Catalog.

(** ** Files *)
(** What a file of the directory holds: the bytes of an image, metadata written by the service
    ([imageDigest] of its JSON), or anything else. *)
Inductive File := FSif (bytes : string) | FMeta (digest : string) | FOther.
Definition sif_file (sifName : string) : string := sifName +:+ ".sif".
Definition metadata_file (sifName : string) : string := sifName +:+ ".sif.metadata.json".
(** [`${process.pid}.${Date.now()}`] *)
Definition stamp (pid now : Z) : string := show_int pid +:+ "." +:+ show_int now.
Definition tmp_file (sifName s : string) : string := "." +:+ sifName +:+ ".sif.tmp." +:+ s.
Definition metadata_tmp_file (sifName s : string) : string := "." +:+ sifName +:+ ".sif.metadata.json.tmp." +:+ s.

(** The filter of [sweepTempFiles]. *)
Definition is_temp (f : string) : bool :=
  starts_with "." f && (includes ".sif.tmp." f || includes ".sif.metadata.json.tmp." f).

(** ** State *)
Inductive ModuleEvent :=
| CATALOG_REFRESHED
| CATALOG_IMPORT_STARTED (id : string)
| CATALOG_IMPORT_PROGRESS (id : string) (percentComplete : Z)
| CATALOG_IMPORT_COMPLETED (id : string)
| CATALOG_IMPORT_FAILED (id error : string)
| CATALOG_MODULE_REMOVED (id : string).
(** Where [runImport] stands: the importer runs; it has returned; the metadata is in its
    temporary file; the image is under its name. *)
Inductive ImportPhase := Pulling | Pulled | MetadataWritten | SifPublished.
#[global] Instance ImportPhase_eq_dec : EqDecision ImportPhase.
Proof. solve_decision. Defined.
Record Import := mkImport { im_entry : CatalogEntry; im_tmp : string; im_metadataTmp : string; im_phase : ImportPhase }.
Record Store := mkStore {
  files : gmap string File;
  transient : list (string * CatalogItemStatus);
  imports : gmap nat Import;
  uninstalls : gmap nat CatalogEntry;      (** image unlinked, metadata not yet *)
  events : list ModuleEvent;
}.
Definition init_store (fs : gmap string File) : Store := mkStore fs [] ∅ ∅ [].

Definition set_files (f : gmap string File → gmap string File) (st : Store) : Store :=
  mkStore (f (files st)) (transient st) (imports st) (uninstalls st) (events st).
Definition set_transient (f : list (string * CatalogItemStatus) → list (string * CatalogItemStatus)) (st : Store) : Store :=
  mkStore (files st) (f (transient st)) (imports st) (uninstalls st) (events st).
Definition set_imports (f : gmap nat Import → gmap nat Import) (st : Store) : Store :=
  mkStore (files st) (transient st) (f (imports st)) (uninstalls st) (events st).
Definition set_uninstalls (f : gmap nat CatalogEntry → gmap nat CatalogEntry) (st : Store) : Store :=
  mkStore (files st) (transient st) (imports st) (f (uninstalls st)) (events st).
Definition emit (e : ModuleEvent) (st : Store) : Store :=
  mkStore (files st) (transient st) (imports st) (uninstalls st) (events st ++ [e]).

(** ** Reads *)
Definition listImportedStems (st : Store) : list string :=
  (λ f, str_take (str_length f - 4) f) <$> List.filter (λ f, ends_with ".sif" f && negb (starts_with "." f)) (map_to_list (files st)).*1.
Definition recorded_digest (f : option File) : option string :=
  match f with
  | Some (FMeta d) => let digest := to_lower d in if Nat.eqb (str_length digest) 64 && all_chars hex_char digest then Some digest else None
  | _ => None
  end.
Definition listImportedModules (st : Store) : list (string * option string) :=
  (λ stem, (stem, recorded_digest (files st !! metadata_file stem))) <$> listImportedStems st.
Definition importing (id : string) (st : Store) : bool :=
  match jm_get (transient st) id with Some s => bool_decide (st_state s = IMPORTING) | None => false end.

(** ** Steps *)
Definition startImport (c : nat) (entry : CatalogEntry) (s s' : string) (st : Store) : Store :=
  if importing (ce_id entry) st then st else
  set_imports <[c := mkImport entry (tmp_file (ce_sifName entry) s) (metadata_tmp_file (ce_sifName entry) s') Pulling]>
    (emit (CATALOG_IMPORT_STARTED (ce_id entry))
      (set_transient (λ t, jm_set t (ce_id entry) (mkStatus (ce_id entry) IMPORTING (Some 0%Z) None)) st)).
Definition on_progress (entry : CatalogEntry) (percentComplete : Z) (st : Store) : Store :=
  emit (CATALOG_IMPORT_PROGRESS (ce_id entry) percentComplete)
    (set_transient (λ t, jm_set t (ce_id entry) (mkStatus (ce_id entry) IMPORTING (Some percentComplete) None)) st).
Definition at_phase (im : Import) (ph : ImportPhase) : Import := mkImport (im_entry im) (im_tmp im) (im_metadataTmp im) ph.
Definition rename_file (src dst : string) (f : File) (fs : gmap string File) : gmap string File := <[dst := f]> (delete src fs).
Definition complete_import (c : nat) (im : Import) (st : Store) : Store :=
  emit (CATALOG_IMPORT_COMPLETED (ce_id (im_entry im)))
    (set_imports (delete c) (set_transient (λ t, jm_delete t (ce_id (im_entry im))) st)).
Definition fail_import (c : nat) (im : Import) (msg : string) (st : Store) : Store :=
  emit (CATALOG_IMPORT_FAILED (ce_id (im_entry im)) msg)
    (set_imports (delete c)
      (set_transient (λ t, jm_set t (ce_id (im_entry im)) (mkStatus (ce_id (im_entry im)) FAILED None (Some msg)))
        (set_files (λ fs, delete (im_metadataTmp im) (delete (im_tmp im) fs)) st))).
Definition finish_uninstall (c : nat) (entry : CatalogEntry) (removed : bool) (st : Store) : Store :=
  emit (CATALOG_MODULE_REMOVED (ce_id entry))
    (set_uninstalls (delete c)
      (set_transient (λ t, jm_delete t (ce_id entry))
        (set_files (λ fs, if removed then delete (metadata_file (ce_sifName entry)) fs else fs) st))).
Definition sweepTempFiles (st : Store) : Store := set_files (filter (λ kf, is_temp kf.1 = false)) st.

Inductive Label :=
| LStart (c : nat) (entry : CatalogEntry) (pid now now' : Z)
| LProgress (c : nat) (percentComplete : Z)
| LWrite (c : nat) (bytes : string)          (** the importer writes to the temporary file *)
| LPulled (c : nat) (bytes : string)         (** and is done *)
| LMetadata (c : nat)
| LRename (c : nat)
| LPublish (c : nat)
| LFail (c : nat) (msg : string)             (** an await of [runImport] throws *)
| LUninstall (c : nat) (entry : CatalogEntry)
| LUninstalled (c : nat) (removed : bool)    (** whether the metadata file could be unlinked *)
| LRestart                                   (** the process is replaced *)
| LSweep.                                    (** at startup *)

Definition step (l : Label) (st : Store) : option Store :=
  match l with
  | LStart c entry pid now now' =>
      guard (imports st !! c = None);; Some (startImport c entry (stamp pid now) (stamp pid now') st)
  | LProgress c percentComplete =>
      im ← imports st !! c; guard (im_phase im = Pulling);; Some (on_progress (im_entry im) percentComplete st)
  | LWrite c bytes =>
      im ← imports st !! c; guard (im_phase im = Pulling);; Some (set_files <[im_tmp im := FSif bytes]> st)
  | LPulled c bytes =>
      im ← imports st !! c; guard (im_phase im = Pulling);;
      _ ← imageDigest (ce_image (im_entry im));
      Some (set_imports <[c := at_phase im Pulled]> (set_files <[im_tmp im := FSif bytes]> st))
  | LMetadata c =>
      im ← imports st !! c; guard (im_phase im = Pulled);;
      digest ← imageDigest (ce_image (im_entry im));
      Some (set_imports <[c := at_phase im MetadataWritten]> (set_files <[im_metadataTmp im := FMeta digest]> st))
  | LRename c =>
      im ← imports st !! c; guard (im_phase im = MetadataWritten);;
      f ← files st !! im_tmp im;
      Some (set_imports <[c := at_phase im SifPublished]> (set_files (rename_file (im_tmp im) (sif_file (ce_sifName (im_entry im))) f) st))
  | LPublish c =>
      im ← imports st !! c; guard (im_phase im = SifPublished);;
      f ← files st !! im_metadataTmp im;
      Some (complete_import c im (set_files (rename_file (im_metadataTmp im) (metadata_file (ce_sifName (im_entry im))) f) st))
  | LFail c msg => im ← imports st !! c; Some (fail_import c im msg st)
  | LUninstall c entry =>
      guard (uninstalls st !! c = None);;
      _ ← files st !! sif_file (ce_sifName entry);
      Some (set_uninstalls <[c := entry]> (set_files (delete (sif_file (ce_sifName entry))) st))
  | LUninstalled c removed => entry ← uninstalls st !! c; Some (finish_uninstall c entry removed st)
  | LRestart => Some (mkStore (files st) [] ∅ ∅ (events st))
  | LSweep => guard (imports st = ∅);; Some (sweepTempFiles st)
  end.

Inductive reachable (P : Label → Store → Prop) (fs : gmap string File) : Store → Prop :=
| reach_init : reachable P fs (init_store fs)
| reach_step l st st' : reachable P fs st → P l st → step l st = Some st' → reachable P fs st'.
Fixpoint run_labels (ls : list Label) (st : Store) : option Store :=
  match ls with [] => Some st | l :: ls' => st' ← step l st; run_labels ls' st' end.

(** ** File names *)
Fixpoint last_char (s : string) : option ascii :=
  match s with EmptyString => None | String c EmptyString => Some c | String _ s' => last_char s' end.
Lemma last_char_app a b : b ≠ "" → last_char (a +:+ b) = last_char b.
Proof.
  intros Hb. induction a as [|c a IH]; [done|]. rewrite str_app_cons. simpl. rewrite IH. destruct a; [by destruct b|done].
Qed.
Lemma last_char_all f s c : all_chars f s = true → last_char s = Some c → f c = true.
Proof.
  induction s as [|x s IH]; [done|]. simpl. intros [Hx Hs]%andb_true_iff. destruct s; [by intros [= <-]|]. by apply IH.
Qed.
Lemma all_chars_app f a b : all_chars f (a +:+ b) = all_chars f a && all_chars f b.
Proof. induction a as [|c a IH]; [done|]. rewrite str_app_cons. simpl. rewrite IH. by rewrite andb_assoc. Qed.
Lemma all_chars_has f s c : all_chars f s = true → f c = false → has_char c s = false.
Proof.
  intros Hs Hc. induction s as [|x s IH]; [done|]. simpl in *. apply andb_true_iff in Hs as [Hx Hs]. apply orb_false_iff. split; [|auto].
  apply bool_decide_eq_false. intros ->. congruence.
Qed.
Lemma app_inj_r a b p : a +:+ p = b +:+ p → a = b.
Proof.
  intros E. assert (str_length a = str_length b) as Hl.
  { apply (f_equal str_length) in E. rewrite !str_length_app in E. lia. }
  rewrite <- (str_take_app a p), <- (str_take_app b p), E. by f_equal.
Qed.

Definition int_char (c : ascii) : bool := in_chars 48 57 c || bool_decide (c = "-"%char) || bool_decide (c = "."%char).
Lemma uint_chars d : all_chars int_char (DecimalString.NilEmpty.string_of_uint d) = true.
Proof. by induction d. Qed.
Lemma show_int_chars z : all_chars int_char (show_int z) = true ∧ show_int z ≠ "".
Proof.
  unfold show_int, DecimalString.NilZero.string_of_int, DecimalString.NilZero.string_of_uint.
  destruct (Z.to_int z) as [d|d]; destruct d; simpl; rewrite ?uint_chars; done.
Qed.
Lemma stamp_chars pid now : all_chars int_char (stamp pid now) = true ∧ stamp pid now ≠ "".
Proof.
  unfold stamp. destruct (show_int_chars pid) as [H1 H2], (show_int_chars now) as [H3 _]. rewrite !all_chars_app, H1, H3. split; [done|].
  by destruct (show_int pid).
Qed.

(** A stamped name is not one that ends in another letter. *)
Lemma stamped_ne a b pid now p c : last_char p = Some c → int_char c = false → a +:+ stamp pid now ≠ b +:+ p.
Proof.
  intros Hp Hc E. destruct (stamp_chars pid now) as [Hs Hne]. apply (f_equal last_char) in E.
  rewrite !last_char_app in E by (done || by intros ->). rewrite Hp in E. by rewrite (last_char_all _ _ _ Hs E) in Hc.
Qed.
Lemma sif_metadata_ne n m : sif_file n ≠ metadata_file m.
Proof.
  intros E. apply (f_equal last_char) in E. unfold sif_file, metadata_file in E. by rewrite !last_char_app in E.
Qed.
Lemma sif_file_inj n m : sif_file n = sif_file m → n = m.
Proof. apply app_inj_r. Qed.
Lemma metadata_file_inj n m : metadata_file n = metadata_file m → n = m.
Proof. apply app_inj_r. Qed.

(** The temporary names of an import. *)
Definition temp_of (sifName name : string) : Prop :=
  ∃ pid now, name = tmp_file sifName (stamp pid now) ∨ name = metadata_tmp_file sifName (stamp pid now).
Lemma temp_not_sif n m name : temp_of n name → name ≠ sif_file m.
Proof.
  intros (pid & now & [-> | ->]); unfold tmp_file, metadata_tmp_file, sif_file; rewrite <- ?str_app_assoc; by eapply stamped_ne.
Qed.
Lemma temp_not_metadata n m name : temp_of n name → name ≠ metadata_file m.
Proof.
  intros (pid & now & [-> | ->]); unfold tmp_file, metadata_tmp_file, metadata_file; rewrite <- ?str_app_assoc; by eapply stamped_ne.
Qed.
Lemma stamp_no_p pid now : has_char "p"%char ("." +:+ stamp pid now) = false.
Proof. simpl. eapply all_chars_has; [apply stamp_chars|done]. Qed.
Lemma temp_split a b pid now pid' now' :
  a +:+ ".tmp." +:+ stamp pid now = b +:+ ".tmp." +:+ stamp pid' now' → a = b.
Proof.
  intros E. assert (∀ x s, x +:+ ".tmp." +:+ s = (x +:+ ".tm") +:+ String "p" ("." +:+ s)) as Hx by (intros; by rewrite str_app_assoc).
  rewrite !Hx in E. apply sep_inj_r in E as [E _]; [by apply app_inj_r in E|apply stamp_no_p..].
Qed.
Lemma tmp_file_eq n s : tmp_file n s = ("." +:+ n +:+ ".sif") +:+ ".tmp." +:+ s.
Proof. unfold tmp_file. by rewrite !str_app_assoc. Qed.
Lemma metadata_tmp_file_eq n s : metadata_tmp_file n s = ("." +:+ n +:+ ".sif.metadata.json") +:+ ".tmp." +:+ s.
Proof. unfold metadata_tmp_file. by rewrite !str_app_assoc. Qed.
Lemma tmp_metadata_ne n m pid now pid' now' : tmp_file n (stamp pid now) ≠ metadata_tmp_file m (stamp pid' now').
Proof.
  rewrite tmp_file_eq, metadata_tmp_file_eq. intros E%temp_split. apply (f_equal last_char) in E. rewrite <- !str_app_assoc in E. by rewrite !last_char_app in E.
Qed.
Lemma temp_of_inj n m name : temp_of n name → temp_of m name → n = m.
Proof.
  intros (pid & now & Hn) (pid' & now' & Hm). destruct Hn as [-> | ->], Hm as [E|E].
  - rewrite !tmp_file_eq in E. apply temp_split in E. injection E as E. exact (app_inj_r n m ".sif" E).
  - by apply tmp_metadata_ne in E.
  - symmetry in E. by apply tmp_metadata_ne in E.
  - rewrite !metadata_tmp_file_eq in E. apply temp_split in E. injection E as E. exact (app_inj_r n m ".sif.metadata.json" E).
Qed.

(** ** Provenance *)
Section provenance.
(** [genuine d b]: the bytes [b] are those of the image with digest [d]. *)
Context (genuine : string → string → Prop).
Notation sifName_of im := (ce_sifName (im_entry im)).

(** The importer delivers what it was asked for, an import is not started while another one of
    the same file runs, and publishing the metadata is neither refused nor cut short. *)
Definition undisturbed (l : Label) (st : Store) : Prop :=
  match l with
  | LStart _ entry _ _ _ => importing (ce_id entry) st = true ∨ ∀ c im, imports st !! c = Some im → sifName_of im ≠ ce_sifName entry
  | LPulled c bytes => ∀ im d, imports st !! c = Some im → imageDigest (ce_image (im_entry im)) = Some d → genuine d bytes
  | LFail c _ => ∀ im, imports st !! c = Some im → im_phase im ≠ SifPublished
  | LRestart => ∀ c im, imports st !! c = Some im → im_phase im ≠ SifPublished
  | _ => True
  end.

Definition holds_genuine (im : Import) (f : File) : Prop :=
  ∃ d b, imageDigest (ce_image (im_entry im)) = Some d ∧ f = FSif b ∧ genuine d b.
Definition holds_digest (im : Import) (f : File) : Prop := ∃ d, imageDigest (ce_image (im_entry im)) = Some d ∧ f = FMeta d.
Record import_ok (fs : gmap string File) (im : Import) : Prop := {
  io_tmp : ∃ pid now, im_tmp im = tmp_file (sifName_of im) (stamp pid now);
  io_metadataTmp : ∃ pid now, im_metadataTmp im = metadata_tmp_file (sifName_of im) (stamp pid now);
  io_pulled f : im_phase im = Pulled ∨ im_phase im = MetadataWritten → fs !! im_tmp im = Some f → holds_genuine im f;
  io_written f : im_phase im = MetadataWritten ∨ im_phase im = SifPublished → fs !! im_metadataTmp im = Some f → holds_digest im f;
  io_published f : im_phase im = SifPublished → fs !! sif_file (sifName_of im) = Some f → holds_genuine im f;
}.
Definition provenance (fs : gmap string File) (publishing : string → Prop) : Prop :=
  ∀ n b d, fs !! sif_file n = Some (FSif b) → fs !! metadata_file n = Some (FMeta d) → ¬ publishing n → genuine d b.
Definition publishing (ims : gmap nat Import) (n : string) : Prop := ∃ c im, ims !! c = Some im ∧ sifName_of im = n ∧ im_phase im = SifPublished.
Record store_ok (fs : gmap string File) (ims : gmap nat Import) : Prop := {
  so_imports c im : ims !! c = Some im → import_ok fs im;
  so_distinct c c' im im' : ims !! c = Some im → ims !! c' = Some im' → sifName_of im = sifName_of im' → c = c';
  so_provenance : provenance fs (publishing ims);
}.

Lemma import_ok_temp fs im : import_ok fs im → temp_of (sifName_of im) (im_tmp im) ∧ temp_of (sifName_of im) (im_metadataTmp im) ∧ im_tmp im ≠ im_metadataTmp im.
Proof.
  intros [(p & n & H1) (p' & n' & H2) _ _ _]. rewrite H1, H2. split_and!; [by exists p, n; left|by exists p', n'; right|apply tmp_metadata_ne].
Qed.
Definition own (im : Import) (name : string) : Prop := name = im_tmp im ∨ name = im_metadataTmp im ∨ name = sif_file (sifName_of im).
(** An import does not mind what happens to files that are not its own, nor that its own go. *)
Lemma import_ok_frame fs fs' im :
  import_ok fs im → (∀ name f, own im name → fs' !! name = Some f → fs !! name = Some f) →
  import_ok fs' im.
Proof. intros [H1 H2 H3 H4 H5] Hf. split; [done..| | |]; intros f Hp Hl; [apply H3|apply H4|apply H5]; try done; apply Hf; unfold own; auto. Qed.
Lemma import_file_name fs im name :
  import_ok fs im → own im name → temp_of (sifName_of im) name ∨ name = sif_file (sifName_of im).
Proof. intros (Ht & Hm & _)%import_ok_temp [-> |[-> | ->]]; auto. Qed.
(** In particular what happens to the files of an import of another image. *)
Lemma import_ok_other fs fs' im im' :
  import_ok fs im → import_ok fs im' → sifName_of im ≠ sifName_of im' → (∀ k, ¬ own im' k → fs' !! k = fs !! k) → import_ok fs' im.
Proof.
  intros Hok Hok' Hne Hfs. eapply import_ok_frame; [done|]. intros name f Hk Hf. rewrite Hfs in Hf; [done|]. intros Hn.
  apply (import_file_name _ _ _ Hok) in Hk as [Hk|Hk]; apply (import_file_name _ _ _ Hok') in Hn as [Hn|Hn].
  - by apply Hne, (temp_of_inj _ _ name).
  - by apply (temp_not_sif _ (sifName_of im')) in Hk.
  - by apply (temp_not_sif _ (sifName_of im)) in Hn.
  - apply Hne, sif_file_inj. congruence.
Qed.
Lemma provenance_frame fs fs' (Q Q' : string → Prop) :
  provenance fs Q → (∀ n f, fs' !! sif_file n = Some f → fs !! sif_file n = Some f) → (∀ n f, fs' !! metadata_file n = Some f → fs !! metadata_file n = Some f) →
  (∀ n, Q n → Q' n) → provenance fs' Q'.
Proof. intros Hp Hs Hm HQ n b d Hb Hd HnQ. eapply Hp; [by apply Hs|by apply Hm|]. auto. Qed.

(** An import moves on: it changes its own files and its phase. *)
Lemma store_ok_advance fs ims c im ph fs' :
  store_ok fs ims → ims !! c = Some im → (∀ k, ¬ own im k → fs' !! k = fs !! k) → import_ok fs' (at_phase im ph) → provenance fs' (publishing (<[c := at_phase im ph]> ims)) →
  store_ok fs' (<[c := at_phase im ph]> ims).
Proof.
  intros [H1 H2 _] Hc Hfs Hok Hp. split; [..|done].
  - intros c' im' [[<- <-]|[Hne Hc']]%lookup_insert_Some; [done|]. eapply (import_ok_other fs fs' im' im); eauto.
  - intros c1 c2 im1 im2 [[<- <-]|[Hn1 Hc1]]%lookup_insert_Some [[<- <-]|[Hn2 Hc2]]%lookup_insert_Some Hs; eauto.
Qed.
Lemma publishing_mono ims c im ph n : ims !! c = Some im → im_phase im ≠ SifPublished → publishing ims n → publishing (<[c := at_phase im ph]> ims) n.
Proof.
  intros Hc Hph (c' & im' & Hc' & Hn & Hp). exists c', im'. split; [|done]. rewrite lookup_insert_ne; [done|]. intros ->. simplify_eq.
Qed.
(** An import ends, and its temporary files with it. *)
Lemma store_ok_drop fs ims c im fs' :
  store_ok fs ims → ims !! c = Some im → (∀ k f, fs' !! k = Some f → k ≠ metadata_file (sifName_of im) → fs !! k = Some f) →
  provenance fs' (publishing (delete c ims)) → store_ok fs' (delete c ims).
Proof.
  intros [H1 H2 _] Hc Hfs Hp. split; [..|done].
  - intros c' im' [Hne Hc']%lookup_delete_Some. eapply import_ok_frame; [by eapply H1|]. intros k f Hk Hf. apply Hfs; [done|].
    apply (import_file_name _ _ _ (H1 _ _ Hc')) in Hk as [Hk| ->]; [by eapply temp_not_metadata|apply sif_metadata_ne].
  - intros c1 c2 im1 im2 [Hn1 Hc1]%lookup_delete_Some [Hn2 Hc2]%lookup_delete_Some Hs; eauto.
Qed.

Lemma provenance_files fs fs' n (Q Q' : string → Prop) :
  provenance fs Q → (∀ k, ¬ temp_of n k → fs' !! k = fs !! k) → (∀ m, Q m → Q' m) → provenance fs' Q'.
Proof.
  intros Hp Hfs HQ. eapply provenance_frame; [done|..|done]; intros m f; rewrite Hfs; try done; intros Ht.
  - by apply (temp_not_sif _ m) in Ht.
  - by apply (temp_not_metadata _ m) in Ht.
Qed.
Lemma at_phase_same im : at_phase im (im_phase im) = im.
Proof. by destruct im. Qed.

(** What one import does to the store, phase by phase. *)
Lemma fs_write_ok fs ims c im bytes ph :
  store_ok fs ims → ims !! c = Some im → im_phase im = Pulling → ph = Pulling ∨ ph = Pulled ∧ holds_genuine im (FSif bytes) →
  store_ok (<[im_tmp im := FSif bytes]> fs) (<[c := at_phase im ph]> ims).
Proof.
  intros Hok Hc Hph Hgen. pose proof (so_imports _ _ Hok _ _ Hc) as Him. destruct (import_ok_temp _ _ Him) as (Ht & Hm & Hne).
  eapply (store_ok_advance fs); [done|done| | |].
  - intros k Hk. rewrite lookup_insert_ne; [done|]. intros <-. apply Hk. by left.
  - destruct Him as [H1 H2 _ _ _]. split; simpl; [done..| | |]; intros f Hp; [|destruct Hgen as [-> |[-> _]]; naive_solver..].
    rewrite lookup_insert_eq. intros [= <-]. destruct Hgen as [-> |[_ ?]]; [naive_solver|done].
  - eapply (provenance_files fs _ (sifName_of im)); [apply Hok| |].
    + intros k Hk. rewrite lookup_insert_ne; [done|]. by intros <-.
    + intros n. apply publishing_mono; [done|]. by rewrite Hph.
Qed.
Lemma metadata_ok fs ims c im d :
  store_ok fs ims → ims !! c = Some im → im_phase im = Pulled → imageDigest (ce_image (im_entry im)) = Some d →
  store_ok (<[im_metadataTmp im := FMeta d]> fs) (<[c := at_phase im MetadataWritten]> ims).
Proof.
  intros Hok Hc Hph Hd. pose proof (so_imports _ _ Hok _ _ Hc) as Him. destruct (import_ok_temp _ _ Him) as (Ht & Hm & Hne).
  eapply (store_ok_advance fs); [done|done| | |].
  - intros k Hk. rewrite lookup_insert_ne; [done|]. intros <-. apply Hk. right. by left.
  - destruct Him as [H1 H2 H3 _ _]. split; simpl; [done..| | |].
    + intros f _. rewrite lookup_insert_ne by done. intros Hf. apply H3; [by left|done].
    + intros f _. rewrite lookup_insert_eq. intros [= <-]. by exists d.
    + done.
  - eapply (provenance_files fs _ (sifName_of im)); [apply Hok| |].
    + intros k Hk. rewrite lookup_insert_ne; [done|]. by intros <-.
    + intros n. apply publishing_mono; [done|]. by rewrite Hph.
Qed.
Lemma rename_ok fs ims c im f :
  store_ok fs ims → ims !! c = Some im → im_phase im = MetadataWritten → fs !! im_tmp im = Some f →
  store_ok (rename_file (im_tmp im) (sif_file (sifName_of im)) f fs) (<[c := at_phase im SifPublished]> ims).
Proof.
  intros Hok Hc Hph Hf. pose proof (so_imports _ _ Hok _ _ Hc) as Him. destruct (import_ok_temp _ _ Him) as (Ht & Hm & Hne).
  pose proof (temp_not_sif _ (sifName_of im) _ Hm) as Hms. pose proof (temp_not_sif _ (sifName_of im) _ Ht) as Hts. unfold rename_file.
  eapply (store_ok_advance fs); [done|done| | |].
  - intros k Hk. rewrite lookup_insert_ne, lookup_delete_ne; [done|..]; intros <-; apply Hk; unfold own; auto.
  - destruct Him as [H1 H2 H3 H4 _]. split; simpl; [done..| | |].
    + intros ? [?|?]; done.
    + intros g _. rewrite lookup_insert_ne, lookup_delete_ne by done. intros Hg. apply H4; [by left|done].
    + intros g _. rewrite lookup_insert_eq. intros [= <-]. apply H3; [by right|done].
  - intros n b d Hb Hd Hn. assert (n ≠ sifName_of im) as Hnn.
    { intros ->. apply Hn. exists c, (at_phase im SifPublished). split; [by rewrite lookup_insert_eq|done]. }
    assert (∀ k, k ≠ sif_file (sifName_of im) → ¬ temp_of (sifName_of im) k → <[sif_file (sifName_of im) := f]> (delete (im_tmp im) fs) !! k = fs !! k) as Hk.
    { intros k Hk1 Hk2. rewrite lookup_insert_ne, lookup_delete_ne; [done|..]; by intros <-. }
    rewrite Hk in Hb, Hd; [|apply not_eq_sym, sif_metadata_ne|by intros ?%(temp_not_metadata _ n)|by intros ?%sif_file_inj|by intros ?%(temp_not_sif _ n)].
    eapply (so_provenance _ _ Hok); [done..|]. intros Hpub. apply Hn. apply publishing_mono; [done|by rewrite Hph|done].
Qed.
Lemma publish_ok fs ims c im f :
  store_ok fs ims → ims !! c = Some im → im_phase im = SifPublished → fs !! im_metadataTmp im = Some f →
  store_ok (rename_file (im_metadataTmp im) (metadata_file (sifName_of im)) f fs) (delete c ims).
Proof.
  intros Hok Hc Hph Hf. pose proof (so_imports _ _ Hok _ _ Hc) as Him. destruct (import_ok_temp _ _ Him) as (Ht & Hm & Hne).
  unfold rename_file. eapply store_ok_drop; [done|done| |].
  - intros k g Hk Hn. rewrite lookup_insert_ne in Hk by done. by apply lookup_delete_Some in Hk as [_ ?].
  - intros n b d Hb Hd Hn. rewrite lookup_insert_ne in Hb by (apply not_eq_sym, sif_metadata_ne). apply lookup_delete_Some in Hb as [_ Hb].
    destruct (decide (n = sifName_of im)) as [->|Hnn].
    + rewrite lookup_insert_eq in Hd. injection Hd as ->. destruct (io_written _ _ Him (FMeta d)) as (d' & Hd' & [= <-]); [by right|done|].
      destruct (io_published _ _ Him (FSif b)) as (d'' & b' & Hd'' & [= <-] & Hg); [done..|]. congruence.
    + rewrite lookup_insert_ne in Hd by (intros ?%metadata_file_inj; congruence). apply lookup_delete_Some in Hd as [_ Hd].
      eapply (so_provenance _ _ Hok); [done..|]. intros (c' & im' & Hc' & Hs & Hp). apply Hn. exists c', im'. split; [|done].
      apply lookup_delete_Some. split; [|done]. intros <-. simplify_eq.
Qed.
Lemma fail_ok fs ims c im :
  store_ok fs ims → ims !! c = Some im → im_phase im ≠ SifPublished → store_ok (delete (im_metadataTmp im) (delete (im_tmp im) fs)) (delete c ims).
Proof.
  intros Hok Hc Hph. assert (∀ k f, delete (im_metadataTmp im) (delete (im_tmp im) fs) !! k = Some f → fs !! k = Some f) as Hsub.
  { intros k f. rewrite !lookup_delete_Some. tauto. }
  eapply store_ok_drop; [done|done|auto|]. eapply provenance_frame; [apply Hok|auto..|].
  intros n (c' & im' & Hc' & Hs & Hp). exists c', im'. split; [|done]. apply lookup_delete_Some. split; [|done]. intros <-. simplify_eq.
Qed.
Lemma shrink_ok fs fs' ims : store_ok fs ims → (∀ k f, fs' !! k = Some f → fs !! k = Some f) → store_ok fs' ims.
Proof.
  intros [H1 H2 H3] Hsub. split; [|done|by eapply provenance_frame; eauto]. intros c im Hc. eapply import_ok_frame; eauto.
Qed.
Lemma start_ok fs ims c entry pid now now' :
  store_ok fs ims → ims !! c = None → (∀ c im, ims !! c = Some im → sifName_of im ≠ ce_sifName entry) →
  store_ok fs (<[c := mkImport entry (tmp_file (ce_sifName entry) (stamp pid now)) (metadata_tmp_file (ce_sifName entry) (stamp pid now')) Pulling]> ims).
Proof.
  intros [H1 H2 H3] Hc Hnew. split.
  - intros c' im' [[<- <-]|[? ?]]%lookup_insert_Some; [|by eapply H1]. split; simpl; [eauto..| | |]; intros; naive_solver.
  - intros c1 c2 im1 im2 [[<- <-]|[Hn1 Hc1]]%lookup_insert_Some [[<- <-]|[Hn2 Hc2]]%lookup_insert_Some Hs; simpl in *; [done|..|eauto].
    + by destruct (Hnew _ _ Hc2).
    + by destruct (Hnew _ _ Hc1).
  - eapply provenance_frame; [done|auto..|]. intros n (c' & im' & Hc' & Hs & Hp). exists c', im'. split; [|done].
    rewrite lookup_insert_ne; [done|]. intros ->. congruence.
Qed.

Lemma step_ok l st st' : store_ok (files st) (imports st) → undisturbed l st → step l st = Some st' → store_ok (files st') (imports st').
Proof.
  intros Hok HP Hs. destruct l as [c entry pid now now'|c pct|c bytes|c bytes|c|c|c|c msg|c entry|c removed| |]; simpl in Hs;
    repeat match type of Hs with
    | (guard ?Q;; _) = _ => let G := fresh "HG" in apply bind_Some in Hs as (G & _ & Hs)
    | (_ ← _; _) = Some _ => apply bind_Some in Hs as (? & ? & Hs)
    end; simplify_eq; simpl.
  - unfold startImport. destruct (importing (ce_id entry) st) eqn:Hi; [done|]. destruct HP as [?|HP]; [congruence|]. by apply start_ok.
  - done.
  - pose proof (fs_write_ok _ _ _ _ bytes Pulling Hok H HG (or_introl eq_refl)) as Hw.
    assert (at_phase x Pulling = x) as Hx by (rewrite <- HG; apply at_phase_same). rewrite Hx in Hw. by rewrite (insert_id (imports st)) in Hw.
  - apply fs_write_ok; [done..|]. right. split; [done|]. eexists _, bytes. split_and!; [done..|]. by eapply HP.
  - by apply metadata_ok.
  - by apply rename_ok.
  - by apply publish_ok.
  - apply fail_ok; [done..|]. by apply HP.
  - eapply shrink_ok; [done|]. intros k f. by rewrite lookup_delete_Some; intros [].
  - eapply shrink_ok; [done|]. intros k f. destruct removed; [|done]. by rewrite lookup_delete_Some; intros [].
  - split; [intros c im Hc; by rewrite lookup_empty in Hc|intros c c' im im' Hc; by rewrite lookup_empty in Hc|].
    eapply provenance_frame; [apply Hok|auto..|]. intros n (c & im & Hc & _ & Hp). by apply HP in Hc.
  - eapply shrink_ok; [done|]. intros k f. by rewrite map_lookup_filter_Some; intros [].
Qed.

Lemma module_provenance_lemma fs st n b d :
  provenance fs (λ _, False) → reachable undisturbed fs st →
  files st !! sif_file n = Some (FSif b) → files st !! metadata_file n = Some (FMeta d) → ¬ publishing (imports st) n → genuine d b.
Proof.
  intros Hfs Hr. assert (store_ok (files st) (imports st)) as Hok; [|by apply Hok].
  induction Hr as [|l st st' Hr IH HP Hs]; [|by eapply step_ok].
  split; [intros c im Hc; simpl in Hc; by rewrite lookup_empty in Hc|intros c c' im im' Hc; simpl in Hc; by rewrite lookup_empty in Hc|].
  eapply provenance_frame; [done|auto..|done].
Qed.

(** C17: the store knows what it holds.  Take a store in which every recorded digest is that of
    the image beside it, and any run in which every finished pull delivers an image of the
    digest it was asked for, no import of a file begins while another import of that file is
    under way, and no failure or restart falls between the two renames of an import.  Then a
    recorded digest is the digest of the bytes beside it, whatever else is imported,
    uninstalled, failed, restarted or swept meanwhile; only between the two renames of an
    import is it behind. *)
Theorem module_provenance fs st n b d :
  provenance fs (λ _, False) → reachable undisturbed fs st →
  files st !! sif_file n = Some (FSif b) → files st !! metadata_file n = Some (FMeta d) → ¬ publishing (imports st) n → genuine d b.
Proof. apply module_provenance_lemma. Qed.
End provenance.

(** ** Imports of one entry do not overlap *)
(** No entry is uninstalled while it is being imported. *)
Definition no_uninstall_while_importing (l : Label) (st : Store) : Prop :=
  match l with
  | LUninstalled c _ => ∀ entry c' im, uninstalls st !! c = Some entry → imports st !! c' = Some im → ce_id (im_entry im) ≠ ce_id entry
  | _ => True
  end.
Record exclusive (st : Store) : Prop := {
  ex_importing c im : imports st !! c = Some im → importing (ce_id (im_entry im)) st = true;
  ex_once c c' im im' : imports st !! c = Some im → imports st !! c' = Some im' → ce_id (im_entry im) = ce_id (im_entry im') → c = c';
}.
Lemma exclusive_advance st st' c im ph :
  exclusive st → imports st !! c = Some im → imports st' = <[c := at_phase im ph]> (imports st) → transient st' = transient st → exclusive st'.
Proof.
  intros [H1 H2] Hc Hi Ht. split; rewrite Hi.
  - unfold importing. rewrite Ht. intros c' im' [[<- <-]|[? ?]]%lookup_insert_Some; [exact (H1 c im Hc)|eapply H1; eauto].
  - intros c1 c2 im1 im2 [[<- <-]|[Hn1 Hc1]]%lookup_insert_Some [[<- <-]|[Hn2 Hc2]]%lookup_insert_Some Hs; simpl in *; eauto.
Qed.
Lemma exclusive_end st st' c im t :
  exclusive st → imports st !! c = Some im → imports st' = delete c (imports st) → transient st' = t →
  (∀ id, id ≠ ce_id (im_entry im) → jm_get t id = jm_get (transient st) id) → exclusive st'.
Proof.
  intros [H1 H2] Hc Hi Ht Hget. split; rewrite Hi.
  - intros c' im' [Hne Hc']%lookup_delete_Some. unfold importing. rewrite Ht, Hget; [by apply (H1 c')|]. intros E. apply Hne. symmetry. by eapply H2.
  - intros c1 c2 im1 im2 [Hn1 Hc1]%lookup_delete_Some [Hn2 Hc2]%lookup_delete_Some Hs; eauto.
Qed.
Lemma exclusive_step l st st' : exclusive st → no_uninstall_while_importing l st → step l st = Some st' → exclusive st'.
Proof.
  intros Hex HP Hs. destruct l as [c entry pid now now'|c pct|c bytes|c bytes|c|c|c|c msg|c entry|c removed| |]; simpl in Hs;
    repeat match type of Hs with
    | (guard ?Q;; _) = _ => let G := fresh "HG" in apply bind_Some in Hs as (G & _ & Hs)
    | (_ ← _; _) = Some _ => let x := fresh "x" in let Hx := fresh "Hx" in apply bind_Some in Hs as (x & Hx & Hs)
    end; simplify_eq.
  - unfold startImport. destruct (importing (ce_id entry) st) eqn:Hi; [done|]. destruct Hex as [H1 H2].
    assert (∀ c' im', imports st !! c' = Some im' → ce_id (im_entry im') ≠ ce_id entry) as Hnew by (intros c' im' Hc' E; apply H1 in Hc'; congruence).
    split; simpl.
    + unfold importing. simpl. intros c' im' [[<- <-]|[? Hc']]%lookup_insert_Some; simpl; [by rewrite jm_get_set_eq|].
      rewrite jm_get_set_ne by (apply not_eq_sym; eauto). by apply (H1 c').
    + intros c1 c2 im1 im2 [[<- <-]|[Hn1 Hc1]]%lookup_insert_Some [[<- <-]|[Hn2 Hc2]]%lookup_insert_Some Hs; simpl in *; [done|..|by eapply H2].
      * symmetry in Hs. by destruct (Hnew _ _ Hc2).
      * by destruct (Hnew _ _ Hc1).
  - destruct Hex as [H1 H2]. split; simpl; [|done]. unfold importing. simpl. intros c' im' Hc'.
    destruct (decide (ce_id (im_entry im') = ce_id (im_entry x))) as [->|Hne]; [by rewrite jm_get_set_eq|].
    rewrite jm_get_set_ne by done. by apply (H1 c').
  - by destruct Hex.
  - by eapply exclusive_advance.
  - by eapply exclusive_advance.
  - by eapply exclusive_advance.
  - eapply exclusive_end; [done..|]. intros id Hid. by apply jm_get_delete_ne.
  - eapply exclusive_end; [done..|]. intros id Hid. simpl. by apply jm_get_set_ne.
  - by destruct Hex.
  - destruct Hex as [H1 H2]. split; simpl; [|done]. unfold importing. simpl. intros c' im' Hc'.
    rewrite jm_get_delete_ne by (apply not_eq_sym; by eapply HP). by apply (H1 c').
  - split; simpl; intros c; intros; by rewrite lookup_empty in *.
  - by destruct Hex.
Qed.

(** An entry is imported once at a time.  As long as it is not uninstalled meanwhile,
    however often the import is asked for and whatever else happens, at most one pull of an
    entry is in flight, and the entry shows as importing until it ends. *)
Theorem one_import_per_entry fs st c c' im im' :
  reachable no_uninstall_while_importing fs st → imports st !! c = Some im → imports st !! c' = Some im' →
  (ce_id (im_entry im) = ce_id (im_entry im') → c = c') ∧ importing (ce_id (im_entry im)) st = true.
Proof.
  intros Hr Hc Hc'. assert (exclusive st) as [H1 H2]; [|split; [by apply H2|by apply (H1 c)]].
  clear Hc Hc'. induction Hr as [|l st st' Hr IH HP Hs]; [|by eapply exclusive_step]. split; simpl; intros; by rewrite lookup_empty in *.
Qed.

(** ** What the catalog shows *)
Lemma str_take_drop n s : str_take n s +:+ str_drop n s = s.
Proof. revert s. induction n as [|n IH]; intros s; [by destruct s|]. destruct s as [|c s]; [done|]. simpl. rewrite str_app_cons. by rewrite IH. Qed.
Lemma ends_with_split p s : ends_with p s = true → str_take (str_length s - str_length p) s +:+ p = s.
Proof. unfold ends_with. intros [_ Hd%bool_decide_eq_true]%andb_true_iff. rewrite <- Hd at 2. apply str_take_drop. Qed.
Lemma listed_stem st n : n ∈ listImportedStems st ↔ is_Some (files st !! sif_file n) ∧ starts_with "." (sif_file n) = false.
Proof.
  unfold listImportedStems. rewrite list_elem_of_fmap. split.
  - intros (f & -> & Hin). apply list_elem_of_In, List.filter_In in Hin as [Hin [He Hs]%andb_true_iff]. apply negb_true_iff in Hs.
    apply list_elem_of_In, list_elem_of_fmap in Hin as ([k x] & -> & Hk). apply elem_of_map_to_list in Hk. cbn [fst] in *.
    apply ends_with_split in He. unfold sif_file. change (str_length k - 4) with (str_length k - str_length ".sif"). rewrite He. split; [by exists x|done].
  - intros [[x Hx] Hs]. exists (sif_file n). split.
    + unfold sif_file. rewrite str_length_app. change (str_length ".sif") with 4. replace (str_length n + 4 - 4) with (str_length n) by lia. by rewrite str_take_app.
    + apply list_elem_of_In, List.filter_In. split.
      * apply list_elem_of_In, list_elem_of_fmap. exists (sif_file n, x). split; [done|]. by apply elem_of_map_to_list.
      * rewrite Hs. unfold sif_file. by rewrite ends_with_app.
Qed.
Lemma jm_get_graph {V} (f : string → V) l n : jm_get ((λ k, (k, f k)) <$> l) n = if decide (n ∈ l) then Some (f n) else None.
Proof.
  induction l as [|k l IH]; [done|].
  assert (jm_get ((λ k, (k, f k)) <$> k :: l) n = if decide (k = n) then Some (f k) else jm_get ((λ k, (k, f k)) <$> l) n) as -> by done. rewrite IH.
  destruct (decide (k = n)) as [->|Hne], (decide (n ∈ l)), (decide (n ∈ _ :: l)); set_solver.
Qed.

(** The catalog tells the truth about the store.  When an entry shows as imported and up to
    date, its image file is in the store and holds the image of the digest the catalog names. *)
Theorem catalog_view_honest (genuine : string → string → Prop) fs st entry :
  provenance genuine fs (λ _, False) → reachable (undisturbed genuine) fs st → ¬ publishing (imports st) (ce_sifName entry) →
  let item := item_of (listImportedModules st) (transient st) entry in
  jm_get (transient st) (ce_id entry) = None → st_state (it_status item) = IMPORTED → it_updateAvailable item = false →
  ∃ f d, imageDigest (ce_image entry) = Some (to_lower d) ∧ files st !! sif_file (ce_sifName entry) = Some f ∧ ∀ b, f = FSif b → genuine d b.
Proof.
  intros Hfs Hr Hpub item Ht Hst Hup. subst item. unfold item_of in *. rewrite Ht in *. simpl in *.
  destruct (jm_has (listImportedModules st) (ce_sifName entry)) eqn:Hh; [|done]. simpl in Hup.
  apply orb_false_iff in Hup as [Hd%bool_decide_eq_false Hu]. apply negb_false_iff, bool_decide_eq_true in Hu.
  unfold jm_has in Hh. apply bool_decide_eq_true in Hh. unfold listImportedModules in *. rewrite (jm_get_graph (λ stem, recorded_digest (files st !! metadata_file stem))) in *.
  destruct (decide (ce_sifName entry ∈ listImportedStems st)) as [[[f Hf] _]%listed_stem|]; [|by destruct Hh]. simpl in Hu.
  unfold recorded_digest in Hu. destruct (files st !! metadata_file (ce_sifName entry)) as [[|d|]|] eqn:Hm; [congruence| |congruence..].
  destruct (Nat.eqb _ _ && _); [|congruence]. exists f, d. split_and!; [done..|]. intros b ->. by eapply module_provenance_lemma.
Qed.

(** ** Races and closed examples *)
Fixpoint repeat_char (n : nat) (c : ascii) : string := match n with O => "" | S n' => String c (repeat_char n' c) end.
Definition ex_digest (c : ascii) : string := repeat_char 64 c.
Definition ex_entry (c : ascii) : CatalogEntry :=
  mkCatalogEntry "vllm" "vLLM" "d" "vllm" "0.24" ("oras://r.io/vllm@sha256:" +:+ ex_digest c) "vllm-0.24" Protocol.openai (NumInt 1) false
    None None None None None None None None None None.
Definition ex_bytes (d : string) : string := "image " +:+ d.
Definition ex_genuine (d b : string) : Prop := b = ex_bytes d.
Definition pull (c : nat) (x : ascii) : list Label := [LPulled c (ex_bytes (ex_digest x)); LMetadata c].
Definition full_import (c : nat) (x : ascii) : list Label := LStart c (ex_entry x) 1 (Z.of_nat c) (Z.of_nat c) :: LProgress c 50 :: pull c x ++ [LRename c; LPublish c].
Notation ex_run ls := (run_labels ls (init_store ∅)).

(** Uninstalling an entry that is being imported forgets the import without stopping it, so a
    second import of the file can start; when the two finish crosswise, the store holds the
    bytes of one digest under the name of the other. *)
Theorem uninstall_allows_crossed_imports :
  ∃ st, ex_run (full_import 0 "a" ++ [LStart 1 (ex_entry "a") 1 7 7; LUninstall 0 (ex_entry "a"); LUninstalled 0 true; LStart 2 (ex_entry "b") 1 8 8] ++
                pull 1 "a" ++ pull 2 "b" ++ [LRename 1; LRename 2; LPublish 2; LPublish 1]) = Some st ∧
    imports st = ∅ ∧ transient st = [] ∧
    files st !! sif_file "vllm-0.24" = Some (FSif (ex_bytes (ex_digest "b"))) ∧ files st !! metadata_file "vllm-0.24" = Some (FMeta (ex_digest "a")) ∧
    it_updateAvailable (item_of (listImportedModules st) (transient st) (ex_entry "a")) = false.
Proof. eexists. split_and!; vm_compute; reflexivity. Qed.

(** When an update fails between its two renames, the new image stays, beside the metadata of
    the old one; after a restart the old entry shows as imported and up to date. *)
Theorem failed_publish_keeps_old_digest :
  ∃ st, ex_run (full_import 0 "a" ++ LStart 1 (ex_entry "b") 1 7 7 :: pull 1 "b" ++ [LRename 1; LFail 1 "EIO"; LRestart; LSweep]) = Some st ∧
    files st !! sif_file "vllm-0.24" = Some (FSif (ex_bytes (ex_digest "b"))) ∧
    it_status (item_of (listImportedModules st) (transient st) (ex_entry "a")) = mkStatus "vllm" IMPORTED None None ∧
    it_updateAvailable (item_of (listImportedModules st) (transient st) (ex_entry "a")) = false.
Proof. eexists. split_and!; vm_compute; reflexivity. Qed.

(** The catalog admits image names that begin with a dot, which the store never lists. *)
Theorem dotted_module_never_listed st n : name_re ".vllm-0.24" = true ∧ ("." +:+ n) ∉ listImportedStems st.
Proof.
  split; [done|]. rewrite listed_stem. intros [_ Hs]. done.
Qed.

Lemma run_labels_reachable P fs ls st st' :
  reachable P fs st → run_labels ls st = Some st' → (∀ k l s, ls !! k = Some l → run_labels (take k ls) st = Some s → P l s) → reachable P fs st'.
Proof.
  revert st. induction ls as [|l ls IH]; intros st Hr; simpl; [by intros [= <-]|].
  destruct (step l st) as [s|] eqn:Hs; [|done]. simpl. intros Hrun HP. apply (IH s); [|done|].
  - eapply reach_step; [done|by apply (HP 0)|done].
  - intros k l' s' Hk Hs'. apply (HP (S k)); [done|]. simpl. by rewrite Hs.
Qed.
Definition ex_store : Store := default (init_store ∅) (ex_run (full_import 0 "a")).
Lemma ex_store_run : ex_run (full_import 0 "a") = Some ex_store.
Proof. vm_compute. reflexivity. Qed.
Lemma ex_store_reachable : reachable (undisturbed ex_genuine) ∅ ex_store.
Proof.
  eapply run_labels_reachable; [apply reach_init|apply ex_store_run|]. intros k l s Hk Hs.
  destruct k as [|[|[|[|[|[|k]]]]]]; [..|done]; injection Hk as <-.
  - injection Hs as <-. right. intros c im Hc. simpl in Hc. by rewrite lookup_empty in Hc.
  - done.
  - vm_compute in Hs. injection Hs as <-. intros im d Hc Hd. vm_compute in Hc. injection Hc as <-. vm_compute in Hd. by injection Hd as <-.
  - done.
  - done.
  - done.
Qed.
Lemma ex_store_idle n : ¬ publishing (imports ex_store) n.
Proof. intros (c & im & Hc & _). assert (imports ex_store = ∅) as E by (vm_compute; reflexivity). rewrite E in Hc. by rewrite lookup_empty in Hc. Qed.
Lemma no_provenance P : provenance P ∅ (λ _, False).
Proof. intros n b d Hb. by rewrite lookup_empty in Hb. Qed.

Lemma module_provenance_witness : ex_genuine (ex_digest "a") (ex_bytes (ex_digest "a")).
Proof.
  apply (module_provenance ex_genuine ∅ ex_store "vllm-0.24" (ex_bytes (ex_digest "a")) (ex_digest "a") (no_provenance _) ex_store_reachable);
    [vm_compute; reflexivity|vm_compute; reflexivity|apply ex_store_idle].
Defined.
Lemma catalog_view_honest_witness : ∃ f, files ex_store !! sif_file "vllm-0.24" = Some f.
Proof.
  destruct (catalog_view_honest ex_genuine ∅ ex_store (ex_entry "a") (no_provenance _) ex_store_reachable (ex_store_idle _)) as (f & d & _ & Hf & _);
    [vm_compute; reflexivity..|]. by exists f.
Defined.
Definition ex_twice : list Label := [LStart 0 (ex_entry "a") 1 7 7; LStart 1 (ex_entry "a") 1 8 8].
Definition ex_asked_twice : Store := default (init_store ∅) (ex_run ex_twice).
Lemma ex_asked_twice_reachable : reachable no_uninstall_while_importing ∅ ex_asked_twice.
Proof.
  eapply (run_labels_reachable _ _ ex_twice); [apply reach_init|vm_compute; reflexivity|]. intros k l s Hk _. destruct k as [|[|k]]; [by injection Hk as <-..|done].
Qed.
Lemma one_import_per_entry_witness : imports ex_asked_twice !! 1 = None ∧ importing "vllm" ex_asked_twice = true.
Proof.
  split; [vm_compute; reflexivity|].
  apply (one_import_per_entry ∅ ex_asked_twice 0 0 (mkImport (ex_entry "a") ".vllm-0.24.sif.tmp.1.7" ".vllm-0.24.sif.metadata.json.tmp.1.7" Pulling)
    (mkImport (ex_entry "a") ".vllm-0.24.sif.tmp.1.7" ".vllm-0.24.sif.metadata.json.tmp.1.7" Pulling) ex_asked_twice_reachable); vm_compute; reflexivity.
Defined.
