(* ===== verification/OrasImport.v ===== *)
(** * Pulling images from a registry (control-plane/src/services/sif-importer.ts)

    [OrasImporter] resolves the digest-pinned manifest of a catalog entry, streams its single
    image layer to the temporary file of [Modules] and checks sizes and digests on the way.
    The hash function, the JSON parser, [new URL] and the answers of the network are arguments;
    what the import reports and which requests it makes is recorded. *)
From stdpp Require Import base tactics list strings gmap sets.
From Stdlib Require Import ZArith Lia Ascii.
From S2P Require Import Prelude Js Types Catalog Modules.

(** ** References *)
Record OrasReference := mkRef { or_registry : string; or_repository : string; or_manifestDigest : string }.
(** The text before and after the first [c]. *)
Fixpoint cut (c : ascii) (s : string) : option (string * string) :=
  match s with
  | EmptyString => None
  | String a s' => if decide (a = c) then Some ("", s') else p ← cut c s'; Some (String a p.1, p.2)
  end.
(** The line terminators, which [.] does not match: LF, CR and, as UTF-8, U+2028 and U+2029. *)
Definition has_line_break (s : string) : bool :=
  has_char "010"%char s || has_char "013"%char s ||
  includes (String "226" (String "128" (String "168" ""))) s || includes (String "226" (String "128" (String "169" ""))) s.
Definition bad_registry_char (c : ascii) : bool :=
  js_space c || bool_decide (c = "/"%char) || bool_decide (c = "?"%char) || bool_decide (c = "#"%char) || bool_decide (c = "@"%char).
(** The tag, after the last colon behind the last slash, is dropped. *)
Definition untagged (taggedRepository : string) : string :=
  match last_index "/"%char taggedRepository, last_index ":"%char taggedRepository with
  | None, Some c => str_take c taggedRepository
  | Some s, Some c => if Nat.ltb s c then str_take c taggedRepository else taggedRepository
  | _, None => taggedRepository
  end.
Definition part_ok (part : string) : bool := negb (bool_decide (part = "" ∨ part = "." ∨ part = "..")).
(** [None]: the function throws. *)
Definition parseOrasReference (image : string) : option OrasReference :=
  guard (starts_with "oras://" image = true);;
  '(registry, rest) ← cut "/"%char (str_drop 7 image);
  digest ← imageDigest rest;
  let taggedRepository := str_take (str_length rest - 72) rest in
  guard (registry ≠ "" ∧ taggedRepository ≠ "" ∧ has_line_break taggedRepository = false);;
  guard (all_chars (λ c, negb (bad_registry_char c)) registry = true);;
  let repository := untagged taggedRepository in
  guard (repository ≠ "" ∧ forallb part_ok (split_on "/"%char repository) = true);;
  Some (mkRef registry repository ("sha256:" +:+ digest)).

(** [encodeURIComponent] on UTF-8. *)
Definition unreserved (c : ascii) : bool :=
  in_chars 65 90 c || in_chars 97 122 c || in_chars 48 57 c ||
  has_char c "-_.!~*'()".
Definition hex_digit (n : nat) : ascii := if Nat.ltb n 10 then ascii_of_nat (48 + n) else ascii_of_nat (55 + n).
Fixpoint encodeURIComponent (s : string) : string :=
  match s with
  | EmptyString => EmptyString
  | String c s' =>
      (if unreserved c then String c "" else String "%" (String (hex_digit (nat_of_ascii c / 16)) (String (hex_digit (nat_of_ascii c mod 16)) ""))) +:+
      encodeURIComponent s'
  end.
Definition registryUrl (ref : OrasReference) (kind digest : string) : string :=
  "https://" +:+ or_registry ref +:+ "/v2/" +:+ js_join "/" (encodeURIComponent <$> split_on "/"%char (or_repository ref)) +:+ "/" +:+ kind +:+ "/" +:+ digest.

(** ** Credentials and challenges *)
Record RegistryCredential := mkCredential { rc_auth : option string; rc_username : option string; rc_password : option string; rc_identitytoken : option string }.
Definition quote : ascii := "034"%char.
(** The name at the front of a text, as [[a-zA-Z][a-zA-Z0-9_-]*] takes it. *)
Definition key_start (c : ascii) : bool := in_chars 65 90 c || in_chars 97 122 c.
Definition key_char (c : ascii) : bool := key_start c || in_chars 48 57 c || bool_decide (c = "_"%char) || bool_decide (c = "-"%char).
Fixpoint span (f : ascii → bool) (s : string) : string * string :=
  match s with
  | String c s' => if f c then let '(a, b) := span f s' in (String c a, b) else ("", s)
  | EmptyString => ("", "")
  end.
(** A parameter of the challenge at the front of a text, and what follows. *)
Definition match_param (s : string) : option ((string * string) * string) :=
  match s with
  | String c _ =>
      if key_start c then
        let '(key, rest) := span key_char s in
        if starts_with (String "=" (String quote "")) rest then
          '(value, rest') ← cut quote (str_drop 2 rest); Some ((key, value), rest')
        else None
      else None
  | EmptyString => None
  end.
(** [matchAll]: the matches from left to right; the length of the text is fuel enough, each round
    takes at least a character. *)
Fixpoint match_params (fuel : nat) (s : string) : list (string * string) :=
  match fuel, s with
  | S fuel', String _ s' => match match_param s with Some (kv, rest) => kv :: match_params fuel' rest | None => match_params fuel' s' end
  | _, _ => []
  end.
(** [/^Bearer\s+/i]: what follows the scheme. *)
Definition after_bearer (challenge : string) : option string :=
  if starts_with "bearer" (to_lower challenge) then
    let rest := str_drop 6 challenge in if bool_decide (trim_start rest = rest) then None else Some (trim_start rest)
  else None.
Record Challenge := mkChallenge { ch_realm : string; ch_params : list (string * string) }.
Definition parseBearerChallenge (challenge : string) : option Challenge :=
  rest ← after_bearer challenge;
  let values := foldl (λ m kv, jm_set m (to_lower kv.1) kv.2) [] (match_params (str_length rest) rest) in
  realm ← jm_get values "realm";
  if bool_decide (realm = "") then None else
  Some (mkChallenge realm (omap (λ key, v ← jm_get values key; if bool_decide (v = "") then None else Some (key, v)) ["service"; "scope"])).

(** ** Effects: the requests made and the progress reported, up to the result or the error *)
Record Request := mkRequest { rq_url : string; rq_authorization : option string }.
Inductive Effect := Requested (r : Request) | Progress (percentComplete : Z).
Inductive PullError :=
| BadReference | NetworkError | BadTokenUrl | InsecureTokenService | TokenRequestFailed (status : Z) | NoToken
| ManifestRequestFailed (status : Z) | ManifestTooLarge | ManifestDigestMismatch | ManifestNotJson | NotAnImageManifest | LayerCount (n : nat)
| LayerMediaType | LayerSize | LayerDigest
| BlobRequestFailed (status : Z) | BlobSizeMismatch | BlobEncoding | BlobTooLong | BlobTruncated | BlobDigestMismatch
| SignatureInvalid (code : Z).
Definition Pull (A : Type) : Type := list Effect * (PullError + A).
Definition pull_ret {A} (a : A) : Pull A := ([], inr a).
Definition pull_throw {A} (e : PullError) : Pull A := ([], inl e).
Definition pull_bind {A B} (m : Pull A) (f : A → Pull B) : Pull B :=
  match m.2 with inl e => (m.1, inl e) | inr a => (m.1 ++ (f a).1, (f a).2) end.
Definition pull_tell (e : Effect) : Pull () := ([e], inr ()).
Definition pull_check (b : bool) (e : PullError) : Pull () := if b then pull_ret () else pull_throw e.
Definition pull_some {A} (o : option A) (e : PullError) : Pull A := match o with Some a => pull_ret a | None => pull_throw e end.
Notation "x ⇐ m ; k" := (pull_bind m (λ x, k)) (at level 20, m at level 100, k at level 200, right associativity).
Notation "m ;⇒ k" := (pull_bind m (λ _, k)) (at level 100, k at level 200, right associativity).

(** [new URL]: its protocol is that of the text and stays when a search parameter is set. *)
Class UrlOps := {
  Url : Type;
  new_URL : string → option Url;
  protocol : Url → string;
  set_param : string → string → Url → Url;
  href : Url → string;
  protocol_set_param k v u : protocol (set_param k v u) = protocol u;
}.
Record Reply := mkReply {
  rp_status : Z;
  rp_authenticate : string;                  (** [www-authenticate], or the empty text *)
  rp_contentLength : option (option Z);      (** [Number] of the header: [None] inside when it is no integer *)
  rp_contentEncoding : option string;
  rp_body : option (list string);            (** the chunks *)
}.
Definition reply_ok (r : Reply) : bool := Z.leb 200 (rp_status r) && Z.leb (rp_status r) 299.
Definition body_text (r : Reply) : string := foldr String.append "" (default [] (rp_body r)).

Record OrasImporterConfig := mkOrasConfig { oc_verifySif : bool }.
Section importer.
Context `{!UrlOps} (fetch : Request → option Reply) (base64 : string → string) (sha256 : string → string) (JSON_parse : string → option json).
Context (auths : list (string * RegistryCredential)).
(** [Math.floor((received / size) * 75)] on doubles. *)
Context (scaled : Z → Z → Z).

Definition decodeBasicCredential (c : RegistryCredential) : option string :=
  if truthy_str (rc_auth c) then rc_auth c else
  match rc_username c, rc_password c with Some u, Some p => Some (base64 (u +:+ ":" +:+ p)) | _, _ => None end.
Definition credentialFor (registry : string) : option RegistryCredential :=
  match jm_get auths registry, jm_get auths ("https://" +:+ registry), jm_get auths ("https://" +:+ registry +:+ "/v1/"), jm_get auths ("https://" +:+ registry +:+ "/v2/") with
  | Some c, _, _, _ | None, Some c, _, _ | None, None, Some c, _ => Some c
  | None, None, None, o => o
  end.
Definition do_fetch (r : Request) : Pull Reply := pull_tell (Requested r) ;⇒ pull_some (fetch r) NetworkError.

Definition token_of (body : json) : option string :=
  match body with
  | JObj o =>
      match obj_get o "token", obj_get o "access_token" with
      | Some (JStr t), _ => if bool_decide (t = "") then None else Some t
      | _, Some (JStr t) => if bool_decide (t = "") then None else Some t
      | _, _ => None
      end
  | _ => None
  end.
Definition token_auth (registry : string) : option string :=
  credential ← credentialFor registry;
  let basic := decodeBasicCredential credential in
  if truthy_str basic then Some ("Basic " +:+ default "" basic) else
  if truthy_str (rc_identitytoken credential) then Some ("Bearer " +:+ default "" (rc_identitytoken credential)) else None.
Definition bearerToken (ref : OrasReference) (challenge : Challenge) : Pull string :=
  let scope := default ("repository:" +:+ or_repository ref +:+ ":pull") (jm_get (ch_params challenge) "scope") in
  tokenUrl ⇐ pull_some (new_URL (ch_realm challenge)) BadTokenUrl;
  pull_check (bool_decide (protocol tokenUrl = "https:")) InsecureTokenService ;⇒
  let tokenUrl := set_param "scope" scope (foldl (λ u kv, set_param kv.1 kv.2 u) tokenUrl (ch_params challenge)) in
  response ⇐ do_fetch (mkRequest (href tokenUrl) (token_auth (or_registry ref)));
  pull_check (reply_ok response) (TokenRequestFailed (rp_status response)) ;⇒
  pull_some (JSON_parse (body_text response) ≫= token_of) NoToken.

(** [/^Basic(?:\s|$)/i] *)
Definition is_basic (challenge : string) : bool :=
  starts_with "basic" (to_lower challenge) && match str_drop 5 challenge with EmptyString => true | String c _ => js_space c end.
Definition registryFetch (ref : OrasReference) (url : string) : Pull Reply :=
  response ⇐ do_fetch (mkRequest url None);
  if negb (Z.eqb (rp_status response) 401) then pull_ret response else
  match parseBearerChallenge (rp_authenticate response) with
  | Some bearer => token ⇐ bearerToken ref bearer; do_fetch (mkRequest url (Some ("Bearer " +:+ token)))
  | None =>
      match (if is_basic (rp_authenticate response) then credentialFor (or_registry ref) ≫= decodeBasicCredential else None) with
      | Some basic => if bool_decide (basic = "") then pull_ret response else do_fetch (mkRequest url (Some ("Basic " +:+ basic)))
      | None => pull_ret response
      end
  end.

(** ** The manifest *)
Definition MAX_MANIFEST_BYTES : Z := 4 * 1024 * 1024.
Definition SIF_LAYER_MEDIA_TYPES : list string := ["application/vnd.sylabs.sif.layer.v1.sif"; "appliciation/vnd.sylabs.sif.layer.tar"].
Definition MAX_SAFE_INTEGER : Z := 2 ^ 53 - 1.
(** [/^sha256:[a-fA-F0-9]{64}$/] *)
Definition is_sha256 (d : string) : bool :=
  starts_with "sha256:" d && Nat.eqb (str_length d) 71 && all_chars hex_char (str_drop 7 d).
Record Layer := mkLayer { ly_size : Z; ly_digest : string }.
Definition layer_of (manifest : json) : PullError + Layer :=
  match manifest with
  | JObj m =>
      match obj_get m "schemaVersion", obj_get m "layers" with
      | Some (JNum (NumInt 2)), Some (JArr layers) =>
          match layers with
          | [JObj l] =>
              match is_string (obj_get l "mediaType") with
              | None => inl LayerMediaType
              | Some t => if negb (bool_decide (t ∈ SIF_LAYER_MEDIA_TYPES)) then inl LayerMediaType else
              match is_integer (obj_get l "size") with
              | None => inl LayerSize
              | Some size => if negb (Z.ltb 0 size && Z.leb size MAX_SAFE_INTEGER) then inl LayerSize else
              match is_string (obj_get l "digest") with
              | None => inl LayerDigest
              | Some d => if is_sha256 d then inr (mkLayer size (to_lower d)) else inl LayerDigest
              end end end
          | [_] => inl LayerMediaType
          | _ => inl (LayerCount (length layers))
          end
      | _, _ => inl NotAnImageManifest
      end
  | _ => inl NotAnImageManifest
  end.
Definition resolveLayer (ref : OrasReference) : Pull Layer :=
  response ⇐ registryFetch ref (registryUrl ref "manifests" (or_manifestDigest ref));
  pull_check (reply_ok response) (ManifestRequestFailed (rp_status response)) ;⇒
  pull_check (match rp_contentLength response with Some (Some n) => Z.leb n MAX_MANIFEST_BYTES | _ => true end) ManifestTooLarge ;⇒
  let bytes := body_text response in
  pull_check (Z.leb (Z.of_nat (str_length bytes)) MAX_MANIFEST_BYTES) ManifestTooLarge ;⇒
  pull_check (bool_decide ("sha256:" +:+ sha256 bytes = or_manifestDigest ref)) ManifestDigestMismatch ;⇒
  manifest ⇐ pull_some (JSON_parse bytes) ManifestNotJson;
  match layer_of manifest with inl e => pull_throw e | inr l => pull_ret l end.

(** ** The layer *)
Record Download := mkDownload { dl_bytes : string; dl_last : Z }.
(** [transform], for one chunk. *)
Definition take_chunk (size : Z) (d : Download) (chunk : string) : Pull Download :=
  let received := Z.of_nat (str_length (dl_bytes d +:+ chunk)) in
  pull_check (Z.leb received size) BlobTooLong ;⇒
  let percent := Z.min 79 (5 + scaled received size) in
  if Z.ltb (dl_last d) percent then pull_tell (Progress percent) ;⇒ pull_ret (mkDownload (dl_bytes d +:+ chunk) percent)
  else pull_ret (mkDownload (dl_bytes d +:+ chunk) (dl_last d)).
Fixpoint take_chunks (size : Z) (d : Download) (chunks : list string) : Pull Download :=
  match chunks with [] => pull_ret d | c :: cs => d' ⇐ take_chunk size d c; take_chunks size d' cs end.
(** Answers what is written to the temporary file. *)
Definition downloadLayer (ref : OrasReference) (layer : Layer) : Pull string :=
  response ⇐ registryFetch ref (registryUrl ref "blobs" (ly_digest layer));
  match rp_body response with
  | Some chunks =>
      pull_check (reply_ok response) (BlobRequestFailed (rp_status response)) ;⇒
      pull_check (match rp_contentLength response with Some n => bool_decide (n = Some (ly_size layer)) | None => true end) BlobSizeMismatch ;⇒
      pull_check (match rp_contentEncoding response with Some e => bool_decide (e = "" ∨ e = "identity") | None => true end) BlobEncoding ;⇒
      d ⇐ take_chunks (ly_size layer) (mkDownload "" 5) chunks;
      pull_check (Z.eqb (Z.of_nat (str_length (dl_bytes d))) (ly_size layer)) BlobTruncated ;⇒
      pull_check (bool_decide ("sha256:" +:+ sha256 (dl_bytes d) = ly_digest layer)) BlobDigestMismatch ;⇒
      pull_tell (Progress 80) ;⇒ pull_ret (dl_bytes d)
  | None => pull_throw (BlobRequestFailed (rp_status response))
  end.

(** [import]; [verify_code] is the exit code of [apptainer verify]. *)
Definition import_ (config : OrasImporterConfig) (verify_code : Z) (image : string) : Pull string :=
  ref ⇐ pull_some (parseOrasReference image) BadReference;
  pull_tell (Progress 1) ;⇒
  layer ⇐ resolveLayer ref;
  pull_tell (Progress 5) ;⇒
  bytes ⇐ downloadLayer ref layer;
  pull_check (negb (oc_verifySif config) || Z.eqb verify_code 0) (SignatureInvalid verify_code) ;⇒
  pull_tell (Progress 100) ;⇒ pull_ret bytes.

(** ** What a run says and asks *)
Lemma pull_bind_inr {A B} (m : Pull A) (f : A → Pull B) es b :
  pull_bind m f = (es, inr b) → ∃ es1 es2 a, m = (es1, inr a) ∧ f a = (es2, inr b) ∧ es = es1 ++ es2.
Proof.
  unfold pull_bind. destruct m as [es1 [e|a]]; simpl; [done|]. destruct (f a) as [es2 r] eqn:Hf. simpl. intros [= <- ->]. eauto 6.
Qed.
Lemma pull_check_inr b e es a : pull_check b e = (es, inr a) → b = true ∧ es = [].
Proof. unfold pull_check. destruct b; [|done]. by intros [= <- _]. Qed.
Lemma pull_some_inr {A} (o : option A) e es a : pull_some o e = (es, inr a) → o = Some a ∧ es = [].
Proof. unfold pull_some. destruct o; [|done]. by intros [= <- ->]. Qed.

Ltac pull_inv H :=
  repeat match type of H with
  | pull_bind _ _ = (_, inr _) => let H1 := fresh "Hm" in apply pull_bind_inr in H as (? & ? & ? & H1 & H & ?)
  end.

(** [genuine_image d b]: [b] is the layer of the manifest with digest [d].  (This is what
    [Modules] asks of an importer.) *)
Definition genuine_image (d b : string) : Prop :=
  ∃ manifest_bytes manifest layer, sha256 manifest_bytes = d ∧ JSON_parse manifest_bytes = Some manifest ∧ layer_of manifest = inr layer ∧
    Z.of_nat (str_length b) = ly_size layer ∧ "sha256:" +:+ sha256 b = ly_digest layer.

Lemma resolveLayer_inr ref es layer :
  resolveLayer ref = (es, inr layer) →
  ∃ bytes manifest, "sha256:" +:+ sha256 bytes = or_manifestDigest ref ∧ JSON_parse bytes = Some manifest ∧ layer_of manifest = inr layer.
Proof.
  unfold resolveLayer. intros Hrun. pull_inv Hrun.
  repeat match goal with Hc : pull_check _ _ = (_, inr _) |- _ => apply pull_check_inr in Hc as [Hc _] | Hc : pull_some _ _ = (_, inr _) |- _ => apply pull_some_inr in Hc as [Hc _] end.
  case_match; [done|]. injection Hrun as _ ->. repeat match goal with Hc : bool_decide _ = true |- _ => apply bool_decide_eq_true in Hc end. eauto.
Qed.
Lemma downloadLayer_inr ref layer es bytes :
  downloadLayer ref layer = (es, inr bytes) → Z.of_nat (str_length bytes) = ly_size layer ∧ "sha256:" +:+ sha256 bytes = ly_digest layer.
Proof.
  unfold downloadLayer. intros Hrun. apply pull_bind_inr in Hrun as (? & ? & response & _ & Hrun & _). destruct (rp_body response) as [chunks|]; [|done].
  pull_inv Hrun. repeat match goal with Hc : pull_check _ _ = (_, inr _) |- _ => apply pull_check_inr in Hc as [Hc _] end.
  injection Hrun as _ <-. repeat match goal with Hc : bool_decide _ = true |- _ => apply bool_decide_eq_true in Hc | Hc : (_ =? _)%Z = true |- _ => apply Z.eqb_eq in Hc end. done.
Qed.

Lemma cut_spec c s p q : cut c s = Some (p, q) → s = p +:+ String c q ∧ has_char c p = false.
Proof.
  revert p q. induction s as [|a s IH]; intros p q; simpl; [done|]. case_decide as Ha; [intros [= <- <-]; by subst|].
  intros ([p' q'] & Hs & [= <- <-])%bind_Some. destruct (IH _ _ Hs) as [-> Hp]. split; [done|]. simpl. by rewrite bool_decide_eq_false_2.
Qed.
Lemma str_drop_app_add a b n : str_drop (str_length a + n) (a +:+ b) = str_drop n b.
Proof. by induction a. Qed.
Lemma imageDigest_app a b : 72 ≤ str_length b → imageDigest (a +:+ b) = imageDigest b.
Proof.
  intros Hb. unfold imageDigest. rewrite str_length_app. rewrite (proj2 (Nat.ltb_ge _ _)) by lia. rewrite (proj2 (Nat.ltb_ge (str_length b) _)) by lia.
  replace (str_length a + str_length b - 72) with (str_length a + (str_length b - 72)) by lia. by rewrite str_drop_app_add.
Qed.
Lemma imageDigest_long s d : imageDigest s = Some d → 72 ≤ str_length s.
Proof. unfold imageDigest. destruct (Nat.ltb_spec (str_length s) 72); [done|lia]. Qed.
(** What a reference that parses looks like. *)
Lemma parseOrasReference_Some image ref :
  parseOrasReference image = Some ref →
  ∃ rest digest, image = "oras://" +:+ or_registry ref +:+ "/" +:+ rest ∧ imageDigest image = Some digest ∧ or_manifestDigest ref = "sha256:" +:+ digest ∧
    or_registry ref ≠ "" ∧ all_chars (λ c, negb (bad_registry_char c)) (or_registry ref) = true ∧
    forallb part_ok (split_on "/"%char (or_repository ref)) = true.
Proof.
  unfold parseOrasReference. intros (Hs & _ & Hp)%bind_Some. apply starts_with_spec in Hs as [t ->]. change (str_drop 7 ("oras://" +:+ t)) with t in Hp.
  apply bind_Some in Hp as ([registry rest] & Hcut & Hp). apply bind_Some in Hp as (digest & Hd & Hp).
  apply bind_Some in Hp as ((Hne & _ & _) & _ & Hp). apply bind_Some in Hp as (Hreg & _ & Hp). apply bind_Some in Hp as ((_ & Hparts) & _ & [= <-]).
  apply cut_spec in Hcut as [-> _]. exists rest, digest. simpl or_registry. simpl or_repository. simpl or_manifestDigest. split_and!; try done.
  change (String "/" rest) with ("/" +:+ rest). rewrite <- !str_app_assoc. by rewrite imageDigest_app by (by eapply imageDigest_long).
Qed.

Lemma import_genuine config verify_code image es bytes :
  import_ config verify_code image = (es, inr bytes) →
  ∃ d, imageDigest image = Some d ∧ genuine_image d bytes ∧ (oc_verifySif config = true → verify_code = 0%Z).
Proof.
  unfold import_. intros Hrun. pull_inv Hrun. injection Hrun as _ <-.
  repeat match goal with Hc : pull_check _ _ = (_, inr _) |- _ => apply pull_check_inr in Hc as [Hc _] | Hc : pull_some _ _ = (_, inr _) |- _ => apply pull_some_inr in Hc as [Hc _] end.
  match goal with Hp : parseOrasReference _ = Some _ |- _ => apply parseOrasReference_Some in Hp as (rest & d & _ & Hd & Hm' & _) end.
  match goal with Hp : resolveLayer _ = _ |- _ => apply resolveLayer_inr in Hp as (mb & manifest & Hsha & Hj & Hl) end.
  match goal with Hp : downloadLayer _ _ = _ |- _ => apply downloadLayer_inr in Hp as [Hsize Hdig] end.
  exists d. split_and!; [done| |].
  - eexists mb, manifest, _. split_and!; try done. rewrite Hm' in Hsha. by injection Hsha.
  - intros Hv. match goal with Hc : negb _ || _ = true |- _ => rewrite Hv in Hc; by apply Z.eqb_eq in Hc end.
Qed.
(** C16: an image that is imported is the image that was asked for.  When an import succeeds, the
    written bytes have the length and the digest that a manifest gives for its single layer,
    and that manifest has the digest the catalog entry is pinned to; the signature was good if
    it was to be checked. *)
Theorem import_authentic config verify_code image es bytes :
  import_ config verify_code image = (es, inr bytes) →
  ∃ d, imageDigest image = Some d ∧ genuine_image d bytes ∧ (oc_verifySif config = true → verify_code = 0%Z).
Proof. apply import_genuine. Qed.
(** So the module store may rely on it. *)
Lemma oras_pull_undisturbed config verify_code es bytes c im st :
  imports st !! c = Some im → import_ config verify_code (ce_image (im_entry im)) = (es, inr bytes) → undisturbed genuine_image (LPulled c bytes) st.
Proof.
  intros Hc (d & Hd & Hg & _)%import_genuine im' d' Hc' Hd'. rewrite Hc in Hc'. injection Hc' as <-. congruence.
Qed.

(** *** Progress *)
Definition progress_of (e : Effect) : option Z := match e with Progress p => Some p | Requested _ => None end.
(** Strictly rising from above [lo], and up to at most [hi]. *)
Fixpoint rising (lo hi : Z) (l : list Z) : Prop :=
  match l with [] => (lo ≤ hi)%Z | p :: l' => (lo < p)%Z ∧ rising p hi l' end.
Lemma rising_app lo mid hi l l' : rising lo mid l → rising mid hi l' → rising lo hi (l ++ l').
Proof.
  revert lo. induction l as [|p l IH]; simpl; intros lo.
  - intros Hle. destruct l' as [|q l']; simpl; [lia|]. intros [? ?]. split; [lia|done].
  - intros [? ?] ?. split; [done|]. by apply IH.
Qed.
Lemma rising_weaken lo lo' hi hi' l : (lo' ≤ lo)%Z → (hi ≤ hi')%Z → rising lo hi l → rising lo' hi' l.
Proof.
  revert lo lo'. induction l as [|p l IH]; simpl; intros lo lo' H1 H2; [lia|]. intros [? ?]. split; [lia|]. eapply (IH p p); [lia|done|done].
Qed.
Lemma rising_bound lo hi l x : rising lo hi l → x ∈ l → (x ≤ hi)%Z.
Proof.
  revert lo. induction l as [|p l IH]; intros lo; simpl; [set_solver|]. intros [Hlo Hr] [->|Hin]%elem_of_cons; [|by eapply IH].
  clear -Hr. revert p Hr. induction l as [|q l IH]; intros p; simpl; [lia|]. intros [? ?%IH]. lia.
Qed.
(** [reports lo mid hi m]: the progress of [m] rises from [lo] to at most [mid a] when it answers
    [a], and never beyond [hi]. *)
Definition reports {A} (lo : Z) (mid : A → Z) (hi : Z) (m : Pull A) : Prop :=
  match m.2 with
  | inr a => rising lo (mid a) (omap progress_of m.1) ∧ (mid a ≤ hi)%Z
  | inl _ => rising lo hi (omap progress_of m.1)
  end.
Lemma reports_bind {A B} lo (mid : A → Z) (mid' : B → Z) hi hi' (m : Pull A) (f : A → Pull B) :
  reports lo mid hi m → (hi ≤ hi')%Z → (∀ a, (mid a ≤ hi)%Z → reports (mid a) mid' hi' (f a)) → reports lo mid' hi' (pull_bind m f).
Proof.
  unfold reports, pull_bind. intros Hm Hle Hf. destruct m as [es [e|a]]; simpl in *; [by eapply rising_weaken; [| |exact Hm]|].
  destruct Hm as [Hm Hmid]. specialize (Hf a Hmid). destruct (f a) as [es' [e|b]]; simpl in *; rewrite omap_app; [by eapply rising_app|].
  destruct Hf. split; [by eapply rising_app|done].
Qed.
Lemma reports_quiet {A} p (m : Pull A) : omap progress_of m.1 = [] → reports p (λ _, p) p m.
Proof. unfold reports. intros ->. destruct m.2; simpl; lia. Qed.
Lemma reports_tell p lo : (lo < p)%Z → reports lo (λ _, p) p (pull_tell (Progress p)).
Proof. intros. unfold reports. simpl. lia. Qed.
Lemma quiet_bind {A B} (m : Pull A) (f : A → Pull B) :
  omap progress_of m.1 = [] → (∀ a, omap progress_of (f a).1 = []) → omap progress_of (pull_bind m f).1 = [].
Proof. intros Hm Hf. unfold pull_bind. destruct m as [es [e|a]]; simpl in *; [done|]. by rewrite omap_app, Hm, Hf. Qed.
Lemma bind_progress {A B} (m : Pull A) (f : A → Pull B) :
  omap progress_of (pull_bind m f).1 = omap progress_of m.1 ++ match m.2 with inl _ => [] | inr a => omap progress_of (f a).1 end.
Proof. unfold pull_bind. destruct m as [es [e|a]]; simpl; [by rewrite app_nil_r|]. by rewrite omap_app. Qed.
Lemma bind_result {A B} (m : Pull A) (f : A → Pull B) : (pull_bind m f).2 = match m.2 with inl e => inl e | inr a => (f a).2 end.
Proof. unfold pull_bind. by destruct m as [es [e|a]]. Qed.
Lemma quiet_check b e : omap progress_of (pull_check b e).1 = [].
Proof. by destruct b. Qed.
Lemma quiet_some {A} (o : option A) e : omap progress_of (pull_some o e).1 = [].
Proof. by destruct o. Qed.
Lemma quiet_fetch r : omap progress_of (do_fetch r).1 = [].
Proof. apply quiet_bind; [done|]. intros []. apply quiet_some. Qed.
Lemma quiet_registryFetch ref url : omap progress_of (registryFetch ref url).1 = [].
Proof.
  apply quiet_bind; [apply quiet_fetch|]. intros r. destruct (negb _); [done|]. destruct (parseBearerChallenge _) as [ch|].
  - apply quiet_bind; [|intros; apply quiet_fetch]. unfold bearerToken. apply quiet_bind; [apply quiet_some|]. intros u. apply quiet_bind; [apply quiet_check|]. intros [].
    apply quiet_bind; [apply quiet_fetch|]. intros r'. apply quiet_bind; [apply quiet_check|]. intros []. apply quiet_some.
  - destruct (if is_basic _ then _ else _); [|done]. case_bool_decide; [done|]. apply quiet_fetch.
Qed.
Lemma quiet_resolveLayer ref : omap progress_of (resolveLayer ref).1 = [].
Proof.
  unfold resolveLayer. apply quiet_bind; [apply quiet_registryFetch|]. intros r. do 4 (apply quiet_bind; [apply quiet_check|]; intros []).
  apply quiet_bind; [apply quiet_some|]. intros m. by destruct (layer_of m).
Qed.
Lemma take_chunk_reports size d c : (dl_last d ≤ 79)%Z → reports (dl_last d) dl_last 79 (take_chunk size d c).
Proof.
  intros Hd. unfold take_chunk. eapply reports_bind; [apply reports_quiet, quiet_check|done|]. intros [] _.
  destruct (Z.ltb_spec (dl_last d) (Z.min 79 (5 + scaled (Z.of_nat (str_length (dl_bytes d +:+ c))) size))); [|unfold reports; simpl; lia].
  eapply reports_bind; [by apply reports_tell|lia|]. intros [] _. unfold reports. simpl. lia.
Qed.
Lemma take_chunks_reports size d cs : (dl_last d ≤ 79)%Z → reports (dl_last d) dl_last 79 (take_chunks size d cs).
Proof.
  revert d. induction cs as [|c cs IH]; intros d Hd; simpl; [unfold reports; simpl; lia|].
  eapply reports_bind; [by apply take_chunk_reports|done|]. intros d' Hd'. by apply IH.
Qed.
Lemma downloadLayer_reports ref layer : reports 5 (λ _, 80%Z) 80 (downloadLayer ref layer).
Proof.
  unfold downloadLayer. eapply reports_bind; [apply reports_quiet, quiet_registryFetch|done|]. intros r _. destruct (rp_body r); [|unfold reports; simpl; lia].
  do 3 (eapply reports_bind; [apply reports_quiet, quiet_check|done|]; intros [] _).
  eapply reports_bind; [by apply (take_chunks_reports _ (mkDownload "" 5))|done|]. intros d Hd.
  do 2 (eapply reports_bind; [apply reports_quiet, quiet_check|lia|]; intros [] _).
  eapply reports_bind; [apply reports_tell; lia|done|]. intros [] _. unfold reports. simpl. lia.
Qed.

(** The progress of an import only moves forward.  Whatever the registry answers and however
    the chunks arrive, the reported percentages rise strictly, stay between 1 and 100, and 100
    is reported exactly by an import that succeeds. *)
Theorem import_progress_rises config verify_code image :
  let run := import_ config verify_code image in
  rising 0 100 (omap progress_of run.1) ∧ (100%Z ∈ omap progress_of run.1 ↔ ∃ bytes, run.2 = inr bytes).
Proof.
  intros run. subst run. unfold import_. rewrite ?bind_progress, ?bind_result. destruct (parseOrasReference image) as [ref|]; [|by simpl; split; [lia|split; [set_solver|naive_solver]]].
  cbn [pull_some pull_ret pull_tell fst snd omap]. rewrite ?bind_progress, ?bind_result, quiet_resolveLayer.
  destruct (resolveLayer ref).2 as [e|layer]; [by simpl; split; [lia|split; [set_solver|naive_solver]]|].
  rewrite ?bind_progress, ?bind_result. cbn [pull_tell snd]. rewrite ?bind_progress, ?bind_result.
  pose proof (downloadLayer_reports ref layer) as Hd. unfold reports in Hd. destruct (downloadLayer ref layer) as [es [e|bytes]]; simpl in *.
  - rewrite app_nil_r. split; [split_and!; [lia..|by eapply rising_weaken; [| |exact Hd]]|]. split; [|naive_solver].
    intros [?|[?|Hin]%elem_of_cons]%elem_of_cons; [done..|]. by apply (rising_bound _ _ _ _ Hd) in Hin.
  - destruct Hd as [Hd _]. destruct (negb (oc_verifySif config) || Z.eqb verify_code 0); simpl.
    + split; [split_and!; [lia..|]|split; [eauto|set_solver]]. eapply rising_app; [exact Hd|]. simpl. lia.
    + rewrite app_nil_r. split; [split_and!; [lia..|by eapply rising_weaken; [| |exact Hd]]|]. split; [|naive_solver].
      intros [?|[?|Hin]%elem_of_cons]%elem_of_cons; [done..|]. by apply (rising_bound _ _ _ _ Hd) in Hin.
Qed.

(** *** Requests *)
Definition asks {A} (P : Request → Prop) (m : Pull A) : Prop := ∀ r, Requested r ∈ m.1 → P r.
Lemma asks_bind {A B} P (m : Pull A) (f : A → Pull B) : asks P m → (∀ a, m.2 = inr a → asks P (f a)) → asks P (pull_bind m f).
Proof.
  unfold asks, pull_bind. intros Hm Hf r. destruct m as [es [e|a]]; simpl in *; [apply Hm|]. intros [?|?]%elem_of_app; [by apply Hm|by eapply Hf].
Qed.
Lemma asks_check P b e : asks P (pull_check b e).
Proof. intros r Hr. destruct b; simpl in Hr; set_solver. Qed.
Lemma asks_some {A} P (o : option A) e : asks P (pull_some o e).
Proof. intros r Hr. destruct o; simpl in Hr; set_solver. Qed.
Lemma asks_ret {A} P (a : A) : asks P (pull_ret a).
Proof. intros r Hr. simpl in Hr. set_solver. Qed.
Lemma asks_throw {A} P e : asks P (pull_throw e : Pull A).
Proof. intros r Hr. simpl in Hr. set_solver. Qed.
Lemma asks_tell P p : asks P (pull_tell (Progress p)).
Proof. intros r [? |?]%elem_of_cons; [done|set_solver]. Qed.
Lemma asks_fetch (P : Request → Prop) q : P q → asks P (do_fetch q).
Proof. intros HP. apply asks_bind; [|intros; apply asks_some]. intros r [[= ->]|?]%elem_of_cons; [done|set_solver]. Qed.
Create HintDb asks.
Hint Resolve asks_check asks_some asks_ret asks_throw asks_tell : asks.
Ltac solve_asks := repeat match goal with |- asks _ (pull_bind _ _) => apply asks_bind; [|intros ? ?] | |- asks _ _ => solve [auto with asks] end.

Definition secure (ref : OrasReference) (r : Request) : Prop :=
  starts_with ("https://" +:+ or_registry ref +:+ "/v2/") (rq_url r) = true ∨ ∃ u, rq_url r = href u ∧ protocol u = "https:".
Lemma registryUrl_secure ref kind digest auth : secure ref (mkRequest (registryUrl ref kind digest) auth).
Proof. left. apply starts_with_spec. eexists. unfold rq_url, registryUrl. rewrite !str_app_assoc. reflexivity. Qed.
Lemma set_params_protocol ps u : protocol (foldl (λ u kv, set_param kv.1 kv.2 u) u ps) = protocol u.
Proof. revert u. induction ps as [|p ps IH]; intros u; simpl; [done|]. by rewrite IH, protocol_set_param. Qed.
Lemma bearerToken_asks ref ch : asks (secure ref) (bearerToken ref ch).
Proof.
  unfold bearerToken. apply asks_bind; [apply asks_some|]. intros u _. apply asks_bind; [apply asks_check|]. intros [] Hs.
  apply asks_bind; [|intros; solve_asks]. apply asks_fetch. right. eexists. split; [reflexivity|]. rewrite protocol_set_param, set_params_protocol.
  unfold pull_check in Hs. case_bool_decide; done.
Qed.
Lemma registryFetch_asks ref kind digest : asks (secure ref) (registryFetch ref (registryUrl ref kind digest)).
Proof.
  unfold registryFetch. apply asks_bind; [apply asks_fetch, registryUrl_secure|]. intros r _. destruct (negb _); [apply asks_ret|].
  destruct (parseBearerChallenge _) as [ch|].
  - apply asks_bind; [apply bearerToken_asks|]. intros. apply asks_fetch, registryUrl_secure.
  - destruct (if is_basic _ then _ else _); [|apply asks_ret]. case_bool_decide; [apply asks_ret|apply asks_fetch, registryUrl_secure].
Qed.
Lemma resolveLayer_asks ref : asks (secure ref) (resolveLayer ref).
Proof.
  unfold resolveLayer. apply asks_bind; [apply registryFetch_asks|]. intros r _. do 4 (apply asks_bind; [apply asks_check|]; intros ? _).
  apply asks_bind; [apply asks_some|]. intros m _. destruct (layer_of m); [apply asks_throw|apply asks_ret].
Qed.
Lemma take_chunks_asks P size d cs : asks P (take_chunks size d cs).
Proof. revert d. induction cs as [|c cs IH]; intros d; simpl; [apply asks_ret|]. apply asks_bind; [|auto]. unfold take_chunk. solve_asks. case_match; solve_asks. Qed.
Lemma downloadLayer_asks ref layer : asks (secure ref) (downloadLayer ref layer).
Proof.
  unfold downloadLayer. apply asks_bind; [apply registryFetch_asks|]. intros r _. destruct (rp_body r); [|apply asks_throw].
  do 3 (apply asks_bind; [apply asks_check|]; intros ? ?). apply asks_bind; [apply take_chunks_asks|]. intros. solve_asks.
Qed.

(** Credentials travel encrypted, and to the right places.  Every request of an import goes
    to the registry of the reference, over https and below its [/v2/], or to a token service
    whose URL the platform parses as https; a registry that names another kind of token service
    gets nothing. *)
Theorem import_requests_secure config verify_code image r :
  Requested r ∈ (import_ config verify_code image).1 → ∃ ref, parseOrasReference image = Some ref ∧ secure ref r.
Proof.
  unfold import_. destruct (parseOrasReference image) as [ref|]; [|simpl; set_solver]. intros Hr. exists ref. split; [done|]. revert r Hr.
  apply asks_bind; [apply asks_some|]. intros ref' [= <-]. apply asks_bind; [apply asks_tell|]. intros. apply asks_bind; [apply resolveLayer_asks|]. intros.
  apply asks_bind; [apply asks_tell|]. intros. apply asks_bind; [apply downloadLayer_asks|]. intros. solve_asks.
Qed.
End importer.

(** ** References and URLs *)
Definition url_char (c : ascii) : bool := unreserved c || bool_decide (c = "%"%char).
Lemma hex_digit_url n : n < 16 → url_char (hex_digit n) = true.
Proof. intros Hn. do 16 (destruct n as [|n]; [done|]). lia. Qed.
Lemma encode_chars s : all_chars url_char (encodeURIComponent s) = true.
Proof.
  induction s as [|c s IH]; [done|]. cbn [encodeURIComponent]. rewrite all_chars_app, IH, andb_true_r.
  destruct (unreserved c) eqn:Hu; cbn [all_chars]; [unfold url_char; by rewrite Hu|].
  rewrite !hex_digit_url; [done|apply Nat.mod_upper_bound; lia|]. apply Nat.Div0.div_lt_upper_bound. pose proof (nat_ascii_bounded c). lia.
Qed.
Lemma encode_cons c s t : encodeURIComponent s = String c t → c ≠ "%"%char → ∃ s', s = String c s' ∧ encodeURIComponent s' = t.
Proof.
  destruct s as [|x s]; [done|]. cbn [encodeURIComponent]. destruct (unreserved x); intros E Hc.
  - change (String x (encodeURIComponent s) = String c t) in E. injection E as -> <-. eauto.
  - by injection E.
Qed.
Lemma encode_part_ok s : part_ok s = true → part_ok (encodeURIComponent s) = true.
Proof.
  unfold part_ok. rewrite !negb_true_iff, !bool_decide_eq_false. intros Hs He. apply Hs. destruct He as [E|[E|E]].
  - destruct s as [|c s]; [by left|]. cbn [encodeURIComponent] in E. by destruct (unreserved c).
  - apply encode_cons in E as (s' & -> & E); [|done]. destruct s' as [|c s']; [auto|]. cbn [encodeURIComponent] in E. by destruct (unreserved c).
  - apply encode_cons in E as (s' & -> & E); [|done]. apply encode_cons in E as (s'' & -> & E); [|done].
    destruct s'' as [|c s'']; [auto|]. cbn [encodeURIComponent] in E. by destruct (unreserved c).
Qed.
Lemma split_join_no_char sep segs : segs ≠ [] → Forall (λ s, has_char sep s = false) segs → split_on sep (js_join (String sep "") segs) = segs.
Proof.
  intros Hne Hs. induction Hs as [|s segs Hs Hss IH]; [done|]. destruct segs as [|s' segs]; [by apply split_on_no_char|].
  change (js_join (String sep "") (s :: s' :: segs)) with (s +:+ String sep (js_join (String sep "") (s' :: segs))).
  by rewrite split_on_app, IH, split_on_no_char.
Qed.

(** A registry URL has the path it should have.  For a reference that parses, the URL splits
    at its slashes into the scheme, the registry, [v2], one segment for each part of the
    repository, and the kind and the digest: no part of an image name can add or remove a
    segment, climb with [..], or start a query or a fragment. *)
Theorem registryUrl_segments image ref kind digest :
  parseOrasReference image = Some ref → has_char "/"%char kind = false → has_char "/"%char digest = false →
  split_on "/"%char (registryUrl ref kind digest) =
    ["https:"; ""; or_registry ref; "v2"] ++ (encodeURIComponent <$> split_on "/"%char (or_repository ref)) ++ [kind; digest] ∧
  Forall (λ seg, part_ok seg = true ∧ has_char "?"%char seg = false ∧ has_char "#"%char seg = false)
    (encodeURIComponent <$> split_on "/"%char (or_repository ref)).
Proof.
  intros (rest & d & _ & _ & _ & _ & Hreg & Hparts)%parseOrasReference_Some Hk Hd. split.
  - unfold registryUrl. set (segs := encodeURIComponent <$> _).
    assert (split_on "/"%char (js_join "/" segs) = segs) as Hs.
    { apply split_join_no_char; [unfold segs; intros E%fmap_nil_inv; by apply split_on_not_nil in E|]. apply Forall_fmap, Forall_true. intros s.
      eapply all_chars_has; [apply encode_chars|done]. }
    transitivity (split_on "/"%char ("https:" +:+ String "/" ("" +:+ String "/" (or_registry ref +:+ String "/" ("v2" +:+ String "/" (js_join "/" segs +:+ String "/" (kind +:+ String "/" digest)))))));
      [done|]. rewrite split_on_app, (split_on_app _ ""), (split_on_app _ (or_registry ref)), (split_on_app _ "v2"), (split_on_app _ (js_join "/" segs)), (split_on_app _ kind), Hs.
    rewrite (split_on_no_char _ (or_registry ref)), (split_on_no_char _ kind), (split_on_no_char _ digest); [done|done|done|].
    eapply all_chars_has; [exact Hreg|done].
  - apply Forall_fmap. apply Forall_forall. intros s Hs. simpl. split_and!.
    + apply encode_part_ok. rewrite forallb_forall in Hparts. apply Hparts. by apply list_elem_of_In.
    + eapply all_chars_has; [apply encode_chars|done].
    + eapply all_chars_has; [apply encode_chars|done].
Qed.

Lemma cut_app c a b : has_char c a = false → cut c (a +:+ String c b) = Some (a, b).
Proof.
  induction a as [|x a IH]; intros Ha; [simpl; by rewrite decide_True|]. rewrite str_app_cons. simpl in *. apply orb_false_iff in Ha as [Hx%bool_decide_eq_false Ha].
  rewrite decide_False by congruence. by rewrite IH.
Qed.
Lemma last_index_no c a b : has_char c b = false → last_index c (a +:+ b) = last_index c a.
Proof.
  intros Hb. induction a as [|x a IH]; [by apply last_index_None|]. rewrite str_app_cons. simpl. by rewrite IH.
Qed.
Lemma last_index_lt c s n : last_index c s = Some n → n < str_length s.
Proof.
  revert n. induction s as [|x s IH]; intros n; simpl; [done|]. destruct (last_index c s) as [m|]; [intros [= <-]; specialize (IH m eq_refl); lia|].
  case_decide; [intros [= <-]; lia|done].
Qed.
Lemma untagged_spec repository tag : has_char "/"%char tag = false → has_char ":"%char tag = false → untagged (repository +:+ ":" +:+ tag) = repository.
Proof.
  intros Hs Hc. unfold untagged. change (":" +:+ tag) with (String ":" tag). rewrite (last_index_app ":"%char) by done.
  rewrite (last_index_no "/"%char repository (String ":" tag)) by (simpl; by rewrite Hs). rewrite str_take_app.
  destruct (last_index "/"%char repository) as [n|] eqn:E; [|done]. apply last_index_lt in E. by rewrite (proj2 (Nat.ltb_lt _ _) E).
Qed.
Lemma imageDigest_pinned a hex : str_length hex = 64 → all_chars hex_char hex = true → imageDigest (a +:+ "@sha256:" +:+ hex) = Some (to_lower hex).
Proof.
  intros Hl Hh. rewrite imageDigest_app by (rewrite str_length_app; simpl; lia). unfold imageDigest. rewrite str_length_app, Hl. change (str_length "@sha256:" + 64) with 72.
  change (Nat.ltb 72 72) with false. cbv iota. change (72 - 72) with 0. change (str_drop 0 ("@sha256:" +:+ hex)) with ("@sha256:" +:+ hex).
  rewrite starts_with_app. change (str_drop 8 ("@sha256:" +:+ hex)) with (str_drop 0 hex). replace (str_drop 0 hex) with hex by (by destruct hex). by rewrite Hh.
Qed.

(** Reading back a reference that was written.  A registry, a repository, a tag and a
    digest, written as a pinned reference, are read back as that registry, repository and
    digest; the tag is dropped. *)
Theorem reference_roundtrip registry parts tag hex :
  registry ≠ "" → all_chars (λ c, negb (bad_registry_char c)) registry = true →
  parts ≠ [] → Forall (λ p, part_ok p = true ∧ has_char "/"%char p = false) parts →
  has_char "/"%char tag = false → has_char ":"%char tag = false → has_line_break (js_join "/" parts +:+ ":" +:+ tag) = false →
  str_length hex = 64 → all_chars hex_char hex = true →
  parseOrasReference ("oras://" +:+ registry +:+ "/" +:+ js_join "/" parts +:+ ":" +:+ tag +:+ "@sha256:" +:+ hex) =
    Some (mkRef registry (js_join "/" parts) ("sha256:" +:+ to_lower hex)).
Proof.
  intros Hr Hrc Hp Hps Ht1 Ht2 Hlb Hl Hh. set (tagged := js_join "/" parts +:+ ":" +:+ tag) in *.
  replace (js_join "/" parts +:+ ":" +:+ tag +:+ "@sha256:" +:+ hex) with (tagged +:+ "@sha256:" +:+ hex) by (unfold tagged; by rewrite !str_app_assoc).
  assert (js_join "/" parts ≠ "") as Hne.
  { destruct parts as [|p ps]; [done|]. apply Forall_cons in Hps as [[Hpo _] _]. destruct ps; simpl; destruct p; done. }
  assert (tagged ≠ "") as Htn by (unfold tagged; by destruct (js_join "/" parts)).
  assert (forallb part_ok (split_on "/"%char (js_join "/" parts)) = true) as Hparts.
  { rewrite (split_join_no_char "/"%char) by (done || by eapply Forall_impl; [exact Hps|intros ? []]). apply forallb_forall. intros p Hin%list_elem_of_In.
    rewrite Forall_forall in Hps. by apply Hps. }
  unfold parseOrasReference. rewrite option_guard_True by apply starts_with_app.
  change (str_drop 7 ("oras://" +:+ ?x)) with x. change ("/" +:+ ?x) with (String "/" x).
  rewrite cut_app by (eapply all_chars_has; [exact Hrc|done]). cbn [mbind option_bind]. rewrite imageDigest_pinned by done. cbn [mbind option_bind].
  assert (str_take (str_length (tagged +:+ "@sha256:" +:+ hex) - 72) (tagged +:+ "@sha256:" +:+ hex) = tagged) as ->.
  { rewrite !str_length_app, Hl. change (str_length "@sha256:") with 8. replace (_ - 72) with (str_length tagged) by lia. apply str_take_app. }
  rewrite option_guard_True by done. rewrite option_guard_True by done. unfold tagged. rewrite untagged_spec by done. by rewrite option_guard_True.
Qed.

(** ** Closed examples *)
#[local] Instance ex_urls : UrlOps := {|
  Url := string; new_URL := Some; protocol u := str_take 6 u; set_param _ _ u := u; href u := u; protocol_set_param _ _ _ := eq_refl |}.
Definition ex_hex : string := repeat_char 64 "a".
Definition ex_image : string := "oras://quay.io/sardeenz/vllm:0.24@sha256:" +:+ ex_hex.
Definition ex_manifest : json :=
  JObj [("schemaVersion", JNum (NumInt 2));
        ("layers", JArr [JObj [("mediaType", JStr "application/vnd.sylabs.sif.layer.v1.sif"); ("size", JNum (NumInt 6)); ("digest", JStr ("sha256:" +:+ ex_hex))]])].
Definition ex_challenge : string :=
  "Bearer realm=" +:+ String quote ("https://auth.quay.io/t" +:+ String quote (",service=" +:+ String quote ("quay" +:+ String quote ""))).
Definition ex_fetch (r : Request) : option Reply :=
  if starts_with "https://auth" (rq_url r) then Some (mkReply 200 "" None None (Some ["token"])) else
  if bool_decide (rq_authorization r = None) then Some (mkReply 401 ex_challenge None None None) else
  Some (mkReply 200 "" None None (Some ["abc"; "def"])).
Definition ex_parse (s : string) : option json := Some (if decide (s = "token") then JObj [("token", JStr "tk")] else ex_manifest).
Definition ex_import : Pull string :=
  import_ ex_fetch (λ s, s) (λ _, ex_hex) ex_parse [("quay.io", mkCredential None (Some "u") (Some "p") None)] (λ r s, r * 75 / s)%Z (mkOrasConfig true) 0 ex_image.
Example import_run :
  omap progress_of ex_import.1 = [1; 5; 42; 79; 80; 100]%Z ∧ ex_import.2 = inr "abcdef" ∧
  omap (λ e, match e with Requested r => rq_authorization r | _ => None end) ex_import.1 = ["Basic u:p"; "Bearer tk"; "Basic u:p"; "Bearer tk"].
Proof. by vm_compute. Qed.
Lemma import_authentic_witness : ∃ d, imageDigest ex_image = Some d ∧ genuine_image (λ _, ex_hex) ex_parse d "abcdef".
Proof.
  destruct (import_authentic ex_fetch (λ s, s) (λ _, ex_hex) ex_parse [("quay.io", mkCredential None (Some "u") (Some "p") None)] (λ r s, r * 75 / s)%Z
    (mkOrasConfig true) 0 ex_image ex_import.1 "abcdef") as (d & Hd & Hg & _); [vm_compute; reflexivity|]. by exists d.
Defined.
Lemma import_requests_secure_witness : ∃ ref, parseOrasReference ex_image = Some ref ∧ secure ref (mkRequest "https://auth.quay.io/t" (Some "Basic u:p")).
Proof.
  apply (import_requests_secure ex_fetch (λ s, s) (λ _, ex_hex) ex_parse [("quay.io", mkCredential None (Some "u") (Some "p") None)] (λ r s, r * 75 / s)%Z
    (mkOrasConfig true) 0 ex_image). vm_compute. do 2 right. left.
Defined.
Definition ex_ref : OrasReference := mkRef "quay.io" "sardeenz/vllm" ("sha256:" +:+ ex_hex).
Lemma registryUrl_segments_witness :
  split_on "/"%char (registryUrl ex_ref "blobs" "d") = ["https:"; ""; "quay.io"; "v2"; "sardeenz"; "vllm"; "blobs"; "d"].
Proof. apply (registryUrl_segments ex_image ex_ref "blobs" "d"); vm_compute; reflexivity. Defined.
Lemma reference_roundtrip_witness : parseOrasReference ex_image = Some ex_ref.
Proof.
  apply (reference_roundtrip "quay.io" ["sardeenz"; "vllm"] "0.24" ex_hex); [done|vm_compute; reflexivity|done|by repeat constructor|vm_compute; reflexivity..].
Defined.
