(* ===== verification/WeightsBrowser.v ===== *)
(** * Browsing the model weights (control-plane/src/services/weights-browser.ts)

    The folder picker of the dashboard lists the weights directory one level at a time.  The
    file system is an argument: [readdir] answers the names of a directory, each with whether
    it is a directory. *)
From stdpp Require Import base tactics list strings gmap sets.
From Stdlib Require Import ZArith Lia Ascii.
From S2P Require Import Prelude Js Paths.

Definition MODEL_FILE_NAMES : list string := ["config.json"; "tokenizer.json"; "tokenizer.model"; "model-settings.json"].
Definition MODEL_FILE_EXTS : list string := [".safetensors"; ".gguf"; ".bin"; ".pt"; ".pth"; ".onnx"].
Inductive DirReply := Dirents (l : list (string * bool)) | Missing | Unreadable.
Record WeightsEntry := mkWeightsEntry { we_name : string; we_path : string; we_isModelDir : bool }.
Record WeightsListing := mkListing { wl_root : string; wl_path : string; wl_relativePath : string; wl_entries : list WeightsEntry }.

Section browser.
Context (cwd weightsDir : string) (readdir : string → DirReply).
Definition root_segs : list string := resolve_segs cwd weightsDir.
Definition root : string := path_text root_segs.
(** [resolve(this.root, relativePath)] *)
Definition target_segs (relativePath : string) : list string := resolve_segs root relativePath.
(** [relative(root, target)] for a target at or below the root *)
Definition relative (target : list string) : string := js_join "/" (drop (length root_segs) target).
Definition looksLikeModelDir (dir : string) : bool :=
  match readdir dir with
  | Dirents l => existsb (λ f, bool_decide (f.1 ∈ MODEL_FILE_NAMES) || existsb (λ ext, ends_with ext f.1) MODEL_FILE_EXTS) l
  | _ => false
  end.
(** [join(target, name)] *)
Definition join (target : list string) (name : string) : string := path_text (normalize (target ++ split_on slash name)).
Definition entry_of (target : list string) (name : string) : WeightsEntry :=
  mkWeightsEntry name (join target name) (looksLikeModelDir (join target name)).
(** [None]: an INVALID_REQUEST is thrown.  The entries are those before they are sorted by name. *)
Definition list_weights (relativePath : string) : option WeightsListing :=
  let target := target_segs relativePath in
  let path := path_text target in
  if negb (bool_decide (path = root)) && negb (isContainedIn cwd path root) then None else
  match readdir path with
  | Missing => Some (mkListing root path (relative target) [])
  | Unreadable => None
  | Dirents l =>
      Some (mkListing root path (relative target)
        (entry_of target <$> (List.filter (λ d, d.2 && negb (starts_with "." d.1)) l).*1))
  end.

(** ** Everything that is offered may be deployed *)
Lemma normalize_app_proper segs : Forall proper_seg segs → normalize segs = segs.
Proof.
  intros Hs. unfold normalize. assert (∀ acc, foldl normalize_step acc segs = acc ++ segs) as Hgen; [|by rewrite Hgen].
  induction Hs as [|s segs (H1 & H2 & H3 & _) _ IH]; intros acc; simpl; [by rewrite app_nil_r|].
  rewrite IH. unfold normalize_step. rewrite decide_False by naive_solver. rewrite decide_False by done. by rewrite <- app_assoc.
Qed.
Lemma resolve_path_text c segs : Forall proper_seg segs → resolve_segs c (path_text segs) = segs.
Proof.
  intros Hs. unfold resolve_segs, path_text. rewrite starts_with_app. change ("/" +:+ js_join "/" segs) with ("" +:+ String slash (js_join "/" segs)).
  rewrite split_on_app. change (split_on slash "") with [""]. unfold normalize. rewrite foldl_app.
  change (foldl normalize_step [] [""]) with (@nil string). destruct segs as [|s segs]; [done|].
  rewrite split_join_segs by done. by apply normalize_app_proper.
Qed.
(** A name a directory can have. *)
Definition file_name (n : string) : Prop := proper_seg n.

(** The picker offers only what a deploy accepts.  A listing stays at or below the weights
    root whatever path is asked for, and every folder it offers passes the containment check
    that a deploy makes of its model path. *)
Theorem listed_weights_deployable relativePath listing :
  (∀ dir l n, readdir dir = Dirents l → n ∈ l.*1 → file_name n) → root_segs ≠ [] →
  list_weights relativePath = Some listing →
  (∃ rest, resolve_segs cwd (wl_path listing) = root_segs ++ rest) ∧
  ∀ e, e ∈ wl_entries listing → isContainedIn cwd (we_path e) weightsDir = true.
Proof.
  intros Hnames Hroot Hl. unfold list_weights in Hl.
  assert (Forall proper_seg root_segs) as Hrp by apply resolve_proper. assert (Forall proper_seg (target_segs relativePath)) as Htp by apply resolve_proper.
  set (target := target_segs relativePath) in *.
  destruct (negb (bool_decide (path_text target = root)) && negb (isContainedIn cwd (path_text target) root)) eqn:Hg; [done|].
  assert (∃ rest, target = root_segs ++ rest) as [rest Ht].
  { apply andb_false_iff in Hg as [Hg|Hg]; apply negb_false_iff in Hg.
    - apply bool_decide_eq_true in Hg. unfold root in Hg. exists []. rewrite app_nil_r. rewrite <- (resolve_path_text cwd target), Hg by done. by apply resolve_path_text.
    - unfold isContainedIn in Hg. destruct (starts_with "/" (path_text target)); [|done]. simpl negb in Hg. cbv iota in Hg. unfold resolve, root in Hg.
      rewrite !resolve_path_text, path_text_prefix in Hg by done. destruct Hg as (_ & rest & _ & ->). eauto. }
  assert (wl_path listing = path_text target) as Hpath by (destruct (readdir _); naive_solver). rewrite Hpath, resolve_path_text by done.
  split; [eauto|]. destruct (readdir (path_text target)) as [l| |] eqn:Hr; [|injection Hl as <-; simpl; set_solver|done]. injection Hl as <-. simpl.
  intros e (name & -> & Hin)%list_elem_of_fmap. apply list_elem_of_fmap in Hin as ([n b] & -> & Hin). apply list_elem_of_In, List.filter_In in Hin as [Hin _].
  assert (proper_seg n) as Hn by (eapply Hnames; [exact Hr|]; apply list_elem_of_fmap; exists (n, b); split; [done|by apply list_elem_of_In]).
  simpl. unfold join. rewrite split_on_no_char by apply Hn.
  assert (Forall proper_seg (target ++ [n])) as Hp by (apply Forall_app; split; [done|by constructor]).
  rewrite normalize_app_proper by done. unfold isContainedIn. change (starts_with "/" (path_text (target ++ [n]))) with (starts_with "/" ("/" +:+ js_join "/" (target ++ [n]))).
  rewrite starts_with_app. simpl negb. cbv iota. unfold resolve. rewrite resolve_path_text by done.
  apply path_text_prefix; [done|done|]. split; [done|]. exists (rest ++ [n]). split; [by destruct rest|]. rewrite Ht. by rewrite app_assoc.
Qed.
End browser.

Definition ex_dirs (d : string) : DirReply :=
  if decide (d = "/weights") then Dirents [("llama", true); (".cache", true); ("notes.txt", false)] else
  if decide (d = "/weights/llama") then Dirents [("config.json", false)] else Missing.
Lemma listed_weights_deployable_witness :
  ∃ listing, list_weights "/app" "/weights" ex_dirs "" = Some listing ∧ wl_entries listing = [mkWeightsEntry "llama" "/weights/llama" true] ∧
    isContainedIn "/app" "/weights/llama" "/weights" = true.
Proof.
  eexists. split; [vm_compute; reflexivity|]. split; [reflexivity|].
  refine (proj2 (listed_weights_deployable "/app" "/weights" ex_dirs "" _ _ _ eq_refl) (mkWeightsEntry "llama" "/weights/llama" true) _); [|by vm_compute|by left].
  intros dir l n. unfold ex_dirs. repeat case_decide; intros [= <-]; simpl; intros Hn; repeat (apply elem_of_cons in Hn as [->|Hn]; [by vm_compute|]); set_solver.
Defined.
