(* ===== verification/Lifecycle.v ===== *)
(** * Instance lifecycle (control-plane/src/services/model-lifecycle.ts)

    The state machine of a model instance, its record in Redis, the derivation of
    a model's aggregate state from its instances, and the durable record that
    fences a move.  The two Lua scripts run atomically in Redis and are functions
    on [RedisDb]. *)
From stdpp Require Import base tactics list strings gmap sets.
From Stdlib Require Import ZArith Lia Ascii.
From S2P Require Import Prelude Js Types Errors MemoryBudget Store ModelName.

(** ** The state machine *)
Definition VALID_TRANSITIONS (from : ModelLifecycleState) : list ModelLifecycleState :=
  match from with
  | ModelLifecycleState.PENDING => [ModelLifecycleState.STARTING; ModelLifecycleState.ERROR]
  | ModelLifecycleState.STARTING => [ModelLifecycleState.ACTIVE; ModelLifecycleState.ERROR]
  | ModelLifecycleState.ACTIVE => [ModelLifecycleState.DRAINING; ModelLifecycleState.ERROR]
  | ModelLifecycleState.DRAINING =>
      [ModelLifecycleState.SLEEPING; ModelLifecycleState.STOPPING; ModelLifecycleState.ERROR]
  | ModelLifecycleState.SLEEPING =>
      [ModelLifecycleState.STARTING; ModelLifecycleState.STOPPING; ModelLifecycleState.ERROR]
  | ModelLifecycleState.STOPPING => [ModelLifecycleState.STOPPED; ModelLifecycleState.ERROR]
  | ModelLifecycleState.STOPPED => [ModelLifecycleState.ERROR]
  | ModelLifecycleState.ERROR => [ModelLifecycleState.STOPPED; ModelLifecycleState.STARTING]
  end.

Definition isValidTransition (from to : ModelLifecycleState) : bool := bool_decide (to ∈ VALID_TRANSITIONS from).
Definition isTerminalState (s : ModelLifecycleState) : bool := bool_decide (s = ModelLifecycleState.STOPPED).

Definition AGGREGATE_STATE_PRECEDENCE : list ModelLifecycleState :=
  [ModelLifecycleState.ACTIVE; ModelLifecycleState.STARTING; ModelLifecycleState.DRAINING;
   ModelLifecycleState.SLEEPING; ModelLifecycleState.PENDING; ModelLifecycleState.STOPPING;
   ModelLifecycleState.ERROR].

Definition deriveAggregateState (instances : list InstanceState) : ModelLifecycleState :=
  let relevant := List.filter (λ i, negb (bool_decide (state i = ModelLifecycleState.STOPPED))) instances in
  match relevant with
  | [] => ModelLifecycleState.STOPPED
  | _ =>
      let present := state <$> relevant in
      match find (λ c, bool_decide (c ∈ present)) AGGREGATE_STATE_PRECEDENCE with
      | Some c => c
      | None => ModelLifecycleState.ERROR
      end
  end.

(** ** Partial updates: an absent field is [None], a field set to [null] is [Some None]. *)
Record Updates := mkUpdates {
  u_workerId : option (option string);
  u_runnerHost : option (option string);
  u_runnerPort : option (option Z);
  u_runnerEnginePort : option (option Z);
  u_runnerId : option (option string);
  u_deviceIndices : option (option (list Z));
  u_errorMessage : option (option string);
  u_runnerStartAmbiguous : option bool;
}.
Definition no_updates : Updates := mkUpdates None None None None None None None None.
Definition error_update (msg : string) : Updates := mkUpdates None None None None None None (Some (Some msg)) None.

(** The body of the [transition] script after its guards: the new state and time,
    the updates, and no error message outside ERROR. *)
Definition apply_transition (to : ModelLifecycleState) (u : Updates) (at_ : string) (s : InstanceState) : InstanceState :=
  mkInstance (instanceId s) (modelName s) to (protocol s)
    (default (workerId s) (u_workerId u)) (default (runnerHost s) (u_runnerHost u))
    (default (runnerPort s) (u_runnerPort u)) (default (runnerEnginePort s) (u_runnerEnginePort u))
    (default (runnerId s) (u_runnerId u)) (default (deviceIndices s) (u_deviceIndices u))
    (lastInferenceAt s) at_
    (if decide (to = ModelLifecycleState.ERROR) then default (errorMessage s) (u_errorMessage u) else None)
    (default (runnerStartAmbiguous s) (u_runnerStartAmbiguous u)).

Inductive TransitionReply :=
| TransitionMissing
| TransitionInvalid (from to : ModelLifecycleState)
| TransitionDone (from : ModelLifecycleState) (new : InstanceState).

Definition transition_script (key : string) (to : ModelLifecycleState) (u : Updates) (at_ : string) (d : RedisDb) :
    TransitionReply * RedisDb :=
  match db_instances d !! key with
  | None => (TransitionMissing, d)
  | Some s =>
      if isValidTransition (state s) to then
        let s' := apply_transition to u at_ s in
        (TransitionDone (state s) s', set_instances <[key := s']> d)
      else (TransitionInvalid (state s) to, d)
  end.

(** ** Moves *)
Definition move_allowed (from to : MoveOperationPhase) : bool :=
  match from, to with
  | MoveOperationPhase.REPLACEMENT_STARTING, MoveOperationPhase.REPLACEMENT_READY
  | MoveOperationPhase.REPLACEMENT_STARTING, MoveOperationPhase.REPLACEMENT_CLEANUP
  | MoveOperationPhase.REPLACEMENT_READY, MoveOperationPhase.CUTTING_OVER
  | MoveOperationPhase.REPLACEMENT_READY, MoveOperationPhase.REPLACEMENT_CLEANUP
  | MoveOperationPhase.CUTTING_OVER, MoveOperationPhase.SOURCE_DRAINING
  | MoveOperationPhase.CUTTING_OVER, MoveOperationPhase.REPLACEMENT_CLEANUP => true
  | _, _ => false
  end.

Definition apply_move_update (ph : option MoveOperationPhase) (err : option string) (at_ : string) (o : MoveOperation) :
    MoveOperation :=
  mkMove (operationId o) (mv_modelName o) (sourceInstanceId o) (replacementInstanceId o) (targetWorkerId o)
    (targetDeviceIndices o) (default (phase o) ph) (createdAt o) at_
    (match err with Some e => Some e | None => mv_errorMessage o end).

Definition update_move_script (key opId : string) (ph : option MoveOperationPhase) (err : option string) (at_ : string)
    (d : RedisDb) : option MoveOperation * RedisDb :=
  match db_moves d !! key with
  | None => (None, d)
  | Some o =>
      if decide (operationId o ≠ opId) then (None, d)
      else if match ph with
              | Some p => bool_decide (p ≠ phase o) && negb (move_allowed (phase o) p)
              | None => false
              end then (None, d)
      else let o' := apply_move_update ph err at_ o in (Some o', set_moves <[key := o']> d)
  end.

Definition remove_move_script (key opId : string) (d : RedisDb) : bool * RedisDb :=
  match db_moves d !! key with
  | None => (false, d)
  | Some o => if decide (operationId o ≠ opId) then (false, d) else (true, set_moves (delete key) d)
  end.

(** ** The service *)
Section service.
Context `{!Env, !RedisScan, !JsDate} (keyPrefix : string).

Definition instanceStateKey (modelName instanceId : string) : string :=
  redisKey keyPrefix ["models"; modelName; instanceId].
Definition moveKey (modelName : string) : string := redisKey keyPrefix ["move-operations"; modelName].

Definition getInstance (modelName instanceId : string) : Svc (option InstanceState) :=
  redis_call (λ d, (db_instances d !! instanceStateKey modelName instanceId, d)).

Definition getStatesForPattern (pattern : string) : Svc (list InstanceState) :=
  keys ← scanKeys db_instances pattern;
  match keys with
  | [] => mret []
  | _ => results ← pipeline_get (λ d k, db_instances d !! k) keys;
         mret (match results with None => [] | Some rs => omap id rs end)
  end.

Definition getInstancesForModel (modelName : string) : Svc (list InstanceState) :=
  getStatesForPattern (redisKey keyPrefix ["models"; modelName; "*"]).
Definition getAllInstances : Svc (list InstanceState) :=
  getStatesForPattern (redisKey keyPrefix ["models"; "*"; "*"]).

(** [rest] of a scanned key: what follows [{prefix}:models:]. *)
Definition legacy_rest (key : string) : string :=
  str_drop (str_length (redisKey keyPrefix ["models"] +:+ ":")) key.
Fixpoint prune_keys (keys removed : list string) : Svc (list string) :=
  match keys with
  | [] => mret removed
  | key :: keys' =>
      if has_char colon (legacy_rest key) then prune_keys keys' removed
      else redis_call (λ d, (tt, set_instances (delete key) d)) ;;
           prune_keys keys' (removed ++ [legacy_rest key])
  end.
Definition pruneLegacyInstanceKeys : Svc (list string) :=
  keys ← scanKeys db_instances (redisKey keyPrefix ["models"; "*"]);
  prune_keys keys [].

Definition new_instance (modelName instanceId : string) (workerId : option string) (protocol : option Protocol) (at_ : string) :
    InstanceState :=
  mkInstance instanceId modelName ModelLifecycleState.PENDING (Some (default Protocol.openai protocol)) workerId
    None None None None None None at_ None false.

Definition createInstance (modelName instanceId : string) (workerId : option string) (protocol : option Protocol) :
    Svc InstanceState :=
  t ← date_now;
  let key := instanceStateKey modelName instanceId in
  let s := new_instance modelName instanceId workerId protocol (toISOString t) in
  result ← redis_call (λ d,
    match db_instances d !! key with
    | Some _ => (false, d)
    | None => (true, set_instances <[key := s]> d)
    end);
  if (result : bool) then mret s
  else throw (CPError (modelAlreadyExists (modelName +:+ "/" +:+ instanceId))).

Definition transition (modelName instanceId : string) (to : ModelLifecycleState) (u : Updates) : Svc InstanceState :=
  catch
    (t ← date_now;
     r ← redis_call (transition_script (instanceStateKey modelName instanceId) to u (toISOString t));
     match r with
     | TransitionInvalid from to =>
         throw (OtherError ("INVALID_TRANSITION:" +:+ lifecycle_str from +:+ ":" +:+ lifecycle_str to))
     | TransitionMissing => throw (CPError (modelNotFound (modelName +:+ "/" +:+ instanceId)))
     | TransitionDone from new => modify (log_event (EvStateMetric from to)) ;; mret new
     end)
    (λ e,
     if includes "INVALID_TRANSITION" (err_message e) then
       throw (CPError (invalidState (modelName +:+ "/" +:+ instanceId)
                (default "unknown" (split_on colon (err_message e) !! 1)) ("transition to " +:+ lifecycle_str to)))
     else throw e).

(** A read and a write: another writer can come between them. *)
Definition setRunnerEndpoint (modelName instanceId rId host : string) (port : Z) (enginePort : option Z) : Svc unit :=
  st ← getInstance modelName instanceId;
  match st with
  | None => throw (CPError (modelNotFound (modelName +:+ "/" +:+ instanceId)))
  | Some s =>
      let s' := mkInstance (Types.instanceId s) (Types.modelName s) (state s) (protocol s) (workerId s) (Some host) (Some port)
                  (Some (default port enginePort)) (Some rId) (deviceIndices s) (lastInferenceAt s)
                  (stateChangedAt s) (errorMessage s) (runnerStartAmbiguous s) in
      redis_call (λ d, (tt, set_instances <[instanceStateKey modelName instanceId := s']> d))
  end.

Definition removeInstance (modelName instanceId : string) : Svc unit :=
  redis_call (λ d, (tt, set_instances (delete (instanceStateKey modelName instanceId)) d)).

Definition createMoveOperation (o : MoveOperation) : Svc bool :=
  redis_call (λ d,
    match db_moves d !! moveKey (mv_modelName o) with
    | Some _ => (false, d)
    | None => (true, set_moves <[moveKey (mv_modelName o) := o]> d)
    end).

Definition getMoveOperation (modelName : string) : Svc (option MoveOperation) :=
  redis_call (λ d, (db_moves d !! moveKey modelName, d)).

Definition getAllMoveOperations : Svc (list MoveOperation) :=
  keys ← scanKeys db_moves (redisKey keyPrefix ["move-operations"; "*"]);
  match keys with
  | [] => mret []
  | _ => results ← pipeline_get (λ d k, db_moves d !! k) keys;
         mret (match results with None => [] | Some rs => omap id rs end)
  end.

Definition updateMoveOperation (modelName opId : string) (ph : option MoveOperationPhase) (err : option string) :
    Svc (option MoveOperation) :=
  t ← date_now;
  redis_call (update_move_script (moveKey modelName) opId ph err (toISOString t)).

Definition removeMoveOperation (modelName opId : string) : Svc bool :=
  redis_call (remove_move_script (moveKey modelName) opId).

Definition getLastInferenceTimestamps (modelNames : list string) : Svc (list (string * string)) :=
  match modelNames with
  | [] => mret []
  | _ =>
      replies ← pipeline_get (λ d k, db_inference d !! k) ((λ name, redisKey keyPrefix ["inference"; "last"; name]) <$> modelNames);
      mret (match replies with
            | None => []
            | Some rs => foldl (λ acc nr, match nr.2 with Some raw => jm_set acc nr.1 raw | None => acc end) [] (zip modelNames rs)
            end)
  end.
End service.

(** ** Aggregate state *)
Lemma precedence_complete s : s ≠ ModelLifecycleState.STOPPED → s ∈ AGGREGATE_STATE_PRECEDENCE.
Proof. destruct s; intros; try done; unfold AGGREGATE_STATE_PRECEDENCE; set_solver. Qed.

(** The states of the instances that count: those not STOPPED. *)
Definition live_states (instances : list InstanceState) : list ModelLifecycleState :=
  List.filter (λ s, negb (bool_decide (s = ModelLifecycleState.STOPPED))) (state <$> instances).

Lemma live_states_filter instances :
  live_states instances = state <$> List.filter (λ i, negb (bool_decide (state i = ModelLifecycleState.STOPPED))) instances.
Proof. unfold live_states. induction instances as [|i l IH]; csimpl; [done|]. case_match; csimpl; by rewrite IH. Qed.

Lemma elem_of_live_states s instances :
  s ∈ live_states instances ↔ s ≠ ModelLifecycleState.STOPPED ∧ ∃ i, i ∈ instances ∧ state i = s.
Proof.
  unfold live_states. rewrite list_elem_of_In, filter_In, negb_true_iff, bool_decide_eq_false.
  rewrite <- list_elem_of_In, list_elem_of_fmap. naive_solver.
Qed.

Lemma deriveAggregateState_live instances :
  deriveAggregateState instances =
    match live_states instances with
    | [] => ModelLifecycleState.STOPPED
    | _ => default ModelLifecycleState.ERROR (find (λ c, bool_decide (c ∈ live_states instances)) AGGREGATE_STATE_PRECEDENCE)
    end.
Proof. unfold deriveAggregateState. rewrite live_states_filter. by destruct (List.filter _ _). Qed.

(** Rank of a state in the precedence list; STOPPED, absent from it, is last. *)
Definition precedence (s : ModelLifecycleState) : nat :=
  match s with
  | ModelLifecycleState.ACTIVE => 0 | ModelLifecycleState.STARTING => 1 | ModelLifecycleState.DRAINING => 2
  | ModelLifecycleState.SLEEPING => 3 | ModelLifecycleState.PENDING => 4 | ModelLifecycleState.STOPPING => 5
  | ModelLifecycleState.ERROR => 6 | ModelLifecycleState.STOPPED => 7
  end.

#[global] Instance precedence_inj : Inj (=) (=) precedence.
Proof. by intros [] []. Qed.

Lemma find_precedence P `{!∀ s, Decision (P s)} s :
  find (λ c, bool_decide (P c)) AGGREGATE_STATE_PRECEDENCE = Some s →
  P s ∧ ∀ s', P s' → precedence s ≤ precedence s'.
Proof.
  simpl. intros Hf. repeat case_bool_decide; simplify_eq; (split; [done|]); intros [] ?; simpl; try lia; done.
Qed.

(** A model's aggregate state is the highest-precedence state among its
    instances that are not STOPPED, and STOPPED exactly when there is none: the
    result is the state of some instance, and no instance that is not STOPPED
    outranks it.  In particular one ACTIVE replica masks every broken one, and the
    fallback to ERROR at the end of the code is never taken without an ERROR
    instance. *)
Theorem deriveAggregateState_spec instances :
  let agg := deriveAggregateState instances in
  (agg = ModelLifecycleState.STOPPED ↔ ∀ i, i ∈ instances → state i = ModelLifecycleState.STOPPED) ∧
  (agg ≠ ModelLifecycleState.STOPPED → ∃ i, i ∈ instances ∧ state i = agg) ∧
  (∀ i, i ∈ instances → precedence agg ≤ precedence (state i)).
Proof.
  simpl. rewrite deriveAggregateState_live. pose proof (λ s, elem_of_live_states s instances) as Hl.
  destruct (live_states instances) as [|s0 l] eqn:Heq.
  - assert (∀ i, i ∈ instances → state i = ModelLifecycleState.STOPPED) as Hall.
    { intros i Hi. destruct (decide (state i = ModelLifecycleState.STOPPED)); [done|].
      assert (state i ∈ @nil ModelLifecycleState) as Hn by (apply Hl; eauto). set_solver. }
    split; [done|]. split; [done|]. intros i Hi. by rewrite (Hall i Hi).
  - destruct (find _ _) as [s|] eqn:Hf; simpl.
    + apply find_precedence in Hf as [[Hns (i & Hi & Hsi)]%Hl Hmin]. split_and!.
      * split; [done|]. intros Hall. by rewrite (Hall i Hi) in Hsi.
      * eauto.
      * intros j Hj. destruct (decide (state j = ModelLifecycleState.STOPPED)) as [Hj'|Hj'].
        { rewrite Hj'. destruct s; simpl; lia. }
        apply Hmin, Hl. eauto.
    + exfalso. assert (s0 ∈ s0 :: l) as Hs0 by set_solver.
      assert (s0 ≠ ModelLifecycleState.STOPPED) as Hns by (by apply Hl).
      pose proof (find_none _ _ Hf s0) as Hnone. cbn beta in Hnone. rewrite bool_decide_eq_false in Hnone.
      apply Hnone; [|done]. by apply list_elem_of_In, precedence_complete.
Qed.

Lemma deriveAggregate_ext l l' :
  (∀ s, s ∈ state <$> l ↔ s ∈ state <$> l') → deriveAggregateState l = deriveAggregateState l'.
Proof.
  intros Heq. rewrite !deriveAggregateState_live.
  assert (∀ s, s ∈ live_states l ↔ s ∈ live_states l') as Hlive.
  { intros s. specialize (Heq s). rewrite !list_elem_of_fmap in Heq. rewrite !elem_of_live_states. naive_solver. }
  assert (∀ xs, find (λ c, bool_decide (c ∈ live_states l)) xs = find (λ c, bool_decide (c ∈ live_states l')) xs) as Hfind.
  { induction xs as [|x xs IH]; simpl; [done|]. by rewrite (bool_decide_ext _ _ (Hlive x)), IH. }
  rewrite Hfind. destruct (live_states l) as [|x k], (live_states l') as [|x' k'] eqn:E; try done.
  - exfalso. specialize (Hlive x'). set_solver.
  - exfalso. specialize (Hlive x). set_solver.
Qed.

(** The aggregate does not depend on the order in which a scan returns the
    instances, nor on a scan reporting one twice: only the set of states counts. *)
Theorem deriveAggregateState_set l l' :
  (∀ s, s ∈ state <$> l ↔ s ∈ state <$> l') → deriveAggregateState l = deriveAggregateState l'.
Proof. apply deriveAggregate_ext. Qed.

(** ** Transitions *)
Lemma isValidTransition_spec from to : isValidTransition from to = true ↔ to ∈ VALID_TRANSITIONS from.
Proof. apply bool_decide_eq_true. Qed.

(** What one command of this process may do to the record under [key] and to the
    others: a transition along an allowed edge that keeps the instance's identity,
    or nothing. *)
Definition same_identity (s s' : InstanceState) : Prop :=
  instanceId s' = instanceId s ∧ modelName s' = modelName s ∧ protocol s' = protocol s.
Definition edge_or_same (o o' : option InstanceState) : Prop :=
  o' = o ∨ ∃ s s', o = Some s ∧ o' = Some s' ∧ state s' ∈ VALID_TRANSITIONS (state s) ∧ same_identity s s'.
Definition instance_guarantee (key : string) (e : Event) : Prop :=
  match e with
  | EvRedis d d' =>
      edge_or_same (db_instances d !! key) (db_instances d' !! key) ∧
      ∀ k, k ≠ key → db_instances d' !! k = db_instances d !! k
  | _ => True
  end.

Lemma instance_guarantee_frame key d d' : db_instances d' = db_instances d → instance_guarantee key (EvRedis d d').
Proof. intros Heq. simpl. rewrite Heq. split; [by left|done]. Qed.

Lemma transition_script_guarantee key to u at_ d :
  instance_guarantee key (EvRedis d (transition_script key to u at_ d).2).
Proof.
  unfold transition_script. destruct (db_instances d !! key) as [s|] eqn:Hs; [|by apply instance_guarantee_frame].
  destruct (isValidTransition (state s) to) eqn:Hv; [|by apply instance_guarantee_frame].
  simpl. split.
  - right. exists s, (apply_transition to u at_ s). rewrite lookup_insert_eq. split_and!; try done.
    by apply isValidTransition_spec.
  - intros k Hk. by rewrite lookup_insert_ne.
Qed.

#[export] Hint Extern 4 (instance_guarantee _ (EvStateMetric _ _)) => exact I : preserves.
#[export] Hint Extern 4 (instance_guarantee _ (EvHealth _)) => exact I : preserves.
#[export] Hint Resolve transition_script_guarantee : preserves.

Section transition.
Context `{!Env, !RedisScan, !JsDate} (keyPrefix : string).

Lemma transition_guar name id to u :
  guar (instance_guarantee (instanceStateKey keyPrefix name id)) (transition keyPrefix name id to u).
Proof. unfold transition. solve_preserves. Qed.

(** Whatever is allowed to happen in a trace, reading is. *)
Lemma getInstance_preserves R ok `{!TraceRel R ok} name id :
  (∀ d, ok (EvRedis d d)) → preserves R (getInstance keyPrefix name id).
Proof. intros Hd. unfold getInstance. solve_preserves. Qed.

Lemma getStatesForPattern_preserves R ok `{!TraceRel R ok} p :
  (∀ d, ok (EvRedis d d)) → preserves R (getStatesForPattern p).
Proof. intros Hd. unfold getStatesForPattern. solve_preserves. Qed.

Lemma transition_grows name id to u : grows (transition keyPrefix name id to u).
Proof. unfold transition. solve_preserves. Qed.

Lemma transition_total name id to u : total (transition keyPrefix name id to u).
Proof. unfold transition. solve_total. Qed.
Lemma getInstance_total name id : total (getInstance keyPrefix name id).
Proof. unfold getInstance. solve_total. Qed.
Lemma getStatesForPattern_total p : total (getStatesForPattern p).
Proof. unfold getStatesForPattern. solve_total. Qed.

Lemma invalid_reply_parts from to :
  let msg := "INVALID_TRANSITION:" +:+ lifecycle_str from +:+ ":" +:+ lifecycle_str to in
  includes "INVALID_TRANSITION" msg = true ∧ split_on colon msg !! 1 = Some (lifecycle_str from).
Proof. by destruct from, to; vm_compute. Qed.

(** [transition] on every branch.  Against the Redis state [d] the script
    meets (whatever others did before it), when the call itself succeeds: a missing
    record gives "model not found" and changes nothing; a transition that is not an
    edge of the state machine gives an "invalid state" error that names the state
    actually found and changes nothing; an allowed one stores and returns the record
    with the new state, the time, the updates, and no error message unless the target
    is ERROR. *)
Theorem transition_spec name id to u w :
  env_fault (w_step w) = NoFault →
  includes "INVALID_TRANSITION" (message (modelNotFound (name +:+ "/" +:+ id))) = false →
  let d := env_interfere_db (w_step w) (w_db w) in
  let key := instanceStateKey keyPrefix name id in
  let '(r, w') := transition keyPrefix name id to u w in
  match db_instances d !! key with
  | None => r = inl (CPError (modelNotFound (name +:+ "/" +:+ id))) ∧ w_db w' = d
  | Some s =>
      if isValidTransition (state s) to then
        let s' := apply_transition to u (toISOString (w_now w)) s in
        r = inr s' ∧ w_db w' = set_instances <[key := s']> d
      else
        r = inl (CPError (invalidState (name +:+ "/" +:+ id) (lifecycle_str (state s)) ("transition to " +:+ lifecycle_str to)))
        ∧ w_db w' = d
  end.
Proof.
  intros Hf Hinc. cbn zeta. unfold transition, catch, mbind, M_bind, date_now, gets, redis_call.
  cbn [w_db tick]. unfold transition_script. rewrite Hf.
  destruct (db_instances _ !! _) as [s|]; [destruct (isValidTransition (state s) to)|].
  - done.
  - destruct (invalid_reply_parts (state s) to) as [Hi Hp]. cbn [throw err_message]. by rewrite Hi, Hp.
  - cbn [throw err_message]. by rewrite Hinc.
Qed.
End transition.

#[export] Hint Resolve transition_guar getInstance_preserves getStatesForPattern_preserves transition_grows : preserves.
#[export] Hint Resolve transition_total getInstance_total getStatesForPattern_total : total.

(** ** Keys *)
Section keys.
Context (keyPrefix : string).

Lemma instanceStateKey_unfold name id :
  instanceStateKey keyPrefix name id = (keyPrefix +:+ ":models:") +:+ (name +:+ String colon id).
Proof. unfold instanceStateKey, redisKey. simpl. by rewrite !str_app_assoc. Qed.

Lemma str_app_inj_l a b c : a +:+ b = a +:+ c → b = c.
Proof. induction a as [|x a IH]; [done|]. rewrite !str_app_cons. intros [= H]. auto. Qed.

(** Keys of instances of admitted model names are distinct. *)
Lemma instanceStateKey_inj name id name' id' :
  has_char colon name = false → has_char colon name' = false →
  instanceStateKey keyPrefix name id = instanceStateKey keyPrefix name' id' → name = name' ∧ id = id'.
Proof.
  intros Hn Hn'. rewrite !instanceStateKey_unfold. intros Heq%str_app_inj_l. by apply sep_inj_l in Heq.
Qed.

Lemma glob_plain_app a b : glob_plain (a +:+ b) = glob_plain a && glob_plain b.
Proof.
  unfold glob_plain. rewrite !has_char_app.
  destruct (has_char "*" a), (has_char "?" a), (has_char "[" a), (has_char "\" a); simpl; try done;
    by rewrite ?orb_true_r, ?andb_false_r.
Qed.

(** The pattern of one model matches exactly the keys of its instances. *)
Lemma model_pattern_match `{!RedisScan} name k :
  glob_plain keyPrefix = true → glob_plain name = true →
  glob_match (redisKey keyPrefix ["models"; name; "*"]) k = true ↔ ∃ id, k = instanceStateKey keyPrefix name id.
Proof.
  intros Hp Hn.
  replace (redisKey keyPrefix ["models"; name; "*"]) with ((keyPrefix +:+ ":models:" +:+ name +:+ ":") +:+ "*")
    by (unfold redisKey; simpl; by rewrite !str_app_assoc).
  rewrite glob_match_star.
  - unfold instanceStateKey, redisKey. simpl. split; intros [t ->]; exists t; by rewrite !str_app_assoc.
  - rewrite !glob_plain_app, Hp, Hn. done.
Qed.
End keys.

(** Every key of the instance store is that of its record, under an admitted name. *)
Definition instances_wf (keyPrefix : string) (d : RedisDb) : Prop :=
  ∀ k s, db_instances d !! k = Some s →
    k = instanceStateKey keyPrefix (modelName s) (instanceId s) ∧ MODEL_NAME_PATTERN (modelName s) = true.

Section queries.
Context `{!Env, !RedisScan, !JsDate} (keyPrefix : string).

(** A read that succeeds on a pipeline that succeeds. *)
Definition reads_ok (w : World) : Prop :=
  env_fault (w_step w) = NoFault ∧ env_fault (S (w_step w)) = NoFault ∧
  env_exec_null (S (w_step w)) = false ∧ (∀ i, env_pipe_error (S (w_step w)) i = false) ∧
  ∀ d, env_interfere_db (S (w_step w)) d = d.

Lemma getStatesForPattern_run p w :
  reads_ok w →
  let d := env_interfere_db (w_step w) (w_db w) in
  ∃ rs w', getStatesForPattern p w = (inr rs, w') ∧ w_db w' = d ∧
    ∀ s, s ∈ rs ↔ ∃ k, db_instances d !! k = Some s ∧ glob_match p k = true.
Proof.
  intros (Hf & Hf' & Hn & Hp & Hi). cbn zeta.
  unfold getStatesForPattern, mbind, M_bind, scanKeys, redis_call. cbn [w_db tick]. rewrite Hf. cbn [fst snd].
  set (d := env_interfere_db (w_step w) (w_db w)).
  pose proof (scan_keys_spec (w_step w) p (map_to_list (db_instances d)).*1) as Hscan.
  destruct (scan_keys _ _ _) as [|k0 ks0] eqn:Hks.
  - eexists [], _. split; [done|]. split; [done|]. intros s. split; [set_solver|].
    intros (k & Hk & Hm). exfalso. apply (not_elem_of_nil (A := string) k). apply Hscan. split; [|done].
    apply list_elem_of_fmap. exists (k, s). split; [done|]. by apply elem_of_map_to_list.
  - unfold pipeline_get, redis_call. cbn [w_db tick log_event set_db w_step w_now w_local]. rewrite Hf', Hn, Hi.
    cbn [fst snd]. eexists _, _. split; [done|]. split; [done|]. intros s.
    rewrite list_elem_of_omap. split.
    + intros (o & Ho & Hs). unfold id in Hs. subst o. apply elem_of_lookup_imap in Ho as (i & k & Hk & Hget).
      rewrite Hp in Hk. apply list_elem_of_lookup_2 in Hget. apply Hscan in Hget as [_ Hm]. eauto.
    + intros (k & Hk & Hm). exists (Some s). split; [|done].
      assert (k ∈ k0 :: ks0) as Hin.
      { apply Hscan. split; [|done]. apply list_elem_of_fmap. exists (k, s). split; [done|]. by apply elem_of_map_to_list. }
      apply list_elem_of_lookup_1 in Hin as [i Hik]. apply elem_of_lookup_imap. exists i, k. by rewrite Hp.
Qed.

(** A model's query returns that model's instances and no other's.  For an
    admitted model name, in a store of admitted names, [getInstancesForModel]
    returns a record exactly when it is stored under a key of that model, whatever
    instance ids are in use: one model's operations never reach another's keys. *)
Theorem getInstancesForModel_exact name w :
  reads_ok w → glob_plain keyPrefix = true → MODEL_NAME_PATTERN name = true →
  let d := env_interfere_db (w_step w) (w_db w) in
  instances_wf keyPrefix d →
  ∃ rs w', getInstancesForModel keyPrefix name w = (inr rs, w') ∧ w_db w' = d ∧
    ∀ s, s ∈ rs ↔ modelName s = name ∧ db_instances d !! instanceStateKey keyPrefix name (instanceId s) = Some s.
Proof.
  intros Hok Hp Hv d Hwf.
  destruct (getStatesForPattern_run (redisKey keyPrefix ["models"; name; "*"]) w Hok) as (rs & w' & Hrun & Hdb & Hrs).
  exists rs, w'. split; [done|]. split; [done|]. intros s. rewrite Hrs. split.
  - intros (k & Hk & [id ->]%model_pattern_match); [|done|by apply valid_name_plain].
    destruct (Hwf _ _ Hk) as [Heq Hvs].
    destruct (instanceStateKey_inj keyPrefix name id (modelName s) (instanceId s)) as [-> ->]; auto using valid_name_no_colon.
  - intros [Hname Hk]. eexists. split; [exact Hk|]. apply model_pattern_match; [done|by apply valid_name_plain|eauto].
Qed.
End queries.

(** ** Creating, pruning, and the unfenced write *)
Section records.
Context `{!Env, !RedisScan, !JsDate} (keyPrefix : string).

(** Of several creations of one instance key, however they interleave with
    other work, one wins: [createInstance] stores a fresh PENDING record exactly when
    the key was free at its atomic SET NX, and otherwise reports "already exists" and
    leaves the stored record alone. *)
Theorem createInstance_exclusive name id wid proto w :
  env_fault (w_step w) = NoFault →
  let d := env_interfere_db (w_step w) (w_db w) in
  let key := instanceStateKey keyPrefix name id in
  let '(r, w') := createInstance keyPrefix name id wid proto w in
  match db_instances d !! key with
  | Some s => r = inl (CPError (modelAlreadyExists (name +:+ "/" +:+ id))) ∧ w_db w' = d
  | None => ∃ s, r = inr s ∧ w_db w' = set_instances <[key := s]> d ∧
      state s = ModelLifecycleState.PENDING ∧ instanceId s = id ∧ modelName s = name ∧ workerId s = wid ∧
      protocol s = Some (default Protocol.openai proto) ∧ runnerId s = None
  end.
Proof.
  intros Hf. cbn zeta. unfold createInstance, mbind, M_bind, date_now, gets, redis_call.
  cbn [w_db tick]. rewrite Hf. destruct (db_instances _ !! _) as [s|]; [done|].
  eexists. split; [done|]. done.
Qed.

(** What pruning may do: never to a record under a two-segment key. *)
Definition keeps_proper_keys (e : Event) : Prop :=
  match e with
  | EvRedis d d' => ∀ name id, db_instances d' !! instanceStateKey keyPrefix name id = db_instances d !! instanceStateKey keyPrefix name id
  | _ => True
  end.

Lemma legacy_pattern k : glob_plain keyPrefix = true →
  glob_match (redisKey keyPrefix ["models"; "*"]) k = true → k = (keyPrefix +:+ ":models:") +:+ legacy_rest keyPrefix k.
Proof.
  intros Hp Hm.
  replace (redisKey keyPrefix ["models"; "*"]) with ((keyPrefix +:+ ":models:") +:+ "*") in Hm
    by (unfold redisKey; simpl; by rewrite !str_app_assoc).
  apply glob_match_star in Hm as [t ->]; [|by rewrite glob_plain_app, Hp].
  unfold legacy_rest. replace (redisKey keyPrefix ["models"] +:+ ":") with (keyPrefix +:+ ":models:")
    by (unfold redisKey; simpl; by rewrite !str_app_assoc).
  by rewrite str_drop_app.
Qed.

Lemma prune_keys_guar keys removed :
  (∀ k, k ∈ keys → k = (keyPrefix +:+ ":models:") +:+ legacy_rest keyPrefix k) →
  guar keeps_proper_keys (prune_keys keyPrefix keys removed).
Proof.
  revert removed. induction keys as [|k keys IH]; intros removed Hk; simpl; [solve_preserves|].
  destruct (has_char colon (legacy_rest keyPrefix k)) eqn:Hc; [apply IH; set_solver|].
  apply (preserves_bind _ keeps_proper_keys); [|intros _; apply IH; set_solver].
  apply (preserves_redis _ keeps_proper_keys). intros d name id. simpl. apply lookup_delete_ne. intros Heq.
  rewrite (Hk k), instanceStateKey_unfold in Heq by set_solver. apply str_app_inj_l in Heq.
  rewrite Heq, has_char_app in Hc. simpl in Hc. by rewrite orb_true_r in Hc.
Qed.

(** The upgrade clean-up removes only legacy keys.  Whatever else runs,
    [pruneLegacyInstanceKeys] never deletes or changes a record stored under a
    [models:{modelName}:{instanceId}] key. *)
Theorem pruneLegacy_keeps_instances w :
  glob_plain keyPrefix = true → w_trace w = [] →
  Forall keeps_proper_keys (w_trace (pruneLegacyInstanceKeys keyPrefix w).2).
Proof.
  intros Hp Hw. assert (guar keeps_proper_keys (pruneLegacyInstanceKeys keyPrefix)) as Hg.
  { apply (preserves_scan_bind _ keeps_proper_keys); [done|]. intros ks Hks. apply prune_keys_guar. intros k Hk. auto using legacy_pattern. }
  by apply guar_run.
Qed.

(** [setRunnerEndpoint] is not atomic: if another request removes the record
    (a finished stop or delete) between its read and its write, the write puts the
    removed instance back, in the state it had before. *)
Theorem setRunnerEndpoint_resurrects name id rId host port eport s w :
  env_fault (w_step w) = NoFault → env_fault (S (w_step w)) = NoFault →
  let key := instanceStateKey keyPrefix name id in
  db_instances (env_interfere_db (w_step w) (w_db w)) !! key = Some s →
  (∀ d, env_interfere_db (S (w_step w)) d = set_instances (delete key) d) →
  ∃ w' s', setRunnerEndpoint keyPrefix name id rId host port eport w = (inr tt, w') ∧
    db_instances (w_db w') !! key = Some s' ∧ state s' = state s ∧ runnerId s' = Some rId.
Proof.
  intros Hf Hf' key Hs Hi. unfold setRunnerEndpoint, getInstance, mbind, M_bind, redis_call.
  cbn [w_db tick]. rewrite Hf. cbn [fst snd]. fold key. rewrite Hs.
  cbn [w_db tick log_event set_db w_step w_now w_local]. rewrite Hf', Hi.
  eexists _, _. split; [done|]. simpl. by rewrite lookup_insert_eq.
Qed.
End records.

(** ** The move fence *)
(** The calls that write a move record. *)
Inductive move_op :=
| MCreate (o : MoveOperation)
| MUpdate (name opId : string) (ph : option MoveOperationPhase) (err : option string)
| MRemove (name opId : string).

Section moves.
Context `{!Env, !JsDate} (keyPrefix : string).

(** One call of the service, by anybody; whether it took effect. *)
Definition run_move_op (op : move_op) : Svc bool :=
  match op with
  | MCreate o => createMoveOperation keyPrefix o
  | MUpdate name opId ph err => r ← updateMoveOperation keyPrefix name opId ph err; mret (bool_decide (is_Some r))
  | MRemove name opId => removeMoveOperation keyPrefix name opId
  end.
Definition run_move_ops (ops : list move_op) (w : World) : World := foldl (λ w op, (run_move_op op w).2) w ops.

(** The same transaction, further along. *)
Definition move_advances (o o' : MoveOperation) : Prop :=
  operationId o' = operationId o ∧ mv_modelName o' = mv_modelName o ∧
  sourceInstanceId o' = sourceInstanceId o ∧ replacementInstanceId o' = replacementInstanceId o ∧
  targetWorkerId o' = targetWorkerId o ∧ targetDeviceIndices o' = targetDeviceIndices o ∧
  rtc (λ p q, move_allowed p q = true) (phase o) (phase o').

#[global] Instance move_advances_preorder : PreOrder move_advances.
Proof.
  split; [intros o; by repeat split|]. intros o1 o2 o3 (?&?&?&?&?&?&Hp1) (?&?&?&?&?&?&Hp2).
  repeat split; try congruence. by transitivity (phase o2).
Qed.

Lemma moveKey_inj name name' : moveKey keyPrefix name = moveKey keyPrefix name' → name = name'.
Proof. unfold moveKey, redisKey. simpl. by intros Heq%str_app_inj_l%str_app_inj_l%str_app_inj_l%str_app_inj_l. Qed.

(** A Redis call has no effect, or that of its command; its answer is that of the command. *)
Lemma redis_call_effect {A} (f : RedisDb → A * RedisDb) w :
  let d := env_interfere_db (w_step w) (w_db w) in
  (w_db (redis_call f w).2 = d ∨ w_db (redis_call f w).2 = (f d).2) ∧ ∀ a, (redis_call f w).1 = inr a → a = (f d).1.
Proof.
  unfold redis_call. cbn [w_db tick]. destruct (f _) as [a d]. destruct (env_fault _); cbn; [split; [by right|]|split; [by left|]|split; [by right|]]; naive_solver.
Qed.
Definition fence (name : string) (o : MoveOperation) (d : RedisDb) : Prop :=
  ∃ o', db_moves d !! moveKey keyPrefix name = Some o' ∧ move_advances o o'.
Lemma update_move_fence name o n i ph err at_ d :
  db_moves d !! moveKey keyPrefix name = Some o → fence name o (update_move_script (moveKey keyPrefix n) i ph err at_ d).2.
Proof.
  intros Ho. unfold fence, update_move_script. destruct (db_moves d !! moveKey keyPrefix n) as [m|] eqn:Hm; [|by exists o].
  case_decide as Hi; [by exists o|].
  match goal with |- context [if ?b then _ else _] => destruct b eqn:Hph end; [by exists o|]. simpl.
  destruct (decide (n = name)) as [-> |Hne].
  - rewrite lookup_insert_eq. eexists. split; [done|]. simplify_eq. unfold apply_move_update, move_advances. simpl.
    repeat split. destruct ph as [p|]; simpl; [|done].
    rewrite andb_false_iff, negb_false_iff, bool_decide_eq_false in Hph.
    destruct Hph as [Hph|Hph]; [|by apply rtc_once]. destruct (decide (p = phase o)) as [-> |]; [done|naive_solver].
  - exists o. rewrite lookup_insert_ne; [done|]. by intros ?%moveKey_inj.
Qed.
Lemma remove_move_fence name o n i d :
  db_moves d !! moveKey keyPrefix name = Some o → MRemove n i ≠ MRemove name (operationId o) →
  fence name o (remove_move_script (moveKey keyPrefix n) i d).2.
Proof.
  intros Ho Hop. unfold fence, remove_move_script. destruct (db_moves d !! moveKey keyPrefix n) as [m|] eqn:Hm; [|by exists o].
  case_decide as Hi; [by exists o|]. simpl. destruct (decide (n = name)) as [-> |Hne].
  - exfalso. by simplify_eq.
  - exists o. rewrite lookup_delete_ne; [done|]. by intros ?%moveKey_inj.
Qed.

Section exclusion.
Context (Hmoves : ∀ n d, db_moves (env_interfere_db n d) = db_moves d).
Lemma call_fence {A} (f : RedisDb → A * RedisDb) name o w :
  db_moves (w_db w) !! moveKey keyPrefix name = Some o →
  (∀ d, db_moves d !! moveKey keyPrefix name = Some o → fence name o (f d).2) → fence name o (w_db (redis_call f w).2).
Proof.
  intros Ho Hf. destruct (redis_call_effect f w) as [[->| ->] _]; [exists o; by rewrite Hmoves|]. apply Hf. by rewrite Hmoves.
Qed.
Lemma create_refused c w o : db_moves (w_db w) !! moveKey keyPrefix (mv_modelName c) = Some o → (run_move_op (MCreate c) w).1 ≠ inr true.
Proof.
  intros Ho Hr. destruct (redis_call_effect (λ d, match db_moves d !! moveKey keyPrefix (mv_modelName c) with
    | Some _ => (false, d) | None => (true, set_moves <[moveKey keyPrefix (mv_modelName c) := c]> d) end) w) as [_ Ha].
  specialize (Ha _ Hr). rewrite Hmoves, Ho in Ha. done.
Qed.
Lemma run_move_op_keeps op w name o :
  db_moves (w_db w) !! moveKey keyPrefix name = Some o → op ≠ MRemove name (operationId o) → fence name o (w_db (run_move_op op w).2).
Proof.
  intros Ho Hop. destruct op as [c|n i ph err|n i]; simpl.
  - apply call_fence; [done|]. intros d Hd. destruct (db_moves d !! moveKey keyPrefix (mv_modelName c)) eqn:Hc; [by exists o|].
    exists o. simpl. rewrite lookup_insert_ne by congruence. done.
  - unfold updateMoveOperation, mbind, M_bind, date_now, gets. cbn.
    match goal with |- context [redis_call ?f w] => pose proof (call_fence f name o w Ho (λ d, update_move_fence name o n i ph err _ d)) as Hf; destruct (redis_call f w) as [[e|r] w1] end; exact Hf.
  - apply call_fence; [done|]. intros d Hd. by apply remove_move_fence.
Qed.

(** C29: a move is a durable mutual exclusion.  Once a move of a model is recorded, then until
    somebody asks for the removal of that operation by its id, whatever calls to create, update and remove
    move records follow, by whomever and in whatever order, and whatever commands and answers
    are lost: the record stays, keeps its operation, instances and target, its phase only
    advances along the allowed edges, and no call to create another move of the model
    succeeds.  (The service writes move records by these calls only.) *)
Theorem move_fence_exclusive ops w name o :
  db_moves (w_db w) !! moveKey keyPrefix name = Some o →
  MRemove name (operationId o) ∉ ops →
  (∃ o', db_moves (w_db (run_move_ops ops w)) !! moveKey keyPrefix name = Some o' ∧ move_advances o o') ∧
  (∀ pre c post, ops = pre ++ MCreate c :: post → mv_modelName c = name →
     (createMoveOperation keyPrefix c (run_move_ops pre w)).1 ≠ inr true).
Proof.
  intros Ho Hops.
  assert (∀ pre post, ops = pre ++ post → fence name o (w_db (run_move_ops pre w))) as Hpre.
  { intros pre. induction pre as [|op pre IH] using rev_ind; intros post Heq; [by exists o|].
    destruct (IH ([op] ++ post)) as (o1 & Ho1 & Hadv); [by rewrite Heq, <- app_assoc|].
    destruct (run_move_op_keeps op (run_move_ops pre w) name o1) as (o2 & Ho2 & Hadv2); [done| |].
    - destruct Hadv as [Hid _]. rewrite Hid. intros ->. set_solver.
    - exists o2. unfold run_move_ops. rewrite foldl_app. split; [done|]. by transitivity o1. }
  split.
  - apply (Hpre ops []). by rewrite app_nil_r.
  - intros pre c post Heq <-. destruct (Hpre pre _ Heq) as (o' & Ho' & _). by eapply (create_refused c).
Qed.
End exclusion.
End moves.

(** ** Closed examples *)
Definition ex_env : Env := quiet_env (λ _, 1) (λ _, inl "") (λ _, inl (StartNoReply "")).
Definition ex_inst (name id : string) (st : ModelLifecycleState) : InstanceState :=
  mkInstance id name st None (Some "w1") None None None None None None "0" None false.
Definition ex_db : RedisDb :=
  set_instances (λ _, <["p:models:m:a" := ex_inst "m" "a" ModelLifecycleState.ACTIVE]>
    (<["p:models:n:b" := ex_inst "n" "b" ModelLifecycleState.SLEEPING]> ∅)) empty_db.
Definition ex_world : World := mkWorld ex_db (mkLocal init_state [] ∅ init_recon no_claims []) 1000 0 [].
(** Another request removes [m]/[a] just before the second call. *)
Definition ex_env_remove : Env := {|
  env_elapsed := λ _, 1; env_interfere_local := λ _ l, l; env_fault := λ _, NoFault;
  env_interfere_db := λ n d, if decide (n = 1) then set_instances (delete "p:models:m:a") d else d;
  env_pipe_error := λ _ _, false; env_exec_null := λ _, false; env_uuid := λ _, ""; env_health := λ _, inl "";
  env_runner := λ _, None; env_start := λ _, inl (StartNoReply ""); env_lookup := λ _, inl ""; env_worker := λ _, inl "";
  env_leader := λ _, true; env_side := λ _, None; env_owner := λ _, true; env_cancelled := λ _, false;
|}.
Definition ex_move : MoveOperation :=
  mkMove "op1" "m" "a" "r" "w2" [0%Z] MoveOperationPhase.REPLACEMENT_STARTING "0" "0" None.

Lemma ex_db_wf : instances_wf "p" ex_db.
Proof.
  intros k s. unfold ex_db. simpl.
  rewrite !lookup_insert_Some, lookup_empty. intros [[<- <-]|(_ & [[<- <-]|[_ ?]])]; done.
Qed.

Lemma deriveAggregateState_set_witness :
  deriveAggregateState [ex_inst "m" "a" ModelLifecycleState.ERROR; ex_inst "m" "b" ModelLifecycleState.ACTIVE] =
  deriveAggregateState [ex_inst "m" "b" ModelLifecycleState.ACTIVE; ex_inst "m" "a" ModelLifecycleState.ERROR;
                        ex_inst "m" "b" ModelLifecycleState.ACTIVE].
Proof. apply deriveAggregateState_set. intros s. simpl. set_solver. Defined.

Lemma transition_spec_witness :
  (@transition ex_env decimal_date "p" "m" "a" ModelLifecycleState.DRAINING no_updates ex_world).1 =
  inr (apply_transition ModelLifecycleState.DRAINING no_updates "1000" (ex_inst "m" "a" ModelLifecycleState.ACTIVE)).
Proof. exact (proj1 (@transition_spec ex_env decimal_date "p" "m" "a" ModelLifecycleState.DRAINING no_updates ex_world eq_refl eq_refl)). Defined.

Lemma getInstancesForModel_witness :
  ∃ rs w', @getInstancesForModel ex_env star_scan "p" "m" ex_world = (inr rs, w') ∧ w_db w' = ex_db ∧
    ∀ s, s ∈ rs ↔ modelName s = "m" ∧ db_instances ex_db !! instanceStateKey "p" "m" (instanceId s) = Some s.
Proof.
  apply (@getInstancesForModel_exact ex_env star_scan "p" "m" ex_world); [|reflexivity|reflexivity|exact ex_db_wf].
  repeat split.
Defined.

Lemma createInstance_witness :
  (@createInstance ex_env decimal_date "p" "m" "a" None None ex_world).1 = inl (CPError (modelAlreadyExists "m/a")).
Proof. exact (proj1 (@createInstance_exclusive ex_env decimal_date "p" "m" "a" None None ex_world eq_refl)). Defined.

Lemma pruneLegacy_witness :
  Forall (keeps_proper_keys "p") (w_trace (@pruneLegacyInstanceKeys ex_env star_scan "p" ex_world).2).
Proof. by apply (@pruneLegacy_keeps_instances ex_env star_scan "p" ex_world). Defined.

Lemma setRunnerEndpoint_witness :
  ∃ w' s', @setRunnerEndpoint ex_env_remove "p" "m" "a" "r1" "h" 80 None ex_world = (inr tt, w') ∧
    db_instances (w_db w') !! "p:models:m:a" = Some s' ∧ state s' = ModelLifecycleState.ACTIVE ∧ runnerId s' = Some "r1".
Proof.
  by apply (@setRunnerEndpoint_resurrects ex_env_remove "p" "m" "a" "r1" "h" 80 None
           (ex_inst "m" "a" ModelLifecycleState.ACTIVE) ex_world).
Defined.

Lemma move_fence_witness :
  let w := set_db (set_moves <[moveKey "p" "m" := ex_move]> empty_db) ex_world in
  let ops := [MCreate ex_move; MUpdate "m" "op2" (Some MoveOperationPhase.CUTTING_OVER) None; MRemove "m" "op2"] in
  (∃ o', db_moves (w_db (@run_move_ops ex_env decimal_date "p" ops w)) !! moveKey "p" "m" = Some o' ∧ move_advances ex_move o') ∧
  (@createMoveOperation ex_env "p" ex_move w).1 = inr false.
Proof.
  intros w ops. split; [|vm_compute; reflexivity]. apply (@move_fence_exclusive ex_env decimal_date "p" ltac:(reflexivity) ops w "m" ex_move); [reflexivity|].
  unfold ops. rewrite !not_elem_of_cons. repeat split; try done. apply not_elem_of_nil.
Defined.
