(* ===== verification/RoutingMap.v ===== *)
(** * The routing map (control-plane/src/services/routing-map.ts)

    The Redis hash the proxies route by: per model its state, protocol and
    endpoints.  Every mutation is one Lua script or transaction that also publishes
    an update, so each is a function on [RedisDb].  The scripts' [encode_routing_entry]
    writes the entry as JSON with [endpoints] always an array, which the typed store
    does not distinguish. *)
From stdpp Require Import base tactics list strings gmap sets.
From Stdlib Require Import ZArith Lia Ascii.
From S2P Require Import Prelude Js Types Errors MemoryBudget Store Lifecycle.

(** ** Entries and endpoints *)
Definition at_endpoint (host : string) (port : Z) (e : RunnerEndpoint) : bool :=
  bool_decide (ep_host e = host) && Z.eqb (ep_port e) port.

Definition set_endpoints (eps : list RunnerEndpoint) (at_ : string) (r : RoutingEntry) : RoutingEntry :=
  mkEntry (re_modelName r) (re_state r) (re_protocol r) eps at_ (re_metadata r).

(** The loops that change the first endpoint at an address; [None] when there is none. *)
Fixpoint change_first (f : RunnerEndpoint → RunnerEndpoint) (host : string) (port : Z) (eps : list RunnerEndpoint) :
    option (list RunnerEndpoint) :=
  match eps with
  | [] => None
  | e :: eps' => if at_endpoint host port e then Some (f e :: eps') else cons e <$> change_first f host port eps'
  end.
Definition set_healthy (b : bool) (e : RunnerEndpoint) : RunnerEndpoint :=
  mkEndpoint (ep_host e) (ep_port e) (ep_weight e) b (ep_runnerId e).
Definition set_weight (z : Z) (e : RunnerEndpoint) : RunnerEndpoint :=
  mkEndpoint (ep_host e) (ep_port e) z (ep_healthy e) (ep_runnerId e).

(** ** The scripts *)

(** [ARGV[3]] is the protocol, [None] for the empty string. *)
Definition set_model_state_script (name : string) (st : ModelState) (proto : option Protocol) (now : string) (d : RedisDb) :
    bool * RedisDb :=
  let existed := bool_decide (is_Some (db_routing d !! name)) in
  let entry := default (mkEntry name st (default Protocol.openai proto) [] now None) (db_routing d !! name) in
  let entry' := mkEntry (re_modelName entry) st (default (re_protocol entry) proto) (re_endpoints entry) now (re_metadata entry) in
  let type := if existed then RoutingMapUpdateType.MODEL_STATE_CHANGED else RoutingMapUpdateType.MODEL_ADDED in
  (existed, publish (mkUpdate type name (Some st) None now) (set_routing <[name := entry']> d)).

Definition remove_model_script (name now : string) (d : RedisDb) : unit * RedisDb :=
  (tt, publish (mkUpdate RoutingMapUpdateType.MODEL_REMOVED name None None now) (set_routing (delete name) d)).

Definition add_endpoint_script (name : string) (ep : RunnerEndpoint) (proto : Protocol) (now : string) (d : RedisDb) :
    unit * RedisDb :=
  let entry := default (mkEntry name ModelState.STARTING proto [] now None) (db_routing d !! name) in
  let filtered := List.filter (λ e, negb (at_endpoint (ep_host ep) (ep_port ep) e)) (re_endpoints entry) in
  let entry' := mkEntry (re_modelName entry) (re_state entry) proto (filtered ++ [ep]) now (re_metadata entry) in
  (tt, publish (mkUpdate RoutingMapUpdateType.ENDPOINT_ADDED name None (Some ep) now) (set_routing <[name := entry']> d)).

Definition remove_endpoint_script (name host : string) (port : Z) (now : string) (d : RedisDb) : bool * RedisDb :=
  match db_routing d !! name with
  | None => (false, d)
  | Some entry =>
      let filtered := List.filter (λ e, negb (at_endpoint host port e)) (re_endpoints entry) in
      (true, publish (mkUpdate RoutingMapUpdateType.ENDPOINT_REMOVED name None None now)
               (set_routing <[name := set_endpoints filtered now entry]> d))
  end.

(** [updateEndpointHealth] and [updateEndpointWeight] differ in the field they set. *)
Definition change_endpoint_script (f : RunnerEndpoint → RunnerEndpoint) (name host : string) (port : Z) (now : string) (d : RedisDb) :
    bool * RedisDb :=
  match db_routing d !! name with
  | None => (false, d)
  | Some entry =>
      match change_first f host port (re_endpoints entry) with
      | None => (false, d)
      | Some eps =>
          (true, publish (mkUpdate RoutingMapUpdateType.ENDPOINT_UPDATED name None None now)
                   (set_routing <[name := set_endpoints eps now entry]> d))
      end
  end.

(** The cutover script also publishes the barrier, in the same atomic step. *)
Definition cutover_script (barrierId name host : string) (port : Z) (now : string) (d : RedisDb) : bool * RedisDb :=
  let '(changed, d') := change_endpoint_script (set_weight 0) name host port now d in
  if changed then (true, publish_barrier (barrierId, name) d') else (false, d').

(** ** The service *)

(** [Number(reply)] of a Redis string reply: a missing key is [null], and
    [Number(null)] is [0].  Presence values are decimal milliseconds. *)
Definition number_of_reply (raw : option string) : option Z :=
  match raw with None => Some 0%Z | Some text => js_Number text end.
(** [Number.isFinite(connectedAt) && connectedAt <= cutoverStartedMs] *)
Definition served_before (started : Z) (raw : option string) : bool :=
  match number_of_reply raw with Some t => Z.leb t started | None => false end.
(** [key.slice(key.lastIndexOf(':') + 1)] *)
Definition proxy_of_key (key : string) : string :=
  match last_index colon key with Some n => str_drop (S n) key | None => key end.

Section service.
Context `{!Env, !RedisScan, !JsDate} (keyPrefix : string).

Definition getRoutingMap : Svc (gmap string RoutingEntry) := redis_call (λ d, (db_routing d, d)).
Definition getEntry (name : string) : Svc (option RoutingEntry) := redis_call (λ d, (db_routing d !! name, d)).

Definition setModelState (name : string) (st : ModelState) (proto : option Protocol) : Svc unit :=
  t ← date_now;
  redis_call (set_model_state_script name st (Some (default Protocol.openai proto)) (toISOString t)) ;;
  mret tt.

Definition removeModel (name : string) : Svc unit :=
  t ← date_now; redis_call (remove_model_script name (toISOString t)).

Definition addEndpoint (name : string) (ep : RunnerEndpoint) (proto : option Protocol) : Svc unit :=
  t ← date_now; redis_call (add_endpoint_script name ep (default Protocol.openai proto) (toISOString t)).

Definition removeEndpoint (name host : string) (port : Z) : Svc unit :=
  t ← date_now; redis_call (remove_endpoint_script name host port (toISOString t)) ;; mret tt.

Definition updateEndpointHealth (name host : string) (port : Z) (healthy : bool) : Svc unit :=
  t ← date_now; redis_call (change_endpoint_script (set_healthy healthy) name host port (toISOString t)) ;; mret tt.

Definition updateEndpointWeight (name host : string) (port : Z) (weight : jsnum) : Svc bool :=
  match weight with
  | NumInt z =>
      if Z.ltb z 0 || Z.ltb 100 z then throw (CPError (invalidRequest "weight must be an integer between 0 and 100"))
      else t ← date_now; redis_call (change_endpoint_script (set_weight z) name host port (toISOString t))
  | NumOther _ => throw (CPError (invalidRequest "weight must be an integer between 0 and 100"))
  end.

Definition ROUTING_BARRIER_TIMEOUT_MS : Z := 30000.
Definition ackKey (barrierId : string) : string := redisKey keyPrefix ["routing-barrier-acks"; barrierId].

(** The proxies that were serving before the cutover, by id, with their presence keys. *)
Fixpoint required_proxies (started : Z) (keys : list string) (acc : list (string * string)) : Svc (list (string * string)) :=
  match keys with
  | [] => mret acc
  | key :: keys' =>
      raw ← redis_call (λ d, (db_presence d !! key, d));
      required_proxies started keys' (if served_before started raw then jm_set acc (proxy_of_key key) key else acc)
  end.

Fixpoint count_outstanding (started : Z) (acked : gset string) (required : list (string * string)) (n : nat) : Svc nat :=
  match required with
  | [] => mret n
  | (proxyId, presenceKey) :: required' =>
      if decide (proxyId ∈ acked) then count_outstanding started acked required' n
      else raw ← redis_call (λ d, (db_presence d !! presenceKey, d));
           count_outstanding started acked required' (if served_before started raw then S n else n)
  end.

Definition barrier_round (started : Z) (key : string) (required : list (string * string)) (_ : unit) : Svc (unit + bool) :=
  acked ← redis_call (λ d, (default ∅ (db_acks d !! key), d));
  outstanding ← count_outstanding started acked required 0;
  mret (match outstanding with O => inr true | _ => inl tt end).

Definition await_barrier (started : Z) (key : string) (required : list (string * string)) : Svc bool :=
  finally
    (poll_until ROUTING_BARRIER_TIMEOUT_MS 50 (barrier_round started key required)
       (throw (OtherError ("traffic cutover barrier timed out (" +:+ show_int (Z.of_nat (length required)) +:+
                           " serving proxy acknowledgement(s) required)"))) tt)
    (catch (redis_call (λ d, (tt, set_acks (delete key) d))) (λ _, mret tt)).

Definition cutoverEndpointAndWait (name host : string) (port : Z) : Svc bool :=
  started ← date_now;
  barrierId ← gets (λ w, env_uuid (w_step w));
  updated ← redis_call (cutover_script barrierId name host port (toISOString started));
  if (updated : bool) then
    keys ← scanKeys db_presence (redisKey keyPrefix ["proxies"; "*"]);
    required ← required_proxies started keys [];
    match required with
    | [] => mret true
    | _ => await_barrier started (ackKey barrierId) required
    end
  else mret false.
End service.

(** ** Sequences of operations, and the table they implement *)
Inductive routing_op :=
| RSetState (name : string) (st : ModelState) (proto : option Protocol) (now : string)
| RRemoveModel (name now : string)
| RAdd (name : string) (ep : RunnerEndpoint) (proto : Protocol) (now : string)
| RRemove (name host : string) (port : Z) (now : string)
| RHealth (name host : string) (port : Z) (healthy : bool) (now : string)
| RWeight (name host : string) (port weight : Z) (now : string)
| RCutover (barrierId name host : string) (port : Z) (now : string).

Definition run_routing_op (op : routing_op) (d : RedisDb) : RedisDb :=
  match op with
  | RSetState n st proto now => (set_model_state_script n st proto now d).2
  | RRemoveModel n now => (remove_model_script n now d).2
  | RAdd n ep proto now => (add_endpoint_script n ep proto now d).2
  | RRemove n h p now => (remove_endpoint_script n h p now d).2
  | RHealth n h p b now => (change_endpoint_script (set_healthy b) n h p now d).2
  | RWeight n h p z now => (change_endpoint_script (set_weight z) n h p now d).2
  | RCutover b n h p now => (cutover_script b n h p now d).2
  end.
Definition run_routing_ops (ops : list routing_op) (d : RedisDb) : RedisDb := foldl (λ d op, run_routing_op op d) d ops.

Definition op_model (op : routing_op) : string :=
  match op with
  | RSetState n _ _ _ | RRemoveModel n _ | RAdd n _ _ _ | RRemove n _ _ _ | RHealth n _ _ _ _ | RWeight n _ _ _ _
  | RCutover _ n _ _ _ => n
  end.

(** The endpoint of a model at an address. *)
Definition ep_at (d : RedisDb) (name host : string) (port : Z) : option RunnerEndpoint :=
  entry ← db_routing d !! name; find (at_endpoint host port) (re_endpoints entry).

(** The abstract routing table and its steps. *)
Definition table := string → string → Z → option RunnerEndpoint.
Definition table_step (t : table) (op : routing_op) : table := λ n h p,
  let here n' h' p' := bool_decide (n' = n) && bool_decide (h' = h) && Z.eqb p' p in
  match op with
  | RSetState _ _ _ _ => t n h p
  | RRemoveModel n' _ => if decide (n' = n) then None else t n h p
  | RAdd n' ep _ _ => if here n' (ep_host ep) (ep_port ep) then Some ep else t n h p
  | RRemove n' h' p' _ => if here n' h' p' then None else t n h p
  | RHealth n' h' p' b _ => if here n' h' p' then set_healthy b <$> t n h p else t n h p
  | RWeight n' h' p' z _ => if here n' h' p' then set_weight z <$> t n h p else t n h p
  | RCutover _ n' h' p' _ => if here n' h' p' then set_weight 0 <$> t n h p else t n h p
  end.

(** *** Endpoint lists *)
Lemma at_endpoint_spec h p e : at_endpoint h p e = true ↔ ep_host e = h ∧ ep_port e = p.
Proof. unfold at_endpoint. by rewrite andb_true_iff, bool_decide_eq_true, Z.eqb_eq. Qed.

Lemma at_endpoint_same h p h' p' e :
  at_endpoint h p e = true → at_endpoint h' p' e = bool_decide (h = h') && Z.eqb p p'.
Proof. intros [<- <-]%at_endpoint_spec. done. Qed.

Lemma find_app_list {A} (f : A → bool) l k : find f (l ++ k) = match find f l with Some x => Some x | None => find f k end.
Proof. induction l as [|x l IH]; simpl; [done|]. by destruct (f x). Qed.

Lemma find_filter_away h p h' p' l :
  find (at_endpoint h p) (List.filter (λ e, negb (at_endpoint h' p' e)) l) =
    if bool_decide (h' = h) && Z.eqb p' p then None else find (at_endpoint h p) l.
Proof.
  induction l as [|e l IH]; simpl; [by case_match|].
  destruct (at_endpoint h' p' e) eqn:He; simpl; rewrite IH.
  - rewrite (at_endpoint_same h' p' h p e He). by case_match.
  - destruct (at_endpoint h p e) eqn:He'; [|done].
    destruct (bool_decide (h' = h) && Z.eqb p' p) eqn:Hb; [|done].
    rewrite andb_true_iff, bool_decide_eq_true, Z.eqb_eq in Hb. destruct Hb as [-> ->]. congruence.
Qed.

Definition keeps_address (f : RunnerEndpoint → RunnerEndpoint) : Prop :=
  ∀ e, ep_host (f e) = ep_host e ∧ ep_port (f e) = ep_port e.
Lemma set_healthy_address b : keeps_address (set_healthy b).
Proof. done. Qed.
Lemma set_weight_address z : keeps_address (set_weight z).
Proof. done. Qed.

Lemma change_first_spec f h p l : keeps_address f →
  match change_first f h p l with
  | None => find (at_endpoint h p) l = None
  | Some l' => ∀ h' p', find (at_endpoint h' p') l' =
      if bool_decide (h = h') && Z.eqb p p' then f <$> find (at_endpoint h' p') l else find (at_endpoint h' p') l
  end.
Proof.
  intros Hf. induction l as [|e l IH]; simpl; [done|].
  assert (∀ h' p', at_endpoint h' p' (f e) = at_endpoint h' p' e) as Hfe.
  { intros h' p'. unfold at_endpoint. by destruct (Hf e) as [-> ->]. }
  destruct (at_endpoint h p e) eqn:He.
  - intros h' p'. simpl. rewrite Hfe, (at_endpoint_same h p h' p' e He).
    by destruct (bool_decide (h = h') && Z.eqb p p').
  - destruct (change_first f h p l) as [l'|]; simpl; [|done]. intros h' p'. simpl. rewrite IH.
    destruct (at_endpoint h' p' e) eqn:He'; [|done].
    destruct (bool_decide (h = h') && Z.eqb p p') eqn:Hb; [|done].
    rewrite andb_true_iff, bool_decide_eq_true, Z.eqb_eq in Hb. destruct Hb as [-> ->]. congruence.
Qed.

Lemma ep_at_insert d n e n' h p :
  ep_at (set_routing <[n := e]> d) n' h p = if decide (n = n') then find (at_endpoint h p) (re_endpoints e) else ep_at d n' h p.
Proof.
  unfold ep_at. simpl. destruct (decide (n = n')) as [-> |Hn]; [by rewrite lookup_insert_eq|by rewrite lookup_insert_ne].
Qed.

Lemma ep_at_publish u d n h p : ep_at (publish u d) n h p = ep_at d n h p.
Proof. done. Qed.
Lemma ep_at_barrier b d n h p : ep_at (publish_barrier b d) n h p = ep_at d n h p.
Proof. done. Qed.

Lemma change_endpoint_ep_at f n h p now d n' h' p' :
  keeps_address f →
  ep_at (change_endpoint_script f n h p now d).2 n' h' p' =
    if bool_decide (n = n') && bool_decide (h = h') && Z.eqb p p' then f <$> ep_at d n' h' p' else ep_at d n' h' p'.
Proof.
  intros Hf. unfold change_endpoint_script.
  assert (find (at_endpoint h p) (default [] (re_endpoints <$> db_routing d !! n)) = None →
    ep_at d n' h' p' =
    if bool_decide (n = n') && bool_decide (h = h') && Z.eqb p p' then f <$> ep_at d n' h' p' else ep_at d n' h' p') as Hnone.
  { intros Hfind. destruct (bool_decide (n = n') && bool_decide (h = h') && Z.eqb p p') eqn:Hb; [|done].
    rewrite !andb_true_iff, !bool_decide_eq_true, Z.eqb_eq in Hb. destruct Hb as [[-> ->] ->].
    unfold ep_at. destruct (db_routing d !! n'); simpl in *; [by rewrite Hfind|done]. }
  destruct (db_routing d !! n) as [e|] eqn:He; [|by apply Hnone].
  pose proof (change_first_spec f h p (re_endpoints e) Hf) as Hc.
  destruct (change_first f h p (re_endpoints e)) as [eps|]; [|by apply Hnone].
  cbn [snd]. rewrite ep_at_publish, ep_at_insert. destruct (decide (n = n')) as [-> |Hn].
  - cbn [re_endpoints set_endpoints]. rewrite Hc, (bool_decide_eq_true_2 (n' = n')) by done. unfold ep_at. by rewrite He.
  - by rewrite bool_decide_eq_false_2.
Qed.

Lemma run_routing_op_table op d n h p : ep_at (run_routing_op op d) n h p = table_step (ep_at d) op n h p.
Proof.
  destruct op as [n' st proto now|n' now|n' ep proto now|n' h' p' now|n' h' p' b now|n' h' p' z now|b n' h' p' now]; simpl.
  - rewrite ep_at_publish, ep_at_insert. unfold ep_at. destruct (decide (n' = n)) as [-> |]; [|done].
    simpl. by destruct (db_routing d !! n).
  - unfold ep_at. simpl. destruct (decide (n' = n)) as [-> |]; [by rewrite lookup_delete_eq|by rewrite lookup_delete_ne].
  - rewrite ep_at_publish, ep_at_insert. cbn [re_endpoints]. unfold ep_at.
    destruct (decide (n' = n)) as [-> |]; [|by rewrite bool_decide_eq_false_2].
    rewrite bool_decide_eq_true_2, find_app_list, find_filter_away by done. cbn [andb find].
    unfold at_endpoint. destruct (bool_decide (ep_host ep = h) && Z.eqb (ep_port ep) p); [done|].
    by destruct (db_routing d !! n); simpl; [case_match|].
  - unfold remove_endpoint_script. destruct (db_routing d !! n') as [e|] eqn:He.
    + cbn [snd]. rewrite ep_at_publish, ep_at_insert. cbn [re_endpoints set_endpoints].
      destruct (decide (n' = n)) as [-> |]; [|by rewrite bool_decide_eq_false_2].
      rewrite bool_decide_eq_true_2, find_filter_away by done. unfold ep_at. by rewrite He.
    + simpl. destruct (decide (n' = n)) as [-> |]; [|by rewrite bool_decide_eq_false_2].
      unfold ep_at. rewrite He. by case_match.
  - apply change_endpoint_ep_at, set_healthy_address.
  - apply change_endpoint_ep_at, set_weight_address.
  - unfold cutover_script.
    pose proof (change_endpoint_ep_at (set_weight 0) n' h' p' now d n h p (set_weight_address 0)) as Hc.
    destruct (change_endpoint_script _ _ _ _ _ _) as [[] d']; exact Hc.
Qed.

(** C30: the routing map implements a table from (model, address) to endpoint.
    Whatever sequence of the service's operations runs, by whoever, looking up an
    endpoint in the stored entries gives what the plain table gives: adding replaces
    the endpoint at its address and nothing else, removing removes it, health, weight
    and cutover change one field of the one endpoint addressed (and nothing when it is
    absent), a state refresh changes no endpoint, and removing a model removes all of
    its endpoints. *)
Theorem routing_refines_table ops d n h p :
  ep_at (run_routing_ops ops d) n h p = foldl table_step (ep_at d) ops n h p.
Proof.
  unfold run_routing_ops. revert d. induction ops as [|op ops IH]; intros d; simpl; [done|]. rewrite IH.
  assert (∀ t t' : table, (∀ n h p, t n h p = t' n h p) → ∀ ops n h p, foldl table_step t ops n h p = foldl table_step t' ops n h p) as Hext.
  { clear. intros t t' Ht ops. revert t t' Ht. induction ops as [|op ops IH]; intros t t' Ht n h p; simpl; [done|].
    apply IH. intros n' h' p'. unfold table_step. destruct op; by rewrite !Ht. }
  apply Hext. intros. apply run_routing_op_table.
Qed.

(** *** Well-formed entries *)
Definition address (e : RunnerEndpoint) : string * Z := (ep_host e, ep_port e).
Definition entry_wf (name : string) (e : RoutingEntry) : Prop :=
  re_modelName e = name ∧ NoDup (address <$> re_endpoints e).
Definition routing_wf (d : RedisDb) : Prop := ∀ n e, db_routing d !! n = Some e → entry_wf n e.

Lemma routing_wf_insert d n e : routing_wf d → entry_wf n e → routing_wf (set_routing <[n := e]> d).
Proof. intros Hd He n' e'. simpl. rewrite lookup_insert_Some. intros [[-> ->]|[_ ?]]; eauto. Qed.

Lemma filter_address_NoDup f l : NoDup (address <$> l) → NoDup (address <$> List.filter f l).
Proof. intros Hl. apply (sublist_NoDup _ _ Hl). apply fmap_sublist, filter_bool_sublist. Qed.

Lemma change_first_address f h p l l' : keeps_address f → change_first f h p l = Some l' → address <$> l' = address <$> l.
Proof.
  intros Hf. revert l'. induction l as [|e l IH]; intros l'; simpl; [done|]. case_match.
  - intros [= <-]. csimpl. unfold address at 1 3. by destruct (Hf e) as [-> ->].
  - destruct (change_first f h p l); [|done]. intros [= <-]. csimpl. by rewrite (IH l0).
Qed.

Lemma run_routing_op_wf op d : routing_wf d → routing_wf (run_routing_op op d).
Proof.
  assert (∀ f n h p now d, keeps_address f → routing_wf d → routing_wf (change_endpoint_script f n h p now d).2) as Hchange.
  { intros f n h p now d0 Hf Hd. unfold change_endpoint_script. destruct (db_routing d0 !! n) as [e|] eqn:He; [|done].
    destruct (change_first f h p (re_endpoints e)) as [eps|] eqn:Hc; [|done].
    apply (routing_wf_insert d0); [done|]. destruct (Hd _ _ He). split; [done|]. simpl.
    by rewrite (change_first_address f h p _ _ Hf Hc). }
  intros Hd. destruct op as [n st proto now|n now|n ep proto now|n h p now|n h p b now|n h p z now|b n h p now]; simpl.
  - apply (routing_wf_insert d); [done|]. destruct (db_routing d !! n) as [e|] eqn:He; simpl.
    + destruct (Hd _ _ He). by split.
    + split; [done|]. constructor.
  - intros n' e'. simpl. rewrite lookup_delete_Some. intros [_ ?]. eauto.
  - apply (routing_wf_insert d); [done|]. split; simpl.
    { destruct (db_routing d !! n) as [e|] eqn:He; simpl; [|done]. by destruct (Hd _ _ He). }
    rewrite fmap_app. apply NoDup_app. split_and!; [| |apply NoDup_singleton].
    + apply filter_address_NoDup. destruct (db_routing d !! n) as [e|] eqn:He; simpl; [|constructor]. by destruct (Hd _ _ He).
    + intros a (e & -> & [_ He]%list_elem_of_In%filter_In)%list_elem_of_fmap. simpl. rewrite list_elem_of_singleton.
      intros [= Hh Hp]. rewrite negb_true_iff in He. apply not_true_iff_false in He. apply He. by apply at_endpoint_spec.
  - unfold remove_endpoint_script. destruct (db_routing d !! n) as [e|] eqn:He; [|done].
    apply (routing_wf_insert d); [done|]. destruct (Hd _ _ He). split; [done|]. by apply filter_address_NoDup.
  - by apply Hchange.
  - by apply Hchange.
  - unfold cutover_script. pose proof (Hchange (set_weight 0) n h p now d (set_weight_address 0) Hd) as Hc.
    by destruct (change_endpoint_script _ _ _ _ _ _) as [[] d'].
Qed.

(** From an empty routing map every sequence of operations leaves, under each
    model's field, that model's entry with at most one endpoint per (host, port): a
    runner is never listed, and so never weighted, twice. *)
Theorem routing_reachable_wf ops n e :
  db_routing (run_routing_ops ops empty_db) !! n = Some e →
  re_modelName e = n ∧ NoDup (address <$> re_endpoints e).
Proof.
  assert (∀ d, routing_wf d → routing_wf (run_routing_ops ops d)) as Hrun.
  { unfold run_routing_ops. induction ops as [|op ops IH]; intros d Hd; simpl; [done|]. by apply IH, run_routing_op_wf. }
  apply Hrun. intros n' e'. simpl. by rewrite lookup_empty.
Qed.

Lemma run_routing_op_instances op d : db_instances (run_routing_op op d) = db_instances d.
Proof.
  destruct op; simpl; try done;
    unfold remove_endpoint_script, cutover_script, change_endpoint_script; by repeat case_match; simplify_eq.
Qed.

(** The proxies hear of every change.  Each operation either leaves Redis as
    it was, or publishes exactly one update, for the model it is about, changes no other
    model's entry, and touches neither instance nor move records. *)
Theorem routing_op_published op d :
  let d' := run_routing_op op d in
  d' = d ∨
  (∃ u, db_updates d' = db_updates d ++ [u] ∧ up_modelName u = op_model op) ∧
  (∀ n, n ≠ op_model op → db_routing d' !! n = db_routing d !! n) ∧
  db_instances d' = db_instances d ∧ db_moves d' = db_moves d.
Proof.
  destruct op as [n st proto now|n now|n ep proto now|n h p now|n h p b now|n h p z now|b n h p now]; simpl;
    unfold remove_endpoint_script, cutover_script, change_endpoint_script;
    repeat case_match; simplify_eq/=; try (by left); right;
    (split; [by eexists|split; [|done]]); intros n' Hn'; by rewrite ?lookup_insert_ne, ?lookup_delete_ne by done.
Qed.

(** A state refresh that names no protocol does not keep the stored one: it
    makes the entry an OpenAI one. *)
Theorem setModelState_resets_protocol `{!Env, !JsDate} n st e w :
  env_fault (w_step w) = NoFault →
  db_routing (env_interfere_db (w_step w) (w_db w)) !! n = Some e →
  ∃ w' e', setModelState n st None w = (inr tt, w') ∧ db_routing (w_db w') !! n = Some e' ∧
    re_protocol e' = Protocol.openai ∧ re_endpoints e' = re_endpoints e ∧ re_state e' = st.
Proof.
  intros Hf He. unfold setModelState, mbind, M_bind, date_now, gets, redis_call. cbn [w_db tick]. rewrite Hf.
  unfold set_model_state_script. rewrite He. eexists _, _. split; [done|]. simpl. by rewrite lookup_insert_eq.
Qed.

(** ** The cutover barrier *)

(** Some command of the trace saw a database satisfying [P]. *)
Definition saw (P : RedisDb → Prop) (l : list Event) : Prop := ∃ d d', EvRedis d d' ∈ l ∧ P d.

Lemma saw_grows P w w' : trace_grows w w' → saw P (w_trace w) → saw P (w_trace w').
Proof. intros [[l Hl] _] (d & d' & Hin & HP). exists d, d'. rewrite Hl. set_solver. Qed.

Lemma grows_elem w w' e : trace_grows w w' → e ∈ w_trace w → e ∈ w_trace w'.
Proof. intros [[l Hl] _] He. rewrite Hl. set_solver. Qed.

Section barrier.
Context `{!Env, !RedisScan, !JsDate} (keyPrefix : string).

Lemma redis_saw {A} (f : RedisDb → A * RedisDb) w a w' :
  redis_call f w = (inr a, w') → saw (λ d, a = (f d).1) (w_trace w').
Proof.
  intros [-> ->]%redis_returned. eexists _, _. split; [|done]. apply elem_of_app. right. by apply list_elem_of_singleton.
Qed.

Lemma count_outstanding_grows started acked required n : grows (count_outstanding started acked required n).
Proof.
  revert n. induction required as [|[p k] l IH]; intros n; simpl; [solve_preserves|].
  case_decide; [done|]. apply (preserves_bind _ any_event); [solve_preserves|]. auto.
Qed.

Lemma count_outstanding_returned started acked required n w m w' :
  count_outstanding started acked required n w = (inr m, w') →
  n ≤ m ∧ (m = 0 → ∀ p k, (p, k) ∈ required →
    p ∈ acked ∨ saw (λ d, served_before started (db_presence d !! k) = false) (w_trace w')).
Proof.
  revert n w. induction required as [|[p k] l IH]; intros n w; cbn [count_outstanding].
  { intros [= -> <-]. split; [done|]. intros _ p k ?%elem_of_nil. done. }
  destruct (decide (p ∈ acked)) as [Hp|Hp].
  { intros [Hle Hm]%IH. split; [done|]. intros Hm0 p' k' [[= -> ->]|Hin]%elem_of_cons; eauto. }
  intros (raw & w1 & Hraw & Hrun)%bind_returned.
  pose proof (count_outstanding_grows started acked l (if served_before started raw then S n else n) w1) as Hg.
  rewrite Hrun in Hg. apply IH in Hrun as [Hle Hm]. split; [case_match; lia|].
  intros Hm0 p' k' [[= -> ->]|Hin]%elem_of_cons; [|by eauto].
  right. apply redis_saw in Hraw. apply (saw_grows _ _ _ Hg). destruct Hraw as (d & d' & Hev & ->).
  exists d, d'. split; [done|]. cbn [fst] in Hle. destruct (served_before started _) eqn:Hs; [lia|done].
Qed.

Lemma barrier_round_grows started key required u : grows (barrier_round started key required u).
Proof. pose proof count_outstanding_grows. unfold barrier_round. solve_preserves. Qed.

Lemma await_barrier_grows started key required : grows (await_barrier started key required).
Proof. pose proof barrier_round_grows. unfold await_barrier. solve_preserves. Qed.

Lemma count_outstanding_total started acked required n : total (count_outstanding started acked required n).
Proof.
  revert n. induction required as [|[p k] l IH]; intros n; simpl; [solve_total|].
  case_decide; [done|]. apply total_bind; [solve_total|]. auto.
Qed.

Lemma await_barrier_total started key required : total (await_barrier started key required).
Proof.
  pose proof count_outstanding_total. pose proof barrier_round_grows. unfold await_barrier.
  apply total_finally; [|solve_total]. apply total_poll_until; [done| |done|solve_total].
  intros u. unfold barrier_round. solve_total.
Qed.

(** What a returning barrier has seen of every proxy it waited for. *)
Lemma await_barrier_returned started key required w b w' :
  await_barrier started key required w = (inr b, w') →
  b = true ∧ ∀ p k, (p, k) ∈ required →
    saw (λ d, p ∈ default ∅ (db_acks d !! key)) (w_trace w') ∨
    saw (λ d, served_before started (db_presence d !! k) = false) (w_trace w').
Proof.
  intros (w1 & Hpoll & Hfin)%finally_returned.
  assert (trace_grows w1 w') as Hg.
  { replace w' with ((inr tt, w') : (Exn + unit) * World).2 by done. rewrite <- Hfin.
    apply (preserves_catch _ any_event); solve_preserves. }
  revert Hg. pattern b, w1. eapply poll_until_returned; [..|exact Hpoll]; cbn beta.
  - intros [] w0 b' w2 (acked & w3 & Hack & Hrun)%bind_returned Hg2.
    apply bind_returned in Hrun as (n & w4 & Hcount & Hret).
    destruct n as [|n]; [|done]. injection Hret as <- <-. split; [done|]. intros p k Hin.
    pose proof (count_outstanding_grows started acked required 0 w3) as Hg3. rewrite Hcount in Hg3.
    apply redis_saw in Hack as (d & d' & Hd & ->).
    apply count_outstanding_returned in Hcount as [_ Hc]. destruct (Hc eq_refl p k Hin) as [Hp|Hs].
    + left. apply (saw_grows _ w3); [by transitivity w4|]. exists d, d'. split; [done|exact Hp].
    + right. by apply (saw_grows _ w4).
  - done.
Qed.

Definition proxyKey (p : string) : string := redisKey keyPrefix ["proxies"; p].
Definition proxy_key_wf (k : string) : Prop := ∃ p, k = proxyKey p ∧ has_char colon p = false.

Lemma proxyKey_unfold p : proxyKey p = (keyPrefix +:+ ":proxies") +:+ String colon p.
Proof. unfold proxyKey, redisKey. simpl. by rewrite str_app_assoc. Qed.

Lemma proxy_of_proxyKey p : has_char colon p = false → proxy_of_key (proxyKey p) = p.
Proof.
  intros Hp. unfold proxy_of_key. rewrite proxyKey_unfold, last_index_app by done.
  induction (keyPrefix +:+ ":proxies") as [|a s IH]; [done|]. rewrite str_app_cons. exact IH.
Qed.

(** [p] was connected when the cutover started, as far as [d] shows. *)
Definition connected_since (started : Z) (p : string) (d : RedisDb) : Prop :=
  ∃ text t, db_presence d !! proxyKey p = Some text ∧ js_Number text = Some t ∧ (t ≤ started)%Z.

Lemma connected_served started p d : connected_since started p d → served_before started (db_presence d !! proxyKey p) = true.
Proof. intros (text & t & -> & Ht & Hle). unfold served_before. simpl. rewrite Ht. by apply Z.leb_le. Qed.

Lemma required_proxies_grows started keys acc : grows (required_proxies started keys acc).
Proof.
  revert acc. induction keys as [|k keys IH]; intros acc; simpl; [solve_preserves|].
  apply (preserves_bind _ any_event); [solve_preserves|]. auto.
Qed.

Lemma required_proxies_returned started keys acc w req w' p :
  required_proxies started keys acc w = (inr req, w') →
  has_char colon p = false → (∀ k, k ∈ keys → proxy_key_wf k) →
  (∀ d d', EvRedis d d' ∈ w_trace w' → connected_since started p d) →
  proxyKey p ∈ keys ∨ jm_get acc p = Some (proxyKey p) → (p, proxyKey p) ∈ req.
Proof.
  intros Hrun Hp. revert acc w Hrun. induction keys as [|k keys IH]; intros acc w Hrun Hwf Hconn Hin.
  { injection Hrun as -> _. destruct Hin as [?%elem_of_nil|Hget]; [done|]. by apply jm_get_elem_of. }
  cbn [required_proxies] in Hrun. apply bind_returned in Hrun as (raw & w1 & Hraw & Hrun).
  eapply IH; [exact Hrun|set_solver|done|].
  destruct (Hwf k) as (q & -> & Hq); [set_solver|]. rewrite proxy_of_proxyKey by done.
  destruct (decide (q = p)) as [-> |Hne].
  - right. pose proof (required_proxies_grows started keys (if served_before started raw then jm_set acc (proxy_of_key (proxyKey p)) (proxyKey p) else acc) w1) as [[l Hl] _].
    rewrite Hrun in Hl. apply redis_saw in Hraw as (d & d' & Hd & ->).
    cbn [fst]. rewrite connected_served; [by rewrite jm_get_set_eq|].
    apply (Hconn d d'). cbn [snd] in Hl. rewrite Hl. set_solver.
  - destruct Hin as [[Heq|Hin]%elem_of_cons|Hget]; [|by left|].
    + exfalso. apply Hne. by rewrite <- (proxy_of_proxyKey q), <- Heq, proxy_of_proxyKey.
    + right. case_match; [|done]. by rewrite jm_get_set_ne.
Qed.

Lemma cutover_script_weight b n h p now d : (cutover_script b n h p now d).1 = true →
  ∃ e, ep_at (cutover_script b n h p now d).2 n h p = Some e ∧ ep_weight e = 0%Z.
Proof.
  intros Hc. change ((cutover_script b n h p now d).2) with (run_routing_op (RCutover b n h p now) d).
  rewrite run_routing_op_table. simpl. rewrite !bool_decide_eq_true_2, Z.eqb_refl by done. simpl.
  unfold cutover_script, change_endpoint_script in Hc. unfold ep_at.
  destruct (db_routing d !! n) as [e|]; [|done].
  pose proof (change_first_spec (set_weight 0) h p (re_endpoints e) (set_weight_address 0)) as Hs. simpl.
  destruct (change_first _ _ _ _) as [eps|] eqn:Hcf; [|done]. clear Hs Hc. revert eps Hcf.
  induction (re_endpoints e) as [|x l IH]; intros eps; simpl; [done|]. case_match; [by eexists|].
  destruct (change_first (set_weight 0) h p l); [|done]. intros _. by eapply IH.
Qed.

(** C3: a traffic cutover that reports success is complete.  When
    [cutoverEndpointAndWait] returns [true], whatever ran alongside it, its script set
    the endpoint's weight to 0 and every proxy that was connected before the cutover
    and stayed connected during the call has acknowledged this cutover's barrier: no
    proxy can still be sending requests admitted under the old route.  (Proxy ids
    contain no colon, as the presence keys' format requires.) *)
Theorem cutover_sound name host port w w' :
  w_trace w = [] → glob_plain keyPrefix = true →
  cutoverEndpointAndWait keyPrefix name host port w = (inr true, w') →
  (∀ d d' k, EvRedis d d' ∈ w_trace w' → is_Some (db_presence d !! k) → proxy_key_wf k) →
  (∃ d d' e, EvRedis d d' ∈ w_trace w' ∧ ep_at d' name host port = Some e ∧ ep_weight e = 0%Z) ∧
  ∀ p, has_char colon p = false →
    (∀ d d', EvRedis d d' ∈ w_trace w' → connected_since (w_now w) p d) →
    saw (λ d, p ∈ default ∅ (db_acks d !! ackKey keyPrefix (env_uuid (w_step w)))) (w_trace w').
Proof.
  intros Hw Hpre Hrun Hwf. unfold cutoverEndpointAndWait in Hrun.
  apply bind_returned in Hrun as (started & w1 & [= <- <-] & Hrun).
  apply bind_returned in Hrun as (bid & w1 & [= <- <-] & Hrun).
  apply bind_returned in Hrun as (updated & w1 & Hscript & Hrun).
  destruct updated; [|done]. apply bind_returned in Hrun as (keys & w2 & Hscan & Hrun).
  apply bind_returned in Hrun as (required & w3 & Hreq & Hrun).
  assert (trace_grows w1 w2) as Hg12.
  { pose proof (preserves_scan trace_grows any_event db_presence (redisKey keyPrefix ["proxies"; "*"]) (λ d, any_event_ok _) w1) as Hg.
    by rewrite Hscan in Hg. }
  assert (trace_grows w2 w3) as Hg23.
  { pose proof (required_proxies_grows (w_now w) keys [] w2) as Hg. by rewrite Hreq in Hg. }
  assert (trace_grows w3 w') as Hg34.
  { destruct required as [|r rs]; [injection Hrun as <-; reflexivity|].
    pose proof (await_barrier_grows (w_now w) (ackKey keyPrefix (env_uuid (w_step w))) (r :: rs) w3) as Hg.
    by rewrite Hrun in Hg. }
  assert (∀ e, e ∈ w_trace w1 → e ∈ w_trace w') as Hin1 by (intros; eapply grows_elem; [|done]; by do 2 (etransitivity; [done|])).
  assert (∀ e, e ∈ w_trace w2 → e ∈ w_trace w') as Hin2 by (intros; eapply grows_elem; [|done]; by etransitivity).
  assert (∀ e, e ∈ w_trace w3 → e ∈ w_trace w') as Hin3 by (intros; by eapply grows_elem).
  split.
  - apply redis_returned in Hscript as [Hchg ->].
    destruct (cutover_script_weight (env_uuid (w_step w)) name host port (toISOString (w_now w)) (w_db (tick w))) as (e & He & Hz); [done|].
    eexists _, _, e. split; [|done]. apply Hin1. simpl. rewrite elem_of_app, list_elem_of_singleton. by right.
  - intros p Hp Hconn. apply scan_returned in Hscan as [Hkeys Hw2].
    assert (EvRedis (w_db (tick w1)) (w_db (tick w1)) ∈ w_trace w') as Hev.
    { apply Hin2. rewrite Hw2. simpl. rewrite elem_of_app, list_elem_of_singleton. by right. }
    assert ((p, proxyKey p) ∈ required) as Hmem.
    { eapply required_proxies_returned; [exact Hreq|done|..].
      - intros k Hk. rewrite Hkeys in Hk. apply scan_keys_spec in Hk as [Hk _].
        apply list_elem_of_fmap in Hk as ([k' text] & -> & Hk%elem_of_map_to_list). eapply Hwf; [exact Hev|by eexists].
      - intros d d' Hd. eapply Hconn, Hin3, Hd.
      - left. destruct (Hconn _ _ Hev) as (text & t & Htext & _ & _). rewrite Hkeys. apply scan_keys_spec. split.
        + apply list_elem_of_fmap. exists (proxyKey p, text). split; [done|]. by apply elem_of_map_to_list.
        + replace (redisKey keyPrefix ["proxies"; "*"]) with ((keyPrefix +:+ ":proxies:") +:+ "*")
            by (unfold redisKey; simpl; by rewrite !str_app_assoc).
          apply glob_match_star; [by rewrite glob_plain_app, Hpre|].
          exists p. rewrite proxyKey_unfold. by rewrite !str_app_assoc. }
    destruct required as [|r rs]; [by apply elem_of_nil in Hmem|].
    apply await_barrier_returned in Hrun as [_ Hb]. destruct (Hb p (proxyKey p) Hmem) as [?|(d & d' & Hd & Hs)]; [done|].
    rewrite connected_served in Hs; [done|]. eapply Hconn, Hd.
Qed.

(** A proxy that disappears blocks the barrier.  If a proxy the barrier waits
    for never acknowledges and its presence key is gone (its lease expired), the wait
    does not succeed: every run of it ends in an error, never in [true], because
    [Number(null)] is [0], which counts as connected before the cutover. *)
Theorem barrier_blocked_by_expired_proxy started key required p k w :
  w_trace w = [] → (0 ≤ started)%Z → (p, k) ∈ required →
  let '(r, w') := await_barrier started key required w in
  (∀ d d', EvRedis d d' ∈ w_trace w' → p ∉ default ∅ (db_acks d !! key) ∧ db_presence d !! k = None) →
  ∃ e, r = inl e ∧ e ≠ OutOfFuel.
Proof.
  intros Hw Hst Hin. destruct (await_barrier started key required w) as [[e|b] w'] eqn:Hrun; intros Hgone.
  - exists e. split; [done|]. intros ->. apply (await_barrier_total started key required w). by rewrite Hrun.
  - exfalso. apply await_barrier_returned in Hrun as [_ Hb].
    destruct (Hb p k Hin) as [(d & d' & Hd & Hp)|(d & d' & Hd & Hs)]; destruct (Hgone d d' Hd) as [Hna Hno]; [done|].
    rewrite Hno in Hs. unfold served_before in Hs. simpl in Hs. apply Z.leb_gt in Hs. lia.
Qed.
End barrier.

(** ** Closed examples *)
Definition ex_ep : RunnerEndpoint := mkEndpoint "h" 80 1 true (Some "r1").
Definition ex_entry : RoutingEntry := mkEntry "m" ModelState.ACTIVE Protocol.oip [ex_ep] "0" None.
(** One proxy, connected at 500, which has acknowledged the barrier the example draws. *)
Definition ex_routing_db : RedisDb :=
  mkDb ∅ ∅ ∅ {["m" := ex_entry]} [] [] {["p:proxies:x" := "500"]} {["p:routing-barrier-acks:0" := {["x"]}]}.
Definition ex_routing_world : World := mkWorld ex_routing_db (mkLocal init_state [] ∅ init_recon no_claims []) 1000 0 [].
Definition slow_env : Env := quiet_env (λ _, 20000) (λ _, inl "") (λ _, inl (StartNoReply "")).

(** Every command of the trace saw these presence keys and acknowledgements. *)
Definition saw_only (presence : gmap string string) (acks : gmap string (gset string)) (e : Event) : bool :=
  match e with EvRedis d _ => bool_decide (db_presence d = presence) && bool_decide (db_acks d = acks) | _ => true end.
Lemma saw_only_spec presence acks l d d' :
  forallb (saw_only presence acks) l = true → EvRedis d d' ∈ l → db_presence d = presence ∧ db_acks d = acks.
Proof.
  rewrite forallb_forall. intros Hl Hd%list_elem_of_In. apply Hl in Hd. simpl in Hd.
  by rewrite andb_true_iff, !bool_decide_eq_true in Hd.
Qed.

Lemma routing_reachable_witness :
  NoDup (address <$> [mkEndpoint "h" 80 5 true None]).
Proof.
  apply (routing_reachable_wf [RAdd "m" ex_ep Protocol.oip "1"; RAdd "m" (mkEndpoint "h" 80 5 true None) Protocol.oip "2"] "m"
    (mkEntry "m" ModelState.STARTING Protocol.oip [mkEndpoint "h" 80 5 true None] "2" None)).
  vm_compute. reflexivity.
Defined.

Lemma setModelState_witness :
  ∃ w' e', @setModelState ex_env decimal_date "m" ModelState.SLEEPING None ex_routing_world = (inr tt, w') ∧
    db_routing (w_db w') !! "m" = Some e' ∧ re_protocol e' = Protocol.openai ∧ re_endpoints e' = [ex_ep] ∧ re_state e' = ModelState.SLEEPING.
Proof.
  apply (@setModelState_resets_protocol ex_env decimal_date "m" ModelState.SLEEPING ex_entry ex_routing_world); vm_compute; reflexivity.
Defined.

Lemma cutover_witness :
  let w' := (@cutoverEndpointAndWait ex_env star_scan decimal_date "p" "m" "h" 80 ex_routing_world).2 in
  saw (λ d, "x" ∈ default ∅ (db_acks d !! "p:routing-barrier-acks:0")) (w_trace w').
Proof.
  intros w'.
  assert (forallb (saw_only (db_presence ex_routing_db) (db_acks ex_routing_db)) (w_trace w') = true) as Htrace
    by (vm_compute; reflexivity).
  assert (∀ d d', EvRedis d d' ∈ w_trace w' → db_presence d = db_presence ex_routing_db) as Hp.
  { intros d d' Hd. by destruct (saw_only_spec _ _ _ d d' Htrace Hd). }
  clear Htrace. apply (@cutover_sound ex_env star_scan decimal_date "p" "m" "h" 80 ex_routing_world w' eq_refl eq_refl).
  - vm_compute. reflexivity.
  - intros d d' k Hd. rewrite (Hp d d' Hd). simpl. intros [v Hv]. apply lookup_singleton_Some in Hv as [<- _]. exists "x". split; reflexivity.
  - reflexivity.
  - intros d d' Hd. exists "500", 500%Z. rewrite (Hp d d' Hd). split; [reflexivity|]. split; [reflexivity|]. intros Heq. discriminate Heq.
Defined.

Lemma barrier_blocked_witness :
  ∃ e, (@await_barrier slow_env 1000 "k" [("x", "p:proxies:x")] (mkWorld empty_db (mkLocal init_state [] ∅ init_recon no_claims []) 1000 0 [])).1 = inl e ∧ e ≠ OutOfFuel.
Proof.
  pose (w := mkWorld empty_db (mkLocal init_state [] ∅ init_recon no_claims []) 1000 0 []).
  assert (forallb (saw_only ∅ ∅) (w_trace (@await_barrier slow_env 1000 "k" [("x", "p:proxies:x")] w).2) = true) as Htrace
    by (vm_compute; reflexivity).
  pose proof (@barrier_blocked_by_expired_proxy slow_env 1000 "k" [("x", "p:proxies:x")] "x" "p:proxies:x" w eq_refl) as Hb.
  fold w. destruct (@await_barrier slow_env 1000 "k" [("x", "p:proxies:x")] w) as [r w'] eqn:Hrun. apply Hb; [done|by apply list_elem_of_singleton|].
  intros d d' Hd. destruct (saw_only_spec _ _ _ d d' Htrace Hd) as [-> ->]. split; [|done]. rewrite lookup_empty. apply not_elem_of_empty.
Defined.
