(* ===== verification/SleepWake.v ===== *)
(** * Sleep, wake and stop (control-plane/src/services/sleep-wake.ts)

    The three operations that take a running instance through its lifecycle, with
    the polling of the runner's health between their steps, and the recomputation of
    a model's routing state from its instances. *)
From stdpp Require Import base tactics list strings gmap sets.
From Stdlib Require Import ZArith Lia Ascii.
From S2P Require Import Prelude Js Types Errors MemoryBudget WorkerPool Store ModelName Lifecycle RoutingMap.

Definition toRoutingState (s : ModelLifecycleState) : option ModelState :=
  match s with
  | ModelLifecycleState.STARTING => Some ModelState.STARTING
  | ModelLifecycleState.ACTIVE => Some ModelState.ACTIVE
  | ModelLifecycleState.DRAINING => Some ModelState.DRAINING
  | ModelLifecycleState.SLEEPING => Some ModelState.SLEEPING
  | ModelLifecycleState.ERROR => Some ModelState.ERROR
  | _ => None
  end.

(** [instances.find((i) => i.protocol)?.protocol ?? Protocol.openai] *)
Definition protocol_of (instances : list InstanceState) : Protocol :=
  match find (λ i, bool_decide (is_Some (protocol i))) instances with
  | Some i => default Protocol.openai (protocol i)
  | None => Protocol.openai
  end.

Record RunnerHealthResult := mkResult {
  hr_state : RunnerState;
  hr_activeRequests : option Z;
  hr_message : option string;
}.

(** The address an instance's endpoint was registered under. *)
Definition endpoint_address (s : InstanceState) : option (string * Z) :=
  if truthy_str (runnerHost s) && truthy_num (runnerPort s) then
    host ← runnerHost s; port ← runnerPort s; Some (host, default port (runnerEnginePort s))
  else None.

Definition MAX_CONSECUTIVE_HEALTH_FAILURES : nat := 3.

Definition unreachable_error (name id : string) (msg : option string) : ControlPlaneError :=
  mkCPError 502 RUNNER_UNAVAILABLE
    ("Runner for instance " +:+ id +:+ " (" +:+ name +:+ ") became unreachable during drain: " +:+ default "health check failed" msg).
Definition drain_timeout (timeoutMs : Z) (name id : string) : ControlPlaneError :=
  mkCPError 504 RUNNER_TIMEOUT
    ("Drain timed out after " +:+ show_int timeoutMs +:+ "ms for instance " +:+ id +:+ " (" +:+ name +:+ ")").
Definition wake_error (name id : string) (msg : option string) : ControlPlaneError :=
  mkCPError 502 RUNNER_UNAVAILABLE
    ("Runner entered ERROR state while waking instance " +:+ id +:+ " (" +:+ name +:+ "): " +:+ default "unknown" msg).
Definition wake_timeout (timeoutMs : Z) (name id : string) : ControlPlaneError :=
  mkCPError 504 RUNNER_TIMEOUT
    ("Wake timed out after " +:+ show_int timeoutMs +:+ "ms for instance " +:+ id +:+ " (" +:+ name +:+ ")").

Section service.
Context `{!Env, !RedisScan, !JsDate} (keyPrefix : string).
Context (sleepTimeoutMs wakeTimeoutMs healthCheckIntervalMs : Z).

Definition refreshModelRoutingState (name : string) : Svc unit :=
  instances ← getInstancesForModel keyPrefix name;
  match toRoutingState (deriveAggregateState instances) with
  | Some rs => setModelState name rs (Some (protocol_of instances))
  | None => removeModel name
  end.

(** Best effort: whatever it throws is swallowed. *)
Definition transitionToError (name id msg : string) : Svc unit :=
  catch
    (transition keyPrefix name id ModelLifecycleState.ERROR (error_update msg) ;;
     refreshModelRoutingState name)
    (λ _, mret tt).

Definition pollRunnerHealth (name id : string) : Svc RunnerHealthResult :=
  catch
    (health ← getHealth;
     inst ← getInstance keyPrefix name id;
     when (bool_decide (is_Some inst) && bool_decide (h_state health = RunnerState.ERROR))
       (transitionToError name id (default "Runner reported ERROR state during health check" (h_message health))) ;;
     mret (mkResult (h_state health) (h_activeRequests health) (h_message health)))
    (λ e, mret (mkResult RunnerState.ERROR None (Some (err_message e)))).

(** One round of the drain loop; the state is [consecutiveFailures]. *)
Definition drain_round (name id : string) (failures : nat) : Svc (nat + unit) :=
  result ← pollRunnerHealth name id;
  let failures' := if decide (hr_state result = RunnerState.ERROR) then S failures else 0 in
  if decide (hr_state result = RunnerState.ERROR ∧ MAX_CONSECUTIVE_HEALTH_FAILURES ≤ failures') then
    throw (CPError (unreachable_error name id (hr_message result)))
  else if decide (hr_activeRequests result = Some 0%Z) then mret (inr tt)
  else mret (inl failures').

Definition waitForDrain (name id : string) : Svc unit :=
  poll_until sleepTimeoutMs healthCheckIntervalMs (drain_round name id)
    (throw (CPError (drain_timeout sleepTimeoutMs name id))) 0.

Definition ready_round (name id : string) (_ : unit) : Svc (unit + unit) :=
  result ← pollRunnerHealth name id;
  match hr_state result with
  | RunnerState.READY | RunnerState.BUSY => mret (inr tt)
  | RunnerState.ERROR => throw (CPError (wake_error name id (hr_message result)))
  | _ => mret (inl tt)
  end.

Definition waitForReady (name id : string) : Svc unit :=
  poll_until wakeTimeoutMs healthCheckIntervalMs (ready_round name id)
    (throw (CPError (wake_timeout wakeTimeoutMs name id))) tt.

(** [catch (err) { await this.transitionToError(...); throw err }] *)
Definition or_error (name id : string) (m : Svc unit) : Svc unit :=
  catch m (λ e, transitionToError name id (err_message e) ;; throw e).

Definition remove_own_endpoint (name : string) (s : InstanceState) : Svc unit :=
  match endpoint_address s with
  | Some (host, port) => removeEndpoint name host port
  | None => mret tt
  end.

Definition sleepModel (name id : string) : Svc unit :=
  inst ← getInstance keyPrefix name id;
  match inst with
  | None => throw (CPError (modelNotFound (name +:+ "/" +:+ id)))
  | Some s =>
      or_error name id
        (when (bool_decide (state s = ModelLifecycleState.ACTIVE))
           (transition keyPrefix name id ModelLifecycleState.DRAINING no_updates ;; mret tt) ;;
         refreshModelRoutingState name ;;
         waitForDrain name id ;;
         runner_command EvSleep ;;
         remove_own_endpoint name s ;;
         transition keyPrefix name id ModelLifecycleState.SLEEPING no_updates ;;
         refreshModelRoutingState name)
  end.

Definition wakeModel (name id : string) : Svc unit :=
  inst ← getInstance keyPrefix name id;
  match inst with
  | None => throw (CPError (modelNotFound (name +:+ "/" +:+ id)))
  | Some s =>
      or_error name id
        (when (bool_decide (state s = ModelLifecycleState.SLEEPING))
           (transition keyPrefix name id ModelLifecycleState.STARTING no_updates ;; mret tt) ;;
         refreshModelRoutingState name ;;
         runner_command EvWake ;;
         waitForReady name id ;;
         match endpoint_address s with
         | Some (host, port) =>
             addEndpoint name
               (mkEndpoint host port 1 true (if truthy_str (runnerId s) then runnerId s else None))
               (Some (default Protocol.openai (protocol s)))
         | None => mret tt
         end ;;
         transition keyPrefix name id ModelLifecycleState.ACTIVE no_updates ;;
         refreshModelRoutingState name)
  end.

(** The transitions that settle an instance in STOPPED from the state it is in. *)
Definition settle_stopped (name id : string) (st : option ModelLifecycleState) : Svc unit :=
  let to st u := transition keyPrefix name id st u ;; mret tt in
  match st with
  | Some ModelLifecycleState.PENDING | Some ModelLifecycleState.STARTING =>
      to ModelLifecycleState.ERROR (error_update "Instance stopped during startup") ;;
      to ModelLifecycleState.STOPPED no_updates
  | Some ModelLifecycleState.DRAINING | Some ModelLifecycleState.SLEEPING =>
      to ModelLifecycleState.STOPPING no_updates ;; to ModelLifecycleState.STOPPED no_updates
  | Some ModelLifecycleState.STOPPING | Some ModelLifecycleState.ERROR => to ModelLifecycleState.STOPPED no_updates
  | _ => mret tt
  end.

(** [client] is whether a runner client was given. *)
Definition stopModel (name id : string) (client : bool) : Svc unit :=
  inst ← getInstance keyPrefix name id;
  match inst with
  | None => throw (CPError (modelNotFound (name +:+ "/" +:+ id)))
  | Some s =>
      or_error name id
        (when (bool_decide (state s = ModelLifecycleState.ACTIVE))
           (transition keyPrefix name id ModelLifecycleState.DRAINING no_updates ;; refreshModelRoutingState name) ;;
         when (client && (bool_decide (state s = ModelLifecycleState.ACTIVE) || bool_decide (state s = ModelLifecycleState.DRAINING)))
           (waitForDrain name id) ;;
         remove_own_endpoint name s ;;
         now ← getInstance keyPrefix name id;
         settle_stopped name id (state <$> now) ;;
         refreshModelRoutingState name ;;
         modify (set_local (set_budget (releaseInstanceReservations id))))
  end.
End service.

(** ** Guarantees under arbitrary interference *)
Lemma routing_guarantee key op d : instance_guarantee key (EvRedis d (run_routing_op op d)).
Proof. apply instance_guarantee_frame, run_routing_op_instances. Qed.
Lemma read_guarantee key d : instance_guarantee key (EvRedis d d).
Proof. by apply instance_guarantee_frame. Qed.
#[export] Hint Resolve read_guarantee : preserves.
#[export] Hint Extern 4 (instance_guarantee _ EvSleep) => exact I : preserves.
#[export] Hint Extern 4 (instance_guarantee _ EvWake) => exact I : preserves.

Section guarantees.
Context `{!Env, !RedisScan, !JsDate} (keyPrefix : string).
Context (R : relation World) (ok : Event → Prop) `{!TraceRel R ok}.
Context (Hread : ∀ d, ok (EvRedis d d)) (Hrouting : ∀ op d, ok (EvRedis d (run_routing_op op d))).
Context (Hhealth : ∀ h, ok (EvHealth h)).

Lemma setModelState_preserves name st proto : preserves R (setModelState name st proto).
Proof.
  unfold setModelState. apply (preserves_bind _ ok); [solve_preserves|]. intros t.
  apply (preserves_bind _ ok); [|solve_preserves]. apply (preserves_redis _ ok). intros d. apply (Hrouting (RSetState _ _ _ _)).
Qed.
Lemma removeModel_preserves name : preserves R (removeModel name).
Proof.
  unfold removeModel. apply (preserves_bind _ ok); [solve_preserves|]. intros t.
  apply (preserves_redis _ ok). intros d. apply (Hrouting (RRemoveModel _ _)).
Qed.
Lemma removeEndpoint_preserves name h p : preserves R (removeEndpoint name h p).
Proof.
  unfold removeEndpoint. apply (preserves_bind _ ok); [solve_preserves|]. intros t.
  apply (preserves_bind _ ok); [|solve_preserves]. apply (preserves_redis _ ok). intros d. apply (Hrouting (RRemove _ _ _ _)).
Qed.
Lemma addEndpoint_preserves name ep proto : preserves R (addEndpoint name ep proto).
Proof.
  unfold addEndpoint. apply (preserves_bind _ ok); [solve_preserves|]. intros t.
  apply (preserves_redis _ ok). intros d. apply (Hrouting (RAdd _ _ _ _)).
Qed.

Lemma refresh_preserves name : preserves R (refreshModelRoutingState keyPrefix name).
Proof.
  pose proof setModelState_preserves. pose proof removeModel_preserves.
  unfold refreshModelRoutingState, getInstancesForModel. solve_preserves.
Qed.
Lemma remove_own_endpoint_preserves name s : preserves R (remove_own_endpoint name s).
Proof. pose proof removeEndpoint_preserves. unfold remove_own_endpoint. solve_preserves. Qed.

(** The instance under way may be moved along the lifecycle. *)
Context (name id : string) (Htrans : ∀ to u, preserves R (transition keyPrefix name id to u)).

Lemma transitionToError_preserves msg : preserves R (transitionToError keyPrefix name id msg).
Proof. pose proof refresh_preserves. unfold transitionToError. solve_preserves. Qed.
Lemma pollRunnerHealth_preserves : preserves R (pollRunnerHealth keyPrefix name id).
Proof. pose proof transitionToError_preserves. unfold pollRunnerHealth, getHealth. solve_preserves. Qed.
Lemma waitForDrain_preserves t i : preserves R (waitForDrain keyPrefix t i name id).
Proof. pose proof pollRunnerHealth_preserves. unfold waitForDrain, drain_round. solve_preserves. Qed.
Lemma waitForReady_preserves t i : preserves R (waitForReady keyPrefix t i name id).
Proof. pose proof pollRunnerHealth_preserves. unfold waitForReady, ready_round. solve_preserves. Qed.
Lemma or_error_preserves m : preserves R m → preserves R (or_error keyPrefix name id m).
Proof. intros Hm. pose proof transitionToError_preserves. unfold or_error. solve_preserves. Qed.
Lemma settle_stopped_preserves st : preserves R (settle_stopped keyPrefix name id st).
Proof. unfold settle_stopped. solve_preserves. Qed.

Context (Hsleep : ok EvSleep) (Hwake : ok EvWake).
Lemma sleepModel_preserves t i : preserves R (sleepModel keyPrefix t i name id).
Proof.
  pose proof refresh_preserves. pose proof waitForDrain_preserves. pose proof or_error_preserves.
  pose proof remove_own_endpoint_preserves. unfold sleepModel, runner_command. solve_preserves.
Qed.
Lemma wakeModel_preserves t i : preserves R (wakeModel keyPrefix t i name id).
Proof.
  pose proof refresh_preserves. pose proof waitForReady_preserves. pose proof or_error_preserves.
  pose proof addEndpoint_preserves. unfold wakeModel, runner_command. solve_preserves.
Qed.
Lemma stopModel_preserves `{!ServicesRel R} t i client : preserves R (stopModel keyPrefix t i name id client).
Proof.
  pose proof refresh_preserves. pose proof waitForDrain_preserves. pose proof or_error_preserves.
  pose proof remove_own_endpoint_preserves. pose proof settle_stopped_preserves. unfold stopModel. solve_preserves.
Qed.
End guarantees.

(** ** The three operations as calls *)
Inductive lifecycle_call := CSleep | CWake | CStop (client : bool).

Section calls.
Context `{!Env, !RedisScan, !JsDate} (keyPrefix : string).
Context (sleepTimeoutMs wakeTimeoutMs healthCheckIntervalMs : Z).

Definition run_call (c : lifecycle_call) (name id : string) : Svc unit :=
  match c with
  | CSleep => sleepModel keyPrefix sleepTimeoutMs healthCheckIntervalMs name id
  | CWake => wakeModel keyPrefix wakeTimeoutMs healthCheckIntervalMs name id
  | CStop client => stopModel keyPrefix sleepTimeoutMs healthCheckIntervalMs name id client
  end.

Lemma run_call_preserves (R : relation World) ok `{!TraceRel R ok, !ServicesRel R} c name id :
  (∀ d, ok (EvRedis d d)) → (∀ op d, ok (EvRedis d (run_routing_op op d))) → (∀ h, ok (EvHealth h)) →
  (∀ to u, preserves R (transition keyPrefix name id to u)) → ok EvSleep → ok EvWake →
  preserves R (run_call c name id).
Proof.
  intros. destruct c; [by eapply sleepModel_preserves|by eapply wakeModel_preserves|by eapply stopModel_preserves].
Qed.

(** C1: sleeping, waking and stopping keep to the lifecycle under any concurrency.
    Whatever other requests, other processes, Redis failures and the runner do in
    between, every command these operations send changes at most the record of the one
    instance they were called for, and changes it only along an edge of the state
    machine, keeping its identity; they never create or delete a record. *)
Theorem lifecycle_calls_guarantee c name id w :
  w_trace w = [] →
  Forall (instance_guarantee (instanceStateKey keyPrefix name id)) (w_trace (run_call c name id w).2).
Proof.
  intros Hw. apply guar_run; [|done]. apply (run_call_preserves _ (instance_guarantee (instanceStateKey keyPrefix name id)));
    eauto using read_guarantee, routing_guarantee, transition_guar; done.
Qed.

Lemma refresh_total name : total (refreshModelRoutingState keyPrefix name).
Proof. unfold refreshModelRoutingState, getInstancesForModel, setModelState, removeModel. solve_total. Qed.
Hint Resolve refresh_total : total.
Lemma transitionToError_total name id msg : total (transitionToError keyPrefix name id msg).
Proof. unfold transitionToError. solve_total. Qed.
Hint Resolve transitionToError_total : total.
Lemma pollRunnerHealth_total name id : total (pollRunnerHealth keyPrefix name id).
Proof. unfold pollRunnerHealth, getHealth. solve_total. Qed.
Lemma pollRunnerHealth_grows name id : grows (pollRunnerHealth keyPrefix name id).
Proof. apply (pollRunnerHealth_preserves _ _ any_event); eauto with preserves. Qed.
Hint Resolve pollRunnerHealth_total : total.
Hint Resolve pollRunnerHealth_grows : preserves.
Lemma or_error_total name id m : total m → total (or_error keyPrefix name id m).
Proof. intros Hm. unfold or_error. solve_total. Qed.
Hint Resolve or_error_total : total.

Lemma run_call_total c name id : (0 < healthCheckIntervalMs)%Z → total (run_call c name id).
Proof.
  intros Hi. assert (total (waitForDrain keyPrefix sleepTimeoutMs healthCheckIntervalMs name id)) as Hdrain.
  { apply total_poll_until; [done|..]; unfold drain_round; [solve_total|solve_preserves|solve_total]. }
  assert (total (waitForReady keyPrefix wakeTimeoutMs healthCheckIntervalMs name id)) as Hready.
  { apply total_poll_until; [done|..]; unfold ready_round; [solve_total|solve_preserves|solve_total]. }
  destruct c; simpl; unfold sleepModel, wakeModel, stopModel, remove_own_endpoint, removeEndpoint, addEndpoint, settle_stopped,
    runner_command; solve_total.
Qed.

(** The operations always finish.  With a positive health-check interval, every
    sleep, wake and stop returns or throws after finitely many steps, however slow or
    silent the runner is: the polling loops are bounded by their timeouts. *)
Theorem lifecycle_calls_finish c name id w :
  (0 < healthCheckIntervalMs)%Z → (run_call c name id w).1 ≠ inl OutOfFuel.
Proof.
  intros Hi. by apply run_call_total.
Qed.
End calls.

(** ** Draining before sleeping *)
Definition health_of (e : Event) : option (option HealthStatus) := match e with EvHealth h => Some h | _ => None end.
Definition last_health (l : list Event) : option (option HealthStatus) := last (omap health_of l).

(** The latest health answer reported no request in flight. *)
Definition drained (l : list Event) : Prop := ∃ h, last_health l = Some (Some h) ∧ h_activeRequests h = Some 0%Z.
Definition sleeps_drained : list Event → Prop := justified (λ l e, e = EvSleep → drained l).

Definition no_sleep (e : Event) : Prop := e ≠ EvSleep.
Definition no_health (e : Event) : Prop := health_of e = None.
#[export] Hint Extern 1 (no_sleep _) => discriminate : preserves.
#[export] Hint Extern 1 (no_health _) => reflexivity : preserves.

Lemma last_health_app l l' : Forall no_health l' → last_health (l ++ l') = last_health l.
Proof.
  intros Hl. unfold last_health. rewrite omap_app.
  assert (omap health_of l' = []) as ->; [|by rewrite app_nil_r].
  induction Hl as [|e l' He _ IH]; simpl; [done|]. by rewrite He.
Qed.

Lemma sleeps_drained_sleep l : sleeps_drained l → drained l → sleeps_drained (l ++ [EvSleep]).
Proof. intros Hl Hd. by apply justified_snoc. Qed.

Section drain_order.
Context `{!Env, !RedisScan, !JsDate} (keyPrefix : string).

(** A computation that sends no sleep keeps the order. *)
Lemma wp_no_sleep {A} (m : Svc A) w :
  guar no_sleep m → sleeps_drained (w_trace w) →
  wp m (λ _ w', sleeps_drained (w_trace w')) (λ _ w', sleeps_drained (w_trace w')) w.
Proof.
  intros Hm Hw. eapply wp_mono; [by apply (wp_justified (λ l e, e = EvSleep → drained l) m no_sleep)|by intros a w' [? _]|auto].
Qed.

Lemma transition_preserves_silent G name id to u :
  (∀ d d', G (EvRedis d d')) → (∀ f t, G (EvStateMetric f t)) → guar G (transition keyPrefix name id to u).
Proof. intros Hd Hm. unfold transition. solve_preserves. Qed.

Lemma transitionToError_silent G name id msg :
  (∀ d d', G (EvRedis d d')) → (∀ f t, G (EvStateMetric f t)) → guar G (transitionToError keyPrefix name id msg).
Proof.
  intros Hd Hm. apply (transitionToError_preserves _ _ G); auto. intros. by apply transition_preserves_silent.
Qed.

Lemma http_returned {F A} (reply : nat → F + A) exn ev w a w' :
  http_call reply exn ev w = (inr a, w') → reply (w_step w) = inr a ∧ w_trace w' = w_trace w ++ [ev (inr a)].
Proof. unfold http_call. destruct (reply (w_step w)) eqn:Hr; [done|]. by intros [= -> <-]. Qed.

Lemma catch_returned {A} (m : Svc A) h w a w' :
  catch m h w = (inr a, w') → m w = (inr a, w') ∨ ∃ e w1, m w = (inl e, w1) ∧ h e w1 = (inr a, w').
Proof. unfold catch. destruct (m w) as [[e|b] w1]; eauto. Qed.

(** An answer with no request in flight is the latest health event. *)
Lemma pollRunnerHealth_drained name id w r w' :
  pollRunnerHealth keyPrefix name id w = (inr r, w') → hr_activeRequests r = Some 0%Z → drained (w_trace w').
Proof.
  intros [Hrun|(e & w1 & _ & [= <- <-])]%catch_returned Hr; [|done].
  apply bind_returned in Hrun as (h & w1 & Hh & Hrun). apply http_returned in Hh as [_ Htr].
  assert (guar no_health (inst ← getInstance keyPrefix name id;
     when (bool_decide (is_Some inst) && bool_decide (h_state h = RunnerState.ERROR))
       (transitionToError keyPrefix name id (default "Runner reported ERROR state during health check" (h_message h))) ;;
     mret (mkResult (h_state h) (h_activeRequests h) (h_message h)))) as Hg.
  { pose proof (transitionToError_silent no_health name id). unfold getInstance. solve_preserves. }
  specialize (Hg w1). rewrite Hrun in Hg. destruct Hg as (l & Hl & HG).
  apply bind_returned in Hrun as (inst & w2 & _ & Hrun). apply bind_returned in Hrun as ([] & w3 & _ & [= <- <-]).
  exists h. cbn [snd] in Hl. rewrite Hl, last_health_app, Htr by done. unfold last_health. rewrite omap_app. simpl. by rewrite last_snoc.
Qed.

Lemma waitForDrain_drained t i name id w u w' :
  waitForDrain keyPrefix t i name id w = (inr u, w') → drained (w_trace w').
Proof.
  intros Hrun. pattern u, w'. eapply poll_until_returned; [..|exact Hrun]; [|done]. clear w u w' Hrun. cbn beta.
  intros n w u w' (r & w1 & Hpoll & Hrun)%bind_returned.
  cbn zeta in Hrun. destruct (decide (_ ∧ _)); [done|]. destruct (decide (hr_activeRequests r = Some 0%Z)) as [Hr|]; [|done].
  injection Hrun as _ <-. by eapply pollRunnerHealth_drained.
Qed.

(** C23: a runner is told to sleep only when it is idle.  In every run of
    [sleepModel], under any interference and failures, the runner's last health answer
    before [POST /sleep] reported no request in flight. *)
Theorem sleep_only_when_drained t i name id w l1 l2 :
  w_trace w = [] → w_trace (sleepModel keyPrefix t i name id w).2 = l1 ++ EvSleep :: l2 → drained l1.
Proof.
  intros Hw. set (I := λ w', sleeps_drained (w_trace w')).
  assert (wp (sleepModel keyPrefix t i name id) (λ _, I) (λ _, I) w) as Hwp.
  2: { unfold wp, I in Hwp. destruct (sleepModel _ _ _ _ _ w) as [[e|a] w']; intros Heq; by eapply Hwp. }
  assert (I w) as HI. { unfold I. rewrite Hw. apply justified_nil. }
  assert (∀ {A} (m : Svc A), guar no_sleep m → ∀ w, I w → wp m (λ _, I) (λ _, I) w) as Hno by (intros; by apply wp_no_sleep).
  assert (∀ to u, guar no_sleep (transition keyPrefix name id to u)) as Htr by (intros; by apply transition_preserves_silent).
  assert (∀ msg, guar no_sleep (transitionToError keyPrefix name id msg)) as Hterr by (intros; by apply transitionToError_silent).
  assert (guar no_sleep (refreshModelRoutingState keyPrefix name)) as Hrf by (by apply (refresh_preserves _ _ no_sleep)).
  apply wp_bind. eapply wp_mono; [apply Hno; [unfold getInstance; solve_preserves|done]| |done].
  intros [s|] w1 HI1; [|by apply wp_throw]. unfold or_error. apply wp_catch.
  eapply (wp_mono _ (λ _, I) _ (λ _, I)); [|done|].
  2: { intros e w2 HI2. apply Hno; [solve_preserves|done]. }
  apply wp_bind. eapply wp_mono; [apply Hno; [solve_preserves|done]| |done]. intros ? w2 HI2.
  apply wp_bind. eapply wp_mono; [apply Hno; [solve_preserves|done]| |done]. intros ? w3 HI3.
  apply wp_bind. assert (wp (waitForDrain keyPrefix t i name id) (λ _ w', I w' ∧ drained (w_trace w')) (λ _, I) w3) as Hd.
  { assert (guar no_sleep (waitForDrain keyPrefix t i name id)) as Hg by (by apply (waitForDrain_preserves _ _ no_sleep)).
    specialize (Hno _ _ Hg w3 HI3). unfold wp in *. destruct (waitForDrain _ _ _ _ _ w3) as [[e|u] w4] eqn:Hrun; [done|].
    split; [done|]. by eapply waitForDrain_drained. }
  eapply wp_mono; [exact Hd| |done]. intros ? w4 [HI4 Hdr].
  apply wp_bind. assert (I (runner_command EvSleep w4).2) as HI5 by (by apply sleeps_drained_sleep).
  unfold wp. destruct (runner_command EvSleep w4) as [[e|u] w5]; [done|].
  apply Hno; [|done]. pose proof (remove_own_endpoint_preserves _ no_sleep). solve_preserves.
Qed.
End drain_order.

(** ** Outcomes when Redis works and nobody else writes

    The runner is still arbitrary: it may be slow, fail, or report anything. *)
Class QuietRedis `{!Env} : Prop := {
  quiet_fault n : env_fault n = NoFault;
  quiet_db n d : env_interfere_db n d = d;
  quiet_pipe n i : env_pipe_error n i = false;
  quiet_exec n : env_exec_null n = false;
}.

Section quiet.
Context `{!Env, !QuietRedis, !RedisScan, !JsDate} (keyPrefix : string).

Lemma wp_redis_quiet {A} (f : RedisDb → A * RedisDb) (Q : A → World → Prop) X w :
  (∀ w', w_db w' = (f (w_db w)).2 → w_local w' = env_interfere_local (w_step w) (w_local w) → Q (f (w_db w)).1 w') →
  wp (redis_call f) Q X w.
Proof.
  intros HQ. unfold wp, redis_call. cbn [w_db tick]. rewrite quiet_fault, quiet_db.
  destruct (f (w_db w)) as [a d]. by apply HQ.
Qed.

(** Computations that return and leave the instance records alone. *)
Definition keeps_instances {A} (m : Svc A) : Prop :=
  ∀ w, wp m (λ _ w', db_instances (w_db w') = db_instances (w_db w)) (λ _ _, False) w.

Lemma keeps_ret {A} (a : A) : keeps_instances (mret a).
Proof. by intros w. Qed.
Lemma keeps_now : keeps_instances date_now.
Proof. by intros w. Qed.
Lemma keeps_bind {A B} (m : Svc A) (k : A → Svc B) :
  keeps_instances m → (∀ a, keeps_instances (k a)) → keeps_instances (m ≫= k).
Proof.
  intros Hm Hk w. apply wp_bind. eapply wp_mono; [apply Hm| |done]. intros a w' Heq.
  eapply wp_mono; [apply Hk| |done]. simpl. congruence.
Qed.
Lemma keeps_redis {A} (f : RedisDb → A * RedisDb) :
  (∀ d, db_instances (f d).2 = db_instances d) → keeps_instances (redis_call f).
Proof. intros Hf w. apply wp_redis_quiet. intros w' -> _. apply Hf. Qed.
Lemma keeps_pipeline {A} (lookup : RedisDb → string → option A) keys : keeps_instances (pipeline_get lookup keys).
Proof. intros w. by apply keeps_redis. Qed.
Lemma keeps_scan {A} (store : RedisDb → gmap string A) p : keeps_instances (scanKeys store p).
Proof. intros w. by apply keeps_redis. Qed.

Create HintDb keeps.
Hint Resolve keeps_ret keeps_now keeps_bind keeps_pipeline keeps_scan : keeps.
Hint Extern 2 (keeps_instances (match ?x with _ => _ end)) => destruct x : keeps.

Lemma refresh_keeps name : keeps_instances (refreshModelRoutingState keyPrefix name).
Proof.
  assert (∀ f : RedisDb → bool * RedisDb, (∃ op, ∀ d, (f d).2 = run_routing_op op d) → keeps_instances (redis_call f)) as Hr.
  { intros f [op Hop]. apply keeps_redis. intros d. rewrite Hop. apply run_routing_op_instances. }
  unfold refreshModelRoutingState, getInstancesForModel, getStatesForPattern, setModelState, removeModel.
  repeat (first [apply keeps_bind; [|intros ?] | case_match]); eauto with keeps.
  - apply Hr. by eexists (RSetState _ _ _ _).
  - by apply keeps_redis.
Qed.

Lemma remove_own_endpoint_keeps name s : keeps_instances (remove_own_endpoint name s).
Proof.
  unfold remove_own_endpoint, removeEndpoint. destruct (endpoint_address s) as [[h p]|]; [|by apply keeps_ret].
  repeat (apply keeps_bind; [|intros ?]); eauto with keeps.
  apply keeps_redis. intros d. apply (run_routing_op_instances (RRemove name h p _)).
Qed.
Lemma addEndpoint_keeps name ep proto : keeps_instances (addEndpoint name ep proto).
Proof. apply keeps_bind; [apply keeps_now|]. intros t. by apply keeps_redis. Qed.

(** The instance's record is there and its state satisfies [P]. *)
Context (name id : string).
Definition st_in (P : ModelLifecycleState → Prop) (w : World) : Prop :=
  ∃ s, db_instances (w_db w) !! instanceStateKey keyPrefix name id = Some s ∧ P (state s).

Lemma st_in_mono (P P' : ModelLifecycleState → Prop) w : (∀ s, P s → P' s) → st_in P w → st_in P' w.
Proof. intros HP (s & Hs & Hp). exists s. auto. Qed.

Lemma st_in_eq P w w' : db_instances (w_db w') = db_instances (w_db w) → st_in P w → st_in P w'.
Proof. intros Heq (s & Hs & HP). exists s. by rewrite Heq. Qed.

Lemma wp_keeps {A} (m : Svc A) P X w :
  keeps_instances m → st_in P w → wp m (λ _, st_in P) X w.
Proof. intros Hm HP. eapply wp_mono; [apply Hm| |done]. intros a w' Heq. eapply st_in_eq; [exact Heq|done]. Qed.

(** A transition from any of the states [P] either arrives or, from a state without that edge, changes nothing. *)
Lemma wp_transition P to u w :
  st_in P w →
  wp (transition keyPrefix name id to u) (λ _, st_in (λ s, s = to))
     (λ _, st_in (λ s, P s ∧ isValidTransition s to = false)) w.
Proof.
  intros (s & Hs & HP). unfold transition. apply wp_catch, wp_bind, wp_gets, wp_bind, wp_redis_quiet.
  intros w' Hdb _. unfold transition_script in Hdb |- *. rewrite Hs in Hdb |- *.
  destruct (isValidTransition (state s) to) eqn:Hv; cbn [fst snd] in Hdb |- *.
  - apply wp_bind, wp_modify, wp_ret. exists (apply_transition to u (toISOString (w_now w)) s). split; [|done].
    simpl. rewrite Hdb. simpl. by rewrite lookup_insert_eq.
  - apply wp_throw. case_match; apply wp_throw; exists s; by rewrite Hdb.
Qed.

Lemma error_edge s : isValidTransition s ModelLifecycleState.ERROR = false → s = ModelLifecycleState.ERROR.
Proof. by destruct s. Qed.

(** The error path always ends in ERROR. *)
Lemma wp_transitionToError P msg X w :
  st_in P w → wp (transitionToError keyPrefix name id msg) (λ _, st_in (λ s, s = ModelLifecycleState.ERROR)) X w.
Proof.
  intros HP. unfold transitionToError. apply wp_catch, wp_bind. eapply wp_mono; [by apply wp_transition|..].
  - intros a w' Hw'. apply wp_keeps; [apply refresh_keeps|exact Hw'].
  - intros e w' Hw'. apply wp_ret. eapply st_in_mono; [|exact Hw']. intros s [_ Hs]. by apply error_edge.
Qed.

(** A health poll leaves the state, or records the error the runner reports. *)
Lemma wp_pollRunnerHealth (P : ModelLifecycleState → Prop) X w :
  P ModelLifecycleState.ERROR → st_in P w → wp (pollRunnerHealth keyPrefix name id) (λ _, st_in P) X w.
Proof.
  intros HE HP. unfold pollRunnerHealth. apply wp_catch, wp_bind. unfold wp at 1, getHealth, http_call.
  assert (∀ e, st_in P (log_event e (tick w))) as Hw1.
  { intros e. destruct HP as (s & Hs & Hp). exists s. simpl. by rewrite quiet_db. }
  destruct (env_health (w_step w)) as [msg|h]; [apply Hw1|].
  apply wp_bind. unfold getInstance. apply wp_redis_quiet. intros w2 Hdb _.
  assert (st_in P w2) as Hw2. { eapply st_in_eq; [|apply (Hw1 EvSleep)]. by rewrite Hdb. }
  apply wp_bind. destruct (bool_decide _ && _); [|exact Hw2].
  eapply (wp_mono _ _ _ (λ _ _, False)); [by apply (wp_transitionToError P)| |done].
  intros ? w3 Hw3. apply wp_ret. eapply st_in_mono; [|exact Hw3]. by intros s ->.
Qed.

Lemma wp_delay ms t P X w : st_in P w → wp (delaySafe ms t) (λ _, st_in P) X w.
Proof. intros (s & Hs & HP). exists s. simpl. by rewrite quiet_db. Qed.

(** A polling loop whose rounds keep the state within [P]. *)
Lemma wp_poll {S A} timeoutMs interval (body : S → Svc (S + A)) timedOut st P w :
  (∀ st w, st_in P w → wp (body st) (λ _, st_in P) (λ _, st_in P) w) →
  (∀ w, st_in P w → wp timedOut (λ _, st_in P) (λ _, st_in P) w) →
  st_in P w → wp (poll_until timeoutMs interval body timedOut st) (λ _, st_in P) (λ _, st_in P) w.
Proof.
  intros Hb Ht HP. unfold poll_until. apply wp_bind, wp_gets. generalize (w_now w + timeoutMs)%Z as deadline. intros deadline.
  generalize (Datatypes.S (Z.to_nat timeoutMs)) as fuel. intros fuel.
  revert st w HP. induction fuel as [|fuel IH]; intros st w HP; [by apply wp_throw|]. cbn [poll_loop].
  apply wp_bind, wp_gets. case_match; [by apply Ht|]. apply wp_bind. eapply wp_mono; [by apply Hb| |auto].
  intros [st'|a] w1 HP1; [|apply wp_ret; exact HP1]. apply wp_bind. eapply wp_mono; [apply (wp_delay _ _ P (λ _ _, False)); exact HP1| |done].
  intros ? w2 HP2. apply IH; exact HP2.
Qed.

Lemma wp_waitForDrain (P : ModelLifecycleState → Prop) t i w :
  P ModelLifecycleState.ERROR → st_in P w → wp (waitForDrain keyPrefix t i name id) (λ _, st_in P) (λ _, st_in P) w.
Proof.
  intros HE HP. apply wp_poll; [|by intros; apply wp_throw|done]. intros n w1 HP1. unfold drain_round. apply wp_bind.
  eapply wp_mono; [by apply (wp_pollRunnerHealth P (λ _ _, False))| |done]. intros r w2 HP2. cbn zeta.
  repeat case_match; first [apply wp_throw; exact HP2 | apply wp_ret; exact HP2].
Qed.

Lemma wp_waitForReady (P : ModelLifecycleState → Prop) t i w :
  P ModelLifecycleState.ERROR → st_in P w → wp (waitForReady keyPrefix t i name id) (λ _, st_in P) (λ _, st_in P) w.
Proof.
  intros HE HP. apply wp_poll; [|by intros; apply wp_throw|done]. intros n w1 HP1. unfold ready_round. apply wp_bind.
  eapply wp_mono; [by apply (wp_pollRunnerHealth P (λ _ _, False))| |done]. intros r w2 HP2.
  repeat case_match; first [apply wp_throw; exact HP2 | apply wp_ret; exact HP2].
Qed.

Lemma wp_runner_command ev P w : st_in P w → wp (runner_command ev) (λ _, st_in P) (λ _, st_in P) w.
Proof.
  intros (s & Hs & HP). unfold wp, runner_command, http_call.
  destruct (env_runner (w_step w)); exists s; simpl; by rewrite quiet_db.
Qed.

(** [or_error] turns any outcome of its body into: done, or thrown and in ERROR. *)
Lemma wp_or_error m (Q : World → Prop) w :
  wp m (λ _, Q) (λ _, st_in (λ _, True)) w →
  wp (or_error keyPrefix name id m) (λ _, Q) (λ _, st_in (λ s, s = ModelLifecycleState.ERROR)) w.
Proof.
  intros Hm. unfold or_error. apply wp_catch. eapply wp_mono; [exact Hm|auto|]. intros e w1 Hw1.
  apply wp_bind. eapply (wp_mono _ _ _ (λ _ _, False)); [eapply wp_transitionToError; exact Hw1| |done].
  intros ? w2 Hw2. apply wp_throw. exact Hw2.
Qed.

Notation any := (λ _ : ModelLifecycleState, True).

Lemma wp_keeps_any {A} (m : Svc A) P w : keeps_instances m → st_in P w → wp m (λ _, st_in P) (λ _, st_in any) w.
Proof. apply wp_keeps. Qed.

Lemma wp_transition_any P to u w : st_in P w → wp (transition keyPrefix name id to u) (λ _, st_in (λ s, s = to)) (λ _, st_in any) w.
Proof.
  intros HP. eapply wp_mono; [by apply wp_transition|auto|]. intros e w' Hw'. eapply st_in_mono; [|exact Hw']. done.
Qed.

(** The operations begin by reading the record. *)
Lemma wp_with_instance {A} (k : option InstanceState → Svc A) P Q X w :
  st_in P w → (∀ s w', st_in P w' → P (state s) → wp (k (Some s)) Q X w') → wp (getInstance keyPrefix name id ≫= k) Q X w.
Proof.
  intros (s & Hs & HP) Hk. apply wp_bind. unfold getInstance. apply wp_redis_quiet. intros w' Hdb _. cbn [fst]. rewrite Hs.
  apply Hk; [|done]. exists s. by rewrite Hdb.
Qed.

Lemma sleepModel_settles t i w :
  st_in any w →
  wp (sleepModel keyPrefix t i name id) (λ _, st_in (λ s, s = ModelLifecycleState.SLEEPING))
     (λ _, st_in (λ s, s = ModelLifecycleState.ERROR)) w.
Proof.
  intros Hw. eapply wp_with_instance; [exact Hw|]. intros s w1 Hw1 _. apply wp_or_error.
  apply wp_bind. eapply (wp_mono _ (λ _, st_in any) _ (λ _, st_in any)); [|intros ? w2 Hw2|auto].
  { case_bool_decide; simpl; [|exact Hw1]. apply wp_bind. eapply wp_mono; [by eapply wp_transition_any| |auto].
    intros ? w2 Hw2. apply wp_ret. eapply st_in_mono; [|exact Hw2]. done. }
  apply wp_bind. eapply wp_mono; [apply wp_keeps_any; [apply refresh_keeps|exact Hw2]|intros ? w3 Hw3|auto].
  apply wp_bind. eapply wp_mono; [apply (wp_waitForDrain any); [done|exact Hw3]|intros ? w4 Hw4|auto].
  apply wp_bind. eapply wp_mono; [apply wp_runner_command; exact Hw4|intros ? w5 Hw5|auto].
  apply wp_bind. eapply wp_mono; [apply wp_keeps_any; [apply remove_own_endpoint_keeps|exact Hw5]|intros ? w6 Hw6|auto].
  apply wp_bind. eapply wp_mono; [eapply wp_transition_any; exact Hw6|intros ? w7 Hw7|auto].
  apply wp_keeps_any; [apply refresh_keeps|exact Hw7].
Qed.

Lemma wakeModel_settles t i w :
  st_in any w →
  wp (wakeModel keyPrefix t i name id) (λ _, st_in (λ s, s = ModelLifecycleState.ACTIVE))
     (λ _, st_in (λ s, s = ModelLifecycleState.ERROR)) w.
Proof.
  intros Hw. eapply wp_with_instance; [exact Hw|]. intros s w1 Hw1 _. apply wp_or_error.
  apply wp_bind. eapply (wp_mono _ (λ _, st_in any) _ (λ _, st_in any)); [|intros ? w2 Hw2|auto].
  { case_bool_decide; simpl; [|exact Hw1]. apply wp_bind. eapply wp_mono; [by eapply wp_transition_any| |auto].
    intros ? w2 Hw2. apply wp_ret. eapply st_in_mono; [|exact Hw2]. done. }
  apply wp_bind. eapply wp_mono; [apply wp_keeps_any; [apply refresh_keeps|exact Hw2]|intros ? w3 Hw3|auto].
  apply wp_bind. eapply wp_mono; [apply wp_runner_command; exact Hw3|intros ? w4 Hw4|auto].
  apply wp_bind. eapply wp_mono; [apply (wp_waitForReady any); [done|exact Hw4]|intros ? w5 Hw5|auto].
  apply wp_bind. eapply wp_mono; [apply wp_keeps_any; [|exact Hw5]|intros ? w6 Hw6|auto].
  { destruct (endpoint_address s) as [[h p]|]; [apply addEndpoint_keeps|apply keeps_ret]. }
  apply wp_bind. eapply wp_mono; [eapply wp_transition_any; exact Hw6|intros ? w7 Hw7|auto].
  apply wp_keeps_any; [apply refresh_keeps|exact Hw7].
Qed.

(** From any state but ACTIVE the settling transitions reach STOPPED. *)
Lemma wp_settle_stopped s w :
  st_in (λ s', s' = s) w → s ≠ ModelLifecycleState.ACTIVE →
  wp (settle_stopped keyPrefix name id (Some s)) (λ _, st_in (λ s, s = ModelLifecycleState.STOPPED)) (λ _, st_in any) w.
Proof.
  intros Hw Hs. unfold settle_stopped.
  assert (∀ P to u w, st_in P w →
    wp (transition keyPrefix name id to u ;; mret tt) (λ _, st_in (λ s, s = to)) (λ _, st_in any) w) as Hto.
  { intros P to u w0 Hw0. apply wp_bind. eapply wp_mono; [by eapply wp_transition_any|intros ? w1 Hw1|auto]. exact Hw1. }
  destruct s; try done; try (by eapply Hto);
    (apply wp_bind; eapply wp_mono; [by eapply Hto|intros ? w1 Hw1; eapply Hto; exact Hw1|auto]).
Qed.

Lemma stopModel_settles t i client w :
  st_in any w →
  wp (stopModel keyPrefix t i name id client)
     (λ _ w', st_in (λ s, s = ModelLifecycleState.STOPPED) w' ∧ ∃ st, l_budget (w_local w') = releaseInstanceReservations id st)
     (λ _, st_in (λ s, s = ModelLifecycleState.ERROR)) w.
Proof.
  intros (s0 & Hs0 & _). eapply (wp_with_instance _ (λ s, s = state s0)); [by exists s0|]. intros s w1 Hw1 Hst. apply wp_or_error.
  apply wp_bind. eapply (wp_mono _ (λ _, st_in (λ s, s ≠ ModelLifecycleState.ACTIVE)) _ (λ _, st_in any)); [|intros ? w2 Hw2|auto].
  { case_bool_decide as Ha; simpl.
    - apply wp_bind. eapply wp_mono; [by eapply wp_transition_any|intros ? w2 Hw2|auto].
      apply wp_keeps_any; [apply refresh_keeps|]. eapply st_in_mono; [|exact Hw2]. by intros ? ->.
    - eapply st_in_mono; [|exact Hw1]. intros s' ->. congruence. }
  apply wp_bind. eapply (wp_mono _ (λ _, st_in (λ s, s ≠ ModelLifecycleState.ACTIVE)) _ (λ _, st_in any)); [|intros ? w3 Hw3|auto].
  { destruct (client && _); simpl; [|exact Hw2]. eapply wp_mono; [apply (wp_waitForDrain (λ s, s ≠ ModelLifecycleState.ACTIVE)); [done|exact Hw2]|auto|].
    intros e w3 Hw3. eapply st_in_mono; [|exact Hw3]. done. }
  apply wp_bind. eapply wp_mono; [apply wp_keeps_any; [apply remove_own_endpoint_keeps|exact Hw3]|intros ? w4 Hw4|auto].
  destruct Hw4 as (s4 & Hs4 & Hn4). eapply (wp_with_instance _ (λ s, s = state s4)); [by exists s4|]. intros s5 w5 Hw5 Hs5.
  cbn beta in Hs5. apply wp_bind. simpl fmap. rewrite Hs5.
  eapply wp_mono; [by apply wp_settle_stopped|intros ? w6 Hw6|auto].
  apply wp_bind. eapply wp_mono; [apply wp_keeps_any; [apply refresh_keeps|exact Hw6]|intros ? w7 Hw7|auto].
  apply wp_modify. split; [|by eexists]. destruct Hw7 as (s7 & Hs7 & H7). by exists s7.
Qed.
End quiet.

(** The state each operation is meant to reach. *)
Definition call_target (c : lifecycle_call) : ModelLifecycleState :=
  match c with
  | CSleep => ModelLifecycleState.SLEEPING
  | CWake => ModelLifecycleState.ACTIVE
  | CStop _ => ModelLifecycleState.STOPPED
  end.

(** The records of a model. *)
Definition model_instances (name : string) (d : RedisDb) : list InstanceState :=
  List.filter (λ s, bool_decide (modelName s = name)) (map_to_list (db_instances d)).*2.

Section outcomes.
Context `{!Env, !QuietRedis, !RedisScan, !JsDate} (keyPrefix : string).
Context (sleepTimeoutMs wakeTimeoutMs healthCheckIntervalMs : Z).

(** C22: each operation settles.  While Redis works and no other request writes, for
    an instance in any state and whatever its runner does (slow, silent, failing, or
    reporting errors): if sleep, wake or stop returns, the instance is SLEEPING, ACTIVE
    or STOPPED respectively, and if it throws, the instance is in ERROR; it is never
    left in between. *)
Theorem lifecycle_calls_settle c name id w s :
  db_instances (w_db w) !! instanceStateKey keyPrefix name id = Some s →
  let '(r, w') := run_call keyPrefix sleepTimeoutMs wakeTimeoutMs healthCheckIntervalMs c name id w in
  ∃ s', db_instances (w_db w') !! instanceStateKey keyPrefix name id = Some s' ∧
    match r with
    | inr _ => state s' = call_target c
    | inl _ => state s' = ModelLifecycleState.ERROR
    end.
Proof.
  intros Hs. assert (st_in keyPrefix name id (λ _, True) w) as Hw by (by exists s).
  assert (wp (run_call keyPrefix sleepTimeoutMs wakeTimeoutMs healthCheckIntervalMs c name id)
    (λ _, st_in keyPrefix name id (λ s, s = call_target c)) (λ _, st_in keyPrefix name id (λ s, s = ModelLifecycleState.ERROR)) w) as Hwp.
  { destruct c; simpl; [by apply sleepModel_settles|by apply wakeModel_settles|].
    eapply wp_mono; [by apply stopModel_settles|by intros ? w' [? _]|auto]. }
  unfold wp in Hwp. by destruct (run_call _ _ _ _ _ _ _ w) as [[e|u] w'].
Qed.

(** A completed stop gives back all memory the instance had reserved. *)
Theorem stop_releases_holds name id client w s w' :
  db_instances (w_db w) !! instanceStateKey keyPrefix name id = Some s →
  stopModel keyPrefix sleepTimeoutMs healthCheckIntervalMs name id client w = (inr tt, w') →
  ∀ worker device, hold (l_budget (w_local w')) worker device id = None.
Proof.
  intros Hs Hrun worker device.
  assert (st_in keyPrefix name id (λ _, True) w) as Hw by (by exists s).
  pose proof (stopModel_settles keyPrefix name id sleepTimeoutMs healthCheckIntervalMs client w Hw) as Hwp.
  unfold wp in Hwp. rewrite Hrun in Hwp. destruct Hwp as [_ [st ->]].
  rewrite releaseInstanceReservations_hold. by rewrite decide_True.
Qed.

Lemma elem_of_model_instances d name s :
  instances_wf keyPrefix d →
  s ∈ model_instances name d ↔ ∃ k, db_instances d !! k = Some s ∧ modelName s = name.
Proof.
  intros Hwf. unfold model_instances. rewrite list_elem_of_In, filter_In, <- list_elem_of_In, bool_decide_eq_true, list_elem_of_fmap.
  split.
  - intros [([k s'] & -> & Hk%elem_of_map_to_list) Hn]. eauto.
  - intros (k & Hk & Hn). split; [|done]. exists (k, s). split; [done|]. by apply elem_of_map_to_list.
Qed.

(** The instances a refresh reads are the model's. *)
Lemma getInstancesForModel_quiet name w :
  glob_plain keyPrefix = true → MODEL_NAME_PATTERN name = true → instances_wf keyPrefix (w_db w) →
  wp (getInstancesForModel keyPrefix name) (λ rs w', w_db w' = w_db w ∧ ∀ s, s ∈ rs ↔ s ∈ model_instances name (w_db w))
     (λ _ _, False) w.
Proof.
  intros Hp Hv Hwf.
  destruct (getStatesForPattern_run (redisKey keyPrefix ["models"; name; "*"]) w) as (rs & w' & Hrun & Hdb & Hrs).
  { split_and!; intros; by rewrite ?quiet_fault, ?quiet_exec, ?quiet_pipe, ?quiet_db. }
  rewrite quiet_db in Hdb. setoid_rewrite quiet_db in Hrs. unfold wp, getInstancesForModel. rewrite Hrun. split; [done|].
  intros s. rewrite Hrs, elem_of_model_instances by done. split; intros (k & Hk & Hm); exists k; split; try done.
  - apply model_pattern_match in Hm as [i ->]; [|done|by apply valid_name_plain]. destruct (Hwf _ _ Hk) as [Heq Hvs].
    by destruct (instanceStateKey_inj keyPrefix name i (modelName s) (instanceId s)) as [-> _]; auto using valid_name_no_colon.
  - destruct (Hwf _ _ Hk) as [-> _]. rewrite Hm. apply model_pattern_match; [done|by apply valid_name_plain|eauto].
Qed.

Lemma refresh_quiet name w :
  glob_plain keyPrefix = true → MODEL_NAME_PATTERN name = true → instances_wf keyPrefix (w_db w) →
  wp (refreshModelRoutingState keyPrefix name)
    (λ r w', r = tt ∧ db_instances (w_db w') = db_instances (w_db w) ∧
      match toRoutingState (deriveAggregateState (model_instances name (w_db w))) with
      | Some rs => (∃ e, db_routing (w_db w') !! name = Some e ∧ re_state e = rs) ∧
                   ∀ h p, ep_at (w_db w') name h p = ep_at (w_db w) name h p
      | None => db_routing (w_db w') !! name = None
      end) (λ _ _, False) w.
Proof.
  intros Hp Hv Hwf.
  unfold refreshModelRoutingState. apply wp_bind. eapply wp_mono; [by apply getInstancesForModel_quiet| |done].
  intros rs w1 [Hdb1 Hrs]. rewrite (deriveAggregate_ext rs (model_instances name (w_db w))).
  2: { intros s. rewrite !list_elem_of_fmap. setoid_rewrite Hrs. done. }
  destruct (toRoutingState _) as [st|].
  - unfold setModelState. apply wp_bind, wp_gets, wp_bind, wp_redis_quiet. intros w2 Hdb2 _. apply wp_ret. rewrite Hdb2, Hdb1.
    split; [done|]. split; [done|]. split.
    + eexists. simpl. by rewrite lookup_insert_eq.
    + intros h p. apply (run_routing_op_table (RSetState name st _ _)).
  - unfold removeModel. apply wp_bind, wp_gets, wp_redis_quiet. intros w2 Hdb2 _. rewrite Hdb2, Hdb1. split; [done|].
    split; [done|]. simpl. by rewrite lookup_delete_eq.
Qed.

(** A refresh makes the routing map agree with the instances.  With Redis
    working, after [refreshModelRoutingState] the model's routing entry shows the
    aggregate of its instances' states, and there is no entry when the aggregate has
    none (PENDING, STOPPING, STOPPED); the instances' records are untouched and no
    endpoint of a model that keeps its entry is lost. *)
Theorem refresh_synchronises name w :
  glob_plain keyPrefix = true → MODEL_NAME_PATTERN name = true → instances_wf keyPrefix (w_db w) →
  let '(r, w') := refreshModelRoutingState keyPrefix name w in
  r = inr tt ∧ db_instances (w_db w') = db_instances (w_db w) ∧
  match toRoutingState (deriveAggregateState (model_instances name (w_db w))) with
  | Some rs => (∃ e, db_routing (w_db w') !! name = Some e ∧ re_state e = rs) ∧
               ∀ h p, ep_at (w_db w') name h p = ep_at (w_db w) name h p
  | None => db_routing (w_db w') !! name = None
  end.
Proof.
  intros Hp Hv Hwf. pose proof (refresh_quiet name w Hp Hv Hwf) as Hwp.
  unfold wp in Hwp. destruct (refreshModelRoutingState _ _ w) as [[e|u] w']; [done|]. by destruct Hwp as [-> Hwp].
Qed.
End outcomes.

(** ** Closed examples: an idle, healthy runner *)
Definition idle_env : Env := quiet_env (λ _, 1) (λ _, inr (mkHealth RunnerState.READY (Some 0%Z) None)) (λ _, inl (StartNoReply "")).
#[local] Instance idle_quiet : @QuietRedis idle_env.
Proof. by split. Qed.

Definition ex_sleep : (Exn + unit) * World := @sleepModel idle_env star_scan decimal_date "p" 1000 100 "m" "a" ex_world.

Example ex_sleep_result : ex_sleep.1 = inr tt.
Proof. vm_compute. reflexivity. Qed.

Lemma lifecycle_calls_guarantee_witness :
  Forall (instance_guarantee "p:models:m:a") (w_trace (@run_call idle_env star_scan decimal_date "p" 1000 1000 100 CSleep "m" "a" ex_world).2).
Proof. apply (@lifecycle_calls_guarantee idle_env star_scan decimal_date "p" 1000 1000 100 CSleep "m" "a" ex_world). reflexivity. Defined.

Lemma lifecycle_calls_finish_witness :
  (@run_call idle_env star_scan decimal_date "p" 1000 1000 100 (CStop true) "m" "a" ex_world).1 ≠ inl OutOfFuel.
Proof. apply (@lifecycle_calls_finish idle_env star_scan decimal_date "p" 1000 1000 100 (CStop true) "m" "a" ex_world). lia. Defined.

Lemma sleep_only_when_drained_witness : drained (take 8 (w_trace ex_sleep.2)).
Proof.
  apply (@sleep_only_when_drained idle_env star_scan decimal_date "p" 1000 100 "m" "a" ex_world
           (take 8 (w_trace ex_sleep.2)) (drop 9 (w_trace ex_sleep.2))); [reflexivity|].
  vm_compute. reflexivity.
Defined.

Lemma lifecycle_calls_settle_witness :
  ∃ s', db_instances (w_db (@run_call idle_env star_scan decimal_date "p" 1000 1000 100 CSleep "m" "a" ex_world).2) !! instanceStateKey "p" "m" "a" = Some s' ∧
    state s' = ModelLifecycleState.SLEEPING.
Proof.
  pose proof (@lifecycle_calls_settle idle_env idle_quiet star_scan decimal_date "p" 1000 1000 100 CSleep "m" "a" ex_world
    (ex_inst "m" "a" ModelLifecycleState.ACTIVE) eq_refl) as H.
  assert ((@run_call idle_env star_scan decimal_date "p" 1000 1000 100 CSleep "m" "a" ex_world).1 = inr tt) as Hr by (vm_compute; reflexivity).
  destruct (@run_call idle_env star_scan decimal_date "p" 1000 1000 100 CSleep "m" "a" ex_world) as [r w'].
  cbn [fst] in Hr. subst r. exact H.
Defined.

Lemma stop_releases_holds_witness :
  ∀ worker device, hold (l_budget (w_local (@stopModel idle_env star_scan decimal_date "p" 1000 100 "m" "a" true ex_world).2)) worker device "a" = None.
Proof.
  apply (@stop_releases_holds idle_env idle_quiet star_scan decimal_date "p" 1000 100 "m" "a" true ex_world
    (ex_inst "m" "a" ModelLifecycleState.ACTIVE)); vm_compute; reflexivity.
Defined.

Lemma refresh_synchronises_witness :
  ∃ e, db_routing (w_db (@refreshModelRoutingState idle_env star_scan decimal_date "p" "m" ex_world).2) !! "m" = Some e ∧ re_state e = ModelState.ACTIVE.
Proof.
  pose proof (@refresh_synchronises idle_env idle_quiet star_scan decimal_date "p" "m" ex_world eq_refl eq_refl ex_db_wf) as H.
  destruct (@refreshModelRoutingState idle_env star_scan decimal_date "p" "m" ex_world) as [r w'] eqn:Hrun.
  destruct H as (_ & _ & H). exact (proj1 H).
Defined.
