(* ===== verification/Deploy.v ===== *)
(** * Deploying an instance (control-plane/src/services/deploy-orchestration.ts)

    [deployModel] asks a worker to start the runner of an instance whose record and
    capacity holds already exist, waits until it is ready, and makes it routable.
    The request to the worker can fail without an answer; whether the runner exists
    is then unknown, and the code keeps the capacity and marks the record.  The
    notifications it sends without awaiting them run concurrently and belong to the
    environment. *)
From stdpp Require Import base tactics list strings gmap sets.
From Stdlib Require Import ZArith Lia Ascii.
From S2P Require Import Prelude Js Types Errors MemoryBudget WorkerPool Placement Store ModelName Lifecycle RoutingMap SleepWake.

(** The parameters [deployModel] acts on; the others are passed to the worker. *)
Record DeployModelParams := mkDeploy {
  dp_modelName : string;
  dp_instanceId : string;
  dp_workerId : string;
  dp_protocol : Protocol;
  dp_hasOwner : bool;        (** [isStillOwner] was given *)
  dp_hasCancel : bool;       (** [isCancelled] was given *)
}.

(** [startDispatched] and [startReplyReceived] when something is thrown. *)
Record DeployFlags := mkFlags { startDispatched : bool; startReplyReceived : bool }.

(** Run [m] while the flags have the value [fl]. *)
Definition with_flags {W E A} (fl : DeployFlags) (m : M W E A) : M W (DeployFlags * E) A := λ w,
  match m w with
  | (inl e, w') => (inl (fl, e), w')
  | (inr a, w') => (inr a, w')
  end.
(** [try { m } catch (err) { h }] where the handler sees the flags. *)
Definition catch_flags {W E A} (m : M W (DeployFlags * E) A) (h : DeployFlags → E → M W E A) : M W E A := λ w,
  match m w with
  | (inl (fl, e), w') => h fl e w'
  | (inr a, w') => (inr a, w')
  end.

Definition cancelled_error (name : string) : ControlPlaneError :=
  operationInProgress name "start runner" "the deployment was cancelled before worker dispatch".
Definition deploy_error (name id : string) (msg : option string) : ControlPlaneError :=
  mkCPError 502 RUNNER_UNAVAILABLE
    ("Runner entered ERROR state while deploying instance " +:+ id +:+ " (" +:+ name +:+ "): " +:+ default "unknown" msg).
Definition deploy_timeout (timeoutMs : Z) (name id : string) : ControlPlaneError :=
  mkCPError 504 RUNNER_TIMEOUT
    ("Deploy timed out after " +:+ show_int timeoutMs +:+ "ms for instance " +:+ id +:+ " (" +:+ name +:+ ")").

(** [!(err instanceof WorkerHttpError) || err.status === 409 || err.status >= 500] *)
Definition reply_ambiguous (e : Exn) : bool :=
  match e with
  | WorkerHttpError _ status => Z.eqb status 409 || Z.leb 500 status
  | _ => true
  end.
Definition start_ambiguous (fl : DeployFlags) (e : Exn) : bool :=
  startDispatched fl && negb (startReplyReceived fl) && reply_ambiguous e.

Section service.
Context `{!Env, !RedisScan, !JsDate} (keyPrefix : string).
Context (deployTimeoutMs healthCheckIntervalMs : Z) (startupLogs : bool).

Definition pollRunnerHealth : Svc RunnerHealthResult :=
  catch
    (health ← getHealth;
     mret (mkResult (h_state health) (Some (default 0%Z (h_activeRequests health))) (h_message health)))
    (λ e, mret (mkResult RunnerState.ERROR (Some 0%Z) (Some (err_message e)))).

Definition ready_round (name id : string) (_ : unit) : Svc (unit + unit) :=
  result ← pollRunnerHealth;
  match hr_state result with
  | RunnerState.READY | RunnerState.BUSY => mret (inr tt)
  | RunnerState.ERROR => throw (CPError (deploy_error name id (hr_message result)))
  | _ => mret (inl tt)
  end.
Definition waitForReady (name id : string) : Svc unit :=
  poll_until deployTimeoutMs healthCheckIntervalMs (ready_round name id)
    (throw (CPError (deploy_timeout deployTimeoutMs name id))) tt.

Definition transitionToError (name id msg : string) (ambiguous : bool) : Svc unit :=
  catch
    (transition keyPrefix name id ModelLifecycleState.ERROR
       (mkUpdates None None None None None None (Some (Some msg)) (if ambiguous then Some true else None)) ;;
     refreshModelRoutingState keyPrefix name)
    (λ _, mret tt).

Context (params : DeployModelParams).
Let name := dp_modelName params.
Let id := dp_instanceId params.

(** [params.isStillOwner && !params.isStillOwner()] at this moment *)
Definition owner_lost : Svc bool := gets (λ w, dp_hasOwner params && negb (env_owner (w_step w))).
Definition assertStillOwner : Svc unit :=
  lost ← owner_lost; if (lost : bool) then throw DeployOwnershipLost else mret tt.

(** Up to the dispatch to the worker. *)
Definition before_dispatch : Svc unit :=
  assertStillOwner ;;
  refreshModelRoutingState keyPrefix name ;;
  assertStillOwner ;;
  worker ← gets (λ w, getWorker (dp_workerId params) (l_pool (w_local w)));
  match worker with
  | None => throw (CPError (workerNotFound (dp_workerId params)))
  | Some _ =>
      when startupLogs (side_call "startup-log start") ;;
      assertStillOwner ;;
      cancelled ← gets (λ w, dp_hasCancel params && env_cancelled (w_step w));
      if (cancelled : bool) then throw (CPError (cancelled_error name)) else mret tt
  end.

(** STARTING to ACTIVE, or already ACTIVE by someone else's hand. *)
Definition become_active (info : StartRunnerResponse) (enginePort : Z) : Svc unit :=
  catch
    (transition keyPrefix name id ModelLifecycleState.ACTIVE
       (mkUpdates None (Some (Some (sr_host info))) (Some (Some (sr_port info))) (Some (Some enginePort))
          (Some (Some (sr_runnerId info))) None None None) ;; mret tt)
    (λ e, current ← getInstance keyPrefix name id;
          if decide (state <$> current = Some ModelLifecycleState.ACTIVE) then mret tt else throw e).

Definition release_holds : Svc unit :=
  modify (set_local (set_budget (releaseInstanceReservations id))).

(** From the worker's answer until the routing map shows the instance ... *)
Definition make_active (info : StartRunnerResponse) : Svc unit :=
  assertStillOwner ;;
  let enginePort := default (sr_port info) (sr_enginePort info) in
  setRunnerEndpoint keyPrefix name id (sr_runnerId info) (sr_host info) (sr_port info) (Some enginePort) ;;
  assertStillOwner ;;
  waitForReady name id ;;
  assertStillOwner ;;
  addEndpoint name (mkEndpoint (sr_host info) enginePort 1 true (Some (sr_runnerId info))) (Some (dp_protocol params)) ;;
  assertStillOwner ;;
  become_active info enginePort ;;
  assertStillOwner ;;
  refreshModelRoutingState keyPrefix name.
(** ... and to the end. *)
Definition after_reply (info : StartRunnerResponse) : Svc unit :=
  make_active info ;;
  release_holds ;;
  when startupLogs (catch (side_call "startup-log succeeded") (λ _, mret tt)).

Definition on_failure (fl : DeployFlags) (e : Exn) : Svc unit :=
  lost ← owner_lost;
  if bool_decide (e = DeployOwnershipLost) || lost then throw DeployOwnershipLost else
  let ambiguous := start_ambiguous fl e in
  transitionToError name id (err_message e) ambiguous ;;
  when startupLogs (catch (side_call "startup-log failed") (λ _, mret tt)) ;;
  when (negb ambiguous) release_holds ;;
  throw e.

Definition deployModel : Svc unit :=
  catch_flags
    (with_flags (mkFlags false false) before_dispatch ;;
     info ← with_flags (mkFlags true false) (startRunner id);
     with_flags (mkFlags true true) (after_reply info))
    on_failure.
End service.

(** ** What happens to the capacity held for the instance *)
Definition ambiguous_failure (f : StartFailure) : bool :=
  match f with
  | StartRejected _ status => Z.eqb status 409 || Z.leb 500 status
  | StartNoReply _ => true
  end.
(** The worker was asked to start the runner and the answer leaves its fate open. *)
Definition ambiguous_event (e : Event) : bool :=
  match e with EvStartRunner _ (inl f) => ambiguous_failure f | _ => false end.

Lemma reply_ambiguous_start f : reply_ambiguous (start_exn f) = ambiguous_failure f.
Proof. by destruct f. Qed.

Definition no_start (e : Event) : Prop := ambiguous_event e = false.
#[export] Hint Extern 1 (no_start _) => reflexivity : preserves.

Lemma no_start_existsb l : Forall no_start l → existsb ambiguous_event l = false.
Proof. induction 1 as [|e l He _ IH]; simpl; [done|]. by rewrite He. Qed.

(** Running pieces under flags. *)
Lemma with_flags_run {W E A} fl (m : M W E A) w :
  with_flags fl m w = (match (m w).1 with inl e => inl (fl, e) | inr a => inr a end, (m w).2).
Proof. unfold with_flags. by destruct (m w) as [[e|a] w']. Qed.

(** A command that changes no instance record but the one at [key], and does not delete it. *)
Definition own_change (key : string) (d d' : RedisDb) : Prop :=
  (∀ k, k ≠ key → db_instances d' !! k = db_instances d !! k) ∧
  (db_instances d' !! key = None → db_instances d !! key = None).
Lemma own_change_same key d d' : db_instances d' = db_instances d → own_change key d d'.
Proof. intros Heq. split; intros; congruence. Qed.
Lemma own_change_set key s d : own_change key d (set_instances <[key := s]> d).
Proof. split; simpl; [intros k Hk; by rewrite lookup_insert_ne|by rewrite lookup_insert_eq]. Qed.
Lemma own_change_transition key to u at_ d : own_change key d (transition_script key to u at_ d).2.
Proof.
  destruct (transition_script_guarantee key to u at_ d) as [He Hk]. split; [done|].
  intros Hn. destruct He as [He|(s & s' & _ & Hs' & _)]; congruence.
Qed.

Section pieces.
Context `{!Env, !RedisScan, !JsDate} (keyPrefix : string).
Context (deployTimeoutMs healthCheckIntervalMs : Z) (startupLogs : bool) (params : DeployModelParams).
Context (R : relation World) (ok : Event → Prop) `{!TraceRel R ok}.
Notation name := (dp_modelName params).
Notation id := (dp_instanceId params).
Context (Hredis : ∀ d d', own_change (instanceStateKey keyPrefix name id) d d' → ok (EvRedis d d')).
Context (Hhealth : ∀ h, ok (EvHealth h)) (Hside : ∀ s, ok (EvSide s)) (Hmetric : ∀ f t, ok (EvStateMetric f t)).

Lemma deploy_read d : ok (EvRedis d d).
Proof. by apply Hredis, own_change_same. Qed.
Lemma deploy_routing op d : ok (EvRedis d (run_routing_op op d)).
Proof. apply Hredis, own_change_same, run_routing_op_instances. Qed.
Lemma deploy_endpoint s d : ok (EvRedis d (set_instances <[instanceStateKey keyPrefix name id := s]> d)).
Proof. apply Hredis, own_change_set. Qed.
Hint Resolve deploy_read deploy_routing deploy_endpoint : preserves.

Lemma deploy_transition_preserves to u : preserves R (transition keyPrefix name id to u).
Proof.
  assert (∀ at_ d, ok (EvRedis d (transition_script (instanceStateKey keyPrefix name id) to u at_ d).2)); [|unfold transition; solve_preserves].
  intros at_ d. apply Hredis, own_change_transition.
Qed.
Lemma deploy_refresh_preserves m : preserves R (refreshModelRoutingState keyPrefix m).
Proof. eapply refresh_preserves; [done|auto with preserves..]. Qed.
Lemma deploy_getInstance_preserves : preserves R (getInstance keyPrefix name id).
Proof. unfold getInstance. solve_preserves. Qed.
Hint Resolve deploy_transition_preserves deploy_refresh_preserves deploy_getInstance_preserves : preserves.

Lemma assertStillOwner_preserves : preserves R (assertStillOwner params).
Proof. unfold assertStillOwner, owner_lost. solve_preserves. Qed.
Hint Resolve assertStillOwner_preserves : preserves.

Lemma before_dispatch_preserves : preserves R (before_dispatch keyPrefix startupLogs params).
Proof. unfold before_dispatch, side_call. solve_preserves. Qed.

Lemma deploy_waitForReady_preserves : preserves R (waitForReady deployTimeoutMs healthCheckIntervalMs name id).
Proof. unfold waitForReady, ready_round, pollRunnerHealth, getHealth. solve_preserves. Qed.
Lemma setRunnerEndpoint_preserves r h p e : preserves R (setRunnerEndpoint keyPrefix name id r h p e).
Proof. unfold setRunnerEndpoint. solve_preserves. Qed.
Lemma deploy_addEndpoint_preserves ep proto : preserves R (addEndpoint name ep proto).
Proof. eapply addEndpoint_preserves; [done|auto with preserves..]. Qed.
Lemma become_active_preserves info p : preserves R (become_active keyPrefix params info p).
Proof. unfold become_active. solve_preserves. Qed.
Lemma deploy_transitionToError_preserves msg b : preserves R (transitionToError keyPrefix name id msg b).
Proof. unfold transitionToError. solve_preserves. Qed.
Lemma deploy_side_preserves s : preserves R (catch (side_call s) (λ _, mret tt)).
Proof. unfold side_call. solve_preserves. Qed.
Hint Resolve deploy_waitForReady_preserves setRunnerEndpoint_preserves deploy_addEndpoint_preserves become_active_preserves
  deploy_transitionToError_preserves deploy_side_preserves : preserves.

Lemma make_active_preserves info : preserves R (make_active keyPrefix deployTimeoutMs healthCheckIntervalMs params info).
Proof. unfold make_active. solve_preserves. Qed.
Hint Resolve make_active_preserves : preserves.

Lemma after_reply_preserves `{!ServicesRel R} info :
  preserves R (after_reply keyPrefix deployTimeoutMs healthCheckIntervalMs startupLogs params info).
Proof. unfold after_reply, release_holds. solve_preserves. Qed.
Lemma on_failure_preserves `{!ServicesRel R} fl e : preserves R (on_failure keyPrefix startupLogs params fl e).
Proof. unfold on_failure, owner_lost, release_holds. solve_preserves. Qed.

Lemma deployModel_preserves `{!ServicesRel R} :
  (∀ r, ok (EvStartRunner id r)) → preserves R (deployModel keyPrefix deployTimeoutMs healthCheckIntervalMs startupLogs params).
Proof.
  intros Hstart w. unfold deployModel, catch_flags, mbind, M_bind. rewrite with_flags_run.
  pose proof (before_dispatch_preserves w) as Hb. destruct (before_dispatch _ _ _ w) as [[e|[]] w1]; cbn [fst snd] in *.
  { etransitivity; [done|apply on_failure_preserves]. }
  rewrite with_flags_run. assert (R w (startRunner id w1).2) as Hs.
  { etransitivity; [done|]. unfold startRunner. apply (preserves_http _ ok). auto. }
  destruct (startRunner id w1) as [[e|info] w2]; cbn [fst snd] in *.
  { etransitivity; [done|apply on_failure_preserves]. }
  rewrite with_flags_run. pose proof (after_reply_preserves info w2) as Ha.
  destruct (after_reply _ _ _ _ _ info w2) as [[e|[]] w3]; cbn [fst snd] in *.
  - etransitivity; [done|]. etransitivity; [done|apply on_failure_preserves].
  - by etransitivity.
Qed.
End pieces.

Section holds.
Context `{!Env, !RedisScan, !JsDate} (keyPrefix : string).
Context (deployTimeoutMs healthCheckIntervalMs : Z) (startupLogs : bool) (params : DeployModelParams).
Let id := dp_instanceId params.
Let deploy := deployModel keyPrefix deployTimeoutMs healthCheckIntervalMs startupLogs params.

Definition kept (w w' : World) : Prop := l_budget (w_local w') = l_budget (w_local w).
Definition released (w w' : World) : Prop := l_budget (w_local w') = releaseInstanceReservations id (l_budget (w_local w)).

Context `{!QuietLocal}.

Lemma wp_local {A} (m : Svc A) w :
  preserves same_local m → wp m (λ _ w', w_local w' = w_local w) (λ _ w', w_local w' = w_local w) w.
Proof. intros Hm. specialize (Hm w). unfold wp. by destruct (m w) as [[e|a] w']. Qed.

(** [m.catch(() => {})] never throws. *)
Lemma wp_swallow (m : Svc unit) w :
  preserves same_local m → wp (catch m (λ _, mret tt)) (λ _ w', w_local w' = w_local w) (λ _ _, False) w.
Proof. intros Hm. specialize (Hm w). unfold wp, catch. by destruct (m w) as [[e|[]] w']. Qed.

Lemma wp_side s w :
  wp (when startupLogs (catch (side_call s) (λ _, mret tt))) (λ _ w', w_local w' = w_local w) (λ _ _, False) w.
Proof. destruct startupLogs; [|done]. apply wp_swallow. unfold side_call. solve_preserves. Qed.

(** The failure path keeps the holds exactly when ownership or the reply was lost. *)
Lemma on_failure_holds fl e w :
  wp (on_failure keyPrefix startupLogs params fl e) (λ _ _, False)
    (λ e' w', if decide (e' = DeployOwnershipLost) then kept w w'
              else e' = e ∧ if start_ambiguous fl e then kept w w' else released w w') w.
Proof.
  unfold on_failure. apply wp_bind, wp_gets.
  destruct (bool_decide (e = DeployOwnershipLost) || _) eqn:Hlost.
  { apply wp_throw. by rewrite decide_True. }
  apply orb_false_iff in Hlost as [He _]. rewrite bool_decide_eq_false in He. cbn zeta.
  apply wp_bind. eapply (wp_mono _ (λ _ w', w_local w' = w_local w) _ (λ _ _, False)); [|intros ? w1 Hw1|done].
  { apply wp_swallow. pose proof (deploy_transition_preserves keyPrefix params same_local any_event).
    pose proof (deploy_refresh_preserves keyPrefix params same_local any_event). solve_preserves. }
  apply wp_bind. eapply wp_mono; [apply wp_side|intros ? w2 Hw2|done]. simpl in Hw1, Hw2.
  apply wp_bind. destruct (start_ambiguous fl e); simpl.
  - apply wp_throw. rewrite decide_False by done. split; [done|]. unfold kept. congruence.
  - apply wp_modify, wp_throw. rewrite decide_False by done. split; [done|]. unfold released. simpl. by rewrite Hw2, Hw1.
Qed.

Lemma after_reply_holds info w :
  wp (after_reply keyPrefix deployTimeoutMs healthCheckIntervalMs startupLogs params info)
    (λ _, released w) (λ _ w', w_local w' = w_local w) w.
Proof.
  unfold after_reply. apply wp_bind. eapply wp_mono; [apply wp_local|intros ? w1 Hw1|auto].
  { by apply (make_active_preserves _ _ _ _ _ any_event). }
  apply wp_bind, wp_modify. eapply wp_mono; [apply wp_side|intros ? w2 Hw2|done].
  unfold released. simpl in Hw1, Hw2. rewrite Hw2. simpl. by rewrite Hw1.
Qed.

(** What a piece adds to the trace holds no ambiguous start. *)
Definition quiet_trace (w w' : World) : Prop := existsb ambiguous_event (w_trace w') = existsb ambiguous_event (w_trace w).

Lemma guar_quiet {A} (m : Svc A) w : guar no_start m → quiet_trace w (m w).2.
Proof. intros Hm. destruct (Hm w) as (l & Hl & HG). unfold quiet_trace. by rewrite Hl, existsb_app, (no_start_existsb l HG), orb_false_r. Qed.

Definition contract (w : World) (rw : (Exn + unit) * World) : Prop :=
  match rw.1 with
  | inr _ => released w rw.2
  | inl e =>
      if decide (e = DeployOwnershipLost) then kept w rw.2
      else if existsb ambiguous_event (w_trace rw.2) then kept w rw.2 else released w rw.2
  end.

Lemma failure_contract fl e w w1 :
  w_local w1 = w_local w → start_ambiguous fl e = existsb ambiguous_event (w_trace w1) →
  contract w (on_failure keyPrefix startupLogs params fl e w1).
Proof.
  intros Hl Hamb. pose proof (on_failure_holds fl e w1) as Hf. unfold wp in Hf.
  pose proof (guar_quiet (on_failure keyPrefix startupLogs params fl e) w1) as Hq.
  destruct (on_failure keyPrefix startupLogs params fl e w1) as [[e'|u] w2]; [|done]. unfold contract. cbn [fst snd] in *.
  unfold kept, released in *. rewrite Hl in Hf. destruct (decide (e' = DeployOwnershipLost)); [done|].
  rewrite Hq; [|apply (on_failure_preserves _ _ _ _ no_start); by (done || apply _)]. by rewrite <- Hamb; destruct Hf as [_ Hf].
Qed.

Lemma reply_contract info w w1 :
  w_local w1 = w_local w → existsb ambiguous_event (w_trace w1) = false →
  contract w (catch_flags (with_flags (mkFlags true true) (after_reply keyPrefix deployTimeoutMs healthCheckIntervalMs startupLogs params info))
                (on_failure keyPrefix startupLogs params) w1).
Proof.
  intros Hl Hamb. unfold catch_flags. rewrite with_flags_run.
  set (m := after_reply keyPrefix deployTimeoutMs healthCheckIntervalMs startupLogs params info).
  pose proof (after_reply_holds info w1) as Hh. pose proof (guar_quiet m w1) as Hq. unfold wp in Hh. fold m in Hh.
  destruct (m w1) as [[e|u] w2]; cbn [fst snd] in *.
  - apply failure_contract; [by rewrite Hh|]. rewrite Hq; [done|]. apply (after_reply_preserves _ _ _ _ _ _ no_start); by (done || apply _).
  - unfold contract, released in *. simpl. by rewrite Hh, Hl.
Qed.

(** C2: the capacity contract of a deployment.  With no other request changing the
    budget meanwhile, for every behaviour of Redis, the worker, the runner, ownership and
    cancellation: when [deployModel] returns, the instance's holds are released (the
    runner's own usage now counts); when it throws because ownership was lost, they are
    kept for the next leader; when it throws otherwise, they are kept exactly if the
    worker was asked to start the runner and its answer leaves the runner's fate open (no
    answer, 409, or 5xx), and released in every other case. *)
Theorem deploy_capacity_contract w :
  w_trace w = [] →
  let '(r, w') := deploy w in
  match r with
  | inr _ => released w w'
  | inl e =>
      if decide (e = DeployOwnershipLost) then kept w w'
      else if existsb ambiguous_event (w_trace w') then kept w w' else released w w'
  end.
Proof.
  intros Hw. assert (contract w (deploy w)) as Hc; [|by destruct (deploy w)].
  assert (existsb ambiguous_event (w_trace w) = false) as Hnone by (by rewrite Hw).
  assert (guar no_start (before_dispatch keyPrefix startupLogs params)) as Hg by (by apply (before_dispatch_preserves _ _ _ _ no_start)).
  assert (preserves same_local (before_dispatch keyPrefix startupLogs params)) as Hs by (by apply (before_dispatch_preserves _ _ _ _ any_event)).
  apply (guar_quiet _ w) in Hg as Hq. pose proof (wp_local _ w Hs) as Hl. unfold wp in Hl. unfold quiet_trace in Hq.
  rewrite Hnone in Hq. unfold deploy, deployModel, catch_flags, mbind, M_bind. rewrite !with_flags_run.
  destruct (before_dispatch keyPrefix startupLogs params w) as [[e|[]] w1]; cbn [fst snd] in *; [by apply failure_contract|].
  unfold startRunner, http_call. destruct (env_start (w_step w1)) as [f|info]; cbn [fst snd].
  - apply failure_contract; [simpl; by rewrite quiet_local|]. unfold start_ambiguous. simpl.
    by rewrite existsb_app, Hq, reply_ambiguous_start; simpl; rewrite orb_false_r.
  - apply reply_contract; [simpl; by rewrite quiet_local|]. simpl. by rewrite existsb_app, Hq.
Qed.
End holds.

(** ** Outcomes when Redis works and nobody else writes *)
Section outcomes.
Context `{!Env, !QuietRedis, !RedisScan, !JsDate} (keyPrefix : string).
Context (deployTimeoutMs healthCheckIntervalMs : Z) (startupLogs : bool) (params : DeployModelParams).
Let name := dp_modelName params.
Let id := dp_instanceId params.
Notation at_state P := (st_in keyPrefix name id P).
Notation starting := (λ s, s = ModelLifecycleState.STARTING).
Notation active := (λ s, s = ModelLifecycleState.ACTIVE).

Lemma wp_assertStillOwner P w :
  at_state P w → wp (assertStillOwner params) (λ _, at_state P) (λ e w', e = DeployOwnershipLost ∧ at_state P w') w.
Proof. intros HP. unfold assertStillOwner, owner_lost. apply wp_bind, wp_gets. case_match; [by apply wp_throw|by apply wp_ret]. Qed.

Lemma wp_kept {A} (m : Svc A) P w : keeps_instances m → at_state P w → wp m (λ _, at_state P) (λ _ _, False) w.
Proof. apply wp_keeps. Qed.

Lemma wp_side_call P s w : at_state P w → wp (side_call s) (λ _, at_state P) (λ _, at_state P) w.
Proof.
  intros (r & Hr & HP). unfold wp, side_call, http_call. destruct (env_side (w_step w)); exists r; simpl; by rewrite quiet_db.
Qed.

Lemma wp_before_dispatch P w :
  at_state P w → wp (before_dispatch keyPrefix startupLogs params) (λ _, at_state P) (λ _, at_state P) w.
Proof.
  intros Hw. unfold before_dispatch.
  assert (∀ w, at_state P w → wp (assertStillOwner params) (λ _, at_state P) (λ _, at_state P) w) as Ho.
  { intros w0 Hw0. eapply wp_mono; [by apply wp_assertStillOwner|auto|by intros ?? [_ ?]]. }
  apply wp_bind. eapply wp_mono; [by apply Ho|intros ? w1 Hw1|auto].
  apply wp_bind. eapply wp_mono; [apply wp_kept; [apply refresh_keeps|exact Hw1]|intros ? w2 Hw2|done].
  apply wp_bind. eapply wp_mono; [apply Ho; exact Hw2|intros ? w3 Hw3|auto].
  apply wp_bind, wp_gets. case_match; [|apply wp_throw; exact Hw3].
  apply wp_bind. eapply (wp_mono _ (λ _, at_state P) _ (λ _, at_state P)); [|intros ? w4 Hw4|auto].
  { destruct startupLogs; [apply wp_side_call|]; exact Hw3. }
  apply wp_bind. eapply wp_mono; [apply Ho; exact Hw4|intros ? w5 Hw5|auto].
  apply wp_bind, wp_gets. case_match; [apply wp_throw|apply wp_ret]; exact Hw5.
Qed.

Lemma wp_setRunnerEndpoint P r h p e w :
  at_state P w → wp (setRunnerEndpoint keyPrefix name id r h p e) (λ _, at_state P) (λ _, at_state P) w.
Proof.
  intros (s & Hs & HP). unfold setRunnerEndpoint. apply wp_bind. unfold getInstance. apply wp_redis_quiet.
  intros w1 Hdb1 _. cbn [fst snd] in *. rewrite Hs. apply wp_redis_quiet. intros w2 Hdb2 _. cbn [snd] in Hdb2.
  eexists. rewrite Hdb2. simpl. rewrite lookup_insert_eq. by split.
Qed.

Lemma wp_deploy_waitForReady P w :
  at_state P w → wp (waitForReady deployTimeoutMs healthCheckIntervalMs name id) (λ _, at_state P) (λ _, at_state P) w.
Proof.
  intros Hw. apply wp_poll; [|by intros; apply wp_throw|done]. intros u w1 Hw1. unfold ready_round. apply wp_bind.
  eapply (wp_mono _ (λ _, at_state P) _ (λ _ _, False)); [|intros r w2 Hw2|done].
  - unfold pollRunnerHealth. apply wp_catch, wp_bind. unfold wp at 1, getHealth, http_call.
    destruct Hw1 as (s & Hs & HP). destruct (env_health (w_step w1)); exists s; simpl; by rewrite quiet_db.
  - repeat case_match; first [apply wp_throw; exact Hw2 | apply wp_ret; exact Hw2].
Qed.

Lemma wp_become_active info p w :
  at_state starting w → wp (become_active keyPrefix params info p) (λ _, at_state active) (λ _ _, False) w.
Proof.
  intros Hw. unfold become_active. apply wp_catch, wp_bind. eapply wp_mono; [by apply wp_transition|intros ? w1 Hw1; exact Hw1|].
  intros e w1 (s & _ & -> & Hv). done.
Qed.

(** Making the runner active: what it throws before the transition leaves STARTING;
    after it, it can only lose ownership. *)
Lemma wp_make_active info w :
  at_state starting w →
  wp (make_active keyPrefix deployTimeoutMs healthCheckIntervalMs params info) (λ _, at_state active)
     (λ e w', at_state starting w' ∨ e = DeployOwnershipLost ∧ at_state active w') w.
Proof.
  intros Hw. unfold make_active.
  assert (∀ w, at_state starting w → wp (assertStillOwner params) (λ _, at_state starting)
    (λ e w', at_state starting w' ∨ e = DeployOwnershipLost ∧ at_state active w') w) as Ho.
  { intros w0 Hw0. eapply wp_mono; [by apply wp_assertStillOwner|auto|intros ?? [_ ?]; by left]. }
  apply wp_bind. eapply wp_mono; [by apply Ho|intros ? w1 Hw1; cbn zeta|auto].
  apply wp_bind. eapply wp_mono; [apply wp_setRunnerEndpoint; exact Hw1|intros ? w2 Hw2|auto].
  apply wp_bind. eapply wp_mono; [apply Ho; exact Hw2|intros ? w3 Hw3|auto].
  apply wp_bind. eapply wp_mono; [apply wp_deploy_waitForReady; exact Hw3|intros ? w4 Hw4|auto].
  apply wp_bind. eapply wp_mono; [apply Ho; exact Hw4|intros ? w5 Hw5|auto].
  apply wp_bind. eapply wp_mono; [apply wp_kept; [apply addEndpoint_keeps|exact Hw5]|intros ? w6 Hw6|done].
  apply wp_bind. eapply wp_mono; [apply Ho; exact Hw6|intros ? w7 Hw7|auto].
  apply wp_bind. eapply wp_mono; [apply wp_become_active; exact Hw7|intros ? w8 Hw8|done].
  apply wp_bind. eapply wp_mono; [apply wp_assertStillOwner; exact Hw8|intros ? w9 Hw9|auto].
  apply wp_keeps; [apply refresh_keeps|exact Hw9].
Qed.

(** What a failed deployment leaves behind. *)
Definition failed_state (e : Exn) (w' : World) : Prop :=
  if decide (e = DeployOwnershipLost) then at_state (λ s, s = ModelLifecycleState.STARTING ∨ s = ModelLifecycleState.ACTIVE) w'
  else at_state (λ s, s = ModelLifecycleState.ERROR) w'.

Lemma wp_on_failure fl e (Q : unit → World → Prop) w :
  at_state starting w ∨ e = DeployOwnershipLost ∧ at_state active w →
  wp (on_failure keyPrefix startupLogs params fl e) Q failed_state w.
Proof.
  intros Hw. assert (at_state (λ s, s = ModelLifecycleState.STARTING ∨ s = ModelLifecycleState.ACTIVE) w) as Hany.
  { destruct Hw as [Hw|[_ Hw]]; (eapply st_in_mono; [|exact Hw]); naive_solver. }
  unfold on_failure. apply wp_bind, wp_gets. destruct (bool_decide (e = DeployOwnershipLost) || _) eqn:Hl.
  { apply wp_throw. unfold failed_state. by rewrite decide_True. }
  apply orb_false_iff in Hl as [He _]. rewrite bool_decide_eq_false in He. cbn zeta.
  apply wp_bind. eapply (wp_mono _ (λ _, at_state (λ s, s = ModelLifecycleState.ERROR)) _ (λ _ _, False)); [|intros ? w1 Hw1|done].
  { unfold transitionToError. apply wp_catch, wp_bind. eapply wp_mono; [by eapply wp_transition|intros ? w1 Hw1|intros e1 w1 Hw1].
    - apply wp_keeps; [apply refresh_keeps|exact Hw1].
    - apply wp_ret. eapply st_in_mono; [|exact Hw1]. intros s [_ Hs]. by apply error_edge. }
  apply wp_bind. eapply (wp_mono _ (λ _, at_state (λ s, s = ModelLifecycleState.ERROR)) _ (λ _ _, False)); [|intros ? w2 Hw2|done].
  { destruct startupLogs; [|exact Hw1]. apply wp_catch. eapply wp_mono; [apply wp_side_call; exact Hw1|auto|auto]. }
  apply wp_bind. destruct (negb _); (try apply wp_modify); apply wp_throw; unfold failed_state; rewrite decide_False by done; exact Hw2.
Qed.

Lemma wp_after_reply info w :
  at_state starting w →
  wp (after_reply keyPrefix deployTimeoutMs healthCheckIntervalMs startupLogs params info) (λ _, at_state active)
     (λ e w', at_state starting w' ∨ e = DeployOwnershipLost ∧ at_state active w') w.
Proof.
  intros Hw. unfold after_reply. apply wp_bind. eapply wp_mono; [by apply wp_make_active|intros ? w1 Hw1|auto].
  apply wp_bind, wp_modify. destruct startupLogs; [|exact Hw1].
  apply wp_catch. eapply wp_mono; [apply wp_side_call; exact Hw1|auto|auto].
Qed.

(** A deployment settles.  While Redis works and no other request writes, for an
    instance in STARTING and whatever the worker and the runner do: if [deployModel]
    returns, the instance is ACTIVE; if it throws because this process lost ownership,
    the instance is left STARTING or ACTIVE for its next owner, never demoted; if it
    throws anything else, the instance is in ERROR. *)
Theorem deploy_settles w s :
  db_instances (w_db w) !! instanceStateKey keyPrefix (dp_modelName params) (dp_instanceId params) = Some s →
  state s = ModelLifecycleState.STARTING →
  let '(r, w') := deployModel keyPrefix deployTimeoutMs healthCheckIntervalMs startupLogs params w in
  match r with
  | inr _ => st_in keyPrefix (dp_modelName params) (dp_instanceId params) (λ s, s = ModelLifecycleState.ACTIVE) w'
  | inl e => failed_state e w'
  end.
Proof.
  intros Hs Hst. assert (at_state starting w) as Hw by (by exists s).
  assert (wp (deployModel keyPrefix deployTimeoutMs healthCheckIntervalMs startupLogs params) (λ _, at_state active) failed_state w) as Hwp;
    [|unfold wp in Hwp; by destruct (deployModel _ _ _ _ _ w) as [[e|u] w']].
  pose proof (wp_before_dispatch _ w Hw) as Hb. unfold wp, deployModel, catch_flags, mbind, M_bind in *. rewrite !with_flags_run.
  destruct (before_dispatch keyPrefix startupLogs params w) as [[e|[]] w1]; cbn [fst snd]; [apply wp_on_failure; by left|].
  assert (∀ ev, at_state starting (log_event ev (tick w1))) as Hst2.
  { intros ev. destruct Hb as (s1 & Hs1 & Hst1). exists s1. simpl. by rewrite quiet_db. }
  unfold startRunner, http_call. destruct (env_start (w_step w1)) as [f|info]; cbn [fst snd]; [apply wp_on_failure; by left|].
  rewrite with_flags_run. pose proof (wp_after_reply info _ (Hst2 (EvStartRunner (dp_instanceId params) (inr info)))) as Har. unfold wp in Har.
  destruct (after_reply _ _ _ _ _ _ _) as [[e|u] w2]; cbn [fst snd]; [by apply wp_on_failure|done].
Qed.
End outcomes.

Section finish.
Context `{!Env, !RedisScan, !JsDate} (keyPrefix : string).
Context (deployTimeoutMs healthCheckIntervalMs : Z) (startupLogs : bool) (params : DeployModelParams).

Lemma assertStillOwner_total : total (assertStillOwner params).
Proof. unfold assertStillOwner, owner_lost. solve_total. Qed.
Lemma side_total s : total (side_call s).
Proof. unfold side_call. solve_total. Qed.
Hint Resolve assertStillOwner_total side_total refresh_total : total.

Lemma before_dispatch_total : total (before_dispatch keyPrefix startupLogs params).
Proof. unfold before_dispatch. solve_total. Qed.

Lemma deploy_poll_grows : grows pollRunnerHealth.
Proof. unfold pollRunnerHealth, getHealth. solve_preserves. Qed.
Hint Resolve deploy_poll_grows : preserves.

Lemma after_reply_total info : (0 < healthCheckIntervalMs)%Z →
  total (after_reply keyPrefix deployTimeoutMs healthCheckIntervalMs startupLogs params info).
Proof.
  intros Hi.
  assert (total (waitForReady deployTimeoutMs healthCheckIntervalMs (dp_modelName params) (dp_instanceId params))) as Hr.
  { apply total_poll_until; [done|..]; unfold ready_round;
      [unfold pollRunnerHealth, getHealth; solve_total|solve_preserves|solve_total]. }
  unfold after_reply, make_active, setRunnerEndpoint, addEndpoint, become_active, release_holds. solve_total.
Qed.

Lemma on_failure_total fl e : e ≠ OutOfFuel → total (on_failure keyPrefix startupLogs params fl e).
Proof. intros He. unfold on_failure, owner_lost, transitionToError, release_holds. solve_total. Qed.

(** A deployment always finishes, by returning or throwing, when the
    health-check interval is positive: a runner that never becomes ready runs into the
    deploy timeout. *)
Theorem deploy_finishes w :
  (0 < healthCheckIntervalMs)%Z →
  (deployModel keyPrefix deployTimeoutMs healthCheckIntervalMs startupLogs params w).1 ≠ inl OutOfFuel.
Proof.
  intros Hi. pose proof (before_dispatch_total w) as Hb. unfold deployModel, catch_flags, mbind, M_bind. rewrite !with_flags_run.
  destruct (before_dispatch keyPrefix startupLogs params w) as [[e|[]] w1]; cbn [fst snd] in *; [apply on_failure_total; congruence|].
  unfold startRunner, http_call. destruct (env_start (w_step w1)) as [f|info]; cbn [fst snd].
  - apply on_failure_total. by destruct f.
  - rewrite with_flags_run. pose proof (after_reply_total info Hi) as Ha.
    match goal with |- context [after_reply _ _ _ _ _ _ ?w2] => specialize (Ha w2) end.
    destruct (after_reply _ _ _ _ _ _ _) as [[e|u] w2]; cbn [fst snd] in *; [apply on_failure_total; congruence|done].
Qed.
End finish.

(** ** Closed examples *)
Definition ex_params : DeployModelParams := mkDeploy "m" "c" "w1" Protocol.openai true true.
Definition ex_deploy_db : RedisDb := set_instances (λ _, {["p:models:m:c" := ex_inst "m" "c" ModelLifecycleState.STARTING]}) empty_db.
Definition ex_deploy_world : World :=
  mkWorld ex_deploy_db (mkLocal (reserveCapacity "w1" 0 "c" 40 init_state) [("w1", Placement.example_worker "w1")] ∅ init_recon no_claims []) 1000 0 [].
(** The worker's reply is lost. *)
Definition lost_env : Env := quiet_env (λ _, 1) (λ _, inl "refused") (λ _, inl (StartNoReply "socket hang up")).
(** Everything works. *)
Definition good_env : Env :=
  quiet_env (λ _, 1) (λ _, inr (mkHealth RunnerState.READY (Some 0%Z) None)) (λ _, inr (mkStarted "r1" "h" 8000 (Some 8001%Z))).
#[local] Instance lost_local : @QuietLocal lost_env.
Proof. done. Qed.
#[local] Instance good_quiet : @QuietRedis good_env.
Proof. by split. Qed.

Lemma deploy_capacity_witness :
  hold (l_budget (w_local (@deployModel lost_env star_scan decimal_date "p" 1000 100 true ex_params ex_deploy_world).2)) "w1" 0 "c" = Some 40%Z.
Proof.
  pose proof (@deploy_capacity_contract lost_env star_scan decimal_date "p" 1000 100 true ex_params lost_local ex_deploy_world eq_refl) as H.
  assert (∃ e w', @deployModel lost_env star_scan decimal_date "p" 1000 100 true ex_params ex_deploy_world = (inl e, w') ∧
    e ≠ DeployOwnershipLost ∧ existsb ambiguous_event (w_trace w') = true) as (e & w' & Hrun & He & Hamb).
  { eexists _, _. split; [vm_compute; reflexivity|]. split; [discriminate|reflexivity]. }
  rewrite Hrun in *. rewrite decide_False, Hamb in H by done. cbn [snd]. unfold kept in H. rewrite H. reflexivity.
Defined.

Lemma deploy_settles_witness :
  @st_in "p" "m" "c" (λ s, s = ModelLifecycleState.ACTIVE) (@deployModel good_env star_scan decimal_date "p" 1000 100 true ex_params ex_deploy_world).2.
Proof.
  pose proof (@deploy_settles good_env good_quiet star_scan decimal_date "p" 1000 100 true ex_params ex_deploy_world
    (ex_inst "m" "c" ModelLifecycleState.STARTING) eq_refl eq_refl) as H.
  assert ((@deployModel good_env star_scan decimal_date "p" 1000 100 true ex_params ex_deploy_world).1 = inr tt) as Hr by (vm_compute; reflexivity).
  destruct (@deployModel good_env star_scan decimal_date "p" 1000 100 true ex_params ex_deploy_world) as [r w']. simpl in Hr. by subst r.
Defined.

Lemma deploy_finishes_witness :
  (@deployModel lost_env star_scan decimal_date "p" 1000 100 true ex_params ex_deploy_world).1 ≠ inl OutOfFuel.
Proof. apply (@deploy_finishes lost_env star_scan decimal_date "p" 1000 100 true ex_params ex_deploy_world). reflexivity. Defined.
