(* ===== verification/WorkerClient.v ===== *)
(** * The worker client (control-plane/src/clients/worker.ts)

    The short calls of [WorkerClient] to a worker's management API.  The network and
    the worker are the environment: a request fails (timeout included) or a response
    arrives; what is modelled is how the client reads the response. *)
From stdpp Require Import base tactics list strings gmap.
From Stdlib Require Import ZArith Lia.
From S2P Require Import Prelude Js Types Errors MemoryBudget WorkerPool Store.

Inductive RunnerByInstanceLookup :=
| LookupAbsent
| LookupStarting (runnerId : string)
| LookupReady (runnerId host : string) (port enginePort : Z).

Section client.
Context `{!Env}.

(** [await fetch(...)]: the response, or the failure of the request. *)
Definition fetch {B} (reply : nat → string + HttpResponse B) (ev : option (HttpResponse B) → Event) : Svc (HttpResponse B) :=
  http_call reply OtherError (λ r, ev (match r with inl _ => None | inr response => Some response end)).
(** [await response.json()] *)
Definition response_json {B} (r : HttpResponse B) : Svc B :=
  match rs_json r with inl msg => throw (OtherError msg) | inr b => mret b end.
(** [throw new WorkerHttpError(...)] for a response *)
Definition http_error {A B} (what : string) (r : HttpResponse B) : Svc A :=
  throw (WorkerHttpError ("Worker " +:+ what +:+ " returned " +:+ show_int (rs_status r) +:+ ": " +:+ rs_text r) (rs_status r)).

Definition getRunner (runnerId : string) : Svc bool :=
  response ← fetch env_worker (λ r, EvGetRunner runnerId (rs_status <$> r));
  if Z.eqb (rs_status response) 404 then mret false
  else if negb (rs_ok response) then http_error ("GET /runners/" +:+ runnerId) response
  else mret true.

Definition getRunnerByInstance (instanceId : string) : Svc RunnerByInstanceLookup :=
  response ← fetch env_lookup (EvFindRunner instanceId);
  if Z.eqb (rs_status response) 404 then mret LookupAbsent
  else if negb (Z.eqb (rs_status response) 200) && negb (Z.eqb (rs_status response) 202) then
    http_error ("GET /runners/by-instance/" +:+ instanceId +:+ "/status") response
  else
    body ← response_json response;
    if Z.eqb (rs_status response) 202 || bi_starting body then mret (LookupStarting (bi_runnerId body))
    else if truthy_str (bi_host body) && truthy_num (bi_port body) then
      let port := default 0%Z (bi_port body) in
      mret (LookupReady (bi_runnerId body) (default "" (bi_host body)) port (default port (bi_enginePort body)))
    else throw (OtherError ("Worker returned READY runner " +:+ bi_runnerId body +:+ " without an endpoint")).

Definition stopRunner (runnerId : string) : Svc unit :=
  response ← fetch env_worker (λ r, EvStopRunner runnerId (rs_status <$> r));
  if negb (rs_ok response) then http_error ("DELETE /runners/" +:+ runnerId) response else mret tt.

Section preserves.
Context (R : relation World) (ok : Event → Prop) `{!TraceRel R ok}.
Lemma getRunner_preserves id : (∀ r, ok (EvGetRunner id r)) → preserves R (getRunner id).
Proof. intros He. unfold getRunner, fetch, http_error. solve_preserves. Qed.
Lemma getRunnerByInstance_preserves id : (∀ r, ok (EvFindRunner id r)) → preserves R (getRunnerByInstance id).
Proof. intros He. unfold getRunnerByInstance, fetch, http_error, response_json. solve_preserves. Qed.
Lemma stopRunner_preserves id : (∀ r, ok (EvStopRunner id r)) → preserves R (stopRunner id).
Proof. intros He. unfold stopRunner, fetch, http_error. solve_preserves. Qed.
End preserves.

Lemma getRunner_total id : total (getRunner id).
Proof. unfold getRunner, fetch, http_error. solve_total. Qed.
Lemma getRunnerByInstance_total id : total (getRunnerByInstance id).
Proof. unfold getRunnerByInstance, fetch, http_error, response_json. solve_total. Qed.
Lemma stopRunner_total id : total (stopRunner id).
Proof. unfold stopRunner, fetch, http_error. solve_total. Qed.
End client.

#[export] Hint Resolve getRunner_preserves getRunnerByInstance_preserves stopRunner_preserves : preserves.
#[export] Hint Resolve getRunner_total getRunnerByInstance_total stopRunner_total : total.
