(* ===== verification/Reconciliation.v ===== *)
(** * The reconciliation loop (control-plane/src/services/reconciliation.ts)

    Every few seconds the leader repairs what failures have left behind: instances on
    workers that stopped reporting, instances stuck between two states, starts whose
    outcome was never learnt, records of runners that are gone, and records and rows
    without their counterpart.  Each step is a definition here, [reconcile_tick] is
    [tick].

    The worker announcements, heartbeats and memory reports in Redis and the tables in
    PostgreSQL are read only; what each read returns is the environment's choice.  The
    moves that a tick resumes, and the log captures it starts, run beside it: they too
    are part of the environment. *)
From stdpp Require Import base tactics list strings gmap sets.
From Stdlib Require Import ZArith Lia Ascii.
From S2P Require Import Prelude Js Types Errors MemoryBudget WorkerPool Store ModelName Lifecycle RoutingMap SleepWake WorkerClient.

(** What the reads of a tick return: an error message, or the answer.  Of a pipeline
    it is [None] when [exec()] gave [null], and [None] for a command that failed or
    found nothing. *)
Class ReconEnv := {
  re_info_keys : nat → string + list string;
  re_infos : nat → string + option (list (option string));
  re_heartbeats : nat → list string → string + option (list (option string));
  re_memory_keys : nat → string + list string;
  re_memory : nat → string + option (list (option string));
  re_model_names : nat → string + list string;             (** [modelRepository.findAll()] *)
  re_model_row : nat → string → string + bool;             (** [findByName(..) !== null] *)
  re_instance_rows : nat → string + list string;           (** [instanceRepository.findAll()] *)
  re_incomplete : nat → string + unit;                     (** [startupLogRepository.listIncomplete()] *)
}.

Inductive timeout_type := TimeoutDeploy | TimeoutSleep.
Definition TRANSITIONAL_STATES (s : ModelLifecycleState) : option timeout_type :=
  match s with
  | ModelLifecycleState.STARTING => Some TimeoutDeploy
  | ModelLifecycleState.DRAINING | ModelLifecycleState.STOPPING => Some TimeoutSleep
  | _ => None
  end.

Definition isActiveOrTransitional (s : ModelLifecycleState) : bool :=
  negb (bool_decide (s = ModelLifecycleState.STOPPED)) && negb (bool_decide (s = ModelLifecycleState.ERROR)).

Definition worker_status_str (s : WorkerStatus) : string :=
  match s with WorkerStatus.ONLINE => "ONLINE" | WorkerStatus.DEGRADED => "DEGRADED" | WorkerStatus.OFFLINE => "OFFLINE" end.
Definition all_worker_statuses : list WorkerStatus := [WorkerStatus.ONLINE; WorkerStatus.DEGRADED; WorkerStatus.OFFLINE].

(** The [Map] of counts: every label at 0, then one increment per item. *)
Definition count_labels (labels items : list string) : list (string * Z) :=
  foldl (λ m x, jm_set m x (default 0%Z (jm_get m x) + 1)%Z)
    (foldl (λ m l, jm_set m l 0%Z) [] labels) items.

(** [Math.round(ms / 1000)] of a whole number of milliseconds, and of [NaN] *)
Definition round_secs (ms : option Z) : string :=
  match ms with Some ms => show_int ((ms + 500) / 1000) | None => "NaN" end.

(** [now - new Date(since).getTime()], [None] for [NaN] *)
Definition age_ms `{!JsDate} (now : Z) (since : string) : option Z := t ← getTime since; Some (now - t)%Z.
(** [age <= limit], which is false of [NaN] *)
Definition at_most (age : option Z) (limit : Z) : bool := match age with Some a => Z.leb a limit | None => false end.

Section service.
Context `{!Env, !ReconEnv, !RedisScan, !JsDate} (JSON_parse : string → option json) (keyPrefix : string).
Context (heartbeatTimeoutSecs staleAfterSecs : Z).
Context (deployTimeoutSecs sleepTimeoutSecs missingRunnerProbeGraceSecs : Z).
(** which of the optional collaborators are wired *)
Context (notifications instanceRepository modelRepository createWorkerClient moveOrchestration startupLogCapture : bool).

Definition read_call {A} (what : string) (reply : nat → string + A) : Svc A :=
  http_call reply OtherError (λ _, EvRead what).
Definition clock_now : Svc Z := now ← date_now; modify (log_event (EvClock now)) ;; mret now.
Definition notify (title description : string) : Svc unit :=
  when notifications (modify (log_event (EvNotify title description))).
Definition count (metric : string) : Svc unit := modify (log_event (EvCount metric)).
Definition gauge (metric : string) (labels : list string) (value : Z) : Svc unit :=
  modify (log_event (EvGauge metric labels value)).
(** Something else of this process runs to its end while this method awaits it. *)
Definition await_others : Svc unit := λ w, (inr tt, tick w).

Definition publishClusterEvent (type : string) (workerId : option string) : Svc unit :=
  swallow (http_call (λ n, match env_fault n with NoFault => inr tt | FailBefore msg | FailAfter msg => inl msg end)
             OtherError (λ _, EvCluster type workerId)).

Definition safeStep (name : string) (fn : Svc unit) : Svc unit :=
  attempt fn (λ _, count ("reconciliation_errors_total:" +:+ name)).

(** ** The registries *)

(** [workerPool.discoverWorkers()], [workerPool.checkHeartbeats()] and
    [memoryBudget.refreshAll()] with the reads they await *)
Definition apply_announcements (now : Z) (infoKeys : list string) (raws : list (option string)) : Svc (list string) := λ w,
  let '(ws, discovered) := foldl (discover_entry JSON_parse now) (l_pool (w_local w), []) (zip infoKeys raws) in
  (inr discovered, set_local (set_pool (λ _, ws)) w).
Definition read_heartbeats (ids : list string) (andThen : Svc unit) : Svc unit :=
  hbResults ← read_call "heartbeats" (λ n, re_heartbeats n ids);
  match hbResults with
  | None => mret tt
  | Some hbs =>
      now ← date_now;
      modify (set_local (set_pool (λ ws, foldl (heartbeat_entry heartbeatTimeoutSecs now) ws (zip ids hbs)))) ;;
      andThen
  end.

Definition discover_step : Svc unit :=
  infoKeys ← read_call "worker keys" re_info_keys;
  match infoKeys with
  | [] => mret tt
  | _ =>
      infoResults ← read_call "worker info" re_infos;
      match infoResults with
      | None => mret tt
      | Some raws =>
          now ← date_now;
          discovered ← apply_announcements now infoKeys raws;
          match discovered with [] => mret tt | _ => read_heartbeats discovered (mret tt) end
      end
  end.

Definition heartbeats_step : Svc unit :=
  workerIds ← gets (λ w, jm_keys (l_pool (w_local w)));
  match workerIds with
  | [] => mret tt
  | _ => read_heartbeats workerIds (side_call "worker detail snapshots")
  end.

Definition memory_step : Svc unit :=
  keys ← read_call "memory keys" re_memory_keys;
  match keys with
  | [] => modify (set_local (set_budget (λ _, init_state)))
  | _ =>
      results ← read_call "memory reports" re_memory;
      match results with
      | None => mret tt
      | Some raws =>
          now ← date_now;
          modify (set_local (set_budget (refreshAll JSON_parse keyPrefix now keys (Some raws)))) ;;
          side_call "cluster memory snapshot"
      end
  end.

Definition announce_joined (workerIdsBefore : list string) : Svc unit :=
  workers ← gets (λ w, getAllWorkers (l_pool (w_local w)));
  for_each workers (λ r,
    if decide (wr_workerId r ∈ workerIdsBefore) then mret tt else
    publishClusterEvent "WORKER_JOINED" (Some (wr_workerId r)) ;;
    notify "Worker joined" ("Worker " +:+ wr_workerId r +:+ " joined the cluster")).

Definition announce_memory : Svc unit :=
  now ← date_now;
  budgets ← gets (λ w, getAllBudgets staleAfterSecs now (l_budget (w_local w)));
  match budgets with [] => mret tt | _ => publishClusterEvent "WORKER_MEMORY_UPDATED" None end.

(** ** Removing an instance that is lost *)
Definition delete_row (id : string) : Svc unit :=
  when instanceRepository (side_call ("instance row deleted: " +:+ id)).

Definition reap_instance (instance : InstanceState) (reason counter title workerId : string) : Svc unit :=
  let name := modelName instance in
  transition keyPrefix name (instanceId instance) ModelLifecycleState.ERROR (error_update reason) ;;
  remove_own_endpoint name instance ;;
  refreshModelRoutingState keyPrefix name ;;
  removeInstance keyPrefix name (instanceId instance) ;;
  delete_row (instanceId instance) ;;
  releaseHolds (instanceId instance) ;;
  count counter ;;
  notify title (name +:+ " (" +:+ instanceId instance +:+ ") on " +:+ workerId).

(** ** Dead workers *)
Definition handle_dead_worker (allInstances : list InstanceState) (worker : WorkerRecord) : Svc unit :=
  let id := wr_workerId worker in
  for_each (List.filter (λ i, bool_decide (workerId i = Some id) && isActiveOrTransitional (state i)) allInstances)
    (λ i, swallow (reap_instance i ("Worker " +:+ id +:+ " is dead") "reconciliation_dead_workers_total"
                     "Model failed — worker lost" id)) ;;
  publishClusterEvent "WORKER_LEFT" (Some id) ;;
  notify "Worker lost" ("Worker " +:+ id +:+ " left the cluster") ;;
  modify (set_local (set_pool (removeWorker id))) ;;
  modify (set_local (set_budget (clearWorkerReservations id))).

Definition handleDeadWorkers : Svc unit :=
  deadWorkers ← gets (λ w, getDeadWorkers (l_pool (w_local w)));
  match deadWorkers with
  | [] => mret tt
  | _ =>
      modify (log_event (EvDeadWorkers (wr_workerId <$> deadWorkers))) ;;
      allInstances ← getAllInstances keyPrefix;
      for_each deadWorkers (handle_dead_worker allInstances)
  end.

(** ** Instances stuck between two states *)
Definition timeout_secs (t : timeout_type) : Z :=
  match t with TimeoutDeploy => deployTimeoutSecs | TimeoutSleep => sleepTimeoutSecs end.

Definition recover_stuck (now : Z) (instance : InstanceState) : Svc unit :=
  match TRANSITIONAL_STATES (state instance) with
  | None => mret tt
  | Some type =>
      let stateAge := age_ms now (stateChangedAt instance) in
      if at_most stateAge (timeout_secs type * 1000) then mret tt else
      let name := modelName instance in
      swallow
        (transition keyPrefix name (instanceId instance) ModelLifecycleState.ERROR
           (error_update ("Stuck in " +:+ lifecycle_str (state instance) +:+ " for " +:+ round_secs stateAge
                          +:+ "s (timeout: " +:+ show_int (timeout_secs type) +:+ "s)")) ;;
         remove_own_endpoint name instance ;;
         refreshModelRoutingState keyPrefix name ;;
         count "reconciliation_stuck_models_total" ;;
         notify "Model timed out"
           (name +:+ " (" +:+ instanceId instance +:+ ") stuck in " +:+ lifecycle_str (state instance)))
  end.

Definition recoverStuckInstances : Svc unit :=
  allInstances ← getAllInstances keyPrefix;
  now ← clock_now;
  for_each allInstances (recover_stuck now).

(** ** Starts whose outcome is unknown *)
Definition stop_found_runner (lookup : RunnerByInstanceLookup) : Svc unit :=
  match lookup with
  | LookupReady rId _ _ _ =>
      attempt (stopRunner rId) (λ e, match e with WorkerHttpError _ 404 => mret tt | _ => throw e end)
  | _ => mret tt
  end.

Definition drop_instance (instance : InstanceState) : Svc unit :=
  let name := modelName instance in
  remove_own_endpoint name instance ;;
  removeInstance keyPrefix name (instanceId instance) ;;
  delete_row (instanceId instance) ;;
  releaseHolds (instanceId instance) ;;
  refreshModelRoutingState keyPrefix name.

Definition recover_ambiguous (now : Z) (instance : InstanceState) : Svc unit :=
  swallow
    (worker ← getWorkerNow (default "" (workerId instance));
     match worker with
     | None => mret tt
     | Some r =>
         if decide (status r = WorkerStatus.OFFLINE) then mret tt else
         lookup ← getRunnerByInstance (instanceId instance);
         match lookup with
         | LookupStarting _ => mret tt
         | LookupAbsent =>
             if at_most (age_ms now (stateChangedAt instance)) (missingRunnerProbeGraceSecs * 1000) then mret tt
             else drop_instance instance
         | LookupReady _ _ _ _ => stop_found_runner lookup ;; drop_instance instance
         end
     end).

Definition ambiguous_candidate (i : InstanceState) : bool :=
  bool_decide (state i = ModelLifecycleState.ERROR) && runnerStartAmbiguous i && bool_decide (is_Some (workerId i)).

Definition recoverAmbiguousStarts : Svc unit :=
  if negb createWorkerClient then mret tt else
  now ← clock_now;
  allInstances ← getAllInstances keyPrefix;
  for_each (List.filter ambiguous_candidate allInstances) (recover_ambiguous now).

(** ** Runners their worker no longer has *)
Definition missing_candidate (ws : WorkerPool) (i : InstanceState) : bool :=
  truthy_str (runnerId i) && truthy_str (workerId i) &&
  bool_decide (state i = ModelLifecycleState.ACTIVE ∨ state i = ModelLifecycleState.STARTING) &&
  match getWorker (default "" (workerId i)) ws with
  | Some r => negb (bool_decide (status r = WorkerStatus.OFFLINE))
  | None => false
  end.

(** [None]: the worker could not be asked. *)
Definition probe_runner (workerId runnerId : string) : Svc (option bool) :=
  attempt
    (worker ← getWorkerNow workerId;
     match worker with
     | None => throw (OtherError "Cannot read properties of null (reading 'managementUrl')")
     | Some _ => found (getRunner runnerId)
     end)
    (λ _, mret None).

Definition reconcile_missing (now : Z) (instance : InstanceState) : Svc unit :=
  if bool_decide (state instance = ModelLifecycleState.STARTING) &&
     at_most (age_ms now (stateChangedAt instance)) (missingRunnerProbeGraceSecs * 1000) then mret tt else
  let wid := default "" (workerId instance) in
  let rId := default "" (runnerId instance) in
  swallow
    (present ← probe_runner wid rId;
     match present with
     | None | Some true => mret tt
     | Some false =>
         reap_instance instance ("Runner " +:+ rId +:+ " no longer hosted by worker " +:+ wid)
           "reconciliation_missing_runners_total" "Model failed — runner lost" wid
     end).

Definition reconcileMissingRunners : Svc unit :=
  if negb createWorkerClient then mret tt else
  allInstances ← getAllInstances keyPrefix;
  ws ← gets (λ w, l_pool (w_local w));
  match List.filter (missing_candidate ws) allInstances with
  | [] => mret tt
  | candidates => now ← clock_now; for_each candidates (reconcile_missing now)
  end.

(** ** Rows without a record, records without a row *)
Definition reconcileInstanceTable : Svc unit :=
  if negb instanceRepository then mret tt else
  pgInstances ← read_call "instance rows" re_instance_rows;
  redisInstances ← getAllInstances keyPrefix;
  for_each pgInstances (λ id,
    if decide (id ∈ instanceId <$> redisInstances) then mret tt
    else swallow (side_call ("instance row deleted: " +:+ id))).

(** [true]: the record may be dropped. *)
Definition stop_orphan_runner (instance : InstanceState) : Svc bool :=
  if truthy_str (workerId instance) && truthy_str (runnerId instance) && createWorkerClient then
    worker ← getWorkerNow (default "" (workerId instance));
    match worker with
    | None => mret true
    | Some _ =>
        attempt (stopRunner (default "" (runnerId instance)) ;; mret true)
          (λ e, match e with WorkerHttpError _ 404 => mret true | _ => mret false end)
    end
  else mret true.

Definition findByName (name : string) : Svc bool :=
  http_call (λ n, re_model_row n name) OtherError
    (λ r, EvModelRow name (match r with inl _ => None | inr b => Some b end)).

Definition reap_orphan (instance : InstanceState) : Svc unit :=
  let name := modelName instance in
  swallow
    (row ← findByName name;
     if (row : bool) then mret tt else
     stopped ← stop_orphan_runner instance;
     if negb stopped then mret tt else
     releaseHolds (instanceId instance) ;;
     remove_own_endpoint name instance ;;
     removeInstance keyPrefix name (instanceId instance)).

Definition reapOrphanedInstances : Svc unit :=
  if negb modelRepository then mret tt else
  allInstances ← getAllInstances keyPrefix;
  modelNames ← read_call "model rows" re_model_names;
  for_each (List.filter (λ i, negb (bool_decide (modelName i ∈ modelNames))) allInstances) reap_orphan.

(** ** Metrics *)
Definition device_gauges (workerId : string) (d : DeviceBudget) : Svc unit :=
  let index := show_int (deviceIndex d) in
  gauge "device_memory_bytes" [workerId; index; "total"] (totalBytes d) ;;
  gauge "device_memory_bytes" [workerId; index; "used"] (usedBytes d) ;;
  gauge "device_memory_bytes" [workerId; index; "available"] (availableBytes d).

Definition refreshMetrics : Svc unit :=
  allInstances ← getAllInstances keyPrefix;
  for_each (count_labels (lifecycle_str <$> all_lifecycle_states) ((λ i, lifecycle_str (state i)) <$> allInstances))
    (λ kc, gauge "models_total" [kc.1] kc.2) ;;
  allWorkers ← gets (λ w, getAllWorkers (l_pool (w_local w)));
  for_each (count_labels (worker_status_str <$> all_worker_statuses) ((λ r, worker_status_str (status r)) <$> allWorkers))
    (λ kc, gauge "workers_total" [kc.1] kc.2) ;;
  now ← date_now;
  allBudgets ← gets (λ w, getAllBudgets staleAfterSecs now (l_budget (w_local w)));
  for_each allBudgets (λ b, if stale b then mret tt else for_each (wb_devices b) (device_gauges (wb_workerId b))).

(** ** The loop *)
Definition resume_moves : Svc unit :=
  when moveOrchestration (getAllMoveOperations keyPrefix ;; await_others).

Definition set_flags (f : ReconFlags → ReconFlags) : Svc unit := modify (set_local (set_recon f)).
Definition prune_once : Svc unit :=
  flags ← gets (λ w, l_recon (w_local w));
  if legacyPruneDone flags then mret tt else
  safeStep "pruneLegacyInstanceKeys" (pruneLegacyInstanceKeys keyPrefix ;; mret tt) ;;
  set_flags (λ r, mkRecon (wasLeader r) (recon_running r) true (recon_timer r)).

Definition tick_steps : Svc unit :=
  set_flags (λ r, mkRecon true (recon_running r) (legacyPruneDone r) (recon_timer r)) ;;
  count "reconciliation_ticks_total" ;;
  workerIdsBefore ← gets (λ w, wr_workerId <$> getAllWorkers (l_pool (w_local w)));
  safeStep "discoverWorkers" discover_step ;;
  safeStep "checkHeartbeats" heartbeats_step ;;
  safeStep "publishWorkerJoinEvents" (announce_joined workerIdsBefore) ;;
  safeStep "handleDeadWorkers" handleDeadWorkers ;;
  prune_once ;;
  safeStep "refreshMemoryBudgets" memory_step ;;
  safeStep "publishMemoryUpdateEvent" announce_memory ;;
  safeStep "resumeMoves" resume_moves ;;
  safeStep "resumeStartupLogCapture" (when startupLogCapture (read_call "incomplete captures" re_incomplete)) ;;
  safeStep "recoverStuckInstances" recoverStuckInstances ;;
  safeStep "recoverAmbiguousStarts" recoverAmbiguousStarts ;;
  safeStep "reconcileMissingRunners" reconcileMissingRunners ;;
  safeStep "reconcileInstanceTable" reconcileInstanceTable ;;
  safeStep "reapOrphanedInstances" reapOrphanedInstances ;;
  safeStep "refreshMetrics" refreshMetrics.

Definition reconcile_tick : Svc unit :=
  leader ← isLeader;
  if negb leader then set_flags (λ r, mkRecon false (recon_running r) (legacyPruneDone r) (recon_timer r)) else
  flags ← gets (λ w, l_recon (w_local w));
  if recon_running flags then mret tt else
  set_flags (λ r, mkRecon (wasLeader r) true (legacyPruneDone r) (recon_timer r)) ;;
  finally tick_steps (set_flags (λ r, mkRecon (wasLeader r) false (legacyPruneDone r) (recon_timer r))).

(** The timer: [Some intervalMs] when a call sets one up. *)
Definition reconcile_start (intervalSecs : Z) (r : ReconFlags) : option Z * ReconFlags :=
  if recon_timer r then (None, r)
  else (Some (intervalSecs * 1000)%Z, mkRecon (wasLeader r) (recon_running r) (legacyPruneDone r) true).
Definition reconcile_stop (r : ReconFlags) : ReconFlags :=
  if recon_timer r then mkRecon (wasLeader r) (recon_running r) (legacyPruneDone r) false else r.
End service.

(** ** Every tick ends *)
Section total.
Context `{!Env, !ReconEnv, !RedisScan, !JsDate} (JSON_parse : string → option json) (keyPrefix : string).
Context (heartbeatTimeoutSecs staleAfterSecs deployTimeoutSecs sleepTimeoutSecs graceSecs : Z).
Context (notifications instanceRepository modelRepository createWorkerClient moveOrchestration startupLogCapture : bool).

Lemma read_call_total {A} what (reply : nat → string + A) : total (read_call what reply).
Proof. unfold read_call. solve_total. Qed.
Lemma side_call_total what : total (side_call what).
Proof. unfold side_call. solve_total. Qed.
Lemma notify_total t d : total (notify notifications t d).
Proof. unfold notify. solve_total. Qed.
Lemma publishClusterEvent_total t id : total (publishClusterEvent t id).
Proof. unfold publishClusterEvent. solve_total. Qed.
Lemma remove_own_endpoint_total name s : total (remove_own_endpoint name s).
Proof. unfold remove_own_endpoint, removeEndpoint. solve_total. Qed.
Lemma getAllInstances_total : total (getAllInstances keyPrefix).
Proof. unfold getAllInstances. solve_total. Qed.
Lemma removeInstance_total name id : total (removeInstance keyPrefix name id).
Proof. unfold removeInstance. solve_total. Qed.
Hint Resolve read_call_total side_call_total notify_total publishClusterEvent_total remove_own_endpoint_total
  refresh_total getAllInstances_total removeInstance_total : total.

Lemma delete_row_total id : total (delete_row instanceRepository id).
Proof. unfold delete_row. solve_total. Qed.
Hint Resolve delete_row_total : total.
Lemma reap_instance_total i r c t w : total (reap_instance keyPrefix notifications instanceRepository i r c t w).
Proof. unfold reap_instance, releaseHolds, count. solve_total. Qed.
Lemma drop_instance_total i : total (drop_instance keyPrefix instanceRepository i).
Proof. unfold drop_instance, releaseHolds. solve_total. Qed.
Hint Resolve reap_instance_total drop_instance_total : total.

Lemma read_heartbeats_total ids m : total m → total (read_heartbeats heartbeatTimeoutSecs ids m).
Proof. intros Hm. unfold read_heartbeats. solve_total. Qed.
Hint Resolve read_heartbeats_total : total.
Lemma apply_announcements_total now ks raws : total (apply_announcements JSON_parse now ks raws).
Proof. intros w. unfold apply_announcements. by destruct (foldl _ _ _). Qed.
Hint Resolve apply_announcements_total : total.
Lemma discover_step_total : total (discover_step JSON_parse heartbeatTimeoutSecs).
Proof. unfold discover_step. solve_total. Qed.
Lemma heartbeats_step_total : total (heartbeats_step heartbeatTimeoutSecs).
Proof. unfold heartbeats_step. solve_total. Qed.
Lemma memory_step_total : total (memory_step JSON_parse keyPrefix).
Proof. unfold memory_step. solve_total. Qed.
Lemma announce_joined_total ids : total (announce_joined notifications ids).
Proof. unfold announce_joined. solve_total. Qed.
Lemma announce_memory_total : total (announce_memory staleAfterSecs).
Proof. unfold announce_memory. solve_total. Qed.
Lemma handle_dead_worker_total l r : total (handle_dead_worker keyPrefix notifications instanceRepository l r).
Proof. unfold handle_dead_worker. solve_total. Qed.
Hint Resolve handle_dead_worker_total : total.
Lemma handleDeadWorkers_total : total (handleDeadWorkers keyPrefix notifications instanceRepository).
Proof. unfold handleDeadWorkers. solve_total. Qed.
Lemma recoverStuckInstances_total : total (recoverStuckInstances keyPrefix deployTimeoutSecs sleepTimeoutSecs notifications).
Proof. unfold recoverStuckInstances, clock_now, recover_stuck, count. solve_total. Qed.
Lemma recoverAmbiguousStarts_total : total (recoverAmbiguousStarts keyPrefix graceSecs instanceRepository createWorkerClient).
Proof. unfold recoverAmbiguousStarts, clock_now, recover_ambiguous, stop_found_runner, getWorkerNow. solve_total. Qed.
Lemma reconcileMissingRunners_total :
  total (reconcileMissingRunners keyPrefix graceSecs notifications instanceRepository createWorkerClient).
Proof. unfold reconcileMissingRunners, clock_now, reconcile_missing, probe_runner, getWorkerNow. solve_total. Qed.
Lemma reconcileInstanceTable_total : total (reconcileInstanceTable keyPrefix instanceRepository).
Proof. unfold reconcileInstanceTable. solve_total. Qed.
Lemma reapOrphanedInstances_total : total (reapOrphanedInstances keyPrefix modelRepository createWorkerClient).
Proof. unfold reapOrphanedInstances, reap_orphan, findByName, stop_orphan_runner, getWorkerNow, releaseHolds. solve_total. Qed.
Lemma refreshMetrics_total : total (refreshMetrics keyPrefix staleAfterSecs).
Proof. unfold refreshMetrics, device_gauges, gauge. solve_total. Qed.
Lemma resume_moves_total : total (resume_moves keyPrefix moveOrchestration).
Proof. unfold resume_moves, getAllMoveOperations. apply total_when, total_bind; [solve_total|]. by intros _ w. Qed.

Lemma returns_safeStep name m : total m → returns (safeStep name m).
Proof. intros Hm. apply returns_attempt; [done|]. intros e w. by exists tt. Qed.
Lemma returns_modify (f : World → World) : returns (modify (E := Exn) f).
Proof. intros w. by exists tt. Qed.

Notation tick_ := (reconcile_tick JSON_parse keyPrefix heartbeatTimeoutSecs staleAfterSecs deployTimeoutSecs sleepTimeoutSecs
  graceSecs notifications instanceRepository modelRepository createWorkerClient moveOrchestration startupLogCapture).

Lemma prune_keys_total ks removed : total (prune_keys keyPrefix ks removed).
Proof. revert removed. induction ks as [|k ks IH]; intros removed; simpl; [|case_match]; solve_total. Qed.
Lemma prune_once_returns : returns (prune_once keyPrefix).
Proof.
  intros w. unfold prune_once, mbind, M_bind, gets. cbn beta iota. case_match; [by exists tt|].
  apply (returns_bind (safeStep _ _)); [|intros ?; apply returns_modify]. apply returns_safeStep.
  unfold pruneLegacyInstanceKeys. pose proof prune_keys_total. solve_total.
Qed.

Lemma tick_steps_returns :
  returns (tick_steps JSON_parse keyPrefix heartbeatTimeoutSecs staleAfterSecs deployTimeoutSecs sleepTimeoutSecs
    graceSecs notifications instanceRepository modelRepository createWorkerClient moveOrchestration startupLogCapture).
Proof.
  unfold tick_steps.
  repeat first [apply prune_once_returns | apply returns_bind; [|intros ?]];
    first [apply returns_modify | (by (intros w; eexists)) | apply returns_safeStep];
    auto using discover_step_total, heartbeats_step_total, announce_joined_total, handleDeadWorkers_total, memory_step_total,
      announce_memory_total, resume_moves_total, recoverStuckInstances_total, recoverAmbiguousStarts_total,
      reconcileMissingRunners_total, reconcileInstanceTable_total, reapOrphanedInstances_total, refreshMetrics_total with total.
Qed.

(** A tick always ends normally, whatever fails inside it: it never throws, and it
    leaves the re-entrancy mark clear, so no failure can stop the loop.  On a process
    that is not the leader, or while another tick runs, it does nothing (a non-leader
    forgets that it was one). *)
Theorem reconcile_tick_returns w :
  let '(r, w') := tick_ w in
  r = inr tt ∧
  (env_leader (w_step w) = false →
    w' = set_local (set_recon (λ f, mkRecon false (recon_running f) (legacyPruneDone f) (recon_timer f))) w) ∧
  (env_leader (w_step w) = true → recon_running (l_recon (w_local w)) = true → w' = w) ∧
  (env_leader (w_step w) = true → recon_running (l_recon (w_local w)) = false →
    recon_running (l_recon (w_local w')) = false).
Proof.
  unfold reconcile_tick, isLeader, mbind, M_bind, gets. cbn beta iota.
  destruct (env_leader (w_step w)); cbn [negb]; [|by repeat split].
  destruct (recon_running (l_recon (w_local w))) eqn:Hr; [by repeat split|].
  unfold set_flags at 1. unfold modify, finally. cbn beta iota.
  set (w0 := set_local _ w). destruct (tick_steps_returns w0) as [[] Ha].
  destruct (tick_steps _ _ _ _ _ _ _ _ _ _ _ _ _ w0) as [r w1]. simpl in Ha. subst r. by repeat split.
Qed.
End total.

(** ** What a tick may do to the instance records *)
Section footprint.
Context `{!Env, !ReconEnv, !RedisScan, !JsDate} (JSON_parse : string → option json) (keyPrefix : string).
Context (heartbeatTimeoutSecs staleAfterSecs deployTimeoutSecs sleepTimeoutSecs graceSecs : Z).
Context (notifications instanceRepository modelRepository createWorkerClient moveOrchestration startupLogCapture : bool).
Notation keyOf i := (instanceStateKey keyPrefix (modelName i) (instanceId i)).

(** [i] was read from Redis; its state is older than [limit] by a clock that was read;
    its record was put in ERROR. *)
Definition read_instance (l : list Event) (i : InstanceState) : Prop :=
  ∃ d k, EvRedis d d ∈ l ∧ db_instances d !! k = Some i.
Definition older_than (l : list Event) (i : InstanceState) (limit : Z) : Prop :=
  ∃ now, EvClock now ∈ l ∧ ∀ t, getTime (stateChangedAt i) = Some t → (limit < now - t)%Z.
Definition put_in_error (l : list Event) (i : InstanceState) : Prop :=
  ∃ d d' s, EvRedis d d' ∈ l ∧ db_instances d' !! keyOf i = Some s ∧ state s = ModelLifecycleState.ERROR.

(** Why an instance is given up: its worker was found dead, or its worker answered
    that it has no such runner. *)
Inductive lost (l : list Event) (i : InstanceState) : Prop :=
| lost_worker ids wid : EvDeadWorkers ids ∈ l → workerId i = Some wid → wid ∈ ids →
    state i ≠ ModelLifecycleState.STOPPED → state i ≠ ModelLifecycleState.ERROR → lost l i
| lost_runner rId : runnerId i = Some rId → EvGetRunner rId (Some 404%Z) ∈ l →
    (state i = ModelLifecycleState.ACTIVE ∨
     state i = ModelLifecycleState.STARTING ∧ older_than l i (graceSecs * 1000)) → lost l i.

Definition stuck (l : list Event) (i : InstanceState) : Prop :=
  ∃ t, TRANSITIONAL_STATES (state i) = Some t ∧ older_than l i (timeout_secs deployTimeoutSecs sleepTimeoutSecs t * 1000).

(** The worker answered that it does not know the start, past the grace period, or it
    named a runner and that runner was stopped (or was gone). *)
Definition stopped_runner (l : list Event) (rId : string) : Prop :=
  ∃ st, EvStopRunner rId (Some st) ∈ l ∧ ((200 ≤ st ≤ 299)%Z ∨ st = 404%Z).
Inductive start_settled (l : list Event) (i : InstanceState) : Prop :=
| settled_absent r : EvFindRunner (instanceId i) (Some r) ∈ l → rs_status r = 404%Z →
    older_than l i (graceSecs * 1000) → start_settled l i
| settled_stopped r b : EvFindRunner (instanceId i) (Some r) ∈ l → rs_json r = inr b →
    stopped_runner l (bi_runnerId b) → start_settled l i.

Inductive removable (l : list Event) (i : InstanceState) : Prop :=
| removable_lost : lost l i → put_in_error l i → removable l i
| removable_ambiguous : state i = ModelLifecycleState.ERROR → runnerStartAmbiguous i = true →
    start_settled l i → removable l i
| removable_orphan : EvModelRow (modelName i) (Some false) ∈ l → removable l i.

(** What justifies one Redis command of a tick. *)
Definition recon_ok (l : list Event) (e : Event) : Prop :=
  match e with
  | EvRedis d d' => ∀ k, db_instances d' !! k ≠ db_instances d !! k →
      (has_char colon (legacy_rest keyPrefix k) = false ∧ db_instances d' !! k = None) ∨
      ∃ i, k = keyOf i ∧ read_instance l i ∧
        ((db_instances d' !! k = None ∧ removable l i) ∨
         ((lost l i ∨ stuck l i) ∧
          ∃ s s', db_instances d !! k = Some s ∧ db_instances d' !! k = Some s' ∧
                  state s' = ModelLifecycleState.ERROR ∧ ModelLifecycleState.ERROR ∈ VALID_TRANSITIONS (state s)))
  | _ => True
  end.

Lemma elem_of_prefix {A} (x : A) l l' : x ∈ l → x ∈ l ++ l'.
Proof. rewrite elem_of_app. by left. Qed.
Hint Resolve elem_of_prefix : core.
#[local] Instance read_instance_stable i : Stable (λ l, read_instance l i).
Proof. intros l l' (d & k & ? & ?). exists d, k. auto. Qed.
#[local] Instance older_than_stable i t : Stable (λ l, older_than l i t).
Proof. intros l l' (now & ? & ?). exists now. auto. Qed.
#[local] Instance put_in_error_stable i : Stable (λ l, put_in_error l i).
Proof. intros l l' (d & d' & s & ? & ?). exists d, d', s. auto. Qed.
#[local] Instance lost_stable i : Stable (λ l, lost l i).
Proof.
  intros l l' [ids wid|rId ?? [?|[??]]]; [eapply lost_worker|eapply lost_runner..]; eauto.
  right. split; [done|]. by apply (older_than_stable i).
Qed.
#[local] Instance stuck_stable i : Stable (λ l, stuck l i).
Proof. intros l l' (t & ? & ?). exists t. split; [done|]. by apply (older_than_stable i). Qed.
#[local] Instance stopped_runner_stable i : Stable (λ l, stopped_runner l i).
Proof. intros l l' (t & ? & ?). exists t. auto. Qed.
#[local] Instance start_settled_stable i : Stable (λ l, start_settled l i).
Proof.
  intros l l' [r|r b]; [eapply settled_absent|eapply settled_stopped]; eauto; [by apply (older_than_stable i)|by apply (stopped_runner_stable (bi_runnerId b))].
Qed.
#[local] Instance removable_stable i : Stable (λ l, removable l i).
Proof.
  intros l l' [|?? |]; [apply removable_lost|apply removable_ambiguous|apply removable_orphan]; auto;
    [by apply (lost_stable i)|by apply (put_in_error_stable i)|by apply (start_settled_stable i)].
Qed.
#[local] Instance elem_stable (e : Event) : Stable (elem_of e).
Proof. intros l l'. auto. Qed.
#[local] Instance all_read_stable (xs : list InstanceState) : Stable (λ l, ∀ i, i ∈ xs → read_instance l i).
Proof. intros l l' Hl i Hi. apply (read_instance_stable i). auto. Qed.

Lemma getAllInstances_read w xs w' : getAllInstances keyPrefix w = (inr xs, w') → ∀ i, i ∈ xs → read_instance (w_trace w') i.
Proof.
  intros Hrun i Hi. unfold getAllInstances, getStatesForPattern in Hrun.
  apply bind_returned in Hrun as ([|k0 ks] & w1 & _ & Hrun); [injection Hrun as <- <-; by apply not_elem_of_nil in Hi|].
  apply bind_returned in Hrun as (rs & w2 & Hp & Hrun). injection Hrun as <- <-.
  unfold pipeline_get in Hp. apply redis_returned in Hp as [-> ->].
  destruct (env_exec_null (w_step w1)); cbn [fst] in Hi; [by apply not_elem_of_nil in Hi|].
  apply list_elem_of_omap in Hi as (o & Ho & Hid). unfold id in Hid. subst o.
  apply list_elem_of_lookup in Ho as [n Hn]. rewrite list_lookup_imap in Hn.
  apply fmap_Some in Hn as (key & _ & Hk). destruct (env_pipe_error _ _); [done|].
  eexists _, key. split; [|by symmetry]. simpl. apply elem_of_app. right. apply list_elem_of_singleton. done.
Qed.

(** A command that leaves the records alone, and every event that is not a command. *)
Lemma recon_calm F d d' : db_instances d' = db_instances d → covered recon_ok F (EvRedis d d').
Proof. intros Heq l _ k. by rewrite Heq. Qed.
Lemma recon_other F e : (∀ d d', e ≠ EvRedis d d') → covered recon_ok F e.
Proof. intros He l _. destruct e; try done. by destruct (He before after). Qed.
Hint Extern 1 (covered recon_ok _ (EvRedis _ _)) => by apply recon_calm : preserves.
Hint Extern 2 (covered recon_ok _ _) => (apply recon_other; intros ? ?; discriminate) : preserves.

Section under.
Context (F : list Event → Prop) `{!Stable F}.
Notation jr := (justifies recon_ok F).
Notation ok := (covered recon_ok F).

Lemma recon_routing op d : ok (EvRedis d (run_routing_op op d)).
Proof. apply recon_calm, run_routing_op_instances. Qed.
Hint Resolve recon_routing : preserves.

Lemma recon_refresh name : preserves jr (refreshModelRoutingState keyPrefix name).
Proof. apply (refresh_preserves _ _ ok); auto with preserves. Qed.
Lemma recon_remove_endpoint name i : preserves jr (remove_own_endpoint name i).
Proof. apply (remove_own_endpoint_preserves _ ok); auto with preserves. Qed.
Lemma recon_side what : preserves jr (side_call what).
Proof. unfold side_call. solve_preserves. Qed.
Lemma recon_read {A} what (reply : nat → string + A) : preserves jr (read_call what reply).
Proof. unfold read_call. solve_preserves. Qed.
Lemma recon_notify t d : preserves jr (notify notifications t d).
Proof. unfold notify. solve_preserves. Qed.
Lemma recon_count c : preserves jr (count c).
Proof. unfold count. solve_preserves. Qed.
Lemma recon_publish t id : preserves jr (publishClusterEvent t id).
Proof. unfold publishClusterEvent. solve_preserves. Qed.
Lemma recon_release id : preserves jr (releaseHolds id).
Proof. unfold releaseHolds. solve_preserves. Qed.
Lemma recon_delete_row id : preserves jr (delete_row instanceRepository id).
Proof. pose proof recon_side. unfold delete_row. solve_preserves. Qed.
Lemma recon_getAll : preserves jr (getAllInstances keyPrefix).
Proof. unfold getAllInstances. apply (getStatesForPattern_preserves _ ok). auto with preserves. Qed.

(** Facts learnt from what a call returned. *)
Lemma learn_all {A} (k : list InstanceState → Svc A) :
  (∀ xs, preserves (justifies recon_ok (λ l, F l ∧ ∀ i, i ∈ xs → read_instance l i)) (k xs)) →
  preserves jr (getAllInstances keyPrefix ≫= k).
Proof.
  apply (preserves_learn _ _ (λ xs l, ∀ i, i ∈ xs → read_instance l i)); [apply recon_getAll|].
  intros xs w w' _ _. apply getAllInstances_read.
Qed.
Lemma learn_clock {A} (k : Z → Svc A) :
  (∀ now, preserves (justifies recon_ok (λ l, F l ∧ EvClock now ∈ l)) (k now)) → preserves jr (clock_now ≫= k).
Proof.
  apply (preserves_learn _ _ (λ now l, EvClock now ∈ l)); [unfold clock_now; solve_preserves|].
  intros now w w' _ _ (t & w1 & [= <- <-] & Hrun)%bind_returned.
  apply bind_returned in Hrun as ([] & w2 & [= <-] & Hrun). injection Hrun as <- <-.
  simpl. apply elem_of_app. right. by apply list_elem_of_singleton.
Qed.
End under.
Hint Resolve recon_refresh recon_remove_endpoint recon_side recon_read recon_notify recon_count recon_publish recon_release
  recon_delete_row recon_getAll : preserves.

(** *** Giving an instance up, and dropping its record *)
Section acts.
Context (F : list Event → Prop) `{!Stable F} (i : InstanceState).
Notation jr := (justifies recon_ok F).
Notation ok := (covered recon_ok F).
Notation to_error := (transition keyPrefix (modelName i) (instanceId i) ModelLifecycleState.ERROR).

Lemma recon_to_error u :
  (∀ l, F l → read_instance l i ∧ (lost l i ∨ stuck l i)) → preserves jr (to_error u).
Proof.
  intros HF. assert (∀ at_ d, ok (EvRedis d (transition_script (keyOf i) ModelLifecycleState.ERROR u at_ d).2)) as Hs; [|unfold transition; solve_preserves].
  intros at_ d l Hl k. unfold transition_script. destruct (db_instances d !! keyOf i) as [s|] eqn:Hi; [|done].
  destruct (isValidTransition _ _) eqn:Hv; [|done]. simpl. intros Hk.
  destruct (decide (keyOf i = k)) as [<- |Hne]; [|by rewrite lookup_insert_ne in Hk].
  right. exists i. destruct (HF l Hl) as [Hr Hwhy]. split; [done|]. split; [done|]. right. split; [done|].
  rewrite lookup_insert_eq. exists s. eexists. split_and!; [done..|by apply isValidTransition_spec].
Qed.

Lemma to_error_put u w s w' : to_error u w = (inr s, w') → put_in_error (w_trace w') i.
Proof.
  unfold transition, catch. destruct ((date_now ≫= _) w) as [[e|a] w1] eqn:Hrun; [by destruct (includes _ _)|].
  intros [= -> ->]. apply bind_returned in Hrun as (t & w2 & _ & Hrun). apply bind_returned in Hrun as (r & w3 & Hr & Hrun).
  apply redis_returned in Hr as [-> ->]. unfold transition_script in Hrun. set (d := w_db (tick w2)) in *.
  destruct (db_instances d !! keyOf i) as [s0|] eqn:Hi; [|done]. destruct (isValidTransition _ _); [|done].
  cbn [fst snd] in Hrun. apply bind_returned in Hrun as ([] & w4 & [= <-] & [= _ <-]).
  eexists d, _, _. split_and!; [simpl; rewrite !elem_of_app, !list_elem_of_singleton; eauto|simpl; by rewrite lookup_insert_eq|done].
Qed.

Lemma recon_remove : (∀ l, F l → read_instance l i ∧ removable l i) →
  preserves jr (removeInstance keyPrefix (modelName i) (instanceId i)).
Proof.
  intros HF. unfold removeInstance. apply (preserves_redis _ ok). intros d l Hl k Hk. simpl in *.
  destruct (decide (keyOf i = k)) as [<- |Hne]; [|by rewrite lookup_delete_ne in Hk].
  right. exists i. destruct (HF l Hl). rewrite lookup_delete_eq. split_and!; auto.
Qed.
End acts.

Lemma recon_reap F `{!Stable F} i r c t wid :
  (∀ l, F l → read_instance l i ∧ lost l i) →
  preserves (justifies recon_ok F) (reap_instance keyPrefix notifications instanceRepository i r c t wid).
Proof.
  intros HF. unfold reap_instance. apply (preserves_learn _ _ (λ _ l, put_in_error l i)).
  - apply recon_to_error; [done|]. intros l Hl. destruct (HF l Hl). auto.
  - intros s w w' _ _ Hrun. by eapply to_error_put.
  - intros _. set (F2 := λ l, F l ∧ _). assert (Stable F2) by (change (Stable (λ l, F l ∧ put_in_error l i)); apply _).
    assert (preserves (justifies recon_ok F2) (removeInstance keyPrefix (modelName i) (instanceId i))).
    { apply recon_remove; [done|]. intros l [Hl Hp]. destruct (HF l Hl). split; [done|]. by apply removable_lost. }
    solve_preserves.
Qed.

Lemma recon_drop F `{!Stable F} i :
  (∀ l, F l → read_instance l i ∧ removable l i) →
  preserves (justifies recon_ok F) (drop_instance keyPrefix instanceRepository i).
Proof. intros HF. pose proof (recon_remove F i HF). unfold drop_instance. solve_preserves. Qed.

(** *** The steps *)
Lemma recon_handleDeadWorkers F `{!Stable F} :
  preserves (justifies recon_ok F) (handleDeadWorkers keyPrefix notifications instanceRepository).
Proof.
  unfold handleDeadWorkers. apply (preserves_bind _ (covered recon_ok F)); [solve_preserves|].
  intros [|r dead]; [solve_preserves|]. set (ids := wr_workerId <$> r :: dead).
  apply (preserves_learn _ _ (λ _ l, EvDeadWorkers ids ∈ l)); [solve_preserves|..].
  { intros u w w' _ _ [= _ <-]. simpl. apply elem_of_app. right. by apply list_elem_of_singleton. }
  intros _. cbn beta. apply learn_all; [apply _|]. intros xs. cbn beta. set (F2 := λ l, _ ∧ _).
  assert (Stable F2) by (unfold F2; apply _). apply (preserves_for_each_in _ (covered recon_ok F2)). intros wr Hwr.
  assert (∀ i r c t w, i ∈ List.filter (λ i, bool_decide (workerId i = Some (wr_workerId wr)) && isActiveOrTransitional (state i)) xs →
    preserves (justifies recon_ok F2) (swallow (reap_instance keyPrefix notifications instanceRepository i r c t w))) as Hreap.
  { intros i rs c t w Hi. apply (preserves_swallow _ (covered recon_ok F2)), recon_reap; [done|].
    apply list_elem_of_In, filter_In in Hi as [Hi%list_elem_of_In Hc]. intros l ([Hl Hids] & Hread). split; [by apply Hread|].
    unfold isActiveOrTransitional in Hc. rewrite !andb_true_iff, !negb_true_iff, bool_decide_eq_true, !bool_decide_eq_false in Hc.
    destruct Hc as (Hw & Hs & He). eapply lost_worker; [done|done| |done|done]. by apply list_elem_of_fmap_2. }
  unfold handle_dead_worker. apply (preserves_bind _ (covered recon_ok F2)).
  { apply (preserves_for_each_in _ (covered recon_ok F2)). auto. }
  intros _. solve_preserves.
Qed.

Lemma at_most_older now i limit l :
  EvClock now ∈ l → at_most (age_ms now (stateChangedAt i)) limit = false → older_than l i limit.
Proof.
  intros Hc Ha. exists now. split; [done|]. intros t Ht. unfold age_ms in Ha. rewrite Ht in Ha. simpl in Ha.
  apply Z.leb_gt in Ha. lia.
Qed.

Lemma recon_stuck F `{!Stable F} :
  preserves (justifies recon_ok F) (recoverStuckInstances keyPrefix deployTimeoutSecs sleepTimeoutSecs notifications).
Proof.
  unfold recoverStuckInstances. apply learn_all; [done|]. intros xs. cbn beta. apply learn_clock; [apply _|]. intros now. cbn beta.
  set (F2 := λ l, _ ∧ _). assert (Stable F2) by (unfold F2; apply _).
  apply (preserves_for_each_in _ (covered recon_ok F2)). intros i Hi. unfold recover_stuck.
  destruct (TRANSITIONAL_STATES (state i)) as [t|] eqn:Ht; [|solve_preserves].
  destruct (at_most _ _) eqn:Ha; [solve_preserves|]. apply (preserves_swallow _ (covered recon_ok F2)).
  assert (∀ u, preserves (justifies recon_ok F2) (transition keyPrefix (modelName i) (instanceId i) ModelLifecycleState.ERROR u)).
  { intros u. apply recon_to_error; [done|]. intros l ([Hl Hread] & Hc). split; [by apply Hread|]. right. exists t.
    split; [done|]. by eapply at_most_older. }
  solve_preserves.
Qed.

Lemma fetch_logged {B} (reply : nat → string + HttpResponse B) ev w r w' :
  fetch reply ev w = (inr r, w') → ev (Some r) ∈ w_trace w'.
Proof.
  unfold fetch, http_call. destruct (reply (w_step w)); [done|]. intros [= -> <-].
  simpl. apply elem_of_app. right. by apply list_elem_of_singleton.
Qed.

Lemma find_learnt id w lookup w' :
  getRunnerByInstance id w = (inr lookup, w') →
  match lookup with
  | LookupAbsent => ∃ r, EvFindRunner id (Some r) ∈ w_trace w' ∧ rs_status r = 404%Z
  | LookupStarting rId | LookupReady rId _ _ _ =>
      ∃ r b, EvFindRunner id (Some r) ∈ w_trace w' ∧ rs_json r = inr b ∧ rId = bi_runnerId b
  end.
Proof.
  intros (r & w1 & Hf%fetch_logged & Hrun)%bind_returned.
  destruct (Z.eqb_spec (rs_status r) 404); [injection Hrun as <- <-; eauto|]. destruct (_ && _); [done|].
  apply bind_returned in Hrun as (b & w2 & Hb & Hrun). unfold response_json in Hb.
  destruct (rs_json r) as [|b'] eqn:Hj; [done|]. injection Hb as -> <-.
  destruct (_ || _); [injection Hrun as <- <-; eauto 6|]. destruct (_ && _); [|done]. injection Hrun as <- <-. eauto 6.
Qed.

Lemma stop_learnt rId h p e w w' :
  stop_found_runner (LookupReady rId h p e) w = (inr tt, w') → stopped_runner (w_trace w') rId.
Proof.
  simpl. unfold attempt, catch, stopRunner, mbind, M_bind, fetch, http_call.
  destruct (env_worker (w_step w)) as [msg|r]; cbn beta iota; [by rewrite decide_False by done|].
  assert (EvStopRunner rId (Some (rs_status r)) ∈ w_trace (log_event (EvStopRunner rId (Some (rs_status r))) (tick w))) as Hlog.
  { simpl. apply elem_of_app. right. by apply list_elem_of_singleton. }
  destruct (rs_ok r) eqn:Hok; cbn [negb].
  - intros [= <-]. exists (rs_status r). split; [done|]. left. unfold rs_ok in Hok. by rewrite andb_true_iff, !Z.leb_le in Hok.
  - unfold http_error, throw. rewrite decide_False by done. destruct (decide (rs_status r = 404%Z)) as [Heq|Hn].
    + rewrite Heq in *. intros [= <-]. exists 404%Z. split; [|by right]. simpl. rewrite Heq. exact Hlog.
    + repeat case_match; done.
Qed.

Lemma recon_getWorkerNow F `{!Stable F} id : preserves (justifies recon_ok F) (getWorkerNow id).
Proof. unfold getWorkerNow. solve_preserves. Qed.
Lemma recon_find F `{!Stable F} id : preserves (justifies recon_ok F) (getRunnerByInstance id).
Proof. apply (getRunnerByInstance_preserves _ (covered recon_ok F)). auto with preserves. Qed.
Lemma recon_stop_found F `{!Stable F} lookup : preserves (justifies recon_ok F) (stop_found_runner lookup).
Proof.
  assert (∀ id, preserves (justifies recon_ok F) (stopRunner id)).
  { intros id. apply (stopRunner_preserves _ (covered recon_ok F)). auto with preserves. }
  destruct lookup; simpl; [solve_preserves..|]. apply (preserves_attempt _ (covered recon_ok F)); [done|].
  intros e. repeat case_match; first [apply (preserves_ret _ (covered recon_ok F)) | apply (preserves_throw _ (covered recon_ok F))].
Qed.
Hint Resolve recon_getWorkerNow recon_find recon_stop_found : preserves.

Lemma recon_ambiguous_one F `{!Stable F} now i :
  (∀ l, F l → read_instance l i ∧ EvClock now ∈ l) → state i = ModelLifecycleState.ERROR → runnerStartAmbiguous i = true →
  preserves (justifies recon_ok F) (recover_ambiguous keyPrefix graceSecs instanceRepository now i).
Proof.
  intros HF He Hamb. unfold recover_ambiguous. apply (preserves_swallow _ (covered recon_ok F)).
  apply (preserves_bind _ (covered recon_ok F)); [solve_preserves|]. intros [r|]; [|solve_preserves].
  case_decide; [solve_preserves|].
  apply (preserves_learn _ _ (λ lookup l, match lookup with
    | LookupAbsent => ∃ r, EvFindRunner (instanceId i) (Some r) ∈ l ∧ rs_status r = 404%Z
    | LookupStarting rId | LookupReady rId _ _ _ =>
        ∃ r b, EvFindRunner (instanceId i) (Some r) ∈ l ∧ rs_json r = inr b ∧ rId = bi_runnerId b end)).
  { solve_preserves. }
  { intros lookup w w' _ _ Hrun. by apply find_learnt in Hrun. }
  intros [|rId|rId h p e]; cbn beta iota; [|intros w ? ?; by split|].
  - destruct (at_most _ _) eqn:Ha; [intros w [? ?] ?; by split|].
    set (F2 := λ l, _ ∧ _). assert (Stable F2) as HS.
    { intros l l' [Hl (r0 & ? & ?)]. split; [by apply stable|]. exists r0. auto. }
    apply recon_drop; [done|]. intros l [Hl (r0 & Hf & H404)]. destruct (HF l Hl) as [Hread Hc]. split; [done|].
    apply removable_ambiguous; [done..|]. eapply settled_absent; [done..|]. by eapply at_most_older.
  - set (F2 := λ l, _ ∧ _). assert (Stable F2) as HS.
    { intros l l' [Hl (r0 & b & ? & ?)]. split; [by apply stable|]. exists r0, b. auto. }
    apply (preserves_learn _ _ (λ _ l, stopped_runner l rId)); [solve_preserves|..].
    { intros [] w w' _ _ Hrun. by eapply stop_learnt. }
    intros _. cbn beta. apply recon_drop; [apply _|]. intros l [[Hl (r0 & b & Hf & Hj & ->)] Hst].
    destruct (HF l Hl) as [Hread Hc]. split; [done|]. apply removable_ambiguous; [done..|]. by eapply settled_stopped.
Qed.

Lemma recon_ambiguous F `{!Stable F} :
  preserves (justifies recon_ok F) (recoverAmbiguousStarts keyPrefix graceSecs instanceRepository createWorkerClient).
Proof.
  unfold recoverAmbiguousStarts. destruct createWorkerClient; cbn [negb]; [|solve_preserves].
  apply learn_clock; [done|]. intros now. cbn beta. apply learn_all; [apply _|]. intros xs. cbn beta.
  set (F2 := λ l, _ ∧ _). assert (Stable F2) by (unfold F2; apply _).
  apply (preserves_for_each_in _ (covered recon_ok F2)). intros i [Hi%list_elem_of_In Hc]%list_elem_of_In%filter_In.
  unfold ambiguous_candidate in Hc. rewrite !andb_true_iff, !bool_decide_eq_true in Hc. destruct Hc as [[He Ha] _].
  apply recon_ambiguous_one; [done| |done|done]. intros l [[Hl Hc] Hr]. auto.
Qed.

Lemma truthy_some o : truthy_str o = true → o = Some (default "" o).
Proof. by destruct o. Qed.

Lemma probe_learnt wid rId w w' :
  probe_runner wid rId w = (inr (Some false), w') → EvGetRunner rId (Some 404%Z) ∈ w_trace w'.
Proof.
  unfold probe_runner, attempt, catch, getWorkerNow, mbind, M_bind, gets. cbn beta iota.
  destruct (getWorker wid _); [|done]. unfold found, mbind, M_bind. destruct (getRunner rId w) as [[e|b] w1] eqn:Hg.
  { intros Hrun. by case_decide. }
  intros [= -> <-]. apply bind_returned in Hg as (r & w2 & Hf%fetch_logged & Hrun).
  destruct (Z.eqb_spec (rs_status r) 404) as [Heq|]; [|by destruct (negb _)]. injection Hrun as <-. simpl in Hf. by rewrite Heq in Hf.
Qed.

Lemma recon_missing F `{!Stable F} :
  preserves (justifies recon_ok F)
    (reconcileMissingRunners keyPrefix graceSecs notifications instanceRepository createWorkerClient).
Proof.
  unfold reconcileMissingRunners. destruct createWorkerClient; cbn [negb]; [|solve_preserves].
  apply learn_all; [done|]. intros xs. cbn beta. set (F1 := λ l, _ ∧ _). assert (Stable F1) by (unfold F1; apply _).
  apply (preserves_bind _ (covered recon_ok F1)); [solve_preserves|]. intros ws.
  destruct (List.filter _ xs) as [|c cs] eqn:Hc; [solve_preserves|]. apply learn_clock; [done|]. intros now. cbn beta.
  set (F2 := λ l, _ ∧ _). assert (Stable F2) by (unfold F2; apply _).
  apply (preserves_for_each_in _ (covered recon_ok F2)). intros i Hi. rewrite <- Hc in Hi.
  apply list_elem_of_In, filter_In in Hi as [Hi%list_elem_of_In Hcand]. unfold missing_candidate in Hcand.
  rewrite !andb_true_iff, bool_decide_eq_true in Hcand. destruct Hcand as [[[Hr%truthy_some Hw] Hst] _].
  unfold reconcile_missing. destruct (_ && at_most _ _) eqn:Hg; [solve_preserves|].
  apply (preserves_swallow _ (covered recon_ok F2)). apply (preserves_learn _ _ (λ p l, p = Some false → EvGetRunner (default "" (runnerId i)) (Some 404%Z) ∈ l)).
  { assert (∀ id, preserves (justifies recon_ok F2) (getRunner id)).
    { intros id. apply (getRunner_preserves _ (covered recon_ok F2)). auto with preserves. }
    unfold probe_runner. solve_preserves. }
  { intros p w w' _ _ Hrun ->. by eapply probe_learnt. }
  intros p. cbn beta. set (F3 := λ l, _ ∧ _). assert (Stable F3) by (intros l l' [? Hp]; split; [by apply stable|eauto]).
  destruct p as [[]|]; [solve_preserves| |solve_preserves]. apply recon_reap; [done|].
  intros l [[[Hl Hread] Hclock] Hp]. split; [by apply Hread|]. eapply lost_runner; [done|auto|].
  destruct Hst as [?|Hs]; [by left|]. right. split; [done|]. rewrite bool_decide_eq_true_2 in Hg by done.
  by eapply at_most_older.
Qed.

Lemma recon_orphans F `{!Stable F} :
  preserves (justifies recon_ok F) (reapOrphanedInstances keyPrefix modelRepository createWorkerClient).
Proof.
  unfold reapOrphanedInstances. destruct modelRepository; cbn [negb]; [|solve_preserves].
  apply learn_all; [done|]. intros xs. cbn beta. set (F1 := λ l, _ ∧ _). assert (Stable F1) by (unfold F1; apply _).
  apply (preserves_bind _ (covered recon_ok F1)); [solve_preserves|]. intros names.
  apply (preserves_for_each_in _ (covered recon_ok F1)). intros i [Hi%list_elem_of_In _]%list_elem_of_In%filter_In.
  unfold reap_orphan. apply (preserves_swallow _ (covered recon_ok F1)).
  apply (preserves_learn _ _ (λ b l, b = false → EvModelRow (modelName i) (Some false) ∈ l)).
  { unfold findByName. solve_preserves. }
  { intros b w w' _ _ Hrun ->. unfold findByName, http_call in Hrun. destruct (re_model_row _ _); [done|].
    injection Hrun as -> <-. simpl. apply elem_of_app. right. by apply list_elem_of_singleton. }
  intros b. cbn beta. set (F2 := λ l, _ ∧ _). assert (Stable F2) by (intros l l' [? Hp]; split; [by apply stable|eauto]).
  destruct b; [solve_preserves|]. apply (preserves_bind _ (covered recon_ok F2)).
  { unfold stop_orphan_runner. destruct (_ && _); [|solve_preserves].
    apply (preserves_bind _ (covered recon_ok F2)); [solve_preserves|]. intros [r|]; [|solve_preserves].
    apply (preserves_attempt _ (covered recon_ok F2)).
    - apply (preserves_bind _ (covered recon_ok F2)); [|solve_preserves].
      apply (stopRunner_preserves _ (covered recon_ok F2)). auto with preserves.
    - intros e. repeat case_match; apply (preserves_ret _ (covered recon_ok F2)). }
  intros stopped. destruct stopped; cbn [negb]; [|solve_preserves].
  assert (preserves (justifies recon_ok F2) (removeInstance keyPrefix (modelName i) (instanceId i))).
  { apply recon_remove; [done|]. intros l [[Hl Hr] Hrow]. split; [by apply Hr|]. by apply removable_orphan, Hrow. }
  solve_preserves.
Qed.

Lemma recon_prune F `{!Stable F} : preserves (justifies recon_ok F) (pruneLegacyInstanceKeys keyPrefix).
Proof.
  assert (∀ ks removed, preserves (justifies recon_ok F) (prune_keys keyPrefix ks removed)) as Hp.
  { induction ks as [|k ks IH]; intros removed; simpl; [solve_preserves|]. destruct (has_char _ _) eqn:Hc; [done|].
    apply (preserves_bind _ (covered recon_ok F)); [|done]. apply (preserves_redis _ (covered recon_ok F)).
    intros d l _ k' Hk'. simpl in *. destruct (decide (k = k')) as [<- |Hne]; [|by rewrite lookup_delete_ne in Hk'].
    left. by rewrite lookup_delete_eq. }
  unfold pruneLegacyInstanceKeys. solve_preserves.
Qed.

Lemma recon_safeStep F `{!Stable F} name m :
  preserves (justifies recon_ok F) m → preserves (justifies recon_ok F) (safeStep name m).
Proof. intros Hm. unfold safeStep. apply (preserves_attempt _ (covered recon_ok F)); [done|]. solve_preserves. Qed.
Lemma recon_set_local F f : preserves (justifies recon_ok F) (modify (set_local f)).
Proof. by intros w. Qed.

Lemma recon_registries F `{!Stable F} ids :
  preserves (justifies recon_ok F) (discover_step JSON_parse heartbeatTimeoutSecs) ∧
  preserves (justifies recon_ok F) (heartbeats_step heartbeatTimeoutSecs) ∧
  preserves (justifies recon_ok F) (memory_step JSON_parse keyPrefix) ∧
  preserves (justifies recon_ok F) (announce_joined notifications ids) ∧
  preserves (justifies recon_ok F) (announce_memory staleAfterSecs) ∧
  preserves (justifies recon_ok F) (resume_moves keyPrefix moveOrchestration) ∧
  preserves (justifies recon_ok F) (reconcileInstanceTable keyPrefix instanceRepository) ∧
  preserves (justifies recon_ok F) (refreshMetrics keyPrefix staleAfterSecs).
Proof.
  assert (∀ ids m, preserves (justifies recon_ok F) m → preserves (justifies recon_ok F) (read_heartbeats heartbeatTimeoutSecs ids m)).
  { intros. unfold read_heartbeats. solve_preserves. }
  assert (∀ now ks raws, preserves (justifies recon_ok F) (apply_announcements JSON_parse now ks raws)).
  { intros now ks raws w. unfold apply_announcements. by destruct (foldl _ _ _). }
  split_and!.
  - unfold discover_step. solve_preserves.
  - unfold heartbeats_step. solve_preserves.
  - unfold memory_step. solve_preserves.
  - unfold announce_joined. solve_preserves.
  - unfold announce_memory. solve_preserves.
  - unfold resume_moves. apply (preserves_when _ (covered recon_ok F)), (preserves_bind _ (covered recon_ok F)); [|by intros _ w].
    unfold getAllMoveOperations. solve_preserves.
  - unfold reconcileInstanceTable. destruct instanceRepository; cbn [negb]; solve_preserves.
  - unfold refreshMetrics, device_gauges, gauge. solve_preserves.
Qed.

Lemma recon_prune_once F `{!Stable F} : preserves (justifies recon_ok F) (prune_once keyPrefix).
Proof.
  pose proof (recon_safeStep F). pose proof (recon_prune F). unfold prune_once, set_flags. solve_preserves.
Qed.

Lemma recon_tick F `{!Stable F} : preserves (justifies recon_ok F)
  (reconcile_tick JSON_parse keyPrefix heartbeatTimeoutSecs staleAfterSecs deployTimeoutSecs sleepTimeoutSecs
    graceSecs notifications instanceRepository modelRepository createWorkerClient moveOrchestration startupLogCapture).
Proof.
  pose proof (recon_registries F) as Hreg. destruct (Hreg []) as (Hdisc & Hhb & Hmem & _ & Hann & Hmoves & Htable & Hmetrics).
  assert (∀ ids, preserves (justifies recon_ok F) (announce_joined notifications ids)) as Hjoin by (intros ids; apply (Hreg ids)).
  assert (∀ name m, preserves (justifies recon_ok F) m → preserves (justifies recon_ok F) (safeStep name m)) as Hsafe by apply (recon_safeStep F).
  pose proof (recon_prune_once F). pose proof (recon_handleDeadWorkers F). pose proof (recon_stuck F).
  pose proof (recon_ambiguous F). pose proof (recon_missing F). pose proof (recon_orphans F).
  assert (preserves (justifies recon_ok F) (tick_steps JSON_parse keyPrefix heartbeatTimeoutSecs staleAfterSecs deployTimeoutSecs
    sleepTimeoutSecs graceSecs notifications instanceRepository modelRepository createWorkerClient moveOrchestration startupLogCapture)).
  { unfold tick_steps.
    repeat first [assumption | apply Hjoin | apply Hsafe | apply recon_set_local | apply recon_count; assumption
                 | apply (preserves_bind _ (covered recon_ok F)); [|intros ?]]; solve_preserves. }
  unfold reconcile_tick, isLeader, set_flags. solve_preserves.
Qed.
End footprint.

(** ** What a tick changes is justified *)
Section justified_changes.
Context `{!Env, !ReconEnv, !RedisScan, !JsDate} (JSON_parse : string → option json) (keyPrefix : string).
Context (heartbeatTimeoutSecs staleAfterSecs deployTimeoutSecs sleepTimeoutSecs graceSecs : Z).
Context (notifications instanceRepository modelRepository createWorkerClient moveOrchestration startupLogCapture : bool).

(** C5: reconciliation never touches a healthy instance.  In every run of a tick, under
    any interference, failures and answers, a command that changes an instance record is
    justified by what this tick has read before: the record was read from Redis and it is
    put in ERROR only because its worker was found dead, because its worker answered 404
    for its runner (after the grace period for a start), or because it has been in a
    transitional state for longer than the timeout; and it is removed only after such a
    worker or runner was found lost and the record put in ERROR, or for a start of unknown
    outcome that its worker denies after the grace period or whose runner was stopped, or
    when the database says that its model does not exist.  The only other removals are
    keys of the old shape without an instance id. *)
Theorem tick_changes_justified w l1 d d' l2 k :
  w_trace w = [] →
  w_trace (reconcile_tick JSON_parse keyPrefix heartbeatTimeoutSecs staleAfterSecs deployTimeoutSecs sleepTimeoutSecs graceSecs
    notifications instanceRepository modelRepository createWorkerClient moveOrchestration startupLogCapture w).2
    = l1 ++ EvRedis d d' :: l2 →
  db_instances d' !! k ≠ db_instances d !! k →
  (has_char colon (legacy_rest keyPrefix k) = false ∧ db_instances d' !! k = None) ∨
  ∃ i, k = instanceStateKey keyPrefix (modelName i) (instanceId i) ∧ read_instance l1 i ∧
    ((db_instances d' !! k = None ∧ removable keyPrefix graceSecs l1 i) ∨
     ((lost graceSecs l1 i ∨ stuck deployTimeoutSecs sleepTimeoutSecs l1 i) ∧
      ∃ s s', db_instances d !! k = Some s ∧ db_instances d' !! k = Some s' ∧
              state s' = ModelLifecycleState.ERROR ∧ ModelLifecycleState.ERROR ∈ VALID_TRANSITIONS (state s))).
Proof.
  intros Hw Heq. pose proof (justified_run _ _ _ w (recon_tick JSON_parse keyPrefix heartbeatTimeoutSecs staleAfterSecs deployTimeoutSecs
    sleepTimeoutSecs graceSecs notifications instanceRepository modelRepository createWorkerClient moveOrchestration startupLogCapture
    (λ _, True)) I Hw) as HJ.
  exact (HJ _ _ _ Heq k).
Qed.
End justified_changes.

(** ** Dead workers are cleared *)
Definition same_pool (w w' : World) : Prop := l_pool (w_local w') = l_pool (w_local w).
#[export] Instance same_pool_rel `{!Env, !QuietLocal} : TraceRel same_pool any_event.
Proof.
  split; unfold same_pool; [|intros w; cbn [tick w_local]; by rewrite quiet_local|done..].
  split; [by intros w|]. intros w1 w2 w3 H12 H23. congruence.
Qed.

Lemma wp_preserves `{!Env} (R : relation World) {A} (m : Svc A) w : preserves R m → wp m (λ _ w', R w w') (λ _ w', R w w') w.
Proof. intros Hm. specialize (Hm w). unfold wp. by destruct (m w) as [[e|a] w']. Qed.

Section cleared.
Context `{!Env, !QuietRedis, !QuietLocal, !ReconEnv, !RedisScan, !JsDate} (keyPrefix : string) (notifications instanceRepository : bool).
Notation keyOf i := (instanceStateKey keyPrefix (modelName i) (instanceId i)).
Notation insts w := (db_instances (w_db w)).

Lemma getAllInstances_quiet w :
  glob_plain keyPrefix = true → instances_wf keyPrefix (w_db w) →
  wp (getAllInstances keyPrefix) (λ rs w', insts w' = insts w ∧ ∀ s, s ∈ rs ↔ insts w !! keyOf s = Some s) (λ _ _, False) w.
Proof.
  intros Hp Hwf. destruct (getStatesForPattern_run (redisKey keyPrefix ["models"; "*"; "*"]) w) as (rs & w' & Hrun & Hdb & Hrs).
  { split_and!; intros; by rewrite ?quiet_fault, ?quiet_exec, ?quiet_pipe, ?quiet_db. }
  rewrite quiet_db in Hdb. setoid_rewrite quiet_db in Hrs. unfold wp, getAllInstances. rewrite Hrun. split; [by rewrite Hdb|].
  intros s. rewrite Hrs. split.
  - intros (k & Hk & _). destruct (Hwf _ _ Hk) as [<- _]. done.
  - intros Hk. exists (keyOf s). split; [done|].
    assert (redisKey keyPrefix ["models"; "*"; "*"] = (keyPrefix +:+ ":models:") +:+ "*" +:+ ":" +:+ "*") as ->.
    { unfold redisKey. simpl. by rewrite !str_app_assoc. }
    rewrite glob_match_star_star; [|rewrite glob_plain_app, Hp; done|done].
    exists (modelName s), (instanceId s). unfold instanceStateKey, redisKey. simpl. by rewrite !str_app_assoc.
Qed.

Lemma wp_total {A} (m : Svc A) w : total m → wp m (λ _ _, True) (λ e _, e ≠ OutOfFuel) w.
Proof. intros Hm. specialize (Hm w). unfold wp. destruct (m w) as [[e|a] w']; [|done]. simpl in *. congruence. Qed.

(** A record that is absent or can still fail. *)
Definition reapable (w : World) (i : InstanceState) : Prop :=
  ∀ s, insts w !! keyOf i = Some s → state s ≠ ModelLifecycleState.ERROR.

Lemma removeInstance_quiet i (Q : unit → World → Prop) X w :
  (∀ w', insts w' = delete (keyOf i) (insts w) → Q tt w') → wp (removeInstance keyPrefix (modelName i) (instanceId i)) Q X w.
Proof. intros HQ. unfold removeInstance. apply wp_redis_quiet. intros w' Hdb _. apply HQ. by rewrite Hdb. Qed.

Lemma wp_frame {A} (m : Svc A) (w : World) :
  preserves (db_rel (λ d d', db_instances d' = db_instances d)) m →
  wp m (λ _ w', insts w' = insts w) (λ _ w', insts w' = insts w) w.
Proof. intros Hm. by apply (wp_preserves (db_rel (λ d d', db_instances d' = db_instances d))). Qed.

#[local] Instance same_instances_preorder : PreOrder (λ d d', db_instances d' = db_instances d).
Proof. split; [by intros d|]. intros d1 d2 d3 H12 H23. congruence. Qed.
#[local] Instance same_instances_rely : Rely (λ d d', db_instances d' = db_instances d).
Proof. intros n d. by rewrite quiet_db. Qed.

#[local] Instance same_db_rely : Rely eq.
Proof. intros n d. by rewrite quiet_db. Qed.
Hint Extern 1 (db_event _ _) => exact I : preserves.

Lemma reap_instance_quiet i r c t wid w :
  reapable w i →
  wp (swallow (reap_instance keyPrefix notifications instanceRepository i r c t wid))
     (λ _ w', insts w' = delete (keyOf i) (insts w)) (λ _ _, False) w.
Proof.
  intros Hr. unfold swallow, attempt. apply wp_catch.
  pose proof (wp_total _ w (reap_instance_total keyPrefix notifications instanceRepository i r c t wid)) as Ht.
  set (gone := λ w', insts w' = delete (keyOf i) (insts w)).
  assert (wp (reap_instance keyPrefix notifications instanceRepository i r c t wid) (λ _, gone) (λ _, gone) w) as Hgone; cycle 1.
  { eapply wp_mono; [exact (wp_and _ _ _ _ _ w Hgone Ht)|by intros [] w' [? _]|]. intros e w' [? He]. by rewrite decide_False. }
  unfold gone. destruct (insts w !! keyOf i) as [s|] eqn:Hs.
  - unfold reap_instance. apply wp_bind.
    eapply (wp_mono _ (λ _ w', insts w' = <[keyOf i := apply_transition ModelLifecycleState.ERROR (error_update r) (toISOString (w_now w)) s]> (insts w)) _ (λ _ _, False)); [|..|done].
    { unfold transition. apply wp_catch, wp_bind, wp_gets, wp_bind, wp_redis_quiet. intros w' Hdb _.
      unfold transition_script in Hdb |- *. rewrite Hs in Hdb |- *.
      destruct (isValidTransition (state s) ModelLifecycleState.ERROR) eqn:Hv; [|by destruct (Hr s Hs), (error_edge (state s))].
      cbn [fst snd] in Hdb |- *. apply wp_bind, wp_modify, wp_ret. simpl. by rewrite Hdb. }
    intros s1 w1 Hw1. apply wp_bind. eapply wp_mono; [apply remove_own_endpoint_keeps| |done]. intros [] w2 Hw2.
    apply wp_bind. eapply wp_mono; [apply refresh_keeps| |done]. intros [] w3 Hw3.
    apply wp_bind, removeInstance_quiet. intros w4 Hw4. rewrite Hw3, Hw2, Hw1, delete_insert_eq in Hw4.
    eapply wp_mono; [apply wp_frame|..].
    + unfold delete_row, side_call, releaseHolds, count, notify. solve_preserves.
    + intros [] w5 Hw5. congruence.
    + intros e w5 Hw5. congruence.
  - rewrite delete_id by done. unfold reap_instance. apply wp_bind. unfold transition. apply wp_catch, wp_bind, wp_gets, wp_bind, wp_redis_quiet.
    intros w' Hdb _. unfold transition_script in Hdb |- *. rewrite Hs in Hdb |- *. apply wp_throw.
    case_match; apply wp_throw; by rewrite Hdb.
Qed.

Lemma reap_loop_quiet (f : InstanceState → Svc unit) xs w :
  (∀ i w, reapable w i → wp (f i) (λ _ w', insts w' = delete (keyOf i) (insts w)) (λ _ _, False) w) →
  (∀ i, i ∈ xs → reapable w i) →
  wp (for_each xs f) (λ _ w', ∀ k, insts w' !! k = if decide (k ∈ (λ i, keyOf i) <$> xs) then None else insts w !! k) (λ _ _, False) w.
Proof.
  intros Hf. revert w. induction xs as [|i xs IH]; intros w Hr; simpl; [by apply wp_ret|].
  apply wp_bind. eapply wp_mono; [apply Hf, Hr; set_solver| |done]. intros [] w1 Hw1.
  eapply wp_mono; [apply IH| |done].
  - intros j Hj s. rewrite Hw1. intros [_ Hs]%lookup_delete_Some. eapply Hr; [|done]. set_solver.
  - intros [] w2 Hw2 k. rewrite Hw2, Hw1. destruct (decide (k ∈ (λ i, keyOf i) <$> xs)) as [Hk|Hk].
    + rewrite decide_True; [done|]. set_solver.
    + destruct (decide (keyOf i = k)) as [<- |Hne].
      * rewrite lookup_delete_eq, decide_True; [done|]. set_solver.
      * rewrite lookup_delete_ne by done. rewrite decide_False; [done|]. set_solver.
Qed.

Lemma same_pool_reap i r c t wid :
  preserves same_pool (swallow (reap_instance keyPrefix notifications instanceRepository i r c t wid)).
Proof.
  assert (∀ id, preserves same_pool (releaseHolds id)) by (intros id w; done).
  assert (preserves same_pool (remove_own_endpoint (modelName i) i)).
  { apply (remove_own_endpoint_preserves _ any_event); auto with preserves. }
  assert (preserves same_pool (refreshModelRoutingState keyPrefix (modelName i))).
  { apply (refresh_preserves _ _ any_event); auto with preserves. }
  apply (preserves_swallow _ any_event). unfold reap_instance, transition, removeInstance, delete_row, side_call, count, notify.
  solve_preserves.
Qed.

Lemma wp_split {A} (m : Svc A) (Q1 Q2 : A → World → Prop) (X : Exn → World → Prop) w :
  wp m Q1 (λ _ _, False) w → wp m Q2 X w → wp m (λ a w', Q1 a w' ∧ Q2 a w') (λ _ _, False) w.
Proof. unfold wp. destruct (m w) as [[e|a] w']; tauto. Qed.

(** The keys a dead worker's instances are stored under. *)
Definition doomed (xs : list InstanceState) (worker : WorkerRecord) : list string :=
  (λ i, keyOf i) <$> List.filter (λ i, bool_decide (workerId i = Some (wr_workerId worker)) && isActiveOrTransitional (state i)) xs.

Lemma handle_dead_worker_quiet xs worker w :
  (∀ i, i ∈ xs → isActiveOrTransitional (state i) = true → reapable w i) →
  wp (handle_dead_worker keyPrefix notifications instanceRepository xs worker)
     (λ _ w', (∀ k, insts w' !! k = if decide (k ∈ doomed xs worker) then None else insts w !! k) ∧
              l_pool (w_local w') = removeWorker (wr_workerId worker) (l_pool (w_local w))) (λ _ _, False) w.
Proof.
  intros Hr. unfold handle_dead_worker. apply wp_bind. eapply wp_mono; [eapply wp_split|..|done].
  - apply reap_loop_quiet; [intros; by apply reap_instance_quiet|].
    intros i [Hi%list_elem_of_In [_ Ha]%andb_true_iff]%list_elem_of_In%filter_In. auto.
  - apply (wp_preserves same_pool), (preserves_for_each _ any_event). intros. apply same_pool_reap.
  - intros [] w1 [Hw1 Hp1]. apply wp_bind.
    eapply (wp_mono _ (λ _ w2, insts w2 = insts w1 ∧ l_pool (w_local w2) = l_pool (w_local w1)) _ (λ _ _, False)); [|..|done].
    { unfold publishClusterEvent, swallow, attempt. apply wp_catch. unfold wp, http_call. rewrite quiet_fault. simpl.
      by rewrite quiet_db, quiet_local. }
    intros [] w2 [Hw2 Hp2]. apply wp_bind. unfold notify. destruct notifications; simpl; unfold modify, wp; simpl; split;
      (intros; rewrite ?Hw2; first [apply Hw1 | by rewrite Hp2, Hp1]).
Qed.

Lemma handle_dead_loop xs dead w :
  (∀ i, i ∈ xs → isActiveOrTransitional (state i) = true → reapable w i) →
  wp (for_each dead (handle_dead_worker keyPrefix notifications instanceRepository xs))
     (λ _ w', (∀ k, insts w' !! k = if decide (k ∈ dead ≫= doomed xs) then None else insts w !! k) ∧
              l_pool (w_local w') = foldl (λ p r, removeWorker (wr_workerId r) p) (l_pool (w_local w)) dead) (λ _ _, False) w.
Proof.
  revert w. induction dead as [|r dead IH]; intros w Hr; simpl; [by apply wp_ret|].
  apply wp_bind. eapply wp_mono; [by apply handle_dead_worker_quiet| |done]. intros [] w1 [Hw1 Hp1].
  eapply wp_mono; [apply IH| |done].
  - intros i Hi Ha s. rewrite Hw1. case_decide; [done|]. by apply Hr.
  - intros [] w2 [Hw2 Hp2]. split; [|by rewrite Hp2, Hp1]. intros k. rewrite Hw2, Hw1. csimpl.
    repeat case_decide; try done; rewrite ?elem_of_app in *; tauto.
Qed.

Lemma removed_workers dead p wid :
  getWorker wid (foldl (λ p r, removeWorker (wr_workerId r) p) p dead) =
  if decide (wid ∈ wr_workerId <$> dead) then None else getWorker wid p.
Proof.
  unfold getWorker, removeWorker. revert p. induction dead as [|r dead IH]; intros p; simpl; [done|]. rewrite IH.
  destruct (decide (wr_workerId r = wid)) as [<- |Hne].
  - rewrite jm_get_delete_eq, (decide_True (P := _ ∈ _ :: _)) by set_solver. by case_decide.
  - rewrite jm_get_delete_ne by done. repeat case_decide; set_solver.
Qed.

(** C24: dead workers are cleared in one pass.  With Redis working and undisturbed, and
    whatever PostgreSQL does, [handleDeadWorkers] returns and removes from Redis exactly
    the instances that are placed on a worker found dead and are neither STOPPED nor in
    ERROR; all other records stay as they are, and exactly the dead workers leave the
    registry. *)
Theorem dead_workers_cleared w :
  glob_plain keyPrefix = true → instances_wf keyPrefix (w_db w) →
  let dead := wr_workerId <$> getDeadWorkers (l_pool (w_local w)) in
  let '(r, w') := handleDeadWorkers keyPrefix notifications instanceRepository w in
  r = inr tt ∧
  (∀ k s, insts w' !! k = Some s ↔
     insts w !! k = Some s ∧ ¬ ((∃ wid, workerId s = Some wid ∧ wid ∈ dead) ∧ isActiveOrTransitional (state s) = true)) ∧
  (∀ wid, getWorker wid (l_pool (w_local w')) = if decide (wid ∈ dead) then None else getWorker wid (l_pool (w_local w))).
Proof.
  intros Hp Hwf dead.
  assert (wp (handleDeadWorkers keyPrefix notifications instanceRepository)
    (λ r w', r = tt ∧ (∀ k s, insts w' !! k = Some s ↔
       insts w !! k = Some s ∧ ¬ ((∃ wid, workerId s = Some wid ∧ wid ∈ dead) ∧ isActiveOrTransitional (state s) = true)) ∧
     (∀ wid, getWorker wid (l_pool (w_local w')) = if decide (wid ∈ dead) then None else getWorker wid (l_pool (w_local w))))
    (λ _ _, False) w) as Hwp.
  2: { unfold wp in Hwp. destruct (handleDeadWorkers _ _ _ w) as [[e|u] w']; [done|]. by destruct Hwp as [-> Hwp]. }
  unfold handleDeadWorkers. apply wp_bind, wp_gets. unfold dead. clear dead.
  destruct (getDeadWorkers (l_pool (w_local w))) as [|r0 rs] eqn:Hdead.
  { apply wp_ret. split; [done|]. split; [|done]. intros k s. split; [|tauto]. intros Hs. split; [done|].
    intros [(wid & _ & Hin) _]. by apply not_elem_of_nil in Hin. }
  set (workers := r0 :: rs) in *. apply wp_bind, wp_modify, wp_bind.
  set (w0 := log_event _ w). eapply wp_mono; [eapply wp_split|..|done].
  { by apply (getAllInstances_quiet w0). }
  { apply (wp_preserves same_pool). apply (getStatesForPattern_preserves _ any_event). auto with preserves. }
  intros xs w1 [[Hw1 Hxs] Hpool]. eapply wp_mono; [apply handle_dead_loop| |done].
  { intros i Hi%Hxs Ha s Hs. rewrite Hw1 in Hs. simplify_eq. intros He. by rewrite He in Ha. }
  intros [] w2 [Hw2 Hp2]. split; [done|]. split.
  - intros k s. rewrite Hw2, Hw1. change (insts w0) with (insts w). destruct (decide (k ∈ workers ≫= doomed xs)) as [Hk|Hk].
    + split; [done|]. intros [Hs Hn]. destruct Hn. apply list_elem_of_bind in Hk as (r & Hd & Hr).
      apply list_elem_of_fmap in Hd as (i & -> & [Hi%list_elem_of_In Hc]%list_elem_of_In%filter_In).
      apply Hxs in Hi. simpl in Hi. simplify_eq. apply andb_true_iff in Hc as [Hc%bool_decide_eq_true Ha].
      split; [|done]. eexists. split; [done|]. by apply list_elem_of_fmap_2.
    + split; [|tauto]. intros Hs. split; [done|]. intros [(wid & Hwid & Hin) Ha]. apply Hk.
      apply list_elem_of_fmap in Hin as (r & -> & Hr). apply list_elem_of_bind. exists r. split; [|done].
      destruct (Hwf _ _ Hs) as [-> _]. apply list_elem_of_fmap. exists s. split; [done|].
      apply list_elem_of_In, filter_In. split; [by apply list_elem_of_In, Hxs|].
      by rewrite bool_decide_eq_true_2.
  - intros wid. rewrite Hp2, removed_workers. unfold same_pool in Hpool. by rewrite Hpool.
Qed.

(** The last replica of a model that is reaped leaves its routing entry behind, in
    ERROR.  The routing state is recomputed while the record is still there, in ERROR,
    and the record is removed afterwards; nothing refreshes the entry again, although
    [refreshModelRoutingState] has no entry for a model without instances.  (The same
    order is used for runners that are missing.) *)
Theorem reap_leaves_error_entry i s r c t wid w :
  glob_plain keyPrefix = true → instances_wf keyPrefix (w_db w) →
  insts w !! keyOf i = Some s → modelName s = modelName i → state s ≠ ModelLifecycleState.ERROR →
  (∀ k s', insts w !! k = Some s' → modelName s' = modelName i → k = keyOf i) →
  let '(_, w') := swallow (reap_instance keyPrefix notifications instanceRepository i r c t wid) w in
  (∀ k s', insts w' !! k = Some s' → modelName s' ≠ modelName i) ∧
  ∃ e, db_routing (w_db w') !! modelName i = Some e ∧ re_state e = ModelState.ERROR.
Proof.
  intros Hp Hwf Hs Hname He Honly. set (s' := apply_transition ModelLifecycleState.ERROR (error_update r) (toISOString (w_now w)) s).
  set (ends := λ w', insts w' = delete (keyOf i) (insts w) ∧
    ∃ e, db_routing (w_db w') !! modelName i = Some e ∧ re_state e = ModelState.ERROR).
  assert (∀ w0 (m : Svc unit), ends w0 → preserves (db_rel eq) m → wp m (λ _, ends) (λ _, ends) w0) as Htail.
  { intros w0 m Hw0 Hm. eapply wp_mono; [by apply (wp_preserves (db_rel eq))|..]; intros ? w1 Heq; unfold ends; unfold db_rel in Heq; by rewrite <- Heq. }
  assert (wp (reap_instance keyPrefix notifications instanceRepository i r c t wid) (λ _, ends) (λ _, ends) w) as Hwp; cycle 1.
  { pose proof (wp_total _ w (reap_instance_total keyPrefix notifications instanceRepository i r c t wid)) as Ht.
    unfold swallow, attempt, catch. unfold wp in *. destruct (reap_instance _ _ _ _ _ _ _ _ w) as [[e|u] w']; simpl.
    all: rewrite ?decide_False by done; destruct Hwp as [Hi Hr]; split; [|done].
    all: intros k s0; rewrite Hi; intros [Hk Hs0]%lookup_delete_Some Hm; apply Hk; symmetry; eauto. }
  unfold reap_instance. apply wp_bind.
  eapply (wp_mono _ (λ _ w', insts w' = <[keyOf i := s']> (insts w)) _ (λ _ _, False)); [|..|done].
  { unfold transition. apply wp_catch, wp_bind, wp_gets, wp_bind, wp_redis_quiet. intros w' Hdb _.
    unfold transition_script in Hdb |- *. rewrite Hs in Hdb |- *.
    destruct (isValidTransition (state s) ModelLifecycleState.ERROR) eqn:Hv; [|by destruct He, (error_edge (state s))].
    cbn [fst snd] in Hdb |- *. apply wp_bind, wp_modify, wp_ret. simpl. by rewrite Hdb. }
  intros s1 w1 Hw1. apply wp_bind. eapply wp_mono; [apply remove_own_endpoint_keeps| |done]. intros [] w2 Hw2.
  assert (insts w2 = <[keyOf i := s']> (insts w)) as Hi2 by congruence. apply wp_bind.
  assert (instances_wf keyPrefix (w_db w2)) as Hwf2.
  { intros k0 s0. rewrite Hi2. intros [[<- <-]|[_ Hk]]%lookup_insert_Some; [|by apply Hwf]. by apply (Hwf _ s). }
  eapply wp_mono; [apply (refresh_quiet keyPrefix (modelName i) w2)| |done]; [done| |done|].
  { destruct (Hwf _ _ Hs) as [_ Hv]. by rewrite Hname in Hv. }
  intros [] w3 (_ & Hi3 & Hagg).
  assert (deriveAggregateState (model_instances (modelName i) (w_db w2)) = ModelLifecycleState.ERROR) as Hstate.
  { rewrite (deriveAggregate_ext _ [s']); [done|]. intros st. rewrite !list_elem_of_fmap.
    setoid_rewrite (elem_of_model_instances keyPrefix); [|done].
    rewrite Hi2. split.
    - intros (s0 & -> & k0 & [[<- <-]|[Hne Hk0]]%lookup_insert_Some & Hm0); [exists s'; set_solver|]. by destruct Hne; symmetry; eauto.
    - intros (s0 & -> & ->%list_elem_of_singleton). exists s'. split; [done|]. exists (keyOf i). by rewrite lookup_insert_eq. }
  rewrite Hstate in Hagg. destruct Hagg as [(e & He' & Hst) _].
  apply wp_bind. unfold removeInstance. apply wp_redis_quiet. intros w4 Hw4 _. apply Htail.
  - split; rewrite Hw4; [simpl; by rewrite Hi3, Hi2, delete_insert_eq|by exists e].
  - unfold delete_row, side_call, releaseHolds, count, notify. solve_preserves.
Qed.
End cleared.

(** ** Closed examples: a worker whose heartbeat is gone *)
Definition ex_dead_worker : WorkerRecord := mkWorker "w1" WorkerStatus.OFFLINE [] [] None "0" "http://w1".
Definition ex_recon : ReconEnv := {|
  re_info_keys := λ _, inr []; re_infos := λ _, inr None; re_heartbeats := λ _ ids, inr (Some ((λ _, None) <$> ids));
  re_memory_keys := λ _, inr []; re_memory := λ _, inr None; re_model_names := λ _, inr ["m"; "n"];
  re_model_row := λ _ _, inr true; re_instance_rows := λ _, inr []; re_incomplete := λ _, inr tt |}.
Definition ex_recon_world : World :=
  mkWorld ex_db (mkLocal init_state [("w1", ex_dead_worker)] ∅ init_recon no_claims []) 1000 0 [].
Lemma ex_quiet_redis : @QuietRedis idle_env.
Proof. by split. Qed.
Lemma ex_quiet_local : @QuietLocal idle_env.
Proof. by intros n l. Qed.

Definition no_json (text : string) : option json := None.
Notation ex_tick :=
  (@reconcile_tick idle_env ex_recon star_scan decimal_date no_json "p" 30 60 600 120 300 true true true true true true ex_recon_world).
Definition ex_tick_trace : list Event := w_trace ex_tick.2.
(** Its 13th event removes the instance [m]/[a]. *)
Definition ex_reap : RedisDb * RedisDb :=
  match ex_tick_trace !! 12 with Some (EvRedis d d') => (d, d') | _ => (empty_db, empty_db) end.

Lemma ex_tick_split : w_trace ex_tick.2 = take 12 ex_tick_trace ++ EvRedis ex_reap.1 ex_reap.2 :: drop 13 ex_tick_trace.
Proof. vm_compute. reflexivity. Qed.
Lemma ex_reap_gone : db_instances ex_reap.2 !! "p:models:m:a" = None ∧ is_Some (db_instances ex_reap.1 !! "p:models:m:a").
Proof. split; [vm_compute; reflexivity|]. eexists. vm_compute. reflexivity. Qed.

Lemma tick_changes_justified_witness :
  ∃ i, "p:models:m:a" = instanceStateKey "p" (modelName i) (instanceId i) ∧ removable "p" 300 (take 12 ex_tick_trace) i.
Proof.
  destruct ex_reap_gone as [Hgone [s0 Hs0]].
  destruct (@tick_changes_justified idle_env ex_recon star_scan decimal_date no_json "p" 30 60 600 120 300 true true true true true true
    ex_recon_world (take 12 ex_tick_trace) ex_reap.1 ex_reap.2 (drop 13 ex_tick_trace) "p:models:m:a" eq_refl ex_tick_split)
    as [[Hc _]|(i & Hk & _ & [[_ Hr]|(_ & s & s' & _ & Hs & _)])].
  - rewrite Hgone, Hs0. discriminate.
  - discriminate Hc.
  - exists i. split; [exact Hk|exact Hr].
  - rewrite Hgone in Hs. discriminate Hs.
Defined.

Lemma dead_workers_cleared_witness :
  let w' := (@handleDeadWorkers idle_env star_scan decimal_date "p" true true ex_recon_world).2 in
  db_instances (w_db w') !! "p:models:m:a" = None ∧ getWorker "w1" (l_pool (w_local w')) = None.
Proof.
  pose proof (@dead_workers_cleared idle_env ex_quiet_redis ex_quiet_local star_scan decimal_date "p" true true ex_recon_world eq_refl ex_db_wf) as H.
  cbn zeta in H. destruct (handleDeadWorkers _ _ _ ex_recon_world) as [r w']. destruct H as (_ & Hi & Hp). split; [|by rewrite Hp].
  destruct (db_instances (w_db w') !! "p:models:m:a") as [s|] eqn:Hs; [|done]. exfalso. apply Hi in Hs as [Hs Hn].
  injection Hs as <-. apply Hn. split; [|done]. exists "w1". split; [done|]. by apply list_elem_of_singleton.
Defined.

Lemma reap_leaves_error_entry_witness :
  ∃ e, db_routing (w_db (swallow (@reap_instance idle_env star_scan decimal_date "p" true true
         (ex_inst "m" "a" ModelLifecycleState.ACTIVE) "" "" "" "w1") ex_recon_world).2) !! "m" = Some e ∧ re_state e = ModelState.ERROR.
Proof.
  pose proof (@reap_leaves_error_entry idle_env ex_quiet_redis ex_quiet_local star_scan decimal_date "p" true true (ex_inst "m" "a" ModelLifecycleState.ACTIVE)
    (ex_inst "m" "a" ModelLifecycleState.ACTIVE) "" "" "" "w1" ex_recon_world eq_refl ex_db_wf eq_refl eq_refl) as H.
  destruct (swallow _ ex_recon_world) as [r w']. apply H; [done|]. intros k s Hs Hm.
  unfold ex_recon_world, ex_db in Hs. simpl in Hs. apply lookup_insert_Some in Hs as [[<- _]|[_ Hs]]; [done|].
  apply lookup_insert_Some in Hs as [[_ <-]|[_ Hs]]; [discriminate Hm|discriminate Hs].
Defined.
