(* ===== verification/Launch.v ===== *)
(** * Launching and tearing down an instance (control-plane/src/routes/models.ts)

    [teardownInstance] stops an instance, has its worker reap the runner process, and
    only then drops the record.  [deployFromRecord] is the launch pipeline behind deploy,
    start, add-instance and move: it places the instance (evicting others for room if it
    must), holds its capacity, records it and hands it to the deploy orchestration.

    The launch of a placed instance is detached from the request; it is returned as a
    computation.  Tasks that the code runs with [Promise.allSettled] are run one after
    the other here: each of their awaits lets the environment do anything, the other tasks'
    commands included. *)
From stdpp Require Import base tactics list strings gmap sets.
From Stdlib Require Import ZArith Lia Ascii.
From S2P Require Import Prelude Js Paths Types Errors MemoryBudget WorkerPool Placement Eviction Store ModelName Lifecycle RoutingMap SleepWake Deploy WorkerClient Reconciliation.

(** The fields of a [models] row that the pipeline looks at; the others are passed on. *)
Record ModelRecord := mkModel {
  mr_name : string;
  mr_runnerType : string;
  mr_modelPath : string;
  mr_requiredMemory : option Z;
  mr_deviceType : option string;
  mr_tensorParallel : Z;
  mr_pinned : bool;
}.

(** What the catalog and the [models] table answer. *)
Class RouteEnv := {
  ro_runner_metadata : nat → string → (string + ControlPlaneError) + Protocol; (** [resolveRunnerMetadata(..).protocol] *)
  ro_model : nat → string → string + option ModelRecord;   (** [modelRepository.findByName] *)
  ro_models : nat → string + list ModelRecord;             (** [modelRepository.findAll] *)
  ro_create : nat → string + ModelRecord;                  (** [modelRepository.create]: the row as stored *)
  ro_update : nat → string + bool;                         (** [modelRepository.update]: whether there was a row *)
  ro_operation_id : nat → string;                          (** [randomUUID()] for a move operation *)
}.

(** [`inst-${randomUUID().replace(/-/g, '').slice(0, 12)}`] *)
Fixpoint remove_char (c : ascii) (s : string) : string :=
  match s with EmptyString => EmptyString | String a s' => if decide (a = c) then remove_char c s' else String a (remove_char c s') end.
Definition mintInstanceId `{!Env} : Svc string :=
  gets (λ w, "inst-" +:+ String.substring 0 12 (remove_char "-" (env_uuid (w_step w)))).

(** ** Claims *)
Definition claimed (k : claim_kind) (key : string) : Svc bool := gets (λ w, bool_decide (key ∈ l_claims (w_local w) k)).
Definition claim (k : claim_kind) (key : string) : Svc unit := modify (set_local (set_claims k (union {[key]}))).
Definition unclaim (k : claim_kind) (key : string) : Svc unit := modify (set_local (set_claims k (λ s, s ∖ {[key]}))).

Record DeployFromRecordOptions := mkOptions {
  fixedPlacement : option (string * list Z);
  allowMoveClaim : bool;
  moveOperationId : option string;
}.
Definition no_options : DeployFromRecordOptions := mkOptions None false None.

(** [deployment] is the detached rest of the launch. *)
Record Launch := mkLaunch { la_state : ModelLifecycleState; la_message : string; la_deployment : Svc unit }.

Definition launch_error (name detail : string) : Exn := CPError (operationInProgress name "start a new instance for" detail).

Section pipeline.
Context `{!Env, !ReconEnv, !RouteEnv, !RedisScan, !JsDate, !PlacementStrategy, !EvictionStrategy}.
Context (JSON_parse : string → option json) (keyPrefix cwd weightsDir : string) (config : EvictionConfig).
Context (sleepTimeoutMs deployTimeoutMs healthCheckIntervalMs staleAfterSecs : Z) (startupLogs notifications : bool).
(** [requiredMemory / tensorParallel], in bytes *)
Context (share : Z → Z → Z).

(** ** Teardown *)

(** The runner to stop: [None] for an unknown one, and whether the worker denies the start. *)
Definition resolve_runner (id : string) (s : InstanceState) : Svc (option string) :=
  if truthy_str (workerId s) && negb (truthy_str (runnerId s)) then
    worker ← getWorkerNow (default "" (workerId s));
    match worker with
    | None => throw (OtherError ("worker " +:+ default "" (workerId s) +:+ " is unknown"))
    | Some _ =>
        lookup ← getRunnerByInstance id;
        mret (match lookup with
              | LookupAbsent => runnerId s
              | LookupStarting rId | LookupReady rId _ _ _ => Some rId
              end)
    end
  else mret (runnerId s).

(** The worker reaps the process; it is looked up unless [resolve_runner] did. *)
Definition reap_runner (s : InstanceState) (rId : option string) : Svc unit :=
  if truthy_str rId && truthy_str (workerId s) then
    worker ← (if truthy_str (runnerId s) then getWorkerNow (default "" (workerId s)) else mret None);
    if truthy_str (runnerId s) && bool_decide (worker = None)
    then throw (OtherError ("worker " +:+ default "" (workerId s) +:+ " is unknown"))
    else attempt (stopRunner (default "" rId)) (λ e, match e with WorkerHttpError _ 404 => mret tt | _ => throw e end)
  else mret tt.

Definition teardown_steps (name id : string) (client : bool) : Svc unit :=
  st ← getInstance keyPrefix name id;
  rId ← match st with Some s => resolve_runner id s | None => mret None end;
  stopModel keyPrefix sleepTimeoutMs healthCheckIntervalMs name id client ;;
  match st with Some s => reap_runner s rId | None => mret tt end ;;
  removeInstance keyPrefix name id ;;
  swallow (side_call ("instance row deleted: " +:+ id)).

(** [client]: [instance.runnerHost && instance.runnerPort] *)
Definition teardownInstance (name id : string) (client : bool) (context : string) : Svc bool :=
  attempt (teardown_steps name id client ;; mret true)
    (λ _,
     swallow
       (retained ← getInstance keyPrefix name id;
        when (bool_decide (state <$> retained = Some ModelLifecycleState.STOPPED))
          (transition keyPrefix name id ModelLifecycleState.ERROR
             (error_update (context +:+ ": runner teardown could not be confirmed")) ;;
           refreshModelRoutingState keyPrefix name)) ;;
     mret false).
Definition has_client (s : InstanceState) : bool := truthy_str (runnerHost s) && truthy_num (runnerPort s).

(** ** Launch *)
Definition assertLaunchAllowed (name : string) (options : DeployFromRecordOptions) : Svc unit :=
  deleting ← claimed deletingInFlight name;
  if (deleting : bool) then throw (launch_error name "a delete is already in progress") else
  moving ← claimed movingInFlight name;
  if moving && negb (allowMoveClaim options) then throw (launch_error name "a move is already in progress") else
  updating ← claimed configurationUpdateInFlight name;
  if (updating : bool) then throw (launch_error name "a configuration update is in progress") else mret tt.

Definition assertMoveStillOwned (name : string) (options : DeployFromRecordOptions) : Svc unit :=
  match moveOperationId options with
  | None => mret tt
  | Some opId =>
      if decide (opId = "") then mret tt else
      operation ← getMoveOperation keyPrefix name;
      if decide (operationId <$> operation = Some opId) then mret tt
      else throw (CPError (operationInProgress name "start a move replacement for"
                             "the durable move transaction is no longer owned by this request"))
  end.

Definition getBudgets : Svc (list (string * WorkerBudget)) :=
  now ← date_now; gets (λ w, (λ b, (wb_workerId b, b)) <$> getAllBudgets staleAfterSecs now (l_budget (w_local w))).

(** Hold the share on every device, record the placement, in Redis and then in PostgreSQL. *)
Definition occupy (name id : string) (req : PlacementRequest) (result : PlacementResult) : Svc unit :=
  modify (set_local (set_budget (reserve_placement result id (share (requiredMemory req) (tensorParallel req))))) ;;
  transition keyPrefix name id ModelLifecycleState.STARTING
    (mkUpdates (Some (Some (pr_workerId result))) None None None None (Some (Some (pr_devices result).*1)) None None) ;;
  side_call ("instance row created: " +:+ id).

Definition deploy_params (name id workerId : string) (protocol : Protocol) (owner : bool) : DeployModelParams :=
  mkDeploy name id workerId protocol owner true.
Definition deployment (p : DeployModelParams) : Svc unit :=
  deployModel keyPrefix deployTimeoutMs healthCheckIntervalMs startupLogs p.

Definition launch_placed (record : ModelRecord) (id : string) (options : DeployFromRecordOptions) (protocol : Protocol)
    (req : PlacementRequest) (result : PlacementResult) : Svc Launch :=
  let name := mr_name record in
  occupy name id req result ;;
  deleting ← claimed deletingInFlight name;
  if (deleting : bool) then
    swallow (side_call ("instance row deleted: " +:+ id)) ;;
    throw (launch_error name "a delete is already in progress")
  else
    assertLaunchAllowed name options ;;
    assertMoveStillOwned name options ;;
    mret (mkLaunch ModelLifecycleState.STARTING ("Placed on worker " +:+ pr_workerId result)
      (deployment (deploy_params name id (pr_workerId result) protocol (truthy_str (moveOperationId options))))).

(** *** Making room *)
Definition all_records : Svc (list ModelRecord) := http_call ro_models OtherError (λ _, EvRead "model rows").
Definition with_inference (ts : list (string * string)) (s : InstanceState) : InstanceState :=
  mkInstance (instanceId s) (modelName s) (state s) (protocol s) (workerId s) (runnerHost s) (runnerPort s)
    (runnerEnginePort s) (runnerId s) (deviceIndices s)
    (match jm_get ts (modelName s) with Some t => Some t | None => lastInferenceAt s end)
    (stateChangedAt s) (errorMessage s) (runnerStartAmbiguous s).
Definition pinned_models (records : list ModelRecord) : gset string :=
  list_to_set (mr_name <$> List.filter mr_pinned records).
Definition memory_by_model (records : list ModelRecord) : gmap string Z :=
  foldl (λ m r, match mr_requiredMemory r with Some b => <[mr_name r := b]> m | None => m end) ∅ records.

Definition select_now (instances : list InstanceState) (pinned : gset string) (required : Z) (targets : gset string)
    (sizes : gmap string Z) : Svc (list EvictionCandidate) := λ w,
  let '(victims, recent) :=
    selectVictims config (w_now w) instances pinned required (Some targets) sizes (l_evictions (w_local w)) in
  (inr victims, set_local (set_evictions (λ _, recent)) w).

Definition choose_victims (extraPinned : gset string) (required : Z) (targets : gset string) : Svc (list EvictionCandidate) :=
  allInstances ← getAllInstances keyPrefix;
  inferenceTs ← getLastInferenceTimestamps keyPrefix (modelName <$> allInstances);
  records ← all_records;
  select_now (with_inference inferenceTs <$> allInstances) (pinned_models records ∪ extraPinned) required targets
    (memory_by_model records).

(** [Promise.allSettled]: whatever one victim's teardown throws is dropped. *)
Definition evict (context : string) (victim : EvictionCandidate) : Svc unit :=
  swallow
    (victimState ← getInstance keyPrefix (ev_modelName victim) (ev_instanceId victim);
     ok ← teardownInstance (ev_modelName victim) (ev_instanceId victim)
            (match victimState with Some s => has_client s | None => false end) context;
     when ok (now ← date_now; modify (set_local (set_evictions (recordEviction now))))).

Definition reclaim_steps (record : ModelRecord) (id : string) (options : DeployFromRecordOptions) (protocol : Protocol)
    (req : PlacementRequest) (workers : list WorkerRecord) (victims : list EvictionCandidate) : Svc unit :=
  let name := mr_name record in
  for_each victims (evict "Eviction (capacity reclamation)") ;;
  memory_step JSON_parse keyPrefix ;;
  budgets ← getBudgets;
  match place req workers budgets with
  | None => throw (CPError (placementFailed name "No worker with sufficient capacity after capacity reclamation"))
  | Some reclaimed =>
      occupy name id req reclaimed ;;
      deleting ← claimed deletingInFlight name;
      if (deleting : bool) then
        releaseHolds id ;;
        transition keyPrefix name id ModelLifecycleState.ERROR (error_update "Deployment aborted: model delete in progress") ;;
        refreshModelRoutingState keyPrefix name
      else
        assertLaunchAllowed name options ;;
        deployment (deploy_params name id (pr_workerId reclaimed) protocol false)
  end.

Definition reclaim (record : ModelRecord) (id : string) (options : DeployFromRecordOptions) (protocol : Protocol)
    (req : PlacementRequest) (workers : list WorkerRecord) (victims : list EvictionCandidate) : Svc unit :=
  let name := mr_name record in
  attempt (reclaim_steps record id options protocol req workers victims)
    (λ e,
     swallow (transition keyPrefix name id ModelLifecycleState.ERROR (error_update (err_message e)) ;;
              refreshModelRoutingState keyPrefix name) ;;
     notify notifications "Model deployment failed" (name +:+ ": " +:+ err_message e)).

Definition no_capacity (name : string) : Exn := CPError (placementFailed name "No worker with sufficient capacity").

Definition launch_evicting (record : ModelRecord) (id : string) (options : DeployFromRecordOptions) (protocol : Protocol)
    (req : PlacementRequest) (workers : list WorkerRecord) : Svc Launch :=
  let name := mr_name record in
  let eligible := eligibleWorkerIds req workers in
  if decide (eligible = ∅) then throw (no_capacity name) else
  victims ← choose_victims ∅ (requiredMemory req) eligible;
  match victims with
  | [] => throw (no_capacity name)
  | _ => mret (mkLaunch ModelLifecycleState.PENDING "Capacity reclamation in progress"
                 (reclaim record id options protocol req workers victims))
  end.

(** *** The pipeline *)
Definition launch_recorded (record : ModelRecord) (id : string) (options : DeployFromRecordOptions) (protocol : Protocol)
    (memory : Z) : Svc Launch :=
  let name := mr_name record in
  memory_step JSON_parse keyPrefix ;;
  workers ← gets (λ w, getAllWorkers (l_pool (w_local w)));
  budgets ← getBudgets;
  let req := mkRequest name (mr_runnerType record) memory (mr_deviceType record) (mr_tensorParallel record) in
  match (match fixedPlacement options with
         | Some (wid, devices) => placeFixed req wid devices workers budgets
         | None => place req workers budgets
         end) with
  | Some result => launch_placed record id options protocol req result
  | None =>
      match fixedPlacement options with
      | Some _ => throw (CPError (placementFailed name "fixed-target-insufficient-capacity-or-incompatible"))
      | None => launch_evicting record id options protocol req workers
      end
  end.

Definition resolveRunnerProtocol (runnerType : string) : Svc Protocol :=
  http_call (λ n, ro_runner_metadata n runnerType) (λ f, match f with inl msg => OtherError msg | inr e => CPError e end)
    (λ _, EvRead "runner metadata").

Definition deployFromRecord (record : ModelRecord) (id : string) (options : DeployFromRecordOptions) : Svc Launch :=
  let name := mr_name record in
  assertLaunchAllowed name options ;;
  if negb (isContainedIn cwd (mr_modelPath record) weightsDir) then
    throw (CPError (invalidRequest ("Model " +:+ name +:+ " has a stored modelPath outside the weights directory")))
  else
  match mr_requiredMemory record with
  | None => throw (CPError (invalidRequest ("Model " +:+ name +:+ " has no stored requiredMemory; cannot start")))
  | Some memory =>
      if Z.leb memory 0 then throw (CPError (invalidRequest ("Model " +:+ name +:+ " has no stored requiredMemory; cannot start"))) else
      protocol ← resolveRunnerProtocol (mr_runnerType record);
      assertModelNameRoutableForProtocol name protocol ;;
      attempt (createInstance keyPrefix name id None (Some protocol) ;; mret tt)
        (λ e, releaseHolds id ;; throw e) ;;
      attempt (launch_recorded record id options protocol memory)
        (λ e, swallow (removeInstance keyPrefix name id) ;; releaseHolds id ;; throw e)
  end.
End pipeline.

(** ** Why a teardown may drop a record *)

(** The runner of [s] is gone: it was stopped (or its worker did not know it), its worker
    denied having started one, or it never had a worker. *)
Inductive reaped (l : list Event) (id : string) (s : InstanceState) : Prop :=
| reaped_known rId : runnerId s = Some rId → stopped_runner l rId → reaped l id s
| reaped_found r b : EvFindRunner id (Some r) ∈ l → rs_json r = inr b →
    stopped_runner l (bi_runnerId b) ∨ bi_runnerId b = "" → reaped l id s
| reaped_absent r : EvFindRunner id (Some r) ∈ l → rs_status r = 404%Z → reaped l id s
| reaped_unplaced : truthy_str (workerId s) = false → reaped l id s.

Section teardown.
Context `{!Env, !RedisScan, !JsDate} (keyPrefix : string) (sleepTimeoutMs healthCheckIntervalMs : Z).
Context (name id : string).
Notation key := (instanceStateKey keyPrefix name id).

Definition teardown_ok (l : list Event) (e : Event) : Prop :=
  match e with
  | EvRedis d d' => ∀ k, db_instances d' !! k ≠ db_instances d !! k → k = key ∧
      match db_instances d' !! k with
      | Some s' => ∃ s, db_instances d !! k = Some s ∧ state s' ∈ VALID_TRANSITIONS (state s)
      | None => ∃ d0, EvRedis d0 d0 ∈ l ∧ ∀ s, db_instances d0 !! k = Some s → reaped l id s
      end
  | _ => True
  end.

#[local] Instance read_stable (P : RedisDb → Prop) : Stable (λ l, ∃ d0, EvRedis d0 d0 ∈ l ∧ P d0).
Proof. intros l l' (d0 & ? & ?). exists d0. split; [by apply elem_of_prefix|done]. Qed.
#[local] Instance stopped_stable rId : Stable (λ l, stopped_runner l rId).
Proof. intros l l' (st & ? & ?). exists st. split; [by apply elem_of_prefix|done]. Qed.

(** The lemmas hold for every justification that admits what [teardown_ok] does. *)
Section under.
Context (J : list Event → Event → Prop) (HJ : ∀ l e, teardown_ok l e → J l e).
Context (F : list Event → Prop) `{!Stable F}.
Notation jr := (justifies J F).
Notation ok := (covered J F).

Lemma teardown_calm d d' : db_instances d' = db_instances d → ok (EvRedis d d').
Proof. intros Heq l _. apply HJ. intros k. by rewrite Heq. Qed.
Lemma teardown_other e : (∀ d d', e ≠ EvRedis d d') → ok e.
Proof. intros He l _. apply HJ. destruct e; try done. by destruct (He before after). Qed.
Lemma teardown_routing op d : ok (EvRedis d (run_routing_op op d)).
Proof. apply teardown_calm, run_routing_op_instances. Qed.
Hint Extern 1 (covered J F (EvRedis _ _)) => by apply teardown_calm : preserves.
Hint Extern 2 (covered J F _) => (apply teardown_other; intros ? ?; discriminate) : preserves.
Hint Resolve teardown_routing : preserves.

Lemma teardown_transition to u : preserves jr (transition keyPrefix name id to u).
Proof.
  assert (∀ at_ d, ok (EvRedis d (transition_script key to u at_ d).2)) as Hs; [|unfold transition; solve_preserves].
  intros at_ d l _. apply HJ. intros k Hk. destruct (transition_script_guarantee key to u at_ d) as [He Hne].
  destruct (decide (k = key)) as [-> |]; [|by destruct Hk; apply Hne]. split; [done|].
  destruct He as [He|(s & s' & Hs & Hs' & Hv & _)]; [done|]. rewrite Hs'. eauto.
Qed.
Lemma teardown_refresh m : preserves jr (refreshModelRoutingState keyPrefix m).
Proof. apply (refresh_preserves _ _ ok); auto with preserves. Qed.
Lemma teardown_stop client : preserves jr (stopModel keyPrefix sleepTimeoutMs healthCheckIntervalMs name id client).
Proof. apply (stopModel_preserves _ _ ok); auto using teardown_transition with preserves. Qed.
Lemma teardown_read : preserves jr (getInstance keyPrefix name id).
Proof. unfold getInstance. solve_preserves. Qed.
Lemma teardown_side what : preserves jr (side_call what).
Proof. unfold side_call. solve_preserves. Qed.
Lemma teardown_resolve s : preserves jr (resolve_runner id s).
Proof.
  assert (preserves jr (getRunnerByInstance id)) by (apply (getRunnerByInstance_preserves _ ok); auto with preserves).
  unfold resolve_runner, getWorkerNow. solve_preserves.
Qed.
Lemma teardown_reap s rId : preserves jr (reap_runner s rId).
Proof.
  unfold reap_runner. destruct (_ && _); [|apply (preserves_ret _ ok)].
  apply (preserves_bind _ ok); [unfold getWorkerNow; solve_preserves|]. intros worker.
  destruct (_ && _); [apply (preserves_throw _ ok)|]. apply (preserves_attempt _ ok).
  - apply (stopRunner_preserves _ ok). auto with preserves.
  - intros e. repeat case_match; first [apply (preserves_ret _ ok)|apply (preserves_throw _ ok)].
Qed.
Lemma teardown_remove :
  (∀ l, F l → ∃ d0, EvRedis d0 d0 ∈ l ∧ ∀ s, db_instances d0 !! key = Some s → reaped l id s) →
  preserves jr (removeInstance keyPrefix name id).
Proof.
  intros HF. unfold removeInstance. apply (preserves_redis _ ok). intros d l Hl. apply HJ. intros k Hk. simpl in *.
  destruct (decide (key = k)) as [<- |Hne]; [|by rewrite lookup_delete_ne in Hk].
  rewrite lookup_delete_eq. split; [done|]. by apply HF.
Qed.
End under.

(** What [resolve_runner] learns, and what [reap_runner] then settles. *)
Definition resolved (s : InstanceState) (rId : option string) (l : list Event) : Prop :=
  truthy_str (workerId s) = true →
  if truthy_str (runnerId s) then rId = runnerId s
  else (∃ r, EvFindRunner id (Some r) ∈ l ∧ rs_status r = 404%Z) ∨
       ∃ r b, EvFindRunner id (Some r) ∈ l ∧ rs_json r = inr b ∧ rId = Some (bi_runnerId b).
#[local] Instance resolved_stable s rId : Stable (resolved s rId).
Proof.
  intros l l' Hr Hw. specialize (Hr Hw). destruct (truthy_str (runnerId s)); [done|].
  destruct Hr as [(r & ? & ?)|(r & b & ? & ?)]; [left; exists r|right; exists r, b]; split; auto using elem_of_prefix.
Qed.

Lemma resolve_learnt s w rId w' : resolve_runner id s w = (inr rId, w') → resolved s rId (w_trace w').
Proof.
  unfold resolve_runner, resolved. intros Hrun Hw. rewrite Hw in Hrun.
  destruct (truthy_str (runnerId s)); simpl in Hrun; [by injection Hrun as <- <-|].
  apply bind_returned in Hrun as ([wr|] & w1 & _ & Hrun); [|done].
  apply bind_returned in Hrun as (lookup & w2 & Hf%find_learnt & Hrun). injection Hrun as <- <-.
  destruct lookup; [by left|right..]; destruct Hf as (r & b & ? & ? & ->); eauto 6.
Qed.

Lemma reap_learnt s rId w w' :
  reap_runner s rId w = (inr tt, w') → truthy_str rId = true → truthy_str (workerId s) = true →
  stopped_runner (w_trace w') (default "" rId).
Proof.
  unfold reap_runner. intros Hrun Hr Hw. rewrite Hr, Hw in Hrun. simpl in Hrun.
  apply bind_returned in Hrun as (worker & w1 & _ & Hrun). destruct (_ && _); [done|].
  by apply (stop_learnt _ "" 0%Z 0%Z) in Hrun.
Qed.

Lemma resolved_reaped s rId l :
  resolved s rId l → (truthy_str rId = true → truthy_str (workerId s) = true → stopped_runner l (default "" rId)) →
  reaped l id s.
Proof.
  intros Hr Hst. destruct (truthy_str (workerId s)) eqn:Hw; [|by apply reaped_unplaced]. specialize (Hr Hw).
  destruct (truthy_str (runnerId s)) eqn:Hrs.
  - subst rId. apply (reaped_known _ _ _ (default "" (runnerId s))); [by apply truthy_some|auto].
  - destruct Hr as [(r & ? & ?)|(r & b & ? & ? & ->)]; [by eapply reaped_absent|]. eapply reaped_found; [done..|].
    destruct (decide (bi_runnerId b = "")) as [?|Hne]; [by right|left]. apply Hst; [|done].
    simpl. destruct (bi_runnerId b); [done|reflexivity].
Qed.

Lemma getInstance_learnt w o w' :
  getInstance keyPrefix name id w = (inr o, w') → ∃ d0, EvRedis d0 d0 ∈ w_trace w' ∧ db_instances d0 !! key = o.
Proof.
  unfold getInstance. intros [-> ->]%redis_returned. eexists. split; [|done]. simpl. apply elem_of_app. right. by apply list_elem_of_singleton.
Qed.

Section justified.
Context (J : list Event → Event → Prop) (HJ : ∀ l e, teardown_ok l e → J l e) (F : list Event → Prop) `{!Stable F}.
Hint Resolve teardown_transition teardown_refresh teardown_stop teardown_read teardown_side : preserves.

Lemma teardown_steps_justified client :
  preserves (justifies J F) (teardown_steps keyPrefix sleepTimeoutMs healthCheckIntervalMs name id client).
Proof.
  unfold teardown_steps.
  apply (preserves_learn _ _ (λ o l, ∃ d0, EvRedis d0 d0 ∈ l ∧ db_instances d0 !! key = o)); [by apply teardown_read|..].
  { intros o w w' _ _. apply getInstance_learnt. }
  intros [s|]; cbn beta; set (F1 := λ l, _ ∧ _); assert (Stable F1) by (unfold F1; apply _).
  - apply (preserves_learn _ _ (resolved s)); [by apply teardown_resolve|intros rId w w' _ _; apply resolve_learnt|].
    intros rId. cbn beta. set (F2 := λ l, _ ∧ _). assert (Stable F2) by (unfold F2; apply _).
    apply (preserves_bind _ (covered J F2)); [by apply teardown_stop|]. intros _.
    apply (preserves_learn _ _ (λ _ l, truthy_str rId = true → truthy_str (workerId s) = true → stopped_runner l (default "" rId)));
      [by apply teardown_reap|intros [] w w' _ _; apply reap_learnt|].
    intros _. cbn beta. set (F3 := λ l, _ ∧ _). assert (Stable F3).
    { intros l l' [? Hst]. split; [by apply stable|]. intros ??. apply stopped_stable. auto. }
    assert (preserves (justifies J F3) (removeInstance keyPrefix name id)); [|solve_preserves].
    apply teardown_remove; [done..|]. intros l [[[_ (d0 & Hd0 & Hs)] Hr] Hst]. exists d0. split; [done|].
    intros s0 Hs0. assert (s0 = s) as -> by congruence. by eapply resolved_reaped.
  - assert (preserves (justifies J F1) (removeInstance keyPrefix name id)); [|solve_preserves].
    apply teardown_remove; [done..|]. intros l [_ (d0 & Hd0 & Hs)]. exists d0. split; [done|]. intros s. by rewrite Hs.
Qed.

Lemma teardown_justified client context :
  preserves (justifies J F) (teardownInstance keyPrefix sleepTimeoutMs healthCheckIntervalMs name id client context).
Proof. pose proof (teardown_steps_justified client). unfold teardownInstance. solve_preserves. Qed.
End justified.

(** C4: a teardown never abandons a live runner.  Whatever other requests, Redis and the
    worker do, every command of [teardownInstance] changes at most the record of the instance
    it was called for, moving it along the state machine or deleting it; and it deletes it only
    after the runner of the record it had read was stopped by the worker (with a success or a
    404), or the worker denied having one for this instance, or the record had no worker, or
    there was no record. *)
Theorem teardown_reaps_first client context w l1 d d' l2 k :
  w_trace w = [] →
  w_trace (teardownInstance keyPrefix sleepTimeoutMs healthCheckIntervalMs name id client context w).2 = l1 ++ EvRedis d d' :: l2 →
  db_instances d' !! k ≠ db_instances d !! k →
  k = key ∧
  match db_instances d' !! k with
  | Some s' => ∃ s, db_instances d !! k = Some s ∧ state s' ∈ VALID_TRANSITIONS (state s)
  | None => ∃ d0, EvRedis d0 d0 ∈ l1 ∧ ∀ s, db_instances d0 !! k = Some s → reaped l1 id s
  end.
Proof.
  intros Hw Htr. pose proof (teardown_justified teardown_ok (λ _ _ H, H) (λ _, True) client context) as Hp.
  by apply (justified_run _ _ _ w Hp I Hw l1 (EvRedis d d') l2 Htr k).
Qed.

(** ** A teardown always answers *)
Lemma resolve_runner_total s : total (resolve_runner id s).
Proof. unfold resolve_runner, getWorkerNow. solve_total. Qed.
Lemma reap_runner_total s rId : total (reap_runner s rId).
Proof.
  unfold reap_runner. destruct (_ && _); [|apply total_ret]. apply total_bind; [unfold getWorkerNow; solve_total|].
  intros worker. destruct (_ && _); [by apply total_throw|]. apply total_attempt; [apply stopRunner_total|].
  intros e He. repeat case_match; first [apply total_ret|apply total_throw; congruence].
Qed.

Lemma teardown_ends client context :
  (0 < healthCheckIntervalMs)%Z →
  returns (teardownInstance keyPrefix sleepTimeoutMs healthCheckIntervalMs name id client context).
Proof.
  intros Hi. pose proof (run_call_total keyPrefix sleepTimeoutMs 0 healthCheckIntervalMs (CStop client) name id Hi) as Hstop.
  simpl in Hstop. pose proof (refresh_total keyPrefix name). apply returns_attempt.
  - unfold teardown_steps, getInstance, removeInstance, side_call.
    pose proof resolve_runner_total. pose proof reap_runner_total. solve_total.
  - intros e. apply returns_bind; [|intros _; apply returns_ret]. apply returns_swallow. unfold getInstance. solve_total.
Qed.

(** A teardown always answers.  With a positive polling interval [teardownInstance]
    returns true or false after finitely many steps and never throws, whatever the runner,
    the worker, Redis and the database do. *)
Theorem teardown_returns client context w :
  (0 < healthCheckIntervalMs)%Z →
  ∃ b, (teardownInstance keyPrefix sleepTimeoutMs healthCheckIntervalMs name id client context w).1 = inr b.
Proof. intros Hi. by apply teardown_ends. Qed.
End teardown.

(** ** A launch that is refused or fails leaves nothing behind *)
Section failure.
Context `{!Env, !ReconEnv, !RouteEnv, !RedisScan, !JsDate, !PlacementStrategy, !EvictionStrategy}.
Context (JSON_parse : string → option json) (keyPrefix cwd weightsDir : string) (config : EvictionConfig).
Context (sleepTimeoutMs deployTimeoutMs healthCheckIntervalMs staleAfterSecs : Z) (startupLogs notifications : bool).
Context (share : Z → Z → Z) (record : ModelRecord) (id : string) (options : DeployFromRecordOptions).
Notation name := (mr_name record).
Notation key := (instanceStateKey keyPrefix name id).
Notation launch := (deployFromRecord JSON_parse keyPrefix cwd weightsDir config sleepTimeoutMs deployTimeoutMs
  healthCheckIntervalMs staleAfterSecs startupLogs notifications share record id options).
Notation recorded := (launch_recorded JSON_parse keyPrefix config sleepTimeoutMs deployTimeoutMs
  healthCheckIntervalMs staleAfterSecs startupLogs notifications share record id options).

Definition no_hold (l : Local) : Prop := ∀ worker device, hold (l_budget l) worker device id = None.
(** No capacity is held for the instance and, if Redis does not fail, it has no record. *)
Definition nothing_left (w : World) : Prop :=
  no_hold (w_local w) ∧ ((∀ n, env_fault n = NoFault) → db_instances (w_db w) !! key = None).

Lemma releaseHolds_none w : no_hold (w_local (releaseHolds id w).2).
Proof. intros worker device. simpl. rewrite releaseInstanceReservations_hold. by rewrite decide_True. Qed.

Lemma assertLaunchAllowed_run w :
  ∃ r, assertLaunchAllowed name options w = (r, w) ∧
    ∀ u, r = inr u → name ∉ l_claims (w_local w) deletingInFlight ∧
      (name ∉ l_claims (w_local w) movingInFlight ∨ allowMoveClaim options = true) ∧
      name ∉ l_claims (w_local w) configurationUpdateInFlight.
Proof.
  unfold assertLaunchAllowed, claimed, mbind, M_bind, gets. cbn beta iota.
  case_bool_decide; [by eexists|]. case_bool_decide as Hm; simpl.
  - destruct (allowMoveClaim options); simpl; [|by eexists]. case_bool_decide; eexists; [done|]. split; [done|]. auto.
  - case_bool_decide; eexists; [done|]. split; [done|]. auto.
Qed.

Lemma occupy_total req res : total (occupy keyPrefix share name id req res).
Proof. unfold occupy, transition, side_call. solve_total. Qed.
Lemma launch_recorded_total protocol memory : total (recorded protocol memory).
Proof.
  pose proof occupy_total. pose proof (memory_step_total JSON_parse keyPrefix).
  assert (total (assertLaunchAllowed name options)) by (unfold assertLaunchAllowed, claimed; solve_total).
  assert (total (assertMoveStillOwned keyPrefix name options)) by (unfold assertMoveStillOwned, getMoveOperation; solve_total).
  assert (∀ req res, total (launch_placed keyPrefix deployTimeoutMs healthCheckIntervalMs startupLogs share record id options protocol req res)).
  { intros. unfold launch_placed, claimed, side_call. solve_total. }
  assert (∀ p r t, total (choose_victims keyPrefix config p r t)).
  { intros. unfold choose_victims, getAllInstances, getLastInferenceTimestamps, getStatesForPattern, all_records.
    apply total_bind; [solve_total|]. intros xs. apply total_bind; [solve_total|]. intros ts. apply total_bind; [solve_total|]. intros rs w.
    unfold select_now. by destruct (selectVictims _ _ _ _ _ _ _ _). }
  unfold launch_recorded, getBudgets, launch_evicting. solve_total.
Qed.

(** The two handlers. *)
Lemma create_failed w protocol e w' :
  (∀ w, nothing_left w → nothing_left (tick w)) → nothing_left w →
  attempt (createInstance keyPrefix name id None protocol ;; mret tt) (λ e, releaseHolds id ;; throw e) w = (inl e, w') →
  nothing_left w'.
Proof.
  intros Htick [_ Hk]%Htick. unfold attempt, catch, createInstance, mbind, M_bind, date_now, gets, redis_call, throw. cbn beta iota zeta.
  destruct (db_instances (w_db (tick w)) !! key) as [s|] eqn:Hs; destruct (env_fault (w_step w)) eqn:Hf; cbn beta iota;
    try done; rewrite decide_False by done; intros [= <- <-]; (split; [apply releaseHolds_none|]);
    intros Hnf; try (rewrite (Hnf (w_step w)) in Hf; done). specialize (Hk Hnf). congruence.
Qed.
Lemma launch_failed {A} (m : Svc A) w e w' :
  total m →
  attempt m (λ e, swallow (removeInstance keyPrefix name id) ;; releaseHolds id ;; throw e) w = (inl e, w') →
  nothing_left w'.
Proof.
  intros Hm. unfold attempt, catch at 1. specialize (Hm w). destruct (m w) as [[e0|a] w1]; [|done].
  rewrite decide_False by (simpl in Hm; congruence).
  unfold swallow, attempt, catch, removeInstance, redis_call, mbind, M_bind. cbn beta iota zeta.
  destruct (env_fault (w_step w1)) eqn:Hf; cbn beta iota; try rewrite decide_False by done; intros [= <- <-];
    (split; [apply releaseHolds_none|]); intros Hnf; try (rewrite (Hnf (w_step w1)) in Hf; done).
  simpl. apply lookup_delete_eq.
Qed.

(** C14: a failed launch leaves nothing behind.  When [deployFromRecord] refuses or fails, for
    whatever reason and wherever, no device capacity is held for its instance, and (if the
    Redis commands themselves work) the instance has no record: [id] is fresh, so nobody else
    holds capacity under it or creates its record. *)
Theorem failed_launch_leaves_nothing w e w' :
  (∀ n l, no_hold l → no_hold (env_interfere_local n l)) →
  (∀ n d, db_instances d !! key = None → db_instances (env_interfere_db n d) !! key = None) →
  nothing_left w → launch w = (inl e, w') → nothing_left w'.
Proof.
  intros Hl Hd Hw.
  assert (∀ w, nothing_left w → nothing_left (tick w)) as Htick.
  { intros w0 [? Hk]. split; [by apply Hl|]. intros Hf. apply Hd. auto. }
  unfold deployFromRecord, mbind, M_bind. destruct (assertLaunchAllowed_run w) as (r & -> & _).
  destruct r as [e0|[]]; [by intros [= <- <-]|]. destruct (negb _); [by intros [= <- <-]|].
  destruct (mr_requiredMemory record) as [memory|]; [|by intros [= <- <-]]. destruct (Z.leb memory 0); [by intros [= <- <-]|].
  destruct (resolveRunnerProtocol (mr_runnerType record) w) as [rp w1] eqn:Hrp.
  assert (nothing_left w1) as Hw1 by (injection Hrp as _ <-; by apply (Htick w)). clear Hrp Hw.
  destruct rp as [e0|protocol]; [by intros [= <- <-]|].
  destruct (assertModelNameRoutableForProtocol name protocol w1) as [ra w2] eqn:Hra.
  assert (w2 = w1) as ->.
  { unfold assertModelNameRoutableForProtocol in Hra. repeat case_match; by injection Hra. }
  destruct ra as [e0|[]]; [by intros [= <- <-]|].
  destruct (attempt _ _ w1) as [[e0|[]] w3] eqn:Hc; [intros [= <- <-]; by eapply create_failed|].
  apply launch_failed, launch_recorded_total.
Qed.

(** ** What a launch that was admitted has checked *)
Lemma attempt_returned {A} (m : Svc A) h w a w' :
  (∀ e w0 b w1, h e w0 ≠ (inr b, w1)) → attempt m h w = (inr a, w') → m w = (inr a, w').
Proof.
  intros Hh. unfold attempt, catch. destruct (m w) as [[e|b] w1]; [|done]. case_decide; [done|]. intros Hr. by apply Hh in Hr.
Qed.

Lemma launch_returned w la w' :
  launch w = (inr la, w') →
  isContainedIn cwd (mr_modelPath record) weightsDir = true ∧
  ∃ memory protocol w1, mr_requiredMemory record = Some memory ∧ (0 < memory)%Z ∧ recorded protocol memory w1 = (inr la, w').
Proof.
  unfold deployFromRecord. intros ([] & w1 & _ & Hrun)%bind_returned.
  destruct (isContainedIn _ _ _); [|done]. split; [done|]. cbn [negb] in Hrun.
  destruct (mr_requiredMemory record) as [memory|]; [|done]. destruct (Z.leb_spec memory 0); [done|].
  apply bind_returned in Hrun as (protocol & w2 & _ & Hrun). apply bind_returned in Hrun as ([] & w3 & _ & Hrun).
  apply bind_returned in Hrun as ([] & w4 & _ & Hrun). exists memory, protocol, w4. split_and!; [done..|].
  eapply attempt_returned; [|exact Hrun]. intros e w0 b w5 Hx.
  apply bind_returned in Hx as (? & ? & _ & Hx). by apply bind_returned in Hx as (? & ? & _ & ?).
Qed.

Notation placed := (launch_placed keyPrefix deployTimeoutMs healthCheckIntervalMs startupLogs share record id options).
Notation evicting := (launch_evicting JSON_parse keyPrefix config sleepTimeoutMs deployTimeoutMs healthCheckIntervalMs
  staleAfterSecs startupLogs notifications share record id options).

Lemma recorded_returned protocol memory w la w' :
  recorded protocol memory w = (inr la, w') →
  (∃ req res w1, placed protocol req res w1 = (inr la, w')) ∨
  (∃ req workers w1, evicting protocol req workers w1 = (inr la, w')).
Proof.
  unfold launch_recorded. intros ([] & w1 & _ & Hrun)%bind_returned.
  apply bind_returned in Hrun as (workers & w2 & _ & Hrun). apply bind_returned in Hrun as (budgets & w3 & _ & Hrun).
  cbn zeta in Hrun. destruct (match fixedPlacement options with Some _ => _ | None => _ end); [left; eauto|].
  destruct (fixedPlacement options); [done|]. right. eauto.
Qed.

Lemma evicting_returned protocol req workers w la w' :
  evicting protocol req workers w = (inr la, w') →
  ∃ victims, choose_victims keyPrefix config ∅ (requiredMemory req) (eligibleWorkerIds req workers) w = (inr victims, w') ∧
    la = mkLaunch ModelLifecycleState.PENDING "Capacity reclamation in progress"
           (reclaim JSON_parse keyPrefix sleepTimeoutMs deployTimeoutMs healthCheckIntervalMs staleAfterSecs startupLogs notifications
              share record id options protocol req workers victims).
Proof.
  unfold launch_evicting. case_decide; [done|]. intros (victims & w1 & Hv & Hrun)%bind_returned.
  destruct victims as [|v vs]; [done|]. injection Hrun as <- <-. eauto.
Qed.

(** The conditions of [assertLaunchAllowed] on the claims. *)
Definition launch_allowed (claims : RouteClaims) : Prop :=
  name ∉ claims deletingInFlight ∧
  (name ∉ claims movingInFlight ∨ allowMoveClaim options = true) ∧
  name ∉ claims configurationUpdateInFlight.

(** A runner is dispatched only for a launch that is still allowed.  When
    [deployFromRecord] answers STARTING, its weights lie in the weights directory and its
    memory is positive, and at the moment it hands the instance to the deploy orchestration:
    for an ordinary launch no delete, no configuration update and no (other) move of the model
    is in flight; for a move, its last command read the move record and found this
    operation in it. *)
Theorem launch_admitted w la w' :
  launch w = (inr la, w') → la_state la = ModelLifecycleState.STARTING →
  isContainedIn cwd (mr_modelPath record) weightsDir = true ∧
  (∃ memory, mr_requiredMemory record = Some memory ∧ 0 < memory)%Z ∧
  match moveOperationId options with
  | None | Some "" => launch_allowed (l_claims (w_local w'))
  | Some op => ∃ l d o, w_trace w' = l ++ [EvRedis d d] ∧
      db_moves d !! moveKey keyPrefix name = Some o ∧ operationId o = op
  end.
Proof.
  intros (Hc & memory & protocol & w1 & Hmem & Hpos & Hrun)%launch_returned Hst. split; [done|]. split; [eauto|].
  apply recorded_returned in Hrun as [(req & res & w2 & Hrun)|(req & ws & w2 & (vs & _ & ->)%evicting_returned)]; [|done].
  unfold launch_placed in Hrun. apply bind_returned in Hrun as ([] & w3 & _ & Hrun).
  apply bind_returned in Hrun as (deleting & w4 & _ & Hrun). destruct deleting.
  { by apply bind_returned in Hrun as (? & ? & _ & ?). }
  apply bind_returned in Hrun as ([] & w5 & Hall & Hrun). destruct (assertLaunchAllowed_run w4) as (r & Hr & Hok).
  rewrite Hr in Hall. injection Hall as -> ->. specialize (Hok tt eq_refl).
  apply bind_returned in Hrun as ([] & w6 & Hmv & [= _ <-]). unfold assertMoveStillOwned in Hmv.
  destruct (moveOperationId options) as [op|]; [|by injection Hmv as <-].
  destruct (decide (op = "")) as [-> |Hop]; [by injection Hmv as <-|].
  apply bind_returned in Hmv as (o & w7 & Ho & Hmv). unfold getMoveOperation in Ho. apply redis_returned in Ho as [-> ->].
  cbn [fst] in Hmv. destruct (decide _) as [He|]; [|done]. injection Hmv as <-. apply fmap_Some in He as (o & Ho & ->).
  destruct (operationId o) eqn:Hopid; [done|]. eexists _, _, o. simpl. split_and!; done.
Qed.
End failure.

(** ** What making room may touch *)
Section reclaim.
Context `{!Env, !ReconEnv, !RouteEnv, !RedisScan, !JsDate, !PlacementStrategy, !EvictionStrategy}.
Context (JSON_parse : string → option json) (keyPrefix cwd weightsDir : string) (config : EvictionConfig).
Context (sleepTimeoutMs deployTimeoutMs healthCheckIntervalMs staleAfterSecs : Z) (startupLogs notifications : bool).
Context (share : Z → Z → Z) (record : ModelRecord) (id : string) (options : DeployFromRecordOptions).
Notation name := (mr_name record).
Notation key := (instanceStateKey keyPrefix name id).

(** A command is on the launch's own record, or part of the teardown of a victim. *)
Definition reclaim_ok (victims : list EvictionCandidate) (l : list Event) (e : Event) : Prop :=
  match e with EvRedis d d' => own_change key d d' | _ => True end ∨
  ∃ v, v ∈ victims ∧ teardown_ok keyPrefix (ev_modelName v) (ev_instanceId v) l e.

Section victims.
Context (victims : list EvictionCandidate).
Notation jr := (justifies (reclaim_ok victims) (λ _, True)).
Notation ok := (covered (reclaim_ok victims) (λ _, True)).

Lemma reclaim_own d d' : own_change key d d' → ok (EvRedis d d').
Proof. intros Ho l _. by left. Qed.
Lemma reclaim_other e : (∀ d d', e ≠ EvRedis d d') → ok e.
Proof. intros He l _. left. destruct e; try done. by destruct (He before after). Qed.
Hint Extern 1 (covered (reclaim_ok _) _ (EvRedis _ _)) => by apply reclaim_own, own_change_same : preserves.
Hint Extern 2 (covered (reclaim_ok _) _ _) => (apply reclaim_other; intros ? ?; discriminate) : preserves.

Lemma reclaim_routing op d : ok (EvRedis d (run_routing_op op d)).
Proof. apply reclaim_own, own_change_same, run_routing_op_instances. Qed.
Hint Resolve reclaim_routing : preserves.
Lemma reclaim_refresh m : preserves jr (refreshModelRoutingState keyPrefix m).
Proof. apply (refresh_preserves _ _ ok); auto with preserves. Qed.
Lemma reclaim_transition to u : preserves jr (transition keyPrefix name id to u).
Proof.
  assert (∀ at_ d, ok (EvRedis d (transition_script key to u at_ d).2)); [|unfold transition; solve_preserves].
  intros. apply reclaim_own, own_change_transition.
Qed.
Lemma reclaim_deployment wid protocol owner :
  preserves jr (deployment keyPrefix deployTimeoutMs healthCheckIntervalMs startupLogs (deploy_params name id wid protocol owner)).
Proof. apply (deployModel_preserves _ _ _ _ _ _ ok); auto using reclaim_own with preserves. Qed.
Lemma reclaim_evict v context : v ∈ victims → preserves jr (evict keyPrefix sleepTimeoutMs healthCheckIntervalMs context v).
Proof.
  intros Hv. pose proof (teardown_justified keyPrefix sleepTimeoutMs healthCheckIntervalMs (ev_modelName v) (ev_instanceId v)
    (reclaim_ok victims) (λ l e Ht, or_intror (ex_intro _ v (conj Hv Ht))) (λ _, True)).
  unfold evict, getInstance. solve_preserves.
Qed.
Lemma reclaim_memory : preserves jr (memory_step JSON_parse keyPrefix).
Proof. unfold memory_step, read_call. solve_preserves. Qed.
Hint Resolve reclaim_refresh reclaim_transition reclaim_deployment reclaim_memory : preserves.

Lemma reclaim_justified protocol req workers :
  preserves jr (reclaim JSON_parse keyPrefix sleepTimeoutMs deployTimeoutMs healthCheckIntervalMs staleAfterSecs startupLogs
                  notifications share record id options protocol req workers victims).
Proof.
  assert (preserves jr (for_each victims (evict keyPrefix sleepTimeoutMs healthCheckIntervalMs "Eviction (capacity reclamation)"))).
  { apply (preserves_for_each_in _ ok). intros v. apply reclaim_evict. }
  assert (preserves jr (assertLaunchAllowed name options)) by (unfold assertLaunchAllowed, claimed; solve_preserves).
  unfold reclaim, reclaim_steps, occupy, getBudgets, claimed, releaseHolds, side_call, notify. solve_preserves.
Qed.
End victims.

(** The victims were read as running, and their models as not pinned. *)
Definition evicted_for (l : list Event) (m : InstanceState) : Prop :=
  read_instance l m ∧ (state m = ModelLifecycleState.ACTIVE ∨ state m = ModelLifecycleState.SLEEPING) ∧
  ∃ n records, ro_models n = inr records ∧ modelName m ∉ pinned_models records.

Lemma select_now_returned insts pins required targets sizes w vs w' :
  select_now config insts pins required targets sizes w = (inr vs, w') →
  w_trace w' = w_trace w ∧ ∀ v, v ∈ vs → ∃ m, m ∈ insts ∧ ev_modelName v = modelName m ∧ ev_instanceId v = instanceId m ∧
    (state m = ModelLifecycleState.ACTIVE ∨ state m = ModelLifecycleState.SLEEPING) ∧ modelName m ∉ pins.
Proof.
  unfold select_now. pose proof (selectVictims_victim config (w_now w) insts pins required (Some targets) sizes (l_evictions (w_local w))) as Hv.
  destruct (selectVictims _ _ _ _ _ _ _ _) as [victims recent]. intros [= -> <-]. split; [done|]. intros v Hin.
  destruct (Hv v Hin) as (m & Hm & -> & Hst & Hp & _). exists m. done.
Qed.

Lemma choose_victims_returned required targets w vs w' :
  choose_victims keyPrefix config ∅ required targets w = (inr vs, w') →
  ∀ v, v ∈ vs → ∃ m, evicted_for (w_trace w') m ∧ ev_modelName v = modelName m ∧ ev_instanceId v = instanceId m.
Proof.
  unfold choose_victims. intros (xs & w1 & Hread & Hrun)%bind_returned v Hv.
  pose proof (getAllInstances_read _ _ _ _ Hread) as Hxs.
  assert (grows (getLastInferenceTimestamps keyPrefix (modelName <$> xs))) as Hg1 by (unfold getLastInferenceTimestamps; solve_preserves).
  apply bind_returned in Hrun as (ts & w2 & Hts & Hrun). specialize (Hg1 w1). rewrite Hts in Hg1. destruct Hg1 as [[l2 Hl2] _].
  apply bind_returned in Hrun as (records & w3 & Hrec & Hrun). unfold all_records, http_call in Hrec.
  destruct (ro_models (w_step w2)) as [|rs] eqn:Hro; [done|]. injection Hrec as -> <-.
  apply select_now_returned in Hrun as [Htr Hsel]. destruct (Hsel v Hv) as (m & Hm & Hn & Hi & Hst & Hp).
  apply list_elem_of_fmap in Hm as (m0 & -> & Hm0). exists m0. split; [|done].
  destruct (Hxs m0 Hm0) as (d & k & Hev & Hk). split; [|split; [done|]].
  - exists d, k. split; [|done]. rewrite Htr. simpl in Hl2 |- *. rewrite Hl2, !elem_of_app. auto.
  - exists (w_step w2), records. split; [done|]. simpl in Hp. set_solver.
Qed.

(** Making room touches only what may be evicted.  When a launch answers PENDING, every
    command of its background task changes at most the launch's own record (which it never
    deletes), or belongs to the teardown of one instance which this launch had read as
    ACTIVE or SLEEPING and whose model the table did not show as pinned; and such
    a teardown deletes a record only after its runner is gone. *)
Theorem reclamation_touches_only_victims w la w' w1 l1 d d' l2 :
  deployFromRecord JSON_parse keyPrefix cwd weightsDir config sleepTimeoutMs deployTimeoutMs
    healthCheckIntervalMs staleAfterSecs startupLogs notifications share record id options w = (inr la, w') →
  la_state la = ModelLifecycleState.PENDING →
  w_trace w1 = [] → w_trace (la_deployment la w1).2 = l1 ++ EvRedis d d' :: l2 →
  own_change key d d' ∨
  ∃ m, evicted_for (w_trace w') m ∧ teardown_ok keyPrefix (modelName m) (instanceId m) l1 (EvRedis d d').
Proof.
  intros (_ & memory & protocol & w2 & _ & _ & Hrun)%launch_returned Hst Hw1 Htr.
  apply recorded_returned in Hrun as [(req & res & w3 & Hrun)|(req & ws & w3 & (vs & Hvs & ->)%evicting_returned)].
  { unfold launch_placed in Hrun. apply bind_returned in Hrun as ([] & w4 & _ & Hrun).
    apply bind_returned in Hrun as (deleting & w5 & _ & Hrun). destruct deleting; [by apply bind_returned in Hrun as (? & ? & _ & ?)|].
    apply bind_returned in Hrun as ([] & w6 & _ & Hrun). apply bind_returned in Hrun as ([] & w7 & _ & Hrun).
    injection Hrun as <- _. done. }
  cbn [la_deployment] in Htr.
  destruct (justified_run _ _ _ w1 (reclaim_justified vs protocol req ws) I Hw1 l1 (EvRedis d d') l2 Htr) as [Ho|(v & Hv & Ht)]; [by left|].
  right. destruct (choose_victims_returned _ _ _ _ _ Hvs v Hv) as (m & Hm & Hn & Hi). exists m. by rewrite <- Hn, <- Hi.
Qed.
End reclaim.

(** ** Closed examples: a worker with one device of 100 bytes, 90 of them free *)
Definition ex_runner : InstanceState :=
  mkInstance "a" "m" ModelLifecycleState.SLEEPING None (Some "w1") (Some "h") (Some 80%Z) (Some 81%Z) (Some "r1") None None "0" None false.
Definition ex_launch_world : World :=
  mkWorld (set_instances (λ _, {["p:models:m:a" := ex_runner]}) empty_db)
    (mkLocal init_state [("w1", example_worker "w1")] ∅ init_recon no_claims []) 100000 0 [].
Definition ex_memory : ReconEnv := {|
  re_info_keys := λ _, inr []; re_infos := λ _, inr None; re_heartbeats := λ _ ids, inr None;
  re_memory_keys := λ _, inr [workerMemoryKey "p" "w1"]; re_memory := λ _, inr (Some [Some "report"]);
  re_model_names := λ _, inr []; re_model_row := λ _ _, inr true; re_instance_rows := λ _, inr []; re_incomplete := λ _, inr tt |}.
Definition ex_record (name : string) (memory : Z) : ModelRecord := mkModel name "vllm" "/weights/x" (Some memory) None 1 false.
Definition ex_routes : RouteEnv := {|
  ro_runner_metadata := λ _ _, inr Protocol.openai; ro_model := λ _ name, inr (Some (ex_record name 50));
  ro_models := λ _, inr [ex_record "m" 50; ex_record "n" 95];
  ro_create := λ _, inr (ex_record "n" 40); ro_update := λ _, inr true; ro_operation_id := λ _, "op" |}.
Notation ex_teardown := (@teardownInstance idle_env star_scan decimal_date "p" 1000 100 "m" "a" true "Stop" ex_launch_world).
Notation ex_launch memory options :=
  (@deployFromRecord idle_env ex_memory ex_routes star_scan decimal_date MostAvailableCapacityStrategy LruEvictionStrategy
     MemoryBudget.example_parse "p" "/" "/weights" default_config 1000 1000 100 10000 true true (λ r t, r / t)%Z
     (ex_record "n" memory) "b" options ex_launch_world).
Definition event_stores (o : option Event) : RedisDb * RedisDb :=
  match o with Some (EvRedis d d') => (d, d') | _ => (empty_db, empty_db) end.

(** The 13th event of the teardown deletes the record. *)
Definition ex_teardown_trace : list Event := w_trace ex_teardown.2.
Definition ex_teardown_drop : RedisDb * RedisDb := event_stores (ex_teardown_trace !! 12).
Lemma ex_teardown_split :
  w_trace ex_teardown.2 = take 12 ex_teardown_trace ++ EvRedis ex_teardown_drop.1 ex_teardown_drop.2 :: drop 13 ex_teardown_trace.
Proof. vm_compute. reflexivity. Qed.
Lemma ex_teardown_gone :
  db_instances ex_teardown_drop.2 !! "p:models:m:a" = None ∧ is_Some (db_instances ex_teardown_drop.1 !! "p:models:m:a").
Proof. split; [vm_compute; reflexivity|]. eexists. vm_compute. reflexivity. Qed.

Lemma teardown_reaps_first_witness :
  ∃ d0, EvRedis d0 d0 ∈ take 12 ex_teardown_trace ∧
    ∀ s, db_instances d0 !! "p:models:m:a" = Some s → reaped (take 12 ex_teardown_trace) "a" s.
Proof.
  destruct ex_teardown_gone as [Hgone [s0 Hs0]].
  destruct (@teardown_reaps_first idle_env star_scan decimal_date "p" 1000 100 "m" "a" true "Stop" ex_launch_world
    (take 12 ex_teardown_trace) ex_teardown_drop.1 ex_teardown_drop.2 (drop 13 ex_teardown_trace) "p:models:m:a" eq_refl ex_teardown_split)
    as [_ Hr]; [rewrite Hgone, Hs0; discriminate|]. rewrite Hgone in Hr. exact Hr.
Defined.

Lemma teardown_returns_witness : ∃ b, (ex_teardown).1 = inr b.
Proof. apply (@teardown_returns idle_env star_scan decimal_date "p" 1000 100 "m" "a" true "Stop" ex_launch_world). lia. Defined.

(** A launch on a worker that does not exist fails. *)
Definition ex_nowhere : DeployFromRecordOptions := mkOptions (Some ("w9", [0%Z])) false None.
Lemma ex_launch_fails : ∃ e w', ex_launch 40 ex_nowhere = (inl e, w').
Proof.
  assert (match ex_launch 40 ex_nowhere with (inl _, _) => true | _ => false end = true) as Hb by (vm_compute; reflexivity).
  destruct (ex_launch 40 ex_nowhere) as [[e|la] w']; [eauto|discriminate Hb].
Qed.
Lemma failed_launch_leaves_nothing_witness :
  ∃ e w', ex_launch 40 ex_nowhere = (inl e, w') ∧ @nothing_left idle_env "p" (ex_record "n" 40) "b" w'.
Proof.
  destruct ex_launch_fails as (e & w' & Hrun). exists e, w'. split; [exact Hrun|].
  apply (@failed_launch_leaves_nothing idle_env ex_memory ex_routes star_scan decimal_date MostAvailableCapacityStrategy LruEvictionStrategy
     MemoryBudget.example_parse "p" "/" "/weights" default_config 1000 1000 100 10000 true true (λ r t, r / t)%Z
     (ex_record "n" 40) "b" ex_nowhere ex_launch_world e w'); [intros n l Hl; exact Hl|intros n d Hd; exact Hd|split; [intros worker device; reflexivity|intros _; vm_compute; reflexivity]|exact Hrun].
Defined.

Lemma ex_launch_starts : ∃ la w', ex_launch 40 no_options = (inr la, w') ∧ la_state la = ModelLifecycleState.STARTING.
Proof.
  assert (match ex_launch 40 no_options with (inr la, _) => bool_decide (la_state la = ModelLifecycleState.STARTING) | _ => false end = true)
    as Hb by (vm_compute; reflexivity).
  destruct (ex_launch 40 no_options) as [[e|la] w']; [discriminate Hb|]. apply bool_decide_eq_true in Hb. eauto.
Qed.
Lemma launch_admitted_witness :
  ∃ la w', ex_launch 40 no_options = (inr la, w') ∧ launch_allowed (ex_record "n" 40) no_options (l_claims (w_local w')).
Proof.
  destruct ex_launch_starts as (la & w' & Hrun & Hst). exists la, w'. split; [exact Hrun|].
  destruct (@launch_admitted idle_env ex_memory ex_routes star_scan decimal_date MostAvailableCapacityStrategy LruEvictionStrategy
     MemoryBudget.example_parse "p" "/" "/weights" default_config 1000 1000 100 10000 true true (λ r t, r / t)%Z
     (ex_record "n" 40) "b" no_options ex_launch_world la w' Hrun Hst) as (_ & _ & Hall). exact Hall.
Defined.

(** A launch of 95 bytes makes room: the 14th event of its task deletes the record of [m]/[a]. *)
Definition ex_pending : Launch :=
  match ex_launch 95 no_options with (inr la, _) => la | _ => mkLaunch ModelLifecycleState.ERROR "" (mret tt) end.
Definition ex_reclaim_trace : list Event := w_trace (la_deployment ex_pending ex_launch_world).2.
Definition ex_evicted : RedisDb * RedisDb := event_stores (ex_reclaim_trace !! 13).
Lemma ex_reclaim_split :
  w_trace (la_deployment ex_pending ex_launch_world).2 =
    take 13 ex_reclaim_trace ++ EvRedis ex_evicted.1 ex_evicted.2 :: drop 14 ex_reclaim_trace.
Proof. vm_compute. reflexivity. Qed.
Lemma ex_evicted_gone : db_instances ex_evicted.2 !! "p:models:m:a" = None ∧ is_Some (db_instances ex_evicted.1 !! "p:models:m:a").
Proof. split; [vm_compute; reflexivity|]. eexists. vm_compute. reflexivity. Qed.
Lemma ex_launch_pends : ∃ w', ex_launch 95 no_options = (inr ex_pending, w') ∧ la_state ex_pending = ModelLifecycleState.PENDING.
Proof.
  assert (match ex_launch 95 no_options with (inr la, _) => bool_decide (la_state la = ModelLifecycleState.PENDING) | _ => false end = true)
    as Hb by (vm_compute; reflexivity).
  unfold ex_pending. destruct (ex_launch 95 no_options) as [[e|la] w']; [discriminate Hb|]. apply bool_decide_eq_true in Hb. eauto.
Qed.

Lemma reclamation_touches_only_victims_witness :
  ∃ m, (state m = ModelLifecycleState.ACTIVE ∨ state m = ModelLifecycleState.SLEEPING) ∧
    teardown_ok "p" (modelName m) (instanceId m) (take 13 ex_reclaim_trace) (EvRedis ex_evicted.1 ex_evicted.2).
Proof.
  destruct ex_evicted_gone as [Hgone [s0 Hs0]]. destruct ex_launch_pends as (w' & Hrun & Hst).
  destruct (@reclamation_touches_only_victims idle_env ex_memory ex_routes star_scan decimal_date MostAvailableCapacityStrategy
     LruEvictionStrategy MemoryBudget.example_parse "p" "/" "/weights" default_config 1000 1000 100 10000 true true (λ r t, r / t)%Z
     (ex_record "n" 95) "b" no_options ex_launch_world ex_pending w' ex_launch_world (take 13 ex_reclaim_trace) ex_evicted.1 ex_evicted.2
     (drop 14 ex_reclaim_trace) Hrun Hst eq_refl ex_reclaim_split) as [[Ho _]|(m & (_ & Hm & _) & Ht)].
  - exfalso. assert ("p:models:m:a" ≠ instanceStateKey "p" "n" "b") as Hne by (vm_compute; discriminate).
    specialize (Ho "p:models:m:a" Hne). rewrite Hgone, Hs0 in Ho. discriminate Ho.
  - exists m. split; [exact Hm|exact Ht].
Defined.
