(* ===== verification/LeaderElection.v ===== *)
(** * Leader election (control-plane/src/services/leader-election.ts)

    The replicas of the control plane elect a leader through a Kubernetes Lease.  The
    API server is outside the repository: [KubeApi] states what it documents about
    conditional updates.  [KubeEnv] is the rest of the world: the other replicas, the
    network, the clock, the token file, and other timer callbacks of this process. *)
From stdpp Require Import base tactics list strings.
From Stdlib Require Import ZArith Lia Ascii.
From S2P Require Import Prelude Js Types Errors Lifecycle.

(** ** The Lease object *)
Record KubeSpec := mkSpec {
  holderIdentity : option string;
  leaseDurationSeconds : option Z;
  acquireTime : option string;
  renewTime : option string;
}.
Record KubeLease := mkLease { resourceVersion : option string; lease_spec : option KubeSpec }.
#[global] Instance KubeSpec_eq_dec : EqDecision KubeSpec.
Proof. solve_decision. Defined.
#[global] Instance KubeLease_eq_dec : EqDecision KubeLease.
Proof. solve_decision. Defined.

(** [toKubernetesMicroTime(date)]: the last character of the ISO text gives way to [000Z]. *)
Definition toKubernetesMicroTime `{!JsDate} (ms : Z) : string :=
  let iso := toISOString ms in str_take (str_length iso - 1) iso +:+ "000Z".

(** The date parser reads such a timestamp back: the digits added are zeros. *)
Class MicroDate `{!JsDate} : Prop := getTime_micro ms : getTime (toKubernetesMicroTime ms) = Some ms.

(** A response that is not 2xx: its status, and its body unless reading that fails. *)
Definition Refusal : Type := Z * option string.

(** [PUT] and [POST] of the coordination API: refused, or the object now stored.  A [PUT] that names a version succeeds only on that version. *)
Class KubeApi := {
  kube_put : option KubeLease → KubeLease → Refusal + KubeLease;
  kube_post : option KubeLease → KubeLease → Refusal + KubeLease;
  kube_put_spec stored body new : kube_put stored body = inr new → lease_spec new = lease_spec body;
  kube_put_version stored body new :
    kube_put stored body = inr new → truthy_str (resourceVersion body) = true →
    ∃ old, stored = Some old ∧ resourceVersion old = resourceVersion body;
  kube_post_spec stored body new : kube_post stored body = inr new → stored = None ∧ lease_spec new = lease_spec body;
}.

(** ** The process *)
Record Elect := mkElect {
  e_isLeader : bool;
  e_failures : Z;                     (** [_consecutiveLeaseFailures] *)
  e_timer : bool;                     (** [renewTimer !== null] *)
  e_token : option string;            (** [cachedToken] *)
  e_tokenReadAt : Z;
}.

Inductive KEvent :=
| KRead (at_ : Z) (reply : option KubeLease)
| KWrite (at_ : Z) (before after : option KubeLease)
| KGauge (v : Z)                      (** [leaderIsLeader.set] *)
| KFailure (reason : string)          (** [leaderLeaseFailuresTotal.labels(reason).inc()] *)
| KLog (level : string) (consecutive : Z).

Record KWorld := mkKW { kw_lease : option KubeLease; kw_self : Elect; kw_now : Z; kw_step : nat; kw_trace : list KEvent }.

Inductive KFault := KNoFault | KFailBefore (msg : string) | KFailAfter (msg : string).
Class KubeEnv := {
  k_elapsed : nat → nat;
  k_interfere : nat → option KubeLease → option KubeLease;   (** other replicas *)
  k_interfere_self : nat → Elect → Elect;                    (** other callbacks of this process *)
  k_fault : nat → KFault;     (** no answer, or an answer that is not 2xx (404 apart for a read) *)
  k_token : nat → option string;
}.

Notation KSvc := (M KWorld Exn).

Definition k_tick `{!KubeEnv} (w : KWorld) : KWorld :=
  mkKW (k_interfere (kw_step w) (kw_lease w)) (k_interfere_self (kw_step w) (kw_self w))
    (kw_now w + Z.of_nat (k_elapsed (kw_step w))) (S (kw_step w)) (kw_trace w).
Definition k_log (e : KEvent) (w : KWorld) : KWorld :=
  mkKW (kw_lease w) (kw_self w) (kw_now w) (kw_step w) (kw_trace w ++ [e]).
Definition k_set (f : Elect → Elect) (w : KWorld) : KWorld :=
  mkKW (kw_lease w) (f (kw_self w)) (kw_now w) (kw_step w) (kw_trace w).

(** An awaited request: atomic at the server; the answer can be lost. *)
Definition k_call `{!KubeEnv} {A} (f : option KubeLease → A * option KubeLease) (ev : Z → option KubeLease → option KubeLease → KEvent) : KSvc A := λ w,
  let w1 := k_tick w in
  let '(a, after) := f (kw_lease w1) in
  let done := k_log (ev (kw_now w1) (kw_lease w1) after) (mkKW after (kw_self w1) (kw_now w1) (kw_step w1) (kw_trace w1)) in
  match k_fault (kw_step w) with
  | KNoFault => (inr a, done)
  | KFailBefore msg => (inl (OtherError msg), w1)
  | KFailAfter msg => (inl (OtherError msg), done)
  end.

Definition set_leader (b : bool) : KSvc unit :=
  modify (k_set (λ e, mkElect b (e_failures e) (e_timer e) (e_token e) (e_tokenReadAt e))) ;;
  modify (k_log (KGauge (if b then 1 else 0))).
Definition set_failures (n : Z) : KSvc unit :=
  modify (k_set (λ e, mkElect (e_isLeader e) n (e_timer e) (e_token e) (e_tokenReadAt e))).
Definition set_timer (b : bool) : KSvc unit :=
  modify (k_set (λ e, mkElect (e_isLeader e) (e_failures e) b (e_token e) (e_tokenReadAt e))).

(** [s.toLowerCase()] on ASCII letters *)
Definition ascii_lower (c : ascii) : ascii :=
  let n := nat_of_ascii c in if Nat.leb 65 n && Nat.leb n 90 then ascii_of_nat (n + 32) else c.
Fixpoint str_lower (s : string) : string :=
  match s with EmptyString => EmptyString | String c s' => String (ascii_lower c) (str_lower s') end.
Definition isConflictError (e : Exn) : bool :=
  includes "409" (err_message e) || includes "conflict" (str_lower (err_message e)).

(** [s.trim()] on ASCII white space *)
Definition is_space (c : ascii) : bool := let n := nat_of_ascii c in Nat.eqb n 32 || (Nat.leb 9 n && Nat.leb n 13).
Fixpoint trim_start (s : string) : string :=
  match s with String c s' => if is_space c then trim_start s' else s | EmptyString => s end.
Fixpoint trim_end (s : string) : string :=
  match s with
  | EmptyString => EmptyString
  | String c s' => match trim_end s' with EmptyString => if is_space c then EmptyString else String c EmptyString | t => String c t end
  end.
Definition responseError (r : Refusal) : string :=
  match r.2 with
  | None => show_int r.1
  | Some text =>
      let detail := trim_end (trim_start text) in
      if truthy_str (Some detail) then show_int r.1 +:+ ": " +:+ str_take 1024 detail else show_int r.1
  end.

Definition FAILURE_LOG_INTERVAL : Z := 10.
Definition TOKEN_CACHE_MS : Z := 60000.

Section service.
Context `{!KubeEnv, !KubeApi, !JsDate} (hostname : string) (leaseDurationMs : Z) (kubeAvailable : bool).

Definition isLeaseExpired (now : Z) (lease : KubeLease) : bool :=
  match lease_spec lease with
  | None => true
  | Some spec =>
      if negb (truthy_str (renewTime spec)) || negb (truthy_num (leaseDurationSeconds spec)) then true
      else match getTime (default "" (renewTime spec)) with
           | Some renewed => Z.ltb (renewed + default 0%Z (leaseDurationSeconds spec) * 1000) now
           | None => false
           end
  end.

(** The token is read again when the cached one is a minute old; a failed read keeps it. *)
Definition kubeHeaders : KSvc (option string) :=
  now ← gets kw_now;
  st ← gets kw_self;
  if truthy_str (e_token st) && Z.ltb (now - e_tokenReadAt st) TOKEN_CACHE_MS then mret (e_token st)
  else
    file ← gets (λ w, k_token (kw_step w));
    match file with
    | Some token =>
        modify (k_set (λ e, mkElect (e_isLeader e) (e_failures e) (e_timer e) (Some token) now)) ;;
        mret (Some token)
    | None => mret None
    end.

Definition getLease : KSvc (option KubeLease) :=
  kubeHeaders ;; k_call (λ l, (l, l)) (λ t l _, KRead t l).

Definition acquire_refused (r : Refusal) : Exn := OtherError ("Lease acquire failed: " +:+ responseError r).
Definition renew_refused (r : Refusal) : Exn :=
  OtherError (if Z.eqb r.1 409 then "Lease conflict — another instance took over"
              else "Lease renew failed: " +:+ responseError r).
Definition write_call (refused : Refusal → Exn) (f : option KubeLease → Refusal + KubeLease) : KSvc unit :=
  r ← k_call (λ l, match f l with inl r => (Some r, l) | inr new => (None, Some new) end) KWrite;
  match r with None => mret tt | Some r => throw (refused r) end.

Definition acquire_body (now : Z) (existing : option KubeLease) : KubeLease :=
  mkLease (match existing with Some l => if truthy_str (resourceVersion l) then resourceVersion l else None | None => None end)
    (Some (mkSpec (Some hostname) (Some (leaseDurationMs / 1000)%Z)
             (Some (toKubernetesMicroTime now)) (Some (toKubernetesMicroTime now)))).
Definition acquireLease (existing : option KubeLease) : KSvc unit :=
  now ← gets kw_now;
  let body := acquire_body now existing in
  kubeHeaders ;;
  match existing with
  | Some _ => write_call acquire_refused (λ l, kube_put l body)
  | None => write_call acquire_refused (λ l, kube_post l body)
  end.

Definition renewLease : KSvc unit :=
  lease ← getLease;
  match lease with
  | None => throw (OtherError "Lease disappeared")
  | Some l =>
      match lease_spec l with
      | Some spec =>
          if decide (holderIdentity spec ≠ Some hostname) then throw (OtherError "Lease held by another instance") else
          now ← gets kw_now;
          let body := mkLease (resourceVersion l)
            (Some (mkSpec (holderIdentity spec) (leaseDurationSeconds spec) (acquireTime spec) (Some (toKubernetesMicroTime now)))) in
          kubeHeaders ;; write_call renew_refused (λ stored, kube_put stored body)
      | None => throw (OtherError "Lease held by another instance")
      end
  end.

Definition releaseLease : KSvc unit :=
  catch (kubeHeaders ;; k_call (λ _, (tt, None)) KWrite) (λ _, mret tt).

Definition recordLeaseFailure (e : Exn) (operation : string) : KSvc unit :=
  n ← gets (λ w, (e_failures (kw_self w) + 1)%Z);
  set_failures n ;;
  let isConflict := isConflictError e in
  modify (k_log (KFailure (if isConflict then "conflict" else operation))) ;;
  if isConflict then modify (k_log (KLog "debug" n))
  else when (Z.eqb n 1 || Z.eqb (n mod FAILURE_LOG_INTERVAL) 0) (modify (k_log (KLog "warn" n))).

Definition lease_failed (operation : string) (e : Exn) : KSvc unit :=
  set_leader false ;; recordLeaseFailure e operation.

Definition tryAcquire : KSvc unit :=
  if negb kubeAvailable then mret tt else
  catch
    (lease ← getLease;
     now ← gets kw_now;
     when (match lease with None => true | Some l => isLeaseExpired now l end)
       (acquireLease lease ;; set_leader true) ;;
     set_failures 0)
    (lease_failed "acquire").

Definition tryRenew : KSvc unit :=
  leader ← gets (λ w, e_isLeader (kw_self w));
  if negb leader then tryAcquire
  else catch (renewLease ;; set_failures 0) (lease_failed "renew").

(** [singleInstance] is the environment variable SARDEENZ_SINGLE_INSTANCE. *)
Definition start (singleInstance : option string) : KSvc unit :=
  if negb kubeAvailable then
    if decide (singleInstance = Some "true" ∨ singleInstance = Some "1") then
      modify (k_log (KLog "warn" 0)) ;; set_leader true
    else throw (OtherError "Not running on Kubernetes and SARDEENZ_SINGLE_INSTANCE is not set. Set SARDEENZ_SINGLE_INSTANCE=true to run as a single instance without leader election.")
  else tryAcquire ;; set_timer true.

Definition stop : KSvc unit :=
  set_timer false ;;
  leader ← gets (λ w, e_isLeader (kw_self w));
  when (leader && kubeAvailable) releaseLease ;;
  set_leader false ;;
  set_failures 0.
End service.

(** ** What the process may do to the lease *)
Section writes.
Context `{!KubeEnv, !KubeApi, !JsDate} (hostname : string) (leaseDurationMs : Z) (kubeAvailable mayDelete : bool).

(** The lease this host writes when it takes over at time [t]. *)
Definition own_spec (t : Z) (spec : option KubeSpec) : Prop :=
  spec = lease_spec (acquire_body hostname leaseDurationMs t None).
(** [new] is [old] with a new renewal time. *)
Definition renewed_spec (old new : option KubeSpec) (t : Z) : Prop :=
  ∃ s, old = Some s ∧ holderIdentity s = Some hostname ∧
    new = Some (mkSpec (holderIdentity s) (leaseDurationSeconds s) (acquireTime s) (Some (toKubernetesMicroTime t))).
(** A write that names the version of [r] meets that version. *)
Definition same_version (r : KubeLease) (before : option KubeLease) : Prop :=
  truthy_str (resourceVersion r) = true → ∃ old, before = Some old ∧ resourceVersion old = resourceVersion r.

(** A write at time [t], after the events [l]: refused, a creation, a takeover of a lease
    that was read and found expired, a renewal of a lease that was read as this host's,
    or a deletion where that is allowed. *)
Inductive write_ok (l : list KEvent) (t : Z) (before : option KubeLease) : option KubeLease → Prop :=
| wr_refused : write_ok l t before before
| wr_create new t0 : before = None → own_spec t0 (lease_spec new) → (t0 ≤ t)%Z → write_ok l t before (Some new)
| wr_takeover r tr new t0 :
    KRead tr (Some r) ∈ l → isLeaseExpired tr r = true → same_version r before →
    own_spec t0 (lease_spec new) → (tr ≤ t0)%Z → (t0 ≤ t)%Z → write_ok l t before (Some new)
| wr_renew r tr new t0 :
    KRead tr (Some r) ∈ l → same_version r before → renewed_spec (lease_spec r) (lease_spec new) t0 →
    (tr ≤ t0)%Z → (t0 ≤ t)%Z → write_ok l t before (Some new)
| wr_delete : mayDelete = true → write_ok l t before None.

Definition lease_ok (l : list KEvent) (e : KEvent) : Prop :=
  match e with KWrite t before after => write_ok l t before after | _ => True end.
Definition good (w : KWorld) : Prop := justified lease_ok (kw_trace w).

Lemma good_log e w : good w → lease_ok (kw_trace w) e → good (k_log e w).
Proof. apply justified_snoc. Qed.

(** *** The pieces *)
Lemma wp_kubeHeaders (Q : option string → KWorld → Prop) X w :
  (∀ a f, (∀ e, e_isLeader (f e) = e_isLeader e) → Q a (k_set f w)) → wp kubeHeaders Q X w.
Proof.
  intros HQ. assert (∀ a, Q a w) as HQ'. { intros a. specialize (HQ a (λ e, e)). destruct w as [l [] n s t]. by apply HQ. }
  unfold kubeHeaders. apply wp_bind, wp_gets, wp_bind, wp_gets. case_match; [by apply wp_ret|].
  apply wp_bind, wp_gets. destruct (k_token _); [|by apply wp_ret]. apply wp_bind, wp_modify, wp_ret. by apply HQ.
Qed.

Lemma wp_k_call {A} (f : option KubeLease → A * option KubeLease) ev (Q : A → KWorld → Prop) X w :
  let w1 := k_tick w in
  let w2 := k_log (ev (kw_now w1) (kw_lease w1) (f (kw_lease w1)).2)
                  (mkKW (f (kw_lease w1)).2 (kw_self w1) (kw_now w1) (kw_step w1) (kw_trace w1)) in
  (Q (f (kw_lease w1)).1 w2) → (∀ e, X e w1) → (∀ e, X e w2) → wp (k_call f ev) Q X w.
Proof.
  cbn zeta. intros HQ HX1 HX2. unfold wp, k_call. destruct (f (kw_lease (k_tick w))) as [a d]. by destruct (k_fault (kw_step w)).
Qed.

Lemma wp_getLease w :
  good w → wp getLease (λ r w', good w' ∧ KRead (kw_now w') r ∈ kw_trace w') (λ _, good) w.
Proof.
  intros Hw. unfold getLease. apply wp_bind, wp_kubeHeaders. intros _ f _. apply wp_k_call; cbn [fst snd].
  - split; [by apply good_log|]. simpl. rewrite elem_of_app, list_elem_of_singleton. by right.
  - intros e. exact Hw.
  - intros e. by apply good_log.
Qed.

(** A conditional write of this host: if it returns, it is in the trace. *)
Definition wrote (w : KWorld) : Prop :=
  ∃ t before new spec, KWrite t before (Some new) ∈ kw_trace w ∧ lease_spec new = Some spec ∧ holderIdentity spec = Some hostname.

Lemma wp_write_call refusal f (P : KubeLease → Prop) w :
  good w → (∀ stored new, f stored = inr new → P new ∧ lease_ok (kw_trace w) (KWrite (kw_now (k_tick w)) stored (Some new))) →
  (∀ new, P new → ∃ spec, lease_spec new = Some spec ∧ holderIdentity spec = Some hostname) →
  wp (write_call refusal f) (λ _ w', good w' ∧ wrote w') (λ _, good) w.
Proof.
  intros Hw Hf HP. unfold write_call. apply wp_bind.
  assert (∀ stored, lease_ok (kw_trace w) (KWrite (kw_now (k_tick w)) stored stored)) as Href by (intros; constructor).
  apply wp_k_call; cbn [fst snd].
  - destruct (f (kw_lease (k_tick w))) as [r|new] eqn:Hfw; cbn [fst snd].
    + apply wp_throw, good_log; [exact Hw|apply Href].
    + destruct (Hf _ _ Hfw) as [HPn Hok]. apply wp_ret. split; [by apply good_log|].
      destruct (HP new HPn) as (spec & Hs & Hh). exists (kw_now (k_tick w)), (kw_lease (k_tick w)), new, spec.
      split; [simpl; rewrite elem_of_app, list_elem_of_singleton; by right|done].
  - intros e. exact Hw.
  - intros e. apply good_log; [exact Hw|]. destruct (f _) as [r|new] eqn:Hfw; [apply Href|by apply Hf].
Qed.

Lemma wp_acquireLease existing w :
  good w →
  match existing with Some r => ∃ tr, KRead tr (Some r) ∈ kw_trace w ∧ isLeaseExpired tr r = true ∧ (tr ≤ kw_now w)%Z | None => True end →
  wp (acquireLease hostname leaseDurationMs existing) (λ _ w', good w' ∧ wrote w') (λ _, good) w.
Proof.
  intros Hw Hex. unfold acquireLease. apply wp_bind, wp_gets. cbn zeta. apply wp_bind, wp_kubeHeaders. intros _ f _.
  set (P := λ new : KubeLease, own_spec (kw_now w) (lease_spec new)).
  assert (∀ new, P new → ∃ spec, lease_spec new = Some spec ∧ holderIdentity spec = Some hostname) as HP.
  { intros new Hn. eexists. split; [exact Hn|done]. }
  assert (kw_now w ≤ kw_now (k_tick (k_set f w)))%Z as Hle by (simpl; lia).
  destruct existing as [r|].
  - apply (wp_write_call _ _ P); [exact Hw| |exact HP]. intros stored new Hput. split; [exact (kube_put_spec _ _ _ Hput)|].
    destruct Hex as (tr & Hr & Hx & Htr). eapply wr_takeover; [exact Hr|exact Hx| |exact (kube_put_spec _ _ _ Hput)|exact Htr|exact Hle].
    intros Hv. destruct (kube_put_version _ _ _ Hput) as (old & -> & Hold); simpl in *; rewrite Hv in *; eauto.
  - apply (wp_write_call _ _ P); [exact Hw| |exact HP]. intros stored new [-> Hs]%kube_post_spec. split; [done|].
    by eapply wr_create.
Qed.

Lemma wp_renewLease w :
  good w → wp (renewLease hostname) (λ _ w', good w' ∧ wrote w') (λ _, good) w.
Proof.
  intros Hw. unfold renewLease. apply wp_bind. eapply wp_mono; [by apply wp_getLease| |auto].
  intros [r|] w1 [Hw1 Hr]; [|by apply wp_throw]. destruct (lease_spec r) as [spec|] eqn:Hspec; [|by apply wp_throw].
  case_decide as Hh; [by apply wp_throw|].
  apply wp_bind, wp_gets. cbn zeta. apply wp_bind, wp_kubeHeaders. intros _ f _.
  set (body := mkLease _ _). apply (wp_write_call _ _ (λ new, lease_spec new = lease_spec body)); [exact Hw1| |].
  - intros stored new Hput. split; [exact (kube_put_spec _ _ _ Hput)|].
    apply (wr_renew _ _ _ r (kw_now w1) new (kw_now w1)); [exact Hr| | |lia|simpl; lia].
    + intros Hv. exact (kube_put_version _ _ _ Hput Hv).
    + exists spec. split; [done|]. split; [done|]. exact (kube_put_spec _ _ _ Hput).
  - intros new ->. by eexists.
Qed.

Lemma wp_releaseLease w : mayDelete = true → good w → wp releaseLease (λ _, good) (λ _ _, False) w.
Proof.
  intros Hd Hw. unfold releaseLease. apply wp_catch, wp_bind, wp_kubeHeaders. intros _ f _. apply wp_k_call; cbn [fst snd].
  - apply good_log; [exact Hw|by constructor].
  - intros e. exact Hw.
  - intros e. apply wp_ret, good_log; [exact Hw|by constructor].
Qed.

(** The two outcomes of a try: the flag is set by the caller, or cleared here. *)
Lemma wp_lease_failed op e w :
  good w → wp (lease_failed op e) (λ _ w', good w' ∧ e_isLeader (kw_self w') = false) (λ _ _, False) w.
Proof.
  intros Hw. unfold lease_failed, set_leader, recordLeaseFailure, set_failures.
  apply wp_bind, wp_bind, wp_modify, wp_modify, wp_bind, wp_gets, wp_bind, wp_modify. cbn zeta.
  apply wp_bind, wp_modify.
  assert (∀ v1 n v2, good (k_log (KFailure v2) (k_set (λ e, mkElect (e_isLeader e) n (e_timer e) (e_token e) (e_tokenReadAt e))
    (k_log (KGauge v1) (k_set (λ e, mkElect false (e_failures e) (e_timer e) (e_token e) (e_tokenReadAt e)) w))))) as Hg.
  { intros v1 n v2. apply good_log; [|done]. by apply good_log. }
  case_match; [apply wp_modify; split; [by apply good_log|done]|].
  destruct (_ || _); simpl; [apply wp_modify; split; [by apply good_log|done]|by apply wp_ret].
Qed.

(** *** Calls *)
Definition no_self_change : Prop := ∀ n e, k_interfere_self n e = e.
Definition leads (w : KWorld) : bool := e_isLeader (kw_self w).

Lemma wp_getLease_leads w :
  no_self_change → wp getLease (λ _ w', leads w' = leads w) (λ _ w', leads w' = leads w) w.
Proof.
  intros Hself. unfold getLease. apply wp_bind, wp_kubeHeaders. intros _ f Hf.
  apply wp_k_call; [|intros e..]; unfold leads; simpl; by rewrite Hself.
Qed.

(** After a try that started without leadership the flag is set only by a write. *)
Lemma wp_tryAcquire w :
  good w →
  wp (tryAcquire hostname leaseDurationMs kubeAvailable)
     (λ _ w', good w' ∧ (no_self_change → leads w = false → leads w' = true → wrote w')) (λ _ _, False) w.
Proof.
  intros Hw. unfold tryAcquire. destruct kubeAvailable; simpl; [|apply wp_ret; split; [done|congruence]].
  apply wp_catch. eapply (wp_mono _ _ _ (λ _, good)); [|intros a w' Hw'; exact Hw'|].
  2: { intros e w' Hw'. eapply wp_mono; [by apply wp_lease_failed| |done]. intros ? w2 [? Hl]. split; [done|]. unfold leads. congruence. }
  apply wp_bind.
  assert (wp getLease (λ r w', good w' ∧ KRead (kw_now w') r ∈ kw_trace w' ∧ (no_self_change → leads w' = leads w)) (λ _, good) w) as Hget.
  { pose proof (wp_getLease w Hw) as Hg. pose proof (wp_getLease_leads w) as Hl. unfold wp in *.
    destruct (getLease w) as [[e|r] w']; [done|]. destruct Hg. by auto. }
  eapply wp_mono; [exact Hget| |auto]. intros r w1 (Hw1 & Hr & Hl1). apply wp_bind, wp_gets, wp_bind.
  destruct (match r with None => true | Some l => isLeaseExpired (kw_now w1) l end) eqn:Hx; simpl.
  - apply wp_bind. eapply wp_mono; [apply wp_acquireLease; [exact Hw1|destruct r; [by eauto with lia|done]]| |auto].
    intros _ w2 [Hw2 (t & b & new & spec & Hin & Hs)]. unfold set_leader, set_failures. apply wp_bind, wp_modify, wp_modify, wp_modify.
    split; [by apply good_log|]. intros _ _ _. exists t, b, new, spec. simpl. rewrite elem_of_app. by auto.
  - apply wp_ret. unfold set_failures. apply wp_modify. split; [exact Hw1|]. unfold leads in *. simpl. intros Hs Hf Ht. rewrite Hl1 in Ht; congruence.
Qed.

Lemma wp_tryRenew w :
  good w →
  wp (tryRenew hostname leaseDurationMs kubeAvailable)
     (λ _ w', good w' ∧ (no_self_change → leads w' = true → wrote w')) (λ _ _, False) w.
Proof.
  intros Hw. unfold tryRenew. apply wp_bind, wp_gets. destruct (e_isLeader (kw_self w)) eqn:Hl; simpl.
  - apply wp_catch, wp_bind. eapply wp_mono; [by apply wp_renewLease| |].
    + intros _ w1 [Hw1 (t & b & new & spec & Hin & Hs)]. unfold set_failures. apply wp_modify. split; [exact Hw1|]. intros _ _. by exists t, b, new, spec.
    + intros e w1 Hw1. eapply wp_mono; [by apply wp_lease_failed| |done]. intros ? w2 [? Hf]. split; [done|]. unfold leads. congruence.
  - eapply wp_mono; [by apply wp_tryAcquire| |done]. intros _ w1 [? Hw1]. split; [done|]. auto.
Qed.
End writes.

(** ** The calls of a process *)
Inductive election_call := CallStart (singleInstance : option string) | CallTick | CallStop.

Section calls.
Context `{!KubeEnv, !KubeApi, !JsDate} (hostname : string) (leaseDurationMs : Z).

Definition run_election (c : election_call) : KSvc unit :=
  match c with
  | CallStart s => start hostname leaseDurationMs true s
  | CallTick => tryRenew hostname leaseDurationMs true
  | CallStop => stop true
  end.
Definition deletes_lease (c : election_call) : bool := match c with CallStop => true | _ => false end.

Definition tick_leads (c : election_call) (w' : KWorld) : Prop := c = CallTick → no_self_change → leads w' = true → wrote hostname w'.
Lemma wp_run_election c w :
  kw_trace w = [] →
  wp (run_election c) (λ _ w', good hostname leaseDurationMs (deletes_lease c) w' ∧ tick_leads c w') (λ _ _, False) w.
Proof.
  intros Hw. assert (good hostname leaseDurationMs (deletes_lease c) w) as Hg by (unfold good; rewrite Hw; apply justified_nil).
  unfold tick_leads. destruct c as [s| |]; simpl in *.
  - unfold start. simpl. apply wp_bind. eapply wp_mono; [by apply wp_tryAcquire| |done]. intros _ w1 [Hw1 _].
    unfold set_timer. apply wp_modify. by split.
  - eapply wp_mono; [by apply wp_tryRenew| |done]. intros _ w1 [? ?]. by auto.
  - unfold stop, set_timer. apply wp_bind, wp_modify, wp_bind, wp_gets, wp_bind.
    assert (∀ w1, good hostname leaseDurationMs true w1 →
      wp (set_leader false ;; set_failures 0)
        (λ _ w', good hostname leaseDurationMs true w' ∧ (CallStop = CallTick → no_self_change → leads w' = true → wrote hostname w')) (λ _ _, False) w1) as Hend.
    { intros w1 Hw1. unfold set_leader, set_failures. apply wp_bind, wp_bind, wp_modify, wp_modify, wp_modify. split; [by apply good_log|done]. }
    destruct (_ && true); simpl; [|by apply Hend].
    eapply wp_mono; [by apply (wp_releaseLease hostname leaseDurationMs true)| |done]. intros u w1 Hw1. by apply Hend.
Qed.
(** What a call of this code has done to the lease was justified when it did it. *)
Lemma run_election_good c w :
  kw_trace w = [] → justified (lease_ok hostname leaseDurationMs (deletes_lease c)) (kw_trace (run_election c w).2).
Proof. intros Hw. pose proof (wp_run_election c w Hw) as Hwp. unfold wp in Hwp. destruct (run_election c w) as [[e|u] w']; [done|]. by destruct Hwp. Qed.

(** C12: on Kubernetes, starting, each timer tick and stopping write to the lease only as
    follows, whatever the other replicas, the API server and the network do: a write is
    refused and changes nothing, or creates a lease that names this host where there is none,
    or takes over, in the name of this host, a lease that this call read and found expired, on
    exactly the version it read, or renews a lease it read as its own, on exactly that version,
    or (in a stop, and only there) deletes the lease that is there, whoever holds it.  No
    call throws; and when nothing else in the process touches the flag, a tick ends with
    leadership only if that very tick completed a write that names this host. *)
Theorem election_writes_sound c w :
  kw_trace w = [] →
  let '(r, w') := run_election c w in
  r = inr tt ∧ justified (lease_ok hostname leaseDurationMs (deletes_lease c)) (kw_trace w') ∧
  (c = CallTick → no_self_change → leads w' = true → wrote hostname w').
Proof.
  intros Hw. pose proof (wp_run_election c w Hw) as Hwp. unfold wp in Hwp. destruct (run_election c w) as [[e|[]] w']; [done|]. by destruct Hwp.
Qed.
End calls.

(** ** At most one leader at a time *)

(** One write as the API server saw it: by whom and in which call, what that call had seen, when
    by the clock of the host and when in truth, and the lease before and after. *)
Record lease_write := mkWrite {
  lw_host : string; lw_call : election_call; lw_seen : list KEvent; lw_at : Z; lw_real : Z; lw_before : option KubeLease; lw_after : option KubeLease;
}.

Section history.
Context `{!KubeApi, !JsDate} (duration : string → Z) (skew : Z).

(** The write was made by a run of this code: [start], a tick or [stop] on that host, in some
    environment, had seen what the record says, and then wrote. *)
Definition issued (x : lease_write) : Prop :=
  ∃ (E : KubeEnv) w later, kw_trace w = [] ∧
    kw_trace (run_election (lw_host x) (duration (lw_host x)) (lw_call x) w).2 = lw_seen x ++ KWrite (lw_at x) (lw_before x) (lw_after x) :: later.
(** The server gives every stored object its own version: a lease that was read has one,
    and the same version is the same object. *)
Definition versions_identify (x : lease_write) : Prop :=
  ∀ tr r, KRead tr (Some r) ∈ lw_seen x →
    truthy_str (resourceVersion r) = true ∧ ∀ old, lw_before x = Some old → resourceVersion old = resourceVersion r → old = r.
(** The clocks of the hosts differ from the true time by at most [skew]. *)
Definition clock_ok (x : lease_write) : Prop := (Z.abs (lw_at x - lw_real x) ≤ skew)%Z.

(** The writes of all replicas, in the order the server applied them. *)
Inductive lease_history : option KubeLease → list lease_write → Prop :=
| lh_nil s : lease_history s []
| lh_cons x xs : issued x → versions_identify x → clock_ok x → Forall (λ y, (lw_real x ≤ lw_real y)%Z) xs → lease_history (lw_after x) xs →
    lease_history (lw_before x) (x :: xs).

Lemma lease_history_app s xs x ys :
  lease_history s (xs ++ x :: ys) → lease_history (lw_before x) (x :: ys).
Proof.
  revert s. induction xs as [|y xs IH]; intros s; simpl; [by inversion 1; subst; constructor|].
  inversion 1; subst. by eapply IH.
Qed.
Lemma issued_ok x : issued x → write_ok (lw_host x) (duration (lw_host x)) (deletes_lease (lw_call x)) (lw_seen x) (lw_at x) (lw_before x) (lw_after x).
Proof.
  intros (E & w & later & Hw & Ht). pose proof (run_election_good (lw_host x) (duration (lw_host x)) (lw_call x) w Hw) as Hg. exact (Hg _ _ _ Ht).
Qed.
(** A write by somebody who does not hold the lease and is not shutting down. *)
Definition foreign (A : string) (x : lease_write) : Prop := lw_host x ≠ A ∧ lw_call x ≠ CallStop.

(** A foreign write changes a held lease only once that has expired. *)
Lemma foreign_write x l spec A :
  issued x → versions_identify x → lw_before x = Some l → lease_spec l = Some spec → holderIdentity spec = Some A → foreign A x →
  lw_after x = lw_before x ∨ ∃ tr, (tr ≤ lw_at x)%Z ∧ isLeaseExpired tr l = true.
Proof.
  intros Hw%issued_ok Hv Hb Hs Hh [Hne Hst]. inversion Hw as [Heq|new t0 Hn _ _ Heq|r tr new t0 Hr Hx Hsv _ Ht1 Ht2 Heq|r tr new t0 Hr Hsv Hren _ _ Heq|Hd]; subst.
  - by left.
  - by rewrite Hb in Hn.
  - right. exists tr. split; [lia|]. destruct (Hv tr r Hr) as [Htv Hid]. destruct (Hsv Htv) as (old & Hold & Hver).
    rewrite (Hid old Hold Hver) in Hold. congruence.
  - exfalso. destruct (Hv tr r Hr) as [Htv Hid]. destruct (Hsv Htv) as (old & Hold & Hver).
    rewrite (Hid old Hold Hver) in Hold. destruct Hren as (s & Hsr & Hhs & _). simplify_eq.
  - by destruct (lw_call x).
Qed.

Lemma held_until_expired l spec A mid y ys :
  lease_history (Some l) (mid ++ y :: ys) → lease_spec l = Some spec → holderIdentity spec = Some A →
  Forall (foreign A) mid → foreign A y → lw_after y ≠ lw_before y →
  ∃ tr, (tr ≤ lw_real y + skew)%Z ∧ isLeaseExpired tr l = true.
Proof.
  intros Hh Hs HA Hmid Hy Heff. induction Hmid as [|x mid Hx _ IH]; simpl in Hh; inversion Hh as [|? ? Hi Hv Hc Hle Hrest Hb]; subst; unfold clock_ok in Hc.
  - destruct (foreign_write y l spec A) as [?|(tr & ? & ?)]; [done..|]. exists tr. split; [lia|done].
  - destruct (foreign_write x l spec A) as [Hsame|(tr & Htr & Hx')]; [done..| |].
    + rewrite Hsame, Hb in Hrest. by apply IH.
    + exists tr. split; [|done]. rewrite Forall_app, Forall_cons in Hle. destruct Hle as (_ & Hle & _). lia.
Qed.

(** C13: the lease excludes other leaders while it lasts.  Take any history of the writes that
    any number of replicas make by running [start], ticks and [stop] of this code, each in an
    environment of its own, with clocks that are off by at most [skew].  After a write that
    makes host A the holder, as long as A writes no more and nobody shuts down, no other host
    changes the lease until, up to [skew], its renewal time plus the lease duration it carries
    have passed.  So a leader that completes its renewals within that time is the only one. *)
Theorem lease_exclusive s pre x mid y post l spec renewed D :
  lease_history s (pre ++ x :: mid ++ y :: post) →
  lw_after x = Some l → lease_spec l = Some spec → holderIdentity spec = Some (lw_host x) →
  getTime (default "" (renewTime spec)) = Some renewed → truthy_str (renewTime spec) = true →
  leaseDurationSeconds spec = Some D → D ≠ 0%Z →
  Forall (λ z, lw_host z ≠ lw_host x ∧ lw_call z ≠ CallStop) (mid ++ [y]) → lw_after y ≠ lw_before y →
  (renewed + D * 1000 - skew < lw_real y)%Z.
Proof.
  intros Hh Hl Hs HA Hr Htr HD HD0 [Hmid [Hy _]%Forall_cons]%Forall_app Heff. apply lease_history_app in Hh. inversion Hh as [|? ? _ _ _ _ Hrest Hb]; subst.
  rewrite Hl in Hrest. destruct (held_until_expired l spec (lw_host x) mid y post) as (t & Ht & Hx); [done..|].
  unfold isLeaseExpired in Hx. rewrite Hs, Htr, HD in Hx. simpl in Hx.
  destruct (Z.eqb_spec D 0); [done|]. simpl in Hx. rewrite Hr in Hx. apply Z.ltb_lt in Hx. lia.
Qed.
End history.

(** ** Shutting down *)

(** A shutdown deletes the lease whoever holds it.  [stop] of a process that still
    believes to be the leader sends an unconditional DELETE: when another replica has
    taken the lease over in the meantime, it is that replica's lease that goes, and the
    next one to look finds none.  During the request the process still counts itself as
    the leader. *)
Theorem stop_deletes_foreign_lease `{!KubeEnv, !KubeApi, !JsDate} w other :
  leads w = true → k_fault (kw_step w) = KNoFault → k_interfere (kw_step w) (kw_lease w) = Some other →
  let '(r, w') := stop true w in
  r = inr tt ∧ kw_lease w' = None ∧ leads w' = false ∧ KWrite (kw_now (k_tick w)) (Some other) None ∈ kw_trace w'.
Proof.
  intros Hl Hf Hi.
  assert (wp (stop true) (λ _ w', kw_lease w' = None ∧ leads w' = false ∧ KWrite (kw_now (k_tick w)) (Some other) None ∈ kw_trace w') (λ _ _, False) w) as Hwp.
  2: { unfold wp in Hwp. destruct (stop true w) as [[e|[]] w']; [done|]. done. }
  unfold stop, set_timer. apply wp_bind, wp_modify, wp_bind, wp_gets. cbn [kw_self k_set]. unfold leads in Hl. rewrite Hl. simpl.
  apply wp_bind. unfold releaseLease. apply wp_catch, wp_bind, wp_kubeHeaders. intros _ f _. unfold wp at 1, k_call. cbn [kw_step k_set k_tick kw_lease].
  rewrite Hf, Hi. unfold set_leader, set_failures. apply wp_bind, wp_bind, wp_modify, wp_modify, wp_modify. split; [done|]. split; [done|].
  simpl. rewrite !elem_of_app, !list_elem_of_singleton. tauto.
Qed.

(** ** Closed examples *)

(** A date implementation: decimal milliseconds, then a fraction that is not read. *)
Definition fraction_date : JsDate.
Proof.
  refine {| toISOString := λ ms, show_int ms +:+ ":Z";
            getTime := λ s, match split_on colon s with x :: _ => js_Number x | [] => None end |}.
  intros ms. change (":Z")%string with (String colon "Z"). rewrite split_on_app, split_on_no_char by apply show_int_no_colon.
  apply js_Number_show_int.
Defined.
Lemma fraction_micro : @MicroDate fraction_date.
Proof.
  intros ms. unfold toKubernetesMicroTime. simpl. rewrite str_length_app. replace (str_length ":Z") with 2 by done.
  replace (str_length (show_int ms) + 2 - 1) with (str_length (show_int ms +:+ ":")) by (rewrite str_length_app; simpl; lia).
  replace (show_int ms +:+ ":Z") with ((show_int ms +:+ ":") +:+ "Z") by (by rewrite str_app_assoc).
  rewrite str_take_app, str_app_assoc. change (":" +:+ "000Z") with (String colon "000Z").
  rewrite split_on_app, split_on_no_char by apply show_int_no_colon.
  apply js_Number_show_int.
Qed.

(** An API server: versions count in unary. *)
Definition next_version (v : option string) : option string := Some (default "" v +:+ "1").
Definition counting_api : KubeApi.
Proof.
  refine {|
    kube_put := λ stored body,
      match stored with
      | None => inl (404%Z, None)
      | Some old =>
          if truthy_str (resourceVersion body) && negb (bool_decide (resourceVersion old = resourceVersion body))
          then inl (409%Z, None) else inr (mkLease (next_version (resourceVersion old)) (lease_spec body))
      end;
    kube_post := λ stored body,
      match stored with None => inr (mkLease (Some "1") (lease_spec body)) | Some _ => inl (409%Z, None) end |}.
  - intros [old|] body new; [|done]. case_match; [done|]. by intros [= <-].
  - intros [old|] body new; [|done]. intros Heq Hv. rewrite Hv in Heq. simpl in Heq. case_bool_decide; [|done]. eauto.
  - intros [old|] body new; [done|]. by intros [= <-].
Defined.

Definition calm_kube : KubeEnv := {|
  k_elapsed := λ _, 1; k_interfere := λ _ l, l; k_interfere_self := λ _ e, e; k_fault := λ _, KNoFault; k_token := λ _, Some "token";
|}.
Definition ex_elect (leader : bool) : Elect := mkElect leader 0 true None 0.
Definition ex_held (host : string) (t : Z) : KubeLease :=
  mkLease (Some "1") (lease_spec (@acquire_body fraction_date host 15000 t None)).
Definition ex_kworld (leader : bool) (l : option KubeLease) (now : Z) : KWorld := mkKW l (ex_elect leader) now 0 [].
Notation ex_tick := (@run_election calm_kube counting_api fraction_date "b" 15000 CallTick).

(** A tick takes over an expired lease and leaves a valid one alone. *)
Example ex_takeover : leads (ex_tick (ex_kworld false (Some (ex_held "a" 1000)) 20000)).2 = true.
Proof. vm_compute. reflexivity. Qed.
Example ex_respect : leads (ex_tick (ex_kworld false (Some (ex_held "a" 1000)) 15000)).2 = false.
Proof. vm_compute. reflexivity. Qed.

Lemma election_writes_sound_witness :
  wrote "b" (ex_tick (ex_kworld false (Some (ex_held "a" 1000)) 20000)).2.
Proof.
  pose proof (@election_writes_sound calm_kube counting_api fraction_date "b" 15000 CallTick
    (ex_kworld false (Some (ex_held "a" 1000)) 20000) eq_refl) as H.
  pose proof ex_takeover as Hl. destruct (ex_tick (ex_kworld false (Some (ex_held "a" 1000)) 20000)) as [r w'].
  destruct H as (_ & _ & H). apply H; [reflexivity|intros ? ?; reflexivity|exact Hl].
Defined.

(** Host [a] takes the free lease at time 1000; the clock of [b] is 300 behind: it tries at 5000 and
    leaves it, and takes over at 20000. *)
Definition ex_call (host : string) (l : option KubeLease) (now : Z) : list KEvent :=
  kw_trace (@run_election calm_kube counting_api fraction_date host 15000 CallTick (ex_kworld false l now)).2.
Definition ex_lease1 : KubeLease := ex_held "a" 1001.
Definition ex_lease2 : KubeLease := mkLease (Some "11") (lease_spec (@acquire_body fraction_date "b" 15000 20001 None)).
Definition ex_write1 : lease_write := mkWrite "a" CallTick [KRead 1001 None] 1002 1002 None (Some ex_lease1).
Definition ex_write2 : lease_write := mkWrite "b" CallTick [KRead 20001 (Some ex_lease1)] 20002 20302 (Some ex_lease1) (Some ex_lease2).
Example ex_call_respects : ex_call "b" (Some ex_lease1) 5000 = [KRead 5001 (Some ex_lease1)].
Proof. vm_compute. reflexivity. Qed.
Lemma ex_history : @lease_history counting_api fraction_date (λ _, 15000%Z) 300 None [ex_write1; ex_write2].
Proof.
  apply (@lh_cons counting_api fraction_date (λ _, 15000%Z) 300 ex_write1); [| |unfold clock_ok; simpl; lia|repeat constructor; simpl; lia|].
  { exists calm_kube, (ex_kworld false None 1000), [KGauge 1]. split; vm_compute; reflexivity. }
  { intros tr r Hr%list_elem_of_singleton. discriminate Hr. }
  apply (@lh_cons counting_api fraction_date (λ _, 15000%Z) 300 ex_write2); [| |unfold clock_ok; simpl; lia|constructor|constructor].
  { exists calm_kube, (ex_kworld false (Some ex_lease1) 20000), [KGauge 1]. split; vm_compute; reflexivity. }
  intros tr r Hr%list_elem_of_singleton. injection Hr as -> ->. split; [reflexivity|]. intros old Hold _. simpl in Hold. congruence.
Qed.

Lemma lease_exclusive_witness : (1001 + 15 * 1000 - 300 < 20302)%Z.
Proof.
  apply (@lease_exclusive counting_api fraction_date (λ _, 15000%Z) 300 None [] ex_write1 [] ex_write2 [] ex_lease1
    (mkSpec (Some "a") (Some 15%Z) (Some (@toKubernetesMicroTime fraction_date 1001)) (Some (@toKubernetesMicroTime fraction_date 1001))) 1001 15);
    [exact ex_history|reflexivity|vm_compute; reflexivity|reflexivity|vm_compute; reflexivity|vm_compute; reflexivity|reflexivity|lia| |].
  - repeat constructor; discriminate.
  - discriminate.
Defined.

(** The lease was taken over by [c]; [b] shuts down. *)
Lemma stop_deletes_foreign_lease_witness :
  kw_lease (@stop calm_kube true (ex_kworld true (Some (ex_held "c" 1000)) 2000)).2 = None.
Proof.
  pose proof (@stop_deletes_foreign_lease calm_kube counting_api fraction_date (ex_kworld true (Some (ex_held "c" 1000)) 2000) (ex_held "c" 1000)
    eq_refl eq_refl eq_refl) as H.
  destruct (@stop calm_kube true (ex_kworld true (Some (ex_held "c" 1000)) 2000)) as [r w']. exact (proj1 (proj2 H)).
Defined.
