(* ===== verification/Move.v ===== *)
(** * Moving an instance (control-plane/src/services/move-orchestration.ts)

    A move replaces one instance of a model by another on a chosen worker.  The
    durable [MoveOperation] is the fence and the recovery cursor; [resume] is the
    executor, run by the leader again and again until the record is gone.  Each phase
    of [resume] is a definition here; [None] from a phase is an early [return] of
    [resume].  The notifications sent without awaiting them belong to the
    environment. *)
From stdpp Require Import base tactics list strings gmap sets.
From Stdlib Require Import ZArith Lia Ascii.
From S2P Require Import Prelude Js Types Errors MemoryBudget WorkerPool Placement Store ModelName Lifecycle RoutingMap SleepWake WorkerClient.

Section service.
Context `{!Env, !RedisScan, !JsDate} (keyPrefix : string).
Context (sleepTimeoutMs healthCheckIntervalMs ambiguousStartGraceMs : Z) (startupLogs notifications : bool).

Definition mark (what : string) : Svc unit := when startupLogs (swallow (side_call what)).

(** [Date.now() - new Date(since).getTime() < ambiguousStartGraceMs], false for [NaN] *)
Definition within_grace (since : string) : Svc bool :=
  now ← date_now;
  mret (match getTime since with Some t => Z.ltb (now - t) ambiguousStartGraceMs | None => false end).

(** [failure] is [None] for [finish(operation, true)]. *)
Definition finish (operation : MoveOperation) (failure : option string) : Svc unit :=
  removed ← removeMoveOperation keyPrefix (mv_modelName operation) (operationId operation);
  when (removed && notifications) (modify (log_event
    match failure with
    | None => EvNotify "Model moved" (mv_modelName operation +:+ " moved to " +:+ targetWorkerId operation)
    | Some msg => EvNotify "Model move failed" (mv_modelName operation +:+ ": " +:+ msg)
    end)).

Definition restoreSourceWeight (operation : MoveOperation) (source : InstanceState) : Svc unit :=
  match endpoint_address source with
  | None => throw (OtherError "source has no recoverable routing endpoint for rollback")
  | Some (host, port) =>
      restored ← updateEndpointWeight (mv_modelName operation) host port (NumInt 1);
      if (restored : bool) then mret tt
      else throw (OtherError "source routing endpoint was not found during rollback")
  end.

(** The worker reports a runner that is ready: record its address, route to it,
    and make the replacement ACTIVE, unless someone else just did. *)
Definition adopt_runner (operation : MoveOperation) (initial : InstanceState) (workerId rId host : string)
    (port enginePort : Z) : Svc InstanceState :=
  let name := mv_modelName operation in
  replacement ←
    (if decide (state initial = ModelLifecycleState.PENDING) then
       transition keyPrefix name (instanceId initial) ModelLifecycleState.STARTING
         (mkUpdates (Some (Some workerId)) None None None None (Some (Some (targetDeviceIndices operation))) None None)
     else mret initial);
  setRunnerEndpoint keyPrefix name (instanceId replacement) rId host port (Some enginePort) ;;
  addEndpoint name (mkEndpoint host enginePort 1 true (Some rId)) (Some (default Protocol.openai (protocol replacement))) ;;
  active ←
    attempt
      (transition keyPrefix name (instanceId replacement) ModelLifecycleState.ACTIVE
         (mkUpdates None (Some (Some host)) (Some (Some port)) (Some (Some enginePort)) (Some (Some rId)) None None None))
      (λ e, current ← getInstance keyPrefix name (instanceId replacement);
            match current with
            | Some c => if decide (state c = ModelLifecycleState.ACTIVE) then mret c else throw e
            | None => throw e
            end);
  refreshModelRoutingState keyPrefix name ;;
  releaseHolds (instanceId active) ;;
  mark "startup-log succeeded" ;;
  mret active.

(** The worker has no such runner and the grace period is over. *)
Definition give_up_start (operation : MoveOperation) (initial : InstanceState) : Svc InstanceState :=
  let name := mv_modelName operation in
  attempt
    (transition keyPrefix name (instanceId initial) ModelLifecycleState.ERROR
       (error_update "replacement runner was not started before leader handoff"))
    (λ e, current ← getInstance keyPrefix name (instanceId initial);
          match current with
          | Some c => if decide (state c = ModelLifecycleState.ACTIVE) then mret c else throw e
          | None => throw e
          end).

Definition recoverReplacementStart (operation : MoveOperation) (initial : InstanceState) : Svc (option InstanceState) :=
  let workerId := default (targetWorkerId operation) (workerId initial) in
  worker ← getWorkerNow workerId;
  match worker with
  | None => mret None
  | Some _ =>
      lookup ← getRunnerByInstance (instanceId initial);
      match lookup with
      | LookupStarting _ => mret None
      | LookupAbsent =>
          early ← within_grace (createdAt operation);
          if (early : bool) then mret None else found (give_up_start operation initial)
      | LookupReady rId host port enginePort =>
          found (adopt_runner operation initial workerId rId host port enginePort)
      end
  end.

(** *** Tearing an instance down *)

(** A start whose fate is unknown is settled first: [None] is "not yet", otherwise
    the instance as it is now stored. *)
Definition settle_ambiguous (operation : MoveOperation) (instance : InstanceState) : Svc (option (option InstanceState)) :=
  if runnerStartAmbiguous instance && negb (truthy_str (runnerId instance)) then
    if negb (truthy_str (workerId instance)) then mret None else
    worker ← getWorkerNow (default "" (workerId instance));
    match worker with
    | None => mret None
    | Some _ =>
        lookup ← getRunnerByInstance (instanceId instance);
        match lookup with
        | LookupStarting _ => mret None
        | LookupAbsent =>
            early ← within_grace (stateChangedAt instance);
            mret (if (early : bool) then None else Some (Some instance))
        | LookupReady rId host port enginePort =>
            setRunnerEndpoint keyPrefix (mv_modelName operation) (instanceId instance) rId host port (Some enginePort) ;;
            found (getInstance keyPrefix (mv_modelName operation) (instanceId instance))
        end
    end
  else mret (Some (Some instance)).

(** The worker forgets the runner; a runner it does not know is gone already. *)
Definition stop_worker_runner (instance : InstanceState) : Svc unit :=
  match workerId instance, runnerId instance with
  | Some wid, Some rId =>
      if truthy_str (Some wid) && truthy_str (Some rId) then
        worker ← getWorkerNow wid;
        match worker with
        | None => throw (OtherError ("worker " +:+ wid +:+ " is unknown"))
        | Some _ =>
            attempt (stopRunner rId)
              (λ e, match e with WorkerHttpError _ 404 => mret tt | _ => throw e end)
        end
      else mret tt
  | _, _ => mret tt
  end.

Definition stop_and_remove (operation : MoveOperation) (instance : InstanceState) : Svc unit :=
  let name := mv_modelName operation in
  let client := bool_decide (is_Some (endpoint_address instance)) in
  stopModel keyPrefix sleepTimeoutMs healthCheckIntervalMs name (instanceId instance) client ;;
  stop_worker_runner instance ;;
  removeInstance keyPrefix name (instanceId instance) ;;
  swallow (side_call "instance row deleted") ;;
  releaseHolds (instanceId instance).

Definition teardown_failed (operation : MoveOperation) (instance : InstanceState) (isReplacementCleanup : bool) : Svc bool :=
  let name := mv_modelName operation in
  swallow
    (retained ← getInstance keyPrefix name (instanceId instance);
     when (bool_decide (state <$> retained = Some ModelLifecycleState.STOPPED))
       (transition keyPrefix name (instanceId instance) ModelLifecycleState.ERROR
          (error_update ((if isReplacementCleanup then "Move replacement cleanup" else "Move source teardown")
                         +:+ " could not be confirmed")) ;;
        refreshModelRoutingState keyPrefix name)) ;;
  mret false.

(** The record can be gone when it is read again; [instance] is then [null], and the
    handlers that read [instance.instanceId] throw in their turn. *)
Definition teardown (operation : MoveOperation) (initial : InstanceState) (isReplacementCleanup : bool) : Svc bool :=
  settled ← attempt (r ← settle_ambiguous operation initial; mret (inr r))
                    (λ _, b ← teardown_failed operation initial isReplacementCleanup; mret (inl b));
  match settled with
  | inl b => mret b
  | inr None => mret false
  | inr (Some None) => throw (OtherError "Cannot read properties of null (reading 'instanceId')")
  | inr (Some (Some instance)) =>
      attempt (stop_and_remove operation instance ;; mret true)
              (λ _, teardown_failed operation instance isReplacementCleanup)
  end.

(** *** The phases of [resume] *)
Definition advance (operation : MoveOperation) (name : string) (p : MoveOperationPhase) (err : option string) :
    Svc (option MoveOperation) :=
  updateMoveOperation keyPrefix name (operationId operation) (Some p) err.

Definition phase_starting (name : string) (operation : MoveOperation) : Svc (option MoveOperation) :=
  if decide (phase operation ≠ MoveOperationPhase.REPLACEMENT_STARTING) then mret (Some operation) else
  first ← getInstance keyPrefix name (replacementInstanceId operation);
  match first with
  | None => finish operation (Some "replacement disappeared before cutover") ;; mret None
  | Some r0 =>
      recovered ←
        (if decide (state r0 = ModelLifecycleState.PENDING ∨ state r0 = ModelLifecycleState.STARTING)
         then recoverReplacementStart operation r0 else mret (Some r0));
      match recovered with
      | None => mret None
      | Some replacement =>
          match state replacement with
          | ModelLifecycleState.ACTIVE =>
              mark "startup-log succeeded" ;;
              advance operation name MoveOperationPhase.REPLACEMENT_READY None
          | ModelLifecycleState.ERROR =>
              mark "startup-log failed" ;;
              advance operation name MoveOperationPhase.REPLACEMENT_CLEANUP
                (Some (default "replacement deployment failed" (errorMessage replacement)))
          | _ => mret None
          end
      end
  end.

Definition phase_cleanup (name : string) (operation : MoveOperation) : Svc (option MoveOperation) :=
  if decide (phase operation ≠ MoveOperationPhase.REPLACEMENT_CLEANUP) then mret (Some operation) else
  replacement ← getInstance keyPrefix name (replacementInstanceId operation);
  gone ← match replacement with None => mret true | Some r => teardown operation r true end;
  (if (gone : bool) then finish operation (Some (default "replacement deployment failed" (mv_errorMessage operation)))
   else mret tt) ;;
  mret None.

(** The source's record is gone. *)
Definition source_gone (name : string) (operation : MoveOperation) (replacement : option InstanceState) : Svc unit :=
  match replacement with
  | None => finish operation (Some "source and replacement both disappeared")
  | Some r =>
      match state r with
      | ModelLifecycleState.ACTIVE => finish operation None
      | ModelLifecycleState.ERROR =>
          advance operation name MoveOperationPhase.REPLACEMENT_CLEANUP
            (Some (default "replacement became unavailable" (errorMessage r))) ;; mret tt
      | _ => mret tt
      end
  end.

(** Roll back, or insist on going forward: the replacement is gone or broken. *)
Definition rollback (operation : MoveOperation) (source : InstanceState) : Svc unit :=
  if decide (state source ≠ ModelLifecycleState.ACTIVE) then
    throw (OtherError ("replacement became unavailable after source entered " +:+ lifecycle_str (state source)))
  else when (bool_decide (phase operation = MoveOperationPhase.CUTTING_OVER)) (restoreSourceWeight operation source).

Definition replacement_lost (name : string) (operation : MoveOperation) (source : InstanceState)
    (replacement : option InstanceState) : Svc unit :=
  match replacement with
  | None =>
      rollback operation source ;;
      finish operation (Some "replacement disappeared before source drain")
  | Some r =>
      when (bool_decide (state r = ModelLifecycleState.ERROR))
        (rollback operation source ;;
         advance operation name MoveOperationPhase.REPLACEMENT_CLEANUP
           (Some (default "replacement became unavailable" (errorMessage r))) ;; mret tt)
  end.

(** Shift the traffic and begin to drain; [false] is an early [return]. *)
Definition shift_traffic (name : string) (operation : MoveOperation) (source : InstanceState) : Svc bool :=
  match state source with
  | ModelLifecycleState.ACTIVE =>
      match endpoint_address source with
      | None => throw (OtherError "source has no recoverable routing endpoint")
      | Some (host, port) =>
          cutOver ← cutoverEndpointAndWait keyPrefix name host port;
          if negb cutOver then throw (OtherError "source routing endpoint was not found before cutover") else
          leader ← isLeader;
          if negb leader then mret false else
          transition keyPrefix name (sourceInstanceId operation) ModelLifecycleState.DRAINING no_updates ;;
          refreshModelRoutingState keyPrefix name ;;
          mret true
      end
  | ModelLifecycleState.DRAINING => mret true
  | st => throw (OtherError ("source entered " +:+ lifecycle_str st +:+ " during move"))
  end.

Definition phase_cutover (name : string) (operation : MoveOperation) : Svc (option MoveOperation) :=
  if decide (phase operation ≠ MoveOperationPhase.REPLACEMENT_READY ∧ phase operation ≠ MoveOperationPhase.CUTTING_OVER)
  then mret (Some operation) else
  source ← getInstance keyPrefix name (sourceInstanceId operation);
  replacement ← getInstance keyPrefix name (replacementInstanceId operation);
  match source with
  | None => source_gone name operation replacement ;; mret None
  | Some src =>
      if decide (state <$> replacement ≠ Some ModelLifecycleState.ACTIVE) then
        replacement_lost name operation src replacement ;; mret None
      else
        cuttingOver ← advance operation name MoveOperationPhase.CUTTING_OVER None;
        match cuttingOver with
        | None => mret None
        | Some operation' =>
            leader ← isLeader;
            if negb leader then mret None else
            shifted ← shift_traffic name operation' src;
            if (shifted : bool) then advance operation' name MoveOperationPhase.SOURCE_DRAINING None else mret None
        end
  end.

Definition phase_draining (name : string) (operation : MoveOperation) : Svc unit :=
  if decide (phase operation ≠ MoveOperationPhase.SOURCE_DRAINING) then mret tt else
  leader ← isLeader;
  if negb leader then mret tt else
  source ← getInstance keyPrefix name (sourceInstanceId operation);
  gone ← match source with None => mret true | Some s => teardown operation s false end;
  if (gone : bool) then finish operation None else mret tt.

(** A phase that returned early ends the run; otherwise the next one goes on. *)
Definition and_then (m : Svc (option MoveOperation)) (k : MoveOperation → Svc unit) : Svc unit :=
  r ← m; match r with None => mret tt | Some operation => k operation end.

Definition resume_phases (name : string) : Svc unit :=
  stored ← getMoveOperation keyPrefix name;
  match stored with
  | None => mret tt
  | Some operation =>
      leader ← isLeader;
      if negb leader then mret tt else
      and_then (phase_starting name operation) (λ operation,
      and_then (phase_cleanup name operation) (λ operation,
      and_then (phase_cutover name operation) (phase_draining name)))
  end.

(** The record of the move keeps the message of what went wrong, if that can be stored. *)
Definition resume_failed (name : string) (e : Exn) : Svc unit :=
  stored ← attempt (getMoveOperation keyPrefix name) (λ _, mret None);
  match stored with
  | None => mret tt
  | Some operation =>
      swallow (updateMoveOperation keyPrefix name (operationId operation) None (Some (err_message e)) ;; mret tt)
  end.

Definition resume (name : string) : Svc unit :=
  leader ← isLeader;
  running ← gets (λ w, l_running (w_local w));
  if negb leader || bool_decide (name ∈ running) then mret tt else
  modify (set_local (set_running (union {[name]}))) ;;
  finally (attempt (resume_phases name) (resume_failed name))
          (modify (set_local (set_running (λ s, s ∖ {[name]})))).
End service.

(** A phase hands the next one the facts [K] about the operation it returns. *)
Lemma and_then_justified `{!Env} (J : list Event → Event → Prop) (K : MoveOperation → list Event → Prop) F `{!Stable F} o m k :
  (∀ o, Stable (K o)) → preserves (justifies J F) m → (∀ l, F l → K o l) →
  (∀ w o' w', m w = (inr (Some o'), w') → o' = o ∨ K o' (w_trace w')) →
  (∀ F' o', Stable F' → (∀ l, F' l → K o' l) → preserves (justifies J F') (k o')) →
  preserves (justifies J F) (and_then m k).
Proof.
  intros HK Hm HF Hk Hnext. apply (preserves_learn _ _ (λ r l, match r with Some o' => K o' l | None => True end)); [done|..].
  - intros [o'|] w w' _ HFw Hrun; [|done]. destruct (Hk _ _ _ Hrun) as [-> |?]; auto.
  - intros [o'|]; [|solve_preserves]. apply Hnext; [apply _|]. by intros l [_ ?].
Qed.

(** What the pieces of a move do to a relation on worlds, given what they may do to
    the instance they act on. *)
Section pieces.
Context `{!Env, !RedisScan, !JsDate} (keyPrefix : string).
Context (sleepTimeoutMs healthCheckIntervalMs graceMs : Z) (startupLogs notifications : bool).
Context (R : relation World) (ok : Event → Prop) `{!TraceRel R ok, !ServicesRel R}.
Context (Hread : ∀ d, ok (EvRedis d d)) (Hrouting : ∀ op d, ok (EvRedis d (run_routing_op op d))).
Context (Hhealth : ∀ h, ok (EvHealth h)) (Hside : ∀ s, ok (EvSide s)) (Hnotify : ∀ t s, ok (EvNotify t s)).
Context (Hfind : ∀ i r, ok (EvFindRunner i r)) (Hstop : ∀ i r, ok (EvStopRunner i r)).
Context (Hsleep : ok EvSleep) (Hwake : ok EvWake).

Lemma move_refresh_preserves name : preserves R (refreshModelRoutingState keyPrefix name).
Proof. by eapply refresh_preserves. Qed.
Lemma move_addEndpoint_preserves name ep proto : preserves R (addEndpoint name ep proto).
Proof. by eapply addEndpoint_preserves. Qed.
Lemma mark_preserves s : preserves R (mark startupLogs s).
Proof. unfold mark, side_call. solve_preserves. Qed.
Lemma releaseHolds_preserves id : preserves R (releaseHolds id).
Proof. unfold releaseHolds. solve_preserves. Qed.
Lemma within_grace_preserves t : preserves R (within_grace graceMs t).
Proof. unfold within_grace. solve_preserves. Qed.
Lemma isLeader_preserves : preserves R isLeader.
Proof. unfold isLeader. solve_preserves. Qed.
Lemma getWorkerNow_preserves id : preserves R (getWorkerNow id).
Proof. unfold getWorkerNow. solve_preserves. Qed.
Lemma move_getInstance_preserves name id : preserves R (getInstance keyPrefix name id).
Proof. unfold getInstance. solve_preserves. Qed.
Hint Resolve move_refresh_preserves move_addEndpoint_preserves mark_preserves releaseHolds_preserves within_grace_preserves
  isLeader_preserves getWorkerNow_preserves move_getInstance_preserves : preserves.

Lemma restoreSourceWeight_preserves o s : preserves R (restoreSourceWeight o s).
Proof.
  unfold restoreSourceWeight, updateEndpointWeight. destruct (endpoint_address s) as [[h p]|]; [|solve_preserves].
  apply (preserves_bind _ ok); [|solve_preserves]. apply (preserves_bind _ ok); [solve_preserves|]. intros t.
  apply (preserves_redis _ ok). intros d. apply (Hrouting (RWeight _ _ _ _ _)).
Qed.
Lemma cutover_preserves name h p :
  (∀ f d, ok (EvRedis d (set_acks f d))) → preserves R (cutoverEndpointAndWait keyPrefix name h p).
Proof.
  intros Hacks.
  assert (∀ started acked required n, preserves R (count_outstanding started acked required n)).
  { intros started acked required. induction required as [|[q k] l IH]; intros n; simpl; [solve_preserves|].
    case_decide; [done|]. apply (preserves_bind _ ok); [solve_preserves|]. auto. }
  assert (∀ started keys acc, preserves R (required_proxies started keys acc)).
  { intros started keys. induction keys as [|k keys IH]; intros acc; simpl; [solve_preserves|].
    apply (preserves_bind _ ok); [solve_preserves|]. auto. }
  assert (∀ started key required, preserves R (await_barrier started key required)).
  { intros. unfold await_barrier, barrier_round. solve_preserves. }
  unfold cutoverEndpointAndWait. apply (preserves_bind _ ok); [solve_preserves|]. intros t.
  apply (preserves_bind _ ok); [solve_preserves|]. intros bid. apply (preserves_bind _ ok); [|solve_preserves].
  apply (preserves_redis _ ok). intros d. apply (Hrouting (RCutover _ _ _ _ _)).
Qed.
Lemma rollback_preserves o s : preserves R (rollback o s).
Proof. pose proof restoreSourceWeight_preserves. unfold rollback. solve_preserves. Qed.
Lemma stop_worker_runner_preserves s : preserves R (stop_worker_runner s).
Proof. unfold stop_worker_runner. destruct (workerId s) as [wid|], (runnerId s) as [rId|]; solve_preserves. Qed.
End pieces.

(** Pieces that leave the move's record alone preserve whatever tolerates that. *)
Section calm.
Context `{!Env, !RedisScan, !JsDate} (keyPrefix : string).
Context (sleepTimeoutMs healthCheckIntervalMs graceMs : Z) (startupLogs notifications : bool).
Context (R : relation World) (ok : Event → Prop) `{!TraceRel R ok, !ServicesRel R}.
Context (Hcalm : ∀ d d', db_moves d' = db_moves d → ok (EvRedis d d')).
Context (Hother : ∀ e, (∀ d d', e ≠ EvRedis d d') → ok e).

Lemma calm_routing op d : ok (EvRedis d (run_routing_op op d)).
Proof.
  apply Hcalm. destruct op; simpl; unfold remove_endpoint_script, cutover_script, change_endpoint_script; try done;
    destruct (db_routing d !! name); try done; by destruct (change_first _ _ _ _).
Qed.
Hint Resolve calm_routing : preserves.
Hint Extern 1 (ok (EvRedis _ _)) => by apply Hcalm : preserves.
Hint Extern 2 (ok _) => (apply Hother; intros ? ?; discriminate) : preserves.

Lemma calm_transition name id to u : preserves R (transition keyPrefix name id to u).
Proof.
  assert (∀ key at_ d, ok (EvRedis d (transition_script key to u at_ d).2)).
  { intros. apply Hcalm. unfold transition_script. by repeat case_match. }
  unfold transition. solve_preserves.
Qed.
Lemma calm_refresh name : preserves R (refreshModelRoutingState keyPrefix name).
Proof. apply (refresh_preserves _ _ ok); auto with preserves. Qed.
Lemma calm_stopModel name id client : preserves R (stopModel keyPrefix sleepTimeoutMs healthCheckIntervalMs name id client).
Proof. apply (stopModel_preserves _ _ ok); auto using calm_transition with preserves. Qed.
Lemma calm_setRunnerEndpoint name id r h p e : preserves R (setRunnerEndpoint keyPrefix name id r h p e).
Proof. unfold setRunnerEndpoint. solve_preserves. Qed.
Lemma calm_addEndpoint name ep proto : preserves R (addEndpoint name ep proto).
Proof. apply (addEndpoint_preserves _ ok); auto with preserves. Qed.
Lemma calm_mark w : preserves R (mark startupLogs w).
Proof. unfold mark, side_call. solve_preserves. Qed.
Hint Resolve calm_transition calm_refresh calm_stopModel calm_setRunnerEndpoint calm_addEndpoint calm_mark : preserves.

Lemma calm_stop_and_remove o s : preserves R (stop_and_remove keyPrefix sleepTimeoutMs healthCheckIntervalMs o s).
Proof.
  assert (preserves R (stop_worker_runner s)) by (apply (stop_worker_runner_preserves _ ok); auto with preserves).
  unfold stop_and_remove, side_call, releaseHolds, removeInstance. solve_preserves.
Qed.
Lemma calm_teardown_failed o s b : preserves R (teardown_failed keyPrefix o s b).
Proof. unfold teardown_failed, getInstance. solve_preserves. Qed.
Lemma calm_settle o s : preserves R (settle_ambiguous keyPrefix graceMs o s).
Proof. unfold settle_ambiguous, getWorkerNow, within_grace, getInstance. solve_preserves. Qed.
Hint Resolve calm_stop_and_remove calm_teardown_failed calm_settle : preserves.
Lemma calm_teardown o s b : preserves R (teardown keyPrefix sleepTimeoutMs healthCheckIntervalMs graceMs o s b).
Proof. unfold teardown. solve_preserves. Qed.
Lemma calm_recover o s : preserves R (recoverReplacementStart keyPrefix graceMs startupLogs o s).
Proof.
  assert (∀ s, preserves R (give_up_start keyPrefix o s)) by (intros; unfold give_up_start, getInstance; solve_preserves).
  assert (∀ s wid r h p e, preserves R (adopt_runner keyPrefix startupLogs o s wid r h p e)).
  { intros. unfold adopt_runner, getInstance, releaseHolds. solve_preserves. }
  unfold recoverReplacementStart, getWorkerNow, within_grace. solve_preserves.
Qed.
Lemma calm_rollback o s : preserves R (rollback o s).
Proof. apply (rollback_preserves _ ok); auto with preserves. Qed.
Lemma calm_shift name o s : preserves R (shift_traffic keyPrefix name o s).
Proof.
  assert (∀ h p, preserves R (cutoverEndpointAndWait keyPrefix name h p)).
  { intros. apply (cutover_preserves _ _ ok); auto with preserves. }
  unfold shift_traffic, isLeader. destruct (state s); solve_preserves.
Qed.
End calm.

(** A whole run preserves whatever tolerates every command. *)
Section anything.
Context `{!Env, !RedisScan, !JsDate} (keyPrefix : string).
Context (sleepTimeoutMs healthCheckIntervalMs graceMs : Z) (startupLogs notifications : bool).
Context (R : relation World) (ok : Event → Prop) `{!TraceRel R ok, !ServicesRel R} (Hall : ∀ e, ok e).
Notation hcalm := (λ d d' (_ : db_moves d' = db_moves d), Hall (EvRedis d d')).
Notation hother := (λ e (_ : ∀ d d', e ≠ EvRedis d d'), Hall e).

Lemma resume_preserves name :
  preserves R (resume keyPrefix sleepTimeoutMs healthCheckIntervalMs graceMs startupLogs notifications name).
Proof.
  assert (∀ o f, preserves R (finish keyPrefix notifications o f)) by (intros; unfold finish, removeMoveOperation; solve_preserves).
  assert (∀ o n p e, preserves R (advance keyPrefix o n p e)) by (intros; unfold advance, updateMoveOperation; solve_preserves).
  pose proof (calm_teardown keyPrefix sleepTimeoutMs healthCheckIntervalMs graceMs R ok hcalm hother).
  pose proof (calm_recover keyPrefix graceMs startupLogs R ok hcalm hother).
  pose proof (calm_rollback R ok hcalm). pose proof (calm_shift keyPrefix R ok hcalm hother).
  pose proof (calm_mark startupLogs R ok hother).
  assert (∀ n o, preserves R (phase_starting keyPrefix graceMs startupLogs notifications n o)).
  { intros. unfold phase_starting, getInstance. solve_preserves. }
  assert (∀ n o, preserves R (phase_cleanup keyPrefix sleepTimeoutMs healthCheckIntervalMs graceMs notifications n o)).
  { intros. unfold phase_cleanup, getInstance. solve_preserves. }
  assert (∀ n o, preserves R (phase_cutover keyPrefix notifications n o)).
  { intros. unfold phase_cutover, getInstance, source_gone, replacement_lost, isLeader. solve_preserves. }
  assert (∀ n o, preserves R (phase_draining keyPrefix sleepTimeoutMs healthCheckIntervalMs graceMs notifications n o)).
  { intros. unfold phase_draining, getInstance, isLeader. solve_preserves. }
  assert (∀ m k, preserves R m → (∀ o, preserves R (k o)) → preserves R (and_then m k)) as Hthen.
  { intros m k Hm Hk. unfold and_then. apply (preserves_bind _ ok); [done|]. intros [o|]; [done|]. apply (preserves_ret _ ok). }
  assert (preserves R (resume_phases keyPrefix sleepTimeoutMs healthCheckIntervalMs graceMs startupLogs notifications name)).
  { unfold resume_phases, getMoveOperation. apply (preserves_bind _ ok); [solve_preserves|]. intros [o|]; [|apply (preserves_ret _ ok)].
    apply (preserves_bind _ ok); [unfold isLeader; solve_preserves|]. intros []; simpl; [auto 8|apply (preserves_ret _ ok)]. }
  assert (∀ e, preserves R (resume_failed keyPrefix name e)).
  { intros. unfold resume_failed, getMoveOperation, updateMoveOperation. solve_preserves. }
  unfold resume, isLeader. solve_preserves.
Qed.
End anything.

(** ** [resume] always returns *)
Section termination.
Context `{!Env, !RedisScan, !JsDate} (keyPrefix : string).
Context (sleepTimeoutMs healthCheckIntervalMs graceMs : Z) (startupLogs notifications : bool).
Context (Hinterval : (0 < healthCheckIntervalMs)%Z).

Lemma move_refresh_total name : total (refreshModelRoutingState keyPrefix name).
Proof. exact (refresh_total keyPrefix name). Qed.
Lemma stopModel_total name id client : total (stopModel keyPrefix sleepTimeoutMs healthCheckIntervalMs name id client).
Proof. exact (run_call_total keyPrefix sleepTimeoutMs 0 healthCheckIntervalMs (CStop client) name id Hinterval). Qed.
Lemma mark_total s : total (mark startupLogs s).
Proof. unfold mark, side_call. solve_total. Qed.
Lemma move_updates_total o name p err : total (advance keyPrefix o name p err).
Proof. unfold advance, updateMoveOperation. solve_total. Qed.
Lemma finish_total o f : total (finish keyPrefix notifications o f).
Proof. unfold finish, removeMoveOperation. solve_total. Qed.
Hint Resolve move_refresh_total stopModel_total mark_total move_updates_total finish_total : total.

Lemma required_proxies_total started keys acc : total (required_proxies started keys acc).
Proof. revert acc. induction keys as [|k keys IH]; intros acc; simpl; [solve_total|]. apply total_bind; [solve_total|]. auto. Qed.
Lemma cutover_total name h p : total (cutoverEndpointAndWait keyPrefix name h p).
Proof. pose proof required_proxies_total. pose proof await_barrier_total. unfold cutoverEndpointAndWait. solve_total. Qed.
Hint Resolve cutover_total : total.

Lemma setRunnerEndpoint_total name id r h p e : total (setRunnerEndpoint keyPrefix name id r h p e).
Proof. unfold setRunnerEndpoint. solve_total. Qed.
Lemma addEndpoint_total name ep proto : total (addEndpoint name ep proto).
Proof. unfold addEndpoint. solve_total. Qed.
Hint Resolve setRunnerEndpoint_total addEndpoint_total : total.
Lemma give_up_start_total o s : total (give_up_start keyPrefix o s).
Proof. unfold give_up_start. solve_total. Qed.
Lemma adopt_runner_total o s wid r h p ep : total (adopt_runner keyPrefix startupLogs o s wid r h p ep).
Proof. unfold adopt_runner, releaseHolds. apply total_bind; [case_decide; solve_total|]. solve_total. Qed.
Hint Resolve give_up_start_total adopt_runner_total : total.
Lemma recover_total o s : total (recoverReplacementStart keyPrefix graceMs startupLogs o s).
Proof.
  unfold recoverReplacementStart, getWorkerNow, within_grace. apply total_bind; [solve_total|]. intros [wk|]; [|solve_total].
  apply total_bind; [solve_total|]. intros [| |]; solve_total.
Qed.
Lemma teardown_failed_total o s b : total (teardown_failed keyPrefix o s b).
Proof. unfold teardown_failed. solve_total. Qed.
Lemma stop_and_remove_total o s : total (stop_and_remove keyPrefix sleepTimeoutMs healthCheckIntervalMs o s).
Proof.
  unfold stop_and_remove, stop_worker_runner, getWorkerNow, removeInstance, side_call, releaseHolds.
  apply total_bind; [solve_total|]. intros _. apply total_bind; [|solve_total].
  destruct (workerId s) as [wid|], (runnerId s) as [rId|]; solve_total.
Qed.
Hint Resolve recover_total teardown_failed_total stop_and_remove_total : total.
Lemma teardown_total o s b : total (teardown keyPrefix sleepTimeoutMs healthCheckIntervalMs graceMs o s b).
Proof. unfold teardown, settle_ambiguous, getWorkerNow, within_grace, setRunnerEndpoint. solve_total. Qed.
Hint Resolve teardown_total : total.

Lemma phase_starting_total name o : total (phase_starting keyPrefix graceMs startupLogs notifications name o).
Proof. unfold phase_starting. solve_total. Qed.
Lemma phase_cleanup_total name o :
  total (phase_cleanup keyPrefix sleepTimeoutMs healthCheckIntervalMs graceMs notifications name o).
Proof. unfold phase_cleanup. solve_total. Qed.
Lemma rollback_total o s : total (rollback o s).
Proof. unfold rollback, restoreSourceWeight, updateEndpointWeight. solve_total. Qed.
Hint Resolve rollback_total : total.
Lemma source_gone_total name o r : total (source_gone keyPrefix notifications name o r).
Proof. unfold source_gone. solve_total. Qed.
Lemma replacement_lost_total name o s r : total (replacement_lost keyPrefix notifications name o s r).
Proof. unfold replacement_lost. solve_total. Qed.
Lemma shift_traffic_total name o s : total (shift_traffic keyPrefix name o s).
Proof. unfold shift_traffic, isLeader. destruct (state s); try solve_total. Qed.
Hint Resolve source_gone_total replacement_lost_total shift_traffic_total : total.
Lemma phase_cutover_total name o : total (phase_cutover keyPrefix notifications name o).
Proof. unfold phase_cutover, isLeader. solve_total. Qed.
Lemma phase_draining_total name o :
  total (phase_draining keyPrefix sleepTimeoutMs healthCheckIntervalMs graceMs notifications name o).
Proof. unfold phase_draining, isLeader. solve_total. Qed.
Hint Resolve phase_starting_total phase_cleanup_total phase_cutover_total phase_draining_total : total.

Lemma resume_phases_total name :
  total (resume_phases keyPrefix sleepTimeoutMs healthCheckIntervalMs graceMs startupLogs notifications name).
Proof. unfold resume_phases, and_then, isLeader, getMoveOperation. solve_total. Qed.

Lemma resume_failed_returns name e : returns (resume_failed keyPrefix name e).
Proof.
  unfold resume_failed. apply returns_bind.
  - apply returns_attempt; [unfold getMoveOperation; solve_total|]. intros _. apply returns_ret.
  - intros [o|]; [|apply returns_ret]. apply returns_swallow. unfold updateMoveOperation. solve_total.
Qed.

Lemma resume_ends name : returns (resume keyPrefix sleepTimeoutMs healthCheckIntervalMs graceMs startupLogs notifications name).
Proof.
  intros w. unfold resume, mbind, M_bind, isLeader, gets. destruct (_ || _); [by exists tt|].
  destruct (returns_attempt _ _ (resume_phases_total name) (resume_failed_returns name) (set_local (set_running (union {[name]})) w)) as [[] Hu].
  exists tt. unfold modify, finally. cbn beta iota. destruct (attempt _ _ _) as [r w']. simpl in Hu. by subst r.
Qed.

(** C31: a step of a move always ends, and cleanly.  With a positive health-check
    interval, [resume] returns normally after finitely many steps whatever Redis, the
    workers, the runners, leadership and other requests do (an error inside it is kept
    for the next attempt), and afterwards the model is no longer marked as running, so
    the next attempt is not shut out; when this process is not the leader, or is
    already running the move, it does nothing at all. *)
Theorem resume_returns name w :
  let '(r, w') := resume keyPrefix sleepTimeoutMs healthCheckIntervalMs graceMs startupLogs notifications name w in
  r = inr tt ∧
  (if env_leader (w_step w) && negb (bool_decide (name ∈ l_running (w_local w)))
   then name ∉ l_running (w_local w') else w' = w).
Proof.
  unfold resume, mbind, M_bind, isLeader, gets.
  destruct (env_leader (w_step w)), (bool_decide (name ∈ l_running (w_local w))); simpl; try done.
  unfold finally. pose proof (returns_attempt
    (resume_phases keyPrefix sleepTimeoutMs healthCheckIntervalMs graceMs startupLogs notifications name)
    (resume_failed keyPrefix name) (resume_phases_total name) (resume_failed_returns name)) as Hret.
  destruct (Hret (set_local (set_running (union {[name]})) w)) as [[] Hu].
  destruct (attempt _ _ _) as [r w']; simpl in *; subst r. split; [done|]. set_solver.
Qed.
End termination.

(** ** What a move may touch *)
Section footprint.
Context `{!Env, !RedisScan, !JsDate} (keyPrefix : string).
Context (sleepTimeoutMs healthCheckIntervalMs graceMs : Z) (startupLogs notifications : bool).
Context (name : string).
Notation keyOf := (instanceStateKey keyPrefix).

(** The move record was seen, or written, as [o]. *)
Definition seen_move (l : list Event) (o : MoveOperation) : Prop :=
  ∃ d d', EvRedis d d' ∈ l ∧ db_moves d' !! moveKey keyPrefix name = Some o.
(** The records met so far are stored under their own names. *)
Definition wf_trace (l : list Event) : Prop :=
  ∀ d d', EvRedis d d' ∈ l → instances_wf keyPrefix d ∧ ∀ o, db_moves d !! moveKey keyPrefix name = Some o → mv_modelName o = name.

(** The instance [id] may be changed, or ([dead]) deleted, by a move in the phase of [o]. *)
Definition may_act (dead : bool) (o : MoveOperation) (id : string) : Prop :=
  (id = sourceInstanceId o ∧
     (phase o = MoveOperationPhase.SOURCE_DRAINING ∨ dead = false ∧ phase o = MoveOperationPhase.CUTTING_OVER)) ∨
  (id = replacementInstanceId o ∧
     (phase o = MoveOperationPhase.REPLACEMENT_CLEANUP ∨ dead = false ∧ phase o = MoveOperationPhase.REPLACEMENT_STARTING)).

(** A command that changes an instance's record is covered by the phase of the move as seen before it. *)
Definition footprint (l : list Event) (e : Event) : Prop :=
  match e with
  | EvRedis d d' => ∀ k, db_instances d' !! k ≠ db_instances d !! k → wf_trace l →
      ∃ o id, seen_move l o ∧ k = keyOf name id ∧ may_act (bool_decide (db_instances d' !! k = None)) o id
  | _ => True
  end.

(** *** Facts about the past *)
Definition known (o : MoveOperation) (l : list Event) : Prop := wf_trace l → seen_move l o ∧ mv_modelName o = name.
Definition named (id : string) (s : InstanceState) (l : list Event) : Prop := wf_trace l → instanceId s = id.
Definition acts (dead : bool) (o : MoveOperation) (id : string) (l : list Event) : Prop :=
  wf_trace l → seen_move l o ∧ mv_modelName o = name ∧ may_act dead o id.

Lemma wf_trace_app l l' : wf_trace (l ++ l') → wf_trace l.
Proof. intros Hwf d d' Hin. apply (Hwf d d'). set_solver. Qed.
Lemma seen_move_app l l' o : seen_move l o → seen_move (l ++ l') o.
Proof. intros (d & d' & Hin & Ho). exists d, d'. split; [set_solver|done]. Qed.
#[local] Instance known_stable o : Stable (known o).
Proof. intros l l' Hk Hwf. destruct Hk as [Hs ?]; [by eapply wf_trace_app|]. split; [by apply seen_move_app|done]. Qed.
#[local] Instance named_stable id s : Stable (named id s).
Proof. intros l l' Hk Hwf. apply Hk. by eapply wf_trace_app. Qed.
#[local] Instance acts_stable dead o id : Stable (acts dead o id).
Proof. intros l l' Hk Hwf. destruct Hk as (Hs & ? & ?); [by eapply wf_trace_app|]. by auto using seen_move_app. Qed.

Lemma acts_dead_live o id l : acts true o id l → acts false o id l.
Proof. intros Ha Hwf. destruct (Ha Hwf) as (? & ? & Hm). unfold may_act in *. naive_solver. Qed.

Lemma footprint_calm l d d' : db_instances d' = db_instances d → footprint l (EvRedis d d').
Proof. intros Heq k Hk. by rewrite Heq in Hk. Qed.
Lemma footprint_routing l op d : footprint l (EvRedis d (run_routing_op op d)).
Proof. apply footprint_calm, run_routing_op_instances. Qed.
Lemma footprint_acts dead model o id l d d' :
  acts dead o id l → (wf_trace l → model = name) →
  (∀ k, k ≠ keyOf model id → db_instances d' !! k = db_instances d !! k) →
  (dead = true ∨ (db_instances d' !! keyOf model id = None → db_instances d !! keyOf model id = None)) →
  footprint l (EvRedis d d').
Proof.
  intros Ha Hmod Hk Hd k Hne Hwf. destruct (Ha Hwf) as (Hs & _ & Hm). rewrite <- (Hmod Hwf). exists o, id. split; [done|].
  destruct (decide (k = keyOf model id)) as [-> |]; [|by destruct Hne; auto]. split; [done|].
  case_bool_decide as Hn; [|unfold may_act in *; naive_solver].
  destruct Hd as [-> |Hd]; [done|]. destruct Hne. by rewrite Hn, Hd.
Qed.

(** *** The pieces *)
Lemma covered_calm F d d' : db_instances d' = db_instances d → covered footprint F (EvRedis d d').
Proof. intros Heq l _. by apply footprint_calm. Qed.
Lemma covered_read F d : covered footprint F (EvRedis d d).
Proof. by apply covered_calm. Qed.
Lemma covered_routing F op d : covered footprint F (EvRedis d (run_routing_op op d)).
Proof. apply covered_calm, run_routing_op_instances. Qed.
Hint Resolve covered_read covered_routing : preserves.
Hint Extern 1 (covered footprint _ _) => (intros ? ?; exact I) : preserves.

Section at_instance.
Context (F : list Event → Prop) `{!Stable F} (o : MoveOperation) (id : string) (HF : ∀ l, F l → acts false o id l).
Notation jr := (justifies footprint F).
Notation model := (mv_modelName o).

Notation ok := (covered footprint F).

Lemma acts_model l : F l → wf_trace l → model = name.
Proof. intros Hl Hwf. by destruct (HF l Hl Hwf) as (_ & ? & _). Qed.

Lemma transition_footprint_at m to u :
  (∀ l, F l → wf_trace l → m = name) → preserves jr (transition keyPrefix m id to u).
Proof.
  intros Hm. assert (∀ at_ d, ok (EvRedis d (transition_script (keyOf m id) to u at_ d).2)) as Hs; [|unfold transition; solve_preserves].
  intros at_ d l Hl. destruct (transition_script_guarantee (keyOf m id) to u at_ d) as [He Hk].
  eapply footprint_acts; [by apply HF|by apply Hm|done|]. right. intros Hn.
  destruct He as [He|(s & s' & _ & Hs' & _)]; congruence.
Qed.
Lemma transition_footprint to u : preserves jr (transition keyPrefix model id to u).
Proof. apply transition_footprint_at. apply acts_model. Qed.

Lemma setRunnerEndpoint_footprint r h p e : preserves jr (setRunnerEndpoint keyPrefix model id r h p e).
Proof.
  assert (∀ s d, ok (EvRedis d (set_instances <[keyOf model id := s]> d))) as Hs.
  { intros s d l Hl. eapply footprint_acts; [by apply HF|by apply acts_model|..]; simpl; [intros k Hk; by rewrite lookup_insert_ne|].
    rewrite lookup_insert_eq. by right. }
  unfold setRunnerEndpoint. solve_preserves.
Qed.

Lemma stopModel_footprint client :
  preserves jr (stopModel keyPrefix sleepTimeoutMs healthCheckIntervalMs model id client).
Proof. apply (stopModel_preserves _ _ ok); auto using transition_footprint with preserves. Qed.

Lemma refresh_footprint : preserves jr (refreshModelRoutingState keyPrefix model).
Proof. apply (refresh_preserves _ _ ok); auto with preserves. Qed.
End at_instance.

Section deaths.
Context (F : list Event → Prop) `{!Stable F} (o : MoveOperation) (id : string) (HF : ∀ l, F l → acts true o id l).
Notation jr := (justifies footprint F).
Notation ok := (covered footprint F).
Lemma removeInstance_footprint : preserves jr (removeInstance keyPrefix (mv_modelName o) id).
Proof.
  unfold removeInstance. apply (preserves_redis _ ok). intros d l Hl.
  eapply (footprint_acts true); [by apply HF| | |by left]; [intros Hwf; by destruct (HF l Hl Hwf) as (_ & ? & _)|].
  intros k Hk. simpl. by rewrite lookup_delete_ne.
Qed.
End deaths.

Section teardown.
Context (F : list Event → Prop) `{!Stable F} (o : MoveOperation) (s : InstanceState).
Context (HF : ∀ l, F l → acts true o (instanceId s) l).
Notation jr := (justifies footprint F).
Notation ok := (covered footprint F).

Lemma stop_and_remove_footprint : preserves jr (stop_and_remove keyPrefix sleepTimeoutMs healthCheckIntervalMs o s).
Proof.
  assert (∀ l, F l → acts false o (instanceId s) l) as HF' by eauto using acts_dead_live.
  pose proof (stopModel_footprint F o (instanceId s) HF'). pose proof (removeInstance_footprint F o (instanceId s) HF).
  assert (preserves jr (stop_worker_runner s)) by (apply (stop_worker_runner_preserves _ ok); auto with preserves).
  unfold stop_and_remove, side_call, releaseHolds.
  solve_preserves.
Qed.

Lemma teardown_failed_footprint b : preserves jr (teardown_failed keyPrefix o s b).
Proof.
  assert (∀ l, F l → acts false o (instanceId s) l) as HF' by eauto using acts_dead_live.
  pose proof (transition_footprint F o (instanceId s) HF'). pose proof (refresh_footprint F o).
  unfold teardown_failed, getInstance. solve_preserves.
Qed.

Lemma settle_ambiguous_footprint : preserves jr (settle_ambiguous keyPrefix graceMs o s).
Proof.
  assert (∀ l, F l → acts false o (instanceId s) l) as HF' by eauto using acts_dead_live.
  pose proof (setRunnerEndpoint_footprint F o (instanceId s) HF').
  unfold settle_ambiguous, getWorkerNow, within_grace, getInstance. solve_preserves.
Qed.
End teardown.

(** *** Learning from replies *)
Context (Hname : MODEL_NAME_PATTERN name = true).

Lemma read_named model id w s w' :
  getInstance keyPrefix model id w = (inr (Some s), w') → (wf_trace (w_trace w') → model = name) → named id s (w_trace w').
Proof.
  unfold getInstance. intros [Hs ->]%redis_returned Hm Hwf. specialize (Hm Hwf). subst model. cbn [fst] in Hs.
  destruct (Hwf (w_db (tick w)) (w_db (tick w))) as [Hi _]; [simpl; set_solver|].
  destruct (Hi _ _ (eq_sym Hs)) as [Hk Hp].
  destruct (instanceStateKey_inj keyPrefix name id (modelName s) (instanceId s)) as [_ ->]; auto using valid_name_no_colon.
Qed.

Lemma settle_ambiguous_named o s w inst w' :
  settle_ambiguous keyPrefix graceMs o s w = (inr (Some (Some inst)), w') →
  (wf_trace (w_trace w') → mv_modelName o = name) → named (instanceId s) inst (w_trace w').
Proof.
  unfold settle_ambiguous. intros Hrun Hm. destruct (runnerStartAmbiguous s && _); [|by injection Hrun as ->].
  destruct (negb _); [done|]. apply bind_returned in Hrun as ([wk|] & w1 & _ & Hrun); [|done].
  apply bind_returned in Hrun as ([| |r h p e] & w2 & _ & Hrun); [|done|].
  - apply bind_returned in Hrun as ([] & w3 & _ & Hrun); [done|]. by injection Hrun as ->.
  - apply bind_returned in Hrun as ([] & w3 & _ & Hrun). apply bind_returned in Hrun as (r' & w4 & Hget & [= -> ->]).
    by eapply read_named.
Qed.

Lemma teardown_footprint F `{!Stable F} o s b :
  (∀ l, F l → acts true o (instanceId s) l) →
  preserves (justifies footprint F) (teardown keyPrefix sleepTimeoutMs healthCheckIntervalMs graceMs o s b).
Proof.
  intros HF. pose proof (settle_ambiguous_footprint F o s HF). pose proof (teardown_failed_footprint F o s HF).
  unfold teardown.
  apply (preserves_learn _ _ (λ settled l, ∀ inst, settled = inr (Some (Some inst)) → named (instanceId s) inst l)).
  - solve_preserves.
  - intros settled w w' _ HFw' [Hrun|(e & w1 & _ & Hrun)]%catch_returned inst ->.
    + apply bind_returned in Hrun as (r & w1 & Hrun & [= -> ->]).
      apply (settle_ambiguous_named o s w); [done|]. intros Hwf. by destruct (HF _ HFw' Hwf) as (_ & ? & _).
    + case_decide; [done|]. by apply bind_returned in Hrun as (b' & w2 & _ & [=]).
  - intros settled. assert (Stable (λ l, F l ∧ ∀ inst, settled = inr (Some (Some inst)) → named (instanceId s) inst l)) as HS.
    { intros l l' [HFl Hn]. split; [by apply stable|]. intros inst Hi. apply stable; eauto. }
    destruct settled as [b'|[[inst|]|]]; [solve_preserves| |solve_preserves..].
    set (F2 := λ l, F l ∧ _). assert (∀ l, F2 l → acts true o (instanceId inst) l) as HF2.
    { intros l [HFl Hn] Hwf. rewrite (Hn inst eq_refl Hwf). by apply HF. }
    pose proof (stop_and_remove_footprint F2 o inst HF2). pose proof (teardown_failed_footprint F2 o inst HF2). solve_preserves.
Qed.

Lemma transition_named model id to u w s w' :
  transition keyPrefix model id to u w = (inr s, w') → (wf_trace (w_trace w') → model = name) → named id s (w_trace w').
Proof.
  intros [Hrun|(e & w1 & _ & Hrun)]%catch_returned Hm Hwf; [|by case_match]. specialize (Hm Hwf). subst model.
  apply bind_returned in Hrun as (t & w1 & [= _ <-] & Hrun).
  apply bind_returned in Hrun as (r & w2 & [Hr ->]%redis_returned & Hrun).
  unfold transition_script in Hr. destruct (db_instances (w_db (tick w)) !! _) as [s0|] eqn:Hs0; [|by subst r].
  destruct (isValidTransition _ _); [|by subst r]. subst r. injection Hrun as <- <-.
  destruct (Hwf (w_db (tick w)) (transition_script (keyOf name id) to u (toISOString t) (w_db (tick w))).2) as [Hi _]; [simpl; set_solver|].
  destruct (Hi _ _ Hs0) as [Hk Hp].
  destruct (instanceStateKey_inj keyPrefix name id (modelName s0) (instanceId s0)) as [_ Hid]; auto using valid_name_no_colon.
Qed.

Section starting.
Context (F : list Event → Prop) `{!Stable F} (o : MoveOperation).
Notation jr F := (justifies footprint F).

Lemma give_up_start_footprint s :
  (∀ l, F l → acts false o (instanceId s) l) → preserves (jr F) (give_up_start keyPrefix o s).
Proof.
  intros HF. pose proof (transition_footprint F o (instanceId s) HF). unfold give_up_start, getInstance. solve_preserves.
Qed.

(** The rest of the adoption, once the record is not PENDING any more. *)
Lemma adopted_footprint {A} s r h p e u (k : InstanceState → Svc A) :
  (∀ l, F l → acts false o (instanceId s) l) → (∀ active, preserves (jr F) (k active)) →
  preserves (jr F)
    (setRunnerEndpoint keyPrefix (mv_modelName o) (instanceId s) r h p e ;;
     addEndpoint (mv_modelName o) (mkEndpoint h (default p e) 1 true (Some r)) (Some (default Protocol.openai (protocol s))) ;;
     active ← attempt (transition keyPrefix (mv_modelName o) (instanceId s) ModelLifecycleState.ACTIVE u)
       (λ ex, current ← getInstance keyPrefix (mv_modelName o) (instanceId s);
              match current with
              | Some c => if decide (state c = ModelLifecycleState.ACTIVE) then mret c else throw ex
              | None => throw ex
              end);
     k active).
Proof.
  intros HF Hk. pose proof (transition_footprint F o (instanceId s) HF). pose proof (setRunnerEndpoint_footprint F o (instanceId s) HF).
  assert (∀ ep proto, preserves (jr F) (addEndpoint (mv_modelName o) ep proto)).
  { intros. apply (addEndpoint_preserves _ (covered footprint F)); auto with preserves. }
  unfold getInstance. solve_preserves.
Qed.
End starting.

Lemma adopt_runner_footprint F `{!Stable F} o s wid r h p e :
  (∀ l, F l → acts false o (instanceId s) l) →
  preserves (justifies footprint F) (adopt_runner keyPrefix startupLogs o s wid r h p e).
Proof.
  intros HF. unfold adopt_runner.
  apply (preserves_learn _ _ (λ s', named (instanceId s) s')).
  - pose proof (transition_footprint F o (instanceId s) HF). case_decide; solve_preserves.
  - intros s' w w' _ HFw' Hrun. case_decide; [|injection Hrun as <- <-; by intros ?].
    eapply transition_named; [exact Hrun|]. intros Hwf. by destruct (HF _ HFw' Hwf) as (_ & ? & _).
  - intros s'. set (F2 := λ l, F l ∧ _). assert (∀ l, F2 l → acts false o (instanceId s') l) as HF2.
    { intros l [HFl Hn] Hwf. rewrite (Hn Hwf). by apply HF. }
    apply (adopted_footprint F2 o s' r h p (Some e)); [done|]. intros active.
    pose proof (refresh_footprint F2 o). unfold releaseHolds, mark, side_call. solve_preserves.
Qed.

Lemma recover_footprint F `{!Stable F} o s :
  (∀ l, F l → acts false o (instanceId s) l) →
  preserves (justifies footprint F) (recoverReplacementStart keyPrefix graceMs startupLogs o s).
Proof.
  intros HF. pose proof (give_up_start_footprint F o s HF).
  assert (∀ wid r h p e, preserves (justifies footprint F) (adopt_runner keyPrefix startupLogs o s wid r h p e)) by (intros; by apply adopt_runner_footprint).
  unfold recoverReplacementStart, getWorkerNow, within_grace. solve_preserves.
Qed.

(** *** The phases *)
Lemma logged e w : e ∈ w_trace (log_event e w).
Proof. simpl. rewrite elem_of_app, list_elem_of_singleton. by right. Qed.

Section phases.
Context (F : list Event → Prop) `{!Stable F} (o : MoveOperation) (HF : ∀ l, F l → known o l).
Notation jr := (justifies footprint F).
Notation ok := (covered footprint F).

Lemma advance_footprint p err : preserves jr (advance keyPrefix o name p err).
Proof.
  unfold advance, updateMoveOperation. apply (preserves_bind _ ok); [solve_preserves|]. intros t.
  apply (preserves_redis _ ok). intros d. apply covered_calm. unfold update_move_script. by repeat case_match.
Qed.
Lemma finish_footprint f : preserves jr (finish keyPrefix notifications o f).
Proof.
  unfold finish, removeMoveOperation. apply (preserves_bind _ ok).
  - apply (preserves_redis _ ok). intros d. apply covered_calm. unfold remove_move_script. by repeat case_match.
  - intros b. apply (preserves_when _ ok). destruct f; solve_preserves.
Qed.

(** Reading one of the move's instances. *)
Lemma with_instance_footprint {A} id (k : option InstanceState → Svc A) :
  preserves jr (k None) →
  (∀ s, preserves (justifies footprint (λ l, F l ∧ named id s l)) (k (Some s))) →
  preserves jr (getInstance keyPrefix name id ≫= k).
Proof.
  intros Hn Hs. apply (preserves_learn _ _ (λ r l, match r with Some s => named id s l | None => True end)).
  - unfold getInstance. solve_preserves.
  - intros [s|] w w' _ _ Hrun; [by eapply read_named|done].
  - intros [s|]; [apply Hs|]. intros w [HFw _] HJ. by destruct (Hn w HFw HJ).
Qed.

End phases.

Lemma advance_known o p err w o' w' :
  advance keyPrefix o name p err w = (inr (Some o'), w') →
  seen_move (w_trace w') o' ∧ known o' (w_trace w') ∧ phase o' = p ∧ operationId o' = operationId o.
Proof.
  intros (t & w1 & [= _ <-] & [Hr ->]%redis_returned)%bind_returned.
  unfold update_move_script in *. set (d := w_db (tick w)) in *.
  destruct (db_moves d !! moveKey keyPrefix name) as [o0|] eqn:Ho; [|done].
  destruct (decide (operationId o0 ≠ operationId o)) as [|Hid]; [done|]. destruct (_ && _); [done|]. cbn [fst snd] in *.
  injection Hr as ->. set (w' := log_event _ _). assert (seen_move (w_trace w') (apply_move_update (Some p) err (toISOString t) o0)) as Hs.
  { eexists _, _. split; [apply logged|]. simpl. by rewrite lookup_insert_eq. }
  split; [done|]. split; [|split; [done|by destruct (decide (operationId o0 = operationId o))]].
  intros Hwf. split; [done|]. edestruct Hwf as [_ Hm]; [apply logged|]. by apply (Hm o0).
Qed.

Lemma phase_starting_footprint F `{!Stable F} o :
  (∀ l, F l → known o l) →
  preserves (justifies footprint F) (phase_starting keyPrefix graceMs startupLogs notifications name o).
Proof.
  intros HF. unfold phase_starting. case_decide as Hp; [solve_preserves|].
  pose proof (finish_footprint F o). apply with_instance_footprint; [done|solve_preserves|]. intros r0.
  set (F2 := λ l, F l ∧ _). assert (∀ l, F2 l → acts false o (instanceId r0) l) as HF2.
  { intros l [HFl Hn] Hwf. destruct (HF l HFl Hwf). rewrite (Hn Hwf). split_and!; [done..|]. right. by auto. }
  pose proof (recover_footprint F2 o r0 HF2). pose proof (advance_footprint F2 o).
  unfold mark, side_call. solve_preserves.
Qed.

Lemma phase_starting_known o w o' w' :
  phase_starting keyPrefix graceMs startupLogs notifications name o w = (inr (Some o'), w') →
  o' = o ∨ seen_move (w_trace w') o' ∧ known o' (w_trace w').
Proof.
  unfold phase_starting. case_decide; [intros [= -> _]; by left|]. intros Hrun. right.
  apply bind_returned in Hrun as ([r0|] & w1 & _ & Hrun); [|by apply bind_returned in Hrun as (? & ? & _ & ?)].
  apply bind_returned in Hrun as ([r|] & w2 & _ & Hrun); [|done].
  destruct (state r); try done; apply bind_returned in Hrun as ([] & w3 & _ & Hrun); by apply advance_known in Hrun as (? & ? & _).
Qed.

Lemma phase_cleanup_footprint F `{!Stable F} o :
  (∀ l, F l → known o l) →
  preserves (justifies footprint F) (phase_cleanup keyPrefix sleepTimeoutMs healthCheckIntervalMs graceMs notifications name o).
Proof.
  intros HF. unfold phase_cleanup. case_decide as Hp; [solve_preserves|].
  pose proof (finish_footprint F o). apply with_instance_footprint; [done|solve_preserves|]. intros r.
  set (F2 := λ l, F l ∧ _). assert (∀ l, F2 l → acts true o (instanceId r) l) as HF2.
  { intros l [HFl Hn] Hwf. destruct (HF l HFl Hwf). rewrite (Hn Hwf). split_and!; [done..|]. right. by auto. }
  pose proof (λ b, teardown_footprint F2 o r b HF2). pose proof (finish_footprint F2 o). solve_preserves.
Qed.

Lemma phase_cleanup_same o w o' w' :
  phase_cleanup keyPrefix sleepTimeoutMs healthCheckIntervalMs graceMs notifications name o w = (inr (Some o'), w') → o' = o.
Proof.
  unfold phase_cleanup. case_decide; [by intros [= ->]|]. intros (r & w1 & _ & Hrun)%bind_returned.
  apply bind_returned in Hrun as (b & w2 & _ & Hrun). by apply bind_returned in Hrun as (u & w3 & _ & Hrun).
Qed.

Lemma phase_draining_footprint F `{!Stable F} o :
  (∀ l, F l → known o l) →
  preserves (justifies footprint F) (phase_draining keyPrefix sleepTimeoutMs healthCheckIntervalMs graceMs notifications name o).
Proof.
  intros HF. unfold phase_draining, isLeader. case_decide as Hp; [solve_preserves|].
  pose proof (finish_footprint F o). apply (preserves_bind _ (covered footprint F)); [solve_preserves|].
  intros []; simpl; [|solve_preserves]. apply with_instance_footprint; [done|solve_preserves|]. intros s.
  set (F2 := λ l, F l ∧ _). assert (∀ l, F2 l → acts true o (instanceId s) l) as HF2.
  { intros l [HFl Hn] Hwf. destruct (HF l HFl Hwf). rewrite (Hn Hwf). split_and!; [done..|]. left. by auto. }
  pose proof (λ b, teardown_footprint F2 o s b HF2). pose proof (finish_footprint F2 o). solve_preserves.
Qed.

Lemma shift_traffic_footprint F `{!Stable F} o s :
  (∀ l, F l → known o l) → phase o = MoveOperationPhase.CUTTING_OVER →
  preserves (justifies footprint F) (shift_traffic keyPrefix name o s).
Proof.
  intros HF Hp. assert (∀ l, F l → acts false o (sourceInstanceId o) l) as HF2.
  { intros l HFl Hwf. destruct (HF l HFl Hwf). split_and!; [done..|]. left. by auto. }
  assert (∀ to u, preserves (justifies footprint F) (transition keyPrefix name (sourceInstanceId o) to u)).
  { intros. by eapply transition_footprint_at. }
  assert (preserves (justifies footprint F) (refreshModelRoutingState keyPrefix name)).
  { apply (refresh_preserves _ _ (covered footprint F)); auto with preserves. }
  assert (∀ h p, preserves (justifies footprint F) (cutoverEndpointAndWait keyPrefix name h p)).
  { intros. apply (cutover_preserves _ _ (covered footprint F)); auto with preserves. intros. by apply covered_calm. }
  unfold shift_traffic, isLeader. destruct (state s); solve_preserves.
Qed.

Lemma phase_cutover_footprint F `{!Stable F} o :
  (∀ l, F l → known o l) → preserves (justifies footprint F) (phase_cutover keyPrefix notifications name o).
Proof.
  intros HF. pose proof (advance_footprint F o). pose proof (finish_footprint F o).
  assert (∀ s, preserves (justifies footprint F) (rollback o s)).
  { intros. apply (rollback_preserves _ (covered footprint F)); auto with preserves. }
  unfold phase_cutover. case_decide as Hp; [solve_preserves|].
  apply (preserves_bind _ (covered footprint F)); [unfold getInstance; solve_preserves|]. intros src.
  apply (preserves_bind _ (covered footprint F)); [unfold getInstance; solve_preserves|]. intros r.
  destruct src as [src|]; [|unfold source_gone; solve_preserves].
  case_decide; [unfold replacement_lost; solve_preserves|].
  apply (preserves_learn _ _ (λ r l, match r with Some o' => known o' l ∧ phase o' = MoveOperationPhase.CUTTING_OVER | None => True end)).
  - done.
  - intros [o'|] w w' _ _ Hrun; [by apply advance_known in Hrun as (_ & ? & ? & _)|done].
  - intros [o'|]; [|solve_preserves]. set (F2 := λ l, F l ∧ _).
    assert (∀ l, F2 l → known o' l) as HF2 by (by intros l (_ & ? & _)).
    destruct (decide (phase o' = MoveOperationPhase.CUTTING_OVER)) as [Hp'|]; [|by intros w (_ & _ & ?)].
    pose proof (shift_traffic_footprint F2 o' src HF2 Hp'). pose proof (advance_footprint F2 o').
    unfold isLeader. solve_preserves.
Qed.

Lemma phase_cutover_known o w o' w' :
  phase_cutover keyPrefix notifications name o w = (inr (Some o'), w') →
  o' = o ∨ seen_move (w_trace w') o' ∧ known o' (w_trace w').
Proof.
  unfold phase_cutover. case_decide; [intros [= -> _]; by left|]. intros Hrun. right.
  apply bind_returned in Hrun as (src & w1 & _ & Hrun). apply bind_returned in Hrun as (r & w2 & _ & Hrun).
  destruct src as [src|]; [|by apply bind_returned in Hrun as (? & ? & _ & ?)].
  case_decide; [by apply bind_returned in Hrun as (? & ? & _ & ?)|].
  apply bind_returned in Hrun as ([o1|] & w3 & _ & Hrun); [|done].
  apply bind_returned in Hrun as ([] & w4 & _ & Hrun); [|done]. cbn [negb] in Hrun.
  apply bind_returned in Hrun as ([] & w5 & _ & Hrun); [by apply advance_known in Hrun as (? & ? & _)|done].
Qed.

Lemma resume_phases_footprint :
  preserves (justifies footprint (λ _, True))
    (resume_phases keyPrefix sleepTimeoutMs healthCheckIntervalMs graceMs startupLogs notifications name).
Proof.
  unfold resume_phases.
  apply (preserves_learn _ _ (λ r l, match r with Some o => known o l | None => True end)).
  - unfold getMoveOperation. apply (preserves_redis _ (covered footprint (λ _, True))). auto with preserves.
  - intros [o|] w w' _ _ Hrun; [|done]. unfold getMoveOperation in Hrun. apply redis_returned in Hrun as [Ho ->]. intros Hwf.
    cbn [fst snd] in *. split; [eexists _, _; split; [apply logged|done]|]. edestruct Hwf as [_ Hm]; [apply logged|]. auto.
  - intros [o|]; [|solve_preserves]. set (F := λ l, True ∧ _). assert (∀ l, F l → known o l) as HF by (by intros l [_ ?]).
    assert (Stable F) as HS by (change (Stable (λ l, True ∧ known o l)); apply _).
    unfold isLeader. apply (preserves_bind _ (covered footprint F)); [solve_preserves|]. intros []; simpl; [|solve_preserves].
    apply (and_then_justified _ known F o); [apply _|by apply phase_starting_footprint|done|..].
    { intros w o' w' Hrun. apply phase_starting_known in Hrun. tauto. }
    intros F1 o1 HS1 HF1. apply (and_then_justified _ known F1 o1); [apply _|by apply phase_cleanup_footprint|done|..].
    { intros w o' w' Hrun. left. by eapply phase_cleanup_same. }
    intros F2 o2 HS2 HF2. apply (and_then_justified _ known F2 o2); [apply _|by apply phase_cutover_footprint|done|..].
    { intros w o' w' Hrun. apply phase_cutover_known in Hrun. tauto. }
    intros F3 o3 HS3 HF3. by apply phase_draining_footprint.
Qed.

Lemma resume_footprint :
  preserves (justifies footprint (λ _, True))
    (resume keyPrefix sleepTimeoutMs healthCheckIntervalMs graceMs startupLogs notifications name).
Proof.
  pose proof resume_phases_footprint.
  assert (∀ e, preserves (justifies footprint (λ _, True)) (resume_failed keyPrefix name e)).
  { intros e. assert (∀ at_ i ph err d, covered footprint (λ _, True) (EvRedis d (update_move_script (moveKey keyPrefix name) i ph err at_ d).2)).
    { intros. apply covered_calm. unfold update_move_script. by repeat case_match. }
    unfold resume_failed, getMoveOperation, updateMoveOperation. solve_preserves. }
  unfold resume, isLeader. solve_preserves.
Qed.

(** What a move may touch.  In every run of [resume], under any interference,
    failures, worker and runner behaviour, a command that changes an instance's record
    is covered by the phase of the move that this run has seen stored before it: the
    source is changed only in CUTTING_OVER or SOURCE_DRAINING and deleted only in
    SOURCE_DRAINING, the replacement is changed only in REPLACEMENT_STARTING or
    REPLACEMENT_CLEANUP and deleted only in REPLACEMENT_CLEANUP, and no other instance
    is ever touched.  (The records met are stored under their own names.)  With the
    phases' order this means that one move never deletes both of its instances. *)
Theorem move_footprint w l1 d d' l2 k :
  w_trace w = [] →
  let '(_, w') := resume keyPrefix sleepTimeoutMs healthCheckIntervalMs graceMs startupLogs notifications name w in
  w_trace w' = l1 ++ EvRedis d d' :: l2 → wf_trace l1 → db_instances d' !! k ≠ db_instances d !! k →
  ∃ o id, seen_move l1 o ∧ k = keyOf name id ∧ may_act (bool_decide (db_instances d' !! k = None)) o id.
Proof.
  intros Hw. pose proof (justified_run _ _ _ w resume_footprint I Hw) as HJ.
  destruct (resume _ _ _ _ _ _ _ w) as [r w']. intros Heq Hwf Hne. by apply (HJ _ _ _ Heq k).
Qed.
End footprint.

(** A move that drains its source never cleans up its replacement, and conversely. *)
Lemma move_sides_exclusive o o' :
  move_advances o o' →
  ¬ (phase o = MoveOperationPhase.SOURCE_DRAINING ∧ phase o' = MoveOperationPhase.REPLACEMENT_CLEANUP) ∧
  ¬ (phase o = MoveOperationPhase.REPLACEMENT_CLEANUP ∧ phase o' = MoveOperationPhase.SOURCE_DRAINING).
Proof.
  intros (_ & _ & _ & _ & _ & _ & Hp).
  split; intros [Ho Ho']; rewrite Ho, Ho' in Hp; (apply rtc_inv in Hp as [?|(p & Hstep & _)]; [done|by destruct p]).
Qed.

Definition deletes (d d' : RedisDb) (k : string) : Prop := is_Some (db_instances d !! k) ∧ db_instances d' !! k = None.

Section two_runs.
Context `{!RedisScan, !JsDate} (keyPrefix : string) (env1 env2 : Env).
Context (sleepTimeoutMs healthCheckIntervalMs graceMs : Z) (startupLogs notifications : bool) (name : string).
Notation run env := (@resume env _ _ keyPrefix sleepTimeoutMs healthCheckIntervalMs graceMs startupLogs notifications name).

Lemma deletes_side (env : Env) w l d d' m k :
  MODEL_NAME_PATTERN name = true → w_trace w = [] → w_trace (run env w).2 = l ++ EvRedis d d' :: m →
  wf_trace keyPrefix name l → deletes d d' k →
  ∃ o, seen_move keyPrefix name l o ∧
    ((phase o = MoveOperationPhase.SOURCE_DRAINING ∧ k = instanceStateKey keyPrefix name (sourceInstanceId o)) ∨
     (phase o = MoveOperationPhase.REPLACEMENT_CLEANUP ∧ k = instanceStateKey keyPrefix name (replacementInstanceId o))).
Proof.
  intros Hn Hw Heq Hwf [[s Hs] Hd].
  pose proof (justified_run _ _ _ w (resume_footprint keyPrefix sleepTimeoutMs healthCheckIntervalMs graceMs startupLogs notifications name Hn) I Hw) as HJ.
  destruct (HJ _ _ _ Heq k) as (o & id & Ho & -> & Hm); [congruence|done|]. exists o. split; [done|].
  rewrite bool_decide_eq_true_2 in Hm by done. unfold may_act in Hm. naive_solver.
Qed.

(** C6: a move never loses both of its instances.  Take any two runs of [resume] of one
    model, in the same or in different processes, before or after a change of leader,
    whatever else goes on, whose stored records are versions of one transaction (the
    fence's guarantee): if a command of the first deletes an instance and a command of
    the second deletes an instance, both deleted the source, or both the replacement. *)
Theorem move_never_loses_both w1 w2 l1 d1 d1' m1 k1 l2 d2 d2' m2 k2 :
  MODEL_NAME_PATTERN name = true → w_trace w1 = [] → w_trace w2 = [] →
  w_trace (run env1 w1).2 = l1 ++ EvRedis d1 d1' :: m1 → w_trace (run env2 w2).2 = l2 ++ EvRedis d2 d2' :: m2 →
  wf_trace keyPrefix name l1 → wf_trace keyPrefix name l2 →
  (∀ o1 o2, seen_move keyPrefix name l1 o1 → seen_move keyPrefix name l2 o2 → move_advances o1 o2 ∨ move_advances o2 o1) →
  deletes d1 d1' k1 → deletes d2 d2' k2 →
  ∃ o, (k1 = instanceStateKey keyPrefix name (sourceInstanceId o) ∧ k2 = k1) ∨
       (k1 = instanceStateKey keyPrefix name (replacementInstanceId o) ∧ k2 = k1).
Proof.
  intros Hn Hw1 Hw2 Heq1 Heq2 Hwf1 Hwf2 Hsame Hd1 Hd2.
  destruct (deletes_side env1 w1 l1 d1 d1' m1 k1) as (o1 & Ho1 & Hk1); [done..|].
  destruct (deletes_side env2 w2 l2 d2 d2' m2 k2) as (o2 & Ho2 & Hk2); [done..|].
  exists o1. assert (sourceInstanceId o2 = sourceInstanceId o1 ∧ replacementInstanceId o2 = replacementInstanceId o1) as [Hs Hr].
  { destruct (Hsame o1 o2 Ho1 Ho2) as [(_&_&?&?&_)|(_&_&?&?&_)]; by split. }
  destruct (Hsame o1 o2 Ho1 Ho2) as [[He1 He2]%move_sides_exclusive|[He1 He2]%move_sides_exclusive];
    destruct Hk1 as [[Hp1 ->]|[Hp1 ->]], Hk2 as [[Hp2 ->]|[Hp2 ->]]; rewrite ?Hs, ?Hr; tauto.
Qed.
End two_runs.

(** ** Traffic moves before the source drains *)
Section order.
Context `{!Env, !RedisScan, !JsDate} (keyPrefix : string).
Context (sleepTimeoutMs healthCheckIntervalMs graceMs : Z) (startupLogs notifications : bool) (name : string).

(** The record of instance [id] was read as [s]. *)
Definition read_as (id : string) (s : InstanceState) (l : list Event) : Prop :=
  ∃ d, EvRedis d d ∈ l ∧ db_instances d !! instanceStateKey keyPrefix name id = Some s.
(** A cutover of the endpoint of [s] was made and reported complete. *)
Definition cut_over (s : InstanceState) (l : list Event) : Prop :=
  ∃ host port w1 w2, endpoint_address s = Some (host, port) ∧
    cutoverEndpointAndWait keyPrefix name host port w1 = (inr true, w2) ∧ w_trace w2 `prefix_of` l.
(** What must have happened before the move of [o] may drain its source. *)
Definition ready_to_drain (o : MoveOperation) (l : list Event) : Prop :=
  ∃ source replacement, read_as (sourceInstanceId o) source l ∧ read_as (replacementInstanceId o) replacement l ∧
    state replacement = ModelLifecycleState.ACTIVE ∧
    (state source = ModelLifecycleState.DRAINING ∨ state source = ModelLifecycleState.ACTIVE ∧ cut_over source l).
Definition drains_in_order (l : list Event) (e : Event) : Prop :=
  match e with
  | EvRedis d d' => ∀ o o',
      db_moves d !! moveKey keyPrefix name = Some o → db_moves d' !! moveKey keyPrefix name = Some o' →
      phase o ≠ MoveOperationPhase.SOURCE_DRAINING → phase o' = MoveOperationPhase.SOURCE_DRAINING →
      ∃ o0, seen_move keyPrefix name l o0 ∧ operationId o0 = operationId o' ∧ ready_to_drain o0 l
  | _ => True
  end.
Notation J := drains_in_order.

#[local] Instance read_as_stable id s : Stable (read_as id s).
Proof. intros l l' (d & Hin & Hs). exists d. split; [set_solver|done]. Qed.
#[local] Instance cut_over_stable s : Stable (cut_over s).
Proof. intros l l' (h & p & w1 & w2 & ? & ? & Hp). exists h, p, w1, w2. split_and!; [done..|]. by apply prefix_app_r. Qed.
#[local] Instance seen_stable o : Stable (λ l, seen_move keyPrefix name l o).
Proof. intros l l' Hl. by apply seen_move_app. Qed.

Lemma order_calm F d d' : db_moves d' = db_moves d → covered J F (EvRedis d d').
Proof. intros Heq l _ o o' Ho Ho'. rewrite Heq in Ho'. naive_solver. Qed.
Lemma order_other F e : (∀ d d', e ≠ EvRedis d d') → covered J F e.
Proof. intros He l _. destruct e; try done. by destruct (He before after). Qed.
Hint Resolve order_calm order_other : preserves.
Hint Extern 2 (covered _ _ _) => (intros ? ?; exact I) : preserves.

Lemma script_covered F opId p err at_ d :
  p ≠ MoveOperationPhase.SOURCE_DRAINING →
  covered J F (EvRedis d (update_move_script (moveKey keyPrefix name) opId (Some p) err at_ d).2).
Proof.
  intros Hp l _ o o' Ho. unfold update_move_script. rewrite Ho. case_decide; [simpl; naive_solver|].
  destruct (_ && _); simpl; [naive_solver|]. rewrite lookup_insert_eq. intros [= <-] _ Hp'. by destruct Hp.
Qed.

Lemma advance_order F `{!Stable F} o p err :
  p ≠ MoveOperationPhase.SOURCE_DRAINING → preserves (justifies J F) (advance keyPrefix o name p err).
Proof.
  intros Hp. pose proof (λ opId at_ d, script_covered F opId p err at_ d Hp).
  unfold advance, updateMoveOperation. solve_preserves.
Qed.

(** The one step that marks the move as draining. *)
Lemma advance_draining F `{!Stable F} o o0 :
  operationId o = operationId o0 → (∀ l, F l → seen_move keyPrefix name l o0 ∧ ready_to_drain o0 l) →
  preserves (justifies J F) (advance keyPrefix o name MoveOperationPhase.SOURCE_DRAINING None).
Proof.
  intros Hid HF. unfold advance, updateMoveOperation. apply (preserves_bind _ (covered J F)); [solve_preserves|]. intros t.
  apply (preserves_redis _ (covered J F)). intros d l Hl o1 o2 Ho1. unfold update_move_script. rewrite Ho1.
  case_decide; [simpl; naive_solver|]. destruct (_ && _); simpl; [naive_solver|]. rewrite lookup_insert_eq. intros [= <-] _ _.
  exists o0. destruct (HF l Hl). split_and!; [done| |done]. simpl. by destruct (decide (operationId o1 = operationId o)); congruence.
Qed.

Lemma finish_order F `{!Stable F} o f : preserves (justifies J F) (finish keyPrefix notifications o f).
Proof.
  assert (∀ key i d, covered J F (EvRedis d (remove_move_script key i d).2)) as Hr.
  { intros key i d l _ o1 o2 Ho1 Ho2. unfold remove_move_script in Ho2.
    assert (db_moves (match db_moves d !! key with
                      | None => (false, d)
                      | Some o3 => if decide (operationId o3 ≠ i) then (false, d) else (true, set_moves (delete key) d)
                      end).2 !! moveKey keyPrefix name = Some o2 → o2 = o1) as Heq; [|by rewrite (Heq Ho2)].
    destruct (db_moves d !! key); [case_decide|]; simpl; try congruence. rewrite lookup_delete_Some. naive_solver. }
  unfold finish, removeMoveOperation. destruct f; solve_preserves.
Qed.

(** *** The phases *)
Hint Extern 1 (preserves _ (advance _ _ _ _ _)) => apply advance_order; [exact _|discriminate] : preserves.
Hint Extern 1 (preserves _ (finish _ _ _ _)) => apply finish_order; exact _ : preserves.

Lemma phase_starting_order F `{!Stable F} o :
  preserves (justifies J F) (phase_starting keyPrefix graceMs startupLogs notifications name o).
Proof.
  pose proof (calm_recover keyPrefix graceMs startupLogs (justifies J F) _ (order_calm F) (order_other F) o).
  pose proof (calm_mark startupLogs (justifies J F) _ (order_other F)).
  unfold phase_starting, getInstance. case_decide; [solve_preserves|].
  apply (preserves_bind _ (covered J F)); [solve_preserves|]. intros [r0|]; [|solve_preserves].
  apply (preserves_bind _ (covered J F)); [solve_preserves|]. intros [r|]; [|solve_preserves]. destruct (state r); solve_preserves.
Qed.
Lemma phase_cleanup_order F `{!Stable F} o :
  preserves (justifies J F) (phase_cleanup keyPrefix sleepTimeoutMs healthCheckIntervalMs graceMs notifications name o).
Proof.
  pose proof (calm_teardown keyPrefix sleepTimeoutMs healthCheckIntervalMs graceMs (justifies J F) _ (order_calm F) (order_other F) o).
  unfold phase_cleanup, getInstance. solve_preserves.
Qed.
Lemma phase_draining_order F `{!Stable F} o :
  preserves (justifies J F) (phase_draining keyPrefix sleepTimeoutMs healthCheckIntervalMs graceMs notifications name o).
Proof.
  pose proof (calm_teardown keyPrefix sleepTimeoutMs healthCheckIntervalMs graceMs (justifies J F) _ (order_calm F) (order_other F) o).
  unfold phase_draining, getInstance, isLeader. solve_preserves.
Qed.

Lemma read_learn id w r w' :
  getInstance keyPrefix name id w = (inr r, w') → match r with Some s => read_as id s (w_trace w') | None => True end.
Proof.
  unfold getInstance. intros [-> ->]%redis_returned. cbn [fst snd].
  destruct (db_instances _ !! _) as [s|] eqn:Hs; [|done]. exists (w_db (tick w)). split; [apply logged|done].
Qed.

(** After a shift the source drains already, or its cutover is complete. *)
Definition shifted_away (s : InstanceState) (l : list Event) : Prop :=
  state s = ModelLifecycleState.DRAINING ∨ state s = ModelLifecycleState.ACTIVE ∧ cut_over s l.
#[local] Instance shifted_stable s : Stable (shifted_away s).
Proof. intros l l' [?|[??]]; [by left|right]. split; [done|by apply stable]. Qed.

Lemma shift_traffic_learn o s w w' : shift_traffic keyPrefix name o s w = (inr true, w') → shifted_away s (w_trace w').
Proof.
  unfold shift_traffic, shifted_away. destruct (state s) eqn:Hst; try done; [|by left]. intros Hrun. right. split; [done|].
  destruct (endpoint_address s) as [[h p]|] eqn:Ha; [|done].
  apply bind_returned in Hrun as ([] & w1 & Hcut & Hrun); [|done]. cbn [negb] in Hrun.
  exists h, p, w, w1. split_and!; [done..|].
  assert (grows (leader ← isLeader;
    if negb leader then mret false else
    transition keyPrefix name (sourceInstanceId o) ModelLifecycleState.DRAINING no_updates ;;
    refreshModelRoutingState keyPrefix name ;; mret true)) as Hg.
  { pose proof (refresh_preserves keyPrefix trace_grows any_event). unfold isLeader. solve_preserves. }
  destruct (Hg w1) as [Hp _]. by rewrite Hrun in Hp.
Qed.

Lemma phase_cutover_order F `{!Stable F} o :
  (∀ l, F l → seen_move keyPrefix name l o) → preserves (justifies J F) (phase_cutover keyPrefix notifications name o).
Proof.
  intros HF. unfold phase_cutover. case_decide; [solve_preserves|].
  eapply (preserves_learn _ _ (λ r l, match r with Some s => read_as (sourceInstanceId o) s l | None => True end));
    [unfold getInstance; solve_preserves|by intros; eapply read_learn|].
  intros src. set (F1 := λ l, F l ∧ _). assert (Stable F1) as HS1 by (destruct src; apply _).
  eapply (preserves_learn _ _ (λ r l, match r with Some s => read_as (replacementInstanceId o) s l | None => True end));
    [unfold getInstance; solve_preserves|by intros; eapply read_learn|].
  intros r. set (F2 := λ l, F1 l ∧ _). assert (Stable F2) as HS2 by (destruct r; apply _).
  pose proof (calm_rollback (justifies J F2) _ (order_calm F2) o).
  destruct src as [src|]; [|unfold source_gone; solve_preserves].
  case_decide as Hr; [unfold replacement_lost; solve_preserves|].
  apply (preserves_learn _ _ (λ c _, match c with Some o' => operationId o' = operationId o | None => True end)); [solve_preserves|..].
  { intros [o'|] w w' _ _ Hrun; [by apply advance_known in Hrun as (_ & _ & _ & ?)|done]. }
  intros [o'|]; [|solve_preserves]. set (F3 := λ l, F2 l ∧ _). assert (Stable F3) as HS3 by apply _.
  apply (preserves_bind _ (covered J F3)); [unfold isLeader; solve_preserves|]. intros []; simpl; [|solve_preserves].
  apply (preserves_learn _ _ (λ b l, if (b : bool) then shifted_away src l else True)).
  { apply (calm_shift _ (justifies J F3) _ (order_calm F3) (order_other F3)). }
  { intros [] w w' _ _ Hrun; [by eapply shift_traffic_learn|done]. }
  intros []; [|solve_preserves]. set (F4 := λ l, F3 l ∧ _). destruct (decide (operationId o' = operationId o)) as [Hid|]; [|by intros w [[_ ?] _]].
  apply (advance_draining F4 o' o Hid). intros l [[[[HFl Hs] Hrep] _] Hsh]. split; [auto|].
  destruct r as [rep|]; [|done]. exists src, rep. split_and!; [done..| |done]. simpl in Hr. destruct (decide (state rep = ModelLifecycleState.ACTIVE)); congruence.
Qed.

Lemma resume_phases_order :
  preserves (justifies J (λ _, True))
    (resume_phases keyPrefix sleepTimeoutMs healthCheckIntervalMs graceMs startupLogs notifications name).
Proof.
  set (K := λ o l, seen_move keyPrefix name l o). assert (∀ o, Stable (K o)) as HK by apply _.
  unfold resume_phases. apply (preserves_learn _ _ (λ r l, match r with Some o => K o l | None => True end)).
  - unfold getMoveOperation. solve_preserves.
  - intros [o|] w w' _ _ Hrun; [|done]. unfold getMoveOperation in Hrun. apply redis_returned in Hrun as [Ho ->].
    eexists _, _. split; [apply logged|done].
  - intros [o|]; [|solve_preserves]. set (F := λ l, True ∧ _). assert (Stable F) as HS by (change (Stable (λ l, True ∧ K o l)); apply _).
    unfold isLeader. apply (preserves_bind _ (covered J F)); [solve_preserves|]. intros []; simpl; [|solve_preserves].
    apply (and_then_justified _ K F o); [done|by apply phase_starting_order|by intros l [_ ?]|..].
    { intros w o' w' Hrun. apply phase_starting_known in Hrun. unfold K. tauto. }
    intros F1 o1 HS1 HF1. apply (and_then_justified _ K F1 o1); [done|by apply phase_cleanup_order|done|..].
    { intros w o' w' Hrun. left. by eapply phase_cleanup_same. }
    intros F2 o2 HS2 HF2. apply (and_then_justified _ K F2 o2); [done|by apply phase_cutover_order|done|..].
    { intros w o' w' Hrun. apply phase_cutover_known in Hrun. unfold K. tauto. }
    intros F3 o3 HS3 HF3. by apply phase_draining_order.
Qed.

Lemma resume_order :
  preserves (justifies J (λ _, True))
    (resume keyPrefix sleepTimeoutMs healthCheckIntervalMs graceMs startupLogs notifications name).
Proof.
  pose proof resume_phases_order.
  assert (∀ e, preserves (justifies J (λ _, True)) (resume_failed keyPrefix name e)).
  { intros e. assert (∀ at_ i err d, covered J (λ _, True) (EvRedis d (update_move_script (moveKey keyPrefix name) i None err at_ d).2)).
    { intros at_ i err d l _ o o' Ho. unfold update_move_script. rewrite Ho. case_decide; simpl; [naive_solver|].
      rewrite lookup_insert_eq. by intros [= <-]. }
    unfold resume_failed, getMoveOperation, updateMoveOperation. solve_preserves. }
  unfold resume, isLeader. solve_preserves.
Qed.

(** C18: traffic moves before the source drains.  In every run of [resume], under any
    interference and failures, a command that marks a move as draining its source comes
    after this run has seen that move's record, read its replacement ACTIVE, and either
    read its source DRAINING already or read it ACTIVE and completed the traffic cutover
    of exactly that source's endpoint (set its weight to 0 and waited for the proxies). *)
Theorem drain_after_cutover w l1 d d' l2 o o' :
  w_trace w = [] →
  let '(_, w') := resume keyPrefix sleepTimeoutMs healthCheckIntervalMs graceMs startupLogs notifications name w in
  w_trace w' = l1 ++ EvRedis d d' :: l2 →
  db_moves d !! moveKey keyPrefix name = Some o → db_moves d' !! moveKey keyPrefix name = Some o' →
  phase o ≠ MoveOperationPhase.SOURCE_DRAINING → phase o' = MoveOperationPhase.SOURCE_DRAINING →
  ∃ o0, seen_move keyPrefix name l1 o0 ∧ operationId o0 = operationId o' ∧ ready_to_drain o0 l1.
Proof.
  intros Hw. pose proof (justified_run _ _ _ w resume_order I Hw) as HJ.
  destruct (resume _ _ _ _ _ _ _ w) as [r w']. intros Heq. by apply (HJ _ _ _ Heq).
Qed.
End order.

(** ** Rolling back *)
Section rollback.
Context `{!Env, !QuietRedis, !RedisScan, !JsDate} (keyPrefix : string).
Context (sleepTimeoutMs healthCheckIntervalMs graceMs : Z) (startupLogs notifications : bool) (name : string).
Context (Hleader : ∀ n, env_leader n = true).

Lemma change_endpoint_found f n h p now d ep :
  ep_at d n h p = Some ep → (change_endpoint_script f n h p now d).1 = true.
Proof.
  unfold ep_at, change_endpoint_script. destruct (db_routing d !! n) as [e|]; [|done]. simpl.
  assert (find (at_endpoint h p) (re_endpoints e) = Some ep → is_Some (change_first f h p (re_endpoints e))) as Hc.
  { induction (re_endpoints e) as [|x l IH]; simpl; [done|]. case_match; [by eexists|]. intros [l' ->]%IH. by eexists. }
  by intros [l ->]%Hc.
Qed.
Lemma change_endpoint_frame f n h p now d :
  db_instances (change_endpoint_script f n h p now d).2 = db_instances d ∧
  db_moves (change_endpoint_script f n h p now d).2 = db_moves d.
Proof. unfold change_endpoint_script. by repeat case_match. Qed.

(** What the run knows at the rollback: the record, the two instances, the endpoint. *)
Definition at_rollback (o : MoveOperation) (s r : InstanceState) (h : string) (p : Z) (ep : RunnerEndpoint) (d : RedisDb) : Prop :=
  db_moves d !! moveKey keyPrefix name = Some o ∧ mv_modelName o = name ∧ phase o = MoveOperationPhase.CUTTING_OVER ∧
  db_instances d !! instanceStateKey keyPrefix name (sourceInstanceId o) = Some s ∧ state s = ModelLifecycleState.ACTIVE ∧
  db_instances d !! instanceStateKey keyPrefix name (replacementInstanceId o) = Some r ∧ state r = ModelLifecycleState.ERROR ∧
  endpoint_address s = Some (h, p) ∧ ep_at d name h p = Some ep.
(** The source serves again and the replacement is to be cleaned up. *)
Definition rolled_back (o : MoveOperation) (r : InstanceState) (h : string) (p : Z) (ep : RunnerEndpoint) (d d' : RedisDb) : Prop :=
  db_instances d' = db_instances d ∧ ep_at d' name h p = Some (set_weight 1 ep) ∧
  ∃ at_, db_moves d' !! moveKey keyPrefix name =
    Some (apply_move_update (Some MoveOperationPhase.REPLACEMENT_CLEANUP)
            (Some (default "replacement became unavailable" (errorMessage r))) at_ o).

Lemma wp_replacement_lost o s r h p ep w :
  at_rollback o s r h p ep (w_db w) →
  wp (replacement_lost keyPrefix notifications name o s (Some r)) (λ _ w', rolled_back o r h p ep (w_db w) (w_db w')) (λ _ _, False) w.
Proof.
  intros (Ho & Hn & Hp & Hs & Hss & Hr & Hrs & Ha & Hep). unfold replacement_lost. rewrite bool_decide_eq_true_2 by done.
  simpl. unfold rollback. rewrite decide_False, bool_decide_eq_true_2 by naive_solver. simpl.
  unfold restoreSourceWeight. rewrite Ha, Hn. apply wp_bind, wp_bind. simpl. apply wp_bind, wp_gets, wp_redis_quiet. intros w1 Hdb1 _.
  rewrite (change_endpoint_found _ _ _ _ _ _ ep) by done. apply wp_ret. apply wp_bind. unfold advance, updateMoveOperation.
  apply wp_bind, wp_gets, wp_redis_quiet. intros w2 Hdb2 _. apply wp_ret. unfold rolled_back.
  destruct (change_endpoint_frame (set_weight 1) name h p (toISOString (w_now w)) (w_db w)) as [Hi Hm].
  rewrite Hdb2, Hdb1. unfold update_move_script. rewrite Hm, Ho. rewrite decide_False by naive_solver. rewrite Hp. simpl.
  split; [done|]. split; [|eexists; by rewrite lookup_insert_eq].
  change (ep_at (change_endpoint_script (set_weight 1) name h p (toISOString (w_now w)) (w_db w)).2 name h p = Some (set_weight 1 ep)).
  rewrite change_endpoint_ep_at by apply set_weight_address. by rewrite !bool_decide_eq_true_2, Z.eqb_refl, Hep by done.
Qed.

(** A failed move gives the traffic back.  When the leader resumes a move whose
    traffic was already shifted (CUTTING_OVER), whose source is still ACTIVE and whose
    replacement has failed, with Redis working and nobody else writing: the source's
    endpoint gets its weight back, the move goes on to clean up the replacement with
    the replacement's error, and neither instance's record is changed. *)
Theorem failed_move_restores_traffic o s r h p ep w :
  name ∉ l_running (w_local w) → at_rollback o s r h p ep (w_db w) →
  let '(res, w') := resume keyPrefix sleepTimeoutMs healthCheckIntervalMs graceMs startupLogs notifications name w in
  res = inr tt ∧ rolled_back o r h p ep (w_db w) (w_db w').
Proof.
  intros Hrun Hat. pose proof Hat as (Ho & Hn & Hp & Hs & Hss & Hr & Hrs & Ha & Hep).
  unfold resume, mbind, M_bind, isLeader, gets. rewrite Hleader, bool_decide_eq_false_2 by done. simpl.
  set (w0 := set_local _ w). change (w_db w) with (w_db w0) in *. clearbody w0. clear Hrun. unfold finally, attempt, catch.
  assert (wp (resume_phases keyPrefix sleepTimeoutMs healthCheckIntervalMs graceMs startupLogs notifications name)
    (λ _ w', rolled_back o r h p ep (w_db w0) (w_db w')) (λ _ _, False) w0) as Hwp.
  2: { unfold wp in Hwp. destruct (resume_phases _ _ _ _ _ _ _ w0) as [[e|[]] w']; [done|]. by split. }
  unfold resume_phases, getMoveOperation. apply wp_bind, wp_redis_quiet. intros w1 Hdb1 _. cbn [fst snd] in *. rewrite Ho.
  unfold isLeader. apply wp_bind, wp_gets. rewrite Hleader. simpl.
  unfold and_then at 1. apply wp_bind. unfold phase_starting. rewrite decide_True by (by rewrite Hp). apply wp_ret.
  unfold and_then at 1. apply wp_bind. unfold phase_cleanup. rewrite decide_True by (by rewrite Hp). apply wp_ret.
  unfold and_then. apply wp_bind. unfold phase_cutover. rewrite decide_False by (rewrite Hp; naive_solver).
  unfold getInstance. apply wp_bind, wp_redis_quiet. intros w2 Hdb2 _. cbn [fst snd] in *. rewrite Hdb1, Hs.
  apply wp_bind, wp_redis_quiet. intros w3 Hdb3 _. cbn [fst snd] in *. rewrite Hdb2, Hdb1, Hr.
  rewrite decide_True by (simpl; rewrite Hrs; congruence). apply wp_bind.
  eapply wp_mono; [apply (wp_replacement_lost o s r h p ep)|intros ? w4 Hw4|done]; [by rewrite Hdb3, Hdb2, Hdb1|].
  apply wp_ret, wp_ret. cbn beta in Hw4. by rewrite Hdb3, Hdb2, Hdb1 in Hw4.
Qed.
End rollback.

(** ** Closed examples: model [m] moves from instance [a] to instance [b] *)
Definition ex_side (id : string) (st : ModelLifecycleState) (host : string) : InstanceState :=
  mkInstance id "m" st None (Some "w1") (Some host) (Some 80%Z) None (Some ("r-" +:+ id)) None None "0" None false.
Definition ex_move_op (p : MoveOperationPhase) : MoveOperation :=
  mkMove "op1" "m" "a" "b" "w1" [0%Z] p "0" "0" None.
Definition ex_move_world (p : MoveOperationPhase) (src rep : ModelLifecycleState) : World :=
  mkWorld
    (set_routing (λ _, {["m" := mkEntry "m" ModelState.ACTIVE Protocol.openai
                                  [mkEndpoint "ha" 80 0 true None; mkEndpoint "hb" 80 1 true None] "0" None]})
      (set_moves (λ _, {[moveKey "p" "m" := ex_move_op p]})
        (set_instances (λ _, <["p:models:m:a" := ex_side "a" src "ha"]> {["p:models:m:b" := ex_side "b" rep "hb"]}) empty_db)))
    (mkLocal init_state [("w1", Placement.example_worker "w1")] ∅ init_recon no_claims []) 1000 0 [].
Definition ex_resume (w : World) : (Exn + unit) * World := @resume idle_env star_scan decimal_date "p" 1000 100 5000 true true "m" w.
#[local] Instance idle_quiet_redis : @QuietRedis idle_env.
Proof. by split. Qed.

(** From a ready replacement to the end: the source is gone, so is the move's record,
    and the replacement serves. *)
Example ex_move_completes :
  let '(r, w') := ex_resume (ex_move_world MoveOperationPhase.REPLACEMENT_READY ModelLifecycleState.ACTIVE ModelLifecycleState.ACTIVE) in
  r = inr tt ∧ db_moves (w_db w') = ∅ ∧ db_instances (w_db w') = {["p:models:m:b" := ex_side "b" ModelLifecycleState.ACTIVE "hb"]}.
Proof. vm_compute. split_and!; reflexivity. Qed.

Lemma resume_returns_witness :
  (ex_resume (ex_move_world MoveOperationPhase.REPLACEMENT_READY ModelLifecycleState.ACTIVE ModelLifecycleState.ACTIVE)).1 = inr tt.
Proof.
  pose proof (@resume_returns idle_env star_scan decimal_date "p" 1000 100 5000 true true ltac:(lia) "m"
    (ex_move_world MoveOperationPhase.REPLACEMENT_READY ModelLifecycleState.ACTIVE ModelLifecycleState.ACTIVE)) as H.
  unfold ex_resume. destruct (resume _ _ _ _ _ _ _ _) as [r w']. exact (proj1 H).
Defined.

(** Checking [wf_trace] and the move records of a concrete trace. *)
Definition wf_event (e : Event) : bool :=
  match e with
  | EvRedis d _ =>
      bool_decide (map_Forall (λ k s, k = instanceStateKey "p" (modelName s) (instanceId s) ∧ MODEL_NAME_PATTERN (modelName s) = true) (db_instances d)) &&
      match db_moves d !! moveKey "p" "m" with Some o => bool_decide (mv_modelName o = "m") | None => true end
  | _ => true
  end.
Lemma wf_event_spec l : forallb wf_event l = true → wf_trace "p" "m" l.
Proof.
  intros Hl d d' Hin. rewrite forallb_forall in Hl. specialize (Hl _ (proj1 (list_elem_of_In _ _) Hin)). simpl in Hl.
  apply andb_true_iff in Hl as [Hi%bool_decide_eq_true Hm]. split; [exact Hi|]. intros o Ho. rewrite Ho in Hm. by apply bool_decide_eq_true in Hm.
Qed.
Definition only_move (o : MoveOperation) (e : Event) : bool :=
  match e with EvRedis _ d => bool_decide (db_moves d !! moveKey "p" "m" = Some o) | _ => true end.
Lemma only_move_spec o l o' : forallb (only_move o) l = true → seen_move "p" "m" l o' → o' = o.
Proof.
  intros Hl (d & d' & Hin & Ho). rewrite forallb_forall in Hl. specialize (Hl _ (proj1 (list_elem_of_In _ _) Hin)). simpl in Hl.
  apply bool_decide_eq_true in Hl. congruence.
Qed.
Definition event_dbs (e : option Event) : RedisDb * RedisDb := match e with Some (EvRedis d d') => (d, d') | _ => (empty_db, empty_db) end.

(** A run that tears down the source; its 16th event deletes the record. *)
Definition ex_drain_world : World := ex_move_world MoveOperationPhase.SOURCE_DRAINING ModelLifecycleState.DRAINING ModelLifecycleState.ACTIVE.
Definition ex_drain_trace : list Event := w_trace (ex_resume ex_drain_world).2.
Definition ex_deletion : RedisDb * RedisDb := event_dbs (ex_drain_trace !! 15).

Lemma ex_deletes : deletes ex_deletion.1 ex_deletion.2 "p:models:m:a".
Proof. split; [|vm_compute; reflexivity]. eexists. vm_compute. reflexivity. Qed.

Lemma move_footprint_witness :
  ∃ o id, seen_move "p" "m" (take 15 ex_drain_trace) o ∧ "p:models:m:a" = instanceStateKey "p" "m" id ∧ may_act true o id.
Proof.
  pose proof (@move_footprint idle_env star_scan decimal_date "p" 1000 100 5000 true true "m" eq_refl ex_drain_world
    (take 15 ex_drain_trace) ex_deletion.1 ex_deletion.2 (drop 16 ex_drain_trace) "p:models:m:a" eq_refl) as H.
  assert (ex_drain_trace = take 15 ex_drain_trace ++ EvRedis ex_deletion.1 ex_deletion.2 :: drop 16 ex_drain_trace) as Heq by (vm_compute; reflexivity).
  unfold ex_drain_trace at 1, ex_resume in Heq.
  destruct (resume _ _ _ _ _ _ _ ex_drain_world) as [r w'] in H, Heq. specialize (H Heq).
  destruct ex_deletes as [[s Hs] Hd]. rewrite Hd, bool_decide_eq_true_2 in H by reflexivity.
  apply H; [apply wf_event_spec; vm_compute; reflexivity|]. rewrite Hs. discriminate.
Defined.

Lemma move_never_loses_both_witness :
  ∃ o, ("p:models:m:a" = instanceStateKey "p" "m" (sourceInstanceId o) ∧ "p:models:m:a" = "p:models:m:a") ∨
       ("p:models:m:a" = instanceStateKey "p" "m" (replacementInstanceId o) ∧ "p:models:m:a" = "p:models:m:a").
Proof.
  apply (@move_never_loses_both star_scan decimal_date "p" idle_env idle_env 1000 100 5000 true true "m" ex_drain_world ex_drain_world
    (take 15 ex_drain_trace) ex_deletion.1 ex_deletion.2 (drop 16 ex_drain_trace) "p:models:m:a"
    (take 15 ex_drain_trace) ex_deletion.1 ex_deletion.2 (drop 16 ex_drain_trace) "p:models:m:a");
    [reflexivity|reflexivity|reflexivity|vm_compute; reflexivity|vm_compute; reflexivity| | | |exact ex_deletes|exact ex_deletes].
  - apply wf_event_spec. vm_compute. reflexivity.
  - apply wf_event_spec. vm_compute. reflexivity.
  - intros o1 o2 H1 H2. left.
    apply (only_move_spec (ex_move_op MoveOperationPhase.SOURCE_DRAINING)) in H1; [|vm_compute; reflexivity].
    apply (only_move_spec (ex_move_op MoveOperationPhase.SOURCE_DRAINING)) in H2; [|vm_compute; reflexivity]. by subst.
Defined.

(** A full move; its 12th event marks it as draining the source. *)
Definition ex_full_world : World := ex_move_world MoveOperationPhase.REPLACEMENT_READY ModelLifecycleState.ACTIVE ModelLifecycleState.ACTIVE.
Definition ex_full_trace : list Event := w_trace (ex_resume ex_full_world).2.
Definition ex_marking : RedisDb * RedisDb := event_dbs (ex_full_trace !! 11).
Definition ex_marked (d : RedisDb) : MoveOperation := default ex_move (db_moves d !! moveKey "p" "m").

Lemma drain_after_cutover_witness :
  ∃ o0, seen_move "p" "m" (take 11 ex_full_trace) o0 ∧ operationId o0 = "op1" ∧ @ready_to_drain idle_env star_scan decimal_date "p" "m" o0 (take 11 ex_full_trace).
Proof.
  pose proof (@drain_after_cutover idle_env star_scan decimal_date "p" 1000 100 5000 true true "m" ex_full_world
    (take 11 ex_full_trace) ex_marking.1 ex_marking.2 (drop 12 ex_full_trace) (ex_marked ex_marking.1) (ex_marked ex_marking.2) eq_refl) as H.
  assert (ex_full_trace = take 11 ex_full_trace ++ EvRedis ex_marking.1 ex_marking.2 :: drop 12 ex_full_trace) as Heq by (vm_compute; reflexivity).
  unfold ex_full_trace at 1, ex_resume in Heq.
  destruct (resume _ _ _ _ _ _ _ ex_full_world) as [r w'] in H, Heq. specialize (H Heq).
  apply H; [vm_compute; reflexivity..| |]; vm_compute; [discriminate|reflexivity].
Defined.

Lemma failed_move_restores_traffic_witness :
  let w := ex_move_world MoveOperationPhase.CUTTING_OVER ModelLifecycleState.ACTIVE ModelLifecycleState.ERROR in
  rolled_back "p" "m" (ex_move_op MoveOperationPhase.CUTTING_OVER) (ex_side "b" ModelLifecycleState.ERROR "hb") "ha" 80
    (mkEndpoint "ha" 80 0 true None) (w_db w) (w_db (ex_resume w).2).
Proof.
  intros w. pose proof (@failed_move_restores_traffic idle_env idle_quiet_redis star_scan decimal_date "p" 1000 100 5000 true true "m" (λ _, eq_refl)
    (ex_move_op MoveOperationPhase.CUTTING_OVER) (ex_side "a" ModelLifecycleState.ACTIVE "ha") (ex_side "b" ModelLifecycleState.ERROR "hb")
    "ha" 80 (mkEndpoint "ha" 80 0 true None) w) as H.
  unfold ex_resume. destruct (resume _ _ _ _ _ _ _ w) as [r w'] eqn:Hrun. apply H; [set_solver|].
  vm_compute. split_and!; reflexivity.
Defined.
