(* ===== verification/ModelRoutes.v ===== *)
(** * The model routes (control-plane/src/routes/models.ts)

    The handlers that change state.  A handler answers the request and may leave a task
    running: it returns the reply with that task, or it throws (the error handler turns the
    exception into the response).  The tasks that a handler starts with
    [Promise.allSettled], and those it leaves behind, run one after the other here, and
    [Promise.all] runs all of its members before it throws the first failure; at each of their
    awaits the environment, other tasks included, may do anything.  Logging is left out. *)
From stdpp Require Import base tactics list strings gmap sets.
From Stdlib Require Import ZArith Lia Ascii.
From S2P Require Import Prelude Js Paths Types Errors MemoryBudget WorkerPool Placement Eviction Store ModelName Requests Lifecycle RoutingMap SleepWake Deploy WorkerClient Reconciliation Launch Move.

(** The bodies of the replies. *)
Inductive Reply :=
| StateReply (status : Z) (modelName : string) (instanceId : option string) (state : ModelLifecycleState)
    (previousState : option ModelLifecycleState) (message : string)
| MoveReply (modelName sourceInstanceId replacementInstanceId : string).

(** The outcome of a request and the tasks it leaves running. *)
Record Outcome := mkOutcome { oc_reply : Exn + Reply; oc_task : Svc unit }.
Definition Handler : Type := Svc Outcome.
Definition answer (r : Reply) (task : Svc unit) : Handler := mret (mkOutcome (inr r) task).

(** [Promise.all(xs.map(f))] *)
Fixpoint promise_all {A} (xs : list A) (f : A → Svc unit) : Svc unit :=
  match xs with
  | [] => mret tt
  | x :: xs' =>
      failed ← attempt (f x ;; mret None) (λ e, mret (Some e));
      promise_all xs' f ;;
      match failed with None => mret tt | Some e => throw e end
  end.

Definition STOPPABLE_STATES (s : ModelLifecycleState) : bool :=
  match s with
  | ModelLifecycleState.STARTING | ModelLifecycleState.ACTIVE | ModelLifecycleState.SLEEPING | ModelLifecycleState.ERROR => true
  | _ => false
  end.
Definition TRANSIENT_FOR_DELETE (s : ModelLifecycleState) : bool :=
  match s with
  | ModelLifecycleState.PENDING | ModelLifecycleState.DRAINING | ModelLifecycleState.STOPPING => true
  | _ => false
  end.

Definition in_progress {A} (name action detail : string) : Svc A := throw (CPError (operationInProgress name action detail)).
Definition bad_state {A} (name : string) (st : ModelLifecycleState) (action : string) : Svc A :=
  throw (CPError (invalidState name (lifecycle_str st) action)).
Definition no_endpoint {A} (name id : string) : Svc A :=
  throw (CPError (mkCPError 500 INTERNAL_ERROR ("Instance " +:+ id +:+ " of " +:+ name +:+ " has no runner endpoint"))).
Definition moving_detail : string := "a move is already in progress".
Definition deleting_detail : string := "a delete is already in progress".
Definition stopping_detail : string := "a stop is already in progress".
Definition other_detail : string := "another lifecycle operation is already in progress".

Section routes.
Context `{!Env, !ReconEnv, !RouteEnv, !RedisScan, !JsDate, !PlacementStrategy, !EvictionStrategy}.
Context (JSON_parse : string → option json) (keyPrefix cwd weightsDir : string) (config : EvictionConfig).
Context (sleepTimeoutMs wakeTimeoutMs deployTimeoutMs healthCheckIntervalMs staleAfterSecs graceMs : Z).
Context (startupLogs notifications : bool) (share : Z → Z → Z).
Notation launch := (deployFromRecord JSON_parse keyPrefix cwd weightsDir config sleepTimeoutMs deployTimeoutMs
  healthCheckIntervalMs staleAfterSecs startupLogs notifications share).
Notation tear_down := (teardownInstance keyPrefix sleepTimeoutMs healthCheckIntervalMs).

Definition leader_only (h : Handler) : Handler :=
  leader ← isLeader; if (leader : bool) then h else throw (CPError notLeader).

(** ** Repositories *)
Definition find_model (name : string) : Svc (option ModelRecord) :=
  http_call (λ n, ro_model n name) OtherError
    (λ r, EvModelRow name (match r with inl _ => None | inr o => Some (bool_decide (is_Some o)) end)).
Definition create_model : Svc ModelRecord := http_call ro_create OtherError (λ _, EvSide "model row created").
Definition update_model : Svc bool := http_call ro_update OtherError (λ _, EvSide "model row updated").
Definition delete_model (name : string) : Svc unit := side_call ("model row deleted: " +:+ name).
Definition note (title description : string) : Svc unit := modify (log_event (EvNotify title description)).

(** ** Fences *)
Definition assertNoMove (name action : string) : Svc unit :=
  durableMove ← getMoveOperation keyPrefix name;
  moving ← claimed movingInFlight name;
  if moving || bool_decide (is_Some durableMove) then in_progress name action moving_detail else mret tt.

Definition clearMoveForDelete (name : string) (force : bool) : Svc unit :=
  operation ← getMoveOperation keyPrefix name;
  match operation with
  | None => mret tt
  | Some op =>
      moving ← claimed movingInFlight name;
      if moving || (negb force && negb (bool_decide (phase op = MoveOperationPhase.REPLACEMENT_CLEANUP)))
      then in_progress name "delete" moving_detail else
      removed ← removeMoveOperation keyPrefix name (operationId op);
      still ← (if (removed : bool) then mret false
               else o ← getMoveOperation keyPrefix name; mret (bool_decide (is_Some o)));
      if (still : bool) then in_progress name "delete" moving_detail else
      moving' ← claimed movingInFlight name;
      if (moving' : bool) then in_progress name "delete" moving_detail else mret tt
  end.

Definition hasInstanceOperation (name : string) : Svc bool :=
  gets (λ w, existsb (starts_with (name +:+ ":")) (elements (l_claims (w_local w) instanceOpInFlight))).
(** A delete, a stop, a launch, a sleep or wake, an update, or an instance operation is in flight. *)
Definition model_busy (name : string) : Svc bool :=
  deleting ← claimed deletingInFlight name;
  stopping ← claimed stoppingInFlight name;
  launching ← claimed launchingInFlight name;
  lifecycle ← claimed modelLifecycleInFlight name;
  updating ← claimed configurationUpdateInFlight name;
  inst ← hasInstanceOperation name;
  mret (deleting || stopping || launching || lifecycle || updating || inst).
Definition assertMoveAdmission (name : string) : Svc unit :=
  assertNoMove name "move" ;;
  busy ← model_busy name;
  if (busy : bool) then in_progress name "move" other_detail else mret tt.

(** ** POST /api/v1/models *)
Definition post_model (body : json) : Handler :=
  leader_only (
    validate_deploy cwd weightsDir body ≫= λ params,
    record ← attempt create_model
      (λ e, if includes "unique" (err_message e) then throw (CPError (modelAlreadyExists (mp_name params))) else throw e);
    id ← mintInstanceId;
    attempt
      (l ← launch record id no_options;
       answer (StateReply 202 (mr_name record) (Some id) (la_state l) None (la_message l)) (swallow (la_deployment l)))
      (λ e, swallow (delete_model (mr_name record)) ;; throw e)).

(** Add and start keep the model's launch claim until the launch has settled. *)
Definition launch_claimed (record : ModelRecord) (name : string) (previous : option ModelLifecycleState) : Handler :=
  id ← mintInstanceId;
  claim launchingInFlight name ;;
  attempt
    (l ← launch record id no_options;
     answer (StateReply 202 name (Some id) (la_state l) previous (la_message l))
       (swallow (la_deployment l) ;; unclaim launchingInFlight name))
    (λ e, unclaim launchingInFlight name ;; throw e).

(** ** POST /api/v1/models/:modelName/instances *)
Definition post_instance (name : string) : Handler :=
  leader_only (
    assertValidModelName name ;;
    record ← find_model name;
    match record with
    | None => throw (CPError (modelNotFound name))
    | Some record => assertNoMove name "add an instance for" ;; launch_claimed record name None
    end).

(** ** POST .../instances/:instanceId/move *)
Definition same_placement (source : InstanceState) (worker : string) (indices : list Z) : bool :=
  bool_decide (workerId source = Some worker) &&
  match deviceIndices source with
  | Some ds => Nat.eqb (length ds) (length indices) && forallb (λ i, bool_decide (i ∈ indices)) ds
  | None => false
  end.
(** The checks on the target, in the order of the code. *)
Definition check_target (record : ModelRecord) (source : InstanceState) (name id worker : string) (indices : list Z) : Svc unit :=
  if negb (bool_decide (state source = ModelLifecycleState.ACTIVE)) then bad_state (name +:+ "/" +:+ id) (state source) "move" else
  if negb (truthy_str (workerId source) && truthy_str (runnerHost source) && truthy_num (runnerPort source)) then
    throw (CPError (mkCPError 500 INTERNAL_ERROR ("Active instance " +:+ id +:+ " of " +:+ name +:+ " has no runner endpoint"))) else
  if negb (Z.eqb (Z.of_nat (length indices)) (mr_tensorParallel record)) then
    throw (CPError (invalidRequest "Target device count must equal tensor parallelism")) else
  target ← getWorkerNow worker;
  match target with
  | None => throw (CPError (workerNotFound worker))
  | Some t =>
      if existsb (λ i, negb (existsb (λ d, Z.eqb (wdi_deviceIndex d) i) (devices t))) indices then
        throw (CPError (invalidRequest "Target device does not exist on target worker")) else
      if same_placement source worker indices then
        throw (CPError (invalidRequest "Target placement is identical to source placement"))
      else mret tt
  end.

(** The detached rest of a move: the deployment, its result in the durable record, [resume]. *)
Definition run_move (name opId : string) (deployment : Svc unit) : Svc unit :=
  swallow (finally
    (attempt
       (deployment ;;
        leader ← isLeader;
        when leader (updateMoveOperation keyPrefix name opId (Some MoveOperationPhase.REPLACEMENT_READY) None ;; mret tt))
       (λ e, leader ← isLeader;
             when leader (updateMoveOperation keyPrefix name opId (Some MoveOperationPhase.REPLACEMENT_CLEANUP) (Some (err_message e)) ;; mret tt)))
    (resume keyPrefix sleepTimeoutMs healthCheckIntervalMs graceMs startupLogs notifications name ;;
     unclaim movingInFlight name)).

Definition new_move (opId name source replacement worker : string) (indices : list Z) (now : string) : MoveOperation :=
  mkMove opId name source replacement worker indices MoveOperationPhase.REPLACEMENT_STARTING now now None.

Definition post_move (name id : string) (body : json) : Handler :=
  leader_only (
    assertValidModelName name ;;
    '(worker, indices) ← validate_move body;
    assertMoveAdmission name ;;
    record ← find_model name;
    source ← getInstance keyPrefix name id;
    match record, source with
    | Some record, Some source =>
        assertMoveAdmission name ;;
        check_target record source name id worker indices ;;
        assertMoveAdmission name ;;
        opId ← gets (λ w, ro_operation_id (w_step w));
        replacement ← mintInstanceId;
        now ← date_now;
        created ← createMoveOperation keyPrefix (new_move opId name id replacement worker indices (toISOString now));
        if negb created then in_progress name "move" moving_detail else
        claim movingInFlight name ;;
        attempt
          (l ← launch record replacement (mkOptions (Some (worker, indices)) true (Some opId));
           answer (MoveReply name id replacement) (run_move name opId (la_deployment l)))
          (λ e, unclaim movingInFlight name ;;
                swallow (removeMoveOperation keyPrefix name opId ;; mret tt) ;;
                throw e)
    | _, _ => throw (CPError (mkCPError 404 MODEL_NOT_FOUND ("Model instance not found: " +:+ name +:+ "/" +:+ id)))
    end).

(** ** PUT /api/v1/models/:modelName *)
Definition put_model (name : string) (body : json) : Handler :=
  leader_only (
    assertValidModelName name ;;
    assertNoMove name "modify" ;;
    record ← find_model name;
    instances ← getInstancesForModel keyPrefix name;
    if negb (bool_decide (is_Some record)) then throw (CPError (modelNotFound name)) else
    if negb (bool_decide (instances = [])) then bad_state name (deriveAggregateState instances) "modify" else
    busy ← model_busy name;
    if (busy : bool) then in_progress name "modify" other_detail else
    validate_update cwd weightsDir body name ≫= λ _,
    claim configurationUpdateInFlight name ;;
    finally (updated ← update_model; if negb updated then throw (CPError (modelNotFound name)) else mret tt)
            (unclaim configurationUpdateInFlight name) ;;
    answer (StateReply 200 name None ModelLifecycleState.STOPPED (Some ModelLifecycleState.STOPPED) "Model configuration updated") (mret tt)).

(** ** DELETE /api/v1/models/:modelName *)
Definition instance_claim (name id : string) : string := name +:+ ":" +:+ id.
(** The first of [instances] with an operation in flight. *)
Definition busy_instance (name : string) (instances : list InstanceState) : Svc (option InstanceState) :=
  gets (λ w, List.find (λ i, bool_decide (instance_claim name (instanceId i) ∈ l_claims (w_local w) instanceOpInFlight)) instances).
Definition assert_not_claimed (k : claim_kind) (name action detail : string) : Svc unit :=
  c ← claimed k name; if (c : bool) then in_progress name action detail else mret tt.
Definition assert_no_instance_operation (name : string) (instances : list InstanceState) : Svc unit :=
  busy ← busy_instance name instances;
  match busy with
  | Some i => in_progress name "delete" ("an operation is already in progress on instance " +:+ instanceId i)
  | None => mret tt
  end.

(** Force: forget the model and its instances without asking any runner. *)
Definition delete_forced (name : string) (instances : list InstanceState) : Handler :=
  assert_not_claimed deletingInFlight name "delete" deleting_detail ;;
  assert_not_claimed stoppingInFlight name "delete" stopping_detail ;;
  assert_no_instance_operation name instances ;;
  claim deletingInFlight name ;;
  finally
    (clearMoveForDelete name true ;;
     promise_all instances (λ i, removeInstance keyPrefix name (instanceId i)) ;;
     for_each instances (λ i, releaseHolds (instanceId i)) ;;
     removeModel name ;;
     delete_model name)
    (unclaim deletingInFlight name) ;;
  answer (StateReply 202 name None ModelLifecycleState.STOPPED (Some (deriveAggregateState instances))
            "Model force-deleted without runner teardown") (mret tt).

(** No instance: only the row is left. *)
Definition delete_record (name : string) : Handler :=
  assert_not_claimed deletingInFlight name "delete" deleting_detail ;;
  claim deletingInFlight name ;;
  finally (clearMoveForDelete name false ;; delete_model name) (unclaim deletingInFlight name) ;;
  answer (StateReply 202 name None ModelLifecycleState.STOPPED (Some ModelLifecycleState.STOPPED) "Model record removed") (mret tt).

(** The detached teardown of every instance, and of the model's row and routes unless a start
    is still ambiguous. *)
Definition delete_task (name : string) (instances : list InstanceState) : Svc unit :=
  finally
    (for_each instances (λ i, swallow (tear_down name (instanceId i) (has_client i) "Delete" ;; mret tt)) ;;
     retained ← mapM (λ i, getInstance keyPrefix name (instanceId i)) instances;
     if existsb (λ o, match o with Some i => runnerStartAmbiguous i | None => false end) retained then mret tt
     else swallow (delete_model name ;; removeModel name))
    (unclaim deletingInFlight name).

Definition delete_gracefully (name : string) (instances : list InstanceState) : Handler :=
  match List.find (λ i, TRANSIENT_FOR_DELETE (state i)) instances with
  | Some i => throw (CPError (invalidInstanceState name (instanceId i) (lifecycle_str (state i)) "delete"))
  | None =>
      assert_not_claimed deletingInFlight name "delete" deleting_detail ;;
      assert_not_claimed stoppingInFlight name "delete" stopping_detail ;;
      assert_no_instance_operation name instances ;;
      claim deletingInFlight name ;;
      attempt (clearMoveForDelete name false) (λ e, unclaim deletingInFlight name ;; throw e) ;;
      note "Model deleted" (name +:+ " removal initiated (" +:+ show_int (Z.of_nat (length instances)) +:+ " instance(s))") ;;
      answer (StateReply 202 name None ModelLifecycleState.STOPPING (Some (deriveAggregateState instances)) "Model removal initiated")
        (delete_task name instances)
  end.

Definition delete_route (name : string) (force : bool) : Handler :=
  leader_only (
    assertValidModelName name ;;
    instances ← getInstancesForModel keyPrefix name;
    record ← find_model name;
    if bool_decide (instances = []) && negb (bool_decide (is_Some record)) then throw (CPError (modelNotFound name)) else
    assert_not_claimed configurationUpdateInFlight name "delete" "a configuration update is in progress" ;;
    if (force : bool) then delete_forced name instances
    else if bool_decide (instances = []) then delete_record name
    else delete_gracefully name instances).

(** ** POST .../sleep *)
(** Every instance has an address to send the command to. *)
Definition assert_endpoints (name : string) (instances : list InstanceState) : Svc unit :=
  match List.find (λ i, negb (has_client i)) instances with
  | Some i => no_endpoint name (instanceId i)
  | None => mret tt
  end.
Definition count_text (name what : string) (n : nat) : string := name +:+ what +:+ " (" +:+ show_int (Z.of_nat n) +:+ " instance(s))".

Definition post_sleep (name : string) : Handler :=
  leader_only (
    assertValidModelName name ;;
    assertNoMove name "sleep" ;;
    instances ← getInstancesForModel keyPrefix name;
    if bool_decide (instances = []) then throw (CPError (modelNotFound name)) else
    let active := List.filter (λ i, bool_decide (state i = ModelLifecycleState.ACTIVE)) instances in
    if bool_decide (active = []) then bad_state name (deriveAggregateState instances) "sleep" else
    assert_endpoints name active ;;
    assertNoMove name "sleep" ;;
    assert_not_claimed modelLifecycleInFlight name "sleep" other_detail ;;
    claim modelLifecycleInFlight name ;;
    attempt
      (for_each active (λ i, transition keyPrefix name (instanceId i) ModelLifecycleState.DRAINING no_updates ;; mret tt) ;;
       refreshModelRoutingState keyPrefix name)
      (λ e, unclaim modelLifecycleInFlight name ;; throw e) ;;
    note "Model sleep initiated" (count_text name " is draining" (length active)) ;;
    answer (StateReply 202 name None ModelLifecycleState.DRAINING (Some ModelLifecycleState.ACTIVE)
              ("Sleep initiated for " +:+ show_int (Z.of_nat (length active)) +:+ " instance(s)"))
      (for_each active (λ i, swallow (sleepModel keyPrefix sleepTimeoutMs healthCheckIntervalMs name (instanceId i))) ;;
       unclaim modelLifecycleInFlight name)).

(** ** POST .../wake *)
(** Those of [sleeping] that this request takes to STARTING. *)
Fixpoint claim_sleeping (name : string) (sleeping : list InstanceState) : Svc (list InstanceState) :=
  match sleeping with
  | [] => mret []
  | i :: rest =>
      taken ← attempt (transition keyPrefix name (instanceId i) ModelLifecycleState.STARTING no_updates ;; mret true) (λ _, mret false);
      others ← claim_sleeping name rest;
      mret (if (taken : bool) then i :: others else others)
  end.

(** Evict others from the worker of [i] when its devices do not have room. *)
Definition wake_room (name : string) (requiredMemory : Z) (i : InstanceState) : Svc unit :=
  if Z.ltb 0 requiredMemory && truthy_str (workerId i) then
    let worker := default "" (workerId i) in
    now ← date_now;
    budget ← gets (λ w, getWorkerBudget staleAfterSecs now worker (l_budget (w_local w)));
    let available := match budget with Some b => foldl (λ s d, (s + availableBytes d)%Z) 0%Z (wb_devices b) | None => 0%Z end in
    if Z.ltb available requiredMemory then
      victims ← choose_victims keyPrefix config {[name]} requiredMemory {[worker]};
      for_each victims (evict keyPrefix sleepTimeoutMs healthCheckIntervalMs "Eviction (wake capacity reclamation)")
    else mret tt
  else mret tt.

(** The loop over the claimed instances, with the wakes dispatched so far; an exception leaves
    it with those wakes under way. *)
Fixpoint wake_loop (name : string) (requiredMemory : Z) (instances : list InstanceState) (started : Svc unit) :
    Svc (option Exn * Svc unit) :=
  match instances with
  | [] => mret (None, started)
  | i :: rest =>
      failed ← attempt (wake_room name requiredMemory i ;; mret None) (λ e, mret (Some e));
      match failed with
      | Some e => mret (Some e, started)
      | None =>
          wake_loop name requiredMemory rest
            (started ;; swallow (wakeModel keyPrefix wakeTimeoutMs healthCheckIntervalMs name (instanceId i)))
      end
  end.

Definition wake_claimed (name : string) (sleeping : list InstanceState) : Handler :=
  woken ← attempt (c ← claim_sleeping name sleeping; refreshModelRoutingState keyPrefix name ;; mret c)
            (λ e, unclaim modelLifecycleInFlight name ;; throw e);
  note "Model wake initiated" (count_text name " is waking up" (length woken)) ;;
  record ← find_model name;
  let requiredMemory := default 0%Z (r ← record; mr_requiredMemory r) in
  '(failed, tasks) ← wake_loop name requiredMemory woken (mret tt);
  match failed with
  | Some e => mret (mkOutcome (inl e) tasks)
  | None =>
      answer (StateReply 202 name None ModelLifecycleState.STARTING (Some ModelLifecycleState.SLEEPING)
                ("Wake initiated for " +:+ show_int (Z.of_nat (length woken)) +:+ " instance(s)"))
        (tasks ;; unclaim modelLifecycleInFlight name)
  end.

Definition post_wake (name : string) : Handler :=
  leader_only (
    assertValidModelName name ;;
    assertNoMove name "wake" ;;
    instances ← getInstancesForModel keyPrefix name;
    if bool_decide (instances = []) then throw (CPError (modelNotFound name)) else
    let starting := List.filter (λ i, bool_decide (state i = ModelLifecycleState.STARTING)) instances in
    let sleeping := List.filter (λ i, bool_decide (state i = ModelLifecycleState.SLEEPING)) instances in
    if bool_decide (sleeping = []) then
      if negb (bool_decide (starting = [])) then
        answer (StateReply 202 name None ModelLifecycleState.STARTING (Some ModelLifecycleState.STARTING) "Model is already waking up") (mret tt)
      else bad_state name (deriveAggregateState instances) "wake"
    else
    assert_endpoints name sleeping ;;
    assertNoMove name "wake" ;;
    assert_not_claimed modelLifecycleInFlight name "wake" other_detail ;;
    claim modelLifecycleInFlight name ;;
    wake_claimed name sleeping).

(** ** POST .../stop *)
Definition stop_forced (name : string) (instances : list InstanceState) : Handler :=
  assert_not_claimed stoppingInFlight name "force stop" stopping_detail ;;
  claim stoppingInFlight name ;;
  finally
    (promise_all instances (λ i,
       removeInstance keyPrefix name (instanceId i) ;;
       swallow (side_call ("instance row deleted: " +:+ instanceId i)) ;;
       releaseHolds (instanceId i)) ;;
     removeModel name)
    (unclaim stoppingInFlight name) ;;
  answer (StateReply 202 name None ModelLifecycleState.STOPPED (Some (deriveAggregateState instances))
            "Model force-stopped without runner teardown") (mret tt).

Definition stop_task (name : string) (stoppable : list InstanceState) : Svc unit :=
  finally (for_each stoppable (λ i, swallow (tear_down name (instanceId i) (has_client i) "Stop" ;; mret tt)))
          (unclaim stoppingInFlight name).

Definition stop_gracefully (name : string) (instances : list InstanceState) : Handler :=
  let aggregate := deriveAggregateState instances in
  let stoppable := List.filter (λ i, STOPPABLE_STATES (state i)) instances in
  if bool_decide (stoppable = []) then bad_state name aggregate "stop" else
  stopping ← claimed stoppingInFlight name;
  if (stopping : bool) then bad_state name aggregate "stop" else
  assertNoMove name "stop" ;;
  stopping' ← claimed stoppingInFlight name;
  if (stopping' : bool) then bad_state name aggregate "stop" else
  claim stoppingInFlight name ;;
  note "Model stop initiated" (count_text name " is stopping" (length stoppable)) ;;
  answer (StateReply 202 name None ModelLifecycleState.STOPPING (Some aggregate)
            ("Stop initiated for " +:+ show_int (Z.of_nat (length stoppable)) +:+ " instance(s)"))
    (stop_task name stoppable).

Definition post_stop (name : string) (force : bool) : Handler :=
  leader_only (
    assertValidModelName name ;;
    assertNoMove name "stop" ;;
    instances ← getInstancesForModel keyPrefix name;
    if bool_decide (instances = []) then throw (CPError (modelNotFound name)) else
    if (force : bool) then stop_forced name instances else stop_gracefully name instances).

(** ** POST .../start *)
Definition post_start (name : string) : Handler :=
  leader_only (
    assertValidModelName name ;;
    instances ← getInstancesForModel keyPrefix name;
    record ← find_model name;
    match record with
    | None => throw (CPError (modelNotFound name))
    | Some record =>
        if negb (bool_decide (instances = [])) then bad_state name (deriveAggregateState instances) "start" else
        assertNoMove name "start" ;;
        launch_claimed record name (Some ModelLifecycleState.STOPPED)
    end).

(** ** Operations on one instance *)
Definition with_stored (name id : string) (k : InstanceState → Handler) : Handler :=
  instance ← getInstance keyPrefix name id;
  match instance with None => throw (CPError (modelNotFound (name +:+ "/" +:+ id))) | Some i => k i end.
(** Claim the instance, or report it busy with the state it was read in. *)
Definition claim_instance (name id action : string) (st : ModelLifecycleState) : Svc unit :=
  busy ← claimed instanceOpInFlight (instance_claim name id);
  if (busy : bool) then bad_state (name +:+ "/" +:+ id) st action else claim instanceOpInFlight (instance_claim name id).
Definition instance_text (name id what : string) : string := name +:+ " (" +:+ id +:+ ")" +:+ what.

(** DELETE .../instances/:instanceId *)
Definition delete_instance (name id : string) : Handler :=
  leader_only (
    assertValidModelName name ;;
    assertNoMove name "delete an instance for" ;;
    with_stored name id (λ i,
    if TRANSIENT_FOR_DELETE (state i) then bad_state (name +:+ "/" +:+ id) (state i) "delete" else
    assertNoMove name "delete an instance for" ;;
    claim_instance name id "delete" (state i) ;;
    note "Model instance removal initiated" (instance_text name id "") ;;
    answer (StateReply 202 name (Some id) ModelLifecycleState.STOPPING (Some (state i)) "Instance removal initiated")
      (finally (tear_down name (instanceId i) (has_client i) "Instance delete" ;; mret tt)
               (unclaim instanceOpInFlight (instance_claim name id))))).

(** Take the instance to [to], or give the claim back. *)
Definition begin_transition (name id : string) (to : ModelLifecycleState) : Svc unit :=
  attempt (transition keyPrefix name id to no_updates ;; refreshModelRoutingState keyPrefix name)
    (λ e, unclaim instanceOpInFlight (instance_claim name id) ;; throw e).

(** POST .../instances/:instanceId/sleep *)
Definition sleep_instance (name id : string) : Handler :=
  leader_only (
    assertValidModelName name ;;
    assertNoMove name "sleep an instance for" ;;
    with_stored name id (λ i,
    if negb (bool_decide (state i = ModelLifecycleState.ACTIVE)) then bad_state (name +:+ "/" +:+ id) (state i) "sleep" else
    if negb (has_client i) then no_endpoint name id else
    assertNoMove name "sleep an instance for" ;;
    claim_instance name id "sleep" (state i) ;;
    begin_transition name id ModelLifecycleState.DRAINING ;;
    note "Model instance sleep initiated" (instance_text name id " is draining") ;;
    answer (StateReply 202 name (Some id) ModelLifecycleState.DRAINING (Some ModelLifecycleState.ACTIVE) "Sleep initiated")
      (swallow (sleepModel keyPrefix sleepTimeoutMs healthCheckIntervalMs name id) ;;
       unclaim instanceOpInFlight (instance_claim name id)))).

(** POST .../instances/:instanceId/wake *)
Definition wake_instance (name id : string) : Handler :=
  leader_only (
    assertValidModelName name ;;
    assertNoMove name "wake an instance for" ;;
    with_stored name id (λ i,
    if bool_decide (state i = ModelLifecycleState.STARTING) then
      answer (StateReply 202 name (Some id) ModelLifecycleState.STARTING (Some ModelLifecycleState.STARTING) "Instance is already waking up") (mret tt)
    else
    if negb (bool_decide (state i = ModelLifecycleState.SLEEPING)) then bad_state (name +:+ "/" +:+ id) (state i) "wake" else
    if negb (has_client i) then no_endpoint name id else
    assertNoMove name "wake an instance for" ;;
    claim_instance name id "wake" (state i) ;;
    begin_transition name id ModelLifecycleState.STARTING ;;
    note "Model instance wake initiated" (instance_text name id " is waking up") ;;
    answer (StateReply 202 name (Some id) ModelLifecycleState.STARTING (Some ModelLifecycleState.SLEEPING) "Wake initiated")
      (swallow (wakeModel keyPrefix wakeTimeoutMs healthCheckIntervalMs name id) ;;
       unclaim instanceOpInFlight (instance_claim name id)))).

(** ** The requests *)
Inductive Request :=
| PostModel (body : json) | PutModel (name : string) (body : json) | DeleteModel (name : string) (force : bool)
| PostInstance (name : string) | PostMove (name id : string) (body : json)
| PostSleep (name : string) | PostWake (name : string) | PostStop (name : string) (force : bool) | PostStart (name : string)
| DeleteInstance (name id : string) | SleepInstance (name id : string) | WakeInstance (name id : string).

Definition handle (r : Request) : Handler :=
  match r with
  | PostModel body => post_model body
  | PutModel name body => put_model name body
  | DeleteModel name force => delete_route name force
  | PostInstance name => post_instance name
  | PostMove name id body => post_move name id body
  | PostSleep name => post_sleep name
  | PostWake name => post_wake name
  | PostStop name force => post_stop name force
  | PostStart name => post_start name
  | DeleteInstance name id => delete_instance name id
  | SleepInstance name id => sleep_instance name id
  | WakeInstance name id => wake_instance name id
  end.

(** The request and then the tasks it left, to their end. *)
Definition serve (r : Request) : Svc unit := o ← handle r; oc_task o.

(** ** Only the leader acts *)

(** A process that is not the leader refuses every mutating model request with 503
    NOT_LEADER before it reads or changes anything. *)
Theorem follower_refuses r w :
  env_leader (w_step w) = false → handle r w = (inl (CPError notLeader), w).
Proof.
  intros Hl. destruct r; unfold handle, post_model, put_model, delete_route, post_instance, post_move, post_sleep, post_wake, post_stop,
    post_start, delete_instance, sleep_instance, wake_instance, leader_only, mbind, M_bind, isLeader, gets; by rewrite Hl.
Qed.
End routes.

(** ** Claims are given back *)
Definition same_claims (w w' : World) : Prop := ∀ k, l_claims (w_local w') k = l_claims (w_local w) k.
(** [w'] has the claims of [w] and [key] for [k]. *)
Definition with_claim (k : claim_kind) (key : string) (w w' : World) : Prop :=
  ∀ k', l_claims (w_local w') k' = if decide (k' = k) then {[key]} ∪ l_claims (w_local w) k else l_claims (w_local w) k'.

(** No other request of this process claims or gives back meanwhile. *)
Class QuietClaims `{!Env} : Prop := quiet_claims n l k : l_claims (env_interfere_local n l) k = l_claims l k.

#[export] Instance same_claims_rel `{!Env, !QuietClaims} : TraceRel same_claims any_event.
Proof.
  split; [|intros w k; apply quiet_claims|done..].
  split; [by intros w k|]. intros w1 w2 w3 H12 H23 k. by rewrite H23.
Qed.
#[export] Instance same_claims_services : ServicesRel same_claims.
Proof. by split; intros w f k. Qed.

Lemma claim_with k key w : with_claim k key w (claim k key w).2.
Proof. by intros k'. Qed.
Lemma with_claim_same k key w w1 w2 : with_claim k key w w1 → same_claims w1 w2 → with_claim k key w w2.
Proof. intros Hw Hs k'. by rewrite Hs. Qed.
Lemma same_with_claim k key w w1 w2 : same_claims w w1 → with_claim k key w1 w2 → with_claim k key w w2.
Proof. intros Hs Hw k'. rewrite Hw. case_decide; by rewrite Hs. Qed.
Lemma unclaim_with k key w w1 :
  with_claim k key w w1 → key ∉ l_claims (w_local w) k → same_claims w (unclaim k key w1).2.
Proof.
  intros Hw Hn k'. unfold unclaim, modify. simpl. case_decide as Hk; rewrite Hw; [|by rewrite decide_False].
  rewrite decide_True by done. subst. set_solver.
Qed.

Section services.
Context `{!Env, !QuietClaims, !ReconEnv, !RouteEnv, !RedisScan, !JsDate, !PlacementStrategy, !EvictionStrategy}.
Context (JSON_parse : string → option json) (keyPrefix cwd weightsDir : string) (config : EvictionConfig).
Context (sleepTimeoutMs wakeTimeoutMs deployTimeoutMs healthCheckIntervalMs staleAfterSecs graceMs : Z).
Context (startupLogs notifications : bool) (share : Z → Z → Z).
Notation balanced := (preserves same_claims).

Lemma balanced_transition name id to u : balanced (transition keyPrefix name id to u).
Proof. unfold transition. solve_preserves. Qed.
Lemma balanced_refresh name : balanced (refreshModelRoutingState keyPrefix name).
Proof. apply (refresh_preserves _ _ any_event); auto with preserves. Qed.
Hint Resolve balanced_transition balanced_refresh : preserves.
Lemma balanced_call c name id : balanced (run_call keyPrefix sleepTimeoutMs wakeTimeoutMs healthCheckIntervalMs c name id).
Proof. apply (run_call_preserves _ _ _ _ _ any_event); auto with preserves. Qed.
Lemma balanced_teardown name id client context :
  balanced (teardownInstance keyPrefix sleepTimeoutMs healthCheckIntervalMs name id client context).
Proof.
  pose proof (balanced_call (CStop client) name id) as Hstop. simpl in Hstop.
  assert (∀ s, balanced (resolve_runner id s)) by (intros; unfold resolve_runner, getWorkerNow; solve_preserves).
  assert (∀ s r, balanced (reap_runner s r)).
  { intros s r. unfold reap_runner. destruct (_ && _); [|apply (preserves_ret _ any_event)].
    apply (preserves_bind _ any_event); [unfold getWorkerNow; solve_preserves|]. intros worker.
    destruct (_ && _); [apply (preserves_throw _ any_event)|]. apply (preserves_attempt _ any_event); [solve_preserves|].
    intros e. repeat case_match; first [apply (preserves_ret _ any_event)|apply (preserves_throw _ any_event)]. }
  unfold teardownInstance, teardown_steps, getInstance, removeInstance, side_call. solve_preserves.
Qed.
Hint Resolve balanced_teardown : preserves.
Lemma balanced_deployModel p : balanced (deployModel keyPrefix deployTimeoutMs healthCheckIntervalMs startupLogs p).
Proof. apply (deployModel_preserves _ _ _ _ _ _ any_event); auto with preserves. Qed.
Lemma balanced_memory : balanced (memory_step JSON_parse keyPrefix).
Proof. unfold memory_step, read_call, side_call. solve_preserves. Qed.
Lemma balanced_allowed name options : balanced (assertLaunchAllowed name options).
Proof. unfold assertLaunchAllowed, claimed. solve_preserves. Qed.
Lemma balanced_occupy name id req res : balanced (occupy keyPrefix share name id req res).
Proof. unfold occupy, side_call. solve_preserves. Qed.
Lemma balanced_choose p r t : balanced (choose_victims keyPrefix config p r t).
Proof.
  assert (∀ a b c d e, balanced (select_now config a b c d e)).
  { intros a b c d e w. unfold select_now. destruct (selectVictims _ _ _ _ _ _ _ _). apply services_evictions. }
  unfold choose_victims, getAllInstances, getStatesForPattern, getLastInferenceTimestamps, all_records. solve_preserves.
Qed.
Lemma balanced_evict context v : balanced (evict keyPrefix sleepTimeoutMs healthCheckIntervalMs context v).
Proof. unfold evict, getInstance. solve_preserves. Qed.
Hint Resolve balanced_deployModel balanced_memory balanced_allowed balanced_occupy balanced_choose balanced_evict : preserves.

Lemma balanced_reclaim record id options protocol req workers victims :
  balanced (reclaim JSON_parse keyPrefix sleepTimeoutMs deployTimeoutMs healthCheckIntervalMs staleAfterSecs startupLogs notifications
              share record id options protocol req workers victims).
Proof.
  assert (∀ p, balanced (deployment keyPrefix deployTimeoutMs healthCheckIntervalMs startupLogs p)) by apply balanced_deployModel.
  unfold reclaim, reclaim_steps, getBudgets, claimed, releaseHolds, notify. solve_preserves.
Qed.
Lemma balanced_launch record id options :
  balanced (deployFromRecord JSON_parse keyPrefix cwd weightsDir config sleepTimeoutMs deployTimeoutMs
    healthCheckIntervalMs staleAfterSecs startupLogs notifications share record id options).
Proof.
  assert (balanced (assertMoveStillOwned keyPrefix (mr_name record) options)).
  { unfold assertMoveStillOwned, getMoveOperation. solve_preserves. }
  assert (∀ p req res, balanced (launch_placed keyPrefix deployTimeoutMs healthCheckIntervalMs startupLogs share record id options p req res)).
  { intros. unfold launch_placed, claimed, side_call. solve_preserves. }
  assert (∀ p req ws, balanced (launch_evicting JSON_parse keyPrefix config sleepTimeoutMs deployTimeoutMs healthCheckIntervalMs
    staleAfterSecs startupLogs notifications share record id options p req ws)).
  { intros. unfold launch_evicting. solve_preserves. }
  assert (∀ p m, balanced (launch_recorded JSON_parse keyPrefix config sleepTimeoutMs deployTimeoutMs healthCheckIntervalMs
    staleAfterSecs startupLogs notifications share record id options p m)).
  { intros. unfold launch_recorded, getBudgets. apply (preserves_bind _ any_event); [solve_preserves|]. intros _.
    apply (preserves_bind _ any_event); [solve_preserves|]. intros ws. apply (preserves_bind _ any_event); [solve_preserves|]. intros bs.
    cbn zeta. destruct (match fixedPlacement options with Some _ => _ | None => _ end); [done|]. destruct (fixedPlacement options); [solve_preserves|done]. }
  assert (∀ p, balanced (createInstance keyPrefix (mr_name record) id None p)) by (intros; unfold createInstance; solve_preserves).
  assert (∀ p, balanced (assertModelNameRoutableForProtocol (mr_name record) p)).
  { intros. unfold assertModelNameRoutableForProtocol. solve_preserves. }
  assert (balanced (resolveRunnerProtocol (mr_runnerType record))) by (unfold resolveRunnerProtocol; solve_preserves).
  assert (balanced (removeInstance keyPrefix (mr_name record) id)) by (unfold removeInstance; solve_preserves).
  assert (balanced (releaseHolds id)) by (unfold releaseHolds; solve_preserves).
  unfold deployFromRecord. solve_preserves.
Qed.
End services.

(** *** The detached tasks end *)
Section tasks_end.
Context `{!Env, !ReconEnv, !RouteEnv, !RedisScan, !JsDate, !PlacementStrategy, !EvictionStrategy}.
Context (JSON_parse : string → option json) (keyPrefix cwd weightsDir : string) (config : EvictionConfig).
Context (sleepTimeoutMs wakeTimeoutMs deployTimeoutMs healthCheckIntervalMs staleAfterSecs graceMs : Z).
Context (startupLogs notifications : bool) (share : Z → Z → Z) (Hinterval : (0 < healthCheckIntervalMs)%Z).
Notation launch := (deployFromRecord JSON_parse keyPrefix cwd weightsDir config sleepTimeoutMs deployTimeoutMs
  healthCheckIntervalMs staleAfterSecs startupLogs notifications share).

Lemma tear_down_total name id client context :
  total (teardownInstance keyPrefix sleepTimeoutMs healthCheckIntervalMs name id client context).
Proof.
  pose proof (run_call_total keyPrefix sleepTimeoutMs 0 healthCheckIntervalMs (CStop client) name id Hinterval) as Hstop.
  simpl in Hstop. pose proof (refresh_total keyPrefix name). pose proof (resolve_runner_total id). pose proof (reap_runner_total).
  unfold teardownInstance, teardown_steps, getInstance, removeInstance, side_call. solve_total.
Qed.
Lemma call_total c name id : total (run_call keyPrefix sleepTimeoutMs wakeTimeoutMs healthCheckIntervalMs c name id).
Proof. by apply run_call_total. Qed.
Lemma deployment_total p : total (deployment keyPrefix deployTimeoutMs healthCheckIntervalMs startupLogs p).
Proof. intros w. by apply deploy_finishes. Qed.
Lemma evict_total context v : total (evict keyPrefix sleepTimeoutMs healthCheckIntervalMs context v).
Proof. pose proof tear_down_total. unfold evict, getInstance. solve_total. Qed.
Hint Resolve tear_down_total deployment_total evict_total refresh_total : total.

Lemma reclaim_total record id options protocol req workers victims :
  total (reclaim JSON_parse keyPrefix sleepTimeoutMs deployTimeoutMs healthCheckIntervalMs staleAfterSecs startupLogs notifications
           share record id options protocol req workers victims).
Proof.
  pose proof (memory_step_total JSON_parse keyPrefix). pose proof (occupy_total keyPrefix share record id).
  assert (total (assertLaunchAllowed (mr_name record) options)) by (unfold assertLaunchAllowed, claimed; solve_total).
  unfold reclaim, reclaim_steps, getBudgets, claimed, releaseHolds, notify. solve_total.
Qed.
Lemma launch_total record id options : total (launch record id options).
Proof.
  pose proof (launch_recorded_total JSON_parse keyPrefix config sleepTimeoutMs deployTimeoutMs healthCheckIntervalMs staleAfterSecs
    startupLogs notifications share record id options).
  assert (total (assertLaunchAllowed (mr_name record) options)) by (unfold assertLaunchAllowed, claimed; solve_total).
  unfold deployFromRecord, resolveRunnerProtocol, assertModelNameRoutableForProtocol, createInstance, removeInstance, releaseHolds.
  apply total_bind; [solve_total|]. intros _. destruct (negb _); [solve_total|]. destruct (mr_requiredMemory record); [|solve_total].
  destruct (Z.leb _ _); [solve_total|]. apply total_bind; [apply total_http; by intros []|]. intros protocol.
  assert (∀ e, e ≠ OutOfFuel → total (throw (A := unit) e)) by (intros; by apply total_throw).
  apply total_bind; [solve_total|]. intros _. apply total_bind; [|intros _]; apply total_attempt; try done; intros; solve_total.
Qed.

(** The task of a launch that was admitted. *)
Lemma launch_task_total record id options w la w' : launch record id options w = (inr la, w') → total (la_deployment la).
Proof.
  intros (_ & memory & protocol & w1 & _ & _ & Hrun)%launch_returned.
  apply recorded_returned in Hrun as [(req & res & w2 & Hrun)|(req & ws & w2 & (vs & _ & ->)%evicting_returned)]; [|apply reclaim_total].
  unfold launch_placed in Hrun. apply bind_returned in Hrun as ([] & w3 & _ & Hrun).
  apply bind_returned in Hrun as (deleting & w4 & _ & Hrun). destruct deleting; [by apply bind_returned in Hrun as (? & ? & _ & ?)|].
  apply bind_returned in Hrun as ([] & w5 & _ & Hrun). apply bind_returned in Hrun as ([] & w6 & _ & [= <- _]). apply deployment_total.
Qed.
Lemma launch_task_balanced `{!QuietClaims} record id options w la w' :
  launch record id options w = (inr la, w') → preserves same_claims (la_deployment la).
Proof.
  intros (_ & memory & protocol & w1 & _ & _ & Hrun)%launch_returned.
  apply recorded_returned in Hrun as [(req & res & w2 & Hrun)|(req & ws & w2 & (vs & _ & ->)%evicting_returned)]; [|apply balanced_reclaim; exact wakeTimeoutMs].
  unfold launch_placed in Hrun. apply bind_returned in Hrun as ([] & w3 & _ & Hrun).
  apply bind_returned in Hrun as (deleting & w4 & _ & Hrun). destruct deleting; [by apply bind_returned in Hrun as (? & ? & _ & ?)|].
  apply bind_returned in Hrun as ([] & w5 & _ & Hrun). apply bind_returned in Hrun as ([] & w6 & _ & [= <- _]). apply balanced_deployModel.
Qed.
End tasks_end.

(** *** The claims at the end of a request and its tasks *)

(** Run from [w0], [h] and the tasks it leaves end with the claims of [w]. *)
Definition settles (h : Handler) (w w0 : World) : Prop :=
  wp h (λ o w1, same_claims w (oc_task o w1).2) (λ _ w1, same_claims w w1) w0.

Section settles.
Context `{!Env, !QuietClaims}.
Notation balanced := (preserves same_claims).

Lemma same_claims_trans w1 w2 w3 : same_claims w1 w2 → same_claims w2 w3 → same_claims w1 w3.
Proof. intros H12 H23 k. by rewrite H23. Qed.

Lemma settles_bind {A} (m : Svc A) (k : A → Handler) w w0 :
  balanced m → same_claims w w0 → (∀ a w1, same_claims w w1 → m w0 = (inr a, w1) → settles (k a) w w1) → settles (m ≫= k) w w0.
Proof.
  intros Hm Hs Hk. apply wp_bind. unfold wp. specialize (Hm w0).
  destruct (m w0) as [[e|a] w1] eqn:Hrun; [by eapply same_claims_trans|]. apply Hk; [by eapply same_claims_trans|done].
Qed.
Lemma settles_throw e w w0 : same_claims w w0 → settles (throw e) w w0.
Proof. done. Qed.
Lemma settles_answer r task w w0 : same_claims w (task w0).2 → settles (answer r task) w w0.
Proof. done. Qed.
Lemma settles_done r w w0 : same_claims w w0 → settles (answer r (mret tt)) w w0.
Proof. done. Qed.
Lemma settles_leader h w : (same_claims w w → settles h w w) → settles (leader_only h) w w.
Proof.
  intros Hh. assert (same_claims w w) as Hw by (by intros k). apply settles_bind; [|done|]; [unfold isLeader; solve_preserves|].
  intros [] w1 Hs Hrun; injection Hrun as _ <-; [by apply Hh|done].
Qed.

(** Checking a claim, taking it, and the ways it is given back. *)
Section claimed.
Context (k : claim_kind) (key : string).

Lemma settles_not_claimed action detail (h : Handler) w w0 :
  same_claims w w0 → (key ∉ l_claims (w_local w) k → settles h w w0) → settles (assert_not_claimed k key action detail ;; h) w w0.
Proof.
  intros Hs Hh. apply settles_bind; [|done|]; [unfold assert_not_claimed, claimed, in_progress; solve_preserves|].
  intros [] w1 Hs1 Hrun. unfold assert_not_claimed, claimed, mbind, M_bind, gets, in_progress in Hrun. cbn beta iota in Hrun.
  case_bool_decide as Hin; [done|]. injection Hrun as <-. apply Hh. by rewrite <- Hs.
Qed.
Lemma settles_claim (h : Handler) w w0 :
  same_claims w w0 → (∀ w1, with_claim k key w w1 → settles h w w1) → settles (claim k key ;; h) w w0.
Proof. intros Hs Hh. apply wp_bind, wp_modify, Hh. eapply same_with_claim; [done|]. apply claim_with. Qed.

Context (w : World) (Hfree : key ∉ l_claims (w_local w) k).

Lemma settles_note t d (h : Handler) w0 :
  with_claim k key w w0 → (∀ w1, with_claim k key w w1 → settles h w w1) → settles (note t d ;; h) w w0.
Proof. intros Hw Hh. apply wp_bind, wp_modify, Hh. intros k'. apply Hw. Qed.
Lemma settles_finally (m : Svc unit) (h : Handler) w0 :
  balanced m → with_claim k key w w0 → (∀ w1, same_claims w w1 → settles h w w1) → settles (finally m (unclaim k key) ;; h) w w0.
Proof.
  intros Hm Hw Hh. apply wp_bind. unfold wp, finally. specialize (Hm w0). destruct (m w0) as [[e|[]] w1]; simpl in *.
  - eapply unclaim_with; [|done]. by eapply with_claim_same.
  - apply Hh. eapply unclaim_with; [|done]. by eapply with_claim_same.
Qed.
(** A [catch] that gives the claim back and throws on. *)
Definition gives_back {A} (h : Exn → Svc A) : Prop :=
  ∀ e w1, with_claim k key w w1 → ∃ e' w2, h e w1 = (inl e', w2) ∧ same_claims w w2.
Lemma gives_back_plain {A} : gives_back (A := A) (λ e, unclaim k key ;; throw e).
Proof. intros e w1 Hw. eexists _, _. split; [done|]. by apply (unclaim_with k key). Qed.
Lemma gives_back_cleanup {A} (cleanup : Svc unit) : balanced cleanup → gives_back (A := A) (λ e, unclaim k key ;; cleanup ;; throw e).
Proof.
  intros Hc e w1 Hw. pose proof (unclaim_with k key w w1 Hw Hfree) as Hu. specialize (Hc (unclaim k key w1).2).
  unfold mbind, M_bind, unclaim, modify in *. cbn [fst snd] in *.
  destruct (cleanup _) as [[e'|[]] w2]; cbn [snd] in Hc; eexists _, _; (split; [done|]); by eapply same_claims_trans.
Qed.
Lemma settles_attempt {A} (m : Svc A) (c : Exn → Svc A) (h : A → Handler) w0 :
  gives_back c → balanced m → total m → with_claim k key w w0 →
  (∀ a w1, with_claim k key w w1 → m w0 = (inr a, w1) → settles (h a) w w1) →
  settles (attempt m c ≫= h) w w0.
Proof.
  intros Hc Hm Ht Hw Hh. apply wp_bind. unfold wp, attempt, catch. specialize (Hm w0). specialize (Ht w0).
  destruct (m w0) as [[e|a] w1] eqn:Hrun; simpl in *; [|by apply Hh; [eapply with_claim_same|]].
  rewrite decide_False by congruence. destruct (Hc e w1) as (e' & w2 & -> & Hs); [by eapply with_claim_same|done].
Qed.
(** The same when the answer is inside the [try]. *)
Lemma settles_attempt_answer {A} (m : Svc A) (r : A → Reply) (t : A → Svc unit) (c : Exn → Handler) w0 :
  gives_back c → balanced m → total m → with_claim k key w w0 →
  (∀ a w1, with_claim k key w w1 → m w0 = (inr a, w1) → same_claims w (t a w1).2) →
  settles (attempt (a ← m; answer (r a) (t a)) c) w w0.
Proof.
  intros Hc Hm Ht Hw Hh. unfold settles, wp, attempt, catch, mbind, M_bind. specialize (Hm w0). specialize (Ht w0).
  destruct (m w0) as [[e|a] w1] eqn:Hrun; simpl in *; [|by apply Hh; [eapply with_claim_same|]].
  rewrite decide_False by congruence. destruct (Hc e w1) as (e' & w2 & -> & Hs); [by eapply with_claim_same|done].
Qed.
Lemma task_finally (m : Svc unit) w0 : balanced m → with_claim k key w w0 → same_claims w (finally m (unclaim k key) w0).2.
Proof.
  intros Hm Hw. unfold finally. specialize (Hm w0). destruct (m w0) as [r w1]; simpl in *.
  eapply unclaim_with; [|done]. by eapply with_claim_same.
Qed.
Lemma task_then (m : Svc unit) w0 : balanced m → returns m → with_claim k key w w0 → same_claims w ((m ;; unclaim k key) w0).2.
Proof.
  intros Hm Hr Hw. unfold mbind, M_bind. specialize (Hm w0). destruct (Hr w0) as [[] Ha].
  destruct (m w0) as [r w1]; simpl in *; subst r. eapply unclaim_with; [|done]. by eapply with_claim_same.
Qed.
End claimed.

End settles.

Section balance.
Context `{!Env, !QuietClaims, !ReconEnv, !RouteEnv, !RedisScan, !JsDate, !PlacementStrategy, !EvictionStrategy}.
Context (JSON_parse : string → option json) (keyPrefix cwd weightsDir : string) (config : EvictionConfig).
Context (sleepTimeoutMs wakeTimeoutMs deployTimeoutMs healthCheckIntervalMs staleAfterSecs graceMs : Z).
Context (startupLogs notifications : bool) (share : Z → Z → Z) (Hinterval : (0 < healthCheckIntervalMs)%Z).
Notation balanced := (preserves same_claims).
Notation handle := (handle JSON_parse keyPrefix cwd weightsDir config sleepTimeoutMs wakeTimeoutMs deployTimeoutMs
  healthCheckIntervalMs staleAfterSecs graceMs startupLogs notifications share).
Notation launch := (deployFromRecord JSON_parse keyPrefix cwd weightsDir config sleepTimeoutMs deployTimeoutMs
  healthCheckIntervalMs staleAfterSecs startupLogs notifications share).

Lemma route_noMove name action : balanced (assertNoMove keyPrefix name action).
Proof. unfold assertNoMove, getMoveOperation, claimed, in_progress. solve_preserves. Qed.
Lemma route_clearMove name force : balanced (clearMoveForDelete keyPrefix name force).
Proof. unfold clearMoveForDelete, getMoveOperation, removeMoveOperation, claimed, in_progress. solve_preserves. Qed.
Lemma route_busy name : balanced (model_busy name).
Proof. unfold model_busy, claimed, hasInstanceOperation. solve_preserves. Qed.
Lemma route_admission name : balanced (assertMoveAdmission keyPrefix name).
Proof. pose proof route_noMove. pose proof route_busy. unfold assertMoveAdmission, in_progress. solve_preserves. Qed.
Lemma route_find name : balanced (find_model name).
Proof. unfold find_model. solve_preserves. Qed.
Lemma route_instances name : balanced (getInstancesForModel keyPrefix name).
Proof. unfold getInstancesForModel, getStatesForPattern. solve_preserves. Qed.
Lemma route_getInstance name id : balanced (getInstance keyPrefix name id).
Proof. unfold getInstance. solve_preserves. Qed.
Lemma route_name name : balanced (assertValidModelName name).
Proof. unfold assertValidModelName. solve_preserves. Qed.
Lemma route_delete name : balanced (delete_model name).
Proof. unfold delete_model, side_call. solve_preserves. Qed.
Lemma route_removeModel name : balanced (removeModel name).
Proof. unfold removeModel. solve_preserves. Qed.
Lemma route_mint : balanced mintInstanceId.
Proof. unfold mintInstanceId. solve_preserves. Qed.
Lemma route_instance_operation name xs : balanced (assert_no_instance_operation name xs).
Proof. unfold assert_no_instance_operation, busy_instance, in_progress. solve_preserves. Qed.
Lemma route_endpoints name xs : balanced (assert_endpoints name xs).
Proof. unfold assert_endpoints, no_endpoint. solve_preserves. Qed.
Lemma route_decides {A} (m : Svc A) P : decides m P → balanced m.
Proof. intros Hm w k. destruct (Hm w) as [(a & -> & _)|(_ & msg & ->)]; done. Qed.
Lemma promise_all_balanced {A} (xs : list A) (f : A → Svc unit) : (∀ x, balanced (f x)) → balanced (promise_all xs f).
Proof.
  intros Hf. induction xs as [|x xs IH]; simpl; [apply (preserves_ret _ any_event)|].
  apply (preserves_bind _ any_event); [solve_preserves|]. intros failed. solve_preserves.
Qed.
Lemma route_calls c name id : balanced (run_call keyPrefix sleepTimeoutMs wakeTimeoutMs healthCheckIntervalMs c name id).
Proof. apply balanced_call. Qed.
Hint Resolve route_noMove route_clearMove route_busy route_admission route_find route_instances route_getInstance route_name
  route_delete route_removeModel route_mint route_instance_operation route_endpoints : preserves.


Ltac step := apply settles_bind; [solve_preserves|assumption|let a := fresh "a" in let w1 := fresh "w" in
  let Hs := fresh "Hs" in intros a w1 Hs _].

Lemma delete_forced_settles name xs w w0 : same_claims w w0 → settles (delete_forced keyPrefix name xs) w w0.
Proof.
  intros Hs. unfold delete_forced. apply settles_not_claimed; [done|]. intros Hfree.
  apply settles_not_claimed; [done|]. intros _. step. apply settles_claim; [done|]. intros w2 Hw.
  apply (settles_finally _ _ _ Hfree); [|done|by intros; apply settles_done].
  assert (balanced (promise_all xs (λ i, removeInstance keyPrefix name (instanceId i)))).
  { apply promise_all_balanced. intros i. unfold removeInstance. solve_preserves. }
  unfold releaseHolds. solve_preserves.
Qed.
Lemma delete_record_settles name w w0 : same_claims w w0 → settles (delete_record keyPrefix name) w w0.
Proof.
  intros Hs. unfold delete_record. apply settles_not_claimed; [done|]. intros Hfree.
  apply settles_claim; [done|]. intros w2 Hw. apply (settles_finally _ _ _ Hfree); [solve_preserves|done|by intros; apply settles_done].
Qed.
Lemma delete_task_balanced name xs w w0 :
  name ∉ l_claims (w_local w) deletingInFlight → with_claim deletingInFlight name w w0 →
  same_claims w (delete_task keyPrefix sleepTimeoutMs healthCheckIntervalMs name xs w0).2.
Proof.
  intros Hfree Hw. apply task_finally; [done| |done].
  assert (balanced (mapM (λ i, getInstance keyPrefix name (instanceId i)) xs)) as Hm.
  { induction xs as [|i xs IH]; simpl; [apply (preserves_ret _ any_event)|]. solve_preserves. }
  pose proof (balanced_teardown keyPrefix sleepTimeoutMs wakeTimeoutMs healthCheckIntervalMs). solve_preserves.
Qed.
Lemma delete_gracefully_settles name xs w w0 :
  same_claims w w0 → settles (delete_gracefully keyPrefix sleepTimeoutMs healthCheckIntervalMs name xs) w w0.
Proof.
  intros Hs. unfold delete_gracefully. destruct (List.find _ xs); [by apply settles_throw|].
  apply settles_not_claimed; [done|]. intros Hfree. apply settles_not_claimed; [done|]. intros _. step.
  apply settles_claim; [done|]. intros w2 Hw. eapply settles_attempt; [by apply gives_back_plain|solve_preserves| |done|].
  { unfold clearMoveForDelete, getMoveOperation, removeMoveOperation, claimed, in_progress. solve_total. }
  intros [] w3 Hw3 _. eapply settles_note; [done|]. intros w4 Hw4. apply settles_answer. by apply delete_task_balanced.
Qed.
Lemma delete_settles name force w : settles (handle (DeleteModel name force)) w w.
Proof.
  apply settles_leader. intros Hw. step. step. step. destruct (_ && _); [by apply settles_throw|].
  apply settles_not_claimed; [done|]. intros _. destruct force; [by apply delete_forced_settles|].
  case_bool_decide; [by apply delete_record_settles|by apply delete_gracefully_settles].
Qed.

Lemma put_settles name body w : settles (handle (PutModel name body)) w w.
Proof.
  apply settles_leader. intros Hw. step. step. step. step. destruct (negb (bool_decide (is_Some _))); [by apply settles_throw|].
  destruct (negb _); [by apply settles_throw|]. apply settles_bind; [solve_preserves|done|]. intros busy w5 Hs5 Hrun.
  destruct busy; [by apply settles_throw|].
  assert (name ∉ l_claims (w_local w) configurationUpdateInFlight) as Hfree.
  { rewrite <- Hs5. unfold model_busy, claimed, hasInstanceOperation, mbind, M_bind, gets in Hrun. cbn beta iota in Hrun.
    injection Hrun as Hb <-. rewrite !orb_false_iff, !bool_decide_eq_false in Hb. tauto. }
  apply settles_bind; [eapply route_decides, validate_update_exact|done|]. intros params w6 Hs6 _.
  apply settles_claim; [done|]. intros w7 Hw7. apply (settles_finally _ _ _ Hfree); [|done|by intros; apply settles_done].
  unfold update_model. solve_preserves.
Qed.

Lemma stop_settles name force w : settles (handle (PostStop name force)) w w.
Proof.
  apply settles_leader. intros Hw. step. step. step. case_bool_decide; [by apply settles_throw|]. destruct force.
  - unfold stop_forced. apply settles_not_claimed; [done|]. intros Hfree. apply settles_claim; [done|]. intros w4 Hw4.
    apply (settles_finally _ _ _ Hfree); [|done|by intros; apply settles_done].
    apply (preserves_bind _ any_event); [|solve_preserves]. apply promise_all_balanced. intros i.
    unfold removeInstance, side_call, releaseHolds. solve_preserves.
  - unfold stop_gracefully. cbn zeta. case_bool_decide; [by apply settles_throw|].
    apply settles_bind; [unfold claimed; solve_preserves|done|]. intros b w4 Hs4 _. destruct b; [by apply settles_throw|]. step.
    apply settles_bind; [unfold claimed; solve_preserves|done|]. intros b w6 Hs6 Hrun. destruct b; [by apply settles_throw|].
    assert (name ∉ l_claims (w_local w) stoppingInFlight) as Hfree.
    { rewrite <- Hs6. unfold claimed, gets in Hrun. injection Hrun as Hb <-. by rewrite bool_decide_eq_false in Hb. }
    apply settles_claim; [done|]. intros w7 Hw7. eapply settles_note; [done|]. intros w8 Hw8. apply settles_answer.
    apply task_finally; [done| |done]. pose proof (balanced_teardown keyPrefix sleepTimeoutMs wakeTimeoutMs healthCheckIntervalMs). solve_preserves.
Qed.

Lemma refresh_ends name : total (refreshModelRoutingState keyPrefix name).
Proof. apply refresh_total. Qed.
Lemma route_transition name id to u : balanced (transition keyPrefix name id to u).
Proof. unfold transition. solve_preserves. Qed.
Lemma route_refresh name : balanced (refreshModelRoutingState keyPrefix name).
Proof. apply balanced_refresh. Qed.
Hint Resolve route_transition route_refresh : preserves.
Hint Resolve refresh_ends : total.

Lemma sleep_settles name w : settles (handle (PostSleep name)) w w.
Proof.
  apply settles_leader. intros Hw. step. step. step. case_bool_decide; [by apply settles_throw|]. cbn zeta.
  case_bool_decide; [by apply settles_throw|]. step. step. apply settles_not_claimed; [done|]. intros Hfree.
  apply settles_claim; [done|]. intros w6 Hw6. eapply settles_attempt; [by apply gives_back_plain|solve_preserves|solve_total|done|].
  intros [] w7 Hw7 _. eapply settles_note; [done|]. intros w8 Hw8. apply settles_answer. apply task_then; [done| | |done].
  - apply (preserves_for_each _ any_event). intros i. apply (preserves_swallow _ any_event). apply (route_calls CSleep).
  - pose proof (λ n i, call_total keyPrefix sleepTimeoutMs wakeTimeoutMs healthCheckIntervalMs Hinterval CSleep n i) as Ht. simpl in Ht.
    generalize (List.filter (λ i, bool_decide (state i = ModelLifecycleState.ACTIVE)) a1). intros xs.
    induction xs as [|i xs IH]; simpl; [apply returns_ret|]. apply returns_bind; [by apply returns_swallow|]. intros _. apply IH.
Qed.

Lemma launch_claimed_settles record name previous w w0 :
  same_claims w w0 → name ∉ l_claims (w_local w) launchingInFlight →
  settles (launch_claimed JSON_parse keyPrefix cwd weightsDir config sleepTimeoutMs deployTimeoutMs healthCheckIntervalMs
             staleAfterSecs startupLogs notifications share record name previous) w w0.
Proof.
  intros Hs Hfree. unfold launch_claimed. step. apply settles_claim; [done|]. intros w2 Hw2.
  eapply settles_attempt_answer; [by apply gives_back_plain| | |done|].
  - by apply balanced_launch.
  - by apply launch_total.
  - intros la w3 Hw3 Hrun. apply task_then; [done| | |done].
    + apply (preserves_swallow _ any_event). by eapply launch_task_balanced.
    + apply returns_swallow. by eapply launch_task_total.
Qed.
Lemma post_instance_settles name w :
  name ∉ l_claims (w_local w) launchingInFlight → settles (handle (PostInstance name)) w w.
Proof.
  intros Hfree. apply settles_leader. intros Hw. step. step. destruct a0 as [record|]; [|by apply settles_throw]. step.
  by apply launch_claimed_settles.
Qed.
Lemma post_start_settles name w :
  name ∉ l_claims (w_local w) launchingInFlight → settles (handle (PostStart name)) w w.
Proof.
  intros Hfree. apply settles_leader. intros Hw. step. step. step. destruct a1 as [record|]; [|by apply settles_throw].
  destruct (negb _); [by apply settles_throw|]. step. by apply launch_claimed_settles.
Qed.
Lemma post_model_settles body w : settles (handle (PostModel body)) w w.
Proof.
  apply settles_leader. intros Hw. apply settles_bind; [eapply route_decides, validate_deploy_exact|done|]. intros params w1 Hs1 _.
  apply settles_bind; [|done|].
  { apply (preserves_attempt _ any_event); [unfold create_model; solve_preserves|]. intros e. solve_preserves. }
  intros record w2 Hs2 _. step. unfold settles, wp, attempt, catch, mbind, M_bind.
  assert (balanced (launch record a no_options)) as Hb by apply balanced_launch. specialize (Hb w0).
  destruct (launch record a no_options w0) as [[e|la] w3] eqn:Hrun; cbn [snd fst] in *.
  - case_decide; [by eapply same_claims_trans|]. assert (balanced (swallow (delete_model (mr_name record)))) as Hd by solve_preserves.
    specialize (Hd w3). destruct (swallow _ w3) as [[e'|[]] w4]; simpl in *; by do 2 (eapply same_claims_trans; [done|]).
  - simpl. assert (balanced (swallow (la_deployment la))) as Hd.
    { apply (preserves_swallow _ any_event). by eapply launch_task_balanced. }
    do 2 (eapply same_claims_trans; [done|]). apply Hd.
Qed.

(** A claim that [assertNoMove], and so the admission of a move, has seen free. *)
Lemma admission_free name w0 u w1 :
  assertMoveAdmission keyPrefix name w0 = (inr u, w1) → name ∉ l_claims (w_local w1) movingInFlight.
Proof.
  unfold assertMoveAdmission. intros ([] & w2 & Hno & Hrun)%bind_returned.
  assert (name ∉ l_claims (w_local w2) movingInFlight) as Hn.
  { unfold assertNoMove, getMoveOperation in Hno. apply bind_returned in Hno as (o & w3 & _ & Hno).
    unfold claimed, mbind, M_bind, gets, in_progress in Hno. cbn beta iota in Hno. case_bool_decide as Hc; simpl in Hno; [done|].
    destruct (bool_decide (is_Some o)); [done|]. by injection Hno as <-. }
  apply bind_returned in Hrun as (busy & w3 & Hb & Hrun). destruct busy; [done|]. injection Hrun as _ <-.
  unfold model_busy, claimed, hasInstanceOperation, mbind, M_bind, gets in Hb. cbn beta iota in Hb. by injection Hb as _ <-.
Qed.
Lemma run_move_settles name opId (deployment : Svc unit) w w0 :
  balanced deployment → name ∉ l_claims (w_local w) movingInFlight → with_claim movingInFlight name w w0 →
  same_claims w (run_move keyPrefix sleepTimeoutMs healthCheckIntervalMs graceMs startupLogs notifications name opId deployment w0).2.
Proof.
  intros Hd Hfree Hw. unfold run_move.
  set (m := attempt _ _). assert (balanced m) as Hm.
  { unfold m, isLeader, updateMoveOperation. solve_preserves. }
  assert (same_claims w (finally m (resume keyPrefix sleepTimeoutMs healthCheckIntervalMs graceMs startupLogs notifications name ;;
            unclaim movingInFlight name) w0).2) as Hf.
  { unfold finally. specialize (Hm w0). destruct (m w0) as [r w1]. simpl in Hm.
    assert (same_claims w ((resume keyPrefix sleepTimeoutMs healthCheckIntervalMs graceMs startupLogs notifications name ;;
              unclaim movingInFlight name) w1).2) as Ht.
    { apply task_then; [done| | |by eapply with_claim_same]; [by apply (resume_preserves _ _ _ _ _ _ _ any_event)|by apply resume_ends]. }
    by destruct ((resume _ _ _ _ _ _ _ ;; _) w1) as [[e|[]] w2]. }
  unfold swallow, attempt, catch. destruct (finally _ _ w0) as [[e|[]] w1]; simpl in *; [|done]. by case_decide.
Qed.
Lemma move_settles name id body w : settles (handle (PostMove name id body)) w w.
Proof.
  apply settles_leader. intros Hw. step. apply settles_bind; [|done|].
  { unfold validate_move, reject. solve_preserves. }
  intros [worker indices] w1 Hs1 _. step. step. step. destruct a1 as [record|]; [|by apply settles_throw].
  destruct a2 as [source|]; [|by apply settles_throw]. step. apply settles_bind; [|done|].
  { unfold check_target, bad_state, getWorkerNow. solve_preserves. }
  intros [] w6 Hs6 _. apply settles_bind; [solve_preserves|done|]. intros [] w7 Hs7 Hfree%admission_free. rewrite Hs7 in Hfree.
  step. step. step. apply settles_bind; [unfold createMoveOperation; solve_preserves|done|]. intros created w11 Hs11 _.
  destruct created; simpl; [|by apply settles_throw]. apply settles_claim; [done|]. intros w12 Hw12.
  eapply settles_attempt_answer; [|by apply balanced_launch|by apply launch_total|done|].
  - apply gives_back_cleanup; [done|]. unfold removeMoveOperation. solve_preserves.
  - intros la w13 Hw13 Hrun. apply run_move_settles; [by eapply launch_task_balanced|done|done].
Qed.

Lemma claim_instance_settles name id action st (h : Handler) w w0 :
  same_claims w w0 →
  (∀ w1, instance_claim name id ∉ l_claims (w_local w) instanceOpInFlight →
         with_claim instanceOpInFlight (instance_claim name id) w w1 → settles h w w1) →
  settles (claim_instance name id action st ;; h) w w0.
Proof.
  intros Hs Hh. apply wp_bind. unfold claim_instance, claimed, mbind, M_bind, gets, wp. cbn beta iota.
  case_bool_decide as Hin; [done|]. apply Hh; [by rewrite <- Hs|]. eapply same_with_claim; [done|]. apply claim_with.
Qed.
Lemma begin_transition_settles name id to (h : Handler) w w0 :
  instance_claim name id ∉ l_claims (w_local w) instanceOpInFlight →
  with_claim instanceOpInFlight (instance_claim name id) w w0 →
  (∀ w1, with_claim instanceOpInFlight (instance_claim name id) w w1 → settles h w w1) →
  settles (begin_transition keyPrefix name id to ;; h) w w0.
Proof.
  intros Hfree Hw Hh. unfold begin_transition. eapply settles_attempt; [by apply gives_back_plain|solve_preserves|solve_total|done|].
  intros [] w1 Hw1 _. auto.
Qed.

Lemma delete_instance_settles name id w : settles (handle (DeleteInstance name id)) w w.
Proof.
  apply settles_leader. intros Hw. step. step. step. destruct a1 as [i|]; [|by apply settles_throw].
  destruct (TRANSIENT_FOR_DELETE _); [by apply settles_throw|]. step. apply claim_instance_settles; [done|]. intros w5 Hfree Hw5.
  eapply settles_note; [done|]. intros w6 Hw6. apply settles_answer, task_finally; [done| |done].
  pose proof (balanced_teardown keyPrefix sleepTimeoutMs wakeTimeoutMs healthCheckIntervalMs). solve_preserves.
Qed.
Lemma sleep_instance_settles name id w : settles (handle (SleepInstance name id)) w w.
Proof.
  apply settles_leader. intros Hw. step. step. step. destruct a1 as [i|]; [|by apply settles_throw].
  destruct (negb _); [by apply settles_throw|]. destruct (negb _); [by apply settles_throw|]. step.
  apply claim_instance_settles; [done|]. intros w5 Hfree Hw5. apply begin_transition_settles; [done..|]. intros w6 Hw6.
  eapply settles_note; [done|]. intros w7 Hw7. apply settles_answer, task_then; [done| | |done].
  - apply (preserves_swallow _ any_event). apply (route_calls CSleep).
  - apply returns_swallow. exact (call_total keyPrefix sleepTimeoutMs wakeTimeoutMs healthCheckIntervalMs Hinterval CSleep name id).
Qed.
Lemma wake_instance_settles name id w : settles (handle (WakeInstance name id)) w w.
Proof.
  apply settles_leader. intros Hw. step. step. step. destruct a1 as [i|]; [|by apply settles_throw].
  case_bool_decide; [by apply settles_done|].
  destruct (negb _); [by apply settles_throw|]. destruct (negb _); [by apply settles_throw|]. step.
  apply claim_instance_settles; [done|]. intros w5 Hfree Hw5. apply begin_transition_settles; [done..|]. intros w6 Hw6.
  eapply settles_note; [done|]. intros w7 Hw7. apply settles_answer, task_then; [done| | |done].
  - apply (preserves_swallow _ any_event). apply (route_calls CWake).
  - apply returns_swallow. exact (call_total keyPrefix sleepTimeoutMs wakeTimeoutMs healthCheckIntervalMs Hinterval CWake name id).
Qed.

(** Wake: when it answers. *)
Lemma claim_sleeping_balanced name xs : balanced (claim_sleeping keyPrefix name xs).
Proof.
  induction xs as [|i xs IH]; simpl; [apply (preserves_ret _ any_event)|]. apply (preserves_bind _ any_event); [solve_preserves|]. intros b.
  apply (preserves_bind _ any_event); [done|]. intros others. apply (preserves_ret _ any_event).
Qed.
Lemma wake_room_balanced name memory i :
  balanced (wake_room keyPrefix config sleepTimeoutMs healthCheckIntervalMs staleAfterSecs name memory i).
Proof.
  pose proof (balanced_choose keyPrefix config). pose proof (balanced_evict keyPrefix sleepTimeoutMs wakeTimeoutMs healthCheckIntervalMs).
  unfold wake_room. solve_preserves.
Qed.
Lemma wake_loop_run name memory xs started w0 failed tasks w1 :
  balanced started → returns started →
  wake_loop keyPrefix config sleepTimeoutMs wakeTimeoutMs healthCheckIntervalMs staleAfterSecs name memory xs started w0 = (inr (failed, tasks), w1) →
  same_claims w0 w1 ∧ balanced tasks ∧ returns tasks.
Proof.
  revert started w0. induction xs as [|i xs IH]; intros started w0 Hb Hr; simpl; [by intros [= <- <- <-]|].
  intros (r & w2 & Hroom & Hrun)%bind_returned.
  assert (balanced (attempt (wake_room keyPrefix config sleepTimeoutMs healthCheckIntervalMs staleAfterSecs name memory i ;; mret None)
    (λ e, mret (Some e)))) as Hbal.
  { pose proof wake_room_balanced. solve_preserves. }
  specialize (Hbal w0). rewrite Hroom in Hbal. simpl in Hbal. destruct r as [e|]; [by injection Hrun as <- <- <-|].
  apply IH in Hrun as (Hs & ? & ?); [split; [by eapply same_claims_trans|done]| |].
  - apply (preserves_bind _ any_event); [done|]. intros _. apply (preserves_swallow _ any_event), (route_calls CWake).
  - apply returns_bind; [done|]. intros _. apply returns_swallow.
    exact (call_total keyPrefix sleepTimeoutMs wakeTimeoutMs healthCheckIntervalMs Hinterval CWake name (instanceId i)).
Qed.

Lemma wake_claimed_settles name sleeping w w0 o w1 reply :
  name ∉ l_claims (w_local w) modelLifecycleInFlight → with_claim modelLifecycleInFlight name w w0 →
  wake_claimed keyPrefix config sleepTimeoutMs wakeTimeoutMs healthCheckIntervalMs staleAfterSecs name sleeping w0 = (inr o, w1) →
  oc_reply o = inr reply → same_claims w (oc_task o w1).2.
Proof.
  intros Hfree Hw (woken & w2 & Htake & Hrun)%bind_returned Ho.
  assert (with_claim modelLifecycleInFlight name w w2) as Hw2.
  { apply (attempt_returned _ _ _ _ _) in Htake; [|intros e w3 b w4 Hx; by apply bind_returned in Hx as (? & ? & _ & ?)].
    eapply with_claim_same; [done|].
    assert (balanced (c ← claim_sleeping keyPrefix name sleeping; refreshModelRoutingState keyPrefix name ;; mret c)) as Hb.
    { pose proof claim_sleeping_balanced. solve_preserves. }
    specialize (Hb w0). by rewrite Htake in Hb. }
  apply bind_returned in Hrun as ([] & w3 & [= <-] & Hrun). apply bind_returned in Hrun as (record & w4 & Hfind & Hrun).
  assert (with_claim modelLifecycleInFlight name w w4) as Hw4.
  { set (w2' := log_event _ w2) in Hfind. apply (with_claim_same _ _ _ w2'); [exact Hw2|].
    pose proof (route_find name w2') as Hf. by rewrite Hfind in Hf. }
  cbn zeta in Hrun. apply bind_returned in Hrun as ([failed tasks] & w5 & Hloop & Hrun).
  apply wake_loop_run in Hloop as (Hs & Hb & Hr); [|apply (preserves_ret _ any_event)|apply returns_ret].
  destruct failed as [e|]; [by injection Hrun as <- <-|]. injection Hrun as <- <-. simpl.
  apply task_then; [done..|]. by eapply with_claim_same.
Qed.
Lemma wake_settles name w o w1 reply :
  handle (PostWake name) w = (inr o, w1) → oc_reply o = inr reply → same_claims w (oc_task o w1).2.
Proof.
  intros Hrun Ho. simpl in Hrun. unfold post_wake, leader_only in Hrun. apply bind_returned in Hrun as (leader & w2 & [= <- <-] & Hrun).
  destruct (env_leader _); [|done].
  assert (∀ {A} (m : Svc A) w w0 a w1, balanced m → same_claims w w0 → m w0 = (inr a, w1) → same_claims w w1) as Hstep.
  { intros A m wa wb a wc Hm Hs Hr. eapply same_claims_trans; [done|]. specialize (Hm wb). by rewrite Hr in Hm. }
  assert (same_claims w w) as Hs by (by intros k).
  apply bind_returned in Hrun as ([] & w3 & Hr & Hrun). apply (Hstep _ _ w) in Hr; [|solve_preserves|done].
  apply bind_returned in Hrun as ([] & w4 & Hr4 & Hrun). apply (Hstep _ _ w) in Hr4; [|solve_preserves|done].
  apply bind_returned in Hrun as (xs & w5 & Hr5 & Hrun). apply (Hstep _ _ w) in Hr5; [|solve_preserves|done].
  case_bool_decide; [done|]. cbn zeta in Hrun. case_bool_decide.
  { case_bool_decide; simpl in Hrun; [done|]. injection Hrun as <- <-. exact Hr5. }
  apply bind_returned in Hrun as ([] & w6 & Hr6 & Hrun). apply (Hstep _ _ w) in Hr6; [|solve_preserves|done].
  apply bind_returned in Hrun as ([] & w7 & Hr7 & Hrun). apply (Hstep _ _ w) in Hr7; [|solve_preserves|done].
  apply bind_returned in Hrun as ([] & w8 & Hr8 & Hrun).
  unfold assert_not_claimed, claimed, mbind, M_bind, gets in Hr8. cbn beta iota in Hr8.
  case_bool_decide as Hin; [done|]. injection Hr8 as <-. rewrite Hr7 in Hin.
  apply bind_returned in Hrun as ([] & w9 & [= <-] & Hrun). eapply wake_claimed_settles; [exact Hin| |done|done].
  eapply same_with_claim; [exact Hr7|]. apply (claim_with modelLifecycleInFlight name w7).
Qed.

(** What a request must find: no launch of its model in flight (the launch claim has no
    owner), and for a wake, that it is answered. *)
Definition claims_wait (r : Request) (w : World) : Prop :=
  match r with
  | PostInstance name | PostStart name => name ∉ l_claims (w_local w) launchingInFlight
  | PostWake _ => ∃ o w1 reply, handle r w = (inr o, w1) ∧ oc_reply o = inr reply
  | _ => True
  end.

(** C9: requests give their claims back.  With a positive polling interval, and when no other
    request claims or releases meanwhile, the in-flight claims of the process are the same after
    a request and everything it left running as they were before it, however it ends and
    whatever Redis, the database, the workers and the runners do; so no failure can lock a
    model or an instance.  For a request that launches an instance this needs that no launch of
    the model was already in flight (the launch claim has no owner), and for a wake of a whole
    model that it is answered. *)
Theorem requests_give_claims_back r w :
  claims_wait r w →
  same_claims w (serve JSON_parse keyPrefix cwd weightsDir config sleepTimeoutMs wakeTimeoutMs deployTimeoutMs
    healthCheckIntervalMs staleAfterSecs graceMs startupLogs notifications share r w).2.
Proof.
  assert (∀ r, settles (handle r) w w → same_claims w (serve JSON_parse keyPrefix cwd weightsDir config sleepTimeoutMs wakeTimeoutMs
    deployTimeoutMs healthCheckIntervalMs staleAfterSecs graceMs startupLogs notifications share r w).2) as Hserve.
  { intros r0. unfold settles, wp, serve, mbind, M_bind. by destruct (handle r0 w) as [[e|o] w1]. }
  destruct r; cbn [claims_wait]; intros Hr; try (apply Hserve; auto using post_model_settles, put_settles, delete_settles, post_instance_settles,
    move_settles, sleep_settles, stop_settles, post_start_settles, delete_instance_settles, sleep_instance_settles, wake_instance_settles; fail).
  destruct Hr as (o & w1 & reply & Hrun & Ho). unfold serve, mbind, M_bind. rewrite Hrun. by eapply wake_settles.
Qed.
End balance.

(** ** What the graceful requests may touch *)
Section footprint.
Context `{!Env, !ReconEnv, !RouteEnv, !RedisScan, !JsDate, !PlacementStrategy, !EvictionStrategy}.
Context (JSON_parse : string → option json) (keyPrefix cwd weightsDir : string) (config : EvictionConfig).
Context (sleepTimeoutMs wakeTimeoutMs deployTimeoutMs healthCheckIntervalMs staleAfterSecs graceMs : Z).
Context (startupLogs notifications : bool) (share : Z → Z → Z) (name : string).

(** The requests on model [name] that stop, sleep or delete with the cooperation of the
    runners, and the wake of one instance. *)
Inductive graceful : Request → Prop :=
| graceful_delete : graceful (DeleteModel name false)
| graceful_sleep : graceful (PostSleep name)
| graceful_stop : graceful (PostStop name false)
| graceful_delete_instance id : graceful (DeleteInstance name id)
| graceful_sleep_instance id : graceful (SleepInstance name id)
| graceful_wake_instance id : graceful (WakeInstance name id).

(** A command is one that the teardown of an instance of this model may send. *)
Definition own_model_ok (l : list Event) (e : Event) : Prop := ∃ id, teardown_ok keyPrefix name id l e.
Notation jr := (justifies own_model_ok (λ _, True)).
Notation ok := (covered own_model_ok (λ _, True)).
Notation hj id := (λ l e (Ht : teardown_ok keyPrefix name id l e), ex_intro (λ j, teardown_ok keyPrefix name j l e) id Ht).

Lemma own_calm d d' : db_instances d' = db_instances d → ok (EvRedis d d').
Proof. intros Heq. exact (teardown_calm keyPrefix name "" own_model_ok (hj "") (λ _, True) d d' Heq). Qed.
Lemma own_other e : (∀ d d', e ≠ EvRedis d d') → ok e.
Proof. intros He. exact (teardown_other keyPrefix name "" own_model_ok (hj "") (λ _, True) e He). Qed.
Lemma own_routing op d : ok (EvRedis d (run_routing_op op d)).
Proof. apply own_calm, run_routing_op_instances. Qed.
Hint Extern 1 (covered own_model_ok _ (EvRedis _ _)) => by apply own_calm : preserves.
Hint Extern 2 (covered own_model_ok _ _) => (apply own_other; intros ? ?; discriminate) : preserves.
Hint Resolve own_routing : preserves.

Lemma own_transition id to u : preserves jr (transition keyPrefix name id to u).
Proof. exact (teardown_transition keyPrefix name id own_model_ok (hj id) (λ _, True) to u). Qed.
Lemma own_teardown id client context :
  preserves jr (teardownInstance keyPrefix sleepTimeoutMs healthCheckIntervalMs name id client context).
Proof. exact (teardown_justified keyPrefix sleepTimeoutMs healthCheckIntervalMs name id own_model_ok (hj id) (λ _, True) client context). Qed.
Lemma own_refresh m : preserves jr (refreshModelRoutingState keyPrefix m).
Proof. apply (refresh_preserves _ _ ok); auto with preserves. Qed.
Lemma own_call c id : preserves jr (run_call keyPrefix sleepTimeoutMs wakeTimeoutMs healthCheckIntervalMs c name id).
Proof. apply (run_call_preserves _ _ _ _ _ ok); auto using own_transition with preserves. Qed.
Hint Resolve own_transition own_teardown own_refresh : preserves.

Lemma own_noMove action : preserves jr (assertNoMove keyPrefix name action).
Proof. unfold assertNoMove, getMoveOperation, claimed, in_progress. solve_preserves. Qed.
Lemma own_clearMove force : preserves jr (clearMoveForDelete keyPrefix name force).
Proof.
  assert (∀ op d, ok (EvRedis d (remove_move_script (moveKey keyPrefix name) op d).2)).
  { intros op d. apply own_calm. unfold remove_move_script. by repeat case_match. }
  unfold clearMoveForDelete, getMoveOperation, removeMoveOperation, claimed, in_progress. solve_preserves.
Qed.
Lemma own_instances : preserves jr (getInstancesForModel keyPrefix name).
Proof. unfold getInstancesForModel, getStatesForPattern. solve_preserves. Qed.
Lemma own_find : preserves jr (find_model name).
Proof. unfold find_model. solve_preserves. Qed.
Lemma own_name : preserves jr (assertValidModelName name).
Proof. unfold assertValidModelName. solve_preserves. Qed.
Lemma own_removeModel : preserves jr (removeModel name).
Proof. apply (removeModel_preserves _ ok); auto with preserves. Qed.
Lemma own_get id : preserves jr (getInstance keyPrefix name id).
Proof. unfold getInstance. solve_preserves. Qed.
Lemma own_not_claimed k action detail : preserves jr (assert_not_claimed k name action detail).
Proof. unfold assert_not_claimed, claimed, in_progress. solve_preserves. Qed.
Lemma own_claim k key : preserves jr (claim k key).
Proof. unfold claim. solve_preserves. Qed.
Lemma own_unclaim k key : preserves jr (unclaim k key).
Proof. unfold unclaim. solve_preserves. Qed.
Lemma own_claimed k key : preserves jr (claimed k key).
Proof. unfold claimed. solve_preserves. Qed.
Lemma own_note t d : preserves jr (note t d).
Proof. unfold note. solve_preserves. Qed.
Lemma own_busy xs : preserves jr (assert_no_instance_operation name xs).
Proof. unfold assert_no_instance_operation, busy_instance, in_progress. solve_preserves. Qed.
Lemma own_endpoints xs : preserves jr (assert_endpoints name xs).
Proof. unfold assert_endpoints, no_endpoint. solve_preserves. Qed.
Lemma own_delete : preserves jr (delete_model name).
Proof. unfold delete_model, side_call. solve_preserves. Qed.
Lemma own_leader : preserves jr isLeader.
Proof. unfold isLeader. solve_preserves. Qed.
Hint Resolve own_noMove own_clearMove own_instances own_find own_name own_removeModel own_get own_not_claimed own_claim own_unclaim
  own_claimed own_note own_busy own_endpoints own_delete own_leader : preserves.

(** A handler whose answers carry tasks that keep to the footprint. *)
Definition keeps (h : Handler) : Prop := preserves jr (o ← h; oc_task o).
Lemma keeps_then {A} (m : Svc A) (k : A → Handler) : preserves jr m → (∀ a, keeps (k a)) → keeps (m ≫= k).
Proof.
  intros Hm Hk w. specialize (Hm w). unfold mbind, M_bind in *. destruct (m w) as [[e|a] w1]; [done|].
  specialize (Hk a w1). simpl in Hm. unfold mbind, M_bind in Hk. etransitivity; [exact Hm|exact Hk].
Qed.
Lemma keeps_throw e : keeps (throw e).
Proof. apply (preserves_throw _ ok). Qed.
Lemma keeps_answer r t : preserves jr t → keeps (answer r t).
Proof. done. Qed.
Lemma keeps_leader h : keeps h → keeps (leader_only h).
Proof. intros Hh. apply keeps_then; [solve_preserves|]. intros []; [done|apply keeps_throw]. Qed.

Ltac keep := apply keeps_then; [solve_preserves|intros ?].

Lemma delete_task_keeps xs : preserves jr (delete_task keyPrefix sleepTimeoutMs healthCheckIntervalMs name xs).
Proof.
  assert (preserves jr (mapM (λ i, getInstance keyPrefix name (instanceId i)) xs)).
  { induction xs as [|i xs IH]; simpl; [apply (preserves_ret _ ok)|]. solve_preserves. }
  unfold delete_task. solve_preserves.
Qed.
Lemma delete_keeps : keeps (delete_route keyPrefix sleepTimeoutMs healthCheckIntervalMs name false).
Proof.
  apply keeps_leader. keep. keep. keep. destruct (_ && _); [apply keeps_throw|]. keep. case_bool_decide.
  - unfold delete_record. keep. keep. keep. apply keeps_answer. apply (preserves_ret _ ok).
  - unfold delete_gracefully. destruct (List.find _ _); [apply keeps_throw|]. keep. keep. keep. keep. keep. keep.
    apply keeps_answer, delete_task_keeps.
Qed.
Lemma sleep_keeps : keeps (post_sleep keyPrefix sleepTimeoutMs healthCheckIntervalMs name).
Proof.
  apply keeps_leader. keep. keep. keep. case_bool_decide; [apply keeps_throw|]. cbn zeta. case_bool_decide; [apply keeps_throw|].
  keep. keep. keep. keep. keep. keep. apply keeps_answer. pose proof (λ id, own_call CSleep id) as Hs. simpl in Hs. solve_preserves.
Qed.
Lemma stop_keeps : keeps (post_stop keyPrefix sleepTimeoutMs healthCheckIntervalMs name false).
Proof.
  apply keeps_leader. keep. keep. keep. case_bool_decide; [apply keeps_throw|]. unfold stop_gracefully. cbn zeta.
  case_bool_decide; [apply keeps_throw|]. keep. case_match; [apply keeps_throw|]. keep. keep. case_match; [apply keeps_throw|]. keep. keep.
  apply keeps_answer. unfold stop_task. solve_preserves.
Qed.
Lemma with_stored_keeps id k : (∀ i, keeps (k i)) → keeps (with_stored keyPrefix name id k).
Proof. intros Hk. unfold with_stored. keep. case_match; [done|apply keeps_throw]. Qed.
Lemma claim_instance_keeps id action st : preserves jr (claim_instance name id action st).
Proof. unfold claim_instance, bad_state. solve_preserves. Qed.
Lemma begin_keeps id to : preserves jr (begin_transition keyPrefix name id to).
Proof. unfold begin_transition. solve_preserves. Qed.
Hint Resolve claim_instance_keeps begin_keeps : preserves.
(** The stored instance may carry another id than its key only if Redis was corrupted; the
    teardown of a request on an instance uses the stored one. *)
Lemma instance_keeps r : (∃ id, r = DeleteInstance name id ∨ r = SleepInstance name id ∨ r = WakeInstance name id) →
  keeps (handle JSON_parse keyPrefix cwd weightsDir config sleepTimeoutMs wakeTimeoutMs deployTimeoutMs
    healthCheckIntervalMs staleAfterSecs graceMs startupLogs notifications share r).
Proof.
  pose proof (λ id, own_call CSleep id) as Hsleep. pose proof (λ id, own_call CWake id) as Hwake. simpl in Hsleep, Hwake.
  intros (id & [-> |[-> | ->]]); apply keeps_leader; keep; keep; apply with_stored_keeps; intros i.
  - destruct (TRANSIENT_FOR_DELETE _); [apply keeps_throw|]. keep. keep. keep. apply keeps_answer. solve_preserves.
  - destruct (negb _); [apply keeps_throw|]. destruct (negb _); [apply keeps_throw|]. keep. keep. keep. keep. apply keeps_answer. solve_preserves.
  - case_bool_decide; [apply keeps_answer, (preserves_ret _ ok)|]. destruct (negb _); [apply keeps_throw|].
    destruct (negb _); [apply keeps_throw|]. keep. keep. keep. keep. apply keeps_answer. solve_preserves.
Qed.

(** C8: a graceful request on a model touches that model only.  Whatever happens around it,
    every command of a stop, a delete or a sleep of a model, of an operation on one
    of its instances, and of everything these leave running changes at most the record of one
    instance of this model: along an edge of the state machine, or by deleting it after its
    runner is gone (stopped, denied by its worker, or never placed). *)
Theorem graceful_requests_keep_to_model r w l1 d d' l2 k :
  graceful r → w_trace w = [] →
  w_trace (serve JSON_parse keyPrefix cwd weightsDir config sleepTimeoutMs wakeTimeoutMs deployTimeoutMs
    healthCheckIntervalMs staleAfterSecs graceMs startupLogs notifications share r w).2 = l1 ++ EvRedis d d' :: l2 →
  db_instances d' !! k ≠ db_instances d !! k →
  ∃ id, k = instanceStateKey keyPrefix name id ∧
    match db_instances d' !! k with
    | Some s' => ∃ s, db_instances d !! k = Some s ∧ state s' ∈ VALID_TRANSITIONS (state s)
    | None => ∃ d0, EvRedis d0 d0 ∈ l1 ∧ ∀ s, db_instances d0 !! k = Some s → reaped l1 id s
    end.
Proof.
  intros Hr Hw Htr Hk. assert (keeps (handle JSON_parse keyPrefix cwd weightsDir config sleepTimeoutMs wakeTimeoutMs deployTimeoutMs
    healthCheckIntervalMs staleAfterSecs graceMs startupLogs notifications share r)) as Hkeep.
  { destruct Hr; [apply delete_keeps|apply sleep_keeps|apply stop_keeps|apply instance_keeps; eauto..]. }
  destruct (justified_run _ _ _ w Hkeep I Hw l1 (EvRedis d d') l2 Htr) as [id Ht]. exists id. by apply (Ht k).
Qed.
End footprint.

(** ** A delete waits for starts whose fate is unknown *)
Section ambiguous.
Context `{!Env, !RedisScan, !JsDate} (keyPrefix : string) (sleepTimeoutMs healthCheckIntervalMs : Z).
Context (name : string) (instances : list InstanceState).
Notation keyOf i := (instanceStateKey keyPrefix name (instanceId i)).
Notation row_deleted := (EvSide ("model row deleted: " +:+ name)).

(** The record of [i] was read and its start is not ambiguous. *)
Definition read_settled (l : list Event) (i : InstanceState) : Prop :=
  ∃ d, EvRedis d d ∈ l ∧ ∀ s, db_instances d !! keyOf i = Some s → runnerStartAmbiguous s = false.
Definition row_ok (l : list Event) (e : Event) : Prop := e = row_deleted → ∀ i, i ∈ instances → read_settled l i.

Section under.
Context (F : list Event → Prop) `{!Stable F}.
Notation jr := (justifies row_ok F).
Notation ok := (covered row_ok F).

Lemma row_other e : e ≠ row_deleted → ok e.
Proof. intros He l _ Heq. by destruct He. Qed.
Lemma row_instance id : ok (EvSide ("instance row deleted: " +:+ id)).
Proof. apply row_other. intros [= Heq]. Qed.
Hint Resolve row_instance : preserves.
Hint Extern 2 (covered row_ok _ _) => (apply row_other; discriminate) : preserves.

Lemma row_transition id to u : preserves jr (transition keyPrefix name id to u).
Proof. unfold transition. solve_preserves. Qed.
Lemma row_refresh : preserves jr (refreshModelRoutingState keyPrefix name).
Proof. apply (refresh_preserves _ _ ok); auto with preserves. Qed.
Hint Resolve row_transition row_refresh : preserves.
Lemma row_teardown id client context :
  preserves jr (teardownInstance keyPrefix sleepTimeoutMs healthCheckIntervalMs name id client context).
Proof.
  assert (preserves jr (stopModel keyPrefix sleepTimeoutMs healthCheckIntervalMs name id client)).
  { apply (stopModel_preserves _ _ ok); auto with preserves. }
  assert (∀ s, preserves jr (resolve_runner id s)).
  { intros s. assert (preserves jr (getRunnerByInstance id)) by (apply (getRunnerByInstance_preserves _ ok); auto with preserves).
    unfold resolve_runner, getWorkerNow. solve_preserves. }
  assert (∀ s r, preserves jr (reap_runner s r)).
  { intros s r. unfold reap_runner. destruct (_ && _); [|apply (preserves_ret _ ok)].
    apply (preserves_bind _ ok); [unfold getWorkerNow; solve_preserves|]. intros worker.
    destruct (_ && _); [apply (preserves_throw _ ok)|]. apply (preserves_attempt _ ok).
    - apply (stopRunner_preserves _ ok). auto with preserves.
    - intros e. repeat case_match; first [apply (preserves_ret _ ok)|apply (preserves_throw _ ok)]. }
  unfold teardownInstance, teardown_steps, getInstance, removeInstance, side_call. solve_preserves.
Qed.
Lemma row_reads xs : preserves jr (mapM (λ i, getInstance keyPrefix name (instanceId i)) xs).
Proof.
  induction xs as [|i xs IH]; simpl; [apply (preserves_ret _ ok)|].
  assert (preserves jr (getInstance keyPrefix name (instanceId i))) by (unfold getInstance; solve_preserves). solve_preserves.
Qed.
Lemma row_delete : (∀ l, F l → ∀ i, i ∈ instances → read_settled l i) → preserves jr (swallow (delete_model name ;; removeModel name)).
Proof.
  intros HF. assert (ok row_deleted) by (intros l Hl _; auto).
  assert (preserves jr (removeModel name)) by (apply (removeModel_preserves _ ok); auto with preserves).
  unfold delete_model, side_call. solve_preserves.
Qed.
Lemma row_unclaim k key : preserves jr (unclaim k key).
Proof. unfold unclaim. solve_preserves. Qed.
End under.

Lemma reads_learnt xs w rs w' :
  mapM (λ i, getInstance keyPrefix name (instanceId i)) xs w = (inr rs, w') →
  Forall2 (λ i o, ∃ d, EvRedis d d ∈ w_trace w' ∧ db_instances d !! keyOf i = o) xs rs.
Proof.
  revert w rs w'. induction xs as [|i xs IH]; intros w rs w'; simpl; [intros [= <- <-]; constructor|].
  intros (o & w1 & Ho%getInstance_learnt & Hrun)%bind_returned. apply bind_returned in Hrun as (os & w2 & Hos & [= <- <-]).
  constructor; [|by eapply IH]. destruct Ho as (d & Hd & Hk). exists d. split; [|done].
  assert (grows (mapM (λ i, getInstance keyPrefix name (instanceId i)) xs)) as Hg.
  { clear. induction xs as [|j xs IH]; simpl; [apply (preserves_ret _ any_event)|].
    assert (grows (getInstance keyPrefix name (instanceId j))) by (unfold getInstance; solve_preserves). solve_preserves. }
  specialize (Hg w1). rewrite Hos in Hg. destruct Hg as [[l Hl] _]. simpl in Hl. rewrite Hl, elem_of_app. by left.
Qed.

(** Deleting a model never loses track of a runner whose start is in doubt.  The
    background task of a delete removes the model's row (and with it, by cascade, the
    instances') only after it has read the record of every instance and found none with
    an ambiguous start. *)
Theorem delete_waits_for_ambiguous_starts w l1 l2 i :
  w_trace w = [] →
  w_trace (delete_task keyPrefix sleepTimeoutMs healthCheckIntervalMs name instances w).2 = l1 ++ row_deleted :: l2 →
  i ∈ instances → read_settled l1 i.
Proof.
  intros Hw Htr Hi. assert (preserves (justifies row_ok (λ _, True)) (delete_task keyPrefix sleepTimeoutMs healthCheckIntervalMs name instances)) as Hp.
  2: { exact (justified_run _ _ _ w Hp I Hw l1 row_deleted l2 Htr eq_refl i Hi). }
  unfold delete_task. apply (preserves_finally _ (covered row_ok (λ _, True))); [|by apply row_unclaim].
  apply (preserves_bind _ (covered row_ok (λ _, True))).
  { apply (preserves_for_each _ (covered row_ok (λ _, True))). intros j. pose proof (row_teardown (λ _, True)). solve_preserves. }
  intros _. apply (preserves_learn _ _ (λ rs l, Forall2 (λ i o, ∃ d, EvRedis d d ∈ l ∧ db_instances d !! keyOf i = o) instances rs));
    [by apply row_reads|intros rs w1 w2 _ _; apply reads_learnt|].
  intros rs. cbn beta. set (F := λ l, _ ∧ _). assert (Stable F).
  { intros l l' [? Hall]. split; [done|]. eapply Forall2_impl; [exact Hall|]. intros j o (d & Hd & Hk). exists d. rewrite elem_of_app. auto. }
  destruct (existsb _ rs) eqn:Hex; [apply (preserves_ret _ (covered row_ok F))|]. apply row_delete; [done|].
  intros l [_ Hall] j Hj. apply list_elem_of_lookup in Hj as [n Hn]. destruct (Forall2_lookup_l _ _ _ _ _ Hall Hn) as (o & Ho & d & Hd & Hk).
  exists d. split; [done|]. intros s Hs. rewrite Hs in Hk. subst o. apply not_true_is_false. intros Ha.
  assert (existsb (λ o, match o with Some i => runnerStartAmbiguous i | None => false end) rs = true); [|congruence].
  apply existsb_exists. exists (Some s). split; [|done]. apply list_elem_of_In. by eapply list_elem_of_lookup_2.
Qed.
End ambiguous.

(** ** Detached tasks do not fail *)
Section tasks.
Context `{!Env, !ReconEnv, !RouteEnv, !RedisScan, !JsDate, !PlacementStrategy, !EvictionStrategy}.
Context (JSON_parse : string → option json) (keyPrefix cwd weightsDir : string) (config : EvictionConfig).
Context (sleepTimeoutMs wakeTimeoutMs deployTimeoutMs healthCheckIntervalMs staleAfterSecs graceMs : Z).
Context (startupLogs notifications : bool) (share : Z → Z → Z) (Hinterval : (0 < healthCheckIntervalMs)%Z).
Notation handle := (handle JSON_parse keyPrefix cwd weightsDir config sleepTimeoutMs wakeTimeoutMs deployTimeoutMs
  healthCheckIntervalMs staleAfterSecs graceMs startupLogs notifications share).
Notation launch := (deployFromRecord JSON_parse keyPrefix cwd weightsDir config sleepTimeoutMs deployTimeoutMs
  healthCheckIntervalMs staleAfterSecs startupLogs notifications share).

(** Whenever [h] leaves tasks, they satisfy [P]; [safe_tasks]: they end without an exception. *)
Definition leaves (P : Svc unit → Prop) (h : Handler) : Prop := ∀ w, wp h (λ o _, P (oc_task o)) (λ _ _, True) w.
Notation safe_tasks := (leaves returns).
Lemma safe_bind P {A} (m : Svc A) (k : A → Handler) : (∀ a, leaves P (k a)) → leaves P (m ≫= k).
Proof. intros Hk w. apply wp_bind. unfold wp. destruct (m w) as [[e|a] w1]; [done|]. apply Hk. Qed.
Lemma safe_throw P e : leaves P (throw e).
Proof. done. Qed.
Lemma safe_answer (P : Svc unit → Prop) r t : P t → leaves P (answer r t).
Proof. by intros Ht w. Qed.
Lemma safe_attempt P {A} (m : Svc A) (r : A → Reply) (t : A → Svc unit) (c : Exn → Handler) :
  (∀ e, leaves P (c e)) → (∀ w a w', m w = (inr a, w') → P (t a)) →
  leaves P (attempt (a ← m; answer (r a) (t a)) c).
Proof.
  intros Hc Ht w. unfold wp, attempt, catch, mbind, M_bind. destruct (m w) as [[e|a] w1] eqn:Hrun; [|by eapply Ht].
  case_decide; [done|]. apply Hc.
Qed.
Lemma safe_leader P h : leaves P h → leaves P (leader_only h).
Proof. intros Hh. apply safe_bind. intros []; [done|apply safe_throw]. Qed.
Ltac safe := apply safe_bind; intros ?.

Lemma returns_for_each {A} (xs : list A) (f : A → Svc unit) : (∀ x, returns (f x)) → returns (for_each xs f).
Proof. intros Hf. induction xs as [|x xs IH]; simpl; [apply returns_ret|]. apply returns_bind; [done|]. auto. Qed.
Lemma returns_finally {A} (m : Svc A) f : returns m → returns f → returns (finally m f).
Proof.
  intros Hm Hf w. unfold finally. destruct (Hm w) as [a Ha]. destruct (m w) as [r w1]. simpl in Ha. subst r.
  destruct (Hf w1) as [[] Hb]. destruct (f w1) as [r w2]. simpl in Hb. subst r. by exists a.
Qed.
Lemma returns_unclaim k key : returns (unclaim k key).
Proof. intros w. by exists tt. Qed.
Lemma returns_teardown name id client context :
  returns (teardownInstance keyPrefix sleepTimeoutMs healthCheckIntervalMs name id client context ;; mret tt).
Proof. apply returns_bind; [by apply teardown_ends|]. intros _. apply returns_ret. Qed.
Lemma returns_call c name id : returns (swallow (run_call keyPrefix sleepTimeoutMs wakeTimeoutMs healthCheckIntervalMs c name id)).
Proof. apply returns_swallow. by apply run_call_total. Qed.

Lemma launch_claimed_safe record name previous :
  safe_tasks (launch_claimed JSON_parse keyPrefix cwd weightsDir config sleepTimeoutMs deployTimeoutMs healthCheckIntervalMs
                staleAfterSecs startupLogs notifications share record name previous).
Proof.
  unfold launch_claimed. safe. safe. apply safe_attempt; [intros e; safe; apply safe_throw|]. intros w la w' Hrun.
  apply returns_bind; [|intros _; apply returns_unclaim]. apply returns_swallow. by eapply launch_task_total.
Qed.
Lemma run_move_returns name opId (deployment : Svc unit) : total deployment →
  returns (run_move keyPrefix sleepTimeoutMs healthCheckIntervalMs graceMs startupLogs notifications name opId deployment).
Proof.
  intros Hd. apply returns_swallow. apply total_finally.
  - unfold isLeader, updateMoveOperation. solve_total.
  - apply total_bind; [|intros _; apply total_modify]. intros w Hx.
    destruct (resume_ends keyPrefix sleepTimeoutMs healthCheckIntervalMs graceMs startupLogs notifications Hinterval name w) as [u Hu]. congruence.
Qed.
Lemma move_safe name id body : safe_tasks (handle (PostMove name id body)).
Proof.
  apply safe_leader. safe. apply safe_bind. intros [worker indices]. safe. safe. safe. destruct a1 as [record|]; [|apply safe_throw].
  destruct a2 as [source|]; [|apply safe_throw]. do 7 safe. destruct (negb _); [apply safe_throw|]. safe.
  apply safe_attempt; [intros e; safe; safe; apply safe_throw|]. intros w la w' Hrun. apply run_move_returns. by eapply launch_task_total.
Qed.
Lemma wake_loop_safe name memory xs started w failed tasks w' :
  returns started →
  wake_loop keyPrefix config sleepTimeoutMs wakeTimeoutMs healthCheckIntervalMs staleAfterSecs name memory xs started w = (inr (failed, tasks), w') →
  returns tasks.
Proof.
  revert started w. induction xs as [|i xs IH]; intros started w Hr; simpl; [by intros [= <- <- <-]|].
  intros (r & w2 & _ & Hrun)%bind_returned. destruct r as [e|]; [by injection Hrun as <- <- <-|].
  eapply IH; [|exact Hrun]. apply returns_bind; [done|]. intros _. apply (returns_call CWake).
Qed.
Lemma wake_safe name : safe_tasks (handle (PostWake name)).
Proof.
  apply safe_leader. safe. safe. safe. case_bool_decide; [apply safe_throw|]. cbn zeta. case_bool_decide.
  { case_bool_decide; simpl; [apply safe_throw|]. apply safe_answer, returns_ret. }
  safe. safe. safe. safe. unfold wake_claimed. safe. safe. safe. cbn zeta. intros w. apply wp_bind. unfold wp at 1.
  destruct (wake_loop _ _ _ _ _ _ _ _ _ _ w) as [[e|[failed tasks]] w1] eqn:Hloop; [done|].
  apply wake_loop_safe in Hloop; [|apply returns_ret]. destruct failed as [e|]; [exact Hloop|].
  apply returns_bind; [done|]. intros _. apply returns_unclaim.
Qed.

(** A detached task never rejects.  With a positive polling interval, the work that any
    model request other than a delete leaves running after its answer ends without an
    exception, whatever fails in it; an unhandled rejection would end the process. *)
Theorem detached_tasks_never_reject r w o w' :
  (∀ name, r ≠ DeleteModel name false) → handle r w = (inr o, w') → ∀ w1, ∃ u, (oc_task o w1).1 = inr u.
Proof.
  intros Hr Hrun. assert (safe_tasks (handle r)) as Hsafe; [|specialize (Hsafe w); unfold wp in Hsafe; by rewrite Hrun in Hsafe].
  clear Hrun. destruct r as [body|name body|name force|name|name id body|name|name|name force|name|name id|name id|name id].
  - apply safe_leader. safe. safe. safe. apply safe_attempt; [intros e; safe; apply safe_throw|]. intros w0 la w1 Hrun.
    apply returns_swallow. by eapply launch_task_total.
  - apply safe_leader. do 4 safe. destruct (negb _); [apply safe_throw|]. destruct (negb _); [apply safe_throw|]. safe.
    destruct a3; [apply safe_throw|]. do 3 safe. apply safe_answer, returns_ret.
  - destruct force; [|by destruct (Hr name)]. apply safe_leader. do 3 safe. destruct (_ && _); [apply safe_throw|]. safe.
    unfold delete_forced. do 5 safe. apply safe_answer, returns_ret.
  - apply safe_leader. safe. safe. destruct a0; [|apply safe_throw]. safe. apply launch_claimed_safe.
  - apply move_safe.
  - apply safe_leader. do 3 safe. case_bool_decide; [apply safe_throw|]. cbn zeta. case_bool_decide; [apply safe_throw|]. do 6 safe.
    apply safe_answer. apply returns_bind; [|intros _; apply returns_unclaim]. apply returns_for_each. intros i. apply (returns_call CSleep).
  - apply wake_safe.
  - apply safe_leader. do 3 safe. case_bool_decide; [apply safe_throw|]. destruct force.
    + unfold stop_forced. do 3 safe. apply safe_answer, returns_ret.
    + unfold stop_gracefully. cbn zeta. case_bool_decide; [apply safe_throw|]. safe. case_match; [apply safe_throw|]. safe. safe.
      case_match; [apply safe_throw|]. safe. safe. apply safe_answer, returns_finally; [|apply returns_unclaim].
      apply returns_for_each. intros i. apply returns_swallow. intros w0 Hx. destruct (returns_teardown name (instanceId i) (has_client i) "Stop" w0) as [u Hu].
      congruence.
  - apply safe_leader. do 3 safe. destruct a1; [|apply safe_throw]. destruct (negb _); [apply safe_throw|]. safe. apply launch_claimed_safe.
  - apply safe_leader. do 3 safe. destruct a1; [|apply safe_throw]. destruct (TRANSIENT_FOR_DELETE _); [apply safe_throw|]. do 3 safe.
    apply safe_answer, returns_finally; [apply returns_teardown|apply returns_unclaim].
  - apply safe_leader. do 3 safe. destruct a1; [|apply safe_throw]. destruct (negb _); [apply safe_throw|]. destruct (negb _); [apply safe_throw|].
    do 4 safe. apply safe_answer. apply returns_bind; [apply (returns_call CSleep)|]. intros _. apply returns_unclaim.
  - apply safe_leader. do 3 safe. destruct a1; [|apply safe_throw]. case_bool_decide; [apply safe_answer, returns_ret|].
    destruct (negb _); [apply safe_throw|]. destruct (negb _); [apply safe_throw|].
    do 4 safe. apply safe_answer. apply returns_bind; [apply (returns_call CWake)|]. intros _. apply returns_unclaim.
Qed.

(** The launch claim is a set of names without owners: when two launches of one model overlap,
    the first to settle takes the claim of the other away, and a move is admitted while
    that one is still starting. *)
Theorem launch_drops_foreign_claim name w o w' :
  handle (PostInstance name) w = (inr o, w') →
  ∀ w1, name ∉ l_claims (w_local (oc_task o w1).2) launchingInFlight.
Proof.
  intros Hrun. assert (leaves (λ t, ∀ w1, name ∉ l_claims (w_local (t w1).2) launchingInFlight) (handle (PostInstance name))) as Hl;
    [|specialize (Hl w); unfold wp in Hl; by rewrite Hrun in Hl].
  apply safe_leader. safe. safe. destruct a0 as [record|]; [|apply safe_throw]. safe. unfold launch_claimed. safe. safe.
  apply safe_attempt; [intros e; safe; apply safe_throw|]. intros w0 la w2 Hla w1.
  assert (returns (swallow (la_deployment la))) as Hr by (apply returns_swallow; by eapply launch_task_total).
  unfold mbind, M_bind. destruct (Hr w1) as [[] Hu]. destruct (swallow _ w1) as [r w3]. simpl in Hu. subst r. simpl. set_solver.
Qed.

(** The task of a delete has no [catch]: when Redis cannot be read after the teardowns, it
    rejects, and the process exits on the unhandled rejection. *)
Theorem delete_task_rejects name i instances msg w :
  (∀ n, env_fault n = FailBefore msg) →
  (delete_task keyPrefix sleepTimeoutMs healthCheckIntervalMs name (i :: instances) w).1 = inl (OtherError msg).
Proof.
  intros Hf. unfold delete_task. set (loop := for_each (i :: instances) _).
  assert (returns loop) as Hr.
  { apply returns_for_each. intros j. apply returns_swallow. intros w0 Hx.
    destruct (returns_teardown name (instanceId j) (has_client j) "Delete" w0) as [u Hu]. congruence. }
  unfold finally, mbind at 1, M_bind. destruct (Hr w) as [[] Hu]. destruct (loop w) as [r w1]. simpl in Hu. subst r.
  simpl. unfold getInstance, redis_call, mbind, M_bind. by rewrite Hf.
Qed.
End tasks.

(** ** Closed examples *)
(** The database fails while a wake is under way. *)
Definition ex_no_database : RouteEnv := {|
  ro_runner_metadata := λ _ _, inr Protocol.openai; ro_model := λ _ _, inl "connection lost";
  ro_models := λ _, inl "connection lost"; ro_create := λ _, inl "connection lost"; ro_update := λ _, inl "connection lost";
  ro_operation_id := λ _, "op" |}.
Notation ex_handle routes r :=
  (@handle idle_env ex_memory routes star_scan decimal_date MostAvailableCapacityStrategy LruEvictionStrategy MemoryBudget.example_parse
     "p" "/" "/weights" default_config 1000 1000 1000 100 10000 5000 true true (λ bytes t, bytes / t)%Z r).

(** A wake that fails between its claim and its answer keeps the claim: here the
    read of the model's row fails; the request is answered with the error, the instance stays in
    STARTING with no wake under way, and the model counts as busy from then on. *)
Theorem failed_wake_locks_model :
  ∃ w', ex_handle ex_no_database (PostWake "m") ex_launch_world = (inl (OtherError "connection lost"), w') ∧
    "m" ∈ l_claims (w_local w') modelLifecycleInFlight ∧ model_busy "m" w' = (inr true, w') ∧
    (state <$> db_instances (w_db w') !! "p:models:m:a") = Some ModelLifecycleState.STARTING.
Proof.
  assert (match ex_handle ex_no_database (PostWake "m") ex_launch_world with
          | (inl e, w') => bool_decide (e = OtherError "connection lost") && bool_decide ("m" ∈ l_claims (w_local w') modelLifecycleInFlight) &&
              bool_decide ((state <$> db_instances (w_db w') !! "p:models:m:a") = Some ModelLifecycleState.STARTING)
          | _ => false end = true) as Hb by (vm_compute; reflexivity).
  destruct (ex_handle ex_no_database (PostWake "m") ex_launch_world) as [[e|o] w']; [|discriminate Hb].
  rewrite !andb_true_iff, !bool_decide_eq_true in Hb. destruct Hb as [[-> Hc] Hs]. exists w'. split_and!; [done..| |done].
  unfold model_busy, claimed, hasInstanceOperation, mbind, M_bind, gets. rewrite (bool_decide_eq_true_2 _ Hc). by rewrite !orb_true_r, !orb_true_l.
Qed.

(** A follower: the same environment without leadership. *)
Definition ex_follower : Env := {|
  env_elapsed := λ _, 1; env_interfere_db := λ _ d, d; env_interfere_local := λ _ l, l; env_fault := λ _, NoFault;
  env_pipe_error := λ _ _, false; env_exec_null := λ _, false; env_uuid := λ _, ""; env_health := λ _, inl "";
  env_runner := λ _, None; env_start := λ _, inl (StartNoReply ""); env_lookup := λ _, inl ""; env_worker := λ _, inl "";
  env_leader := λ _, false; env_side := λ _, None; env_owner := λ _, true; env_cancelled := λ _, false |}.
Lemma follower_refuses_witness :
  @handle ex_follower ex_memory ex_routes star_scan decimal_date MostAvailableCapacityStrategy LruEvictionStrategy MemoryBudget.example_parse
     "p" "/" "/weights" default_config 1000 1000 1000 100 10000 5000 true true (λ bytes t, bytes / t)%Z (PostStop "m" true) ex_launch_world =
  (inl (CPError notLeader), ex_launch_world).
Proof.
  apply (@follower_refuses ex_follower ex_memory ex_routes star_scan decimal_date MostAvailableCapacityStrategy LruEvictionStrategy
    MemoryBudget.example_parse "p" "/" "/weights" default_config 1000 1000 1000 100 10000 5000 true true (λ bytes t, bytes / t)%Z
    (PostStop "m" true) ex_launch_world). reflexivity.
Defined.

Lemma ex_quiet_claims : @QuietClaims idle_env.
Proof. by intros n l k. Qed.
Notation ex_serve r :=
  (@serve idle_env ex_memory ex_routes star_scan decimal_date MostAvailableCapacityStrategy LruEvictionStrategy MemoryBudget.example_parse
     "p" "/" "/weights" default_config 1000 1000 1000 100 10000 5000 true true (λ bytes t, bytes / t)%Z r ex_launch_world).

Lemma requests_give_claims_back_witness : same_claims ex_launch_world (ex_serve (PostStart "n")).2.
Proof.
  apply (@requests_give_claims_back idle_env ex_quiet_claims ex_memory ex_routes star_scan decimal_date MostAvailableCapacityStrategy
    LruEvictionStrategy MemoryBudget.example_parse "p" "/" "/weights" default_config 1000 1000 1000 100 10000 5000 true true
    (λ bytes t, bytes / t)%Z); [lia|]. simpl. set_solver.
Defined.

(** The 18th event of a stop deletes the record of its instance. *)
Definition ex_stop_trace : list Event := w_trace (ex_serve (PostStop "m" false)).2.
Definition ex_stop_drop : RedisDb * RedisDb := event_stores (ex_stop_trace !! 17).
Lemma ex_stop_split :
  w_trace (ex_serve (PostStop "m" false)).2 = take 17 ex_stop_trace ++ EvRedis ex_stop_drop.1 ex_stop_drop.2 :: drop 18 ex_stop_trace.
Proof. vm_compute. reflexivity. Qed.
Lemma ex_stop_gone : db_instances ex_stop_drop.2 !! "p:models:m:a" = None ∧ is_Some (db_instances ex_stop_drop.1 !! "p:models:m:a").
Proof. split; [vm_compute; reflexivity|]. eexists. vm_compute. reflexivity. Qed.
Lemma graceful_requests_keep_to_model_witness :
  ∃ id, "p:models:m:a" = instanceStateKey "p" "m" id ∧
    ∃ d0, EvRedis d0 d0 ∈ take 17 ex_stop_trace ∧
      ∀ s, db_instances d0 !! "p:models:m:a" = Some s → reaped (take 17 ex_stop_trace) id s.
Proof.
  destruct ex_stop_gone as [Hgone [s0 Hs0]].
  destruct (@graceful_requests_keep_to_model idle_env ex_memory ex_routes star_scan decimal_date MostAvailableCapacityStrategy
    LruEvictionStrategy MemoryBudget.example_parse "p" "/" "/weights" default_config 1000 1000 1000 100 10000 5000 true true
    (λ bytes t, bytes / t)%Z "m" (PostStop "m" false) ex_launch_world (take 17 ex_stop_trace) ex_stop_drop.1 ex_stop_drop.2
    (drop 18 ex_stop_trace) "p:models:m:a" (graceful_stop "m") eq_refl ex_stop_split) as (id & Hk & Hr).
  - rewrite Hgone, Hs0. discriminate.
  - exists id. split; [exact Hk|]. rewrite Hgone in Hr. exact Hr.
Defined.

(** The 16th event of the delete's task removes the model's row. *)
Notation ex_delete := (@delete_task idle_env star_scan decimal_date "p" 1000 100 "m" [ex_runner] ex_launch_world).
Lemma delete_waits_for_ambiguous_starts_witness :
  read_settled "p" "m" (take 15 (w_trace ex_delete.2)) ex_runner.
Proof.
  apply (@delete_waits_for_ambiguous_starts idle_env star_scan decimal_date "p" 1000 100 "m" [ex_runner] ex_launch_world
    (take 15 (w_trace ex_delete.2)) (drop 16 (w_trace ex_delete.2)) ex_runner);
    [reflexivity|vm_compute; reflexivity|apply list_elem_of_singleton; reflexivity].
Defined.

Lemma ex_stop_answers : ∃ o w', ex_handle ex_routes (PostStop "m" false) ex_launch_world = (inr o, w').
Proof.
  assert (match ex_handle ex_routes (PostStop "m" false) ex_launch_world with (inr _, _) => true | _ => false end = true) as Hb
    by (vm_compute; reflexivity).
  destruct (ex_handle ex_routes (PostStop "m" false) ex_launch_world) as [[e|o] w']; [discriminate Hb|eauto].
Qed.
Lemma detached_tasks_never_reject_witness :
  ∃ o w', ex_handle ex_routes (PostStop "m" false) ex_launch_world = (inr o, w') ∧ ∃ u, (oc_task o w').1 = inr u.
Proof.
  destruct ex_stop_answers as (o & w' & Hrun). exists o, w'. split; [exact Hrun|].
  apply (@detached_tasks_never_reject idle_env ex_memory ex_routes star_scan decimal_date MostAvailableCapacityStrategy LruEvictionStrategy
    MemoryBudget.example_parse "p" "/" "/weights" default_config 1000 1000 1000 100 10000 5000 true true (λ bytes t, bytes / t)%Z
    ltac:(lia) (PostStop "m" false) ex_launch_world o w'); [intros name; discriminate|exact Hrun].
Defined.
