(* ===== verification/WakeRequest.v ===== *)
(** * Waking a model on request (control-plane/src/routes/internal.ts)

    A proxy that gets a request for a sleeping model asks for it to be woken.  The handler is
    separate from the route that wakes a whole model (see [ModelRoutes.post_wake]): it wakes at
    most one instance, the one used last. *)
From stdpp Require Import base tactics list strings gmap sets.
From Stdlib Require Import ZArith Lia Sorted.
From S2P Require Import Prelude Js Types Errors MemoryBudget Eviction Store ModelName Lifecycle RoutingMap SleepWake Launch ModelRoutes.

(** [const { modelName } = request.body ?? {}], when it is a text that is not empty. *)
Definition body_model (body : json) : option string :=
  match body with
  | JObj fields =>
      match obj_get fields "modelName" with Some (JStr s) => if bool_decide (s = "") then None else Some s | _ => None end
  | _ => None
  end.
Definition has_state (st : ModelLifecycleState) (i : InstanceState) : bool := bool_decide (state i = st).

Section wake.
Context `{!Env, !RedisScan, !JsDate, !LocaleCompare} (keyPrefix : string) (wakeTimeoutMs healthCheckIntervalMs : Z).

Definition wake_order (a b : InstanceState) : Z :=
  let byInference := localeCompare (default "" (lastInferenceAt b)) (default "" (lastInferenceAt a)) in
  if Z.eqb byInference 0 then localeCompare (stateChangedAt b) (stateChangedAt a) else byInference.
Definition wake_target (instances : list InstanceState) : option InstanceState :=
  head (js_sort wake_order (List.filter (has_state ModelLifecycleState.SLEEPING) instances)).

(** Behind the read of the instances. *)
Definition wake_one (name : string) (instances : list InstanceState) : Handler :=
  if bool_decide (instances = []) then throw (CPError (modelNotFound name)) else
  if existsb (has_state ModelLifecycleState.ACTIVE) instances then
    answer (StateReply 200 name None ModelLifecycleState.ACTIVE None "Model is already active") (mret tt) else
  if existsb (has_state ModelLifecycleState.STARTING) instances then
    answer (StateReply 202 name None ModelLifecycleState.STARTING None "Model is already waking up") (mret tt) else
  match wake_target instances with
  | None => bad_state name (deriveAggregateState instances) "wake"
  | Some target =>
      if negb (has_client target) then no_endpoint name (instanceId target) else
      transition keyPrefix name (instanceId target) ModelLifecycleState.STARTING no_updates ;;
      refreshModelRoutingState keyPrefix name ;;
      answer (StateReply 202 name None ModelLifecycleState.STARTING None "Wake initiated")
        (swallow (wakeModel keyPrefix wakeTimeoutMs healthCheckIntervalMs name (instanceId target)))
  end.
Definition wake_on_request (body : json) : Handler :=
  leader_only (
    match body_model body with
    | None => throw (CPError (invalidRequest "modelName is required"))
    | Some name =>
        assertValidModelName name ;;
        instances ← getInstancesForModel keyPrefix name;
        wake_one name instances
    end).
Definition serve_wake (body : json) : Svc unit := o ← wake_on_request body; oc_task o.

(** ** The instance used last *)
Lemma localeCompare_eq x y : localeCompare x y = 0%Z → localeCompare y x = 0%Z.
Proof.
  intros Hxy. destruct (Z.lt_trichotomy (localeCompare y x) 0) as [Hlt|[Heq|Hgt]]; [|done|].
  - apply localeCompare_lt in Hlt. lia.
  - pose proof (localeCompare_ge x y). lia.
Qed.
Lemma wake_order_ge x y : (0 ≤ wake_order x y)%Z → (wake_order y x ≤ 0)%Z.
Proof.
  unfold wake_order. set (a := default "" (lastInferenceAt x)). set (b := default "" (lastInferenceAt y)).
  destruct (Z.eqb_spec (localeCompare b a) 0) as [He|He].
  - apply localeCompare_eq in He. rewrite He. simpl. apply localeCompare_ge.
  - intros Hge. apply localeCompare_ge in Hge as Hle. destruct (Z.eqb_spec (localeCompare a b) 0) as [He'|]; [|done].
    by apply localeCompare_eq in He'.
Qed.
Lemma wake_order_trans x y z : (wake_order x y ≤ 0)%Z → (wake_order y z ≤ 0)%Z → (wake_order x z ≤ 0)%Z.
Proof.
  unfold wake_order. set (a := default "" (lastInferenceAt x)). set (b := default "" (lastInferenceAt y)). set (c := default "" (lastInferenceAt z)).
  intros Hxy Hyz. assert (localeCompare b a ≤ 0)%Z as Hba by (destruct (Z.eqb_spec (localeCompare b a) 0); lia).
  assert (localeCompare c b ≤ 0)%Z as Hcb by (destruct (Z.eqb_spec (localeCompare c b) 0); lia).
  pose proof (localeCompare_trans _ _ _ Hcb Hba) as Hca. destruct (Z.eqb_spec (localeCompare c a) 0) as [He|]; [|done].
  apply localeCompare_eq in He as Hac.
  assert (localeCompare b a = 0%Z) as Eba.
  { destruct (Z.eqb_spec (localeCompare b a) 0) as [|Hn]; [done|]. assert (localeCompare b a < 0)%Z as Hlt by lia. apply localeCompare_lt in Hlt.
    assert (localeCompare a b ≤ 0)%Z by (eapply localeCompare_trans; [|exact Hcb]; lia). lia. }
  assert (localeCompare c b = 0%Z) as Ecb.
  { destruct (Z.eqb_spec (localeCompare c b) 0) as [|Hn]; [done|]. assert (localeCompare c b < 0)%Z as Hlt by lia. apply localeCompare_lt in Hlt.
    assert (localeCompare b c ≤ 0)%Z by (eapply localeCompare_trans; [exact Hba|lia]). lia. }
  rewrite Eba in Hxy. rewrite Ecb in Hyz. simpl in Hxy, Hyz. by eapply localeCompare_trans.
Qed.
(** [t] served later than [i], by the texts of the two timestamps (an instance that never served
    comes first of all), or they served at the same time and [t] has not changed state before [i]. *)
Definition not_used_before (t i : InstanceState) : Prop :=
  let last x := default "" (lastInferenceAt x) in
  (localeCompare (last i) (last t) < 0)%Z ∨
  localeCompare (last i) (last t) = 0%Z ∧ (localeCompare (stateChangedAt i) (stateChangedAt t) ≤ 0)%Z.
Lemma wake_order_used t i : (wake_order t i ≤ 0)%Z → not_used_before t i.
Proof. unfold wake_order, not_used_before. destruct (Z.eqb_spec (localeCompare (default "" (lastInferenceAt i)) (default "" (lastInferenceAt t))) 0); [by right|left; lia]. Qed.
Definition used_last (instances : list InstanceState) (t : InstanceState) : Prop :=
  t ∈ instances ∧ state t = ModelLifecycleState.SLEEPING ∧
  ∀ i, i ∈ instances → state i = ModelLifecycleState.SLEEPING → not_used_before t i.
Lemma elem_of_sleeping i instances :
  i ∈ List.filter (has_state ModelLifecycleState.SLEEPING) instances ↔ i ∈ instances ∧ state i = ModelLifecycleState.SLEEPING.
Proof. rewrite list_elem_of_In, filter_In, <- list_elem_of_In. unfold has_state. by rewrite bool_decide_eq_true. Qed.
Lemma wake_target_spec instances t : wake_target instances = Some t → used_last instances t.
Proof.
  unfold wake_target. set (s := List.filter _ _). pose proof (js_sort_perm wake_order s) as Hp.
  pose proof (js_sort_sorted wake_order wake_order_ge wake_order_trans s) as Hs. destruct (js_sort wake_order s) as [|t' rest]; [done|].
  intros [= ->]. assert (t ∈ s) as [Hin Hst]%elem_of_sleeping by (rewrite <- Hp; left).
  split_and!; [done|done|]. intros i Hi Hsi. apply wake_order_used. assert (i ∈ s) as His by by apply elem_of_sleeping. rewrite <- Hp in His.
  apply elem_of_cons in His as [-> |Hrest].
  - apply wake_order_ge. unfold wake_order. pose proof (localeCompare_ge (stateChangedAt t) (stateChangedAt t)).
    set (a := default "" (lastInferenceAt t)). destruct (Z.eqb_spec (localeCompare a a) 0).
    + destruct (Z.ltb_spec (localeCompare (stateChangedAt t) (stateChangedAt t)) 0) as [Hlt|]; [|done]. pose proof (localeCompare_lt _ _ Hlt). lia.
    + destruct (Z.ltb_spec (localeCompare a a) 0) as [Hlt|]; [|done]. pose proof (localeCompare_lt _ _ Hlt). lia.
  - apply StronglySorted_inv in Hs as [_ Hf]. rewrite Forall_forall in Hf. by apply Hf.
Qed.
Lemma wake_target_none instances : wake_target instances = None → ∀ i, i ∈ instances → state i ≠ ModelLifecycleState.SLEEPING.
Proof.
  unfold wake_target. set (s := List.filter _ _). pose proof (js_sort_perm wake_order s) as Hp. destruct (js_sort wake_order s); [|done].
  intros _ i Hi Hst. assert (i ∈ s) as His by by apply elem_of_sleeping. rewrite <- Hp in His. by apply not_elem_of_nil in His.
Qed.

(** ** At most one instance is woken *)
Definition unchanged (e : Event) : Prop := match e with EvRedis d d' => db_instances d' = db_instances d | _ => True end.
Lemma unchanged_weaken key e : unchanged e → instance_guarantee key e.
Proof. destruct e; try done. apply instance_guarantee_frame. Qed.
Lemma getInstances_unchanged name : guar unchanged (getInstancesForModel keyPrefix name).
Proof. assert (∀ d, unchanged (EvRedis d d)) by done. unfold getInstancesForModel, getStatesForPattern. solve_preserves. Qed.
Lemma bind_inr {A B} (m : Svc A) (k : A → Svc B) w a w' : m w = (inr a, w') → (m ≫= k) w = k a w'.
Proof. intros Hm. unfold mbind, M_bind. by rewrite Hm. Qed.
Lemma answer_task {A B} (m1 : Svc A) (m2 : Svc B) r t w : ((m1 ;; m2 ;; answer r t) ≫= oc_task) w = (m1 ;; m2 ;; t) w.
Proof. unfold mbind, M_bind, answer. destruct (m1 w) as [[e|a] w1]; [done|]. by destruct (m2 w1) as [[e|b] w2]. Qed.
Lemma woken_guar name id :
  guar (instance_guarantee (instanceStateKey keyPrefix name id))
    (transition keyPrefix name id ModelLifecycleState.STARTING no_updates ;; refreshModelRoutingState keyPrefix name ;;
     swallow (wakeModel keyPrefix wakeTimeoutMs healthCheckIntervalMs name id)).
Proof.
  set (G := instance_guarantee _). pose proof (transition_guar keyPrefix name id) as Ht.
  assert (∀ d, G (EvRedis d d)) as Hr by (intros; apply read_guarantee).
  assert (∀ op d, G (EvRedis d (run_routing_op op d))) as Ho by (intros; apply routing_guarantee).
  assert (guar G (refreshModelRoutingState keyPrefix name)) by by apply (refresh_preserves _ _ G).
  assert (guar G (wakeModel keyPrefix wakeTimeoutMs healthCheckIntervalMs name id)) by by apply (wakeModel_preserves _ _ G).
  solve_preserves.
Qed.
(** What the handler does with the instances it has read. *)
Lemma wake_one_task name instances :
  (∀ w, trace_adds unchanged w ((wake_one name instances ≫= oc_task) w).2) ∨
  ∃ t, used_last instances t ∧ Forall (λ i, state i ≠ ModelLifecycleState.ACTIVE ∧ state i ≠ ModelLifecycleState.STARTING) instances ∧ has_client t = true ∧
    ∀ w, (wake_one name instances ≫= oc_task) w =
      (transition keyPrefix name (instanceId t) ModelLifecycleState.STARTING no_updates ;; refreshModelRoutingState keyPrefix name ;;
       swallow (wakeModel keyPrefix wakeTimeoutMs healthCheckIntervalMs name (instanceId t))) w.
Proof.
  assert (∀ w, trace_adds unchanged w w) as Hsame by (intros; by apply trace_adds_same).
  unfold wake_one. case_bool_decide; [by left|]. destruct (existsb (has_state ModelLifecycleState.ACTIVE) instances) eqn:Ha; [by left|].
  destruct (existsb (has_state ModelLifecycleState.STARTING) instances) eqn:Hs; [by left|]. destruct (wake_target instances) as [t|] eqn:Ht; [|by left].
  destruct (has_client t) eqn:Hc; [|by left]. right. exists t. split_and!; [by apply wake_target_spec| |done|intros w; apply answer_task].
  apply Forall_forall. intros i Hi%list_elem_of_In. rewrite <- not_true_iff_false, existsb_exists in Ha, Hs. unfold has_state in *.
  split; intros Hst; [apply Ha|apply Hs]; exists i; by rewrite bool_decide_eq_true.
Qed.
Lemma serve_wake_unfold body w :
  serve_wake body w =
    if env_leader (w_step w) then
      match body_model body with
      | None => (inl (CPError (invalidRequest "modelName is required")), w)
      | Some name =>
          if MODEL_NAME_PATTERN name then (getInstancesForModel keyPrefix name ≫= λ instances, wake_one name instances ≫= oc_task) w
          else (inl (CPError (invalidRequest "modelName must match ^[A-Za-z0-9._/-]{1,200}$")), w)
      end
    else (inl (CPError notLeader), w).
Proof.
  unfold serve_wake, wake_on_request, leader_only, isLeader, assertValidModelName, gets, mbind, M_bind. destruct (env_leader (w_step w)); [|done].
  destruct (body_model body) as [name|]; [|done]. destruct (MODEL_NAME_PATTERN name); [|done]. cbn. by destruct (getInstancesForModel keyPrefix name w) as [[e|a] w1].
Qed.

(** C39: a request to wake a model wakes at most one of its instances, and the right one.
    Whatever happens around it: either no command of the handler and of the task it leaves
    behind changes an instance record, or the handler is the leader's, the name is
    admitted, none of the instances it read was serving or starting, and every command changes
    at most the record of one instance, along an edge of the state machine; and that instance
    was read asleep, and of the instances read asleep none has a later timestamp of its last
    inference, and none with the same one has a later timestamp of its last change. *)
Theorem wake_request_wakes_one body w :
  w_trace w = [] →
  Forall unchanged (w_trace (serve_wake body w).2) ∨
  ∃ name instances w1 t,
    body_model body = Some name ∧ MODEL_NAME_PATTERN name = true ∧ env_leader (w_step w) = true ∧
    getInstancesForModel keyPrefix name w = (inr instances, w1) ∧
    Forall (λ i, state i ≠ ModelLifecycleState.ACTIVE ∧ state i ≠ ModelLifecycleState.STARTING) instances ∧ used_last instances t ∧
    Forall (instance_guarantee (instanceStateKey keyPrefix name (instanceId t))) (w_trace (serve_wake body w).2).
Proof.
  intros Hw. rewrite serve_wake_unfold. destruct (env_leader (w_step w)) eqn:Hl; [|left; simpl; by rewrite Hw].
  destruct (body_model body) as [name|]; [|left; simpl; by rewrite Hw]. destruct (MODEL_NAME_PATTERN name) eqn:Hn; [|left; simpl; by rewrite Hw].
  pose proof (getInstances_unchanged name w) as (l1 & Hl1 & Hu). rewrite Hw in Hl1. simpl in Hl1.
  destruct (getInstancesForModel keyPrefix name w) as [[e|instances] w1] eqn:Hg; cbn [snd] in Hl1.
  { left. unfold mbind, M_bind. rewrite Hg. cbn [snd]. by rewrite Hl1. }
  rewrite (bind_inr _ _ _ _ _ Hg).
  destruct (wake_one_task name instances) as [Hnone|(t & Ht & Hf & _ & Hrun)].
  - left. destruct (Hnone w1) as (l2 & Hl2 & Hu2). rewrite Hl2, Hl1. by apply Forall_app.
  - right. exists name, instances, w1, t. split_and!; [done..|]. rewrite Hrun.
    destruct (woken_guar name (instanceId t) w1) as (l2 & Hl2 & Hg2). rewrite Hl2, Hl1. apply Forall_app. split; [|done].
    eapply Forall_impl; [exact Hu|]. intros. by apply unchanged_weaken.
Qed.
End wake.

(** ** A wake settles *)
Section settled.
Context `{!Env, !QuietRedis, !RedisScan, !JsDate, !LocaleCompare} (keyPrefix : string) (wakeTimeoutMs healthCheckIntervalMs : Z).

Lemma swallow_wake_settles name id w : (0 < healthCheckIntervalMs)%Z → st_in keyPrefix name id (λ _, True) w →
  wp (swallow (wakeModel keyPrefix wakeTimeoutMs healthCheckIntervalMs name id))
    (λ _, st_in keyPrefix name id (λ s, s = ModelLifecycleState.ACTIVE ∨ s = ModelLifecycleState.ERROR)) (λ _ _, False) w.
Proof.
  intros Hi Hst. pose proof (wakeModel_settles keyPrefix name id wakeTimeoutMs healthCheckIntervalMs w Hst) as Hwp.
  pose proof (run_call_total keyPrefix 0 wakeTimeoutMs healthCheckIntervalMs CWake name id Hi w) as Ht. cbn [run_call] in Ht.
  unfold wp, swallow, attempt, catch in *. destruct (wakeModel keyPrefix wakeTimeoutMs healthCheckIntervalMs name id w) as [[e|u] w']; cbn [fst] in Ht.
  - destruct (decide (e = OutOfFuel)) as [-> |]; [done|]. eapply st_in_mono; [|exact Hwp]. auto.
  - eapply st_in_mono; [|exact Hwp]. auto.
Qed.

(** A wake on request succeeds or is visible as failed.  While Redis works and no other
    request writes, on the leader, for a model with a sleeping instance and none that serves or
    starts, and whose sleeping instances have a runner address: the request is accepted, its
    task ends, and the instance used last is then ACTIVE or in ERROR, whatever its runner
    does. *)
Theorem wake_request_settles body name w :
  (0 < healthCheckIntervalMs)%Z → glob_plain keyPrefix = true → instances_wf keyPrefix (w_db w) → env_leader (w_step w) = true →
  body_model body = Some name → MODEL_NAME_PATTERN name = true →
  (∃ i, i ∈ model_instances name (w_db w) ∧ state i = ModelLifecycleState.SLEEPING) →
  (∀ i, i ∈ model_instances name (w_db w) → state i ≠ ModelLifecycleState.ACTIVE ∧ state i ≠ ModelLifecycleState.STARTING ∧ has_client i = true) →
  let '(r, w') := serve_wake keyPrefix wakeTimeoutMs healthCheckIntervalMs body w in
  r = inr tt ∧ ∃ t s, used_last (model_instances name (w_db w)) t ∧
    db_instances (w_db w') !! instanceStateKey keyPrefix name (instanceId t) = Some s ∧
    (state s = ModelLifecycleState.ACTIVE ∨ state s = ModelLifecycleState.ERROR).
Proof.
  intros Hi Hp Hwf Hl Hb Hn (i & Hin & Hsi) Hidle. rewrite serve_wake_unfold, Hl, Hb, Hn.
  pose proof (getInstancesForModel_quiet keyPrefix name w Hp Hn Hwf) as Hq. unfold wp in Hq.
  destruct (getInstancesForModel keyPrefix name w) as [[e|rs] w1] eqn:Hg; [done|]. destruct Hq as [Hdb Hrs]. rewrite (bind_inr _ _ _ _ _ Hg).
  assert (wake_target rs ≠ None) as Hsome by (intros Hnone; by apply (wake_target_none _ Hnone i); [apply Hrs|]).
  destruct (wake_target rs) as [t|] eqn:Ht; [|done]. apply wake_target_spec in Ht as Hlast. destruct Hlast as (Htin & Hts & Hlast).
  assert (∀ st, (∀ j, j ∈ model_instances name (w_db w) → state j ≠ st) → existsb (has_state st) rs = false) as Hno.
  { intros st Hst. apply not_true_iff_false. rewrite existsb_exists. unfold has_state. intros (j & Hj%list_elem_of_In & Hs%bool_decide_eq_true).
    by apply (Hst j); [apply Hrs|]. }
  unfold wake_one. rewrite bool_decide_eq_false_2 by (intros ->; by apply not_elem_of_nil in Htin).
  rewrite !Hno, Ht by (intros j Hj; by apply Hidle). apply Hrs in Htin as Htm. destruct (Hidle t Htm) as (_ & _ & ->). cbn [negb]. rewrite answer_task.
  assert (st_in keyPrefix name (instanceId t) (λ s, s = ModelLifecycleState.SLEEPING) w1) as Hst.
  { apply (elem_of_model_instances keyPrefix) in Htm as (k & Hk & <-); [|done]. exists t. split; [|done]. rewrite Hdb. by destruct (Hwf _ _ Hk) as [<- _]. }
  assert (wp (transition keyPrefix name (instanceId t) ModelLifecycleState.STARTING no_updates ;; refreshModelRoutingState keyPrefix name ;;
      swallow (wakeModel keyPrefix wakeTimeoutMs healthCheckIntervalMs name (instanceId t)))
    (λ _, st_in keyPrefix name (instanceId t) (λ s, s = ModelLifecycleState.ACTIVE ∨ s = ModelLifecycleState.ERROR)) (λ _ _, False) w1) as Hwp.
  { apply wp_bind. eapply wp_mono; [by apply wp_transition| |by intros ? w2 (s & _ & -> & Hv)]. intros ? w2 Hw2.
    apply wp_bind. eapply (wp_mono _ _ _ (λ _ _, False)); [by apply wp_keeps; [apply refresh_keeps|exact Hw2]| |done]. intros ? w3 Hw3. apply swallow_wake_settles; [done|].
    by eapply st_in_mono; [|exact Hw3]. }
  unfold wp in Hwp. match type of Hwp with context [match ?run with _ => _ end] => destruct run as [[e|[]] w'] end; [done|]. split; [done|]. destruct Hwp as (s & Hs & Hss). exists t, s.
  split; [|done]. split_and!; [done|done|]. intros j Hj. by apply Hlast, Hrs.
Qed.
End settled.

(** ** Closed examples *)
#[local] Instance idle_quiet_redis : @QuietRedis idle_env.
Proof. by split. Qed.
Definition sleeper (id used : string) : InstanceState :=
  mkInstance id "m" ModelLifecycleState.SLEEPING None (Some "w1") (Some "h") (Some 80%Z) None (Some ("r-" +:+ id)) None (Some used) "0" None false.
Definition sleeping_db : RedisDb :=
  set_instances (λ _, <["p:models:m:a" := sleeper "a" "1"]> (<["p:models:m:b" := sleeper "b" "2"]> ∅)) empty_db.
Definition sleeping_world : World := mkWorld sleeping_db (mkLocal init_state [] ∅ init_recon no_claims []) 1000 0 [].
Definition wake_body : json := JObj [("modelName", JStr "m")].

Lemma sleeping_wf : instances_wf "p" sleeping_db.
Proof.
  intros k s. unfold sleeping_db, set_instances. simpl. rewrite lookup_insert_Some. intros [[<- <-]|[_ Hk]]; [done|].
  rewrite lookup_insert_Some in Hk. destruct Hk as [[<- <-]|[_ Hk]]; [done|]. by rewrite lookup_empty in Hk.
Qed.
Lemma sleeping_instances i : i ∈ model_instances "m" sleeping_db → i = sleeper "a" "1" ∨ i = sleeper "b" "2".
Proof.
  intros (k & Hk & _)%(elem_of_model_instances "p"); [|exact sleeping_wf]. unfold sleeping_db in Hk. simpl in Hk.
  rewrite !lookup_insert_Some in Hk. naive_solver.
Qed.

Lemma wake_request_settles_witness :
  ∃ s, db_instances (w_db (serve_wake (H := idle_env) "p" 1000 100 wake_body sleeping_world).2) !! "p:models:m:b" = Some s ∧
    state s = ModelLifecycleState.ACTIVE.
Proof.
  pose proof (wake_request_settles (H := idle_env) "p" 1000 100 wake_body "m" sleeping_world) as Hs.
  assert (∃ s, db_instances (w_db (serve_wake (H := idle_env) "p" 1000 100 wake_body sleeping_world).2) !! "p:models:m:b" = Some s ∧
    state s = ModelLifecycleState.ACTIVE) as Hrun by (eexists; split; vm_compute; reflexivity).
  destruct (serve_wake (H := idle_env) "p" 1000 100 wake_body sleeping_world) as [r w'].
  destruct Hs as [_ _]; [lia|reflexivity|exact sleeping_wf|reflexivity|reflexivity|reflexivity| | |exact Hrun].
  - exists (sleeper "a" "1"). split; [|reflexivity]. apply (elem_of_model_instances "p"); [exact sleeping_wf|].
    exists "p:models:m:a". split; reflexivity.
  - intros i [-> | ->]%sleeping_instances; done.
Defined.

Lemma wake_request_wakes_one_witness :
  ∃ name instances w1 t, body_model wake_body = Some name ∧
    getInstancesForModel (H := idle_env) "p" name sleeping_world = (inr instances, w1) ∧ used_last instances t ∧
    Forall (instance_guarantee (instanceStateKey "p" name (instanceId t))) (w_trace (serve_wake (H := idle_env) "p" 1000 100 wake_body sleeping_world).2).
Proof.
  destruct (wake_request_wakes_one (H := idle_env) "p" 1000 100 wake_body sleeping_world eq_refl) as [Hnone|(name & is_ & w1 & t & ? & ? & ? & ? & ? & ? & ?)].
  - exfalso. assert (∃ d d', w_trace (serve_wake (H := idle_env) "p" 1000 100 wake_body sleeping_world).2 !! 2 = Some (EvRedis d d') ∧
      state <$> db_instances d !! "p:models:m:b" ≠ state <$> db_instances d' !! "p:models:m:b") as (d & d' & Hd & Hne).
    { eexists _, _. split; [vm_compute; reflexivity|vm_compute; discriminate]. }
    pose proof (Forall_lookup_1 _ _ _ _ Hnone Hd) as Hu. clear Hnone Hd. unfold unchanged in Hu. apply Hne. rewrite Hu. reflexivity.
  - exists name, is_, w1, t. split_and!; assumption.
Defined.

(** Another request takes [m]/[b] to STARTING between the read and the transition. *)
Definition rival_env : Env := {|
  env_elapsed := λ _, 1; env_interfere_local := λ _ l, l; env_fault := λ _, NoFault;
  env_interfere_db := λ n d, if decide (n = 2) then (transition_script "p:models:m:b" ModelLifecycleState.STARTING no_updates "9" d).2 else d;
  env_pipe_error := λ _ _, false; env_exec_null := λ _, false; env_uuid := λ _, ""; env_health := λ _, inl "";
  env_runner := λ _, None; env_start := λ _, inl (StartNoReply ""); env_lookup := λ _, inl ""; env_worker := λ _, inl "";
  env_leader := λ _, true; env_side := λ _, None; env_owner := λ _, true; env_cancelled := λ _, false;
|}.
(** Of two requests that read the same sleeping instance, the one that loses the transition does
    not get the answer that the model is waking up: it fails as an invalid operation in state
    STARTING, although another request has just woken the model. *)
Theorem losing_wake_fails :
  (serve_wake (H := rival_env) "p" 1000 100 wake_body sleeping_world).1 =
    inl (CPError (invalidState "m/b" (lifecycle_str ModelLifecycleState.STARTING) "transition to STARTING")) ∧
  state <$> db_instances (w_db (serve_wake (H := rival_env) "p" 1000 100 wake_body sleeping_world).2) !! "p:models:m:b" = Some ModelLifecycleState.STARTING.
Proof. split; vm_compute; reflexivity. Qed.
