(* ===== verification/Views.v ===== *)
(** * What the control plane shows (control-plane/src/routes: models.ts, workers.ts, cluster.ts)

    The routes that read.  Each is a function of what it has read: the instance records, the
    rows of the models table, the last inference times, the registered workers, and the memory
    budgets at the time of the request. *)
From stdpp Require Import base tactics list strings gmap sets.
From Stdlib Require Import ZArith Lia.
From S2P Require Import Prelude Js Types Errors MemoryBudget WorkerPool Eviction Store ModelName Lifecycle Launch.

(** ** What is read *)

(** A row of the models table: what a launch uses, and the rest; dates as [toISOString()]. *)
Record ModelRow := mkRow {
  row_record : ModelRecord;
  row_displayName : option string;
  row_runtimeModule : option string;
  row_engineConfig : option (list (string * json));
  row_engineArgs : option (list string);
  row_servedModelName : option string;
  row_createdAt : string;
  row_updatedAt : string;
}.
Definition row_name (r : ModelRow) : string := mr_name (row_record r).
(** [new Map(rows.map((r) => [r.name, r]))] *)
Definition row_map (rows : list ModelRow) : list (string * ModelRow) := foldl (λ m r, jm_set m (row_name r) r) [] rows.

(** ** GET /api/v1/models *)
Definition add_instance (m : list (string * list InstanceState)) (i : InstanceState) : list (string * list InstanceState) :=
  jm_set m (modelName i) (default [] (jm_get m (modelName i)) ++ [i]).
Definition instancesByModel (all : list InstanceState) : list (string * list InstanceState) := foldl add_instance [] all.
Definition modelNames (all : list InstanceState) (rows : list ModelRow) : list string :=
  js_unique (jm_keys (instancesByModel all) ++ (row_name <$> rows)) [].
(** [[...new Set(...)].sort()] *)
Definition worker_ids (instances : list InstanceState) : list string :=
  js_sort codepoint_compare (js_unique (omap (λ i, if truthy_str (workerId i) then workerId i else None) instances) []).
(** [currentMemory]: the sum over the instances that have a measurement. *)
Definition add_measured (measured : list (string * Z)) (acc : option Z) (i : InstanceState) : option Z :=
  match jm_get measured (instanceId i) with Some m => Some (default 0 acc + m)%Z | None => acc end.
Definition current_memory (measured : list (string * Z)) (instances : list InstanceState) : option Z :=
  foldl (add_measured measured) None instances.

Record ModelInfo := mkModelInfo {
  in_modelName : string;
  in_displayName : option string;
  in_state : ModelLifecycleState;
  in_runnerType : string;
  in_runtimeModule : option string;
  in_instanceCount : nat;
  in_workerId : option string;
  in_workerIds : list string;
  in_requiredMemory : option Z;
  in_currentMemory : option Z;
  in_lastInferenceAt : option string;
  in_pinned : bool;
  in_createdAt : option string;
}.
Definition created_at (row : option ModelRow) (instances : list InstanceState) : option string :=
  match row with Some r => Some (row_createdAt r) | None => stateChangedAt <$> head instances end.
Definition model_info (measured : list (string * Z)) (inferenceTs : list (string * string)) (name : string) (row : option ModelRow)
    (instances : list InstanceState) : ModelInfo :=
  mkModelInfo name (row ≫= row_displayName) (deriveAggregateState instances)
    (match row with Some r => mr_runnerType (row_record r) | None => "unknown" end) (row ≫= row_runtimeModule) (length instances)
    (match instances with [i] => workerId i | _ => None end) (worker_ids instances)
    (row ≫= λ r, mr_requiredMemory (row_record r)) (current_memory measured instances) (jm_get inferenceTs name)
    (match row with Some r => mr_pinned (row_record r) | None => false end) (created_at row instances).
(** [stateFilter]: [None] when the query has none, or an empty one. *)
Definition list_models (stateFilter : option ModelLifecycleState) (all : list InstanceState) (rows : list ModelRow)
    (inferenceTs : list (string * string)) (measured : list (string * Z)) : list ModelInfo :=
  omap (λ name,
    let instances := default [] (jm_get (instancesByModel all) name) in
    match stateFilter with
    | Some st => if bool_decide (deriveAggregateState instances = st) then Some (model_info measured inferenceTs name (jm_get (row_map rows) name) instances) else None
    | None => Some (model_info measured inferenceTs name (jm_get (row_map rows) name) instances)
    end) (modelNames all rows).
Definition parse_filter (state : option string) : ControlPlaneError + option ModelLifecycleState :=
  if negb (truthy_str state) then inr None else
  match List.find (λ st, bool_decide (lifecycle_str st = default "" state)) all_lifecycle_states with
  | Some st => inr (Some st)
  | None => inl (invalidRequest ("Invalid state filter: " +:+ default "" state))
  end.

(** ** GET /api/v1/models/:modelName *)
Record InstanceDetail := mkInstanceDetail {
  id_instanceId : string;
  id_state : ModelLifecycleState;
  id_workerId : option string;
  id_deviceIndices : option (list Z);
  id_runnerEndpoint : option (string * Z);
  id_currentMemory : option Z;
  id_stateChangedAt : string;
  id_errorMessage : option string;
  id_createdAt : string;
}.
Definition toInstanceDetail (instance : InstanceState) (createdAt : option string) (measured : list (string * Z)) : InstanceDetail :=
  mkInstanceDetail (instanceId instance) (state instance) (workerId instance) (deviceIndices instance)
    (if has_client instance then match runnerHost instance, runnerPort instance with Some h, Some p => Some (h, p) | _, _ => None end else None)
    (jm_get measured (instanceId instance)) (stateChangedAt instance) (errorMessage instance) (default (stateChangedAt instance) createdAt).
Record ModelDetail := mkModelDetail {
  de_modelName : string;
  de_displayName : option string;
  de_state : ModelLifecycleState;
  de_runnerType : string;
  de_modelPath : string;
  de_requiredMemory : Z;
  de_deviceType : option string;
  de_tensorParallel : Z;
  de_engineConfig : option (list (string * json));
  de_engineArgs : option (list string);
  de_runtimeModule : option string;
  de_servedModelName : option string;
  de_pinned : bool;
  de_instances : list InstanceDetail;
  de_lastInferenceAt : option string;
  de_createdAt : string;
  de_updatedAt : string;
}.
(** [createdAtByInstance]: from the rows of the instances table. *)
Definition model_detail (name : string) (instances : list InstanceState) (row : option ModelRow) (createdAtByInstance : list (string * string))
    (inferenceTs : list (string * string)) (measured : list (string * Z)) : ControlPlaneError + ModelDetail :=
  if bool_decide (instances = []) && bool_decide (row = None) then inl (modelNotFound name) else
  inr (mkModelDetail name (row ≫= row_displayName) (deriveAggregateState instances)
    (match row with Some r => mr_runnerType (row_record r) | None => "unknown" end)
    (match row with Some r => mr_modelPath (row_record r) | None => "" end)
    (default 0%Z (row ≫= λ r, mr_requiredMemory (row_record r))) (row ≫= λ r, mr_deviceType (row_record r))
    (match row with Some r => mr_tensorParallel (row_record r) | None => 1%Z end)
    (row ≫= row_engineConfig) (row ≫= row_engineArgs) (row ≫= row_runtimeModule) (row ≫= row_servedModelName)
    (match row with Some r => mr_pinned (row_record r) | None => false end)
    ((λ i, toInstanceDetail i (jm_get createdAtByInstance (instanceId i)) measured) <$> instances) (jm_get inferenceTs name)
    (default "" (created_at row instances))
    (default "" (match row with Some r => Some (row_updatedAt r) | None => stateChangedAt <$> head instances end))).

(** ** Workers *)
Record DeviceView := mkDeviceView {
  dv_deviceIndex : Z;
  dv_deviceType : string;
  dv_memoryTotalBytes : Z;
  dv_memoryUsedBytes : Z;
  dv_memoryAvailableBytes : Z;
  dv_deviceName : option string;
  dv_utilizationPercent : option Z;
  dv_temperatureC : option Z;
}.
(** From the budget when there is one, else from the announcement. *)
Definition budget_device (d : DeviceBudget) : DeviceView :=
  mkDeviceView (deviceIndex d) (deviceType d) (totalBytes d) (usedBytes d) (availableBytes d) (deviceName d) (utilizationPercent d) (temperatureC d).
Definition announced_device (d : WorkerDevice) : DeviceView :=
  mkDeviceView (wdi_deviceIndex d) (device_str (wdi_deviceType d)) (wdi_memoryTotalBytes d) 0 0 None None None.
Definition worker_devices (budget : option WorkerBudget) (w : WorkerRecord) : list DeviceView :=
  match budget with Some b => budget_device <$> wb_devices b | None => announced_device <$> devices w end.

Definition on_worker (id : string) (i : InstanceState) : bool := bool_decide (workerId i = Some id).
(** [instanceCountByWorker] *)
Definition count_instance (m : list (string * Z)) (i : InstanceState) : list (string * Z) :=
  if truthy_str (workerId i) && negb (bool_decide (state i = ModelLifecycleState.STOPPED)) then
    jm_set m (default "" (workerId i)) (default 0 (jm_get m (default "" (workerId i))) + 1)%Z
  else m.
Definition instanceCountByWorker (all : list InstanceState) : list (string * Z) := foldl count_instance [] all.

Record WorkerInfo := mkWorkerInfo {
  wi_workerId : string;
  wi_status : WorkerStatus;
  wi_devices : list DeviceView;
  wi_modelCount : Z;
  wi_runnerCapabilities : option (list WorkerCapability);
  wi_lastHeartbeatAt : option string;
}.
Definition worker_info (budget : option WorkerBudget) (counts : list (string * Z)) (w : WorkerRecord) : WorkerInfo :=
  mkWorkerInfo (wr_workerId w) (status w) (worker_devices budget w) (default 0%Z (jm_get counts (wr_workerId w)))
    (match capabilities w with [] => None | cs => Some cs end) (lastHeartbeatAt w).
Definition list_workers (budget_of : string → option WorkerBudget) (pool : list WorkerRecord) (all : list InstanceState) : list WorkerInfo :=
  (λ w, worker_info (budget_of (wr_workerId w)) (instanceCountByWorker all) w) <$> pool.

(** The models of one worker, in the worker's detail and in the view of the cluster's memory. *)
Record WorkerModel := mkWorkerModel {
  wm_modelName : string;
  wm_displayName : option string;
  wm_instanceId : string;
  wm_state : ModelLifecycleState;
  wm_memoryUsedBytes : option Z;
  wm_deviceIndices : option (list Z);
}.
Definition measured_on (budget : option WorkerBudget) : list (string * Z) :=
  foldl add_measurement [] (default [] (budget ≫= instanceMeasurements)).
(** [allRecords.filter((r) => r.displayName != null)] as a map *)
Definition displayNameByModel (rows : list ModelRow) : list (string * string) :=
  foldl (λ m r, match row_displayName r with Some d => jm_set m (row_name r) d | None => m end) [] rows.
Definition placed_on (id : string) (i : InstanceState) : bool :=
  on_worker id i && negb (bool_decide (state i = ModelLifecycleState.STOPPED)) && negb (bool_decide (state i = ModelLifecycleState.PENDING)).
Definition worker_model (names : list (string * string)) (measured : list (string * Z)) (i : InstanceState) : WorkerModel :=
  mkWorkerModel (modelName i) (jm_get names (modelName i)) (instanceId i) (state i) (jm_get measured (instanceId i)) (deviceIndices i).
Definition worker_models (budget : option WorkerBudget) (rows : list ModelRow) (all : list InstanceState) (id : string) : list WorkerModel :=
  worker_model (displayNameByModel rows) (measured_on budget) <$> List.filter (placed_on id) all.

Record WorkerDetail := mkWorkerDetail {
  wdt_workerId : string;
  wdt_status : WorkerStatus;
  wdt_devices : list DeviceView;
  wdt_models : list WorkerModel;
  wdt_runnerCapabilities : list WorkerCapability;
  wdt_lastHeartbeatAt : option string;
  wdt_joinedAt : string;
}.
Definition worker_detail (budget_of : string → option WorkerBudget) (w : option WorkerRecord) (id : string) (rows : list ModelRow)
    (all : list InstanceState) : ControlPlaneError + WorkerDetail :=
  match w with
  | None => inl (workerNotFound id)
  | Some w => inr (mkWorkerDetail (wr_workerId w) (status w) (worker_devices (budget_of id) w) (worker_models (budget_of id) rows all id)
                     (capabilities w) (lastHeartbeatAt w) (joinedAt w))
  end.

(** ** The cluster *)
Record ModelCounts := mkCounts { mc_total : nat; mc_active : nat; mc_sleeping : nat; mc_starting : nat; mc_error : nat; mc_other : nat }.
Definition count_state (c : ModelCounts) (i : InstanceState) : ModelCounts :=
  let '(mkCounts t a s st e o) := c in
  match state i with
  | ModelLifecycleState.ACTIVE => mkCounts t (S a) s st e o
  | ModelLifecycleState.SLEEPING => mkCounts t a (S s) st e o
  | ModelLifecycleState.STARTING => mkCounts t a s (S st) e o
  | ModelLifecycleState.ERROR => mkCounts t a s st (S e) o
  | _ => mkCounts t a s st e (S o)
  end.
Record ClusterStatus := mkClusterStatus {
  cst_isLeader : bool;
  cst_workerCount : nat;
  cst_workersOnline : nat;
  cst_modelCounts : ModelCounts;
  cst_memory : ClusterSummary;
}.
Definition cluster_status (isLeader : bool) (pool : list WorkerRecord) (all : list InstanceState) (summary : ClusterSummary) : ClusterStatus :=
  mkClusterStatus isLeader (length pool) (length (List.filter (λ w, bool_decide (status w = WorkerStatus.ONLINE)) pool))
    (foldl count_state (mkCounts (length all) 0 0 0 0 0) all) summary.
(** Each worker with its devices (and their cache pools) and its models. *)
Definition cache_pools (budget : option WorkerBudget) : list (option KvCache) :=
  match budget with Some b => kvCache <$> wb_devices b | None => [] end.
Record WorkerMemory := mkWorkerMemory {
  wme_workerId : string;
  wme_devices : list DeviceView;
  wme_kvCaches : list (option KvCache);
  wme_models : list WorkerModel;
}.
Definition worker_memory (budget : option WorkerBudget) (rows : list ModelRow) (all : list InstanceState) (w : WorkerRecord) : WorkerMemory :=
  mkWorkerMemory (wr_workerId w) (worker_devices budget w) (cache_pools budget) (worker_models budget rows all (wr_workerId w)).
Definition cluster_memory (budget_of : string → option WorkerBudget) (pool : list WorkerRecord) (rows : list ModelRow) (all : list InstanceState)
    (summary : ClusterSummary) : list WorkerMemory * ClusterSummary :=
  ((λ w, worker_memory (budget_of (wr_workerId w)) rows all w) <$> pool, summary).

(** ** The list of models *)
Definition of_model (name : string) (i : InstanceState) : bool := bool_decide (modelName i = name).
Lemma instancesByModel_fold all m name :
  jm_get (foldl add_instance m all) name =
    match List.filter (of_model name) all with [] => jm_get m name | is_ => Some (default [] (jm_get m name) ++ is_) end.
Proof.
  revert m. induction all as [|i all IH]; intros m; [done|]. cbn [foldl List.filter]. rewrite IH. unfold add_instance at 1 2, of_model at 2.
  case_bool_decide as Hn.
  - rewrite Hn, jm_get_set_eq. destruct (List.filter (of_model name) all); [done|]. simpl. by rewrite <- app_assoc.
  - rewrite jm_get_set_ne by done. by destruct (List.filter (of_model name) all).
Qed.
Lemma instancesByModel_get all name : default [] (jm_get (instancesByModel all) name) = List.filter (of_model name) all.
Proof. unfold instancesByModel. rewrite instancesByModel_fold. by destruct (List.filter (of_model name) all). Qed.
Lemma elem_of_model_filter name all i : i ∈ List.filter (of_model name) all ↔ i ∈ all ∧ modelName i = name.
Proof. rewrite list_elem_of_In, filter_In, <- list_elem_of_In. unfold of_model. by rewrite bool_decide_eq_true. Qed.
Lemma instancesByModel_keys all name : name ∈ jm_keys (instancesByModel all) ↔ ∃ i, i ∈ all ∧ modelName i = name.
Proof.
  destruct (decide (name ∈ jm_keys (instancesByModel all))) as [Hin|Hout].
  - split; [intros _|done]. assert (jm_get (instancesByModel all) name ≠ None) as Hg by (intros Hg%jm_get_None; done).
    unfold instancesByModel in Hg. rewrite instancesByModel_fold in Hg. destruct (List.filter (of_model name) all) as [|i is_] eqn:Hf; [done|].
    exists i. apply elem_of_model_filter. rewrite Hf. left.
  - split; [done|]. intros (i & Hi). apply jm_get_None in Hout. pose proof (instancesByModel_get all name) as Hg. rewrite Hout in Hg.
    assert (i ∈ List.filter (of_model name) all) as Hin by by apply elem_of_model_filter. rewrite <- Hg in Hin. by apply not_elem_of_nil in Hin.
Qed.
Lemma elem_of_modelNames all rows name :
  name ∈ modelNames all rows ↔ (∃ i, i ∈ all ∧ modelName i = name) ∨ name ∈ row_name <$> rows.
Proof. unfold modelNames. rewrite elem_of_js_unique, elem_of_app, instancesByModel_keys. set_solver. Qed.
(** The entry of a model, and whether the filter lets it through. *)
Lemma elem_of_list_models f all rows ts ms info :
  info ∈ list_models f all rows ts ms ↔
    ∃ name, name ∈ modelNames all rows ∧
      info = model_info ms ts name (jm_get (row_map rows) name) (List.filter (of_model name) all) ∧ (∀ st, f = Some st → in_state info = st).
Proof.
  unfold list_models. rewrite list_elem_of_omap. split; intros (name & Hn & Hi); exists name; (split; [done|]); rewrite instancesByModel_get in *.
  - destruct f as [st|]; [|by injection Hi as <-]. case_bool_decide; [|done]. injection Hi as <-. split; [done|]. by intros ? [= <-].
  - destruct Hi as [-> Hf]. destruct f as [st|]; [|done]. rewrite bool_decide_eq_true_2; [done|]. by apply Hf.
Qed.
Lemma list_models_names f all rows ts ms :
  in_modelName <$> list_models f all rows ts ms `sublist_of` modelNames all rows.
Proof.
  unfold list_models. induction (modelNames all rows) as [|name names IH]; [constructor|]. cbn [omap]. unfold omap in *. simpl.
  destruct f as [st|]; [case_bool_decide|]; simpl; by constructor.
Qed.

(** The list of models is the list of models.  Whatever instances and rows there are, the
    answer has one entry, not more, for each name that has an instance or a row and whose state
    passes the filter; the entry shows the state derived from the model's instances, their
    number, and a worker only when there is one instance; a configuration comes from the row. *)
Theorem list_models_exact f all rows ts ms :
  NoDup (in_modelName <$> list_models f all rows ts ms) ∧
  (∀ name, name ∈ in_modelName <$> list_models f all rows ts ms ↔
    ((∃ i, i ∈ all ∧ modelName i = name) ∨ name ∈ row_name <$> rows) ∧
    ∀ st, f = Some st → deriveAggregateState (List.filter (of_model name) all) = st) ∧
  (∀ info, info ∈ list_models f all rows ts ms →
    let instances := List.filter (of_model (in_modelName info)) all in
    in_state info = deriveAggregateState instances ∧ in_instanceCount info = length instances ∧
    (∀ w, in_workerId info = Some w → ∃ i, instances = [i] ∧ workerId i = Some w)).
Proof.
  split_and!.
  - eapply sublist_NoDup; [apply js_unique_NoDup|apply list_models_names].
  - intros name. rewrite list_elem_of_fmap, <- elem_of_modelNames. split.
    + intros (info & -> & (n & Hn & -> & Hf)%elem_of_list_models). done.
    + intros [Hn Hf]. eexists. split; [|apply elem_of_list_models; exists name; split_and!; [done|reflexivity|done]]. done.
  - intros info (n & Hn & -> & _)%elem_of_list_models. cbn. split_and!; [done|done|].
    intros w. destruct (List.filter (of_model n) all) as [|i [|? ?]]; [done| |done]. intros Hw. by exists i.
Qed.

Lemma row_map_keeps name l m : name ∈ jm_keys m → name ∈ jm_keys (foldl (λ m r, jm_set m (row_name r) r) m l).
Proof.
  revert m. induction l as [|r l IH]; intros m Hm; [done|]. cbn [foldl]. apply IH. rewrite jm_keys_set. case_decide; [done|]. by apply elem_of_app; left.
Qed.
Lemma row_map_has rows name : name ∈ row_name <$> rows → jm_get (row_map rows) name ≠ None.
Proof.
  intros Hr Hg%jm_get_None. apply Hg. clear Hg. unfold row_map. generalize (@nil (string * ModelRow)) as m.
  induction rows as [|r rows IH]; intros m; [by apply not_elem_of_nil in Hr|]. cbn [foldl]. apply elem_of_cons in Hr as [-> |Hr]; [|by apply IH].
  apply row_map_keeps. rewrite jm_keys_set. case_decide; [done|]. apply elem_of_app. right. by left.
Qed.

(** The list and the detail of a model agree: when both routes read the same data, the detail of
    a listed model is found and shows the same state, configuration and times, as many
    instances as the list counts, and measurements that add up to the list's figure. *)
Definition add_optional (acc x : option Z) : option Z := match x with Some m => Some (default 0 acc + m)%Z | None => acc end.
Theorem list_and_detail_agree f all rows ts ms created info :
  info ∈ list_models f all rows ts ms →
  let name := in_modelName info in
  ∃ d, model_detail name (List.filter (of_model name) all) (jm_get (row_map rows) name) created ts ms = inr d ∧
    de_modelName d = name ∧ de_state d = in_state info ∧ de_runnerType d = in_runnerType info ∧ de_displayName d = in_displayName info ∧
    de_runtimeModule d = in_runtimeModule info ∧ de_pinned d = in_pinned info ∧ de_requiredMemory d = default 0%Z (in_requiredMemory info) ∧
    de_lastInferenceAt d = in_lastInferenceAt info ∧ Some (de_createdAt d) = in_createdAt info ∧
    length (de_instances d) = in_instanceCount info ∧ foldl add_optional None (id_currentMemory <$> de_instances d) = in_currentMemory info.
Proof.
  intros (n & Hn & -> & _)%elem_of_list_models. cbn [in_modelName model_info]. set (is_ := List.filter (of_model n) all).
  assert (is_ ≠ [] ∨ jm_get (row_map rows) n ≠ None) as Hsome.
  { apply elem_of_modelNames in Hn as [(i & Hi)|Hr].
    - left. intros Heq. assert (i ∈ is_) as Hin by by apply elem_of_model_filter. rewrite Heq in Hin. by apply not_elem_of_nil in Hin.
    - right. by apply row_map_has. }
  unfold model_detail. replace (bool_decide (is_ = []) && bool_decide (jm_get (row_map rows) n = None)) with false.
  2: { symmetry. apply andb_false_iff. destruct Hsome; [left|right]; by apply bool_decide_eq_false. }
  eexists. split; [reflexivity|]. cbn. split_and!; try done.
  - unfold created_at. destruct (jm_get (row_map rows) n); [done|]. destruct Hsome as [Hne|]; [|done]. by destruct is_.
  - by rewrite length_fmap.
  - clear Hsome. unfold current_memory. generalize (@None Z) as acc. induction is_ as [|i l IH]; intros acc; [done|]. cbn. apply IH.
Qed.

(** ** Workers and the cluster *)
Lemma placed_on_unique id id' i : placed_on id i = true → placed_on id' i = true → id = id'.
Proof. unfold placed_on, on_worker. rewrite !andb_true_iff, !bool_decide_eq_true. intros [[H1 _] _] [[H2 _] _]. congruence. Qed.
Lemma filter_orb_disjoint {A} (p q : A → bool) l : (∀ x, x ∈ l → p x = true → q x = true → False) →
  List.filter (λ x, p x || q x) l ≡ₚ List.filter p l ++ List.filter q l.
Proof.
  induction l as [|x l IH]; intros Hd; [done|]. specialize (IH (λ y Hy, Hd y (proj2 (elem_of_cons _ _ _) (or_intror Hy)))). cbn [List.filter].
  destruct (p x) eqn:Hp, (q x) eqn:Hq; simpl; [by destruct (Hd x); [left| |]|by apply perm_skip| |done]. rewrite IH. apply Permutation_middle.
Qed.
Lemma placements_partition ids all : NoDup ids →
  concat ((λ id, List.filter (placed_on id) all) <$> ids) ≡ₚ List.filter (λ i, existsb (λ id, placed_on id i) ids) all.
Proof.
  induction 1 as [|id ids Hid _ IH]; [by rewrite filter_none by by apply Forall_true|]. cbn [fmap list_fmap concat]. rewrite IH. cbn [existsb]. symmetry.
  apply filter_orb_disjoint. intros i _ Hp (id' & Hin & Hp')%existsb_exists. apply Hid. rewrite (placed_on_unique id id' i Hp Hp'). by apply list_elem_of_In.
Qed.
Lemma concat_fmap_fmap {A B C} (f : A → list B) (g : B → C) (l : list A) : concat ((λ a, g <$> f a) <$> l) = g <$> concat (f <$> l).
Proof. induction l as [|a l IH]; [done|]. cbn. by rewrite IH, fmap_app. Qed.

(** Every placed instance is shown once.  The workers of the cluster view are the registered
    ones in their order, and their lists of models, taken together, name each instance that is
    placed on one of them, and is neither stopped nor pending, exactly once; an instance is
    shown under the worker it is placed on, in the state it is in. *)
Theorem cluster_memory_exact budget_of (pool : list WorkerRecord) rows all summary :
  NoDup (wr_workerId <$> pool) →
  let views := (cluster_memory budget_of pool rows all summary).1 in
  wme_workerId <$> views = wr_workerId <$> pool ∧
  concat ((λ v, wm_instanceId <$> wme_models v) <$> views) ≡ₚ
    instanceId <$> List.filter (λ i, existsb (λ id, placed_on id i) (wr_workerId <$> pool)) all ∧
  ∀ v m, v ∈ views → m ∈ wme_models v → ∃ i, i ∈ all ∧ workerId i = Some (wme_workerId v) ∧ wm_instanceId m = instanceId i ∧ wm_state m = state i.
Proof.
  intros Hnd. unfold cluster_memory. cbn [fst]. split_and!.
  - rewrite <- list_fmap_compose. by apply list_fmap_ext.
  - rewrite <- list_fmap_compose, <- (placements_partition _ _ Hnd), <- concat_fmap_fmap, <- list_fmap_compose. apply reflexive_eq. f_equal.
    apply list_fmap_ext. intros k w _. cbn. unfold worker_models. rewrite <- list_fmap_compose. by apply list_fmap_ext.
  - intros v m (w & -> & Hw)%list_elem_of_fmap. cbn. unfold worker_models. intros (i & -> & Hi)%list_elem_of_fmap.
    rewrite list_elem_of_In, filter_In, <- list_elem_of_In in Hi. destruct Hi as [Hi Hp]. exists i.
    unfold placed_on, on_worker in Hp. rewrite !andb_true_iff, bool_decide_eq_true in Hp. by destruct Hp as [[? _] _].
Qed.

Lemma count_fold c all :
  let c' := foldl count_state c all in
  mc_total c' = mc_total c ∧
  mc_active c' + mc_sleeping c' + mc_starting c' + mc_error c' + mc_other c' =
    mc_active c + mc_sleeping c + mc_starting c + mc_error c + mc_other c + length all.
Proof.
  revert c. induction all as [|i all IH]; intros c; cbn [foldl length]; [split; [done|lia]|]. specialize (IH (count_state c i)).
  destruct IH as [Ht Hs]. rewrite Ht, Hs. destruct c. unfold count_state. destruct (state i); cbn; split; (done || lia).
Qed.
(** The counts of the cluster status are complete: their parts add up to the total. *)
Theorem status_counts_complete isLeader pool all summary :
  let c := cst_modelCounts (cluster_status isLeader pool all summary) in
  mc_active c + mc_sleeping c + mc_starting c + mc_error c + mc_other c = mc_total c ∧ mc_total c = length all.
Proof. cbn. destruct (count_fold (mkCounts (length all) 0 0 0 0 0) all) as [-> ->]. cbn. lia. Qed.

(** The model count of a worker in the list of workers counts what its detail lists, and the
    pending instances assigned to it. *)
Lemma count_instance_fold id all m : id ≠ "" →
  default 0%Z (jm_get (foldl count_instance m all) id) =
    (default 0%Z (jm_get m id) + Z.of_nat (length (List.filter (λ i, on_worker id i && negb (bool_decide (state i = ModelLifecycleState.STOPPED))) all)))%Z.
Proof.
  intros Hid. revert m. induction all as [|i all IH]; intros m; [simpl; lia|]. cbn [foldl List.filter]. rewrite IH. unfold count_instance, on_worker.
  destruct (workerId i) as [w|] eqn:Hw.
  - destruct (decide (w = id)) as [-> |Hne].
    + assert (truthy_str (Some id) = true) as -> by by destruct id. rewrite (bool_decide_eq_true_2 (Some id = Some id)) by done. cbn [andb].
      destruct (negb _); cbn [length]; [rewrite jm_get_set_eq; cbn; lia|lia].
    + rewrite (bool_decide_eq_false_2 (Some w = Some id)) by congruence. cbn [andb]. destruct (_ && _); [|done]. cbn. by rewrite jm_get_set_ne.
  - rewrite (bool_decide_eq_false_2 (None = Some id)) by done. done.
Qed.
Lemma placed_not_pending id (all : list InstanceState) i : i ∈ all → placed_on id i = true →
  on_worker id i && bool_decide (state i = ModelLifecycleState.PENDING) = true → False.
Proof. intros _. unfold placed_on. rewrite !andb_true_iff, !negb_true_iff. intros [_ Hp] [_ Hq]. congruence. Qed.
Lemma list_filter_ext {A} (p q : A → bool) l : (∀ x, p x = q x) → List.filter p l = List.filter q l.
Proof. intros He. induction l as [|x l IH]; [done|]. cbn [List.filter]. by rewrite He, IH. Qed.
Theorem model_count_of_worker budget_of pool all rows info :
  info ∈ list_workers budget_of pool all → wi_workerId info ≠ "" →
  wi_modelCount info = Z.of_nat (length (worker_models (budget_of (wi_workerId info)) rows all (wi_workerId info)) +
    length (List.filter (λ i, on_worker (wi_workerId info) i && bool_decide (state i = ModelLifecycleState.PENDING)) all)).
Proof.
  intros (w & -> & _)%list_elem_of_fmap Hne. cbn [wi_workerId wi_modelCount worker_info] in *. unfold instanceCountByWorker, worker_models.
  rewrite count_instance_fold, length_fmap, <- length_app, <- filter_orb_disjoint by first [done|apply placed_not_pending].
  change (default 0%Z (jm_get [] (wr_workerId w))) with 0%Z. rewrite Z.add_0_l. do 2 f_equal. apply list_filter_ext. intros i. unfold placed_on. by destruct (on_worker _ i), (state i).
Qed.

(** The counts are of instances: a model with two replicas counts twice, although the list of
    models has it once. *)
Definition replica (id : string) : InstanceState :=
  mkInstance id "m" ModelLifecycleState.ACTIVE None (Some "w1") None None None None None None "0" None false.
Theorem status_counts_replicas summary :
  mc_total (cst_modelCounts (cluster_status true [] [replica "a"; replica "b"] summary)) = 2 ∧
  length (list_models None [replica "a"; replica "b"] [] [] []) = 1.
Proof. split; vm_compute; reflexivity. Qed.
