(* ===== verification/Apptainer.v ===== *)
(** * Launching engines with Apptainer (runners/dev-worker/src/apptainer-launcher.ts)

    The production launcher: it turns a launch request into the command line of
    [apptainer exec], refuses requests that would leave the weights or the modules
    directory or take over a flag of the platform, verifies the image, and polls the
    runner until it is healthy.  The file system ([realpath]), the image check, the health
    endpoint and the clock are arguments. *)
From stdpp Require Import base tactics list strings gmap sets.
From Stdlib Require Import ZArith Lia Ascii.
From S2P Require Import Prelude Js Paths Types WorkerAgent.

(** ** Data *)
Definition RESERVED_ENGINE_FLAGS : list string :=
  ["--port"; "--host"; "--model"; "--served-model-name"; "--tensor-parallel-size"; "--engine-port"].

Record ApptainerLauncherConfig := mkApptainerConfig {
  ac_apptainerBin : string;
  ac_modulesDir : string;
  ac_weightsDir : string;
  ac_scratchDir : string;
  ac_binds : list string;
  ac_runnerEntrypoint : list string;
  ac_home : string;
  ac_verifySif : bool;
  ac_healthTimeoutMs : Z;
  ac_healthIntervalMs : Z;
  ac_stopGraceMs : Z;
  ac_advertiseHost : string;
  ac_mlserverParallelWorkers : option Z;
}.
Definition DEFAULT_APPTAINER_CONFIG : ApptainerLauncherConfig :=
  mkApptainerConfig "apptainer" "/modules" "/weights" "/scratch" ["/weights"; "/scratch"] ["python3"; "-m"; "sardeenz_vllm_runner"]
    "/scratch/home" true 900000 1000 30000 "localhost" (Some 0%Z).

Record ExecPlan := mkPlan {
  ep_command : string;
  ep_args : list string;
  ep_env : list (string * string);
  ep_sifPath : string;
}.
(** What [realpath] answers. *)
Inductive RealpathReply := RealpathOk (path : string) | RealpathENOENT | RealpathError.
Inductive LaunchError :=
| NoRuntimeModule | InvalidRuntimeModule (m : string)
| PathNotAbsolute | PathEscapes | PathMissing | PathUnreadable | PathSymlinkEscapes
| FlagReserved (key : string) | FlagAbbreviates (key flag : string)
| VerifyFailed (code : Z) | VerifyUnrunnable
| ExitedEarly | ReportedError | HealthTimeout.

(** ** The command *)
Section launcher.
Context (config : ApptainerLauncherConfig) (cwd : string) (realpath : string → RealpathReply) (process_env : list (string * string)).

Definition resolveModule (spec : LaunchSpec) : LaunchError + string :=
  let module :=
    match ls_runtimeModule spec with
    | Some m => Some m
    | None =>
        v ← ls_engineConfig spec ≫= λ c, is_nonempty_string (obj_get c "version");
        Some (ls_runnerType spec +:+ "-" +:+ v)
    end in
  match module with
  | None => inl NoRuntimeModule
  | Some m => if name_re m then inr m else inl (InvalidRuntimeModule m)
  end.
Definition sif_path (m : string) : string := ac_modulesDir config +:+ "/" +:+ m +:+ ".sif".
Definition resolveSifPath (spec : LaunchSpec) : LaunchError + string :=
  match resolveModule spec with inl e => inl e | inr m => inr (sif_path m) end.

Definition validateModelPath (modelPath : string) : option LaunchError :=
  if negb (starts_with "/" modelPath) then Some PathNotAbsolute else
  let root := resolve cwd (ac_weightsDir config) in
  let resolved := resolve cwd modelPath in
  if negb (starts_with (root +:+ "/") resolved) then Some PathEscapes else
  match realpath resolved with
  | RealpathENOENT => Some PathMissing
  | RealpathError => Some PathUnreadable
  | RealpathOk real => if starts_with (root +:+ "/") real then None else Some PathSymlinkEscapes
  end.

(** The loop over [engineArgs]: the first token that must not be passed on. *)
Definition flag_key (token : string) : string := default "" (head (split_on "="%char token)).
Definition check_engine_arg (token : string) : option LaunchError :=
  if negb (starts_with "--" token) then None else
  let key := flag_key token in
  if bool_decide (key ∈ RESERVED_ENGINE_FLAGS) then Some (FlagReserved key) else
  if Nat.ltb 2 (str_length key) then
    match List.find (λ reserved, negb (bool_decide (reserved = key)) && starts_with key reserved) RESERVED_ENGINE_FLAGS with
    | Some reserved => Some (FlagAbbreviates key reserved)
    | None => None
    end
  else None.
Fixpoint check_engine_args (tokens : list string) : option LaunchError :=
  match tokens with
  | [] => None
  | t :: ts => match check_engine_arg t with Some e => Some e | None => check_engine_args ts end
  end.

Definition use_nv (spec : LaunchSpec) : bool := bool_decide (to_upper (ls_deviceType spec) = "CUDA").
Definition device_indices (spec : LaunchSpec) : string := js_join "," ((λ d, show_int d.1) <$> ls_devices spec).
(** [envFlags], in insertion order. *)
Definition env_flags (spec : LaunchSpec) (sifPath : string) : list (string * string) :=
  let cacheDir := ac_scratchDir config +:+ "/cache" in
  [("XDG_CACHE_HOME", cacheDir);
   ("HF_HOME", cacheDir +:+ "/huggingface");
   ("FLASHINFER_WORKSPACE_DIR", cacheDir +:+ "/flashinfer");
   ("ENABLE_KVCACHED", "true");
   ("KVCACHED_AUTOPATCH", "1");
   ("SARDEENZ_MLSERVER_GRPC_PORT", show_int (ls_grpcPort spec));
   ("SARDEENZ_MLSERVER_METRICS_PORT", show_int (ls_metricsPort spec));
   ("MLSERVER_METRICS_DIR", ac_scratchDir config +:+ "/metrics/" +:+ ls_runnerId spec);
   ("MLSERVER_ENVIRONMENTS_DIR", ac_scratchDir config +:+ "/environments/" +:+ ls_runnerId spec);
   ("MLSERVER_PARALLEL_WORKERS", show_int (default 0%Z (ac_mlserverParallelWorkers config)))] ++
  (if ends_with "/vllm-0.24.sif" sifPath then [("VLLM_USE_V2_MODEL_RUNNER", "0")] else []) ++
  (if use_nv spec then [("CUDA_VISIBLE_DEVICES", device_indices spec); ("SARDEENZ_DEVICE_INDICES", device_indices spec)] else []).

Definition served_names (spec : LaunchSpec) : list string :=
  if truthy_str (ls_servedModelName spec) && negb (bool_decide (ls_servedModelName spec = Some (ls_modelName spec)))
  then [default "" (ls_servedModelName spec); ls_modelName spec] else [ls_modelName spec].
(** The arguments of [apptainer], up to the image; then those of the runner's shim, up to
    [--]; then those of the engine. *)
Definition apptainer_args (spec : LaunchSpec) (sifPath : string) : list string :=
  ["exec"; "--cleanenv"] ++ (if use_nv spec then ["--nv"] else []) ++
  (b ← ac_binds config; ["--bind"; b]) ++ (kv ← env_flags spec sifPath; ["--env"; kv.1 +:+ "=" +:+ kv.2]).
Definition entrypoint_of (spec : LaunchSpec) : list string :=
  match ls_entrypoint spec with Some (e :: es) => e :: es | _ => ac_runnerEntrypoint config end.
Definition shim_args (spec : LaunchSpec) : list string :=
  ["--model"; ls_modelPath spec; "--port"; show_int (ls_port spec); "--engine-port"; show_int (ls_enginePort spec)] ++
  (if Z.ltb 1 (ls_tensorParallel spec) then ["--tensor-parallel"; show_int (ls_tensorParallel spec)] else []).
Definition engine_args (spec : LaunchSpec) : list string :=
  "--served-model-name" :: served_names spec ++ default [] (ls_engineArgs spec).

Definition injected (key : string) : bool := starts_with "APPTAINERENV_" key || starts_with "SINGULARITYENV_" key.
Definition spawn_env : list (string * string) :=
  jm_set (jm_set (List.filter (λ kv, negb (injected kv.1)) process_env) "HOME" (ac_home config))
    "APPTAINER_HOME" (ac_home config +:+ ":" +:+ ac_home config).

Definition buildExecPlan (spec : LaunchSpec) : LaunchError + ExecPlan :=
  match validateModelPath (ls_modelPath spec) with
  | Some e => inl e
  | None =>
      match resolveSifPath spec with
      | inl e => inl e
      | inr sifPath =>
          match check_engine_args (default [] (ls_engineArgs spec)) with
          | Some e => inl e
          | None =>
              inr (mkPlan (ac_apptainerBin config)
                (apptainer_args spec sifPath ++ [sifPath] ++ entrypoint_of spec ++ shim_args spec ++ ["--"] ++ engine_args spec)
                spawn_env sifPath)
          end
      end
  end.

(** ** Starting a runner

    The [k]-th reading of the clock, the answer of the [k]-th health check (the state it reports,
    [None] when unreachable), and when the child exits: at event [2 * k] before the [k]-th
    check of [hasExited], at [2 * k + 1] while the [k]-th health check is in flight. *)
Context (clock : nat → Z) (health : nat → option string) (exit_at : option nat).
Definition exited_by (event : nat) : bool := match exit_at with Some e => Nat.leb e event | None => false end.

(** [waitUntilHealthy]: [None] only when the fuel is out; otherwise the result and the event
    at which it was known. *)
Fixpoint poll (fuel k : nat) (deadline : Z) : option ((LaunchError + unit) * nat) :=
  match fuel with
  | O => None
  | S fuel' =>
      if Z.ltb (clock (S k)) deadline then
        if exited_by (2 * k) then Some (inl ExitedEarly, 2 * k) else
        match health k with
        | Some state =>
            if bool_decide (state = "READY") then Some (inr (), 2 * k + 1) else
            if bool_decide (state = "ERROR") then Some (inl ReportedError, 2 * k + 1) else poll fuel' (S k) deadline
        | None => poll fuel' (S k) deadline
        end
      else Some (inl HealthTimeout, 2 * k)
  end.
Definition waitUntilHealthy (fuel : nat) : option ((LaunchError + unit) * nat) := poll fuel 0 (clock 0 + ac_healthTimeoutMs config).

(** [stopChild]: the signals sent, with their times from the call on, and when the promise
    resolves; [dies] is when the child exits, if it does. *)
Inductive Signal := SIGTERM | SIGKILL.
Definition BACKSTOP_MS : Z := 5000.
Definition stopChild (hasExited : bool) (dies : option Z) : list (Signal * Z) * Z :=
  if hasExited then ([], 0%Z) else
  let grace := ac_stopGraceMs config in
  let resolved := match dies with Some t => Z.min t (grace + BACKSTOP_MS) | None => grace + BACKSTOP_MS end%Z in
  ((SIGTERM, 0%Z) :: (if Z.leb resolved grace then [] else [(SIGKILL, grace)]), resolved).

(** [start]: the result, the signals the child was sent with their times from the decision on,
    and whether the manager will hear of the child's exit.  [verify] is the exit code of
    [apptainer verify], [None] when it could not be run; [dies] is when the child exits after
    [stopChild] was called. *)
Record StartOutcome := mkOutcome { so_result : LaunchError + LaunchHandle; so_signals : list (Signal * Z); so_exitReported : bool }.
Definition verifySif (verify : option Z) : option LaunchError :=
  if ac_verifySif config then
    match verify with Some code => if Z.eqb code 0 then None else Some (VerifyFailed code) | None => Some VerifyUnrunnable end
  else None.
Definition start (fuel : nat) (verify pid dies : option Z) (spec : LaunchSpec) : option StartOutcome :=
  match buildExecPlan spec with
  | inl e => Some (mkOutcome (inl e) [] false)
  | inr plan =>
      match verifySif verify with
      | Some e => Some (mkOutcome (inl e) [] false)
      | None =>
          match waitUntilHealthy fuel with
          | None => None
          | Some (inl e, event) => Some (mkOutcome (inl e) (if negb (exited_by event) then (stopChild (exited_by event) dies).1 else []) false)
          | Some (inr _, event) =>
              Some (mkOutcome (inr (mkHandle (ac_advertiseHost config) (ls_port spec) (ls_enginePort spec) pid)) []
                (bool_decide (is_Some exit_at) && negb (exited_by event)))
          end
      end
  end.

(** ** Engine arguments *)
Lemma flag_key_cons a s : a ≠ "="%char → flag_key (String a s) = String a (flag_key s).
Proof.
  intros Ha. unfold flag_key. simpl. rewrite decide_False by done. pose proof (split_on_not_nil "="%char s). by destruct (split_on "="%char s).
Qed.
Lemma starts_with_refl s : starts_with s s = true.
Proof. rewrite starts_with_spec. exists "". by rewrite str_app_nil_r. Qed.
Lemma check_engine_arg_spec token :
  check_engine_arg token = None ↔
  (starts_with "--" token = true → flag_key token ≠ "--" → ∀ reserved, reserved ∈ RESERVED_ENGINE_FLAGS → starts_with (flag_key token) reserved = false).
Proof.
  unfold check_engine_arg. destruct (starts_with "--" token) eqn:Ht; simpl negb; cbv iota; [|naive_solver].
  apply starts_with_spec in Ht as [t ->]. change ("--" +:+ t) with (String "-" (String "-" t)). rewrite !flag_key_cons by done.
  set (key := String "-" (String "-" (flag_key t))). case_bool_decide as Hin.
  { split; [done|]. intros Hall. assert (key ≠ "--") as Hk by (intros E; rewrite E in Hin; unfold RESERVED_ENGINE_FLAGS in Hin; set_solver).
    specialize (Hall eq_refl Hk key Hin). by rewrite starts_with_refl in Hall. }
  destruct (Nat.ltb_spec 2 (str_length key)) as [Hl|Hl].
  - assert (key ≠ "--") as Hk by (intros E; rewrite E in Hl; simpl in Hl; lia).
    destruct (List.find _ _) as [r|] eqn:Hf.
    + split; [done|]. intros Hall. apply find_some in Hf as [Hr [_ Hs]%andb_true_iff]. apply list_elem_of_In in Hr. by rewrite Hall in Hs.
    + split; [|done]. intros _ _ _ r Hr. pose proof (find_none _ _ Hf r (proj1 (list_elem_of_In _ _) Hr)) as Hn. apply andb_false_iff in Hn as [Hn|Hn]; [|done].
      apply negb_false_iff, bool_decide_eq_true in Hn. by subst r.
  - split; [|done]. intros _ _ Hk. subst key. simpl in Hl. destruct (flag_key t); [done|simpl in Hl; lia].
Qed.
Lemma check_engine_args_spec tokens : check_engine_args tokens = None ↔ ∀ t, t ∈ tokens → check_engine_arg t = None.
Proof using Type.
  induction tokens as [|t ts IH]; simpl; [by split; [intros _ t ?%elem_of_nil|]|]. destruct (check_engine_arg t) eqn:E.
  - split; [done|]. intros Hall. specialize (Hall t). rewrite E in Hall. apply Hall. by left.
  - rewrite IH. split; [intros Hall t' [->|?]%elem_of_cons; auto|]. intros Hall t' ?. apply Hall. by right.
Qed.

(** ** What a plan promises *)
Lemma buildExecPlan_inr spec plan :
  buildExecPlan spec = inr plan →
  validateModelPath (ls_modelPath spec) = None ∧ check_engine_args (default [] (ls_engineArgs spec)) = None ∧
  ∃ m, resolveModule spec = inr m ∧
    plan = mkPlan (ac_apptainerBin config)
      (apptainer_args spec (sif_path m) ++ [sif_path m] ++ entrypoint_of spec ++ shim_args spec ++ ["--"] ++ engine_args spec) spawn_env (sif_path m).
Proof.
  unfold buildExecPlan, resolveSifPath. destruct (validateModelPath _); [done|]. destruct (resolveModule spec) as [|m]; [done|].
  destruct (check_engine_args _); [done|]. intros [= <-]. eauto.
Qed.

(** C27: no engine argument of a request can take over a flag of the platform.  A plan is built
    only if no [--] token abbreviates, repeats or assigns a reserved flag (the key before
    [=] is no prefix of one, the bare [--] apart), so an option parser that expands unambiguous
    prefixes reads none of them as the port, the host, the model, its served name or the
    parallelism; and every list of arguments without such tokens is accepted. *)
Theorem engine_args_never_reserved spec :
  (∀ plan, buildExecPlan spec = inr plan → ∀ token reserved, token ∈ default [] (ls_engineArgs spec) → reserved ∈ RESERVED_ENGINE_FLAGS →
     starts_with "--" token = true → starts_with (flag_key token) reserved = true → flag_key token = "--") ∧
  ((∀ token reserved, token ∈ default [] (ls_engineArgs spec) → reserved ∈ RESERVED_ENGINE_FLAGS →
     starts_with "--" token = true → starts_with (flag_key token) reserved = true → flag_key token = "--") →
   ∀ key flag, buildExecPlan spec ≠ inl (FlagReserved key) ∧ buildExecPlan spec ≠ inl (FlagAbbreviates key flag)).
Proof.
  split.
  - intros plan (_ & Hargs & _)%buildExecPlan_inr token r Ht Hr Hs Hp. destruct (decide (flag_key token = "--")) as [|Hk]; [done|].
    rewrite check_engine_args_spec in Hargs. apply Hargs in Ht. rewrite check_engine_arg_spec in Ht. by rewrite Ht in Hp.
  - intros Hall key flag. assert (check_engine_args (default [] (ls_engineArgs spec)) = None) as Hn.
    { apply check_engine_args_spec. intros token Ht. apply check_engine_arg_spec. intros Hs Hk r Hr.
      destruct (starts_with (flag_key token) r) eqn:E; [|done]. by destruct Hk; eapply Hall. }
    unfold buildExecPlan. rewrite Hn. unfold validateModelPath, resolveSifPath, resolveModule. repeat case_match; split; congruence.
Qed.

(** *** The image *)
Lemma all_chars_slash s : all_chars name_char s = true → has_char slash s = false.
Proof.
  induction s as [|c s IH]; simpl; [done|]. intros [Hc Hs]%andb_true_iff. apply orb_false_iff. split; [|auto].
  apply bool_decide_eq_false. intros ->. by vm_compute in Hc.
Qed.
Lemma sif_name_proper m : name_re m = true → proper_seg (m +:+ ".sif").
Proof.
  unfold name_re. intros [Hne Hm]%andb_true_iff. apply negb_true_iff, bool_decide_eq_false in Hne. unfold proper_seg.
  rewrite has_char_app, all_chars_slash by done. simpl. destruct m as [|c m]; [done|]. rewrite str_app_cons.
  split_and!; [done|intros [= ? E]; by destruct m|intros [= ? E]; destruct m as [|? m]; [done|injection E as ? E; by destruct m]|done].
Qed.
Lemma normalize_snoc segs f : proper_seg f → normalize (segs ++ [f]) = normalize segs ++ [f].
Proof.
  intros (? & ? & ? & _). unfold normalize. rewrite foldl_app. simpl. unfold normalize_step at 1. rewrite decide_False by naive_solver. by rewrite decide_False.
Qed.
Lemma sif_path_segs m :
  ac_modulesDir config ≠ "" → name_re m = true → resolve_segs cwd (sif_path m) = resolve_segs cwd (ac_modulesDir config) ++ [m +:+ ".sif"].
Proof.
  intros Hd Hm. pose proof (sif_name_proper m Hm) as Hp. unfold resolve_segs, sif_path.
  replace (starts_with "/" (ac_modulesDir config +:+ "/" +:+ m +:+ ".sif")) with (starts_with "/" (ac_modulesDir config)) by (destruct (ac_modulesDir config) as [|c s]; [done|by destruct s]).
  rewrite <- normalize_snoc by done. f_equal. destruct Hp as (_ & _ & _ & Hs). rewrite <- (split_on_no_char slash (m +:+ ".sif")) by done.
  change ("/" +:+ ?x) with (String slash x). destruct (starts_with "/" (ac_modulesDir config)).
  - by rewrite split_on_app.
  - rewrite <- split_on_app. by rewrite !str_app_assoc.
Qed.

(** The variables the platform sets in a container. *)
Definition PLATFORM_VARIABLES : list string :=
  ["XDG_CACHE_HOME"; "HF_HOME"; "FLASHINFER_WORKSPACE_DIR"; "ENABLE_KVCACHED"; "KVCACHED_AUTOPATCH"; "SARDEENZ_MLSERVER_GRPC_PORT"; "SARDEENZ_MLSERVER_METRICS_PORT";
   "MLSERVER_METRICS_DIR"; "MLSERVER_ENVIRONMENTS_DIR"; "MLSERVER_PARALLEL_WORKERS"; "VLLM_USE_V2_MODEL_RUNNER"; "CUDA_VISIBLE_DEVICES"; "SARDEENZ_DEVICE_INDICES"].
(** The options a container may be started with: the GPU, a configured bind, a variable of the
    platform. *)
Inductive container_options : list string → Prop :=
| co_nil : container_options []
| co_nv os : container_options os → container_options ("--nv" :: os)
| co_bind b os : b ∈ ac_binds config → container_options os → container_options ("--bind" :: b :: os)
| co_env k v os : k ∈ PLATFORM_VARIABLES → container_options os → container_options ("--env" :: (k +:+ "=" +:+ v) :: os).
Lemma options_env (kvs : list (string * string)) : Forall (λ kv, kv.1 ∈ PLATFORM_VARIABLES) kvs → container_options (kv ← kvs; ["--env"; kv.1 +:+ "=" +:+ kv.2]).
Proof. induction 1 as [|[k v] kvs Hk _ IH]; [constructor|]. by apply co_env. Qed.
Lemma options_binds bs os : (∀ b, b ∈ bs → b ∈ ac_binds config) → container_options os → container_options ((b ← bs; ["--bind"; b]) ++ os).
Proof. induction bs as [|b bs IH]; intros Hb Ho; [done|]. apply co_bind; [apply Hb; by left|]. apply IH; [|done]. intros b' ?. apply Hb. by right. Qed.
Lemma env_flags_platform spec sifPath : Forall (λ kv, kv.1 ∈ PLATFORM_VARIABLES) (env_flags spec sifPath).
Proof.
  assert (∀ k, bool_decide (k ∈ PLATFORM_VARIABLES) = true → k ∈ PLATFORM_VARIABLES) as Hin by (intros k ?; by eapply bool_decide_eq_true).
  unfold env_flags. apply Forall_app. split; [|apply Forall_app; split]; repeat case_match; repeat constructor; simpl; apply Hin; vm_compute; reflexivity.
Qed.
Lemma apptainer_args_options spec sifPath : ∃ opts, container_options opts ∧ apptainer_args spec sifPath = ["exec"; "--cleanenv"] ++ opts.
Proof.
  eexists. split; [|reflexivity]. assert (container_options ((b ← ac_binds config; ["--bind"; b]) ++ (kv ← env_flags spec sifPath; ["--env"; kv.1 +:+ "=" +:+ kv.2]))) as H
    by (apply options_binds; [done|]; apply options_env, env_flags_platform).
  destruct (use_nv spec); [by apply co_nv|exact H].
Qed.

(** C26: a runner is launched from inside the two directories.  Whatever the request says, the
    command line of a plan is [apptainer exec --cleanenv], then only GPU access, the configured
    binds and variables of the platform, then the image, the entrypoint, and [--model] with the
    model path of the request.  The image is a file directly in the modules directory; the
    model lies strictly below the weights directory, as written and after the symbolic links
    are followed; and the environment of the spawned process has its home on scratch and none
    of the variables that reach into the container past [--cleanenv]. *)
Theorem exec_plan_confined spec plan :
  ac_modulesDir config ≠ "" → buildExecPlan spec = inr plan →
  (∃ opts entry rest, ep_command plan = ac_apptainerBin config ∧
     ep_args plan = ["exec"; "--cleanenv"] ++ opts ++ [ep_sifPath plan] ++ entry ++ ["--model"; ls_modelPath spec] ++ rest ∧
     container_options opts ∧ (ls_entrypoint spec = Some entry ∨ entry = ac_runnerEntrypoint config)) ∧
  (∃ m, name_re m = true ∧ resolve_segs cwd (ep_sifPath plan) = resolve_segs cwd (ac_modulesDir config) ++ [m +:+ ".sif"]) ∧
  (∃ rest, rest ≠ [] ∧ resolve_segs cwd (ls_modelPath spec) = resolve_segs cwd (ac_weightsDir config) ++ rest) ∧
  (∃ real, realpath (resolve cwd (ls_modelPath spec)) = RealpathOk real ∧ starts_with (resolve cwd (ac_weightsDir config) +:+ "/") real = true) ∧
  jm_get (ep_env plan) "HOME" = Some (ac_home config) ∧
  Forall (λ kv, starts_with "APPTAINERENV_" kv.1 = false ∧ starts_with "SINGULARITYENV_" kv.1 = false) (ep_env plan).
Proof.
  intros Hdir (Hpath & _ & m & Hm & ->)%buildExecPlan_inr. cbn [ep_command ep_args ep_env ep_sifPath]. unfold resolveModule in Hm. unfold validateModelPath in Hpath.
  destruct (starts_with "/" (ls_modelPath spec)) eqn:Ha; [|done]. destruct (starts_with _ (resolve cwd (ls_modelPath spec))) eqn:Hb; [|done].
  destruct (realpath _) as [real| |] eqn:Hreal; [|done..]. cbv beta iota delta [negb] in Hpath. destruct (starts_with _ real) eqn:Hc; [|done].
  assert (name_re m = true) as Hok by (repeat case_match; naive_solver).
  split_and!; [|by eauto using sif_path_segs| |by eauto|unfold spawn_env; by rewrite jm_get_set_ne, jm_get_set_eq|].
  - destruct (apptainer_args_options spec (sif_path m)) as (opts & Ho & ->). exists opts, (entrypoint_of spec). eexists. split; [done|]. split; [|split; [exact Ho|]].
    + rewrite <- app_assoc. unfold shim_args. simpl. reflexivity.
    + unfold entrypoint_of. destruct (ls_entrypoint spec) as [[|]|]; auto.
  - unfold resolve in Hb. rewrite path_text_prefix in Hb by apply resolve_proper. naive_solver.
  - assert (Forall (λ kv, injected kv.1 = false) spawn_env) as Hi.
    { unfold spawn_env. do 2 (apply Forall_jm_set_at; [done|]). apply Forall_forall. intros kv Hkv. apply list_elem_of_In, List.filter_In in Hkv as [_ Hi]. by apply negb_true_iff. }
    eapply Forall_impl; [exact Hi|]. intros kv. apply orb_false_iff.
Qed.

(** *** The health loop *)
Definition undecided (k : nat) : Prop :=
  (clock (S k) < clock 0 + ac_healthTimeoutMs config)%Z ∧ exited_by (2 * k) = false ∧ health k ≠ Some "READY" ∧ health k ≠ Some "ERROR".
Lemma poll_undecided fuel k : undecided k → poll (S fuel) k (clock 0 + ac_healthTimeoutMs config) = poll fuel (S k) (clock 0 + ac_healthTimeoutMs config).
Proof.
  intros (Hc & He & Hr & Hx). cbn [poll]. rewrite (proj2 (Z.ltb_lt _ _) Hc), He. destruct (health k) as [st|]; [|done].
  rewrite !bool_decide_eq_false_2 by congruence. done.
Qed.
Lemma poll_decided fuel k r : poll fuel k (clock 0 + ac_healthTimeoutMs config) = Some r →
  ∃ k', k ≤ k' ∧ (∀ j, k ≤ j < k' → undecided j) ∧ ¬ undecided k' ∧ poll 1 k' (clock 0 + ac_healthTimeoutMs config) = Some r.
Proof.
  revert k. induction fuel as [|fuel IH]; intros k; [done|]. intros Hp.
  destruct (decide (clock (S k) < clock 0 + ac_healthTimeoutMs config)%Z) as [Hc|Hc].
  2:{ exists k. split_and!; [done|lia|by intros [? _]|]. cbn [poll] in *. by rewrite (proj2 (Z.ltb_ge _ _)) in * by lia. }
  destruct (exited_by (2 * k)) eqn:He.
  { exists k. split_and!; [done|lia|intros (_ & ? & _); congruence|]. cbn [poll] in *. by rewrite (proj2 (Z.ltb_lt _ _) Hc), He in *. }
  destruct (decide (health k = Some "READY" ∨ health k = Some "ERROR")) as [Hh|Hh].
  { exists k. split_and!; [done|lia|intros (_ & _ & ? & ?); tauto|]. cbn [poll] in *. rewrite (proj2 (Z.ltb_lt _ _) Hc), He in *. destruct Hh as [Hh|Hh]; by rewrite Hh in Hp |- *. }
  assert (undecided k) as Hu by (unfold undecided; tauto). rewrite poll_undecided in Hp by done.
  destruct (IH _ Hp) as (k' & ? & Hall & ? & ?). exists k'. split_and!; [lia| |done..]. intros j Hj. destruct (decide (j = k)) as [->|]; [done|]. apply Hall. lia.
Qed.
Lemma poll_enough fuel k : (∃ k', k ≤ k' < k + fuel ∧ ¬ (clock (S k') < clock 0 + ac_healthTimeoutMs config)%Z) →
  is_Some (poll fuel k (clock 0 + ac_healthTimeoutMs config)).
Proof.
  revert k. induction fuel as [|fuel IH]; intros k (k' & Hk & Hc); [lia|]. cbn [poll].
  destruct (Z.ltb_spec (clock (S k)) (clock 0 + ac_healthTimeoutMs config)) as [Hlt|]; [|done]. destruct (exited_by (2 * k)); [done|].
  assert (is_Some (poll fuel (S k) (clock 0 + ac_healthTimeoutMs config))) as Hs.
  { apply IH. exists k'. split; [|done]. destruct (decide (k' = k)) as [->|]; [done|lia]. }
  destruct (health k) as [st|]; [|done]. by repeat case_bool_decide.
Qed.

(** The polls a launch needs at most. *)
Definition launch_fuel : nat := Z.to_nat (ac_healthTimeoutMs config / ac_healthIntervalMs config) + 2.
(** The clock advances by at least the poll interval from one poll to the next. *)
Definition clock_advances : Prop :=
  (0 < ac_healthIntervalMs config)%Z ∧ (0 ≤ ac_healthTimeoutMs config)%Z ∧ (clock 0 ≤ clock 1)%Z ∧ ∀ k, (clock (S k) + ac_healthIntervalMs config ≤ clock (S (S k)))%Z.
Lemma poll_ends : clock_advances → is_Some (waitUntilHealthy launch_fuel).
Proof.
  intros (Hi & Ht & H0 & Hstep). assert (∀ k, clock 0 + Z.of_nat k * ac_healthIntervalMs config ≤ clock (S k))%Z as Hk by (induction k as [|k IH]; [lia|specialize (Hstep k); lia]).
  apply poll_enough. unfold launch_fuel. set (q := (ac_healthTimeoutMs config / ac_healthIntervalMs config)%Z). assert (0 ≤ q)%Z by (apply Z.div_pos; lia).
  exists (Z.to_nat q + 1). split; [lia|]. specialize (Hk (Z.to_nat q + 1)). assert (ac_healthTimeoutMs config < ac_healthIntervalMs config * Z.succ q)%Z by (by apply Z.mul_succ_div_gt). clearbody q. nia.
Qed.

(** What the polls say of the child: [k] is the first decisive one. *)
Inductive decided (k : nat) : LaunchError + unit → nat → Prop :=
| d_ready : health k = Some "READY" → (clock (S k) < clock 0 + ac_healthTimeoutMs config)%Z → exited_by (2 * k) = false → decided k (inr ()) (2 * k + 1)
| d_error : health k = Some "ERROR" → (clock (S k) < clock 0 + ac_healthTimeoutMs config)%Z → decided k (inl ReportedError) (2 * k + 1)
| d_exited : exited_by (2 * k) = true → decided k (inl ExitedEarly) (2 * k)
| d_timeout : (clock 0 + ac_healthTimeoutMs config ≤ clock (S k))%Z → decided k (inl HealthTimeout) (2 * k).
Lemma wait_decided fuel r event : waitUntilHealthy fuel = Some (r, event) → ∃ k, (∀ j, j < k → undecided j) ∧ decided k r event.
Proof.
  intros (k & _ & Hall & _ & Hp)%poll_decided. exists k. split; [intros; apply Hall; lia|]. cbn [poll] in Hp.
  destruct (Z.ltb_spec (clock (S k)) (clock 0 + ac_healthTimeoutMs config)); [|injection Hp as <- <-; by apply d_timeout].
  destruct (exited_by (2 * k)) eqn:He; [injection Hp as <- <-; by apply d_exited|]. destruct (health k) as [st|] eqn:Hh; [|done].
  case_bool_decide as Hst; [injection Hp as <- <-; subst st; by apply d_ready|]. case_bool_decide as Hst'; [|done]. injection Hp as <- <-. subst st. by apply d_error.
Qed.

(** What a child is told that has not exited: to terminate, at once, and to die at the end of the
    grace period unless it has exited by then. *)
Definition told_to_stop (dies : option Z) (signals : list (Signal * Z)) : Prop :=
  (SIGTERM, 0%Z) ∈ signals ∧ ((∀ t, dies = Some t → (ac_stopGraceMs config < t)%Z) → (SIGKILL, ac_stopGraceMs config) ∈ signals).
Lemma stopChild_told dies : told_to_stop dies (stopChild false dies).1.
Proof.
  unfold told_to_stop, stopChild, BACKSTOP_MS. cbn [fst]. split; [by left|]. intros Hd. right.
  rewrite (proj2 (Z.leb_gt _ _)); [by left|]. destruct dies as [t|]; [specialize (Hd t eq_refl)|]; lia.
Qed.

(** C34: a launch ends, and its outcome means what it says.  When the clock advances by at least
    the poll interval from one poll to the next, [start] answers within
    [timeout / interval + 2] polls.  A handle is returned only when the plan could be built, the
    image passed verification (when verification is on), and the first decisive poll, made
    within the timeout, found the child up and answering READY; it carries the ports of the
    request, the child gets no signal, and a later exit of the child is reported to the manager,
    unless the child died while that last health check was in flight.  When the plan or the
    verification fails, no signal is sent.  And when the launched child reports an error, or is
    not healthy in time, then either it has exited by the moment that is known, or it is sent
    SIGTERM at once, and SIGKILL at the end of the grace period unless it exits within it. *)
Theorem launch_outcome verify pid dies spec :
  clock_advances →
  ∃ out, start launch_fuel verify pid dies spec = Some out ∧
  match so_result out with
  | inr h =>
      (∃ plan, buildExecPlan spec = inr plan) ∧ (ac_verifySif config = true → verify = Some 0%Z) ∧
      lh_port h = ls_port spec ∧ lh_enginePort h = ls_enginePort spec ∧ so_signals out = [] ∧
      ∃ k, health k = Some "READY" ∧ (clock (S k) < clock 0 + ac_healthTimeoutMs config)%Z ∧ (∀ j, j < k → undecided j) ∧
        ∀ e, exit_at = Some e → so_exitReported out = true ∧ 2 * k + 1 < e ∨ so_exitReported out = false ∧ e = 2 * k + 1
  | inl e =>
      (buildExecPlan spec = inl e ∧ so_signals out = []) ∨
      (ac_verifySif config = true ∧ so_signals out = [] ∧
         (e = VerifyUnrunnable ∧ verify = None ∨ ∃ code, code ≠ 0%Z ∧ verify = Some code ∧ e = VerifyFailed code)) ∨
      ∃ k known, (∀ j, j < k → undecided j) ∧ decided k (inl e) known ∧
        ((∃ t, exit_at = Some t ∧ t ≤ known ∧ so_signals out = []) ∨
         ((∀ t, exit_at = Some t → known < t) ∧ told_to_stop dies (so_signals out)))
  end.
Proof.
  intros Hclock. unfold start, verifySif. destruct (buildExecPlan spec) as [e|plan] eqn:Hplan; [eexists; split; [done|]; by left|].
  destruct (ac_verifySif config) eqn:Hvs; [destruct verify as [code|]; [destruct (Z.eqb_spec code 0) as [->|Hcode]|]|].
  2: { eexists. split; [done|]. right. left. split_and!; [done..|]. right. by exists code. }
  2: { eexists. split; [done|]. right. left. split_and!; [done..|]. by left. }
  all: destruct (poll_ends Hclock) as [[r event] Hw]; rewrite Hw; destruct (wait_decided _ _ _ Hw) as (k & Hall & Hd);
    (destruct r as [e|[]]; (eexists; split; [done|]); cbn [so_result so_signals so_exitReported]; [right; right; exists k, event; split_and!; [done..|]|]).
  1, 3: unfold exited_by; destruct exit_at as [t|]; [destruct (Nat.leb_spec t event)|]; cbn [negb];
    [by left; exists t|right; split; [by intros ? [= <-]|apply stopChild_told]|right; split; [done|apply stopChild_told]].
  all: inversion Hd as [Hh Hc He Hr Hev| | |]; subst; split_and!; [by eauto|done..|]; exists k; split_and!; [done..|];
    intros e Hx; unfold exited_by in *; rewrite Hx in *; apply Nat.leb_gt in He; rewrite bool_decide_eq_true_2 by done;
    destruct (Nat.leb_spec e (2 * k + 1)); simpl; [right; split; [done|lia]|left; split; [done|lia]].
Qed.

(** Stopping a child takes at most the grace period and the backstop, and a child is killed
    exactly when it outlives the grace period. *)
Theorem stop_bounded dies :
  (0 ≤ ac_stopGraceMs config)%Z → (∀ t, dies = Some t → 0 ≤ t)%Z →
  let '(signals, resolved) := stopChild false dies in
  (0 ≤ resolved ≤ ac_stopGraceMs config + BACKSTOP_MS)%Z ∧
  ((SIGKILL, ac_stopGraceMs config) ∈ signals ↔ ∀ t, dies = Some t → (ac_stopGraceMs config < t)%Z).
Proof.
  intros Hg Hd. unfold stopChild, BACKSTOP_MS. destruct dies as [t|]; simpl.
  - specialize (Hd t eq_refl). split; [lia|]. destruct (Z.leb_spec (Z.min t (ac_stopGraceMs config + 5000)) (ac_stopGraceMs config)) as [Hle|Hgt].
    + split; [intros [? | ?]%elem_of_cons; [congruence|set_solver]|]. intros Ht. specialize (Ht t eq_refl). lia.
    + split; [intros _ t' [= <-]; lia|]. intros _. right. by left.
  - split; [lia|]. rewrite (proj2 (Z.leb_gt _ _)) by lia. split; [done|]. intros _. right. by left.
Qed.
End launcher.

(** ** Closed examples *)
Definition ex_spec : LaunchSpec :=
  mkSpec "r0" "m" "/weights/m" "vllm" (Some "vllm-0.24") "cuda" 10 2 None (Some ["--max-model-len"; "4096"; "--model-impl=auto"]) None None
    [(0%Z, "CUDA"); (1%Z, "CUDA")] 9101 9102 9103 9104.
Definition ex_env : list (string * string) := [("HOME", "/root"); ("APPTAINERENV_X", "1"); ("PATH", "/bin")].
Notation ex_plan := (buildExecPlan DEFAULT_APPTAINER_CONFIG "/app" RealpathOk ex_env).
Definition ex_launch (health : nat → option string) (exit_at : option nat) : option StartOutcome :=
  start DEFAULT_APPTAINER_CONFIG "/app" RealpathOk ex_env (λ k, Z.of_nat k * 1000)%Z health exit_at 902 (Some 0%Z) (Some 5%Z) (Some 40000%Z) ex_spec.
Definition loading_then_ready (k : nat) : option string := if Nat.ltb k 2 then Some "STARTING" else Some "READY".
Definition ex_plan_ok : ExecPlan := match ex_plan ex_spec with inr p => p | inl _ => mkPlan "" [] [] "" end.
Example plan_args :
  drop 32 (ep_args ex_plan_ok) =
    ["SARDEENZ_DEVICE_INDICES=0,1"; "/modules/vllm-0.24.sif"; "python3"; "-m"; "sardeenz_vllm_runner"; "--model"; "/weights/m"; "--port"; "9101";
     "--engine-port"; "9102"; "--tensor-parallel"; "2"; "--"; "--served-model-name"; "m"; "--max-model-len"; "4096"; "--model-impl=auto"].
Proof. by vm_compute. Qed.

Lemma exec_plan_confined_witness :
  ex_plan ex_spec = inr ex_plan_ok ∧
  ∃ opts entry rest, ep_args ex_plan_ok = ["exec"; "--cleanenv"] ++ opts ++ ["/modules/vllm-0.24.sif"] ++ entry ++ ["--model"; "/weights/m"] ++ rest.
Proof.
  split; [vm_compute; reflexivity|].
  destruct (exec_plan_confined DEFAULT_APPTAINER_CONFIG "/app" RealpathOk ex_env ex_spec ex_plan_ok) as ((opts & entry & rest & _ & H & _) & _); [done|vm_compute; reflexivity|].
  exists opts, entry, rest. exact H.
Defined.
Lemma engine_args_never_reserved_witness : flag_key "--=x" = "--" ∧ ∃ plan, ex_plan ex_spec = inr plan.
Proof.
  split; [|eexists; vm_compute; reflexivity].
  refine (proj1 (engine_args_never_reserved DEFAULT_APPTAINER_CONFIG "/app" RealpathOk ex_env
    (mkSpec "r0" "m" "/weights/m" "vllm" (Some "vllm-0.24") "cuda" 10 2 None (Some ["--=x"]) None None [] 9101 9102 9103 9104)) _ eq_refl "--=x" "--port" _ _ eq_refl eq_refl); simpl; set_solver.
Defined.
Lemma ex_clock_advances : clock_advances DEFAULT_APPTAINER_CONFIG (λ k, Z.of_nat k * 1000)%Z.
Proof. repeat split; simpl; intros; lia. Qed.
(** A healthy child that exits later, and one that never becomes healthy and outlives the grace period. *)
Lemma launch_outcome_witness :
  (∃ out h, ex_launch loading_then_ready (Some 9) = Some out ∧ so_result out = inr h ∧ lh_enginePort h = 9102%Z) ∧
  (∃ out, ex_launch (λ _, None) None = Some out ∧ so_result out = inl HealthTimeout ∧ so_signals out = [(SIGTERM, 0%Z); (SIGKILL, 30000%Z)]).
Proof.
  split.
  - destruct (launch_outcome DEFAULT_APPTAINER_CONFIG "/app" RealpathOk ex_env (λ k, Z.of_nat k * 1000)%Z loading_then_ready (Some 9) (Some 0%Z) (Some 5%Z) (Some 40000%Z) ex_spec ex_clock_advances) as (out & E & H).
    assert (so_result out = inr (mkHandle "localhost" 9101 9102 (Some 5%Z))) as Hr by (vm_compute in E; injection E as <-; reflexivity).
    rewrite Hr in H. destruct H as (_ & _ & _ & He & _). eexists out, _. split; [exact E|]. split; [exact Hr|exact He].
  - eexists. split; [vm_compute; reflexivity|]. split; vm_compute; reflexivity.
Defined.

(** A child that dies while the last health check is in flight is taken for healthy and its
    exit is never reported: the listener that reports exits is attached after the event. *)
Theorem exit_during_last_probe_unreported :
  ∃ out h, ex_launch loading_then_ready (Some 5) = Some out ∧ so_result out = inr h ∧ so_exitReported out = false.
Proof. eexists _, _. split_and!; vm_compute; reflexivity. Qed.
