(* ===== verification/AgentContract.v ===== *)
(** * The worker's routes and what the control plane reads from them
    (runners/dev-worker/src/routes/runners.ts)

    The answers of the worker's runner routes for a given state of its manager, and the meaning
    of what [WorkerClient] makes of them: the control plane forgets an instance when the worker
    denies having a runner for it, so a denial must mean that there is none. *)
From stdpp Require Import base tactics list strings gmap sets.
From Stdlib Require Import ZArith Lia.
From S2P Require Import Prelude Js Types Errors Store Lifecycle SleepWake WorkerClient RunnerLogs WorkerAgent AgentSafety.

(** ** POST /runners *)
Record StartBody := mkStartBody {
  sb_modelName : option string;
  sb_instanceId : option string;
  sb_runnerType : option string;
  sb_modelPath : option string;
  sb_requiredMemory : option Z;
  sb_deviceType : option string;
  sb_tensorParallel : option Z;
  sb_runtimeModule : option string;
  sb_engineConfig : option (list (string * json));
  sb_engineArgs : option (list string);
  sb_servedModelName : option string;
  sb_entrypoint : option (list string);
  sb_devices : option (list (Z * string));
}.
(** The request, with a fresh instance id for callers that send none; [None] is the 400. *)
Definition post_runners (fallback : string) (b : StartBody) : option StartRunnerParams :=
  if truthy_str (sb_modelName b) && truthy_str (sb_runnerType b) && truthy_str (sb_modelPath b) && bool_decide (is_Some (sb_devices b)) then
    Some (mkStart (default "" (sb_modelName b)) (default fallback (sb_instanceId b)) (default "" (sb_runnerType b))
            (default "" (sb_modelPath b)) (default 0%Z (sb_requiredMemory b)) (sb_deviceType b) (default 1%Z (sb_tensorParallel b))
            (sb_runtimeModule b) (sb_engineConfig b) (sb_engineArgs b) (sb_servedModelName b) (sb_entrypoint b)
            (default [] (sb_devices b)))
  else None.

(** ** The lookups *)
Definition not_found {B} (what : string) : HttpResponse B := mkHttp 404 (what +:+ " not found") (inl "no such object").
(** GET /runners/by-instance/:instanceId/status *)
Definition get_runner_status (instance : string) (m : RunnerManager) : HttpResponse RunnerByInstanceResponse :=
  match (getRunnerIdForInstance instance m).1 with
  | None => not_found ("Runner for instance " +:+ instance)
  | Some runnerId =>
      match WorkerAgent.getRunner runnerId m with
      | None => mkHttp 202 "" (inr (mkByInstance true runnerId None None None))
      | Some r => mkHttp 200 "" (inr (mkByInstance false (rr_runnerId r) (Some (rr_host r)) (Some (rr_port r)) (Some (rr_enginePort r))))
      end
  end.
(** GET /runners/:runnerId, with the instance in the body *)
Definition get_runner (runnerId : string) (m : RunnerManager) : HttpResponse string :=
  match WorkerAgent.getRunner runnerId m with
  | None => not_found ("Runner " +:+ runnerId)
  | Some r => mkHttp 200 "" (inr (rr_instanceId r))
  end.
(** DELETE /runners/:runnerId, when the stop itself works *)
Definition delete_runner (runnerId : string) (m : RunnerManager) : Z :=
  match (WorkerAgent.stopRunner runnerId m).1 with StopNotFound => 404%Z | StopPending | StopRecorded => 204%Z end.

Section contract.
Context (config : DevWorkerConfig) (probes : bool) `{!RunnerLauncher}.
Context (Hhost : ∀ spec pid, lh_host (handle_of spec pid) ≠ "") (Hstart : (0 < wc_runnerPortStart config)%Z).

Record records_ok (a : Agent) : Prop := {
  ro_fields id r : jm_get (runners (ag_manager a)) id = Some r → rr_runnerId r = id ∧ rr_host r ≠ "";
}.
Lemma records_effect l a a' : effect config l a a' → records_ok a → records_ok a'.
Proof.
  intros He [H1]. split. destruct He; simpl in *; try done.
  - intros id r Hr. destruct (decide (id = ca_runner call)) as [->|]; [|rewrite jm_get_set_ne in Hr by done; by apply H1].
    rewrite jm_get_set_eq in Hr. injection Hr as <-. simpl. subst h. by split.
  - intros id' r' Hr'. destruct (decide (id' = id)) as [->|]; [by rewrite jm_get_delete_eq in Hr'|]. rewrite jm_get_delete_ne in Hr' by done. by apply H1.
Qed.
Lemma reachable_records P n a : reachable config probes P n a → records_ok a.
Proof. induction 1 as [|l a a' Hr IH Hp Hs]; [by split|]. eapply records_effect; [by apply (step_effect config probes)|done]. Qed.

(** The worker has a process for the instance, or is about to. *)
Definition hosts (a : Agent) (instance : string) : Prop :=
  (∃ id r, jm_get (runners (ag_manager a)) id = Some r ∧ rr_instanceId r = instance) ∨
  (∃ c call, ag_calls a !! c = Some call ∧ reserved (ca_phase call) = true ∧ sp_instanceId (ca_params call) = instance).

Lemma hosts_active a instance : instances_ok a → ids_ok a → hosts a instance →
  ∃ id, jm_get (instanceRunners (ag_manager a)) instance = Some id ∧ id ≠ "".
Proof.
  intros Hi Hids [(id & r & Hr & <-)|(c & call & Hc & Hres & <-)].
  - exists id. split; [by eapply (no_runner _ Hi)|]. by eapply (no_empty _ Hi), (io_runner _ Hids).
  - exists (ca_runner call). split; [by eapply (no_reserved _ Hi)|]. by eapply (no_empty _ Hi), (io_call _ Hids).
Qed.

(** The four answers. *)
Lemma status_cases a instance : ids_ok a → instances_ok a → slots_ok a → failed_ok a →
  (get_runner_status instance (ag_manager a) = not_found ("Runner for instance " +:+ instance) ∧ ¬ hosts a instance) ∨
  (∃ id, jm_get (instanceRunners (ag_manager a)) instance = Some id ∧ jm_get (runners (ag_manager a)) id = None ∧
     get_runner_status instance (ag_manager a) = mkHttp 202 "" (inr (mkByInstance true id None None None))) ∨
  (∃ id r, jm_get (instanceRunners (ag_manager a)) instance = Some id ∧ jm_get (runners (ag_manager a)) id = Some r ∧
     get_runner_status instance (ag_manager a) =
       mkHttp 200 "" (inr (mkByInstance false (rr_runnerId r) (Some (rr_host r)) (Some (rr_port r)) (Some (rr_enginePort r))))) ∨
  (∃ id, ¬ hosts a instance ∧ jm_get (failedInstanceLogRunners (ag_manager a)) instance = Some id ∧ jm_get (runners (ag_manager a)) id = None ∧
     has_logs id (hub_logs (log_hub (ag_manager a))) = true ∧
     get_runner_status instance (ag_manager a) = mkHttp 202 "" (inr (mkByInstance true id None None None))).
Proof.
  intros Hids Hi Hslot Hfail. unfold get_runner_status, getRunnerIdForInstance. cbn zeta.
  destruct (jm_get (instanceRunners (ag_manager a)) instance) as [id|] eqn:Hid.
  - assert (id ≠ "") as Hne.
    { apply (no_empty _ Hi). destruct (Hslot _ _ Hid) as [(c & call & Hc & _ & <- & _)|(r & Hr & _)]; [by eapply (io_call _ Hids)|by eapply (io_runner _ Hids)]. }
    simpl. rewrite (bool_decide_eq_false_2 _ Hne). simpl. unfold WorkerAgent.getRunner.
    destruct (jm_get (runners (ag_manager a)) id) as [r|] eqn:Hr; [right; right; left; eauto|right; left; eauto].
  - assert (¬ hosts a instance) as Hno by (intros (? & ? & ?)%hosts_active; [congruence|done..]).
    simpl. destruct (jm_get (failedInstanceLogRunners (ag_manager a)) instance) as [f|] eqn:Hf; simpl; [|by left].
    destruct (Hfail _ _ Hf) as (Hissued & Hr & _). rewrite (bool_decide_eq_false_2 _ (no_empty _ Hi _ Hissued)). simpl.
    destruct (has_logs _ _) eqn:Hlogs; simpl; [|by left]. unfold WorkerAgent.getRunner. rewrite Hr. right; right; right. eauto 10.
Qed.

End contract.

Lemma run_reachable `{!RunnerLauncher} config probes P n ls a a' :
  reachable config probes P n a → (∀ l b, l ∈ ls → P l b) → run_labels config probes ls a = Some a' → reachable config probes P n a'.
Proof.
  revert a. induction ls as [|l ls IH]; intros a Ha HP; simpl; [by intros [= <-]|].
  destruct (step config probes l a) as [b|] eqn:Hs; [|done]. simpl. apply IH; [|set_solver]. eapply reach_step; [done|by apply HP; left|done].
Qed.

(** ** Races and closed examples *)
Definition ex_worker : DevWorkerConfig := mkWorkerConfig 9100 9101 2 "vllm" "CUDA" "worker-1".
Definition ex_request : StartRunnerParams :=
  mkStart "m" "i" "vllm" "/weights/m" 10 None 1 None None None None None [(0%Z, "CUDA"); (1%Z, "CUDA")].
#[local] Instance ex_stub : RunnerLauncher := StubLauncher ex_worker.
Definition probed (c : nat) : list Label := replicate 4 (LProbe c true) ++ [LAllocated c].
Notation ex_run ls := (run_labels ex_worker true ls (init_agent 2)).
Definition ex_started : list Label := LStart 0 ex_request "r0" :: probed 0 ++ [LLog 0 stdout "loading" (λ _, "t"); LReady 0 None].

(** The slot of an instance is taken only behind the port probes, so two starts of one instance
    that probe at the same time both come up; when one of them is stopped, the worker
    denies having a runner for the instance although the other is up. *)
Theorem concurrent_starts_lose_runner :
  ∃ a r, ex_run (LStart 0 ex_request "r0" :: LStart 1 ex_request "r1" :: probed 0 ++ probed 1 ++ [LReady 0 None; LReady 1 None; LStop "r1"]) = Some a ∧
    jm_get (runners (ag_manager a)) "r0" = Some r ∧ rr_instanceId r = "i" ∧ rs_status (get_runner_status "i" (ag_manager a)) = 404%Z.
Proof. vm_compute. eexists _, _. split_and!; reflexivity. Qed.

(** A start that is still looking for ports is not found by its instance, although the start is
    under way. *)
Theorem probing_start_reads_absent :
  ∃ a, ex_run [LStart 0 ex_request "r0"] = Some a ∧ is_Some (ag_calls a !! 0) ∧ rs_status (get_runner_status "i" (ag_manager a)) = 404%Z.
Proof. vm_compute. eexists. split_and!; [reflexivity|eauto|reflexivity]. Qed.

(** A start that has failed is reported as starting while its logs are kept. *)
Theorem failed_start_reads_starting :
  ∃ a, ex_run (LStart 0 ex_request "r0" :: probed 0 ++ [LLog 0 stdout "out of memory" (λ _, "t"); LFailed 0 0%Z]) = Some a ∧
    ag_calls a = ∅ ∧ runners (ag_manager a) = [] ∧ rs_status (get_runner_status "i" (ag_manager a)) = 202%Z.
Proof. vm_compute. eexists. split_and!; reflexivity. Qed.

Definition ex_agent : Agent := default (init_agent 2) (ex_run ex_started).
Lemma ex_agent_reachable P : (∀ l b, l ∈ ex_started → P l b) → reachable ex_worker true P 2 ex_agent.
Proof. intros HP. eapply run_reachable; [apply reach_init|exact HP|]. unfold ex_agent. vm_compute. reflexivity. Qed.
Lemma ex_agent_runner : ∃ r, jm_get (runners (ag_manager ex_agent)) "r0" = Some r ∧ rr_port r = 9101%Z.
Proof. vm_compute. eexists. split; reflexivity. Qed.

Lemma runner_ports_disjoint_witness :
  owns ex_worker ex_agent (ORunner "r0") 9101 ∧ in_block 9101 9104 ∧ (9104 ≠ wc_workerPort ex_worker)%Z.
Proof.
  assert (owns ex_worker ex_agent (ORunner "r0") 9101) as Ho by exact ex_agent_runner. split; [exact Ho|]. assert (in_block 9101 9104) as Hp by (vm_compute; split; congruence).
  split; [exact Hp|]. apply (runner_ports_disjoint ex_worker true (λ _ _, True) 2 ex_agent _ _ _ _ 9104 (ex_agent_reachable _ (λ _ _ _, I)) Ho Ho Hp).
Defined.
Lemma runner_ledger_exact_witness : total_share (runners (ag_manager ex_agent)) 1 = 5%Z.
Proof.
  symmetry. apply (runner_ledger_exact ex_worker true 2 ex_agent 1 5); [|vm_compute; reflexivity]. apply ex_agent_reachable.
  intros l b Hl. repeat (apply elem_of_cons in Hl as [->|Hl]; [vm_compute; congruence|]). set_solver.
Defined.

Definition ex_apptainer : RunnerLauncher := ApptainerLauncher "worker-1".
Definition ex_queue : option Agent :=
  @run_labels ex_apptainer ex_worker true (LStart 0 ex_request "r0" :: probed 0 ++ [LBegin 0 0%Z]) (init_agent 2).
Definition ex_cold : Agent := default (init_agent 2) ex_queue.
Lemma ex_cold_reachable : @reachable ex_worker true ex_apptainer (λ _ _, True) 2 ex_cold.
Proof.
  eapply (@run_reachable ex_apptainer); [apply reach_init|done|]. unfold ex_cold, ex_queue.
  instantiate (1 := LStart 0 ex_request "r0" :: probed 0 ++ [LBegin 0 0%Z]). vm_compute. reflexivity.
Qed.
Lemma cold_starts_serialized_witness : ca_phase <$> ag_calls ex_cold !! 0 = Some (Starting 0) ∧ 0 = 0.
Proof.
  split; [vm_compute; reflexivity|].
  apply (@cold_starts_serialized ex_worker true ex_apptainer eq_refl (λ _ _, True) 2 ex_cold 0 0 (mkCall ex_request "r0" (Starting 0)) (mkCall ex_request "r0" (Starting 0)) 0 0
    ex_cold_reachable); vm_compute; reflexivity.
Defined.
Definition ex_cancel : Agent := default (init_agent 2) (@step ex_worker true ex_apptainer (LStop "r0") ex_cold).
Definition ex_cancelled : Agent := default (init_agent 2) (@step ex_worker true ex_apptainer (LReady 0 (Some 7%Z)) ex_cancel).
Lemma cancelled_start_never_runs_witness : WorkerAgent.getRunner "r0" (ag_manager ex_cancelled) = None.
Proof.
  apply (@cancelled_start_never_runs ex_worker true ex_apptainer (λ _ _, True) 2 ex_cold "r0" ex_cancel ex_cancelled ex_cold_reachable); [vm_compute; reflexivity..|].
  apply rtc_once. exists (LReady 0 (Some 7%Z)). vm_compute. reflexivity.
Defined.

Definition ex_asked : Env := {|
  env_elapsed := @env_elapsed idle_env; env_interfere_db := @env_interfere_db idle_env; env_interfere_local := @env_interfere_local idle_env;
  env_fault := @env_fault idle_env; env_pipe_error := @env_pipe_error idle_env; env_exec_null := @env_exec_null idle_env;
  env_uuid := @env_uuid idle_env; env_health := @env_health idle_env; env_runner := @env_runner idle_env; env_start := @env_start idle_env;
  env_lookup := λ _, inr (get_runner_status "i" (ag_manager ex_agent)); env_worker := @env_worker idle_env; env_leader := @env_leader idle_env;
  env_side := @env_side idle_env; env_owner := @env_owner idle_env; env_cancelled := @env_cancelled idle_env |}.
