(* ===== verification/WorkerReports.v ===== *)
(** * What a worker tells the control plane
    (runners/dev-worker/src: registration.ts, measured-sample.ts, proc-tree.ts, gpu-detect.ts, index.ts)

    A worker announces its devices and capabilities and reports its memory as JSON under its
    keys in Redis; [WorkerPool] and [MemoryBudget] read them.  Here is the worker's side,
    and the theorems that the two sides understand each other. *)
From stdpp Require Import base tactics list strings gmap sets.
From Stdlib Require Import ZArith Lia.
From S2P Require Import Prelude Js Types RunnerLogs WorkerAgent AgentSafety AgentContract MemoryBudget WorkerPool.

(** ** Devices (gpu-detect.ts) *)
Record DetectedDevice := mkDetected { dd_deviceIndex : Z; dd_deviceType : string; dd_memoryTotalBytes : Z }.
Record NvmlDeviceMemory := mkNvmlDevice {
  nd_deviceIndex : Z;
  nd_totalBytes : Z;
  nd_usedBytes : Z;
  nd_name : option string;
  nd_utilizationPercent : option Z;
  nd_temperatureC : option Z;
}.
Definition detectNvidiaDevices (readings : option (list NvmlDeviceMemory)) : option (list DetectedDevice) :=
  match readings with
  | None | Some [] => None
  | Some ds => Some ((λ d, mkDetected (nd_deviceIndex d) "CUDA" (nd_totalBytes d)) <$> ds)
  end.
(** [reader]: what the NVML reader says, if there is one; with the source of the answer. *)
Definition resolveDevices (apptainer : bool) (deviceType_upper deviceType : string) (deviceCount : nat) (deviceMemoryBytes : Z)
    (reader : option (option (list NvmlDeviceMemory))) : list DetectedDevice * bool :=
  let configured := (λ i, mkDetected (Z.of_nat i) deviceType deviceMemoryBytes) <$> seq 0 deviceCount in
  if apptainer && bool_decide (deviceType_upper = "CUDA") then
    match reader ≫= detectNvidiaDevices with Some (d :: ds) => (d :: ds, true) | _ => (configured, false) end
  else (configured, false).

(** ** Whose process (proc-tree.ts) *)
Definition MAX_HOPS : nat := 32.
Section proc_tree.
Context (readPpid : Z → option Z).
(** The next process up, where the walk goes on. *)
Definition parent_of (current : Z) : option Z :=
  parent ← readPpid current; if Z.leb parent 1 || Z.eqb parent current then None else Some parent.
Fixpoint walk_up (hops : nat) (current : Z) (visited : gset Z) (ownerPids : gset Z) : option Z :=
  match hops with
  | O => None
  | S hops' =>
      if decide (current ∈ ownerPids) then Some current else
      if decide (current ∈ visited) then None else
      match parent_of current with
      | None => None
      | Some parent => walk_up hops' parent ({[current]} ∪ visited) ownerPids
      end
  end.
Definition resolveOwner (pid : Z) (ownerPids : gset Z) : option Z := walk_up MAX_HOPS pid ∅ ownerPids.
End proc_tree.

(** ** Measured memory (measured-sample.ts) *)
Record NvmlProcessMemory := mkNvmlProcess { np_deviceIndex : Z; np_pid : Z; np_usedBytes : Z }.
Record RunnerProcessOwner := mkProcessOwner { po_pid : Z; po_instanceId : string; po_modelName : string }.
Record MeasuredDeviceSample := mkDeviceSample {
  ms_deviceIndex : Z;
  ms_memoryUsedBytes : Z;
  ms_deviceName : option string;
  ms_utilizationPercent : option Z;
  ms_temperatureC : option Z;
}.
Record MeasuredInstanceSample := mkInstanceSample {
  mi_instanceId : string;
  mi_modelName : string;
  mi_deviceIndex : Z;
  mi_memoryUsedBytes : Z;
}.
Record MeasuredMemorySample := mkSample { sa_devices : list MeasuredDeviceSample; sa_instances : list MeasuredInstanceSample }.

Section sample.
Context (resolve : Z → gset Z → option Z).
Definition owner_key (o : RunnerProcessOwner) (deviceIndex : Z) : string := po_instanceId o +:+ ":" +:+ show_int deviceIndex.
(** [new Map(owners.map((o) => [o.pid, o]))]: the last owner of a pid counts. *)
Definition owner_by_pid (owners : list RunnerProcessOwner) : list (Z * RunnerProcessOwner) :=
  foldl (λ m o, jm_set m (po_pid o) o) [] owners.
Definition add_process (owners : list RunnerProcessOwner) (totals : list (string * MeasuredInstanceSample)) (p : NvmlProcessMemory) :
    list (string * MeasuredInstanceSample) :=
  match resolve (np_pid p) (list_to_set (po_pid <$> owners)) ≫= jm_get (owner_by_pid owners) with
  | None => totals
  | Some o =>
      let key := owner_key o (np_deviceIndex p) in
      match jm_get totals key with
      | Some s => jm_set totals key (mkInstanceSample (mi_instanceId s) (mi_modelName s) (mi_deviceIndex s) (mi_memoryUsedBytes s + np_usedBytes p))
      | None => jm_set totals key (mkInstanceSample (po_instanceId o) (po_modelName o) (np_deviceIndex p) (np_usedBytes p))
      end
  end.
Definition buildMeasuredSample (devices : list NvmlDeviceMemory) (processes : list NvmlProcessMemory) (owners : list RunnerProcessOwner) :
    MeasuredMemorySample :=
  mkSample
    ((λ d, mkDeviceSample (nd_deviceIndex d) (nd_usedBytes d) (nd_name d) (nd_utilizationPercent d) (nd_temperatureC d)) <$> devices)
    (jm_values (foldl (add_process owners) [] processes)).
End sample.
(** [getRunnerProcesses] of the manager, as owners. *)
Definition process_owners (m : RunnerManager) : list RunnerProcessOwner :=
  (λ p, mkProcessOwner p.1 p.2.1 p.2.2) <$> getRunnerProcesses m.

(** ** The memory report (registration.ts) *)
Definition num (z : Z) : json := JNum (NumInt z).
(** A field that is left out when undefined. *)
Definition opt_field {A} (key : string) (f : A → json) (o : option A) : list (string * json) :=
  match o with Some a => [(key, f a)] | None => [] end.
Definition kv_json (k : KvCache) : json :=
  JObj [("totalBytes", num (kv_totalBytes k)); ("usedBytes", num (kv_usedBytes k));
        ("preallocBytes", num (kv_preallocBytes k)); ("freeBytes", num (kv_freeBytes k))].
Definition instance_json (i : MeasuredInstanceSample) : json :=
  JObj [("instanceId", JStr (mi_instanceId i)); ("modelName", JStr (mi_modelName i));
        ("deviceIndex", num (mi_deviceIndex i)); ("memoryUsedBytes", num (mi_memoryUsedBytes i))].

(** [new Map(measured?.devices.map(...) ?? [])]: the last sample of a device counts. *)
Definition measured_by_device (measured : option MeasuredMemorySample) : list (Z * MeasuredDeviceSample) :=
  match measured with
  | Some s => foldl (λ m d, jm_set m (ms_deviceIndex d) d) [] (sa_devices s)
  | None => []
  end.
(** [this.deviceMemoryUsed[i] ?? 0] *)
Definition getDeviceMemoryUsed (ledger : list Z) (i : Z) : Z :=
  if Z.leb 0 i then default 0%Z (ledger !! Z.to_nat i) else 0%Z.
Definition device_json (measured : option MeasuredMemorySample) (kvCache : option (list (Z * KvCache))) (ledger : list Z) (d : DetectedDevice) : json :=
  JObj ([("deviceIndex", num (dd_deviceIndex d)); ("deviceType", JStr (dd_deviceType d)); ("memoryTotalBytes", num (dd_memoryTotalBytes d))] ++
    match jm_get (measured_by_device measured) (dd_deviceIndex d) with
    | Some s =>
        [("memoryUsedBytes", num (ms_memoryUsedBytes s))] ++ opt_field "deviceName" JStr (ms_deviceName s) ++
        opt_field "utilizationPercent" num (ms_utilizationPercent s) ++ opt_field "temperatureC" num (ms_temperatureC s)
    | None => [("memoryUsedBytes", num (getDeviceMemoryUsed ledger (dd_deviceIndex d)))]
    end ++ opt_field "kvCache" kv_json (m ← kvCache; jm_get m (dd_deviceIndex d))).
(** [ledgerInstances]: the answer of [ledgerInstancesProvider], [[]] when it fails. *)
Definition buildMemoryReport (devices : list DetectedDevice) (measured : option MeasuredMemorySample) (kvCache : option (list (Z * KvCache)))
    (ledger : list Z) (ledgerInstances : list MeasuredInstanceSample) (reportedAt : string) : json :=
  JObj [("devices", JArr (device_json measured kvCache ledger <$> devices));
        ("instances", JArr (instance_json <$> match measured with Some s => sa_instances s | None => ledgerInstances end));
        ("reportedAt", JStr reportedAt)].

(** [getLedgerInstanceShares] and [getKvCacheDeviceStats] of the manager, from the reports the
    runners answered (a runner that failed to answer has none). *)
Record RunnerMemoryReportDevice := mkReportDevice { rd_deviceIndex : Z; rd_memoryUsedBytes : Z; rd_kvCache : option KvCache }.
Definition getLedgerInstanceShares (reports : list (RunnerRecord * list RunnerMemoryReportDevice)) : list MeasuredInstanceSample :=
  r ← reports;
  (λ d, mkInstanceSample (rr_instanceId r.1) (rr_modelName r.1) (rd_deviceIndex d) (rd_memoryUsedBytes d)) <$>
    List.filter (λ d, Z.ltb 0 (rd_memoryUsedBytes d)) r.2.
Definition getKvCacheDeviceStats (reports : list (RunnerRecord * list RunnerMemoryReportDevice)) : list (Z * KvCache) :=
  foldl (λ stats d, match rd_kvCache d with
                    | Some kv => if jm_has stats (rd_deviceIndex d) then stats else jm_set stats (rd_deviceIndex d) kv
                    | None => stats
                    end) [] (r ← reports; r.2).

(** ** The announcement *)
Record CatalogCapabilityOverrides := mkOverrides {
  co_supportedModelTypes : option (list string);
  co_supportedSleepLevels : option (list string);
  co_engineVersion : option string;
  co_maxTensorParallelism : option jsnum;
  co_kvCacheElasticSharing : option bool;
  co_features : option (list (string * json));
}.
(** index.ts: the fields of a catalog entry that have the right type. *)
Definition string_items (v : option json) : option (list string) :=
  match v with Some (JArr l) => Some (omap (λ x, match x with JStr s => Some s | _ => None end) l) | _ => None end.
Definition catalog_overrides (entry : list (string * json)) : CatalogCapabilityOverrides :=
  mkOverrides (string_items (obj_get entry "supportedModelTypes")) (string_items (obj_get entry "supportedSleepLevels"))
    (is_string (obj_get entry "version"))
    (match obj_get entry "maxTensorParallelism" with Some (JNum n) => Some n | _ => None end)
    (match obj_get entry "kvCacheElasticSharing" with Some (JBool b) => Some b | _ => None end)
    (match obj_get entry "features" with Some (JObj o) => Some o | _ => None end).
Definition entry_for (runnerType : string) (runners : list json) : option (list (string * json)) :=
  match List.find (λ r, match r with JObj o => match obj_get o "runnerType" with Some (JStr t) => bool_decide (t = runnerType) | _ => false end | _ => false end) runners with
  | Some (JObj o) => Some o
  | _ => None
  end.
Definition loadCatalogCapabilities (runners : list json) (runnerTypes : list string) : list (string * CatalogCapabilityOverrides) :=
  foldl (λ m rt, match entry_for rt runners with Some e => jm_set m rt (catalog_overrides e) | None => m end) [] runnerTypes.

(** [catalogCapabilities]: by runner family, or one override for the worker's own family. *)
Inductive CatalogCapabilities := ByRunner (m : list (string * CatalogCapabilityOverrides)) | Singular (o : option CatalogCapabilityOverrides).
Definition overridesFor (own : string) (catalog : CatalogCapabilities) (rt : string) : option CatalogCapabilityOverrides :=
  match catalog with
  | ByRunner m => jm_get m rt
  | Singular o => if decide (rt = own) then o else None
  end.
Definition capability_json (stub : bool) (devices : list DetectedDevice) (o : option CatalogCapabilityOverrides) (rt : string) : json :=
  JObj [("runnerType", JStr rt);
        ("engineName", JStr (if stub then "Dev Stub (" +:+ rt +:+ ")" else rt +:+ " (apptainer)"));
        ("supportedModelTypes", JArr (JStr <$> default ["LLM"] (o ≫= co_supportedModelTypes)));
        ("supportedDeviceTypes", JArr (JStr <$> js_unique (dd_deviceType <$> devices) []));
        ("supportedSleepLevels", JArr (JStr <$> default ["L1_HOST_RAM"] (o ≫= co_supportedSleepLevels)));
        ("engineVersion", JStr (default "0.0.1-dev" (o ≫= co_engineVersion)));
        ("maxTensorParallelism", JNum (default (NumInt 1) (o ≫= co_maxTensorParallelism)));
        ("kvCacheElasticSharing", JBool (default false (o ≫= co_kvCacheElasticSharing)));
        ("features", JObj (default [] (o ≫= co_features)))].
Definition detected_json (d : DetectedDevice) : json :=
  JObj [("deviceIndex", num (dd_deviceIndex d)); ("deviceType", JStr (dd_deviceType d)); ("memoryTotalBytes", num (dd_memoryTotalBytes d))].
(** [info] of [register()]; [runnerTypes] is [config.runnerTypes ?? [config.runnerType]]. *)
Definition register_info (stub : bool) (devices : list DetectedDevice) (own : string) (catalog : CatalogCapabilities)
    (runnerTypes : list string) (advertiseHost : string) (workerPort : Z) : json :=
  JObj [("capabilities", JArr ((λ rt, capability_json stub devices (overridesFor own catalog rt) rt) <$> runnerTypes));
        ("devices", JArr (detected_json <$> devices));
        ("managementUrl", JStr ("http://" +:+ advertiseHost +:+ ":" +:+ show_int workerPort))].

(** ** The control plane reads what the worker wrote *)
Lemma device_enum t : enum_value device_str all_device_types (Some (JStr (device_str t))) = Some t.
Proof. by destruct t. Qed.
Lemma mapM_fmap_Some {A B C} (f : A → B) (g : B → option C) (h : A → C) l : (∀ x, x ∈ l → g (f x) = Some (h x)) → mapM g (f <$> l) = Some (h <$> l).
Proof. intros Hl. apply mapM_Some. apply Forall2_fmap. apply Forall_Forall2_diag. by apply Forall_forall. 
Qed.
Lemma omap_fmap_Some {A B C} (f : A → B) (g : B → option C) (h : A → C) (l : list A) : (∀ x, x ∈ l → g (f x) = Some (h x)) → omap g (f <$> l) = h <$> l.
Proof.
  induction l as [|x l IH]; intros Hl; [done|]. rewrite !fmap_cons. simpl. rewrite (Hl x) by left. f_equal. apply IH. intros y Hy. apply Hl. by right.
Qed.
Lemma enum_array_roundtrip {T} (str : T → string) (members xs : list T) :
  (∀ y, enum_value str members (Some (JStr (str y))) = Some y) → xs ≠ [] → isEnumArray str members (Some (JArr (JStr <$> (str <$> xs)))) = Some xs.
Proof.
  intros Hrt Hne. destruct xs as [|x xs]; [done|].
  transitivity (mapM (λ item, enum_value str members (Some item)) (JStr <$> (str <$> (x :: xs)))); [done|].
  rewrite <- list_fmap_compose. rewrite (mapM_fmap_Some _ _ id) by (intros; apply Hrt). by rewrite list_fmap_id.
Qed.

(** Reads the fields of an object that is written out. *)
Ltac field_of c k :=
  match c with
  | (k, ?v) :: _ => constr:(Some v)
  | _ :: ?c' => field_of c' k
  | [] => constr:(@None json)
  end.
Ltac read_fields :=
  repeat match goal with |- context [obj_get ?c ?k] => let v := field_of c k in change (obj_get c k) with v end.

(** What a catalog entry means: the overrides whose values are members of the contract's enums. *)
Record TypedOverrides := mkTyped {
  to_modelTypes : option (list ModelType);
  to_sleepLevels : option (list SleepLevel);
  to_engineVersion : option string;
  to_maxTensorParallelism : option Z;
  to_kvCacheElasticSharing : option bool;
  to_features : option (list (string * json));
}.
Definition untyped (o : TypedOverrides) : CatalogCapabilityOverrides :=
  mkOverrides (option_map (λ l : list ModelType, model_type_str <$> l) (to_modelTypes o)) (option_map (λ l : list SleepLevel, sleep_level_str <$> l) (to_sleepLevels o)) (to_engineVersion o)
    (option_map NumInt (to_maxTensorParallelism o)) (to_kvCacheElasticSharing o) (to_features o).
Definition overrides_ok (o : TypedOverrides) : Prop :=
  to_modelTypes o ≠ Some [] ∧ to_sleepLevels o ≠ Some [] ∧ ∀ n, to_maxTensorParallelism o = Some n → (1 ≤ n)%Z.
Definition detected (d : WorkerDevice) : DetectedDevice := mkDetected (wdi_deviceIndex d) (device_str (wdi_deviceType d)) (wdi_memoryTotalBytes d).
Definition device_ok (d : WorkerDevice) : Prop := (0 ≤ wdi_deviceIndex d)%Z ∧ (0 ≤ wdi_memoryTotalBytes d)%Z.

(** The distinct members of a list, first occurrences in order. *)
Fixpoint unique_types (xs seen : list DeviceType) : list DeviceType :=
  match xs with
  | [] => []
  | x :: xs' => if decide (x ∈ seen) then unique_types xs' seen else x :: unique_types xs' (x :: seen)
  end.
#[global] Instance device_str_Inj : Inj (=) (=) device_str := device_str_inj.
Lemma js_unique_types xs seen : js_unique (device_str <$> xs) (device_str <$> seen) = device_str <$> unique_types xs seen.
Proof.
  revert seen. induction xs as [|x xs IH]; intros seen; [done|]. simpl.
  destruct (decide (device_str x ∈ device_str <$> seen)) as [Hin|Hni]; destruct (decide (x ∈ seen)) as [Hin'|Hni'].
  - apply IH.
  - exfalso. apply list_elem_of_fmap in Hin as (y & ->%device_str_inj & ?). done.
  - exfalso. apply Hni. apply list_elem_of_fmap. eauto.
  - simpl. f_equal. apply (IH (x :: seen)).
Qed.

(** The capability the control plane records for an announced runner family. *)
Definition announced_capability (stub : bool) (devices : list WorkerDevice) (o : option TypedOverrides) (rt : string) : WorkerCapability :=
  mkCapability rt (if stub then "Dev Stub (" +:+ rt +:+ ")" else rt +:+ " (apptainer)")
    (default [ModelType.LLM] (o ≫= to_modelTypes)) (unique_types (wdi_deviceType <$> devices) [])
    (default [SleepLevel.L1_HOST_RAM] (o ≫= to_sleepLevels)) (Some (default "0.0.1-dev" (o ≫= to_engineVersion)))
    (default 1%Z (o ≫= to_maxTensorParallelism)) (default false (o ≫= to_kvCacheElasticSharing)) (Some (default [] (o ≫= to_features))).

Lemma capability_roundtrip stub devices o rt :
  rt ≠ "" → devices ≠ [] → (∀ t, o = Some t → overrides_ok t) →
  validateCapability (capability_json stub (detected <$> devices) (untyped <$> o) rt) = Some (announced_capability stub devices o rt).
Proof.
  intros Hrt Hd Ho. unfold validateCapability, capability_json.
  assert (isEnumArray model_type_str all_model_types (Some (JArr (JStr <$> default ["LLM"] ((untyped <$> o) ≫= co_supportedModelTypes)))) =
          Some (default [ModelType.LLM] (o ≫= to_modelTypes))) as E1.
  { destruct o as [t|]; [|done]. destruct (Ho t eq_refl) as (? & _ & _). simpl. destruct (to_modelTypes t); [|done]. simpl.
    apply enum_array_roundtrip; [by intros []|congruence]. }
  assert (isEnumArray sleep_level_str all_sleep_levels (Some (JArr (JStr <$> default ["L1_HOST_RAM"] ((untyped <$> o) ≫= co_supportedSleepLevels)))) =
          Some (default [SleepLevel.L1_HOST_RAM] (o ≫= to_sleepLevels))) as E2.
  { destruct o as [t|]; [|done]. destruct (Ho t eq_refl) as (_ & ? & _). simpl. destruct (to_sleepLevels t); [|done]. simpl.
    apply enum_array_roundtrip; [by intros []|congruence]. }
  assert (isEnumArray device_str all_device_types (Some (JArr (JStr <$> js_unique (dd_deviceType <$> (detected <$> devices)) []))) =
          Some (unique_types (wdi_deviceType <$> devices) [])) as E3.
  { replace (dd_deviceType <$> (detected <$> devices)) with (device_str <$> (wdi_deviceType <$> devices)) by (by rewrite <- !list_fmap_compose).
    rewrite (js_unique_types _ []). apply enum_array_roundtrip; [apply device_enum|]. by destruct devices. }
  assert (default (NumInt 1) ((untyped <$> o) ≫= co_maxTensorParallelism) = NumInt (default 1%Z (o ≫= to_maxTensorParallelism))) as E4.
  { destruct o as [t|]; [|done]. simpl. by destruct (to_maxTensorParallelism t). }
  assert (1 ≤ default 1%Z (o ≫= to_maxTensorParallelism))%Z as H4.
  { destruct o as [t|]; [|done]. destruct (Ho t eq_refl) as (_ & _ & ?). simpl. destruct (to_maxTensorParallelism t) as [n|]; [|done]. simpl. eauto. }
  read_fields. rewrite E1, E2, E3, E4. simpl. rewrite decide_False by done. simpl. unfold isNonNegativeInteger. simpl.
  rewrite option_guard_True by lia. simpl. rewrite option_guard_True by lia. simpl.
  unfold announced_capability. do 2 f_equal; by destruct o as [[? ? [] ? [] []]|].
Qed.
Lemma detected_roundtrip d : device_ok d → WorkerPool.validateDevice (detected_json (detected d)) = Some d.
Proof.
  intros [? ?]. unfold WorkerPool.validateDevice, detected_json. read_fields. simpl dd_deviceType. rewrite device_enum.
  unfold isNonNegativeInteger. simpl. rewrite !option_guard_True by done. simpl. by destruct d.
Qed.

(** What a worker announces is what the control plane records.  The text [register()] writes,
    read back by the parser, is accepted by the pool's validation, and the recorded capabilities
    and devices are those of the worker: every advertised runner family with the fields of its
    catalog entry or their defaults, the device types those of the devices, in order and once
    each, and the URL the worker listens on. *)
Theorem announcement_roundtrip (JSON_parse : string → option json) raw stub devices own catalog runnerTypes advertiseHost workerPort (typed : string → option TypedOverrides) :
  JSON_parse raw = Some (register_info stub (detected <$> devices) own catalog runnerTypes advertiseHost workerPort) →
  (∀ rt, rt ∈ runnerTypes → rt ≠ "" ∧ overridesFor own catalog rt = untyped <$> typed rt ∧ ∀ t, typed rt = Some t → overrides_ok t) →
  runnerTypes ≠ [] → devices ≠ [] → Forall device_ok devices →
  parseWorkerInfo JSON_parse raw =
    Some (mkInfo ((λ rt, announced_capability stub devices (typed rt) rt) <$> runnerTypes) devices ("http://" +:+ advertiseHost +:+ ":" +:+ show_int workerPort)).
Proof.
  intros Hraw Hcat Hrt Hd Hok. unfold parseWorkerInfo. rewrite Hraw. unfold register_info. read_fields.
  assert (mapM validateCapability ((λ rt, capability_json stub (detected <$> devices) (overridesFor own catalog rt) rt) <$> runnerTypes) =
          Some ((λ rt, announced_capability stub devices (typed rt) rt) <$> runnerTypes)) as Hcaps.
  { apply mapM_fmap_Some. intros rt Hin. destruct (Hcat rt Hin) as (Hne & -> & Hty). by apply capability_roundtrip. }
  assert (mapM WorkerPool.validateDevice (detected_json <$> (detected <$> devices)) = Some devices) as Hdevs.
  { rewrite <- list_fmap_compose. rewrite (mapM_fmap_Some _ _ id), ?list_fmap_id; [done|]. intros d Hin. apply detected_roundtrip. rewrite Forall_forall in Hok. by apply Hok. }
  destruct runnerTypes as [|rt rts]; [done|]. simpl is_nonempty_string. rewrite fmap_cons in *.
  rewrite Hcaps. simpl. by rewrite Hdevs.
Qed.

(** What the control plane makes of a device's report: a measured figure where there is one, the
    ledger's otherwise; extras that do not validate are dropped. *)
Definition sample_of (measured : option MeasuredMemorySample) (d : WorkerDevice) : option MeasuredDeviceSample :=
  jm_get (measured_by_device measured) (wdi_deviceIndex d).
Definition used_of (measured : option MeasuredMemorySample) (ledger : list Z) (d : WorkerDevice) : Z :=
  match sample_of measured d with Some s => ms_memoryUsedBytes s | None => getDeviceMemoryUsed ledger (wdi_deviceIndex d) end.
Definition kv_ok (k : KvCache) : Prop := (0 ≤ kv_totalBytes k ∧ 0 ≤ kv_usedBytes k ∧ 0 ≤ kv_preallocBytes k ∧ 0 ≤ kv_freeBytes k)%Z.
Definition stats_ok (s : MeasuredDeviceSample) : Prop :=
  (0 ≤ ms_memoryUsedBytes s)%Z ∧ ms_deviceName s ≠ Some "" ∧ ∀ u, ms_utilizationPercent s = Some u → (0 ≤ u ≤ 100)%Z.
Definition reported_device (measured : option MeasuredMemorySample) (kvCache : option (list (Z * KvCache))) (ledger : list Z) (d : WorkerDevice) : WorkerDeviceMemory :=
  mkDeviceMemory (wdi_deviceIndex d) (wdi_deviceType d) (used_of measured ledger d) (wdi_memoryTotalBytes d)
    (sample_of measured d ≫= ms_deviceName) (sample_of measured d ≫= ms_utilizationPercent) (sample_of measured d ≫= ms_temperatureC)
    (m ← kvCache; jm_get m (wdi_deviceIndex d)).
Definition reported_instance (i : MeasuredInstanceSample) : InstanceMeasurement :=
  mkMeasurement (mi_instanceId i) (mi_modelName i) (mi_deviceIndex i) (mi_memoryUsedBytes i).
Definition instance_ok (i : MeasuredInstanceSample) : Prop :=
  mi_instanceId i ≠ "" ∧ mi_modelName i ≠ "" ∧ (0 ≤ mi_deviceIndex i)%Z ∧ (0 ≤ mi_memoryUsedBytes i)%Z.

Lemma nonNegativeInt_num z : (0 ≤ z)%Z → nonNegativeInt (Some (num z)) = Some z.
Proof. intros. unfold nonNegativeInt. simpl. by rewrite option_guard_True. Qed.
Lemma kv_roundtrip k : kv_ok k → validateKVCacheBlock (kv_json k) = Some k.
Proof.
  intros (? & ? & ? & ?). unfold validateKVCacheBlock, kv_json. read_fields. rewrite !nonNegativeInt_num by done. by destruct k.
Qed.
Lemma instance_roundtrip i : instance_ok i → validateInstanceMeasurement (instance_json i) = Some (reported_instance i).
Proof.
  intros (? & ? & ? & ?). unfold validateInstanceMeasurement, instance_json. read_fields. simpl. rewrite !decide_False by done. simpl.
  by rewrite !nonNegativeInt_num.
Qed.
#[local] Arguments validateKVCacheBlock : simpl never.
Lemma device_report_roundtrip measured kvCache ledger d :
  device_ok d → (∀ s, sample_of measured d = Some s → stats_ok s) → (∀ z, z ∈ ledger → (0 ≤ z)%Z) →
  (∀ m k, kvCache = Some m → jm_get m (wdi_deviceIndex d) = Some k → kv_ok k) →
  MemoryBudget.validateDevice (device_json measured kvCache ledger (detected d)) = Some (reported_device measured kvCache ledger d).
Proof.
  intros [Hi Ht] Hs Hl Hk. unfold MemoryBudget.validateDevice, device_json, reported_device, used_of. simpl dd_deviceIndex.
  change (jm_get (measured_by_device measured) (wdi_deviceIndex d)) with (sample_of measured d).
  assert (0 ≤ getDeviceMemoryUsed ledger (wdi_deviceIndex d))%Z as Hg.
  { unfold getDeviceMemoryUsed. case_match; [|done]. destruct (ledger !! _) eqn:E; [|done]. simpl. by eapply Hl, list_elem_of_lookup_2. }
  assert (∀ k, (kv ← kvCache; jm_get kv (wdi_deviceIndex d)) = Some k → validateKVCacheBlock (kv_json k) = Some k) as Hkv.
  { intros k. destruct kvCache as [m|]; [|done]. simpl. intros Hm. apply kv_roundtrip. by eapply Hk. }
  destruct (kv ← kvCache; jm_get kv (wdi_deviceIndex d)) as [k|] eqn:Ek.
  all: destruct (sample_of measured d) as [[? u [nm|] [ut|] [tc|]]|] eqn:Es; [destruct (Hs _ eq_refl) as (Hu & Hn & Hp); simpl in Hu, Hn, Hp ..|];
    simpl; read_fields; rewrite ?device_enum, ?nonNegativeInt_num by done; simpl; rewrite ?nonNegativeInt_num by done; simpl;
    rewrite ?(decide_False (P := nm = "")) by congruence; rewrite ?option_guard_True by (by apply Hp); rewrite ?Hkv by done; try done.
Qed.

Section reports.
Context (JSON_parse : string → option json) `{!JsDate}.

Lemma report_read raw devices measured kvCache ledger ledgerInstances reportedAt now workerId st :
  JSON_parse raw = Some (buildMemoryReport (detected <$> devices) measured kvCache ledger ledgerInstances reportedAt) →
  Forall device_ok devices → (∀ d s, d ∈ devices → sample_of measured d = Some s → stats_ok s) → (∀ z, z ∈ ledger → (0 ≤ z)%Z) →
  (∀ m i k, kvCache = Some m → jm_get m i = Some k → kv_ok k) →
  let instances := match measured with Some s => sa_instances s | None => ledgerInstances end in
  Forall instance_ok instances →
  parseReport JSON_parse now raw workerId st =
    Some (mkBudget workerId (to_device_budget st workerId <$> (reported_device measured kvCache ledger <$> devices)) reportedAt false
      (Some (reported_instance <$> instances))).
Proof.
  intros Hraw Hd Hs Hl Hk instances Hi. unfold parseReport. rewrite Hraw. unfold buildMemoryReport. read_fields. unfold validate_devices.
  rewrite <- list_fmap_compose. rewrite (mapM_fmap_Some _ _ (reported_device measured kvCache ledger)).
  - simpl. do 3 f_equal. fold instances. rewrite Forall_forall in Hi. apply omap_fmap_Some. intros i Hin. by apply instance_roundtrip, Hi.
  - intros d Hin. rewrite Forall_forall in Hd. apply device_report_roundtrip; eauto.
Qed.
(** C25: what a worker reports of its memory is what the control plane budgets with.  The text of
    [buildMemoryReport()] passes [parseReport], device by device: the used bytes are the measured
    ones where NVML has a reading of the device and the ledger's where it has none, and the
    names, figures and cache pools of the devices and the shares of the instances arrive
    unchanged. *)
Theorem memory_report_roundtrip raw devices measured kvCache ledger ledgerInstances reportedAt now workerId st :
  JSON_parse raw = Some (buildMemoryReport (detected <$> devices) measured kvCache ledger ledgerInstances reportedAt) →
  Forall device_ok devices → (∀ d s, d ∈ devices → sample_of measured d = Some s → stats_ok s) → (∀ z, z ∈ ledger → (0 ≤ z)%Z) →
  (∀ m i k, kvCache = Some m → jm_get m i = Some k → kv_ok k) →
  let instances := match measured with Some s => sa_instances s | None => ledgerInstances end in
  Forall instance_ok instances →
  parseReport JSON_parse now raw workerId st =
    Some (mkBudget workerId (to_device_budget st workerId <$> (reported_device measured kvCache ledger <$> devices)) reportedAt false
      (Some (reported_instance <$> instances))).
Proof. apply report_read. Qed.

(** Without measurements the control plane sees the runners that are up.  The report of a
    worker with no NVML reader, sent in any state the agent can reach, gives every device the
    used bytes of the runners on it, no more and no less, and so leaves what the runners and the
    holds of placement have not taken. *)
Theorem ledger_report_shows_runners `{!RunnerLauncher} config probes a raw devices kvCache ledgerInstances reportedAt now workerId st :
  reachable config probes sized_start (length devices) a →
  JSON_parse raw = Some (buildMemoryReport (detected <$> devices) None kvCache (deviceMemoryUsed (ag_manager a)) ledgerInstances reportedAt) →
  (∀ i d, devices !! i = Some d → wdi_deviceIndex d = Z.of_nat i ∧ (0 ≤ wdi_memoryTotalBytes d)%Z) →
  (∀ m i k, kvCache = Some m → jm_get m i = Some k → kv_ok k) → Forall instance_ok ledgerInstances →
  ∃ b, parseReport JSON_parse now raw workerId st = Some b ∧
    ∀ i d, devices !! i = Some d → ∃ bd, wb_devices b !! i = Some bd ∧
      usedBytes bd = total_share (runners (ag_manager a)) (Z.of_nat i) ∧
      availableBytes bd = available (wdi_memoryTotalBytes d) (total_share (runners (ag_manager a)) (Z.of_nat i)) (getReservation st workerId (Z.of_nat i)).
Proof.
  intros Hr Hraw Hdev Hk Hi. pose proof (reachable_ledger _ _ _ _ Hr) as Hl.
  eexists. split; [eapply report_read; [exact Hraw|..|exact Hi]|].
  - apply Forall_lookup_2. intros i d Hd. destruct (Hdev _ _ Hd) as [? ?]. split; [lia|done].
  - done.
  - intros z (i & Hz)%list_elem_of_lookup. rewrite (lo_exact _ Hl _ _ Hz). apply total_share_nonneg, Hl.
  - exact Hk.
  - intros i d Hd. destruct (Hdev _ _ Hd) as [Hix _]. simpl. rewrite !list_lookup_fmap, Hd. simpl. eexists. split; [done|]. simpl.
    assert (used_of None (deviceMemoryUsed (ag_manager a)) d = total_share (runners (ag_manager a)) (Z.of_nat i)) as ->; [|by rewrite Hix].
    unfold used_of, getDeviceMemoryUsed. simpl. rewrite Hix, (proj2 (Z.leb_le _ _)), Nat2Z.id by lia.
    destruct (lookup_lt_is_Some_2 (deviceMemoryUsed (ag_manager a)) i) as [v Hv].
    { rewrite (reachable_ledger_length _ _ _ _ _ Hr). by eapply lookup_lt_Some. }
    rewrite Hv. by apply (lo_exact _ Hl).
Qed.
End reports.

(** ** Attribution of processes *)
Section attribution.
Context (readPpid : Z → option Z).
(** The chain of parents of a process, itself first. *)
Fixpoint ancestors (n : nat) (pid : Z) : list Z :=
  match n with
  | O => []
  | S n' => pid :: match parent_of readPpid pid with Some p => ancestors n' p | None => [] end
  end.
Definition first_owner (ownerPids : gset Z) (pids : list Z) : option Z := List.find (λ p, bool_decide (p ∈ ownerPids)) pids.

(** A set of processes closed under [parent_of] and without owners has no owner above it. *)
Lemma closed_no_owner (visited owners : gset Z) n p :
  (∀ v, v ∈ visited → v ∉ owners ∧ ∀ q, parent_of readPpid v = Some q → q ∈ visited) → p ∈ visited → first_owner owners (ancestors n p) = None.
Proof.
  intros Hcl. revert p. induction n as [|n IH]; intros p Hp; [done|]. destruct (Hcl p Hp) as [Hno Hpar].
  unfold first_owner in *. simpl. rewrite bool_decide_eq_false_2 by done. destruct (parent_of readPpid p) as [q|] eqn:E; [|done]. by apply IH, Hpar.
Qed.
Lemma walk_up_ancestors owners n p visited :
  (∀ v, v ∈ visited → v ∉ owners ∧ ∀ q, parent_of readPpid v = Some q → q = p ∨ q ∈ visited) →
  walk_up readPpid n p visited owners = first_owner owners (ancestors n p).
Proof.
  revert p visited. induction n as [|n IH]; intros p visited Hv; [done|]. simpl walk_up.
  destruct (decide (p ∈ owners)) as [Ho|Ho]; [unfold first_owner; simpl; by rewrite bool_decide_eq_true_2|].
  destruct (decide (p ∈ visited)) as [Hin|Hin].
  { symmetry. apply (closed_no_owner visited); [|done]. intros v Hvv. destruct (Hv v Hvv) as [? Hq]. split; [done|]. intros q [->|?]%Hq; done. }
  unfold first_owner. simpl. rewrite bool_decide_eq_false_2 by done. destruct (parent_of readPpid p) as [q|] eqn:E; [|done].
  apply IH. intros v [->%elem_of_singleton|Hvv]%elem_of_union.
  - split; [done|]. intros q' Hq'. left. congruence.
  - destruct (Hv v Hvv) as [? Hq]. split; [done|]. intros q' [->|?]%Hq; set_solver.
Qed.

(** A process belongs to its nearest ancestor that is a runner.  [resolveOwner] answers the
    first known runner among the process and the 31 processes above it, and the guard against
    cycles in what [/proc] says never hides one. *)
Theorem resolveOwner_nearest pid owners :
  resolveOwner readPpid pid owners = first_owner owners (ancestors 32 pid).
Proof. apply walk_up_ancestors. set_solver. Qed.
End attribution.

Section measured.
Context (resolve : Z → gset Z → option Z) (owners : list RunnerProcessOwner).
(** The runner a process is attributed to. *)
Definition owner_of (p : NvmlProcessMemory) : option RunnerProcessOwner :=
  resolve (np_pid p) (list_to_set (po_pid <$> owners)) ≫= jm_get (owner_by_pid owners).
Definition owned (i : string) (d : Z) (p : NvmlProcessMemory) : bool :=
  bool_decide (np_deviceIndex p = d ∧ po_instanceId <$> owner_of p = Some i).
Definition share_of (i : string) (d : Z) (s : MeasuredInstanceSample) : bool :=
  bool_decide (mi_instanceId s = i ∧ mi_deviceIndex s = d).
Definition sumZ : list Z → Z := foldr Z.add 0%Z.
Definition sum_shares (i : string) (d : Z) (ss : list MeasuredInstanceSample) : Z := sumZ (mi_memoryUsedBytes <$> List.filter (share_of i d) ss).
Definition sum_owned (i : string) (d : Z) (ps : list NvmlProcessMemory) : Z := sumZ (np_usedBytes <$> List.filter (owned i d) ps).

Lemma owner_key_inj o o' d d' : owner_key o d = owner_key o' d' → po_instanceId o = po_instanceId o' ∧ d = d'.
Proof.
  unfold owner_key. intros E. change (":" +:+ ?x) with (String colon x) in E.
  apply sep_inj_r in E as [? ?%(inj show_int)]; [done|apply show_int_no_colon..].
Qed.

Definition weight (i : string) (d : Z) (s : MeasuredInstanceSample) : Z := if share_of i d s then mi_memoryUsedBytes s else 0%Z.
Lemma sum_shares_cons i d s ss : sum_shares i d (s :: ss) = (weight i d s + sum_shares i d ss)%Z.
Proof. unfold sum_shares, weight. simpl. by destruct (share_of i d s). Qed.
Lemma sum_owned_cons i d p ps : sum_owned i d (p :: ps) = ((if owned i d p then np_usedBytes p else 0) + sum_owned i d ps)%Z.
Proof. unfold sum_owned. simpl. by destruct (owned i d p). Qed.
Lemma sum_shares_set i d (m : list (string * MeasuredInstanceSample)) k s' :
  sum_shares i d (jm_values (jm_set m k s')) =
    (sum_shares i d (jm_values m) - from_option (weight i d) 0 (jm_get m k) + weight i d s')%Z.
Proof.
  induction m as [|[k' s] m IH].
  - simpl. rewrite sum_shares_cons. unfold sum_shares. simpl. lia.
  - assert (jm_set ((k', s) :: m) k s' = if decide (k' = k) then (k', s') :: m else (k', s) :: jm_set m k s') as -> by done.
    assert (jm_get ((k', s) :: m) k = if decide (k' = k) then Some s else jm_get m k) as -> by done.
    destruct (decide (k' = k)); unfold jm_values; rewrite !fmap_cons, !sum_shares_cons; cbn [snd from_option]; [lia|]. unfold jm_values in IH. rewrite IH. lia.
Qed.

(** Every entry is kept under its own key. *)
Definition keyed (totals : list (string * MeasuredInstanceSample)) : Prop :=
  NoDup (jm_keys totals) ∧ Forall (λ ks, ks.1 = mi_instanceId ks.2 +:+ ":" +:+ show_int (mi_deviceIndex ks.2)) totals.
Lemma add_process_ok i d totals p :
  keyed totals →
  keyed (add_process resolve owners totals p) ∧
  sum_shares i d (jm_values (add_process resolve owners totals p)) =
    (sum_shares i d (jm_values totals) + if owned i d p then np_usedBytes p else 0)%Z.
Proof.
  intros [Hnd Hk]. unfold add_process, owned. fold (owner_of p). destruct (owner_of p) as [o|]; [|rewrite bool_decide_eq_false_2 by naive_solver; split; [done|lia]].
  destruct (jm_get totals (owner_key o (np_deviceIndex p))) as [s|] eqn:Eg; (split; [split; [by apply jm_set_NoDup|apply Forall_jm_set_at; [|done]]|]).
  - simpl. apply (Forall_jm_get _ _ _ _ Hk Eg).
  - rewrite sum_shares_set, Eg. simpl. pose proof (Forall_jm_get _ _ _ _ Hk Eg) as Hks. simpl in Hks.
    change (owner_key o (np_deviceIndex p) = owner_key (mkProcessOwner 0 (mi_instanceId s) "") (mi_deviceIndex s)) in Hks.
    apply owner_key_inj in Hks as [Ho Hdv]. simpl in Ho. unfold weight, share_of. simpl. rewrite Ho, Hdv.
    destruct (decide (mi_instanceId s = i ∧ mi_deviceIndex s = d)) as [[<- <-]|Hne].
    + rewrite !bool_decide_eq_true_2 by done. lia.
    + rewrite !bool_decide_eq_false_2 by naive_solver. lia.
  - done.
  - rewrite sum_shares_set, Eg. simpl. unfold weight, share_of. simpl.
    destruct (decide (po_instanceId o = i ∧ np_deviceIndex p = d)) as [[<- <-]|Hne].
    + rewrite !bool_decide_eq_true_2 by done. lia.
    + rewrite !bool_decide_eq_false_2 by naive_solver. lia.
Qed.
Lemma add_processes_ok i d ps totals :
  keyed totals →
  keyed (foldl (add_process resolve owners) totals ps) ∧
  sum_shares i d (jm_values (foldl (add_process resolve owners) totals ps)) = (sum_shares i d (jm_values totals) + sum_owned i d ps)%Z.
Proof.
  revert totals. induction ps as [|p ps IH]; intros totals Hk; [split; [done|unfold sum_owned; simpl; lia]|]. simpl.
  destruct (add_process_ok i d totals p Hk) as [Hk' Hs]. destruct (IH _ Hk') as [Hk'' Hs']. split; [done|]. rewrite Hs', Hs, sum_owned_cons. lia.
Qed.
Lemma keyed_pairs totals : keyed totals → NoDup ((λ s, (mi_instanceId s, mi_deviceIndex s)) <$> jm_values totals).
Proof.
  intros [Hnd Hk]. apply (NoDup_fmap_1 (λ id, id.1 +:+ ":" +:+ show_int id.2)).
  replace ((λ id, id.1 +:+ ":" +:+ show_int id.2) <$> _) with (jm_keys totals); [done|].
  unfold jm_keys, jm_values. rewrite <- !list_fmap_compose. apply list_fmap_ext. intros n ks Hn. by apply (Forall_lookup_1 _ _ _ _ Hk Hn).
Qed.

(** Measured memory is attributed exactly.  The sample has at most one entry for an instance
    on a device, and its bytes are the sum over the processes on that device that descend from
    the instance's runner: a process of nobody adds to no instance and none is counted twice. *)
Theorem measured_shares_exact devices processes i d :
  let instances := sa_instances (buildMeasuredSample resolve devices processes owners) in
  NoDup ((λ s, (mi_instanceId s, mi_deviceIndex s)) <$> instances) ∧ sum_shares i d instances = sum_owned i d processes.
Proof.
  simpl. destruct (add_processes_ok i d processes []) as [Hk Hs]; [by split; constructor|]. split; [by apply keyed_pairs|]. by rewrite Hs.
Qed.
End measured.

(** ** Closed examples *)
Definition ex_devices : list WorkerDevice := [mkWorkerDevice 0 DeviceType.CUDA 80; mkWorkerDevice 1 DeviceType.CUDA 80].
Definition ex_catalog : CatalogCapabilities :=
  ByRunner (loadCatalogCapabilities
    [JObj [("runnerType", JStr "vllm"); ("version", JStr "0.24"); ("supportedModelTypes", JArr [JStr "LLM"]); ("maxTensorParallelism", num 8)]] ["vllm"; "mlserver"]).
Definition ex_typed (rt : string) : option TypedOverrides :=
  if decide (rt = "vllm") then Some (mkTyped (Some [ModelType.LLM]) None (Some "0.24") (Some 8%Z) None None) else None.
Definition ex_info : json := register_info false (detected <$> ex_devices) "vllm" ex_catalog ["vllm"; "mlserver"] "worker-1" 9100.
Lemma announcement_roundtrip_witness :
  ∃ info, parseWorkerInfo (λ _, Some ex_info) "" = Some info ∧ WorkerPool.maxTensorParallelism <$> wi_capabilities info = [8%Z; 1%Z] ∧
    wi_devices info = ex_devices ∧ wi_managementUrl info = "http://worker-1:9100".
Proof.
  eexists. split; [apply (announcement_roundtrip _ "" false ex_devices "vllm" ex_catalog ["vllm"; "mlserver"] "worker-1" 9100 ex_typed); [reflexivity| |done..|]|].
  - intros rt Hrt. repeat (apply elem_of_cons in Hrt as [->|Hrt]; [split_and!; [done|vm_compute; reflexivity|by intros t [= <-]; split_and!; [..|intros n [= <-]]]|]). set_solver.
  - by repeat (constructor; [by vm_compute|]).
  - vm_compute. split_and!; reflexivity.
Defined.

Definition ex_measured : MeasuredMemorySample :=
  buildMeasuredSample (λ pid _, if Z.eqb pid 7 then Some 5%Z else None) [mkNvmlDevice 0 80 30 (Some "H100") (Some 40%Z) (Some 60%Z)]
    [mkNvmlProcess 0 7 20; mkNvmlProcess 0 8 10; mkNvmlProcess 0 7 5] [mkProcessOwner 5 "i" "m"].
Definition ex_report : json := buildMemoryReport (detected <$> ex_devices) (Some ex_measured) (Some [(1%Z, mkKv 4 1 1 2)]) [9%Z; 3%Z] [] "12".
Lemma memory_report_roundtrip_witness :
  ∃ b, parseReport (λ _, Some ex_report) 0 "" "w" init_state = Some b ∧ usedBytes <$> wb_devices b = [30%Z; 3%Z] ∧
    instanceMeasurements b = Some [mkMeasurement "i" "m" 0 25].
Proof.
  eexists. split; [apply (memory_report_roundtrip _ "" ex_devices (Some ex_measured) (Some [(1%Z, mkKv 4 1 1 2)]) [9%Z; 3%Z] [] "12"); [reflexivity|..]|].
  - by repeat (constructor; [by vm_compute|]).
  - intros d s Hd. repeat (apply elem_of_cons in Hd as [->|Hd]; [vm_compute; intros Hs; simplify_eq; split_and!; [done..|by intros u [= <-]]|]). set_solver.
  - intros z Hz. repeat (apply elem_of_cons in Hz as [->|Hz]; [done|]). set_solver.
  - intros m i k [= <-]. unfold jm_get. destruct (decide (1%Z = i)); [|done]. intros [= <-]. by vm_compute.
  - by repeat (constructor; [by vm_compute|]).
  - vm_compute. split; reflexivity.
Defined.

Definition ex_ledger_report : json := buildMemoryReport (detected <$> ex_devices) None None (deviceMemoryUsed (ag_manager ex_agent)) [] "12".
Lemma ledger_report_shows_runners_witness :
  ∃ b bd, parseReport (λ _, Some ex_ledger_report) 0 "" "w" init_state = Some b ∧ wb_devices b !! 1 = Some bd ∧ usedBytes bd = 5%Z ∧ availableBytes bd = 75%Z.
Proof.
  destruct (ledger_report_shows_runners (λ _, Some ex_ledger_report) (H0 := StubLauncher ex_worker) ex_worker true ex_agent "" ex_devices None [] "12" 0 "w" init_state) as (b & Hb & Hd).
  - apply (@ex_agent_reachable sized_start). intros l a Hl. repeat (apply elem_of_cons in Hl as [->|Hl]; [vm_compute; congruence|]). set_solver.
  - reflexivity.
  - intros [|[|i]] d; simpl; [by intros [= <-]..|by rewrite lookup_nil].
  - done.
  - constructor.
  - destruct (Hd 1 (mkWorkerDevice 1 DeviceType.CUDA 80) eq_refl) as (bd & Hbd & Hu & Ha). exists b, bd. split_and!; [done..|by rewrite Hu|by rewrite Ha].
Defined.
