(* ===== verification/Heartbeat.v ===== *)
(** * The heartbeat of a worker (runners/dev-worker/src: registration.ts, start and shutdown of index.ts)

    Registration, the interval timer, the health check in front of every heartbeat, the memory
    reports that accompany it, the commands on their way to Redis, and the end: a transition
    system with a clock.  [WorkerPool.resolveHeartbeatStatus] of the control plane reads the key.
    The client sends its commands over one connection, so that Redis runs them in order. *)
From stdpp Require Import base tactics list strings sets.
From Stdlib Require Import ZArith Lia.
From S2P Require Import Prelude Js Types RunnerLogs WorkerAgent MemoryBudget WorkerPool Modules WorkerReports.
Local Open Scope Z_scope.

(** ** State *)
Record Entry := mkEntry { en_value : string; en_expires : option Z }.
(** What an unexpired key holds. *)
Definition read_key (now : Z) (e : option Entry) : option string :=
  match e with
  | Some e => match en_expires e with Some t => if Z.leb t now then None else Some (en_value e) | None => Some (en_value e) end
  | None => None
  end.
(** The three keys of the worker. *)
Record Keys := mkKeys { k_info : option Entry; k_heartbeat : option Entry; k_memory : option Entry }.
Definition no_keys : Keys := mkKeys None None None.
(** Who awaits a report: [register] (with the date it has put into its pipeline), a tick of the
    timer, or nobody ([void this.pushMemoryReport()]). *)
Inductive Origin := FromRegister (date : Z) | FromTick | FromLedger.
(** [buildMemoryReport] under way: before the measurements, and after them. *)
Inductive Building := Measuring | Listing (measured : option MeasuredMemorySample) (kvCache : option (list (Z * KvCache))) (ledger : list Z).
Inductive Command :=
| RegisterPipeline (date : Z) (report : json)
| SetHeartbeat (date : Z)
| SetMemory (origin : Origin) (report : json)
| DeregisterPipeline.
Record Worker := mkWorkerState {
  w_now : Z; w_timer : option Z; w_ledger : list Z;
  w_checks : list Z;                      (* health checks under way, with the time of their tick *)
  w_reports : list (Origin * Building);
  w_outbox : list (Z * Command);          (* sent and not yet run, with the time of sending *)
  w_keys : Keys; w_dead : bool;
}.
Definition new_worker (now : Z) (ledger : list Z) : Worker := mkWorkerState now None ledger [] [] [] no_keys false.
Definition set_timer t (w : Worker) := mkWorkerState (w_now w) t (w_ledger w) (w_checks w) (w_reports w) (w_outbox w) (w_keys w) (w_dead w).
Definition set_checks c (w : Worker) := mkWorkerState (w_now w) (w_timer w) (w_ledger w) c (w_reports w) (w_outbox w) (w_keys w) (w_dead w).
Definition set_reports r (w : Worker) := mkWorkerState (w_now w) (w_timer w) (w_ledger w) (w_checks w) r (w_outbox w) (w_keys w) (w_dead w).
Definition set_outbox o (w : Worker) := mkWorkerState (w_now w) (w_timer w) (w_ledger w) (w_checks w) (w_reports w) o (w_keys w) (w_dead w).
Definition set_keys k (w : Worker) := mkWorkerState (w_now w) (w_timer w) (w_ledger w) (w_checks w) (w_reports w) (w_outbox w) k (w_dead w).
Definition set_used l (w : Worker) := mkWorkerState (w_now w) (w_timer w) l (w_checks w) (w_reports w) (w_outbox w) (w_keys w) (w_dead w).
Definition set_now t (w : Worker) := mkWorkerState t (w_timer w) (w_ledger w) (w_checks w) (w_reports w) (w_outbox w) (w_keys w) (w_dead w).
Definition kill (w : Worker) := mkWorkerState (w_now w) None (w_ledger w) [] [] [] (w_keys w) true.

Section heartbeat.
Context `{!JsDate} (stringify : json → string) (heartbeatIntervalMs : Z) (devices : list DetectedDevice) (info : json).

(** ** Operations *)
Definition ttlMs : Z := heartbeatIntervalMs * 4.
Definition send (c : Command) (w : Worker) : Worker := set_outbox (w_outbox w ++ [(w_now w, c)]) w.
Definition begin_report (o : Origin) (w : Worker) : Worker := set_reports (w_reports w ++ [(o, Measuring)]) w.
(** [register] as far as its first [await]: the date is taken before the report is built. *)
Definition register (w : Worker) : Worker := begin_report (FromRegister (w_now w)) w.
Definition startHeartbeat (w : Worker) : Worker := match w_timer w with Some _ => w | None => set_timer (Some (w_now w + heartbeatIntervalMs)) w end.
Definition stopHeartbeat (w : Worker) : Worker := set_timer None w.
Definition deregister (w : Worker) : Worker := send DeregisterPipeline w.
Definition allocate (deviceIndex bytes : Z) (w : Worker) : Worker :=
  if in_range deviceIndex (w_ledger w) then begin_report FromLedger (set_used (allocateMemory deviceIndex bytes (w_ledger w)) w) else w.
Definition free (deviceIndex bytes : Z) (w : Worker) : Worker :=
  if in_range deviceIndex (w_ledger w) then begin_report FromLedger (set_used (freeMemory deviceIndex bytes (w_ledger w)) w) else w.
(** The interval timer, due: one tick begins, and the next is due an interval later. *)
Definition fire (w : Worker) : Worker := set_timer (Some (w_now w + heartbeatIntervalMs)) (set_checks (w_checks w ++ [w_now w]) w).
(** The answer of a tick's health check; [false] also when the fetch throws. *)
Definition checked (k : nat) (ok : bool) (w : Worker) : Worker :=
  let w := set_checks (delete k (w_checks w)) w in if ok then send (SetHeartbeat (w_now w)) w else w.
(** A report is ready. *)
Definition finish_report (o : Origin) (report : json) (w : Worker) : Worker :=
  send (match o with FromRegister date => RegisterPipeline date report | _ => SetMemory o report end) w.
(** Redis runs a command, and the code that awaited it goes on. *)
Definition executed (c : Command) (w : Worker) : Worker :=
  let k := w_keys w in
  match c with
  | RegisterPipeline date report =>
      startHeartbeat (set_keys (mkKeys (Some (mkEntry (stringify info) None)) (Some (mkEntry (toISOString date) None)) (Some (mkEntry (stringify report) None))) w)
  | SetHeartbeat date => begin_report FromTick (set_keys (mkKeys (k_info k) (Some (mkEntry (toISOString date) (Some (w_now w + ttlMs)))) (k_memory k)) w)
  | SetMemory _ report => set_keys (mkKeys (k_info k) (k_heartbeat k) (Some (mkEntry (stringify report) None))) w
  | DeregisterPipeline => set_keys no_keys w
  end.
(** A command that fails: the pipelines go on with the errors as results, a tick swallows its
    error, and a report nobody awaits is an unhandled rejection, which ends the process. *)
Definition rejected (c : Command) (w : Worker) : Worker :=
  match c with
  | RegisterPipeline _ _ => startHeartbeat w
  | SetMemory FromLedger _ => kill w
  | _ => w
  end.

(** ** Steps *)
Inductive Label :=
| Advance (ms : Z) | Start | Fire | Checked (k : nat) (ok : bool)
| Measured (k : nat) (measured : option MeasuredMemorySample) (kvCache : option (list (Z * KvCache)))
| Listed (k : nat) (ledgerInstances : list MeasuredInstanceSample)
| Deliver (ok : bool) | Allocate (deviceIndex bytes : Z) | Free (deviceIndex bytes : Z) | Shutdown.
(** [None]: not possible here. *)
Definition step (l : Label) (w : Worker) : option Worker :=
  if w_dead w then match l with Advance ms => if Z.leb 0 ms then Some (set_now (w_now w + ms) w) else None | _ => None end else
  match l with
  | Advance ms => if Z.leb 0 ms then Some (set_now (w_now w + ms) w) else None
  | Start => Some (register w)
  | Fire => match w_timer w with Some due => if Z.leb due (w_now w) then Some (fire w) else None | None => None end
  | Checked k ok => match w_checks w !! k with Some _ => Some (checked k ok w) | None => None end
  | Measured k m kv =>
      match w_reports w !! k with Some (o, Measuring) => Some (set_reports (<[k := (o, Listing m kv (w_ledger w))]> (w_reports w)) w) | _ => None end
  | Listed k li =>
      match w_reports w !! k with
      | Some (o, Listing m kv ledger) => Some (finish_report o (buildMemoryReport devices m kv ledger li (toISOString (w_now w))) (set_reports (delete k (w_reports w)) w))
      | _ => None
      end
  | Deliver ok => match w_outbox w with (_, c) :: rest => Some ((if ok then executed else rejected) c (set_outbox rest w)) | [] => None end
  | Allocate i b => Some (allocate i b w)
  | Free i b => Some (free i b w)
  | Shutdown => Some (deregister (stopHeartbeat w))
  end.
Fixpoint run (ls : list Label) (w : Worker) : option Worker :=
  match ls with [] => Some w | l :: ls => match step l w with Some w => run ls w | None => None end end.

(** ** Prompt runs: nothing fails, and whatever is due or under way is done within [latency] *)
Definition prompt (latency : Z) (w : Worker) (l : Label) : bool :=
  match l with
  | Advance ms =>
      let t := w_now w + ms in
      match w_timer w with Some due => Z.leb t (due + latency) | None => true end &&
      forallb (λ f, Z.leb t (f + latency)) (w_checks w) && forallb (λ sc, Z.leb t (sc.1 + latency)) (w_outbox w)
  | Checked _ ok | Deliver ok => ok
  | Start | Shutdown => false
  | _ => true
  end.
Fixpoint prompt_run (latency : Z) (ls : list Label) (w : Worker) : bool :=
  match ls with
  | [] => true
  | l :: ls => prompt latency w l && match step l w with Some w => prompt_run latency ls w | None => true end
  end.
(** The registration is about to be run by Redis, at most [age] after it took its date. *)
Definition memory_only (sc : Z * Command) : Prop := match sc.2 with SetMemory _ _ => True | _ => False end.
Definition not_register (r : Origin * Building) : Prop := match r.1 with FromRegister _ => False | _ => True end.
Definition registering (age : Z) (w : Worker) : Prop :=
  w_dead w = false ∧ w_timer w = None ∧ w_checks w = [] ∧ Forall not_register (w_reports w) ∧
  match w_outbox w with
  | (_, RegisterPipeline date _) :: rest => w_now w - date ≤ age ∧ Forall memory_only rest
  | _ => False
  end.
(** What the control plane makes of the key. *)
Definition status (heartbeatTimeoutSecs : Z) (w : Worker) : WorkerStatus :=
  resolveHeartbeatStatus heartbeatTimeoutSecs (w_now w) (read_key (w_now w) (k_heartbeat (w_keys w))).

(** ** The invariant of a prompt run *)
Definition beats (o : list (Z * Command)) : list Z := omap (λ sc, match sc.2 with SetHeartbeat d => Some d | _ => None end) o.
Fixpoint chain (gap t : Z) (l : list Z) : Prop := match l with [] => True | s :: l => s - t ≤ gap ∧ chain gap s l end.
Definition newest (t : Z) (l : list Z) : Z := default t (last l).
Arguments beats : simpl never.
Arguments newest : simpl never.
Lemma newest_snoc t l s : newest t (l ++ [s]) = s.
Proof. unfold newest. by rewrite last_snoc. Qed.
Lemma newest_cons t s l : newest t (s :: l) = newest s l.
Proof. unfold newest. destruct l as [|s' l]; [done|]. change (last (s :: s' :: l)) with (last (s' :: l)). by destruct (last (s' :: l)) eqn:E; [|apply last_None in E]. Qed.
Lemma chain_snoc gap t l s : chain gap t l → s - newest t l ≤ gap → chain gap t (l ++ [s]).
Proof. revert t. induction l as [|s' l IH]; intros t; simpl; [done|]. rewrite newest_cons. intros [? ?] ?. auto. Qed.
Lemma beats_snoc o s c : beats (o ++ [(s, c)]) = beats o ++ match c with SetHeartbeat d => [d] | _ => [] end.
Proof. unfold beats. rewrite omap_app. by destruct c. Qed.

Section prompt.
Variables (L D : Z).
Hypotheses (HL : 0 ≤ L < heartbeatIntervalMs) (HD : 0 ≤ D).
Abbreviation I := heartbeatIntervalMs.
Definition on_time (now : Z) (sc : Z * Command) : Prop :=
  match sc.2 with SetHeartbeat d => d = sc.1 ∧ d ≤ now ≤ d + L | SetMemory _ _ => True | _ => False end.
Record beating (due t : Z) (w : Worker) : Prop := {
  b_alive : w_dead w = false;
  b_timer : w_timer w = Some due;
  b_due : due - I ≤ w_now w ≤ due + L;
  b_checks : Forall (λ f, f = due - I ∧ w_now w ≤ f + L) (w_checks w);
  b_reports : Forall not_register (w_reports w);
  b_outbox : Forall (on_time (w_now w)) (w_outbox w);
  b_key : ∃ ex, k_heartbeat (w_keys w) = Some (mkEntry (toISOString t) ex) ∧ match ex with Some e => t + ttlMs ≤ e | None => True end;
  b_chain : chain (I + 2 * L + D) t (beats (w_outbox w));
  b_newest : due - I - D ≤ newest t (beats (w_outbox w)) ∨ (w_checks w ≠ [] ∧ due - I - I - L - D ≤ newest t (beats (w_outbox w)));
}.
Lemma beating_age due t w : beating due t w → w_now w - t ≤ I + 3 * L + D.
Proof.
  intros [_ _ Hd Hc _ Ho _ Hch Hn].
  destruct (beats (w_outbox w)) as [|s l] eqn:E.
  - unfold newest in Hn; cbn in Hn. destruct Hn as [Hn|[Hne Hn]]; [lia|]. destruct (w_checks w) as [|f cs]; [done|]. apply Forall_cons in Hc as [[-> Hf] _]. lia.
  - destruct Hch as [Hg _]. assert (Hs : s ∈ beats (w_outbox w)) by (rewrite E; constructor).
    unfold beats in Hs. apply list_elem_of_omap in Hs as ([s' c] & Hin & Hs). rewrite Forall_forall in Ho. specialize (Ho _ Hin). unfold on_time in Ho. destruct c; cbn in Hs, Ho; try done. injection Hs as ->. lia.
Qed.
Lemma beating_start age w w' : registering age w → age ≤ D → step (Deliver true) w = Some w' → ∃ due t, beating due t w'.
Proof.
  intros (Ha & Ht & Hc & Hr & Ho) Hage. unfold step. rewrite Ha. destruct (w_outbox w) as [|[s []] rest]; try done. destruct Ho as [Hnow Ho]. cbn [executed]. unfold startHeartbeat. cbn [w_timer set_keys set_outbox].
  rewrite Ht. intros [= <-]. exists (w_now w + I), date.
  assert (Hb : beats rest = []) by (clear -Ho; induction Ho as [|[? []] ? H _ IH]; by auto).
  split; cbn; rewrite ?Hc, ?Hb; try done; [lia| | |left; unfold newest; cbn; lia].
  - eapply Forall_impl; [exact Ho|]. intros [? []]; done.
  - by eexists.
Qed.
Lemma on_time_later now now' o :
  now ≤ now' → Forall (on_time now) o → forallb (λ sc, Z.leb now' (sc.1 + L)) o = true → Forall (on_time now') o.
Proof.
  intros Hle Ho Hl. rewrite forallb_forall in Hl. rewrite Forall_forall in Ho |- *. intros [s c] Hin. specialize (Ho _ Hin). specialize (Hl (s, c)). rewrite <- list_elem_of_In in Hl. specialize (Hl Hin).
  apply Z.leb_le in Hl. unfold on_time in *. destruct c; simpl in *; try done. lia.
Qed.
Lemma beating_with_reports due t w r : beating due t w → Forall not_register r → beating due t (set_reports r w).
Proof. intros [] Hr. by split. Qed.
Lemma beating_with_ledger due t w l : beating due t w → beating due t (set_used l w).
Proof. intros []. by split. Qed.
Lemma beating_begin due t w o : beating due t w → (∀ d, o ≠ FromRegister d) → beating due t (begin_report o w).
Proof.
  intros Hb Ho. apply beating_with_reports; [done|]. apply Forall_app. split; [apply (b_reports _ _ _ Hb)|].
  apply Forall_singleton. destruct o; [by destruct (Ho date)|done..].
Qed.
Lemma beating_finish due t w o report : beating due t w → (∀ d, o ≠ FromRegister d) → beating due t (finish_report o report w).
Proof.
  intros [] Ho. assert (E : finish_report o report w = send (SetMemory o report) w) by (destruct o; [by destruct (Ho date)|done..]). rewrite E.
  split; cbn; rewrite ?beats_snoc, ?app_nil_r; try done. apply Forall_app. by split; [|apply Forall_singleton].
Qed.
Lemma beating_advance due t w ms : beating due t w → 0 ≤ ms → prompt L w (Advance ms) = true → beating due t (set_now (w_now w + ms) w).
Proof.
  intros [] Hms Hp. cbn [prompt] in Hp. rewrite b_timer0 in Hp. apply andb_true_iff in Hp as [[Hd%Z.leb_le Hc]%andb_true_iff Ho].
  split; cbn; try done; [lia| |by eapply on_time_later; [|exact b_outbox0|exact Ho]; lia].
  rewrite forallb_forall in Hc. rewrite Forall_forall in b_checks0 |- *. intros f Hf. split; [by apply b_checks0|].
  apply Z.leb_le, Hc. by apply list_elem_of_In.
Qed.
Lemma beating_fire due t w : beating due t w → due ≤ w_now w → beating (w_now w + I) t (fire w).
Proof.
  intros [] Hdue. assert (Hnil : w_checks w = []).
  { destruct (w_checks w) as [|f cs]; [done|]. apply Forall_cons in b_checks0 as [[? ?] _]. lia. }
  split; cbn; rewrite ?Hnil; try done; [lia| |].
  - apply Forall_singleton. lia.
  - right. split; [done|]. destruct b_newest0 as [?|[? _]]; [lia|by rewrite Hnil in *].
Qed.
Lemma beating_checked due t w k f : beating due t w → w_checks w !! k = Some f → beating due t (checked k true w).
Proof.
  intros [] Hk. pose proof (Forall_lookup_1 _ _ _ _ b_checks0 Hk) as [-> Hf].
  split; cbn; rewrite ?beats_snoc, ?newest_snoc; try done.
  - by apply Forall_delete.
  - apply Forall_app. split; [done|]. apply Forall_singleton. cbn. lia.
  - apply chain_snoc; [done|]. destruct b_newest0 as [?|[_ ?]]; lia.
  - left. lia.
Qed.
Lemma beating_deliver due t w s c rest :
  beating due t w → w_outbox w = (s, c) :: rest → ∃ t', beating due t' (executed c (set_outbox rest w)).
Proof.
  intros [] Ho. rewrite Ho in *. apply Forall_cons in b_outbox0 as [Hc Hrest]. destruct c as [|d|o report|]; try done.
  - exists d. cbn in Hc. destruct Hc as [-> Hc]. apply beating_begin; [|done]. cbn in b_chain0. change (beats ((s, SetHeartbeat s) :: rest)) with (s :: beats rest) in *.
    rewrite newest_cons in b_newest0. destruct b_chain0 as [_ Hch]. split; cbn; try done. eexists. split; [done|]. cbn. lia.
  - exists t. change (beats ((s, SetMemory o report) :: rest)) with (beats rest) in *. by split.
Qed.
Lemma beating_step due t w l w' : beating due t w → prompt L w l = true → step l w = Some w' → ∃ due' t', beating due' t' w'.
Proof.
  intros Hb Hp Hs. unfold step in Hs. rewrite (b_alive _ _ _ Hb) in Hs. pose proof (b_reports _ _ _ Hb) as Hr.
  assert (Hor : ∀ k r d, w_reports w !! k = Some r → r.1 ≠ FromRegister d).
  { intros k r d Hk He. pose proof (Forall_lookup_1 _ _ _ _ Hr Hk) as Hn. unfold not_register in Hn. by rewrite He in Hn. }
  destruct l as [ms| | |k ok|k m kv|k li|ok|i b|i b|]; cbn [prompt] in Hp; try done.
  - destruct (Z.leb_spec 0 ms); simplify_eq. eexists _, _. by apply beating_advance.
  - rewrite (b_timer _ _ _ Hb) in Hs. destruct (Z.leb_spec due (w_now w)); simplify_eq. eexists _, _. by eapply beating_fire.
  - subst ok. destruct (w_checks w !! k) eqn:Hk; simplify_eq. eexists _, _. by eapply beating_checked.
  - destruct (w_reports w !! k) as [[o []]|] eqn:Hk; simplify_eq. eexists _, _. apply beating_with_reports; [exact Hb|]. apply Forall_insert; [done|].
    exact (Forall_lookup_1 _ _ _ _ Hr Hk).
  - destruct (w_reports w !! k) as [[o []]|] eqn:Hk; simplify_eq. eexists _, _. apply beating_finish; [|intros d; by apply (Hor k _ d) in Hk].
    apply beating_with_reports; [exact Hb|]. by apply Forall_delete.
  - subst ok. destruct (w_outbox w) as [|[s c] rest] eqn:Ho; simplify_eq. eexists. by eapply beating_deliver.
  - simplify_eq. unfold allocate. eexists _, _. case_match; [|exact Hb]. apply beating_begin; [|done]. by apply beating_with_ledger.
  - simplify_eq. unfold free. eexists _, _. case_match; [|exact Hb]. apply beating_begin; [|done]. by apply beating_with_ledger.
Qed.
Lemma beating_run ls due t w w' : beating due t w → prompt_run L ls w = true → run ls w = Some w' → ∃ due' t', beating due' t' w'.
Proof.
  revert due t w. induction ls as [|l ls IH]; intros due t w Hb Hp Hr; cbn in *; [simplify_eq; eauto|].
  apply andb_true_iff in Hp as [Hl Hp]. destruct (step l w) as [w1|] eqn:Hs; [|done]. destruct (beating_step _ _ _ _ _ Hb Hl Hs) as (? & ? & ?). eauto.
Qed.
End prompt.

(** ** Up as long as things are prompt *)
(** C36: a worker is not lost as long as it is prompt.  Let a registration take at most [age]
    milliseconds from its date to Redis, and after that let every tick of the timer, every answer
    of the worker's own health check and every command to Redis come within [latency], with
    [latency < interval], [3 * latency + age < 3 * interval] and
    [2 * (interval + 3 * latency + age) < timeout].  Then at every moment, whatever the memory
    reports and the ledger do in between, the heartbeat key holds a date that is at most
    [interval + 3 * latency + age] old, and the control plane takes the worker for ONLINE. *)
Theorem worker_stays_online (timeoutSecs latency age : Z) (w0 w : Worker) (ls : list Label)
  (Hdate : ∀ ms, toISOString ms ≠ "")
  (Hlat : 0 ≤ latency < heartbeatIntervalMs) (Hage : 0 ≤ age)
  (Hfresh : 2 * (heartbeatIntervalMs + 3 * latency + age) < timeoutSecs * 1000)
  (Httl : 3 * latency + age < 3 * heartbeatIntervalMs)
  (Hreg : registering age w0) (Hrun : run (Deliver true :: ls) w0 = Some w)
  (Hprompt : ∀ w1, step (Deliver true) w0 = Some w1 → prompt_run latency ls w1 = true) :
  (∃ t, read_key (w_now w) (k_heartbeat (w_keys w)) = Some (toISOString t) ∧ w_now w - t ≤ heartbeatIntervalMs + 3 * latency + age) ∧
  status timeoutSecs w = WorkerStatus.ONLINE.
Proof.
  cbn [run] in Hrun. destruct (step (Deliver true) w0) as [w1|] eqn:H1; [|done].
  destruct (beating_start latency age Hlat age w0 w1 Hreg ltac:(lia) H1) as (due1 & t1 & Hb1).
  destruct (beating_run latency age Hlat Hage ls due1 t1 w1 w Hb1 (Hprompt w1 eq_refl) Hrun) as (due & t & Hb).
  pose proof (beating_age latency age Hlat _ _ _ Hb) as Ht. destruct (b_key _ _ _ _ _ Hb) as (ex & Hk & He).
  assert (Hread : read_key (w_now w) (k_heartbeat (w_keys w)) = Some (toISOString t)).
  { rewrite Hk. cbn. destruct ex as [e|]; [|done]. unfold ttlMs in He. destruct (Z.leb_spec e (w_now w)); [lia|done]. }
  split; [by exists t|]. unfold status. rewrite Hread. apply heartbeat_status_spec; [done|lia|lia].
Qed.

(** ** Not shown up without reason *)
Lemma run_snoc ls l w0 w : run (ls ++ [l]) w0 = Some w ↔ ∃ w1, run ls w0 = Some w1 ∧ step l w1 = Some w.
Proof.
  revert w0. induction ls as [|l' ls IH]; intros w0; cbn.
  - split; [|by intros (? & [= ->] & ->)]. destruct (step l w0) eqn:E; [|done]. intros [= ->]. eauto.
  - destruct (step l' w0); [apply IH|]. split; [done|]. by intros (? & ? & ?).
Qed.
(** At time [d] of the run the worker registered itself or passed a health check. *)
Definition attested (w0 : Worker) (ls : list Label) (d : Z) : Prop :=
  ∃ ls1 l ls2 w1, ls = ls1 ++ l :: ls2 ∧ run ls1 w0 = Some w1 ∧ w_now w1 = d ∧ (l = Start ∨ ∃ k, l = Checked k true).
Lemma attested_snoc w0 ls l d : attested w0 ls d → attested w0 (ls ++ [l]) d.
Proof. intros (ls1 & l1 & ls2 & w1 & -> & ?). exists ls1, l1, (ls2 ++ [l]), w1. split; [by rewrite <- app_assoc|done]. Qed.
Lemma attested_last w0 ls l w1 : run ls w0 = Some w1 → (l = Start ∨ ∃ k, l = Checked k true) → attested w0 (ls ++ [l]) (w_now w1).
Proof. intros Hr Hl. exists ls, l, [], w1. eauto. Qed.
(** The dates of a state, all satisfying [P]. *)
Definition command_date (P : Z → Prop) (sc : Z * Command) : Prop := match sc.2 with RegisterPipeline d _ | SetHeartbeat d => P d | _ => True end.
Definition report_date (P : Z → Prop) (r : Origin * Building) : Prop := match r.1 with FromRegister d => P d | _ => True end.
Definition key_date (P : Z → Prop) (k : Keys) : Prop := match k_heartbeat k with Some e => ∃ d, en_value e = toISOString d ∧ P d | None => True end.
Definition dated (P : Z → Prop) (w : Worker) : Prop :=
  Forall (command_date P) (w_outbox w) ∧ Forall (report_date P) (w_reports w) ∧ key_date P (w_keys w).
Lemma dated_mono (P Q : Z → Prop) w : (∀ d, P d → Q d) → dated P w → dated Q w.
Proof.
  intros HPQ (Ho & Hr & Hk). split_and!.
  - eapply Forall_impl; [exact Ho|]. intros [? []]; cbn; auto.
  - eapply Forall_impl; [exact Hr|]. intros [[] ?]; cbn; auto.
  - unfold key_date in *. case_match; [|done]. naive_solver.
Qed.
Lemma dated_send (P : Z → Prop) w c : dated P w → command_date P (0, c) → dated P (send c w).
Proof. intros (Ho & Hr & Hk) Hc. split; [|by split]. apply Forall_app. split; [done|]. by apply Forall_singleton. Qed.
Lemma dated_begin (P : Z → Prop) w o : dated P w → report_date P (o, Measuring) → dated P (begin_report o w).
Proof. intros (Ho & Hr & Hk) Hc. split; [done|]. split; [|done]. apply Forall_app. split; [done|]. by apply Forall_singleton. Qed.
Lemma dated_timer (P : Z → Prop) w : dated P w → dated P (startHeartbeat w).
Proof. intros Hd. unfold startHeartbeat. by case_match. Qed.
Lemma dated_deliver (P : Z → Prop) w ok s c rest :
  dated P w → w_outbox w = (s, c) :: rest → dated P ((if ok : bool then executed else rejected) c (set_outbox rest w)).
Proof.
  intros (Ho & Hr & Hk) E. rewrite E in Ho. apply Forall_cons in Ho as [Hc Ho]. assert (Hd : dated P (set_outbox rest w)) by (by split_and!).
  assert (Hd' : ∀ k, key_date P k → dated P (set_keys k (set_outbox rest w))) by (intros k ?; by split_and!).
  destruct ok, c as [d r|d|[]|]; cbn [executed rejected]; auto using dated_timer; try (split_and!; done).
  - apply dated_timer, Hd'. cbn. exists d. done.
  - apply dated_begin; [|done]. apply Hd'. cbn. exists d. done.
Qed.
Lemma dated_step (P : Z → Prop) l w w' :
  dated P w → (l = Start ∨ (∃ k, l = Checked k true) → P (w_now w)) → step l w = Some w' → dated P w'.
Proof.
  intros Hd Hp Hs. pose proof Hd as (Ho & Hr & Hk). unfold step in Hs. destruct (w_dead w) eqn:Hdead; [destruct l; repeat case_match; simplify_eq; by split_and!|].
  destruct l as [ms| | |k ok|k m kv|k li|ok|i b|i b|]; [..|by simplify_eq; apply dated_send].
  - case_match; simplify_eq. by split_and!.
  - simplify_eq. apply dated_begin; [done|]. apply Hp. by left.
  - repeat case_match; simplify_eq. by split_and!.
  - repeat case_match; simplify_eq. unfold checked. destruct ok; [|by split_and!]. apply dated_send; [by split_and!|]. apply Hp. eauto.
  - destruct (w_reports w !! k) as [[o []]|] eqn:E; simplify_eq. split; [done|]. split; [|done]. apply Forall_insert; [done|]. exact (Forall_lookup_1 _ _ _ _ Hr E).
  - destruct (w_reports w !! k) as [[o []]|] eqn:E; simplify_eq. apply dated_send; [split; [done|split; [by apply Forall_delete|done]]|].
    pose proof (Forall_lookup_1 _ _ _ _ Hr E). by destruct o.
  - destruct (w_outbox w) as [|[s c] rest] eqn:E; simplify_eq. by eapply dated_deliver.
  - simplify_eq. unfold allocate. case_match; [|done]. apply dated_begin; [by split_and!|done].
  - simplify_eq. unfold free. case_match; [|done]. apply dated_begin; [by split_and!|done].
Qed.
Lemma dated_run now ledger ls w : run ls (new_worker now ledger) = Some w → dated (attested (new_worker now ledger) ls) w.
Proof.
  revert w. induction ls as [|l ls IH] using rev_ind; intros w; [intros [= <-]; by split_and!|].
  intros (w1 & H1 & Hs)%run_snoc. apply (dated_step _ l w1 w); [|by intros Hl; apply attested_last|done].
  eapply dated_mono; [|exact (IH _ H1)]. intros d. apply attested_snoc.
Qed.
(** In every run, with every failure, the control plane takes a worker for ONLINE or DEGRADED
    only if within the timeout that worker registered itself or passed its own health check; a
    worker that hangs, has crashed or is cut off goes OFFLINE when the timeout is over. *)
Theorem shown_up_only_when_healthy (timeoutSecs now : Z) (ledger : list Z) (ls : list Label) (w : Worker)
  (Hrun : run ls (new_worker now ledger) = Some w) (Hup : status timeoutSecs w ≠ WorkerStatus.OFFLINE) :
  ∃ d, attested (new_worker now ledger) ls d ∧ w_now w - d < timeoutSecs * 1000.
Proof.
  pose proof (dated_run _ _ _ _ Hrun) as (_ & _ & Hk). unfold status, read_key, key_date in *. destruct (k_heartbeat (w_keys w)) as [e|]; [|done].
  destruct Hk as (d & Hv & Hd). exists d. split; [done|]. assert (Hr : resolveHeartbeatStatus timeoutSecs (w_now w) (Some (toISOString d)) ≠ WorkerStatus.OFFLINE) by (rewrite <- Hv; repeat case_match; done).
  unfold resolveHeartbeatStatus in Hr. cbn [default] in Hr. unfold default, id in Hr. rewrite getTime_toISOString in Hr. case_match; [|done]. destruct (Z.leb_spec (timeoutSecs * 1000) (w_now w - d)); [done|lia].
Qed.

(** ** The end *)
Definition quiet (l : Label) : bool := match l with Start | Allocate _ _ | Free _ _ | Shutdown => false | _ => true end.
(** Once the keys are deleted with nothing under way, they stay deleted. *)
Theorem deregistered_stays_gone (s : Z) (w0 w : Worker) (ls : list Label)
  (Hout : w_outbox w0 = [(s, DeregisterPipeline)]) (Htimer : w_timer w0 = None) (Hchecks : w_checks w0 = []) (Hreports : w_reports w0 = [])
  (Hquiet : forallb quiet ls = true) (Hrun : run (Deliver true :: ls) w0 = Some w) (Halive : w_dead w0 = false) :
  w_keys w = no_keys.
Proof.
  cbn [run] in Hrun. unfold step at 1 in Hrun. rewrite Halive, Hout in Hrun. cbn [executed] in Hrun.
  assert (Hinv : ∀ w1, run ls w1 = Some w → w_outbox w1 = [] ∧ w_timer w1 = None ∧ w_checks w1 = [] ∧ w_reports w1 = [] ∧ w_keys w1 = no_keys → w_keys w = no_keys); [|by apply (Hinv _ Hrun)].
  clear Hrun Hout Htimer Hchecks Hreports Halive. induction ls as [|l ls IH]; intros w1 Hr (H1 & H2 & H3 & H4 & H5); cbn in Hr; [by simplify_eq|].
  apply andb_true_iff in Hquiet as [Hl Hq]. destruct (step l w1) as [w2|] eqn:E; [|done]. apply (IH Hq w2 Hr). unfold step in E.
  destruct l; try done; destruct (w_dead w1); rewrite ?H1, ?H2, ?H3, ?H4 in E; try (case_match; simplify_eq); done.
Qed.
End heartbeat.

(** ** Runs of a worker with the default interval of five seconds *)
Definition ex_step := run (λ _, "{}") 5000 [] JNull.
Definition ex_start : list Label := [Start; Measured 0 None None; Advance 120; Listed 0 []].
Definition ex_registering : Worker := default (new_worker 0 []) (ex_step ex_start (new_worker 0 [0])).
Definition ex_beat : list Label := [Fire; Advance 300; Checked 0 true; Advance 200; Deliver true; Measured 0 None None; Listed 0 []; Deliver true].
Definition ex_run : list Label := [Advance 5200; Allocate 0 10] ++ ex_beat ++ [Advance 4000; Free 0 4; Advance 700] ++ ex_beat ++ [Advance 4900].
Definition ex_online : Worker := default (new_worker 0 []) (ex_step (Deliver true :: ex_run) ex_registering).
Lemma worker_stays_online_witness :
  w_now ex_online = 15920 ∧ k_heartbeat (w_keys ex_online) = Some (mkEntry "10820" (Some 31020)) ∧
  (∃ t, read_key 15920 (k_heartbeat (w_keys ex_online)) = Some (toISOString t) ∧ 15920 - t ≤ 5000 + 3 * 500 + 120) ∧ status 30 ex_online = WorkerStatus.ONLINE.
Proof.
  split; [vm_compute; reflexivity|]. split; [vm_compute; reflexivity|]. change 15920 with (w_now ex_online) at 1 2.
  apply (worker_stays_online (λ _, "{}") 5000 [] JNull 30 500 120 ex_registering ex_online ex_run).
  - intros ms. exact (proj2 (show_int_chars ms)).
  - lia.
  - lia.
  - lia.
  - lia.
  - vm_compute. repeat split; try done; repeat constructor.
  - vm_compute; reflexivity.
  - intros w1 H1. vm_compute in H1. injection H1 as <-. vm_compute; reflexivity.
Defined.
Lemma shown_up_only_when_healthy_witness :
  status 30 ex_online = WorkerStatus.ONLINE ∧ ∃ d, attested (λ _, "{}") 5000 [] JNull (new_worker 0 [0]) (ex_start ++ Deliver true :: ex_run) d ∧ w_now ex_online - d < 30 * 1000.
Proof.
  split; [vm_compute; reflexivity|]. apply (shown_up_only_when_healthy (λ _, "{}") 5000 [] JNull 30 0 [0] _ ex_online); [vm_compute; reflexivity|vm_compute; discriminate].
Defined.
(** A report that was begun when the last runner stopped and is not awaited is written after the
    keys were deleted, and has no expiry: the worker that is gone keeps a memory report. *)
Theorem memory_report_outlives_worker :
  ∃ w, ex_step ([Deliver true; Allocate 0 10; Measured 0 None None; Listed 0 []; Deliver true; Free 0 10; Shutdown; Measured 0 None None; Listed 0 []; Deliver true; Deliver true]) ex_registering = Some w ∧
    w_keys w = mkKeys None None (Some (mkEntry "{}" None)) ∧ w_timer w = None ∧ w_outbox w = [].
Proof. eexists. split; [vm_compute; reflexivity|]. by vm_compute. Qed.
(** A failed write of such a report ends the process, while the tick survives the same failure. *)
Theorem failed_report_ends_worker :
  (w_dead <$> ex_step [Deliver true; Allocate 0 10; Measured 0 None None; Listed 0 []; Deliver false] ex_registering) = Some true ∧
  (w_dead <$> ex_step [Deliver true; Advance 5000; Fire; Checked 0 true; Deliver true; Measured 0 None None; Listed 0 []; Deliver false] ex_registering) = Some false.
Proof. by vm_compute. Qed.
