(* ===== verification/DashboardAuth.v ===== *)
(** * Who may use the dashboard
    (dashboard/server: plugins/auth.ts, routes/auth.ts, services/kubernetes-rbac.ts, config.ts,
    inference-concurrency-limiter.ts, and the registrations of routes/*.ts and health/probes.ts)

    The dashboard server is the only way from a browser to the control plane, which trusts it.
    This file models the checks in front of its handlers, how a user gets a token (with the
    administrator's password, or from an OAuth provider and the cluster's access rules), and the
    limits on login attempts and on concurrent inference requests.  The JWT library, SHA-256, the
    OAuth provider and the Kubernetes API are arguments. *)
From stdpp Require Import base tactics list strings sets.
From Stdlib Require Import ZArith Lia Ascii.
From S2P Require Import Prelude Js.
Open Scope Z_scope.

(** ** Configuration *)
Inductive AuthMode := AuthNone | AuthSimple | AuthOauth.
#[global] Instance AuthMode_eq_dec : EqDecision AuthMode.
Proof. solve_decision. Defined.
Record Config := mkConfig {
  cf_authMode : AuthMode;
  cf_adminUsername : string;
  cf_adminPassword : string;
  cf_jwtSecret : string;
  cf_oauthClientId : string;
  cf_oauthClientSecret : string;
  cf_oauthIssuerUrl : string;
  cf_k8sApiUrl : string;
  cf_publicUrl : string;
}.
(** The error, or whether the warning is logged. *)
Definition missing_oauth (c : Config) : list string :=
  (if decide (cf_oauthClientId c = "") then ["OAUTH_CLIENT_ID"] else []) ++
  (if decide (cf_oauthClientSecret c = "") then ["OAUTH_CLIENT_SECRET"] else []) ++
  (if decide (cf_oauthIssuerUrl c = "") then ["OAUTH_ISSUER_URL"] else []) ++
  (if decide (cf_k8sApiUrl c = "") then ["K8S_API_URL"] else []) ++
  (if decide (cf_publicUrl c = "") then ["SARDEENZ_PUBLIC_URL"] else []).
Inductive ConfigError := NoneInProduction | NoAdminPassword | MissingOauth (names : list string) | NoJwtSecret.
Definition validateAuthConfig (isProduction : bool) (c : Config) : ConfigError + bool :=
  match cf_authMode c with
  | AuthNone => if isProduction then inl NoneInProduction else inr true
  | AuthSimple => if decide (cf_adminPassword c = "") then inl NoAdminPassword else inr false
  | AuthOauth => match missing_oauth c with [] => inr false | names => inl (MissingOauth names) end
  end.
(** The first statements of the plugin, run when the server is built. *)
Definition authEnabled (c : Config) : bool := negb (bool_decide (cf_authMode c = AuthNone)).
Definition register_plugin (c : Config) : ConfigError + unit :=
  if authEnabled c && bool_decide (cf_jwtSecret c = "") then inl NoJwtSecret else inr tt.

(** ** The checks in front of a handler *)
Record JwtPayload := mkPayload { jp_username : string; jp_roles : list string; jp_authMode : AuthMode }.
Record Request := mkRequest {
  rq_url : string;
  rq_authorization : option string;
  rq_cookie : option string;
  rq_queryToken : option string;
}.
Definition PUBLIC_PATHS : list string :=
  ["/api/health"; "/api/auth/config"; "/api/auth/login"; "/api/auth/callback"; "/api/auth/logout"; "/healthz"; "/readyz"].
Definition isPublicRoute (url : string) : bool :=
  let path := default url (head (split_on "?"%char url)) in
  existsb (λ p, bool_decide (path = p) || starts_with (p +:+ "/") path) PUBLIC_PATHS.
Definition extractToken (rq : Request) : option string :=
  if match rq_authorization rq with Some h => starts_with "Bearer " h | None => false end
  then Some (str_drop 7 (default "" (rq_authorization rq)))
  else if truthy_str (rq_cookie rq) then rq_cookie rq
  else if truthy_str (rq_queryToken rq) then rq_queryToken rq
  else None.

Section guards.
(** [request.jwtVerify]: the payload of a token that is signed with the secret and not expired. *)
Context (verify : string → option JwtPayload).

(** A handler before the route's: it answers with a status, or goes on with [request.user]. *)
Definition PreHandler : Type := Config → Request → option JwtPayload → Z + option JwtPayload.
Definition authenticate : PreHandler := λ c rq user,
  if negb (authEnabled c) then inr user
  else if isPublicRoute (rq_url rq) then inr user
  else match extractToken rq ≫= verify with Some p => inr (Some p) | None => inl 401 end.
Definition has_role (role : string) (p : JwtPayload) : bool :=
  bool_decide (role ∈ jp_roles p) || bool_decide (role = "admin-readonly") && bool_decide ("admin" ∈ jp_roles p).
Definition requireRole (role : string) : PreHandler := λ c rq user,
  if negb (authEnabled c) then inr user
  else match user with
       | None => inl 401
       | Some p => if has_role role p then inr user else inl 403
       end.
Inductive Guard := GAuthenticate | GRole (role : string).
Definition run_guard (g : Guard) : PreHandler := match g with GAuthenticate => authenticate | GRole role => requireRole role end.
(** [preHandler: [...]], in order; a request starts without a user. *)
Fixpoint run_guards (gs : list Guard) (c : Config) (rq : Request) (user : option JwtPayload) : Z + option JwtPayload :=
  match gs with
  | [] => inr user
  | g :: gs' => match run_guard g c rq user with inl status => inl status | inr user' => run_guards gs' c rq user' end
  end.

(** ** The routes *)
Inductive Method := GET | POST | PUT | DELETE.
#[global] Instance Method_eq_dec : EqDecision Method.
Proof. solve_decision. Defined.
Record Route := mkRoute { rt_method : Method; rt_path : string; rt_guards : list Guard }.
Definition readonly : list Guard := [GAuthenticate; GRole "admin-readonly"].
Definition admin : list Guard := [GAuthenticate; GRole "admin"].
Definition probe_routes : list Route := [mkRoute GET "/api/health" []; mkRoute GET "/healthz" []; mkRoute GET "/readyz" []].
Definition auth_routes (c : Config) : list Route :=
  [mkRoute GET "/api/auth/config" []] ++
  (if decide (cf_authMode c = AuthSimple) then [mkRoute POST "/api/auth/login" []] else []) ++
  (if decide (cf_authMode c = AuthOauth) then [mkRoute GET "/api/auth/login" []; mkRoute GET "/api/auth/callback" []] else []) ++
  [mkRoute GET "/api/auth/me" (if authEnabled c then [GAuthenticate] else []); mkRoute POST "/api/auth/logout" []].
Definition model_routes : list Route :=
  [mkRoute POST "/api/models" admin; mkRoute GET "/api/models" readonly; mkRoute GET "/api/models/:name" readonly;
   mkRoute GET "/api/models/:name/startup-logs" readonly; mkRoute DELETE "/api/models/:name" admin; mkRoute PUT "/api/models/:name" admin;
   mkRoute POST "/api/models/:name/sleep" admin; mkRoute POST "/api/models/:name/wake" admin; mkRoute POST "/api/models/:name/stop" admin;
   mkRoute POST "/api/models/:name/start" admin; mkRoute POST "/api/models/:name/instances" admin;
   mkRoute DELETE "/api/models/:name/instances/:instanceId" admin; mkRoute POST "/api/models/:name/instances/:instanceId/sleep" admin;
   mkRoute POST "/api/models/:name/instances/:instanceId/wake" admin; mkRoute POST "/api/models/:name/instances/:instanceId/move" admin].
Definition log_routes : list Route :=
  [mkRoute GET "/api/models/:name/logs" readonly; mkRoute GET "/api/models/:name/instances/:instanceId/startup-logs" readonly].
Definition inference_routes : list Route := [mkRoute POST "/api/inference/chat/completions" admin].
Definition worker_routes : list Route := [mkRoute GET "/api/workers" readonly; mkRoute GET "/api/workers/:id" readonly].
Definition cluster_routes : list Route := [mkRoute GET "/api/cluster/status" readonly; mkRoute GET "/api/cluster/memory" readonly].
Definition info_routes : list Route := [mkRoute GET "/api/config" readonly; mkRoute GET "/api/repo-stats" readonly].
Definition metric_routes : list Route :=
  (λ name, mkRoute GET ("/api/metrics/" +:+ name) readonly) <$>
  ["latency"; "throughput"; "memory"; "connections"; "parking-duration"; "wake-triggers"; "state-transitions"; "evictions"; "memory-history"; "operations"].
Definition event_routes : list Route := [mkRoute GET "/api/events" readonly].
Definition notification_routes : list Route :=
  [mkRoute GET "/api/notifications" readonly; mkRoute POST "/api/notifications/:id/read" readonly; mkRoute POST "/api/notifications/read-all" readonly;
   mkRoute DELETE "/api/notifications/:id" admin; mkRoute DELETE "/api/notifications" admin].
Definition catalog_routes : list Route :=
  [mkRoute GET "/api/catalog" readonly; mkRoute POST "/api/catalog/refresh" readonly; mkRoute POST "/api/catalog/:id/import" admin; mkRoute DELETE "/api/catalog/:id" admin].
Definition weights_routes : list Route := [mkRoute GET "/api/weights" readonly].
Definition buildServer (c : Config) : list Route :=
  probe_routes ++ auth_routes c ++ model_routes ++ log_routes ++ inference_routes ++ worker_routes ++ cluster_routes ++ info_routes ++
  metric_routes ++ event_routes ++ notification_routes ++ catalog_routes ++ weights_routes.

(** *** What they guard *)
Lemma guards_role role c rq u : authEnabled c = true → run_guards [GAuthenticate; GRole role] c rq None = inr u →
  ∃ tok p, extractToken rq = Some tok ∧ verify tok = Some p ∧ has_role role p = true ∧ u = Some p.
Proof.
  intros He. cbn [run_guards run_guard]. unfold authenticate, requireRole. rewrite He. cbn [negb].
  destruct (isPublicRoute (rq_url rq)); [done|]. destruct (extractToken rq) as [tok|] eqn:Ht; [|done]. cbn [mbind option_bind].
  destruct (verify tok) as [p|] eqn:Hv; [|done]. destruct (has_role role p) eqn:Hr; [|done]. intros [= <-]. by exists tok, p.
Qed.
(** The requests that change nothing but a view: reading, and three others. *)
Definition view_only (r : Route) : bool :=
  bool_decide (rt_method r = GET) ||
  bool_decide (rt_path r ∈ ["/api/catalog/refresh"; "/api/notifications/:id/read"; "/api/notifications/read-all"]).
Definition route_ok (r : Route) : bool :=
  isPublicRoute (rt_path r) || bool_decide (rt_path r = "/api/auth/me") ||
  match rt_guards r with
  | [GAuthenticate; GRole role] => bool_decide (role = if view_only r then "admin-readonly" else "admin")
  | _ => false
  end.
Lemma routes_ok c : forallb route_ok (buildServer c) = true.
Proof. destruct c as [[] ? ? ? ? ? ? ? ?]; by vm_compute. Qed.

(** C15: no handler runs for a user without the right.  When authentication is on, whatever the
    request looks like, even when its URL is taken for a public one: the handler of any route
    that is not public (and not the one that tells a user its own name) runs only for a request
    with a token that verifies, and whose payload has the role [admin], or for routes that only
    view, the role [admin] or [admin-readonly]. *)
Theorem routes_guarded c r rq u :
  authEnabled c = true → r ∈ buildServer c → isPublicRoute (rt_path r) = false → rt_path r ≠ "/api/auth/me" →
  run_guards (rt_guards r) c rq None = inr u →
  ∃ tok p, extractToken rq = Some tok ∧ verify tok = Some p ∧ u = Some p ∧
    ("admin" ∈ jp_roles p ∨ view_only r = true ∧ "admin-readonly" ∈ jp_roles p).
Proof.
  intros He Hin Hpub Hme Hrun. pose proof (routes_ok c) as Hok. rewrite forallb_forall in Hok. apply list_elem_of_In, Hok in Hin. unfold route_ok in Hin.
  rewrite Hpub, (bool_decide_eq_false_2 _ Hme) in Hin. cbn [orb] in Hin. destruct (rt_guards r) as [|[|] [|[|role] [|? ?]]]; try done.
  apply bool_decide_eq_true in Hin as ->. destruct (guards_role _ _ _ _ He Hrun) as (tok & p & Ht & Hv & Hr & ->). exists tok, p. split_and!; [done..|].
  unfold has_role in Hr. rewrite orb_true_iff, andb_true_iff, !bool_decide_eq_true in Hr. destruct (view_only r); naive_solver.
Qed.
End guards.

(** ** Login with the administrator's password *)
Record RateLimitEntry := mkEntry { rl_count : Z; rl_resetAt : Z }.
Definition RATE_LIMIT_WINDOW_MS : Z := 60000.
Definition RATE_LIMIT_MAX : Z := 10.
Definition LoginAttempts : Type := list (string * RateLimitEntry).
Definition isRateLimited (key : string) (now : Z) (m : LoginAttempts) : bool * LoginAttempts :=
  match jm_get m key with
  | Some e =>
      if rl_resetAt e <=? now then (false, jm_set m key (mkEntry 1 (now + RATE_LIMIT_WINDOW_MS)))
      else (RATE_LIMIT_MAX <? rl_count e + 1, jm_set m key (mkEntry (rl_count e + 1) (rl_resetAt e)))
  | None => (false, jm_set m key (mkEntry 1 (now + RATE_LIMIT_WINDOW_MS)))
  end.
Definition clearRateLimit (key : string) (m : LoginAttempts) : LoginAttempts := jm_delete m key.
(** The timer that forgets expired entries. *)
Definition cleanup_attempts (now : Z) (m : LoginAttempts) : LoginAttempts :=
  foldl (λ m' ke, if rl_resetAt ke.2 <=? now then jm_delete m' ke.1 else m') m m.

Inductive LoginReply := TooMany | InvalidCredentials | LoggedIn (p : JwtPayload).
Section login.
Context (sha256 : string → string) (c : Config).
Definition safeCompare (a b : string) : bool := bool_decide (sha256 a = sha256 b).
Definition rate_key (ip username : string) : string := ip +:+ ":" +:+ username.
(** [POST /api/auth/login], with absent fields as empty texts. *)
Definition login (ip username password : string) (now : Z) (m : LoginAttempts) : LoginReply * LoginAttempts :=
  let key := rate_key ip username in
  let '(limited, m') := isRateLimited key now m in
  if limited then (TooMany, m')
  else if negb (safeCompare username (cf_adminUsername c)) || negb (safeCompare password (cf_adminPassword c)) then (InvalidCredentials, m')
  else (LoggedIn (mkPayload (cf_adminUsername c) ["admin"] AuthSimple), clearRateLimit key m').

Inductive LoginOp := OpLogin (ip username password : string) (at_ms : Z) | OpCleanup (at_ms : Z).
Definition op_time (op : LoginOp) : Z := match op with OpLogin _ _ _ t | OpCleanup t => t end.
Definition login_step (m : LoginAttempts) (op : LoginOp) : option (string * LoginReply) * LoginAttempts :=
  match op with
  | OpLogin ip username password t => let '(r, m') := login ip username password t m in (Some (rate_key ip username, r), m')
  | OpCleanup t => (None, cleanup_attempts t m)
  end.
Fixpoint login_run (m : LoginAttempts) (ops : list LoginOp) : list (string * LoginReply) :=
  match ops with
  | [] => []
  | op :: ops' => let '(r, m') := login_step m op in match r with Some r => r :: login_run m' ops' | None => login_run m' ops' end
  end.
End login.

(** *** Attempts are limited *)
Lemma cleanup_fold now key l (m : LoginAttempts) :
  jm_get (foldl (λ m' (ke : string * RateLimitEntry), if rl_resetAt ke.2 <=? now then jm_delete m' ke.1 else m') m l) key =
  if existsb (λ ke, bool_decide (ke.1 = key) && (rl_resetAt ke.2 <=? now)) l then None else jm_get m key.
Proof.
  revert m. induction l as [|[k e] l IH]; intros m; [done|]. cbn [foldl existsb fst snd]. rewrite IH. destruct (rl_resetAt e <=? now); [|by rewrite andb_false_r].
  rewrite andb_true_r. case_bool_decide as Hk; cbn [orb].
  - subst. rewrite jm_get_delete_eq. by destruct (existsb _ _).
  - by rewrite jm_get_delete_ne.
Qed.
Lemma cleanup_get now key (m : LoginAttempts) : NoDup (jm_keys m) →
  jm_get (cleanup_attempts now m) key = match jm_get m key with Some e => if rl_resetAt e <=? now then None else Some e | None => None end.
Proof.
  intros Hnd. unfold cleanup_attempts. rewrite cleanup_fold. destruct (existsb _ m) eqn:Hex.
  - apply existsb_exists in Hex as ([k e] & Hin%list_elem_of_In & [Hk%bool_decide_eq_true He]%andb_true_iff). cbn [fst snd] in *. subst k.
    by rewrite (jm_get_elem_of_NoDup m key e Hnd Hin), He.
  - destruct (jm_get m key) as [e|] eqn:Hg; [|done]. destruct (rl_resetAt e <=? now) eqn:He; [|done]. exfalso.
    apply jm_get_elem_of in Hg. apply not_true_iff_false in Hex. apply Hex. apply existsb_exists. exists (key, e). split; [by apply list_elem_of_In|].
    cbn [fst snd]. by rewrite bool_decide_eq_true_2, He.
Qed.
Lemma cleanup_NoDup now (m : LoginAttempts) : NoDup (jm_keys m) → NoDup (jm_keys (cleanup_attempts now m)).
Proof.
  unfold cleanup_attempts.
  assert (∀ l m' : LoginAttempts, NoDup (jm_keys m') →
    NoDup (jm_keys (foldl (λ m' (ke : string * RateLimitEntry), if rl_resetAt ke.2 <=? now then jm_delete m' ke.1 else m') m' l))) as Hl; [|apply Hl].
  induction l as [|[k e] l IH]; intros m' Hnd; [done|]. cbn [foldl fst snd]. apply IH. destruct (rl_resetAt e <=? now); auto with jsmap.
Qed.

Section bounded.
Context (sha256 : string → string) (c : Config) (key : string).
Definition checked (rs : list (string * LoginReply)) : Z :=
  Z.of_nat (length (List.filter (λ r, bool_decide (r.1 = key) && match r.2 with TooMany => false | _ => true end) rs)).
Definition never_in (rs : list (string * LoginReply)) : Prop := ∀ p, (key, LoggedIn p) ∉ rs.
Fixpoint in_time (t T : Z) (ops : list LoginOp) : Prop :=
  match ops with [] => True | op :: ops' => t ≤ op_time op < T ∧ in_time (op_time op) T ops' end.
(** [n] windows from the end of the one under way, or from now, reach to [T]; and the attempts
    that are left in the one under way. *)
Definition reaches (t T n : Z) (e : option RateLimitEntry) : Prop := T ≤ match e with Some e => rl_resetAt e | None => t end + n * RATE_LIMIT_WINDOW_MS.
Definition room (e : option RateLimitEntry) : Z := match e with Some e => Z.max 0 (RATE_LIMIT_MAX - rl_count e) | None => 0 end.
Lemma room_pos e : 0 ≤ room e.
Proof. destruct e; simpl; lia. Qed.
Lemma checked_cons r rs : checked (r :: rs) = (if bool_decide (r.1 = key) && match r.2 with TooMany => false | _ => true end then 1 else 0) + checked rs.
Proof. unfold checked. cbn [List.filter]. destruct (_ && _); cbn [length]; lia. Qed.
(** What one attempt with the key costs. *)
Lemma attempt_cost t T n now m : t ≤ now < T → 0 ≤ n → reaches t T n (jm_get m key) →
  let '(limited, m') := isRateLimited key now m in
  ∃ n', 0 ≤ n' ∧ reaches now T n' (jm_get m' key) ∧ (if limited then 0 else 1) + room (jm_get m' key) + 10 * n' ≤ room (jm_get m key) + 10 * n.
Proof.
  intros Ht Hn Hr. unfold isRateLimited. pose proof (room_pos (jm_get m key)). unfold reaches, RATE_LIMIT_WINDOW_MS, RATE_LIMIT_MAX in *.
  assert (∀ b, (∃ e, jm_get m key = Some e ∧ rl_resetAt e = b) ∨ jm_get m key = None ∧ b = t → b ≤ now → T ≤ b + n * 60000 →
    ∃ n', 0 ≤ n' ∧ T ≤ now + 60000 + n' * 60000 ∧ 1 + (10 - 1) + 10 * n' ≤ room (jm_get m key) + 10 * n) as Hnew.
  { intros b _ Hb HT. exists (n - 1). lia. }
  destruct (jm_get m key) as [e|] eqn:Hg.
  - destruct (rl_resetAt e <=? now) eqn:He; [apply Z.leb_le in He|]; rewrite jm_get_set_eq; cbn [room rl_count rl_resetAt].
    + destruct (Hnew (rl_resetAt e)) as (n' & ? & ? & ?); [by left; exists e|done|done|]. exists n'. split_and!; [done|lia|]. cbn [room] in *. unfold RATE_LIMIT_MAX in *. lia.
    + exists n. split_and!; [done|done|]. destruct (10 <? rl_count e + 1) eqn:Hc; [apply Z.ltb_lt in Hc|apply Z.ltb_ge in Hc]; unfold RATE_LIMIT_MAX; lia.
  - rewrite jm_get_set_eq. cbn [room rl_count rl_resetAt]. destruct (Hnew t) as (n' & ? & ? & ?); [by right|lia|done|]. exists n'. split_and!; [done|lia|]. cbn [room] in *. unfold RATE_LIMIT_MAX in *. lia.
Qed.
Lemma login_run_bound t T n m ops :
  NoDup (jm_keys m) → in_time t T ops → 0 ≤ n → reaches t T n (jm_get m key) → never_in (login_run sha256 c m ops) →
  checked (login_run sha256 c m ops) ≤ room (jm_get m key) + 10 * n.
Proof.
  revert t n m. induction ops as [|op ops IH]; intros t n m Hnd Ht Hn Hr Hni; [pose proof (room_pos (jm_get m key)); unfold checked; simpl; lia|].
  destruct Ht as [Ht Hts]. destruct op as [ip username password now|now]; cbn [login_run login_step op_time] in *.
  - destruct (decide (rate_key ip username = key)) as [Hk|Hk].
    + unfold login in *. rewrite Hk in *. pose proof (attempt_cost t T n now m Ht Hn Hr) as Hc. destruct (isRateLimited key now m) as [limited m'] eqn:Hl.
      destruct Hc as (n' & Hn' & Hr' & Hcost).
      assert (NoDup (jm_keys m')) as Hnd' by (unfold isRateLimited in Hl; repeat case_match; simplify_eq; auto with jsmap).
      destruct limited; [|destruct (negb _ || negb _) eqn:Hcred].
      * rewrite checked_cons. cbn [snd]. rewrite andb_false_r.
        assert (never_in (login_run sha256 c m' ops)) by (intros p Hp; apply (Hni p); by right). specialize (IH now n' m' Hnd' Hts Hn' Hr' ltac:(done)). lia.
      * rewrite checked_cons. cbn [fst snd]. rewrite bool_decide_eq_true_2 by done. cbn [andb].
        assert (never_in (login_run sha256 c m' ops)) by (intros p Hp; apply (Hni p); by right). specialize (IH now n' m' Hnd' Hts Hn' Hr' ltac:(done)). lia.
      * exfalso. eapply Hni. left.
    + assert (jm_get (login sha256 c ip username password now m).2 key = jm_get m key ∧ NoDup (jm_keys (login sha256 c ip username password now m).2)) as [Hg Hnd'].
      { unfold login, clearRateLimit, isRateLimited. repeat case_match; simplify_eq/=; rewrite ?jm_get_delete_ne, ?jm_get_set_ne by done; split; auto with jsmap. }
      destruct (login sha256 c ip username password now m) as [r m']. cbn [snd] in *. rewrite checked_cons. cbn [fst]. rewrite bool_decide_eq_false_2 by done.
      cbn [andb]. rewrite <- Hg. rewrite <- Hg in Hr. apply (IH now n m'); [done|done|done| |intros p Hp; apply (Hni p); by right].
      unfold reaches in *. destruct (jm_get m' key); lia.
  - pose proof (room_pos (jm_get m key)). pose proof (cleanup_get now key m Hnd) as Hg. pose proof (cleanup_NoDup now m Hnd) as Hnd'.
    specialize (IH now n (cleanup_attempts now m) Hnd' Hts Hn). rewrite Hg in IH. destruct (jm_get m key) as [e|]; [destruct (rl_resetAt e <=? now) eqn:He|].
    + apply Z.leb_le in He. etransitivity; [apply IH; [unfold reaches in *; simpl in *; lia|done]|]. cbn [room] in *. lia.
    + by apply IH.
    + apply IH; [unfold reaches in *; simpl in *; lia|done].
Qed.
End bounded.

(** Guessing the password is limited.  As long as no attempt with a given key (address and
    user name) succeeds, however the attempts are spread over time and mixed with others, and
    whenever expired entries are cleaned up: within [n] minutes at most [10 * n] of them get as
    far as a comparison with the password. *)
Theorem login_attempts_bounded sha256 c key m t0 n ops :
  NoDup (jm_keys m) → jm_get m key = None → 0 ≤ n → in_time t0 (t0 + n * RATE_LIMIT_WINDOW_MS) ops →
  never_in key (login_run sha256 c m ops) →
  checked key (login_run sha256 c m ops) ≤ RATE_LIMIT_MAX * n.
Proof.
  intros Hnd Hg Hn Ht Hni. pose proof (login_run_bound sha256 c key t0 _ n m ops Hnd Ht Hn) as Hb. rewrite Hg in Hb. apply Hb; [|done]. unfold reaches. lia.
Qed.

(** ** Login through OAuth *)
Definition STATE_TTL_MS : Z := 300000.
Definition PendingStates : Type := list (string * Z).
Definition createState (fresh : string) (now : Z) (ps : PendingStates) : PendingStates := jm_set ps fresh (now + STATE_TTL_MS).
Definition consumeState (state : string) (now : Z) (ps : PendingStates) : bool * PendingStates :=
  match jm_get ps state with
  | None => (false, ps)
  | Some expiresAt => (now <? expiresAt, jm_delete ps state)
  end.

Record UserInfo := mkUser {
  ui_preferred_username : option string;
  ui_name : option string;
  ui_metadata_name : option string;
  ui_sub : option string;
  ui_groups : option (list string);
}.
Definition user_name (u : UserInfo) : string :=
  match ui_preferred_username u, ui_name u, ui_metadata_name u, ui_sub u with
  | Some n, _, _, _ | None, Some n, _, _ | None, None, Some n, _ | None, None, None, Some n => n
  | None, None, None, None => "unknown"
  end.
Inductive CallbackReply := InvalidState | MissingCode | TokenExchangeFailed | UserInfoFailed | RbacFailed | AccessDenied | Issued (p : JwtPayload).
Section oauth.
(** The token endpoint, the users API, and the access review: whether the user with the groups
    may get the marker resource; [None] when the request fails. *)
Context (exchange : string → option string) (userInfo : string → option UserInfo) (hasMarkerRole : string → list string → string → option bool).
Definition resolveSardeenzRoles (username : string) (groups : list string) : option (list string) :=
  a ← hasMarkerRole username groups "admin"; r ← hasMarkerRole username groups "admin-readonly";
  Some ((if a : bool then ["admin"] else []) ++ (if r : bool then ["admin-readonly"] else [])).
Definition callback (code state : option string) (now : Z) (ps : PendingStates) : CallbackReply * PendingStates :=
  if negb (truthy_str state) then (InvalidState, ps) else
  let '(valid, ps') := consumeState (default "" state) now ps in
  (if negb valid then InvalidState
   else if negb (truthy_str code) then MissingCode
   else match exchange (default "" code) with
        | None => TokenExchangeFailed
        | Some token =>
            match userInfo token with
            | None => UserInfoFailed
            | Some u =>
                match resolveSardeenzRoles (user_name u) (default [] (ui_groups u)) with
                | None => RbacFailed
                | Some [] => AccessDenied
                | Some roles => Issued (mkPayload (user_name u) roles AuthOauth)
                end
            end
        end, ps').

(** What happens to the pending states: a login starts, or the provider sends a browser back. *)
Inductive OauthOp := OpStart (fresh : string) (at_ms : Z) | OpCallback (code state : option string) (at_ms : Z).
Inductive OauthEvent := EvStarted (state : string) (at_ms : Z) | EvIssued (state : string) (at_ms : Z) (p : JwtPayload).
Definition oauth_step (op : OauthOp) (ps : PendingStates) : list OauthEvent * PendingStates :=
  match op with
  | OpStart fresh t => ([EvStarted fresh t], createState fresh t ps)
  | OpCallback code state t =>
      let '(r, ps') := callback code state t ps in
      (match r with Issued p => [EvIssued (default "" state) t p] | _ => [] end, ps')
  end.
Fixpoint oauth_run (ops : list OauthOp) (tr : list OauthEvent) (ps : PendingStates) : list OauthEvent * PendingStates :=
  match ops with
  | [] => (tr, ps)
  | op :: ops' => let '(evs, ps') := oauth_step op ps in oauth_run ops' (tr ++ evs) ps'
  end.

(** A session is issued for a login that was started less than five minutes before and has not
    been used since, and with roles the cluster grants the user. *)
Definition unused (state : string) (l : list OauthEvent) : Prop := ∀ t p, EvIssued state t p ∉ l.
Definition granted (p : JwtPayload) : Prop :=
  jp_roles p ≠ [] ∧ ∃ code token u, exchange code = Some token ∧ userInfo token = Some u ∧ jp_username p = user_name u ∧
    ∀ role, role ∈ jp_roles p → (role = "admin" ∨ role = "admin-readonly") ∧ hasMarkerRole (user_name u) (default [] (ui_groups u)) role = Some true.
Definition issued_ok (l : list OauthEvent) (e : OauthEvent) : Prop :=
  match e with
  | EvStarted _ _ => True
  | EvIssued state t p => granted p ∧ ∃ l1 t0 l2, l = l1 ++ EvStarted state t0 :: l2 ∧ t < t0 + STATE_TTL_MS ∧ unused state l2
  end.
Definition pending_ok (tr : list OauthEvent) (ps : PendingStates) : Prop :=
  ∀ state exp, jm_get ps state = Some exp → ∃ l1 t0 l2, tr = l1 ++ EvStarted state t0 :: l2 ∧ exp = t0 + STATE_TTL_MS ∧ unused state l2.

Lemma resolve_granted username groups roles : resolveSardeenzRoles username groups = Some roles →
  ∀ role, role ∈ roles → (role = "admin" ∨ role = "admin-readonly") ∧ hasMarkerRole username groups role = Some true.
Proof.
  unfold resolveSardeenzRoles. intros (a & Ha & (r & Hr & [= <-])%bind_Some)%bind_Some role Hin.
  apply elem_of_app in Hin as [Hin|Hin]; [destruct a|destruct r]; set_solver.
Qed.
Lemma callback_issued code state t ps p ps' : callback code state t ps = (Issued p, ps') →
  granted p ∧ ∃ exp, jm_get ps (default "" state) = Some exp ∧ t < exp ∧ ps' = jm_delete ps (default "" state).
Proof.
  unfold callback. destruct (negb (truthy_str state)); [done|]. destruct (consumeState (default "" state) t ps) as [valid ps1] eqn:Hc.
  intros [= Hr <-]. unfold consumeState in Hc. destruct (jm_get ps (default "" state)) as [exp|] eqn:Hg; [|by injection Hc as <- <-].
  injection Hc as <- <-. destruct (t <? exp) eqn:Ht; [apply Z.ltb_lt in Ht|done]. split; [|by exists exp]. cbn [negb] in Hr.
  destruct (negb (truthy_str code)); [done|]. destruct (exchange _) as [token|] eqn:Hx; [|done]. destruct (userInfo token) as [u|] eqn:Hu; [|done].
  destruct (resolveSardeenzRoles _ _) as [[|r rs]|] eqn:Hroles; [done| |done]. injection Hr as <-. split; [done|].
  exists (default "" code), token, u. split_and!; [done..|]. by apply resolve_granted.
Qed.
Lemma callback_states code state t ps : (callback code state t ps).2 = ps ∨ (callback code state t ps).2 = jm_delete ps (default "" state).
Proof. unfold callback, consumeState. destruct (negb (truthy_str state)); [by left|]. destruct (jm_get ps _); [by right|by left]. Qed.
Lemma pending_delete tr evs ps state : (∀ s t p, EvIssued s t p ∈ evs → s = state) → (∀ e, e ∈ evs → ∃ s t p, e = EvIssued s t p) →
  pending_ok tr ps → pending_ok (tr ++ evs) (jm_delete ps state).
Proof.
  intros Hs He Hp s exp Hg. destruct (decide (s = state)) as [-> |Hne]; [by rewrite jm_get_delete_eq in Hg|]. rewrite jm_get_delete_ne in Hg by done.
  destruct (Hp s exp Hg) as (l1 & t0 & l2 & -> & -> & Hu). exists l1, t0, (l2 ++ evs). split_and!; [by rewrite <- app_assoc|done|].
  intros t p [Hin|Hin]%elem_of_app; [by eapply Hu|]. by apply Hs in Hin.
Qed.
Lemma oauth_step_ok op tr ps : justified issued_ok tr → pending_ok tr ps →
  let '(evs, ps') := oauth_step op ps in justified issued_ok (tr ++ evs) ∧ pending_ok (tr ++ evs) ps'.
Proof.
  intros Hj Hp. destruct op as [fresh t|code state t]; cbn [oauth_step].
  - split; [by apply justified_snoc|]. intros s exp. unfold createState. destruct (decide (fresh = s)) as [-> |Hne].
    + rewrite jm_get_set_eq. intros [= <-]. exists tr, t, []. split_and!; [done|done|]. by intros ? ? ?%elem_of_nil.
    + rewrite jm_get_set_ne by done. intros Hg. destruct (Hp s exp Hg) as (l1 & t0 & l2 & -> & -> & Hu). exists l1, t0, (l2 ++ [EvStarted fresh t]).
      split_and!; [by rewrite <- app_assoc|done|]. intros t' p [Hin|Hin]%elem_of_app; [by eapply Hu|]. by apply list_elem_of_singleton in Hin.
  - pose proof (callback_states code state t ps) as Hst. destruct (callback code state t ps) as [r ps'] eqn:Hc. cbn [snd] in Hst.
    destruct r as [| | | | | |p]; try (rewrite app_nil_r; split; [done|]; destruct Hst as [-> | ->]; [done|];
      rewrite <- (app_nil_r tr); apply pending_delete; [by intros ? ? ? ?%elem_of_nil|by intros ? ?%elem_of_nil|done]).
    destruct (callback_issued _ _ _ _ _ _ Hc) as (Hgr & exp & Hg & Ht & ->). split.
    + apply justified_snoc; [done|]. split; [done|]. destruct (Hp _ _ Hg) as (l1 & t0 & l2 & -> & -> & Hu). by exists l1, t0, l2.
    + apply pending_delete; [set_solver|set_solver|done].
Qed.
(** C37: oAuth sessions are earned.  In every sequence of started logins and callbacks, whatever
    the callbacks carry: a session is only issued for a login that the dashboard started less
    than five minutes before, and for each such login at most once; and every role in it is one
    the cluster's access review grants that user, with at least one such role. *)
Theorem oauth_sessions_earned ops : justified issued_ok (oauth_run ops [] []).1.
Proof.
  assert (∀ tr ps, justified issued_ok tr → pending_ok tr ps → justified issued_ok (oauth_run ops tr ps).1) as Hrun.
  { induction ops as [|op ops IH]; intros tr ps Hj Hp; [done|]. cbn [oauth_run]. pose proof (oauth_step_ok op tr ps Hj Hp) as Hs.
    destruct (oauth_step op ps) as [evs ps']. destruct Hs. by apply IH. }
  apply Hrun; [apply justified_nil|]. intros state exp. done.
Qed.
End oauth.

(** ** Concurrent inference requests *)
(** The counters, and the requests that were let in: the user, and whether its slot was given
    back. *)
Record Limiter := mkLimiter { lm_active : list (string * Z); lm_requests : list (string * bool) }.
Definition active_of (u : string) (s : Limiter) : Z := default 0 (jm_get (lm_active s) u).
Definition tryAcquire (max : Z) (u : string) (s : Limiter) : option Limiter :=
  if max <=? active_of u s then None
  else Some (mkLimiter (jm_set (lm_active s) u (active_of u s + 1)) (lm_requests s ++ [(u, false)])).
(** The callback of request [k]. *)
Definition release (k : nat) (s : Limiter) : Limiter :=
  match lm_requests s !! k with
  | Some (u, false) =>
      mkLimiter (if active_of u s <=? 1 then jm_delete (lm_active s) u else jm_set (lm_active s) u (active_of u s - 1))
        (<[k := (u, true)]> (lm_requests s))
  | _ => s
  end.
Inductive LimiterOp := OpAcquire (u : string) | OpRelease (k : nat).
Definition limiter_op (max : Z) (s : Limiter) (op : LimiterOp) : Limiter :=
  match op with OpAcquire u => default s (tryAcquire max u s) | OpRelease k => release k s end.
Definition held (u : string) (s : Limiter) : Z := Z.of_nat (length (List.filter (λ r, bool_decide (r = (u, false))) (lm_requests s))).

Lemma held_app u (l : list (string * bool)) : Z.of_nat (length (List.filter (λ r, bool_decide (r = (u, false))) l)) = foldr (λ r n, (if bool_decide (r = (u, false)) then 1 else 0) + n) 0 l.
Proof. induction l as [|r l IH]; [done|]. cbn [List.filter foldr]. case_bool_decide; cbn [length]; lia. Qed.
Lemma held_insert u k v (l : list (string * bool)) : l !! k = Some (v, false) →
  foldr (λ r n, (if bool_decide (r = (u, false)) then 1 else 0) + n) 0 (<[k := (v, true)]> l) =
  foldr (λ r n, (if bool_decide (r = (u, false)) then 1 else 0) + n) 0 l - (if bool_decide (v = u) then 1 else 0).
Proof.
  revert k. induction l as [|r l IH]; intros [|k] Hl; simplify_eq/=; [|rewrite (IH k Hl); lia].
  rewrite (bool_decide_eq_false_2 ((v, true) = (u, false))) by congruence. destruct (decide (v = u)) as [-> |Hne].
  - rewrite !bool_decide_eq_true_2 by done. lia.
  - rewrite !bool_decide_eq_false_2 by congruence. lia.
Qed.
Definition limiter_inv (max : Z) (s : Limiter) : Prop := ∀ u, active_of u s = held u s ∧ active_of u s ≤ max.
Lemma active_set u v n m rs : active_of v (mkLimiter (jm_set m u n) rs) = if decide (u = v) then n else default 0 (jm_get m v).
Proof. unfold active_of. cbn [lm_active]. case_decide; subst; [by rewrite jm_get_set_eq|by rewrite jm_get_set_ne]. Qed.
Lemma limiter_step max s op : 0 ≤ max → limiter_inv max s → limiter_inv max (limiter_op max s op).
Proof.
  intros Hmax Hi. destruct op as [u|k]; cbn [limiter_op].
  - unfold tryAcquire. destruct (max <=? active_of u s) eqn:Hle; [done|]. apply Z.leb_gt in Hle. cbn [from_option]. unfold id. intros v. rewrite active_set.
    destruct (Hi u) as [Hu _], (Hi v) as [Hv Hvm]. unfold held in *. cbn [lm_requests]. rewrite List.filter_app, length_app. cbn [List.filter].
    destruct (decide (u = v)) as [-> |Hne]; [rewrite bool_decide_eq_true_2 by done|rewrite bool_decide_eq_false_2 by congruence]; cbn [length]; unfold active_of in *; lia.
  - unfold release. destruct (lm_requests s !! k) as [[u []]|] eqn:Hk; [done| |done]. intros v. destruct (Hi u) as [Hu Hum], (Hi v) as [Hv Hvm].
    unfold held in *. cbn [lm_requests]. rewrite held_app in *. rewrite (held_insert v k u _ Hk).
    assert (active_of v (mkLimiter (if active_of u s <=? 1 then jm_delete (lm_active s) u else jm_set (lm_active s) u (active_of u s - 1)) (<[k := (u, true)]> (lm_requests s))) =
      active_of v s - if bool_decide (u = v) then 1 else 0) as Ha.
    { assert (1 ≤ active_of u s) as Hpos.
      { rewrite Hu. rewrite <- held_app. apply list_elem_of_lookup_2 in Hk. apply list_elem_of_In in Hk.
        assert (In (u, false) (List.filter (λ r, bool_decide (r = (u, false))) (lm_requests s))) as Hin by (apply filter_In; split; [done|by rewrite bool_decide_eq_true_2]).
        destruct (List.filter _ _); [done|]. cbn [length]. lia. }
      destruct (active_of u s <=? 1) eqn:Hone.
      - apply Z.leb_le in Hone. unfold active_of at 1. cbn [lm_active]. case_bool_decide as Huv; subst; [rewrite jm_get_delete_eq; simpl; lia|].
        rewrite jm_get_delete_ne by done. unfold active_of. lia.
      - rewrite active_set. case_decide as Huv; [rewrite bool_decide_eq_true_2 by done; by subst|rewrite bool_decide_eq_false_2 by done; unfold active_of; lia]. }
    rewrite Ha, Hv. case_bool_decide; lia.
Qed.
(** The inference limit is exact.  After any sequence of requests and releases, with any
    release called any number of times, the counter of each user is the number of its requests
    that were let in and have not been given back, and it never passes the limit. *)
Theorem inference_limit_exact max ops u :
  0 ≤ max →
  let s := foldl (limiter_op max) (mkLimiter [] []) ops in active_of u s = held u s ∧ held u s ≤ max.
Proof.
  intros Hmax s. assert (limiter_inv max s) as Hi; [|destruct (Hi u); lia]. subst s.
  assert (limiter_inv max (mkLimiter [] [])) as H0' by (intros v; by split). revert H0'. generalize (mkLimiter [] []). induction ops as [|op ops IH]; intros s Hs; [done|].
  by apply IH, limiter_step.
Qed.

(** ** What the limits do not cover *)
(** The key begins with [request.ip]; the server trusts forwarded addresses ([trustProxy] in
    server.ts), and an attempt from an address not seen before is never limited. *)
Theorem new_address_never_limited sha256 c ip username password now m :
  jm_get m (rate_key ip username) = None → (login sha256 c ip username password now m).1 ≠ TooMany.
Proof. intros Hg. unfold login, isRateLimited. rewrite Hg. by case_match. Qed.
(** A login that is started and never finished stays in the map of pending states: unlike the
    login attempts, it has no clean-up. *)
Theorem abandoned_logins_stay exchange userInfo hasMarkerRole :
  length (oauth_run exchange userInfo hasMarkerRole [OpStart "a" 0; OpStart "b" 1000000000; OpCallback None (Some "c") 2000000000] [] []).2 = 2%nat.
Proof. done. Qed.

(** ** Concrete inputs *)
Definition sample_config : Config := mkConfig AuthSimple "admin" "secret" "key" "" "" "" "" "".
Definition sample_verify (tok : string) : option JwtPayload := if decide (tok = "t") then Some (mkPayload "ann" ["admin-readonly"] AuthSimple) else None.
Definition sample_request : Request := mkRequest "/api/models?state=ACTIVE" None (Some "t") None.
Lemma routes_guarded_witness :
  run_guards sample_verify readonly sample_config sample_request None = inr (Some (mkPayload "ann" ["admin-readonly"] AuthSimple)) ∧
  run_guards sample_verify admin sample_config sample_request None = inl 403 ∧
  ∃ p, sample_verify "t" = Some p ∧ "admin-readonly" ∈ jp_roles p.
Proof.
  split_and!; [by vm_compute|by vm_compute|].
  destruct (routes_guarded sample_verify sample_config (mkRoute GET "/api/models" readonly) sample_request (Some (mkPayload "ann" ["admin-readonly"] AuthSimple)))
    as (tok & p & Ht & Hv & Hu & _); [done| |by vm_compute|done|by vm_compute|].
  { apply list_elem_of_In. vm_compute. tauto. }
  exists p. injection Ht as <-. split; [exact Hv|]. injection Hu as <-. left.
Defined.
Definition wrong_guesses (n : nat) : list LoginOp := replicate n (OpLogin "1.2.3.4" "admin" "guess" 1000).
Lemma login_attempts_bounded_witness :
  checked "1.2.3.4:admin" (login_run id sample_config [] (wrong_guesses 25)) = 10 ∧
  checked "1.2.3.4:admin" (login_run id sample_config [] (wrong_guesses 25)) ≤ RATE_LIMIT_MAX * 1.
Proof.
  split; [by vm_compute|]. apply (login_attempts_bounded id sample_config "1.2.3.4:admin" [] 1000 1); [constructor|done|done| |].
  - vm_compute. repeat split; discriminate.
  - intros p Hp. apply list_elem_of_In in Hp. vm_compute in Hp. by repeat (destruct Hp as [Hp|Hp]; [discriminate|]).
Defined.
Lemma inference_limit_exact_witness :
  held "ann" (foldl (limiter_op 1) (mkLimiter [] []) [OpAcquire "ann"; OpAcquire "ann"; OpRelease 0; OpRelease 0; OpAcquire "ann"; OpAcquire "bob"]) ≤ 1.
Proof. apply (inference_limit_exact 1 _ "ann"). lia. Defined.
