(* ===== verification/Upstreams.v ===== *)
(** * Metrics and repository statistics (dashboard/server/clients/prometheus.ts,
    dashboard/server/routes/metrics.ts, dashboard/server/clients/github.ts)

    The requests the dashboard sends to Prometheus, with its tenancy and token, and what its
    metric routes make of the answers; the cached look-up of the repository's statistics.
    Prometheus, GitHub, the token file and the texts of dates and numbers are arguments. *)
From stdpp Require Import base tactics list strings sets.
From Stdlib Require Import ZArith QArith Qround Lqa Lia.
From S2P Require Import Prelude Js.
Local Open Scope nat_scope.

(** ** clients/prometheus.ts *)
Inductive BffErrorCode := PROMETHEUS_ERROR | INVALID_REQUEST | INTERNAL_ERROR.
Record BffError := mkBffError { be_statusCode : Z; be_code : BffErrorCode; be_message : string }.
Record PrometheusClient := mkPrometheus { baseUrl : string; bearerTokenPath : string; tenantNamespace : string }.
Abbreviation Params := (list (string * string)).
Record PrometheusRequest := mkPromRequest { pr_path : string; pr_params : Params; pr_authorization : option string }.
(** [None]: the fetch threw; then the status, whether it is ok, and the body as JSON if it is. *)
Record PrometheusAnswer := mkPromAnswer { pa_status : Z; pa_ok : bool; pa_json : option json }.
Section prometheus.
Context (client : PrometheusClient) (token_file : option string) (prometheus : PrometheusRequest → option PrometheusAnswer).
Definition unavailable : BffError := mkBffError 502 PROMETHEUS_ERROR "Prometheus bearer token unavailable".
Definition bearerToken : BffError + string :=
  match token_file with
  | None => inl unavailable
  | Some raw => let token := js_trim raw in if decide (token = "") then inl unavailable else inr token
  end.
(** The request as it is sent, or the error before it is. *)
Definition build_request (path : string) (params : Params) : BffError + PrometheusRequest :=
  let params := if decide (tenantNamespace client = "") then params else jm_set params "namespace" (tenantNamespace client) in
  if decide (bearerTokenPath client = "") then inr (mkPromRequest path params None)
  else match bearerToken with inl e => inl e | inr t => inr (mkPromRequest path params (Some ("Bearer " +:+ t))) end.
Definition request (path : string) (params : Params) : BffError + json :=
  match build_request path params with
  | inl e => inl e
  | inr r =>
      match prometheus r with
      | None => inl (mkBffError 502 PROMETHEUS_ERROR "Prometheus unreachable")
      | Some a =>
          if negb (pa_ok a) then inl (mkBffError 502 PROMETHEUS_ERROR ("Prometheus returned " +:+ show_int (pa_status a)))
          else match pa_json a with
               | Some v => inr v
               | None => inl (mkBffError 500 INTERNAL_ERROR "Internal server error")   (* through the error handler of the server *)
               end
      end
  end.
Definition range_params (query start end_ step : string) : Params := [("query", query); ("start", start); ("end", end_); ("step", step)].
Definition instant_params (query : string) (time : option string) : Params :=
  let params := [("query", query)] in match time with Some t => jm_set params "time" t | None => params end.
Definition queryRange (query start end_ step : string) : BffError + json := request "/api/v1/query_range" (range_params query start end_ step).
Definition queryInstant (query : string) (time : option string) : BffError + json := request "/api/v1/query" (instant_params query time).
(** The answer of [GET /-/healthy] when neither a token nor a tenant is set. *)
Definition isHealthy (healthy : option PrometheusAnswer) : bool :=
  if decide (bearerTokenPath client <> "" \/ tenantNamespace client <> "") then
    match request "/api/v1/query" [("query", "vector(1)")] with inr _ => true | inl _ => false end
  else match healthy with Some a => pa_ok a | None => false end.

(** ** routes/metrics.ts *)
Definition ONE_HOUR_MS : Z := 3600000.
Definition DEFAULT_STEP : string := "15s".
Definition MIN_OPERATIONS_WINDOW_SECONDS : Z := 60.
Definition OPERATIONS : list string := ["deploy"; "sleep"; "wake"; "eviction"; "placement"].
(** [toISOString], [Date.parse], and [parseFloat(String(v))] when it is finite. *)
Context (iso : Z → string) (parse_date : string → option Z) (parse_float : json → option Q).
Definition scalarFromInstant (data : json) : Q :=
  let field k v := match v with Some (JObj f) => obj_get f k | _ => None end in
  match field "result" (field "data" (Some data)) with
  | Some (JArr (first :: _)) =>
      match field "value" (Some first) with
      | Some (JArr (_ :: v :: _)) => default 0%Q (parse_float v)
      | _ => 0%Q
      end
  | _ => 0%Q
  end.
(** The parameters of the query string that the routes read. *)
Record RangeQuery := mkRange { rq_start : option string; rq_end : option string; rq_step : option string }.
Definition range (now : Z) (q : RangeQuery) (query : string) : BffError + json :=
  queryRange query (default (iso (now - ONE_HOUR_MS)%Z) (rq_start q)) (default (iso now) (rq_end q)) (default DEFAULT_STEP (rq_step q)).
Definition quantile (q metric : string) : string := "histogram_quantile(" +:+ q +:+ ", sum by (le) (rate(" +:+ metric +:+ "_bucket[5m])))".
Definition LATENCY : string := "sardeenz_proxy_request_duration_seconds".
Definition PARKING : string := "sardeenz_proxy_parking_duration_seconds".
(** [Promise.all]: the values, or the error of a query. *)
Fixpoint all_ok {A} (rs : list (BffError + A)) : BffError + list A :=
  match rs with
  | [] => inr []
  | inl e :: _ => inl e
  | inr a :: rs => match all_ok rs with inl e => inl e | inr l => inr (a :: l) end
  end.
Definition named (now : Z) (q : RangeQuery) (queries : list (string * string)) : BffError + json :=
  match all_ok ((λ '(_, query), range now q query) <$> queries) with inl e => inl e | inr vs => inr (JObj (zip (queries.*1) vs)) end.
Definition latency (now : Z) (q : RangeQuery) : BffError + json := named now q [("p50", quantile "0.50" LATENCY); ("p95", quantile "0.95" LATENCY); ("p99", quantile "0.99" LATENCY)].
Definition throughput (now : Z) (q : RangeQuery) : BffError + json := range now q "rate(sardeenz_proxy_requests_total[5m])".
Definition memory : BffError + json := queryInstant "sardeenz_control_plane_device_memory_bytes" None.
Definition connections (now : Z) (q : RangeQuery) : BffError + json := named now q [("active", "sardeenz_proxy_active_connections"); ("parked", "sardeenz_proxy_parked_connections")].
Definition parking_duration (now : Z) (q : RangeQuery) : BffError + json := named now q [("p50", quantile "0.50" PARKING); ("p95", quantile "0.95" PARKING)].
Definition wake_triggers (now : Z) (q : RangeQuery) : BffError + json := range now q "rate(sardeenz_control_plane_wake_triggers_total[5m])".
Definition state_transitions (now : Z) (q : RangeQuery) : BffError + json := range now q "rate(sardeenz_control_plane_state_transitions_total[5m])".
Definition evictions (now : Z) (q : RangeQuery) : BffError + json := range now q "rate(sardeenz_control_plane_evictions_total[5m])".
Definition memory_history (now : Z) (q : RangeQuery) : BffError + json := range now q "sardeenz_control_plane_device_memory_bytes".
Record OperationDuration := mkDuration { od_operation : string; od_averageSeconds : option Q; od_count : Z }.
Definition Qround (q : Q) : Z := Qfloor (q + (1 # 2))%Q.
Definition Qpositive (q : Q) : bool := negb (Qle_bool q 0).
Definition duration_of (operation : string) (sum rawCount : Q) : OperationDuration :=
  if Qpositive rawCount then mkDuration operation (Some (sum / rawCount)%Q) (Z.max 1 (Qround rawCount)) else mkDuration operation None 0.
Definition operation_query (operation part : string) (windowSeconds : Z) : string :=
  "sum(increase(sardeenz_control_plane_" +:+ operation +:+ "_duration_seconds_" +:+ part +:+ "[" +:+ show_int windowSeconds +:+ "s]))".
(** [Math.round((endMs - startMs) / 1000)], at least a minute. *)
Definition window_seconds (startMs endMs : Z) : Z := Z.max ((2 * (endMs - startMs) + 1000) / 2000) MIN_OPERATIONS_WINDOW_SECONDS.
Definition operation_duration (endStr : string) (windowSeconds : Z) (operation : string) : BffError + OperationDuration :=
  match queryInstant (operation_query operation "sum" windowSeconds) (Some endStr), queryInstant (operation_query operation "count" windowSeconds) (Some endStr) with
  | inr s, inr c => inr (duration_of operation (scalarFromInstant s) (scalarFromInstant c))
  | inl e, _ | _, inl e => inl e
  end.
Definition operations (now : Z) (q : RangeQuery) : BffError + list OperationDuration :=
  let startStr := default (iso (now - ONE_HOUR_MS)%Z) (rq_start q) in
  let endStr := default (iso now) (rq_end q) in
  match parse_date startStr, parse_date endStr with
  | Some startMs, Some endMs => all_ok (operation_duration endStr (window_seconds startMs endMs) <$> OPERATIONS)
  | _, _ => inl (mkBffError 400 INVALID_REQUEST "start and end must be valid dates")
  end.
End prometheus.

(** ** What is sent *)
Inductive MetricsRoute := Latency | Throughput | Memory | Connections | ParkingDuration | WakeTriggers | StateTransitions | Evictions | MemoryHistory | Operations.
Section routes.
Context (client : PrometheusClient) (token_file : option string) (iso : Z → string) (parse_date : string → option Z) (parse_float : json → option Q).
(** What a route answers: JSON that is passed on, or the durations of the operations. *)
Definition metrics_answer (prometheus : PrometheusRequest → option PrometheusAnswer) (r : MetricsRoute) (now : Z) (q : RangeQuery) : BffError + (json + list OperationDuration) :=
  let pass := λ (x : BffError + json), match x with inl e => inl e | inr v => inr (inl v) end in
  match r with
  | Latency => pass (latency client token_file prometheus iso now q) | Throughput => pass (throughput client token_file prometheus iso now q)
  | Memory => pass (memory client token_file prometheus) | Connections => pass (connections client token_file prometheus iso now q)
  | ParkingDuration => pass (parking_duration client token_file prometheus iso now q) | WakeTriggers => pass (wake_triggers client token_file prometheus iso now q)
  | StateTransitions => pass (state_transitions client token_file prometheus iso now q) | Evictions => pass (evictions client token_file prometheus iso now q)
  | MemoryHistory => pass (memory_history client token_file prometheus iso now q)
  | Operations => match operations client token_file prometheus iso parse_date parse_float now q with inl e => inl e | inr l => inr (inr l) end
  end.
(** A request within the tenancy of the dashboard: the tenant's namespace, once, and the token of the file. *)
Definition proper (r : PrometheusRequest) : Prop :=
  (tenantNamespace client <> "" -> jm_get (pr_params r) "namespace" = Some (tenantNamespace client) /\ NoDup (jm_keys (pr_params r))) /\
  (bearerTokenPath client <> "" -> ∃ t, bearerToken token_file = inr t /\ pr_authorization r = Some ("Bearer " +:+ t)).
Lemma built_proper path params r : NoDup (jm_keys params) -> build_request client token_file path params = inr r -> proper r.
Proof.
  intros Hnd. unfold build_request, proper. intros H.
  assert (Hp : tenantNamespace client <> "" -> let ps := if decide (tenantNamespace client = "") then params else jm_set params "namespace" (tenantNamespace client) in
    jm_get ps "namespace" = Some (tenantNamespace client) /\ NoDup (jm_keys ps)).
  { intros Hne. simpl. rewrite decide_False by done. split; [apply jm_get_set_eq|by apply jm_set_NoDup]. }
  destruct (decide (bearerTokenPath client = "")) as [Hb|Hb]; [simplify_eq; by split|]. destruct (bearerToken token_file) as [e|t]; simplify_eq. split; [done|]. eauto.
Qed.
Section two.
Context (p1 p2 : PrometheusRequest → option PrometheusAnswer) (Hagree : ∀ r, proper r -> p1 r = p2 r).
Lemma request_agree path params : NoDup (jm_keys params) -> request client token_file p1 path params = request client token_file p2 path params.
Proof.
  intros Hnd. unfold request. destruct (build_request client token_file path params) as [e|r] eqn:E; [done|]. by rewrite (Hagree r (built_proper _ _ _ Hnd E)).
Qed.
Lemma range_agree now q query : range client token_file p1 iso now q query = range client token_file p2 iso now q query.
Proof.
  apply request_agree. unfold jm_keys. cbn. repeat (apply NoDup_cons; split; [set_solver|]). apply NoDup_nil. done.
Qed.
Lemma named_agree now q queries : named client token_file p1 iso now q queries = named client token_file p2 iso now q queries.
Proof.
  unfold named. assert ((λ '(_, query), range client token_file p1 iso now q query) <$> queries = (λ '(_, query), range client token_file p2 iso now q query) <$> queries) as ->; [|done].
  apply list_fmap_ext. intros ? [k query] _. apply range_agree.
Qed.
Lemma instant_agree query time : queryInstant client token_file p1 query time = queryInstant client token_file p2 query time.
Proof.
  apply request_agree. unfold instant_params. destruct time; [apply jm_set_NoDup|]; apply NoDup_singleton.
Qed.
Lemma operations_agree now q : operations client token_file p1 iso parse_date parse_float now q = operations client token_file p2 iso parse_date parse_float now q.
Proof.
  unfold operations. repeat case_match; try done. f_equal. apply list_fmap_ext. intros ? op _. unfold operation_duration. by rewrite !instant_agree.
Qed.
End two.
(** Whatever the query string of a metrics request says, its answer depends on Prometheus only
    through requests within the tenancy: two servers that answer alike the requests that carry
    the tenant's namespace, once, and the token that was read just before, are not told apart. *)
Theorem metrics_stay_in_tenancy (p1 p2 : PrometheusRequest → option PrometheusAnswer) (r : MetricsRoute) (now : Z) (q : RangeQuery)
  (Hagree : ∀ rq, proper rq -> p1 rq = p2 rq) : metrics_answer p1 r now q = metrics_answer p2 r now q.
Proof.
  destruct r; unfold metrics_answer, latency, throughput, memory, connections, parking_duration, wake_triggers, state_transitions, evictions, memory_history;
    rewrite ?(named_agree p1 p2 Hagree), ?(range_agree p1 p2 Hagree), ?(instant_agree p1 p2 Hagree), ?(operations_agree p1 p2 Hagree); done.
Qed.
(** Without the token nothing is asked: every route answers 502, or 400 for a bad range. *)
Theorem no_token_no_metrics (prometheus : PrometheusRequest → option PrometheusAnswer) (r : MetricsRoute) (now : Z) (q : RangeQuery)
  (Hpath : bearerTokenPath client <> "") (Htok : bearerToken token_file = inl unavailable) :
  metrics_answer prometheus r now q = inl unavailable \/ metrics_answer prometheus r now q = inl (mkBffError 400 INVALID_REQUEST "start and end must be valid dates").
Proof.
  assert (Hr : ∀ path params, request client token_file prometheus path params = inl unavailable).
  { intros. unfold request, build_request. rewrite decide_False by done. by rewrite Htok. }
  destruct r; unfold metrics_answer, latency, throughput, memory, connections, parking_duration, wake_triggers, state_transitions, evictions, memory_history, named,
    range, queryRange, queryInstant; cbn [fmap list_fmap]; rewrite ?Hr; cbn; rewrite ?Hr; auto.
  unfold operations. repeat case_match; simplify_eq; auto.
  all: revert H; unfold operation_duration, queryInstant; cbn; rewrite !Hr; cbn; intros; simplify_eq; auto.
Qed.
End routes.

(** ** Durations *)
Lemma all_ok_length {A B} (f : A → BffError + B) l bs : all_ok (f <$> l) = inr bs -> Forall2 (λ a b, f a = inr b) l bs.
Proof.
  revert bs. induction l as [|a l IH]; cbn; intros bs H; [simplify_eq; constructor|].
  destruct (f a) as [|b] eqn:E; [done|]. destruct (all_ok _) as [|bs'] eqn:E'; [done|]. simplify_eq. constructor; [done|]. by apply IH.
Qed.
(** The operations are reported in order; an average is given exactly when operations were
    counted, at least one then, and the window asked for is at least a minute. *)
Theorem operations_consistent client token_file prometheus iso parse_date parse_float (now : Z) (q : RangeQuery) (l : list OperationDuration)
  (H : operations client token_file prometheus iso parse_date parse_float now q = inr l) :
  od_operation <$> l = OPERATIONS /\ Forall (λ d, (0 <= od_count d)%Z /\ (is_Some (od_averageSeconds d) <-> (0 < od_count d)%Z)) l.
Proof.
  unfold operations in H. destruct (parse_date _) as [startMs|]; [|done]. destruct (parse_date _) as [endMs|]; [|done].
  apply all_ok_length in H.
  assert (Hd : ∀ op d, operation_duration client token_file prometheus parse_float (default (iso now) (rq_end q)) (window_seconds startMs endMs) op = inr d ->
    od_operation d = op /\ (0 <= od_count d)%Z /\ (is_Some (od_averageSeconds d) <-> (0 < od_count d)%Z)).
  { intros op d Hd. unfold operation_duration in Hd. repeat case_match; simplify_eq. unfold duration_of. case_match; simpl; split_and!; try done; try lia.
    all: split; [intros [? ?]; first [done|lia]|intros; first [by eauto|lia]]. }
  split.
  - induction H as [|op d ops ds Hop _ IH]; [done|]. rewrite fmap_cons, IH. f_equal. by apply Hd.
  - induction H as [|op d ops ds Hop _ IH]; [constructor|]. constructor; [|done]. by destruct (Hd _ _ Hop) as [_ ?].
Qed.
Lemma window_at_least_minute startMs endMs : (MIN_OPERATIONS_WINDOW_SECONDS <= window_seconds startMs endMs)%Z.
Proof. unfold window_seconds. lia. Qed.

(** ** clients/github.ts *)
Record RepoStats := mkStats { stars : option Z; forks : option Z; fetchedAt : option string }.
Definition NULL_STATS : RepoStats := mkStats None None None.
Definition SUCCESS_TTL_MS : Z := 60 * 60 * 1000.
Definition FAILURE_TTL_MS : Z := 5 * 60 * 1000.
(** The cache, whether a look-up is in flight, the callers that wait for it, and (for the
    statements) when each look-up was sent, newest first, and what the callers were given. *)
Record RepoClient := mkRepo { rc_cache : option (RepoStats * Z); rc_inflight : bool; rc_waiting : nat; rc_sent : list Z; rc_answers : list RepoStats }.
Definition new_repo_client : RepoClient := mkRepo None false 0 [] [].
(** [None]: it threw or was not ok; otherwise the two counts, when they are numbers. *)
Definition fetchStats (r : option (option Z * option Z)) (fetched : string) : RepoStats :=
  match r with
  | None | Some (None, None) => NULL_STATS
  | Some (s, f) => mkStats s f (Some fetched)
  end.
Inductive RepoEvent := GetStats (now : Z) | Fetched (now : Z) (r : option (option Z * option Z)) (fetched : string).
Definition event_time (e : RepoEvent) : Z := match e with GetStats now | Fetched now _ _ => now end.
Definition repo_step (url : string) (e : RepoEvent) (c : RepoClient) : option RepoClient :=
  match e with
  | GetStats now =>
      if decide (url = "") then Some (mkRepo (rc_cache c) (rc_inflight c) (rc_waiting c) (rc_sent c) (NULL_STATS :: rc_answers c))
      else
        let fresh := match rc_cache c with Some (stats, expiresAt) => if Z.ltb now expiresAt then Some stats else None | None => None end in
        match fresh with
        | Some stats => Some (mkRepo (rc_cache c) (rc_inflight c) (rc_waiting c) (rc_sent c) (stats :: rc_answers c))
        | None => Some (mkRepo (rc_cache c) true (S (rc_waiting c)) (if rc_inflight c then rc_sent c else now :: rc_sent c) (rc_answers c))
        end
  | Fetched now r fetched =>
      if rc_inflight c then
        let stats := fetchStats r fetched in
        let ttl := match stars stats, forks stats with None, None => FAILURE_TTL_MS | _, _ => SUCCESS_TTL_MS end in
        Some (mkRepo (Some (stats, now + ttl)%Z) false 0 (rc_sent c) (replicate (rc_waiting c) stats ++ rc_answers c))
      else None
  end.
(** Events in the order of time. *)
Inductive repo_reach (url : string) : Z → nat → RepoClient → Prop :=
| repo_new now : repo_reach url now 0 new_repo_client
| repo_more clock calls c e c' : repo_reach url clock calls c -> (clock <= event_time e)%Z -> repo_step url e c = Some c' ->
    repo_reach url (event_time e) (match e with GetStats _ => S calls | _ => calls end) c'.
(** Look-ups at least [gap] apart. *)
Fixpoint spaced (gap : Z) (times : list Z) : Prop :=
  match times with t :: (t' :: _) as rest => (t' + gap <= t)%Z /\ spaced gap rest | _ => True end.
Record repo_ok (clock : Z) (calls : nat) (c : RepoClient) : Prop := {
  ro_spaced : spaced FAILURE_TTL_MS (rc_sent c);
  ro_last : match rc_sent c with t :: _ => (t <= clock)%Z /\ (rc_inflight c = false -> ∃ stats e, rc_cache c = Some (stats, e) /\ (t + FAILURE_TTL_MS <= e)%Z) | [] => True end;
  ro_idle : rc_inflight c = false -> rc_waiting c = 0;
  ro_calls : rc_waiting c + length (rc_answers c) = calls;
}.
Lemma repo_reach_ok url clock calls c : repo_reach url clock calls c -> repo_ok clock calls c.
Proof.
  induction 1 as [now|clock calls c e c' _ [Hsp Hlast Hidle Hcalls] Hclock Hstep]; [by split|]. destruct e as [now|now r f]; simpl in *.
  - destruct (decide (url = "")); [simplify_eq; split; simpl; try done; try lia; destruct (rc_sent c); [done|]; split; [lia|tauto]|].
    destruct (rc_cache c) as [[stats e]|] eqn:Ec; try rewrite Ec in Hlast.
    + destruct (Z.ltb_spec now e) as [Hlt|Hge]; simplify_eq; split; simpl; try done; try lia.
      * destruct (rc_sent c); [done|]. split; [lia|tauto].
      * destruct (rc_inflight c) eqn:Ei; [done|]. destruct (rc_sent c) as [|t ts]; [done|]. destruct Hlast as [_ Hl]. destruct (Hl eq_refl) as (? & ? & [= <- <-] & ?).
        split; [lia|done].
      * destruct (rc_inflight c); [|by split; [lia|]]. destruct (rc_sent c); [done|]. split; [lia|done].
    + simplify_eq. split; simpl; try done; try lia.
      * destruct (rc_inflight c) eqn:Ei; [done|]. destruct (rc_sent c) as [|t ts]; [done|]. destruct Hlast as [_ Hl]. by destruct (Hl eq_refl) as (? & ? & ? & _).
      * destruct (rc_inflight c); [|by split; [lia|]]. destruct (rc_sent c); [done|]. split; [lia|done].
  - destruct (rc_inflight c) eqn:Ei; [|done]. simplify_eq. split; simpl; try done.
    + destruct (rc_sent c) as [|t ts]; [done|]. destruct Hlast as [? _]. split; [lia|]. intros _. eexists _, _. split; [done|].
      unfold FAILURE_TTL_MS, SUCCESS_TTL_MS. repeat case_match; lia.
    + rewrite length_app, length_replicate. lia.
Qed.
(** However the pages call for the statistics and whatever GitHub answers, one look-up at most
    is in flight and two look-ups are sent at least five minutes apart; every call has been
    answered or waits for the one in flight. *)
Theorem repo_lookups_spaced (url : string) (clock : Z) (calls : nat) (c : RepoClient) (Hr : repo_reach url clock calls c) :
  spaced FAILURE_TTL_MS (rc_sent c) /\ rc_waiting c + length (rc_answers c) = calls /\ (rc_inflight c = false -> length (rc_answers c) = calls).
Proof. destruct (repo_reach_ok _ _ _ _ Hr) as [Hs _ Hi Hc]. split_and!; [done|done|]. intros H. rewrite (Hi H) in Hc. done. Qed.
Lemma repo_lookups_spaced_witness :
  ∃ c, repo_reach "u" 300002 3 c /\ rc_sent c = [300002%Z; 0%Z] /\ spaced FAILURE_TTL_MS (rc_sent c) /\ length (rc_answers c) = 2.
Proof.
  assert (H : repo_reach "u" 300002 3 (mkRepo (Some (NULL_STATS, 300001%Z)) true 1 [300002%Z; 0%Z] [NULL_STATS; NULL_STATS])).
  { refine (repo_more _ 1 2 (mkRepo (Some (NULL_STATS, 300001%Z)) false 0 [0%Z] [NULL_STATS; NULL_STATS]) (GetStats 300002) _ _ _ _); [|done|reflexivity].
    refine (repo_more _ 1 2 (mkRepo None true 2 [0%Z] []) (Fetched 1 None "") _ _ _ _); [|done|reflexivity].
    refine (repo_more _ 0 1 (mkRepo None true 1 [0%Z] []) (GetStats 1) _ _ _ _); [|done|reflexivity].
    refine (repo_more _ 0 0 new_repo_client (GetStats 0) _ _ _ _); [constructor|done|reflexivity]. }
  exists (mkRepo (Some (NULL_STATS, 300001%Z)) true 1 [300002%Z; 0%Z] [NULL_STATS; NULL_STATS]).
  split; [exact H|]. split; [reflexivity|]. split; [apply (repo_lookups_spaced "u" 300002 3 _ H)|reflexivity].
Defined.
Lemma metrics_stay_in_tenancy_witness :
  let client := mkPrometheus "http://p" "/token" "team" in
  let asked r := if decide (jm_get (pr_params r) "namespace" = Some "team" /\ pr_authorization r = Some "Bearer secret") then Some (mkPromAnswer 200 true (Some JNull)) else None in
  metrics_answer client (Some "secret") (λ _, "now") (λ _, None) (λ _, None) (λ _, Some (mkPromAnswer 200 true (Some JNull))) Memory 0 (mkRange None None None) = inr (inl JNull) /\
  metrics_answer client (Some "secret") (λ _, "now") (λ _, None) (λ _, None) asked Memory 0 (mkRange None None None) =
  metrics_answer client (Some "secret") (λ _, "now") (λ _, None) (λ _, None) (λ _, Some (mkPromAnswer 200 true (Some JNull))) Memory 0 (mkRange None None None).
Proof.
  intros client asked. split; [vm_compute; reflexivity|]. apply metrics_stay_in_tenancy.
  intros rq [Hn Ha]. unfold asked. destruct Hn as [Hn _]; [done|]. destruct Ha as (t & Ht & Ha); [done|]. vm_compute in Ht. simplify_eq. by rewrite decide_True.
Defined.
