(* ===== verification/Forwarding.v ===== *)
(** * Forwarding to the control plane (dashboard/server/clients/control-plane.ts and the routes
    that use it; the token check of control-plane/src/server.ts)

    What the dashboard's server sends for each of its calls, how it answers when the control
    plane is down, and which requests the control plane takes without a token.  Strings are the
    bytes of UTF-8; the transport and Redis are arguments. *)
From stdpp Require Import base tactics list strings sets.
From Stdlib Require Import ZArith Lia Ascii.
From S2P Require Import Prelude Js DashboardAuth.
Local Open Scope nat_scope.

(** ** [encodeURIComponent] *)
Definition unreserved (c : ascii) : bool :=
  in_chars 65 90 c || in_chars 97 122 c || in_chars 48 57 c || has_char c "-_.!~*'()".
Definition hex_digit (n : nat) : ascii := ascii_of_nat (if Nat.ltb n 10 then 48 + n else 55 + n).
Definition hex_value (c : ascii) : option nat :=
  if in_chars 48 57 c then Some (nat_of_ascii c - 48) else if in_chars 65 70 c then Some (nat_of_ascii c - 55)
  else if in_chars 97 102 c then Some (nat_of_ascii c - 87) else None.
Fixpoint encodeURIComponent (s : string) : string :=
  match s with
  | EmptyString => ""
  | String c s => if unreserved c then String c (encodeURIComponent s)
                  else String "%" (String (hex_digit (nat_of_ascii c / 16)) (String (hex_digit (nat_of_ascii c mod 16)) (encodeURIComponent s)))
  end.
(** [decodeURIComponent]; [None]: malformed *)
Fixpoint decodeURIComponent (s : string) : option string :=
  match s with
  | EmptyString => Some ""
  | String "%" (String h (String l s)) =>
      match hex_value h, hex_value l, decodeURIComponent s with Some h, Some l, Some t => Some (String (ascii_of_nat (16 * h + l)) t) | _, _, _ => None end
  | String "%" _ => None
  | String c s => String c <$> decodeURIComponent s
  end.

(** ** The calls of [ControlPlaneClient] *)
Inductive Call :=
| ListModels (state : option string) | GetModel (name : string) | DeployModel (body : json) | UpdateModel (name : string) (body : json)
| DeleteModel (name : string) (force : bool) | SleepModel (name : string) | WakeModel (name : string) | StopModel (name : string) (force : bool) | StartModel (name : string)
| StartupLogs (name : string)
| CreateInstance (name : string) | DeleteInstance (name instanceId : string) | SleepInstance (name instanceId : string) | WakeInstance (name instanceId : string)
| MoveInstance (name instanceId : string) (body : json) | BrowseWeights (path : option string)
| ListWorkers | GetWorker (id : string) | GetClusterStatus | GetClusterMemory
| ListCatalog | RefreshCatalog | ImportRunner (id : string) | UninstallRunner (id : string)
| ListNotifications (limit offset : option string) | MarkNotificationRead (id : string) | MarkAllNotificationsRead | RemoveNotification (id : string) | ClearAllNotifications.
Definition enc : string → string := encodeURIComponent.
Definition model_path (name : string) : string := "/api/v1/models/" +:+ enc name.
Definition instance_path (name instanceId : string) : string := model_path name +:+ "/instances/" +:+ enc instanceId.
Definition force_query (force : bool) : string := if force then "?force=true" else "".
(** [URLSearchParams] of values that are numbers. *)
Definition page_query (limit offset : option string) : string :=
  let params := (match limit with Some v => ["limit=" +:+ v] | None => [] end) ++ (match offset with Some v => ["offset=" +:+ v] | None => [] end) in
  match params with [] => "" | _ => "?" +:+ js_join "&" params end.
Definition sent (c : Call) : Method * string * option json :=
  match c with
  | ListModels state => (GET, if truthy_str state then "/api/v1/models?state=" +:+ enc (default "" state) else "/api/v1/models", None)
  | GetModel n => (GET, model_path n, None)
  | DeployModel b => (POST, "/api/v1/models", Some b)
  | UpdateModel n b => (PUT, model_path n, Some b)
  | DeleteModel n f => (DELETE, model_path n +:+ force_query f, None)
  | SleepModel n => (POST, model_path n +:+ "/sleep", None)
  | WakeModel n => (POST, model_path n +:+ "/wake", None)
  | StopModel n f => (POST, model_path n +:+ "/stop" +:+ force_query f, None)
  | StartModel n => (POST, model_path n +:+ "/start", None)
  | StartupLogs n => (GET, model_path n +:+ "/startup-logs", None)
  | CreateInstance n => (POST, model_path n +:+ "/instances", None)
  | DeleteInstance n i => (DELETE, instance_path n i, None)
  | SleepInstance n i => (POST, instance_path n i +:+ "/sleep", None)
  | WakeInstance n i => (POST, instance_path n i +:+ "/wake", None)
  | MoveInstance n i b => (POST, instance_path n i +:+ "/move", Some b)
  | BrowseWeights p => (GET, "/api/v1/weights" +:+ (if truthy_str p then "?path=" +:+ enc (default "" p) else ""), None)
  | ListWorkers => (GET, "/api/v1/workers", None)
  | GetWorker id => (GET, "/api/v1/workers/" +:+ enc id, None)
  | GetClusterStatus => (GET, "/api/v1/cluster/status", None)
  | GetClusterMemory => (GET, "/api/v1/cluster/memory", None)
  | ListCatalog => (GET, "/api/v1/catalog", None)
  | RefreshCatalog => (POST, "/api/v1/catalog/refresh", None)
  | ImportRunner id => (POST, "/api/v1/catalog/" +:+ enc id +:+ "/import", None)
  | UninstallRunner id => (DELETE, "/api/v1/catalog/" +:+ enc id, None)
  | ListNotifications l o => (GET, "/api/v1/notifications" +:+ page_query l o, None)
  | MarkNotificationRead id => (POST, "/api/v1/notifications/" +:+ enc id +:+ "/read", None)
  | MarkAllNotificationsRead => (POST, "/api/v1/notifications/read-all", None)
  | RemoveNotification id => (DELETE, "/api/v1/notifications/" +:+ enc id, None)
  | ClearAllNotifications => (DELETE, "/api/v1/notifications", None)
  end.
(** The headers of [proxyRequest]. *)
Definition proxy_headers (token : string) (body : option json) : list (string * string) :=
  (if body then [("Content-Type", "application/json")] else []) ++ (if decide (token = "") then [] else [("Authorization", "Bearer " +:+ token)]).

(** ** What a URL stands for: the segments of its path, dots removed, and its query *)
Definition url_path (url : string) : string := default "" (head (split_on "?" url)).
Definition url_query (url : string) : option string := match split_on "?" url with [_; q] => Some q | _ => None end.
(** Dot segments, as the URL parser of [fetch] takes them. *)
Fixpoint remove_dots (segs : list string) (stack : list string) : list string :=
  match segs with
  | [] => rev stack
  | s :: rest =>
      let last := match rest with [] => true | _ => false end in
      if decide (s = "..") then remove_dots rest (if last then "" :: tail stack else tail stack)
      else if decide (s = ".") then remove_dots rest (if last then "" :: stack else stack)
      else remove_dots rest (s :: stack)
  end.
Definition url_segments (url : string) : list string := remove_dots (tail (split_on "/" (url_path url))) [].
Definition decoded_segments (url : string) : option (list string) := mapM decodeURIComponent (url_segments url).
(** The route of the control plane a call is meant for, with its parameters in place
    (control-plane/src/routes), and the query it is meant to have. *)
Definition meant (c : Call) : Method * list string * option (list (string * string)) :=
  let v1 l := ["api"; "v1"] ++ l in
  let model n l := v1 (["models"; n] ++ l) in
  let force (f : bool) := if f then Some [("force", "true")] else None in
  match c with
  | ListModels state => (GET, v1 ["models"], match state with Some s => Some [("state", s)] | None => None end)
  | GetModel n => (GET, model n [], None) | DeployModel _ => (POST, v1 ["models"], None) | UpdateModel n _ => (PUT, model n [], None)
  | DeleteModel n f => (DELETE, model n [], force f) | SleepModel n => (POST, model n ["sleep"], None) | WakeModel n => (POST, model n ["wake"], None)
  | StopModel n f => (POST, model n ["stop"], force f) | StartModel n => (POST, model n ["start"], None) | StartupLogs n => (GET, model n ["startup-logs"], None)
  | CreateInstance n => (POST, model n ["instances"], None) | DeleteInstance n i => (DELETE, model n ["instances"; i], None)
  | SleepInstance n i => (POST, model n ["instances"; i; "sleep"], None) | WakeInstance n i => (POST, model n ["instances"; i; "wake"], None)
  | MoveInstance n i _ => (POST, model n ["instances"; i; "move"], None)
  | BrowseWeights p => (GET, v1 ["weights"], match p with Some p => Some [("path", p)] | None => None end)
  | ListWorkers => (GET, v1 ["workers"], None) | GetWorker id => (GET, v1 ["workers"; id], None)
  | GetClusterStatus => (GET, v1 ["cluster"; "status"], None) | GetClusterMemory => (GET, v1 ["cluster"; "memory"], None)
  | ListCatalog => (GET, v1 ["catalog"], None) | RefreshCatalog => (POST, v1 ["catalog"; "refresh"], None)
  | ImportRunner id => (POST, v1 ["catalog"; id; "import"], None) | UninstallRunner id => (DELETE, v1 ["catalog"; id], None)
  | ListNotifications l o => (GET, v1 ["notifications"], match l, o with None, None => None | _, _ => Some ((match l with Some v => [("limit", v)] | None => [] end) ++ (match o with Some v => [("offset", v)] | None => [] end)) end)
  | MarkNotificationRead id => (POST, v1 ["notifications"; id; "read"], None) | MarkAllNotificationsRead => (POST, v1 ["notifications"; "read-all"], None)
  | RemoveNotification id => (DELETE, v1 ["notifications"; id], None) | ClearAllNotifications => (DELETE, v1 ["notifications"], None)
  end.
Definition pair_of (kv : string) : option (string * string) :=
  match split_on "=" kv with [k; v] => match decodeURIComponent v with Some v => Some (k, v) | None => None end | _ => None end.
Definition decoded_query (url : string) : option (option (list (string * string))) :=
  match url_query url with None => Some None | Some q => Some <$> mapM pair_of (split_on "&" q) end.
Definition query_is (url : string) (q : option (list (string * string))) : Prop := decoded_query url = Some q.

(** ** Encoded text *)
Lemma unreserved_not c d : unreserved c = true -> unreserved d = false -> c <> d.
Proof. congruence. Qed.
Lemma hex_pair c : hex_value (hex_digit (nat_of_ascii c / 16)) = Some (nat_of_ascii c / 16) /\ hex_value (hex_digit (nat_of_ascii c mod 16)) = Some (nat_of_ascii c mod 16).
Proof. destruct c as [[][][][][][][][]]; by vm_compute. Qed.
Lemma hex_chars c d : unreserved d = false -> hex_digit (nat_of_ascii c / 16) <> d /\ hex_digit (nat_of_ascii c mod 16) <> d.
Proof. intros Hd. split; apply unreserved_not; try done; destruct c as [[][][][][][][][]]; by vm_compute. Qed.
Lemma enc_free d s : unreserved d = false -> d <> "%"%char -> has_char d (enc s) = false.
Proof.
  intros Hd Hp. induction s as [|c s IH]; [done|]. unfold enc in *. cbn [encodeURIComponent]. destruct (unreserved c) eqn:E; cbn [has_char].
  - rewrite IH, bool_decide_eq_false_2; [done|]. by apply unreserved_not.
  - destruct (hex_chars c d Hd). rewrite IH. rewrite !bool_decide_eq_false_2 by congruence. done.
Qed.
Lemma decode_plain c s : c <> "%"%char -> decodeURIComponent (String c s) = String c <$> decodeURIComponent s.
Proof. intros H. destruct c as [[][][][][][][][]]; try done. Qed.
Lemma decode_enc s : decodeURIComponent (enc s) = Some s.
Proof.
  induction s as [|c s IH]; [done|]. unfold enc in *. cbn [encodeURIComponent]. destruct (unreserved c) eqn:E.
  - rewrite decode_plain, IH; [done|]. by apply unreserved_not.
  - cbn [decodeURIComponent]. destruct (hex_pair c) as [-> ->]. rewrite IH. do 2 f_equal. rewrite <- (ascii_nat_embedding c) at 3. f_equal.
    symmetry. apply Nat.div_mod_eq.
Qed.
Lemma enc_unreserved s : all_chars unreserved s = true -> enc s = s.
Proof. induction s as [|c s IH]; [done|]. simpl. intros [Hc Hs]%andb_true_iff. unfold enc in *. cbn [encodeURIComponent]. by rewrite Hc, IH. Qed.
(** ** Joined and split again *)
Lemma split_join c ss : ss <> [] -> Forall (λ s, has_char c s = false) ss -> split_on c (js_join (String c "") ss) = ss.
Proof.
  intros Hne Hf. induction Hf as [|s ss Hs Hf IH]; [done|]. destruct ss as [|s' ss]; [by apply split_on_no_char|].
  change (js_join (String c "") (s :: s' :: ss)) with (s +:+ String c (js_join (String c "") (s' :: ss))).
  rewrite split_on_app, split_on_no_char, IH by done. done.
Qed.
Lemma has_char_join c d ss : c <> d -> Forall (λ s, has_char c s = false) ss -> has_char c (js_join (String d "") ss) = false.
Proof.
  intros Hcd Hf. induction Hf as [|s ss Hs Hf IH]; [done|]. destruct ss as [|s' ss]; [done|].
  change (js_join (String d "") (s :: s' :: ss)) with (s +:+ String d (js_join (String d "") (s' :: ss))).
  rewrite has_char_app, Hs. cbn [has_char orb]. rewrite IH. by rewrite bool_decide_eq_false_2.
Qed.
(** A URL written from segments and a query, and what it stands for. *)
Definition write_path (segs : list string) : string := js_join "/" ("" :: (enc <$> segs)).
Definition write_query (q : option (list (string * string))) : string :=
  match q with None => "" | Some kvs => String "?" (js_join "&" ((λ kv, kv.1 +:+ String "=" (enc kv.2)) <$> kvs)) end.
Definition segment_ok (s : string) : Prop := s <> "" /\ s <> "." /\ s <> "..".
Definition key_ok (k : string) : Prop := all_chars unreserved k = true.
Lemma unreserved_free d s : all_chars unreserved s = true -> unreserved d = false -> has_char d s = false.
Proof. intros Hs Hd. induction s as [|c s IH]; [done|]. simpl in *. apply andb_true_iff in Hs as [Hc Hs]. rewrite IH by done. by rewrite bool_decide_eq_false_2 by (by apply unreserved_not). Qed.
Lemma remove_dots_id segs stack : Forall (λ s, s <> "." /\ s <> "..") segs -> remove_dots segs stack = rev stack ++ segs.
Proof.
  intros Hf. revert stack. induction Hf as [|s segs [H1 H2] _ IH]; intros stack; cbn [remove_dots]; [by rewrite app_nil_r|].
  rewrite !decide_False by done. rewrite IH. simpl. by rewrite <- app_assoc.
Qed.
Lemma path_free d segs : unreserved d = false -> d <> "%"%char -> d <> "/"%char -> has_char d (write_path segs) = false.
Proof. intros H1 H2 H3. unfold write_path. apply has_char_join; [done|]. constructor; [done|]. apply Forall_fmap, Forall_true. intros s. by apply enc_free. Qed.
Lemma pair_free d kv : key_ok kv.1 -> unreserved d = false -> d <> "%"%char -> d <> "="%char -> has_char d (kv.1 +:+ String "=" (enc kv.2)) = false.
Proof. intros Hk H1 H2 H3. rewrite has_char_app, unreserved_free by done. cbn [has_char orb]. rewrite enc_free by done. by rewrite bool_decide_eq_false_2. Qed.
Lemma written_path_of segs q : Forall (λ kv, key_ok kv.1) (default [] q) -> url_path (write_path segs +:+ write_query q) = write_path segs.
Proof.
  intros Hq. unfold url_path, write_query. destruct q as [kvs|].
  - rewrite split_on_app, split_on_no_char by (by apply path_free). done.
  - rewrite str_app_nil_r, split_on_no_char by (by apply path_free). done.
Qed.
Lemma written_query_of segs q : Forall (λ kv, key_ok kv.1) (default [] q) -> q <> Some [] -> decoded_query (write_path segs +:+ write_query q) = Some q.
Proof.
  intros Hq Hne. unfold decoded_query, url_query, write_query. destruct q as [kvs|].
  - assert (Hfree : Forall (λ s, has_char "&" s = false /\ has_char "?" s = false) ((λ kv, kv.1 +:+ String "=" (enc kv.2)) <$> kvs)).
    { apply Forall_fmap. eapply Forall_impl; [exact Hq|]. intros kv Hk. simpl. split; by apply pair_free. }
    rewrite split_on_app, !split_on_no_char; [|apply has_char_join; [done|]; eapply Forall_impl; [exact Hfree|]; by intros ? []|by apply path_free]. cbn [app].
    rewrite split_join; [|destruct kvs; [done|done]|eapply Forall_impl; [exact Hfree|]; by intros ? []].
    assert (Hm : mapM pair_of ((λ kv, kv.1 +:+ String "=" (enc kv.2)) <$> kvs) = Some kvs); [|by rewrite Hm].
    apply mapM_Some. cbn [default] in Hq. unfold default, id in Hq. clear Hne Hfree. induction Hq as [|[k v] kvs Hk _ IH]; [constructor|]. constructor; [|done].
    cbn [fst snd] in *. unfold pair_of. rewrite split_on_app, !split_on_no_char; [|by apply enc_free|by apply unreserved_free]. cbn [app]. by rewrite decode_enc.
  - rewrite str_app_nil_r, split_on_no_char by (by apply path_free). done.
Qed.
Lemma written_segments segs q :
  Forall segment_ok segs -> Forall (λ kv, key_ok kv.1) (default [] q) -> decoded_segments (write_path segs +:+ write_query q) = Some segs.
Proof.
  intros Hs Hq. unfold decoded_segments, url_segments. rewrite written_path_of by done. unfold write_path.
  rewrite split_join; [|done|constructor; [done|]; apply Forall_fmap, Forall_true; intros s; by apply enc_free]. cbn [tail].
  rewrite remove_dots_id.
  - simpl. apply mapM_Some. clear Hq q. induction Hs as [|s segs _ _ IH]; [constructor|]. constructor; [apply decode_enc|done].
  - apply Forall_fmap. eapply Forall_impl; [exact Hs|]. intros s (_ & H1 & H2). simpl. split; intros Heq; pose proof (decode_enc s) as Hd; rewrite Heq in Hd; injection Hd; congruence.
Qed.
(** A call with ordinary parameters: no empty and no dot segment, options given only when not
    empty, numbers as their numerals. *)
Definition ordinary (c : Call) : Prop :=
  let given := λ o : option string, match o with Some s => s <> "" | None => True end in
  let number := λ o : option string, match o with Some s => all_chars unreserved s = true | None => True end in
  match c with
  | ListModels o | BrowseWeights o => given o
  | ListNotifications l o => number l /\ number o
  | GetModel n | UpdateModel n _ | DeleteModel n _ | SleepModel n | WakeModel n | StopModel n _ | StartModel n | StartupLogs n | CreateInstance n | GetWorker n
  | ImportRunner n | UninstallRunner n | MarkNotificationRead n | RemoveNotification n => segment_ok n
  | DeleteInstance n i | SleepInstance n i | WakeInstance n i | MoveInstance n i _ => segment_ok n /\ segment_ok i
  | _ => True
  end.
Lemma sent_written c : ordinary c -> (sent c).1.1 = (meant c).1.1 /\ (sent c).1.2 = write_path (meant c).1.2 +:+ write_query (meant c).2.
Proof.
  destruct c; cbn [ordinary]; intros Hc; (split; [done|]); unfold sent, meant, model_path, instance_path, force_query, write_path, write_query; cbn [fst snd];
    rewrite ?str_app_nil_r, ?str_app_assoc; try reflexivity; try (by destruct force).
  - destruct state as [s|]; [|done]. destruct s; done.
  - destruct force; simpl; rewrite ?str_app_assoc; done.
  - destruct path as [s|]; [|done]. destruct s; done.
  - destruct Hc as [Hl Ho]. destruct limit as [l|], offset as [o|]; unfold page_query; cbn [app fmap list_fmap fst snd]; rewrite ?(enc_unreserved l Hl), ?(enc_unreserved o Ho); reflexivity.
Qed.
Lemma meant_ok c : ordinary c -> Forall segment_ok (meant c).1.2 /\ Forall (λ kv, key_ok kv.1) (default [] (meant c).2) /\ (meant c).2 <> Some [].
Proof.
  destruct c; cbn; intros Hc; split_and!; repeat case_match; destruct_and?; try done; repeat (constructor; try done).
Qed.
Lemma sent_means c : ordinary c -> (sent c).1.1 = (meant c).1.1 /\ decoded_segments (sent c).1.2 = Some (meant c).1.2 /\ decoded_query (sent c).1.2 = Some (meant c).2.
Proof.
  intros Hc. destruct (sent_written c Hc) as [Hm Hu]. destruct (meant_ok c Hc) as (Hs & Hq & Hne). rewrite Hu.
  split_and!; [done|by apply written_segments|by apply written_query_of].
Qed.
(** Whatever characters the names and texts of a call hold (slashes, question marks, percent
    signs), the request the dashboard sends stands for the route the call is meant for, with the
    parameters as they were given: the method, the decoded segments of the path after the URL
    parser has removed dot segments, and the decoded query. *)
Theorem forwarded_exact (c : Call) (Hc : ordinary c) :
  let '(method, url, _) := sent c in
  method = (meant c).1.1 /\ decoded_segments url = Some (meant c).1.2 /\ decoded_query url = Some (meant c).2.
Proof. pose proof (sent_means c Hc) as H. by destruct (sent c) as [[m u] b]. Qed.
Lemma forwarded_exact_witness :
  ordinary (SleepInstance "a/b?c" "i%2e") /\
  (let '(method, url, _) := sent (SleepInstance "a/b?c" "i%2e") in
   method = POST /\ url = "/api/v1/models/a%2Fb%3Fc/instances/i%252e/sleep" /\ decoded_segments url = Some ["api"; "v1"; "models"; "a/b?c"; "instances"; "i%2e"; "sleep"]).
Proof.
  assert (H : ordinary (SleepInstance "a/b?c" "i%2e")) by (repeat split; done).
  split; [exact H|]. pose proof (forwarded_exact (SleepInstance "a/b?c" "i%2e") H) as (Hm & Hs & _). split; [exact Hm|]. split; [vm_compute; reflexivity|exact Hs].
Defined.
(** No two calls are sent as the same request. *)
Theorem forwarded_injective (c c' : Call) (Hc : ordinary c) (Hc' : ordinary c') (Heq : sent c = sent c') : c = c'.
Proof.
  destruct (sent_means c Hc) as (Hm & Hs & Hq). destruct (sent_means c' Hc') as (Hm' & Hs' & Hq'). rewrite Heq in Hm, Hs, Hq.
  assert (E : meant c = meant c') by (destruct (meant c) as [[??]?], (meant c') as [[??]?]; simpl in *; congruence).
  assert (Hb : (sent c).2 = (sent c').2) by by rewrite Heq. clear Hm Hs Hq Hm' Hs' Hq' Heq Hc Hc'.
  destruct c, c'; cbn in E, Hb; try discriminate E; try done; repeat case_match; simplify_eq; done.
Qed.

(** ** Answers *)
Inductive UpstreamError := Unreachable | NonJson (status : Z) | NotFound (what : string) | NoCachedMemory.
(** [BffError.upstreamError] and [notFound]. *)
Definition error_status (e : UpstreamError) : Z := match e with NotFound _ => 404 | _ => 502 end.
(** What [proxyRequest] gives: [None] when the fetch threw; the status and the JSON of the body. *)
Abbreviation Transport := (option (Z * option json)).
Definition request (t : Transport) : UpstreamError + (Z * option json) :=
  match t with
  | None => inl Unreachable
  | Some (status, data) =>
      if Z.eqb status 204 || Z.eqb status 205 then inr (status, None)
      else match data with Some v => inr (status, Some v) | None => inl (NonJson status) end
  end.
(** The views from Redis; [Redis] errors are left out. *)
Record RedisViews := mkViews {
  rv_models : list json; rv_model : string → option (list (string * json)); rv_workers : list json; rv_worker : string → option (list (string * json));
  rv_status : list (string * json); rv_memory : option (list (string * json));
}.
Definition from_redis (fields : list (string * json)) : Z * option json := (200%Z, Some (JObj (jm_set fields "source" (JStr "redis-fallback")))).
(** The second half of the reading routes. *)
Definition fallback (v : RedisViews) (c : Call) (e : UpstreamError) : UpstreamError + (Z * option json) :=
  match c with
  | ListModels _ => inr (from_redis [("models", JArr (rv_models v))])
  | GetModel n => match rv_model v n with Some m => inr (from_redis m) | None => inl (NotFound n) end
  | ListWorkers => inr (from_redis [("workers", JArr (rv_workers v))])
  | GetWorker id => match rv_worker v id with Some w => inr (from_redis w) | None => inl (NotFound id) end
  | GetClusterStatus => inr (from_redis (rv_status v))
  | GetClusterMemory => match rv_memory v with Some m => inr (from_redis m) | None => inl NoCachedMemory end
  | _ => inl e
  end.
(** A route of the dashboard that forwards the call. *)
Definition forward (v : RedisViews) (c : Call) (t : Transport) : UpstreamError + (Z * option json) :=
  match request t with inr a => inr a | inl e => fallback v c e end.
Definition isHealthy (t : option bool) : bool := default false t.

Definition changes_state (c : Call) : bool := negb (bool_decide ((sent c).1.1 = GET)).
Definition marked (a : Z * option json) : bool :=
  match a with (_, Some (JObj fields)) => bool_decide (is_string (obj_get fields "source") = Some "redis-fallback") | _ => false end.
(** An answer of the control plane, whatever its status, is passed on as it is; only when there
    is none that can be read are the views from Redis shown, marked as such, and only by reading
    routes: a request that changes something then fails with 502, and never looks done. *)
Theorem forward_never_pretends (v : RedisViews) (c : Call) (t : Transport) :
  match request t with
  | inr a => forward v c t = inr a
  | inl e =>
      match forward v c t with
      | inr a => changes_state c = false /\ a.1 = 200%Z /\ marked a = true
      | inl e' => (error_status e' = 502 \/ error_status e' = 404 /\ changes_state c = false)%Z /\ (changes_state c = true -> e' = e)
      end
  end.
Proof.
  unfold forward. destruct (request t) as [e|a] eqn:Ht; [|done].
  assert (He : error_status e = 502%Z) by (unfold request in Ht; repeat case_match; simplify_eq; done).
  assert (Hm : ∀ fields, marked (from_redis fields) = true).
  { intros fields. unfold marked, from_redis, obj_get. rewrite jm_get_set_eq. by apply bool_decide_eq_true. }
  destruct c; cbn [fallback]; repeat case_match; simplify_eq; cbn [changes_state sent fst negb]; rewrite ?Hm; try (split_and!; (done || (left; done) || (right; done))).
Qed.
(** The filter of a list of models is lost when it is answered from Redis. *)
Theorem fallback_ignores_filter (v : RedisViews) (s : string) : forward v (ListModels (Some s)) None = forward v (ListModels None) None.
Proof. done. Qed.
(** A dot segment is not encoded, and the URL parser removes it: an instance named by two dots
    turns a request for an instance into one for its model. *)
Theorem dots_change_the_route :
  url_segments (sent (SleepInstance "m" "..")).1.2 = url_segments (sent (SleepModel "m")).1.2 /\ (sent (SleepInstance "m" "..")).1.1 = (sent (SleepModel "m")).1.1.
Proof. by vm_compute. Qed.

(** ** The token of the control plane (server.ts) *)
(** The hook in front of every request, when a token is configured. *)
Definition api_hook (apiToken url : string) (authorization : option string) : bool :=
  if decide (apiToken = "") then true else
  if negb (starts_with "/api/v1/" url) then true else
  match authorization with
  | Some h => starts_with "Bearer " h && bool_decide (str_drop 7 h = apiToken)
  | None => false
  end.
(** The dashboard's own calls are admitted when both sides have the same token, and a request
    for the API is admitted with nothing else. *)
Theorem api_needs_token (token url : string) (authorization : option string) (Ht : token <> "") (Hu : starts_with "/api/v1/" url = true) :
  (api_hook token url authorization = true <-> authorization = Some ("Bearer " +:+ token)) /\
  (∀ c : Call, ordinary c -> api_hook token (sent c).1.2 (jm_get (proxy_headers token (sent c).2) "Authorization") = true).
Proof.
  assert (Hadmit : ∀ u, api_hook token u (Some ("Bearer " +:+ token)) = true).
  { intros u. unfold api_hook. rewrite decide_False by done. case_match; [done|]. by rewrite bool_decide_eq_true_2. }
  split.
  - split; [|intros ->; apply Hadmit]. unfold api_hook. rewrite decide_False, Hu by done. cbn [negb]. destruct authorization as [h|]; [|done].
    intros [Hh Hd%bool_decide_eq_true]%andb_true_iff. apply starts_with_spec in Hh as [x ->]. by rewrite (str_drop_app "Bearer " x : str_drop 7 _ = x) in Hd; subst.
  - intros c Hc. assert (Ha : jm_get (proxy_headers token (sent c).2) "Authorization" = Some ("Bearer " +:+ token)); [|by rewrite Ha].
    unfold proxy_headers. rewrite decide_False by done. by destruct ((sent c).2).
Qed.
(** The hook looks at the URL before it is decoded: a path that stands for the API passes without a token. *)
Theorem encoded_path_passes : api_hook "secret" "/%61pi/v1/models" None = true /\ decodeURIComponent "/%61pi/v1/models" = Some "/api/v1/models".
Proof. by vm_compute. Qed.
