(* ===== verification/InferenceProxy.v ===== *)
(** * The streaming inference proxy of the dashboard server (dashboard/server/routes/inference.ts)

    POST /api/inference/chat/completions takes a slot of the user's limit
    ([DashboardAuth.tryAcquire]), forwards the request to the proxy and pipes the answer back.
    Everything that can happen to a request - the answer of the proxy, the end or failure of its
    stream, the client leaving, the reply finishing, the handler going on behind an await - is
    an event; the server runs any number of requests, whose events interleave in any order. *)
From stdpp Require Import base tactics list strings.
From Stdlib Require Import ZArith Lia.
From S2P Require Import Prelude Js DashboardAuth.

(** ** One request *)
(** Where the handler waits. *)
Inductive Phase := Fetching | ReadingError (status : Z) | AwaitingReply | Streaming | Returned.
#[global] Instance Phase_eq_dec : EqDecision Phase.
Proof. solve_decision. Defined.
(** The answer of the proxy, once its headers are there: [upstream.ok] and [upstream.body]. *)
Record Upstream := mkUpstream { up_status : Z; up_ok : bool; up_body : bool }.
Record Proxied := mkProxied {
  px_user : string;
  px_phase : Phase;
  px_aborted : bool;           (** [controller.signal.aborted] *)
  px_upstream : option bool;   (** [upstreamStream]: not there, live, or destroyed *)
  px_hijacked : bool;
  px_disconnected : bool;      (** [clientDisconnected] *)
  px_cleaned : bool;           (** [cleanedUp], and [completion] is resolved *)
  px_ended : bool;             (** [reply.raw.writableEnded] *)
  px_destroyed : bool;         (** [reply.raw.destroyed] *)
  px_reply : option Z;         (** the status of the reply sent by Fastify *)
  px_piped : list string;      (** what was piped to the client *)
}.
Definition new_request (u : string) : Proxied := mkProxied u Fetching false None false false false false false None [].

Definition set_phase (ph : Phase) (p : Proxied) : Proxied :=
  mkProxied (px_user p) ph (px_aborted p) (px_upstream p) (px_hijacked p) (px_disconnected p) (px_cleaned p) (px_ended p) (px_destroyed p) (px_reply p) (px_piped p).
(** [cleanup], but for the release of the slot. *)
Definition cleanup (p : Proxied) : Proxied :=
  if px_cleaned p then p else
  mkProxied (px_user p) (px_phase p) true ((λ _, false) <$> px_upstream p) (px_hijacked p) (px_disconnected p) true
    (px_ended p || (px_hijacked p && negb (px_destroyed p))) (px_destroyed p) (px_reply p) (px_piped p).
(** The [finally] of the handler. *)
Definition return_now (p : Proxied) : Proxied := set_phase Returned (cleanup p).
(** [reply.raw.on('close')] and [on('error')] *)
Definition disconnect (gone : bool) (p : Proxied) : Proxied :=
  cleanup (mkProxied (px_user p) (px_phase p) (px_aborted p) (px_upstream p) (px_hijacked p) true (px_cleaned p) (px_ended p)
             (gone || px_destroyed p) (px_reply p) (px_piped p)).
(** [sendBeforeHijack], and the return behind it when the client is gone *)
Definition sendBeforeHijack (status : Z) (p : Proxied) : Proxied :=
  if px_disconnected p || px_destroyed p then return_now p else
  mkProxied (px_user p) AwaitingReply (px_aborted p) (px_upstream p) (px_hijacked p) (px_disconnected p) (px_cleaned p) true (px_destroyed p)
    (Some status) (px_piped p).
Definition start_stream (p : Proxied) : Proxied :=
  mkProxied (px_user p) Streaming (px_aborted p) (Some true) true (px_disconnected p) (px_cleaned p) (px_ended p) (px_destroyed p) (px_reply p) (px_piped p).
(** Behind [await deps.inference.chatCompletions(...)]; [None]: the call failed. *)
Definition fetched (r : option Upstream) (p : Proxied) : Proxied :=
  match r with
  | None => if negb (px_disconnected p) && negb (px_aborted p) then sendBeforeHijack 502 p else return_now p
  | Some u =>
      if px_disconnected p then return_now p else
      if negb (up_ok u) || negb (up_body u) then set_phase (ReadingError (up_status u)) p else start_stream p
  end.

(** *** Its events *)
Inductive ProxyEvent :=
| EFetched (r : option Upstream)
| EErrorBody                    (** [upstream.json()] answered, with a body or without *)
| EData (chunk : string)        (** the proxy sent a piece of the stream *)
| EUpstreamEnd | EUpstreamError
| EDestroyed                    (** the socket is destroyed; its [close] comes later *)
| EClose | EError | EFinish
| EResume.                      (** the handler goes on behind [await completion] *)
Definition is_live (p : Proxied) : bool := bool_decide (px_upstream p = Some true).
(** [None]: the event cannot happen now. *)
Definition proxy_event (e : ProxyEvent) (p : Proxied) : option Proxied :=
  match e with
  | EFetched r => if bool_decide (px_phase p = Fetching) then Some (fetched r p) else None
  | EErrorBody => match px_phase p with ReadingError status => Some (sendBeforeHijack status p) | _ => None end
  | EData chunk =>
      if is_live p then
        Some (mkProxied (px_user p) (px_phase p) (px_aborted p) (px_upstream p) (px_hijacked p) (px_disconnected p) (px_cleaned p) (px_ended p)
                (px_destroyed p) (px_reply p) (px_piped p ++ [chunk]))
      else None
  | EUpstreamEnd | EUpstreamError => if is_live p then Some (cleanup p) else None
  | EDestroyed =>
      Some (mkProxied (px_user p) (px_phase p) (px_aborted p) (px_upstream p) (px_hijacked p) (px_disconnected p) (px_cleaned p) (px_ended p) true
              (px_reply p) (px_piped p))
  | EClose => Some (disconnect true p)
  | EError => Some (disconnect false p)
  | EFinish => if px_ended p then Some (cleanup p) else None
  | EResume =>
      if px_cleaned p then match px_phase p with AwaitingReply | Streaming => Some (return_now p) | _ => None end else None
  end.

(** ** The server *)
Record Server := mkServer { sv_limiter : Limiter; sv_requests : list Proxied }.
Inductive ServerEvent := Arrive (u : string) | At (k : nat) (e : ProxyEvent).
(** [inferenceUsername] *)
Definition inferenceUsername (mode : AuthMode) (user : option JwtPayload) : string :=
  if bool_decide (mode = AuthNone) then "anonymous" else from_option jp_username "" user.
(** The slot of request [k] is given back when its [cleanup] first runs. *)
Definition settle (k : nat) (p p' : Proxied) (l : Limiter) : Limiter := if px_cleaned p' && negb (px_cleaned p) then release k l else l.
Definition serve (max : Z) (e : ServerEvent) (s : Server) : option Server :=
  match e with
  | Arrive u =>
      Some (match tryAcquire max u (sv_limiter s) with
            | None => s (* 429 *)
            | Some l => mkServer l (sv_requests s ++ [new_request u])
            end)
  | At k e => p ← sv_requests s !! k; p' ← proxy_event e p; Some (mkServer (settle k p p' (sv_limiter s)) (<[k := p']> (sv_requests s)))
  end.
Definition idle_server : Server := mkServer (mkLimiter [] []) [].
Inductive reachable (max : Z) : Server → Prop :=
| reach_start : reachable max idle_server
| reach_step e s s' : reachable max s → serve max e s = Some s' → reachable max s'.

(** ** What holds of every request *)
Definition early (p : Proxied) : bool := match px_phase p with Fetching | ReadingError _ => true | _ => false end.
Definition returned (p : Proxied) : bool := match px_phase p with Returned => true | _ => false end.
Definition no_upstream (p : Proxied) : bool := match px_upstream p with None => true | _ => false end.
Definition live (p : Proxied) : bool := match px_upstream p with Some true => true | _ => false end.
Definition request_ok (p : Proxied) : bool :=
  implb (px_cleaned p) (px_aborted p && negb (live p) && implb (px_hijacked p) (px_ended p || px_destroyed p)) &&
  implb (px_disconnected p || returned p) (px_cleaned p) && implb (px_cleaned p && early p) (px_disconnected p) &&
  implb (early p) (negb (px_ended p) && no_upstream p && negb (px_hijacked p) && negb (bool_decide (is_Some (px_reply p)))) &&
  implb (negb (px_hijacked p)) (no_upstream p) &&
  implb (bool_decide (is_Some (px_reply p))) (negb (px_hijacked p)) && implb (negb (bool_decide (px_piped p = []))) (px_hijacked p).
Lemma is_live_live p : is_live p = live p.
Proof. unfold is_live, live. by destruct (px_upstream p) as [[]|]. Qed.
(** Case analysis on what the definitions look at. *)
Ltac by_flags p :=
  let ph := fresh in
  destruct p as [? ph ? [[]|] ? ? ? ? ? [?|] [|? ?]];
  repeat match goal with b : bool |- _ => destruct b end; destruct ph; try done.
Lemma proxy_cleanup_ok p : px_ended p || live p = true → request_ok p = true → request_ok (cleanup p) = true.
Proof. by_flags p. Qed.
Lemma return_now_ok p : request_ok p = true → request_ok (return_now p) = true.
Proof. by_flags p. Qed.
Lemma disconnect_ok gone p : request_ok p = true → request_ok (disconnect gone p) = true.
Proof. by_flags p. Qed.
Lemma send_ok status p : early p = true → request_ok p = true → request_ok (sendBeforeHijack status p) = true.
Proof. by_flags p. Qed.
Lemma start_stream_ok p : px_phase p = Fetching → px_disconnected p = false → request_ok p = true → request_ok (start_stream p) = true.
Proof. by_flags p. Qed.
Lemma fetched_ok r p : px_phase p = Fetching → request_ok p = true → request_ok (fetched r p) = true.
Proof.
  intros Hph Hok. unfold fetched. destruct r as [u|].
  - destruct (px_disconnected p) eqn:Hd; [by apply return_now_ok|]. destruct (_ || _); [|by apply start_stream_ok]. by revert Hph Hd Hok; by_flags p.
  - destruct (_ && _); [apply send_ok; [unfold early; by rewrite Hph|done]|by apply return_now_ok].
Qed.
Lemma proxy_event_ok e p p' : proxy_event e p = Some p' → request_ok p = true → request_ok p' = true.
Proof.
  intros He Hok. destruct e as [r| |chunk| | | | | | |]; cbn [proxy_event] in He; rewrite ?is_live_live in He.
  - case_bool_decide; [|done]. injection He as <-. by apply fetched_ok.
  - destruct (px_phase p) eqn:Hph; try done. injection He as <-. apply send_ok; [unfold early; by rewrite Hph|done].
  - destruct (live p) eqn:Hl; [|done]. injection He as <-. revert Hl Hok. by_flags p.
  - destruct (live p) eqn:Hl; [|done]. injection He as <-. apply proxy_cleanup_ok; [by rewrite Hl, orb_true_r|done].
  - destruct (live p) eqn:Hl; [|done]. injection He as <-. apply proxy_cleanup_ok; [by rewrite Hl, orb_true_r|done].
  - injection He as <-. revert Hok. by_flags p.
  - injection He as <-. by apply disconnect_ok.
  - injection He as <-. by apply disconnect_ok.
  - destruct (px_ended p) eqn:Hen; [|done]. injection He as <-. apply proxy_cleanup_ok; [by rewrite Hen|done].
  - destruct (px_cleaned p); [|done]. destruct (px_phase p); simplify_eq; by apply return_now_ok.
Qed.
Lemma proxy_event_frame e p p' : proxy_event e p = Some p' → px_user p' = px_user p ∧ (px_cleaned p = true → px_cleaned p' = true).
Proof.
  assert (∀ q, px_user (cleanup q) = px_user q ∧ (px_cleaned q = true → px_cleaned (cleanup q) = true)) as Hc.
  { intros q. unfold cleanup. by destruct (px_cleaned q) eqn:?. }
  assert (∀ st q, px_user (sendBeforeHijack st q) = px_user q ∧ (px_cleaned q = true → px_cleaned (sendBeforeHijack st q) = true)) as Hs.
  { intros st q. unfold sendBeforeHijack. destruct (_ || _); [apply Hc|done]. }
  destruct e as [r| |chunk| | | | | | |]; cbn [proxy_event]; intros He.
  - case_bool_decide; [|done]. injection He as <-. unfold fetched. destruct r as [u|].
    + destruct (px_disconnected p); [apply Hc|]. by destruct (_ || _).
    + destruct (_ && _); [apply Hs|apply Hc].
  - destruct (px_phase p); simplify_eq. apply Hs.
  - destruct (is_live p); simplify_eq. done.
  - destruct (is_live p); simplify_eq. apply Hc.
  - destruct (is_live p); simplify_eq. apply Hc.
  - by simplify_eq.
  - injection He as <-. apply (Hc (mkProxied _ _ _ _ _ _ _ _ _ _ _)).
  - injection He as <-. apply (Hc (mkProxied _ _ _ _ _ _ _ _ _ _ _)).
  - destruct (px_ended p); simplify_eq. apply Hc.
  - destruct (px_cleaned p) eqn:Hcl; [|done]. destruct (px_phase p); simplify_eq; (split; [apply Hc|intros _; by apply (Hc p)]).
Qed.

(** ** The slots of the limit *)
Definition slot_of (p : Proxied) : string * bool := (px_user p, px_cleaned p).
Record server_ok (max : Z) (s : Server) : Prop := {
  so_limit : limiter_inv max (sv_limiter s);
  so_slots : lm_requests (sv_limiter s) = slot_of <$> sv_requests s;
  so_requests : Forall (λ p, request_ok p = true) (sv_requests s);
}.
Lemma release_requests k l u : lm_requests l !! k = Some (u, false) → lm_requests (release k l) = <[k := (u, true)]> (lm_requests l).
Proof. unfold release. by intros ->. Qed.
Lemma serve_ok max e s s' : (0 ≤ max)%Z → server_ok max s → serve max e s = Some s' → server_ok max s'.
Proof.
  intros Hmax [Hl Hs Hr] He. destruct e as [u|k e]; cbn [serve] in He.
  - injection He as <-. pose proof (limiter_step max (sv_limiter s) (OpAcquire u) Hmax Hl) as Hl'. cbn [limiter_op] in Hl'.
    destruct (tryAcquire max u (sv_limiter s)) as [l|] eqn:Ht; [|by constructor]. constructor; cbn [sv_limiter sv_requests]; [done| |].
    + unfold tryAcquire in Ht. destruct (_ <=? _)%Z; [done|]. injection Ht as <-. cbn [lm_requests]. by rewrite Hs, fmap_app.
    + apply Forall_app. split; [done|]. by repeat constructor.
  - destruct (sv_requests s !! k) as [p|] eqn:Hk; [|done]. cbn in He. destruct (proxy_event e p) as [p'|] eqn:Hp; [|done]. cbn in He. injection He as <-.
    destruct (proxy_event_frame e p p' Hp) as [Hu Hc].
    assert (lm_requests (sv_limiter s) !! k = Some (slot_of p)) as Hlk by (rewrite Hs, list_lookup_fmap; by rewrite Hk).
    constructor; cbn [sv_limiter sv_requests].
    + unfold settle. destruct (_ && _); [|done]. by apply (limiter_step max _ (OpRelease k)).
    + rewrite list_fmap_insert, <- Hs. unfold settle, slot_of in *. rewrite Hu. destruct (px_cleaned p') eqn:Hc', (px_cleaned p) eqn:Hc0; cbn [andb negb].
      * by rewrite list_insert_id.
      * by apply release_requests.
      * by specialize (Hc eq_refl).
      * by rewrite list_insert_id.
    + apply Forall_insert; [done|]. eapply proxy_event_ok; [exact Hp|]. rewrite Forall_lookup in Hr. by apply (Hr k).
Qed.
Lemma reachable_ok max s : (0 ≤ max)%Z → reachable max s → server_ok max s.
Proof.
  intros Hmax. induction 1 as [|e s s' _ IH He]; [|by eapply serve_ok].
  constructor; [intros u; by split|done|constructor].
Qed.
Definition open_requests (u : string) (s : Server) : Z := Z.of_nat (length (List.filter (λ p, bool_decide (px_user p = u) && negb (px_cleaned p)) (sv_requests s))).
Lemma held_open u s : lm_requests (sv_limiter s) = slot_of <$> sv_requests s → held u (sv_limiter s) = open_requests u s.
Proof.
  intros Hs. unfold held, open_requests. rewrite Hs. clear Hs. f_equal. induction (sv_requests s) as [|p ps IH]; [done|]. cbn [fmap list_fmap List.filter].
  destruct (decide (px_user p = u)) as [Hu|Hu], (px_cleaned p) eqn:Hc; cbn [negb].
  - rewrite bool_decide_eq_false_2 by (unfold slot_of; congruence). by rewrite andb_false_r.
  - rewrite (bool_decide_eq_true_2 (slot_of p = _)) by (unfold slot_of; congruence). rewrite bool_decide_eq_true_2 by done. cbn [andb length]. by f_equal.
  - rewrite bool_decide_eq_false_2 by (unfold slot_of; congruence). by rewrite andb_false_r.
  - rewrite bool_decide_eq_false_2 by (unfold slot_of; congruence). by rewrite bool_decide_eq_false_2.
Qed.

(** C33: no inference slot is lost and none is given twice.  However the events of any number of
    requests interleave - answers, streams that end or fail, clients that leave before, during or
    after the answer - the limiter counts for each user exactly the requests that have not been
    cleaned up, never more than the limit; a request whose client is gone or whose handler has
    returned is cleaned up; and a cleaned-up request has its upstream call aborted, no live
    upstream stream, and its response ended or its socket destroyed.  No request answers both
    with a JSON reply and with a stream. *)
Theorem inference_slots_exact max s :
  (0 ≤ max)%Z → reachable max s →
  (∀ u, active_of u (sv_limiter s) = open_requests u s ∧ (open_requests u s ≤ max)%Z) ∧
  ∀ p, p ∈ sv_requests s →
    (px_disconnected p = true ∨ px_phase p = Returned → px_cleaned p = true) ∧
    (px_cleaned p = true → px_aborted p = true ∧ px_upstream p ≠ Some true ∧ (px_hijacked p = true → px_ended p = true ∨ px_destroyed p = true)) ∧
    (px_reply p = None ∨ px_piped p = []).
Proof.
  intros Hmax Hs. destruct (reachable_ok max s Hmax Hs) as [Hl Hslots Hr]. split.
  - intros u. rewrite <- held_open by done. destruct (Hl u). lia.
  - intros p Hp. rewrite Forall_forall in Hr. specialize (Hr p Hp). revert Hr. clear.
    by_flags p; intros _; split_and!; intros; destruct_or?; naive_solver.
Qed.

(** ** Concrete runs *)
Definition serve_all (max : Z) (es : list ServerEvent) (s : Server) : option Server := foldl (λ o e, o ≫= serve max e) (Some s) es.
Lemma serve_all_reachable max es s s' : reachable max s → serve_all max es s = Some s' → reachable max s'.
Proof.
  unfold serve_all. revert s. induction es as [|e es IH]; intros s Hr He; cbn [foldl] in He; [by injection He as <-|].
  change (Some s ≫= serve max e) with (serve max e s) in He. destruct (serve max e s) as [s1|] eqn:Hs.
  - apply (IH s1); [by eapply reach_step|done].
  - exfalso. clear -He. induction es; [done|]. by apply IHes.
Qed.
(** A client that leaves in the middle of a stream, and asks again: the second request waits
    for the slot, the third has it. *)
Definition leaving_client : list ServerEvent :=
  [Arrive "ann"; At 0 (EFetched (Some (mkUpstream 200 true true))); At 0 (EData "data: x"); Arrive "ann"; At 0 EClose; At 0 EResume; Arrive "ann"].
Lemma inference_slots_exact_witness :
  ∃ s, serve_all 1 leaving_client idle_server = Some s ∧ length (sv_requests s) = 2%nat ∧ active_of "ann" (sv_limiter s) = 1%Z ∧ (open_requests "ann" s ≤ 1)%Z.
Proof.
  destruct (serve_all 1 leaving_client idle_server) as [s|] eqn:Hs; [|by vm_compute in Hs]. exists s. split; [done|].
  assert (reachable 1 s) as Hr by (by eapply serve_all_reachable; [constructor|exact Hs]).
  destruct (inference_slots_exact 1 s ltac:(lia) Hr) as [Hu _]. destruct (Hu "ann") as [_ Hle].
  split_and!; [by vm_compute in Hs; injection Hs as <-|by vm_compute in Hs; injection Hs as <-|done].
Defined.
(** The client cannot tell a stream that failed from one that ended: both end the response in
    the same way. *)
Lemma failure_ends_like_success p : proxy_event EUpstreamError p = proxy_event EUpstreamEnd p.
Proof. done. Qed.
