(* ===== verification/DashboardFallback.v ===== *)
(** * What the dashboard shows when the control plane is down (dashboard/server/clients/redis.ts)

    The dashboard server reads models, workers and the cluster status from the control plane,
    and when that fails, from the records the control plane keeps in Redis.  For that it has its
    own copy of the rules that turn records into a view.  This file models that copy, and the
    theorems compare it with the original ([Lifecycle], [WorkerPool]).  Redis is given by the
    keys a scan reports and the text stored at a key; JSON is an argument. *)
From stdpp Require Import base tactics list strings gmap sets.
From Stdlib Require Import ZArith Lia Ascii.
From S2P Require Import Prelude Js Types Errors MemoryBudget Store ModelName WorkerPool Lifecycle Reconciliation Views.
Open Scope Z_scope.

(** ** Workers *)
Section workers.
Context `{!JsDate}.
Definition resolveHeartbeatStatus (lastHeartbeatAt : option string) (heartbeatTimeoutSecs now : Z) : WorkerStatus :=
  if negb (truthy_str lastHeartbeatAt) then WorkerStatus.OFFLINE else
  match getTime (default "" lastHeartbeatAt) with
  | None => WorkerStatus.OFFLINE
  | Some hb =>
      let ageMs := now - hb in
      let timeoutMs := heartbeatTimeoutSecs * 1000 in
      if timeoutMs <=? ageMs then WorkerStatus.OFFLINE
      else if timeoutMs <=? 2 * ageMs then WorkerStatus.DEGRADED
      else WorkerStatus.ONLINE
  end.
Definition HEARTBEAT_TIMEOUT_SECS : Z := 30.

Record FallbackWorker := mkFallbackWorker {
  fw_workerId : string;
  fw_status : WorkerStatus;
  fw_devices : list json;
  fw_modelCount : option jsnum;
  fw_lastHeartbeatAt : option string;
}.
Context (JSON_parse : string → option json).
(** [typeof parsed === 'object'], not [null]: the fields by name (an array has none of these). *)
Definition fields_of (v : json) : option (list (string * json)) :=
  match v with JObj o => Some o | JArr _ => Some [] | _ => None end.
Definition read_fields_of (raw : option string) : option (list (string * json)) := (raw ≫= JSON_parse) ≫= fields_of.
Definition status_of (o : list (string * json)) : WorkerStatus :=
  default WorkerStatus.OFFLINE (s ← is_string (obj_get o "status");
    List.find (λ w, bool_decide (worker_status_str w = s)) all_worker_statuses).
Definition devices_of (o : list (string * json)) : list json := match obj_get o "devices" with Some (JArr ds) => ds | _ => [] end.
Definition number_of (v : option json) : option jsnum := match v with Some (JNum n) => Some n | _ => None end.
(** One reply to the keys [worker:*:detail]. *)
Definition detail_worker (raw : option string) : option FallbackWorker :=
  o ← read_fields_of raw; w ← is_string (obj_get o "workerId");
  Some (mkFallbackWorker w (status_of o) (devices_of o) (number_of (obj_get o "modelCount")) (is_string (obj_get o "lastHeartbeatAt"))).
Definition listWorkersFromDetailKeys (replies : list (option string)) : list FallbackWorker := omap detail_worker replies.

(** The ids in the keys [workers:*:info], and one such worker with its two replies. *)
Definition info_id (prefix key : string) : option string :=
  let seg := prefix +:+ ":workers:" in
  if starts_with seg key && ends_with ":info" key then
    let w := str_take (str_length key - str_length ":info" - str_length seg) (str_drop (str_length seg) key) in
    if decide (w = "") then None else Some w
  else None.
Definition info_worker (now : Z) (workerId : string) (info hb : option string) : option FallbackWorker :=
  o ← read_fields_of info;
  Some (mkFallbackWorker workerId (resolveHeartbeatStatus hb HEARTBEAT_TIMEOUT_SECS now) (devices_of o) None (if truthy_str hb then hb else None)).
(** The replies are taken by position: to the info keys first, to the heartbeats after them. *)
Definition listWorkersFromInfoKeys (prefix : string) (now : Z) (get : string → option string) (infoKeys : list string) : list FallbackWorker :=
  let workerIds := omap (info_id prefix) infoKeys in
  let infos := get <$> infoKeys in
  omap (λ iw : nat * string, info_worker now iw.2 (default None (infos !! iw.1)) (get (prefix +:+ ":workers:" +:+ iw.2 +:+ ":heartbeat")))
    (imap pair workerIds).
(** Both keys are scanned for; the detail snapshots are preferred. *)
Definition listWorkers `{!RedisScan} (prefix : string) (now : Z) (keys : list string) (get : string → option string) (n : nat) : list FallbackWorker :=
  match scan_keys n (prefix +:+ ":worker:*:detail") keys with
  | [] => listWorkersFromInfoKeys prefix now get (scan_keys (S n) (prefix +:+ ":workers:*:info") keys)
  | detailKeys => listWorkersFromDetailKeys (get <$> detailKeys)
  end.
(** The snapshots of the cluster's memory and of one worker are passed on as they are stored. *)
Definition getClusterMemory (prefix : string) (get : string → option string) : option (list (string * json)) :=
  read_fields_of (get (prefix +:+ ":cluster:memory")).
Definition getWorkerDetail (prefix id : string) (get : string → option string) : option (list (string * json)) :=
  o ← read_fields_of (get (prefix +:+ ":worker:" +:+ id +:+ ":detail")); _ ← is_string (obj_get o "workerId"); Some o.
End workers.

(** ** Models *)
Definition AGGREGATE_PRECEDENCE : list ModelLifecycleState :=
  [ModelLifecycleState.ACTIVE; ModelLifecycleState.STARTING; ModelLifecycleState.DRAINING;
   ModelLifecycleState.SLEEPING; ModelLifecycleState.PENDING; ModelLifecycleState.STOPPING;
   ModelLifecycleState.ERROR].
Definition aggregate (states : list ModelLifecycleState) : ModelLifecycleState :=
  let present := List.filter (λ s, negb (bool_decide (s = ModelLifecycleState.STOPPED))) states in
  default ModelLifecycleState.ERROR (List.find (λ c, bool_decide (c ∈ present)) AGGREGATE_PRECEDENCE).
Definition parseInstanceKey (prefix key : string) : option (string * string) :=
  let modelsPrefix := prefix +:+ ":models:" in
  if negb (starts_with modelsPrefix key) then None else
  let rest := str_drop (str_length modelsPrefix) key in
  sep ← last_index colon rest; Some (str_take sep rest, str_drop (sep + 1) rest).
Record FallbackModel := mkFallbackModel {
  fm_modelName : string;
  fm_state : ModelLifecycleState;
  fm_instanceCount : nat;
  fm_createdAt : string;
  fm_workerId : option string;
  fm_lastInferenceAt : option string;
}.
Definition blob_state (o : list (string * json)) : ModelLifecycleState :=
  default ModelLifecycleState.ERROR (s ← is_string (obj_get o "state"); List.find (λ st, bool_decide (lifecycle_str st = s)) all_lifecycle_states).
Section models.
Context (JSON_parse : string → option json) (epoch : string).
Definition model_view (name : string) (blobs : list (list (string * json))) (inferenceRaw : option string) : option FallbackModel :=
  match blobs with
  | [] => None
  | b :: bs =>
      let last := match inferenceRaw with Some r => Some r | None => head (omap (λ b, is_string (obj_get b "lastInferenceAt")) blobs) end in
      Some (mkFallbackModel name (aggregate (blob_state <$> blobs)) (length blobs) (default epoch (is_string (obj_get b "stateChangedAt")))
              (if bs then is_string (obj_get b "workerId") else None)
              (if truthy_str last then last else None))
  end.
Context `{!RedisScan} (prefix : string) (keys : list string) (get : string → option string).
(** [getModel], on one state of Redis; [n] distinguishes the scans. *)
Definition getModel (n : nat) (name : string) : option FallbackModel :=
  model_view name (omap (λ k, read_fields_of JSON_parse (get k)) (scan_keys n (redisKey prefix ["models"; name; "*"]) keys))
    (get (redisKey prefix ["inference"; "last"; name])).
Definition getModelNames (n : nat) : list string :=
  remove_dups (fst <$> omap (parseInstanceKey prefix) (scan_keys n (redisKey prefix ["models"; "*"]) keys)).
Definition listModels (n : nat) : list FallbackModel := omap (getModel (S n)) (getModelNames n).
End models.

(** [getClusterStatus]: the counts, and the workers. *)
Definition count_model (c : ModelCounts) (m : FallbackModel) : ModelCounts :=
  let '(mkCounts t a s st e o) := c in
  match fm_state m with
  | ModelLifecycleState.ACTIVE => mkCounts t (S a) s st e o
  | ModelLifecycleState.SLEEPING => mkCounts t a (S s) st e o
  | ModelLifecycleState.STARTING => mkCounts t a s (S st) e o
  | ModelLifecycleState.ERROR => mkCounts t a s st (S e) o
  | _ => mkCounts t a s st e (S o)
  end.
Definition fallback_counts (models : list FallbackModel) : ModelCounts := foldl count_model (mkCounts (length models) 0 0 0 0 0) models.
Definition workers_online (workers : list FallbackWorker) : nat := length (List.filter (λ w, bool_decide (fw_status w = WorkerStatus.ONLINE)) workers).

(** ** The records of the control plane, as texts *)
Definition opt_str (o : option string) : json := match o with Some s => JStr s | None => JNull end.
Definition opt_num (o : option Z) : json := match o with Some z => JNum (NumInt z) | None => JNull end.
(** [JSON.stringify(state)] of an [InstanceState]: the fields the reader may look at. *)
Definition instance_blob (s : InstanceState) : list (string * json) :=
  [("instanceId", JStr (instanceId s)); ("modelName", JStr (modelName s)); ("state", JStr (lifecycle_str (state s)));
   ("workerId", opt_str (workerId s)); ("runnerHost", opt_str (runnerHost s)); ("runnerPort", opt_num (runnerPort s));
   ("runnerId", opt_str (runnerId s)); ("lastInferenceAt", opt_str (lastInferenceAt s)); ("stateChangedAt", JStr (stateChangedAt s));
   ("errorMessage", opt_str (errorMessage s))].
Lemma blob_state_of s : blob_state (instance_blob s) = state s.
Proof. destruct s as [? ? [] ? ? ? ? ? ? ? ? ? ? ?]; by vm_compute. Qed.

Lemma parse_instance_key prefix name id : has_char colon id = false → parseInstanceKey prefix (instanceStateKey prefix name id) = Some (name, id).
Proof.
  intros Hid. rewrite instanceStateKey_unfold. unfold parseInstanceKey. rewrite starts_with_app. cbn [negb]. rewrite str_drop_app, last_index_app by done.
  cbn [mbind option_bind]. f_equal. f_equal; [apply str_take_app|].
  replace (name +:+ String colon id) with ((name +:+ String colon "") +:+ id) by (by rewrite str_app_assoc).
  replace (str_length name + 1)%nat with (str_length (name +:+ String colon "")) by (by rewrite str_length_app). apply str_drop_app.
Qed.

(** ** The two rules for the state of a model *)
Lemma find_ext {A} (p q : A → bool) l : (∀ x, p x = q x) → List.find p l = List.find q l.
Proof. intros Hpq. induction l as [|x l IH]; [done|]. simpl. by rewrite Hpq, IH. Qed.
Lemma elem_of_present s states : s ∈ List.filter (λ s, negb (bool_decide (s = ModelLifecycleState.STOPPED))) states ↔ s ∈ states ∧ s ≠ ModelLifecycleState.STOPPED.
Proof. rewrite !list_elem_of_In, filter_In, negb_true_iff, bool_decide_eq_false. done. Qed.
Lemma aggregate_ext states states' : (∀ s, s ∈ states ↔ s ∈ states') → aggregate states = aggregate states'.
Proof. intros He. unfold aggregate. f_equal. apply find_ext. intros c. apply bool_decide_ext. by rewrite !elem_of_present, He. Qed.
(** The copy agrees with the original, but for a model with nothing but stopped instances. *)
Lemma aggregate_derive instances :
  aggregate (state <$> instances) =
  if decide (deriveAggregateState instances = ModelLifecycleState.STOPPED) then ModelLifecycleState.ERROR else deriveAggregateState instances.
Proof.
  rewrite deriveAggregateState_live. unfold aggregate, live_states.
  destruct (List.filter _ _) as [|s ss] eqn:E; [by vm_compute|].
  destruct (List.find _ AGGREGATE_PRECEDENCE) as [c|] eqn:Hf.
  - assert (c ≠ ModelLifecycleState.STOPPED) as Hc. { intros ->. apply List.find_some in Hf as [Hin _]. by repeat destruct Hin as [Hin|Hin]. }
    change AGGREGATE_STATE_PRECEDENCE with AGGREGATE_PRECEDENCE. rewrite Hf. simpl. by rewrite decide_False.
  - change AGGREGATE_STATE_PRECEDENCE with AGGREGATE_PRECEDENCE. by rewrite Hf.
Qed.

(** ** The view of a state of Redis *)
Section view.
Context `{!RedisScan} (JSON_parse : string → option json) (epoch prefix : string) (keys : list string) (get : string → option string) (d : RedisDb).
(** Redis holds the instance records of [d] as JSON, and no other keys with their prefix. *)
Record holds_instances : Prop := {
  hi_wf : instances_wf prefix d;
  hi_ids k s : db_instances d !! k = Some s → has_char colon (instanceId s) = false;
  hi_keys k : starts_with (prefix +:+ ":models:") k = true → k ∈ keys ↔ is_Some (db_instances d !! k);
  hi_text k s : db_instances d !! k = Some s → ∃ raw, get k = Some raw ∧ JSON_parse raw = Some (JObj (instance_blob s));
}.
Context (Hprefix : glob_plain prefix = true) (Hh : holds_instances).
Definition stored (name : string) (s : InstanceState) : Prop := modelName s = name ∧ ∃ k, db_instances d !! k = Some s.

Lemma instance_key_prefix name id : starts_with (prefix +:+ ":models:") (instanceStateKey prefix name id) = true.
Proof. rewrite instanceStateKey_unfold. apply starts_with_app. Qed.
Lemma getModelNames_spec n name : name ∈ getModelNames prefix keys n ↔ ∃ s, stored name s.
Proof.
  unfold getModelNames. rewrite elem_of_remove_dups, list_elem_of_fmap.
  assert (∀ k, glob_match (redisKey prefix ["models"; "*"]) k = true ↔ starts_with (prefix +:+ ":models:") k = true) as Hm.
  { intros k. rewrite starts_with_spec. replace (redisKey prefix ["models"; "*"]) with ((prefix +:+ ":models:") +:+ "*") by (unfold redisKey; simpl; by rewrite str_app_assoc).
    apply glob_match_star. by rewrite glob_plain_app, Hprefix. }
  split.
  - intros ([nm id] & -> & (k & [Hk Hp%Hm]%scan_keys_spec & Hparse)%list_elem_of_omap). apply (hi_keys Hh) in Hk as [s Hs]; [|done].
    destruct (hi_wf Hh _ _ Hs) as [-> _]. rewrite parse_instance_key in Hparse by (by eapply hi_ids). injection Hparse as <- <-. exists s. split; [done|by eexists].
  - intros (s & Hn & k & Hk). destruct (hi_wf Hh _ _ Hk) as [-> _]. exists (modelName s, instanceId s). split; [done|]. apply list_elem_of_omap.
    exists (instanceStateKey prefix (modelName s) (instanceId s)). split; [|by rewrite parse_instance_key by (by eapply hi_ids)].
    apply scan_keys_spec. split; [|apply Hm, instance_key_prefix]. apply (hi_keys Hh); [apply instance_key_prefix|by eexists].
Qed.
Lemma model_blobs n name b : MODEL_NAME_PATTERN name = true →
  b ∈ omap (λ k, read_fields_of JSON_parse (get k)) (scan_keys n (redisKey prefix ["models"; name; "*"]) keys) ↔ ∃ s, stored name s ∧ b = instance_blob s.
Proof.
  intros Hv. rewrite list_elem_of_omap. setoid_rewrite scan_keys_spec. setoid_rewrite model_pattern_match; [|done|by apply valid_name_plain].
  assert (∀ k s, db_instances d !! k = Some s → read_fields_of JSON_parse (get k) = Some (instance_blob s)) as Hread.
  { intros k s Hs. destruct (hi_text Hh _ _ Hs) as (raw & Hg & Hp). unfold read_fields_of. rewrite Hg. simpl. by rewrite Hp. }
  split.
  - intros (k & [Hk [id ->]] & Hb). apply (hi_keys Hh) in Hk as [s Hs]; [|apply instance_key_prefix]. rewrite (Hread _ _ Hs) in Hb. injection Hb as <-.
    destruct (hi_wf Hh _ _ Hs) as [Heq Hvs]. apply instanceStateKey_inj in Heq as [-> _]; [|by apply valid_name_no_colon..]. exists s. split; [|done]. split; [done|by eexists].
  - intros (s & [<- [k Hk]] & ->). destruct (hi_wf Hh _ _ Hk) as [-> _]. eexists. split; [split|by apply Hread]; [|by eexists].
    apply (hi_keys Hh); [apply instance_key_prefix|by eexists].
Qed.
Lemma getModel_state n name : MODEL_NAME_PATTERN name = true →
  match getModel JSON_parse epoch prefix keys get n name with
  | None => ¬ ∃ s, stored name s
  | Some m => fm_modelName m = name ∧ (∃ s, stored name s) ∧ ∀ instances, (∀ s, s ∈ instances ↔ stored name s) → fm_state m = aggregate (state <$> instances)
  end.
Proof.
  intros Hv. unfold getModel, model_view. pose proof (model_blobs n name) as Hb. destruct (omap _ _) as [|b bs].
  - intros [s Hs]. apply (not_elem_of_nil (instance_blob s)). apply Hb; [done|by exists s].
  - split; [done|]. split; [destruct (proj1 (Hb b Hv)) as (s & Hs & _); [left|by exists s]|]. intros instances Hi. cbn [fm_state]. apply aggregate_ext. intros st.
    rewrite !list_elem_of_fmap. split.
    + intros (b' & -> & (s & Hs & ->)%Hb); [|done]. exists s. split; [apply blob_state_of|by apply Hi].
    + intros (s & -> & Hs%Hi). exists (instance_blob s). split; [by rewrite blob_state_of|]. apply Hb; [done|by exists s].
Qed.
(** The fallback view tells the truth about the models.  From a Redis that holds the
    instance records of the control plane, whatever order and repetitions its scans have: the
    dashboard lists each model that has an instance, and no other, once; and shows it in the
    state the control plane itself derives from its instances, except that a model all of whose
    instances are stopped is shown as failed. *)
Theorem fallback_models_agree n :
  (∀ name, name ∈ fm_modelName <$> listModels JSON_parse epoch prefix keys get n ↔ ∃ s, stored name s) ∧
  NoDup (fm_modelName <$> listModels JSON_parse epoch prefix keys get n) ∧
  ∀ m instances, m ∈ listModels JSON_parse epoch prefix keys get n → (∀ s, s ∈ instances ↔ stored (fm_modelName m) s) →
    fm_state m = if decide (deriveAggregateState instances = ModelLifecycleState.STOPPED) then ModelLifecycleState.ERROR else deriveAggregateState instances.
Proof.
  assert (∀ name, name ∈ getModelNames prefix keys n → MODEL_NAME_PATTERN name = true) as Hvalid.
  { intros name (s & <- & k & Hk)%getModelNames_spec. by destruct (hi_wf Hh _ _ Hk). }
  assert (fm_modelName <$> listModels JSON_parse epoch prefix keys get n = getModelNames prefix keys n) as Hnames.
  { unfold listModels. assert (∀ name, name ∈ getModelNames prefix keys n → ∃ s, stored name s) as Hst by (intros nm Hnm; by apply getModelNames_spec in Hnm).
    revert Hvalid Hst. generalize (getModelNames prefix keys n) as names. induction names as [|name names IH]; intros Hvalid Hst; [done|]. cbn [omap list_omap].
    pose proof (getModel_state (S n) name (Hvalid name ltac:(left))) as Hm. destruct (getModel _ _ _ _ _ _ name) as [m|]; [|destruct Hm; apply Hst; left].
    destruct Hm as (Hname & _). rewrite fmap_cons, Hname. f_equal. apply IH; intros; [apply Hvalid|apply Hst]; by right. }
  rewrite Hnames. split_and!; [apply getModelNames_spec|apply NoDup_remove_dups|].
  intros m instances Hm Hi. rewrite <- aggregate_derive. apply list_elem_of_omap in Hm as (name & Hin & Hget).
  pose proof (getModel_state (S n) name (Hvalid name Hin)) as Hs. rewrite Hget in Hs. destruct Hs as (<- & _ & Hs). by apply Hs.
Qed.
End view.

(** ** Where the view goes wrong *)
Definition sample_instance (id : string) (st : ModelLifecycleState) : InstanceState :=
  mkInstance id "m" st None (Some "w") None None None None None None "t" None false.
Definition sample_key (id : string) : string := instanceStateKey "p" "m" id.
Definition sample_parse (raw : string) : option json :=
  if decide (raw = "a") then Some (JObj (instance_blob (sample_instance "a" ModelLifecycleState.ACTIVE)))
  else if decide (raw = "b") then Some (JObj (instance_blob (sample_instance "b" ModelLifecycleState.STOPPED))) else None.
Definition sample_get (k : string) : option string := if decide (k = sample_key "a") then Some "a" else if decide (k = sample_key "b") then Some "b" else None.
(** A model with one stopped instance: stopped for the control plane, failed for the view. *)
Theorem stopped_model_shown_failed :
  fm_state <$> getModel sample_parse "" "p" [sample_key "b"] sample_get 0 "m" = Some ModelLifecycleState.ERROR ∧
  deriveAggregateState [sample_instance "b" ModelLifecycleState.STOPPED] = ModelLifecycleState.STOPPED.
Proof. by vm_compute. Qed.
(** The fallback counts models where the control plane counts instances. *)
Theorem fallback_counts_differ summary :
  mc_total (fallback_counts (listModels sample_parse "" "p" [sample_key "a"; sample_key "b"] sample_get 0)) = 1%nat ∧
  mc_total (cst_modelCounts (cluster_status true [] [sample_instance "a" ModelLifecycleState.ACTIVE; sample_instance "b" ModelLifecycleState.STOPPED] summary)) = 2%nat.
Proof. split; vm_compute; reflexivity. Qed.

(** A scan may report a key twice; the view then counts its instance twice, and no longer says
    where the model runs. *)
#[local] Instance twice_scan : RedisScan.
Proof.
  refine {| glob_match := star_match; scan_keys := λ _ p ks, List.filter (star_match p) ks ++ List.filter (star_match p) ks;
            glob_match_star := star_glob_1; glob_match_star_star := star_glob_2 |}.
  intros _ p ks k. rewrite elem_of_app, list_elem_of_In, filter_In, list_elem_of_In. tauto.
Defined.
Theorem repeated_key_counted_twice :
  getModel (H := twice_scan) sample_parse "" "p" [sample_key "a"] sample_get 0 "m" = Some (mkFallbackModel "m" ModelLifecycleState.ACTIVE 2 "t" None None) ∧
  getModel (H := star_scan) sample_parse "" "p" [sample_key "a"] sample_get 0 "m" = Some (mkFallbackModel "m" ModelLifecycleState.ACTIVE 1 "t" (Some "w") None).
Proof. by vm_compute. Qed.
(** The name in the request is used as part of a pattern: a model is found under a name that is
    no model's. *)
Theorem pattern_name_finds_model :
  fm_modelName <$> getModel (H := star_scan) sample_parse "" "p" [sample_key "a"] sample_get 0 "*" = Some "*" ∧ MODEL_NAME_PATTERN "*" = false.
Proof. by vm_compute. Qed.

Lemma fallback_models_agree_witness :
  fm_modelName <$> listModels (H := star_scan) sample_parse "" "p" [sample_key "a"; sample_key "b"] sample_get 0 = ["m"] ∧
  ∀ m, m ∈ listModels (H := star_scan) sample_parse "" "p" [sample_key "a"; sample_key "b"] sample_get 0 → fm_state m = ModelLifecycleState.ACTIVE.
Proof.
  split; [by vm_compute|]. intros m Hm.
  pose (d := set_instances (λ _, <[sample_key "a" := sample_instance "a" ModelLifecycleState.ACTIVE]> {[sample_key "b" := sample_instance "b" ModelLifecycleState.STOPPED]}) empty_db).
  assert (∀ k s, db_instances d !! k = Some s → k = sample_key "a" ∧ s = sample_instance "a" ModelLifecycleState.ACTIVE ∨ k = sample_key "b" ∧ s = sample_instance "b" ModelLifecycleState.STOPPED) as Hd.
  { intros k s Hs. cbn [db_instances set_instances d] in Hs. apply lookup_insert_Some in Hs as [[<- <-]|[_ [<- <-]%lookup_singleton_Some]]; auto. }
  assert (holds_instances sample_parse "p" [sample_key "a"; sample_key "b"] sample_get d) as Hh.
  { split.
    - intros k s [[-> ->]|[-> ->]]%Hd; by vm_compute.
    - intros k s [[-> ->]|[-> ->]]%Hd; by vm_compute.
    - intros k _. split.
      + intros [-> |[-> |[]%elem_of_nil]%elem_of_cons]%elem_of_cons; vm_compute; by eexists.
      + intros [s [[-> _]|[-> _]]%Hd]; [left|right; left].
    - intros k s [[-> ->]|[-> ->]]%Hd; eexists; split; by vm_compute. }
  destruct (fallback_models_agree (H := star_scan) sample_parse "" "p" [sample_key "a"; sample_key "b"] sample_get d eq_refl Hh 0) as (_ & _ & Hs).
  rewrite (Hs m [sample_instance "a" ModelLifecycleState.ACTIVE; sample_instance "b" ModelLifecycleState.STOPPED] Hm); [by vm_compute|].
  assert (fm_modelName m = "m") as ->. { apply list_elem_of_In in Hm. vm_compute in Hm. destruct Hm as [<- |[]]. done. }
  intros s. split.
  - intros [-> |[-> |[]%elem_of_nil]%elem_of_cons]%elem_of_cons; (split; [done|]); [exists (sample_key "a")|exists (sample_key "b")]; by vm_compute.
  - intros [_ [k [[_ ->]|[_ ->]]%Hd]]; [left|right; left].
Defined.
