(* ===== verification/EventStream.v ===== *)
(** * Live events (dashboard/server/routes/events.ts, dashboard/src/hooks/useEventStream.ts)

    The control plane publishes its changes in Redis ([RoutingMap], [Reconciliation],
    [Notifications]); the dashboard server relays them as server-sent events, one Redis
    subscription for each browser; the browser marks what it shows as out of date.  The text of
    a message is represented by its parsed value, [None] when it does not parse. *)
From stdpp Require Import base tactics list strings sets gmap.
From Stdlib Require Import ZArith Lia.
From S2P Require Import Prelude Js Types Store RoutingMap.

(** ** Events *)
Module ClusterEventType.
Inductive t :=
| MODEL_STATE_CHANGED | MODEL_DEPLOYED | MODEL_REMOVED | WORKER_JOINED | WORKER_LEFT | WORKER_MEMORY_UPDATED | EVICTION_TRIGGERED
| PLACEMENT_COMPLETED | NOTIFICATION | CATALOG_REFRESHED | CATALOG_IMPORT_STARTED | CATALOG_IMPORT_PROGRESS | CATALOG_IMPORT_COMPLETED
| CATALOG_IMPORT_FAILED | CATALOG_MODULE_REMOVED.
#[global] Instance t_eq_dec : EqDecision t.
Proof. solve_decision. Defined.
End ClusterEventType.
Notation ClusterEventType := ClusterEventType.t.
Record ClusterEvent := mkEvent {
  ev_type : ClusterEventType;
  ev_timestamp : string;
  ev_modelName : option string;
  ev_workerId : option string;
  ev_state : option ModelState;
  ev_message : option string;
  ev_endpoint : option RunnerEndpoint;   (** [data.endpoint] *)
  ev_data : option json;                 (** any other [data] *)
}.

(** ** events.ts *)
(** [${update.endpoint?.host}:${update.endpoint?.port}] *)
Definition endpoint_text (e : option RunnerEndpoint) : string :=
  match e with Some e => ep_host e +:+ ":" +:+ show_int (ep_port e) | None => "undefined:undefined" end.
Definition toClusterEvent (u : RoutingMapUpdate) : ClusterEvent :=
  let base type state message endpoint := mkEvent type (up_timestamp u) (Some (up_modelName u)) None state message endpoint None in
  match up_type u with
  | RoutingMapUpdateType.MODEL_STATE_CHANGED => base ClusterEventType.MODEL_STATE_CHANGED (up_state u) None None
  | RoutingMapUpdateType.MODEL_ADDED => base ClusterEventType.MODEL_DEPLOYED (up_state u) None None
  | RoutingMapUpdateType.MODEL_REMOVED => base ClusterEventType.MODEL_REMOVED None None None
  | RoutingMapUpdateType.ENDPOINT_ADDED =>
      base ClusterEventType.MODEL_STATE_CHANGED None (Some ("Endpoint added: " +:+ endpoint_text (up_endpoint u))) (up_endpoint u)
  | RoutingMapUpdateType.ENDPOINT_REMOVED =>
      base ClusterEventType.MODEL_STATE_CHANGED None (Some ("Endpoint removed: " +:+ endpoint_text (up_endpoint u))) (up_endpoint u)
  | RoutingMapUpdateType.ENDPOINT_UPDATED =>
      base ClusterEventType.MODEL_STATE_CHANGED None (Some ("Endpoint updated: " +:+ endpoint_text (up_endpoint u))) (up_endpoint u)
  end.
(** A message of the three channels, or of another one. *)
Inductive BusMessage :=
| OnRouting (u : option RoutingMapUpdate)
| OnCluster (e : option ClusterEvent)
| OnNotifications (n : option (option string * json))   (** its timestamp, and all of it *)
| OnOther.
Definition bus_event (now : string) (m : BusMessage) : option ClusterEvent :=
  match m with
  | OnRouting u => toClusterEvent <$> u
  | OnCluster e => e
  | OnNotifications n =>
      (λ '(ts, v), mkEvent ClusterEventType.NOTIFICATION (if truthy_str ts then default "" ts else now) None None None None None (Some v)) <$> n
  | OnOther => None
  end.

(** One connection.  [RBroken]: the handler failed behind [reply.hijack()]. *)
Inductive RelayPhase := RSubscribing | RSubscribed | ROpen | RRefused | RBroken | RClosed.
#[global] Instance RelayPhase_eq_dec : EqDecision RelayPhase.
Proof. solve_decision. Defined.
Inductive Frame := EventFrame (e : ClusterEvent) | PingFrame.
Record Relay := mkRelay { rl_phase : RelayPhase; rl_subscriber : bool; rl_frames : list Frame }.
Definition new_relay : Relay := mkRelay RSubscribing true [].
Inductive RelayEvent :=
| RMessage (now : string) (m : BusMessage)
| RSubscribe (ok : bool)          (** [await subscriber.subscribe(...)] answered *)
| RTakeOver                       (** the handler goes on behind it *)
| RPing
| RClose.                         (** [close] or [error] of the request *)
(** Behind the subscription: [writeHead] throws when something was already written. *)
Definition take_over (r : Relay) : Relay :=
  mkRelay (if bool_decide (rl_frames r = []) then ROpen else RBroken) (rl_subscriber r) (rl_frames r).
Definition relay (e : RelayEvent) (r : Relay) : option Relay :=
  match e, rl_phase r with
  | RMessage now m, (RSubscribed | ROpen | RBroken) =>
      Some (match bus_event now m with Some ev => mkRelay (rl_phase r) (rl_subscriber r) (rl_frames r ++ [EventFrame ev]) | None => r end)
  | RSubscribe true, RSubscribing => Some (mkRelay RSubscribed true (rl_frames r))
  | RSubscribe false, RSubscribing => Some (mkRelay RRefused false (rl_frames r))
  | RTakeOver, RSubscribed => Some (take_over r)
  | RPing, ROpen => Some (mkRelay ROpen (rl_subscriber r) (rl_frames r ++ [PingFrame]))
  | RClose, ROpen => Some (mkRelay RClosed false (rl_frames r))
  | RClose, _ => Some r
  | _, _ => None
  end.
Definition relay_all (es : list RelayEvent) : option Relay := foldl (λ o e, o ≫= relay e) (Some new_relay) es.

(** ** useEventStream.ts *)
Inductive ConnectionStatus := Connected | Reconnecting | Degraded.
#[global] Instance ConnectionStatus_eq_dec : EqDecision ConnectionStatus.
Proof. solve_decision. Defined.
Definition FAILURE_THRESHOLD : nat := 5.
Definition RECONNECT_INTERVAL_NORMAL : Z := 5000.
Definition RECONNECT_INTERVAL_DEGRADED : Z := 30000.
Definition MEMORY_THROTTLE_MS : Z := 1000.
Record Stream := mkLive {
  st_mounted : bool;
  st_source : bool;                 (** [eventSourceRef]: there is one *)
  st_opened : bool;                 (** and it is open *)
  st_reconnect : option Z;          (** the delay of the pending reconnect *)
  st_failures : nat;
  st_status : ConnectionStatus;
  st_events : list ClusterEvent;
  st_lastMemory : Z;                (** [lastMemoryInvalidationRef] *)
  st_memoryTimer : option (option Z);   (** [memoryThrottleTimerRef]: when the throttle timer is due, [Some None] once it has been cleared *)
  st_stale : list (Z * list string);   (** the calls of [invalidateQueries], latest first, with the time *)
}.
Definition unmounted : Stream := mkLive false false false None 0 Reconnecting [] 0 None [].
Inductive StreamAction :=
| Mount | Unmount
| SourceOpen | SourceError
| ReconnectDue
| SourceMessage (now : Z) (e : option ClusterEvent)   (** [None]: not JSON *)
| MemoryDue (now : Z).
Definition invalidate (now : Z) (keys : list (list string)) (s : Stream) : Stream :=
  mkLive (st_mounted s) (st_source s) (st_opened s) (st_reconnect s) (st_failures s) (st_status s) (st_events s) (st_lastMemory s) (st_memoryTimer s)
    (rev ((λ k, (now, k)) <$> keys) ++ st_stale s).
Definition invalidateMemory (now : Z) (s : Stream) : Stream :=
  let s1 := mkLive (st_mounted s) (st_source s) (st_opened s) (st_reconnect s) (st_failures s) (st_status s) (st_events s) now (st_memoryTimer s) (st_stale s) in
  invalidate now [["cluster"; "memory"]; ["workers"]] s1.
Definition set_memory_timer (t : option (option Z)) (s : Stream) : Stream :=
  mkLive (st_mounted s) (st_source s) (st_opened s) (st_reconnect s) (st_failures s) (st_status s) (st_events s) (st_lastMemory s) t (st_stale s).
Definition on_event (now : Z) (type : ClusterEventType) (s : Stream) : Stream :=
  match type with
  | ClusterEventType.MODEL_STATE_CHANGED | ClusterEventType.MODEL_DEPLOYED | ClusterEventType.MODEL_REMOVED => invalidate now [["models"]; ["cluster"]] s
  | ClusterEventType.EVICTION_TRIGGERED => invalidate now [["models"]; ["cluster"]; ["metrics"]] s
  | ClusterEventType.PLACEMENT_COMPLETED => invalidate now [["models"]; ["workers"]; ["cluster"]] s
  | ClusterEventType.WORKER_JOINED | ClusterEventType.WORKER_LEFT => invalidate now [["workers"]; ["cluster"]] s
  | ClusterEventType.WORKER_MEMORY_UPDATED =>
      let elapsed := (now - st_lastMemory s)%Z in
      if Z.leb MEMORY_THROTTLE_MS elapsed then invalidateMemory now s
      else match st_memoryTimer s with Some _ => s | None => set_memory_timer (Some (Some (now + (MEMORY_THROTTLE_MS - elapsed))%Z)) s end
  | ClusterEventType.CATALOG_REFRESHED | ClusterEventType.CATALOG_IMPORT_STARTED | ClusterEventType.CATALOG_IMPORT_PROGRESS
  | ClusterEventType.CATALOG_IMPORT_COMPLETED | ClusterEventType.CATALOG_IMPORT_FAILED | ClusterEventType.CATALOG_MODULE_REMOVED =>
      invalidate now [["catalog"]] s
  | ClusterEventType.NOTIFICATION => s
  end.
Definition onmessage (now : Z) (e : option ClusterEvent) (s : Stream) : Stream :=
  match e with
  | None => s
  | Some e =>
      on_event now (ev_type e)
        (mkLive (st_mounted s) (st_source s) (st_opened s) (st_reconnect s) (st_failures s) (st_status s) (take 100 (e :: st_events s)) (st_lastMemory s)
           (st_memoryTimer s) (st_stale s))
  end.
Definition connect (s : Stream) : Stream :=
  mkLive (st_mounted s) true false (st_reconnect s) (st_failures s) (st_status s) (st_events s) (st_lastMemory s) (st_memoryTimer s) (st_stale s).
Definition onerror (s : Stream) : Stream :=
  let failures := S (st_failures s) in
  let degraded := Nat.leb FAILURE_THRESHOLD failures in
  mkLive (st_mounted s) false false (Some (if degraded then RECONNECT_INTERVAL_DEGRADED else RECONNECT_INTERVAL_NORMAL)) failures
    (if degraded then Degraded else Reconnecting) (st_events s) (st_lastMemory s) (st_memoryTimer s) (st_stale s).
(** [None]: the action cannot happen now; a timer is not early. *)
Definition stream (a : StreamAction) (s : Stream) : option Stream :=
  match a with
  | Mount => if st_mounted s then None else Some (connect (mkLive true false false None (st_failures s) (st_status s) (st_events s) (st_lastMemory s) (st_memoryTimer s) (st_stale s)))
  | Unmount => if st_mounted s then Some (mkLive false false false None (st_failures s) (st_status s) (st_events s) (st_lastMemory s) ((λ _, None) <$> st_memoryTimer s) (st_stale s)) else None
  | SourceOpen =>
      if st_source s then
        Some (mkLive (st_mounted s) true true (st_reconnect s) 0 Connected (st_events s) (st_lastMemory s) (st_memoryTimer s) (st_stale s))
      else None
  | SourceError => if st_source s then Some (onerror s) else None
  | ReconnectDue =>
      match st_reconnect s with
      | Some _ => Some (connect (mkLive (st_mounted s) (st_source s) (st_opened s) None (st_failures s) (st_status s) (st_events s) (st_lastMemory s) (st_memoryTimer s) (st_stale s)))
      | None => None
      end
  | SourceMessage now e => if st_opened s then Some (onmessage now e s) else None
  | MemoryDue now =>
      match st_memoryTimer s with
      | Some (Some due) => if Z.leb due now then Some (invalidateMemory now (set_memory_timer None s)) else None
      | _ => None
      end
  end.

(** ** The relay passes on what it hears *)
Definition frame_event (f : Frame) : option ClusterEvent := match f with EventFrame e => Some e | PingFrame => None end.
Definition heard (e : RelayEvent) : option ClusterEvent := match e with RMessage now m => bus_event now m | _ => None end.
Lemma relay_step_exact e r r' : relay e r = Some r' →
  omap frame_event (rl_frames r') = omap frame_event (rl_frames r) ++ option_list (heard e) ∧
  ((rl_subscriber r = false ↔ rl_phase r = RClosed ∨ rl_phase r = RRefused) → (rl_subscriber r' = false ↔ rl_phase r' = RClosed ∨ rl_phase r' = RRefused)).
Proof.
  destruct r as [ph sub fs]. destruct e as [now m|[]| | |]; cbn [relay rl_phase heard].
  - assert (∀ ph', Some (match bus_event now m with Some ev => mkRelay ph' sub (fs ++ [EventFrame ev]) | None => mkRelay ph' sub fs end) = Some r' →
      omap frame_event (rl_frames r') = omap frame_event fs ++ option_list (bus_event now m) ∧ rl_subscriber r' = sub ∧ rl_phase r' = ph') as Hm.
    { intros ph' [= <-]. destruct (bus_event now m); cbn; [by rewrite omap_app|by rewrite app_nil_r]. }
    destruct ph; try done; intros He; apply Hm in He as (Hf & -> & ->); done.
  - destruct ph; try done. intros [= <-]. cbn. rewrite app_nil_r. split; [done|]. naive_solver.
  - destruct ph; try done. intros [= <-]. cbn. rewrite app_nil_r. split; [done|]. naive_solver.
  - destruct ph; try done. intros [= <-]. unfold take_over. cbn. rewrite app_nil_r. split; [done|]. case_bool_decide; naive_solver.
  - destruct ph; try done. intros [= <-]. cbn. rewrite omap_app. cbn. by rewrite !app_nil_r.
  - destruct ph; intros [= <-]; cbn; rewrite app_nil_r; (split; [done|]); naive_solver.
Qed.
(** What the browser is sent is what was published, in order: one event for each message of the
    three channels that parses, nothing else but pings; and the subscription is given up exactly
    when the connection was refused or closed. *)
Theorem relay_exact es r : relay_all es = Some r →
  omap frame_event (rl_frames r) = omap heard es ∧ (rl_subscriber r = false ↔ rl_phase r = RClosed ∨ rl_phase r = RRefused).
Proof.
  assert (∀ r0, (rl_subscriber r0 = false ↔ rl_phase r0 = RClosed ∨ rl_phase r0 = RRefused) → foldl (λ o e, o ≫= relay e) (Some r0) es = Some r →
    omap frame_event (rl_frames r) = omap frame_event (rl_frames r0) ++ omap heard es ∧ (rl_subscriber r = false ↔ rl_phase r = RClosed ∨ rl_phase r = RRefused)) as Hrun.
  { induction es as [|e es IH]; intros r0 H0; cbn [foldl]; [intros [= <-]; by rewrite app_nil_r|].
    change (Some r0 ≫= relay e) with (relay e r0). destruct (relay e r0) as [r1|] eqn:He.
    - destruct (relay_step_exact e r0 r1 He) as [Hf Hs]. intros Hr. destruct (IH r1 (Hs H0) Hr) as [Hr1 ?]. split; [|done].
      rewrite Hr1, Hf, <- app_assoc. f_equal. cbn. by destruct (heard e).
    - intros Hn. exfalso. clear -Hn. induction es; [done|]. by apply IHes. }
  intros Hr. destruct (Hrun new_relay) as [Hf ?]; [|exact Hr|done]. cbn. naive_solver.
Qed.
(** A message that arrives between the answer to the subscription and the handler going on is
    written before the headers: the handler then fails, and the subscription is never given up. *)
Theorem early_message_breaks_stream now u :
  ∃ r, relay_all [RSubscribe true; RMessage now (OnRouting (Some u)); RTakeOver; RClose] = Some r ∧ rl_phase r = RBroken ∧ rl_subscriber r = true.
Proof. by eexists. Qed.

(** ** Every change of the routing table reaches the browser *)
Lemma routing_op_publishes op d :
  run_routing_op op d = d ∨ ∃ u, db_updates (run_routing_op op d) = db_updates d ++ [u] ∧ up_modelName u = op_model op.
Proof.
  assert (∀ f n h p now, (change_endpoint_script f n h p now d).2 = d ∧ (change_endpoint_script f n h p now d).1 = false ∨
    ∃ u, db_updates (change_endpoint_script f n h p now d).2 = db_updates d ++ [u] ∧ up_modelName u = n) as Hc.
  { intros f n h p now. unfold change_endpoint_script. destruct (db_routing d !! n); [|by left]. destruct (change_first _ _ _ _); [right; by eexists|by left]. }
  destruct op as [n st pr now|n now|n ep pr now|n h p now|n h p b now|n h p z now|b n h p now]; cbn [run_routing_op op_model].
  - right. by eexists.
  - right. by eexists.
  - right. by eexists.
  - unfold remove_endpoint_script. destruct (db_routing d !! n); [right; by eexists|by left].
  - destruct (Hc (set_healthy b) n h p now) as [[? _]|?]; tauto.
  - destruct (Hc (set_weight z) n h p now) as [[? _]|?]; tauto.
  - unfold cutover_script. destruct (Hc (set_weight 0) n h p now) as [[Hd Hf]|Hu]; destruct (change_endpoint_script _ n h p now d) as [[] d']; cbn in *; [done|by left|by right|by right].
Qed.
Lemma toClusterEvent_models u : ev_type (toClusterEvent u) ∈ [ClusterEventType.MODEL_STATE_CHANGED; ClusterEventType.MODEL_DEPLOYED; ClusterEventType.MODEL_REMOVED].
Proof. destruct u as [[]]; cbn; set_solver. Qed.
Lemma model_event_stale now e s :
  ev_type e ∈ [ClusterEventType.MODEL_STATE_CHANGED; ClusterEventType.MODEL_DEPLOYED; ClusterEventType.MODEL_REMOVED] →
  (now, ["models"]) ∈ st_stale (onmessage now (Some e) s) ∧ (now, ["cluster"]) ∈ st_stale (onmessage now (Some e) s).
Proof.
  intros Ht. unfold onmessage. assert (∀ s', on_event now (ev_type e) s' = invalidate now [["models"]; ["cluster"]] s') as ->.
  { intros s'. repeat (apply elem_of_cons in Ht as [-> |Ht]; [done|]). by apply not_elem_of_nil in Ht. }
  unfold invalidate. cbn. split; set_solver.
Qed.
(** C32: no change of the routing table escapes the dashboard.  Whatever operation of the routing
    map runs, either it changes nothing in Redis, or it publishes one update of its model; and
    an open relay writes exactly one frame for that update, and a browser that receives it marks
    both the models and the cluster as out of date, and lists the event first. *)
Theorem routing_changes_reach_browser op d :
  run_routing_op op d = d ∨
  ∃ u, db_updates (run_routing_op op d) = db_updates d ++ [u] ∧ up_modelName u = op_model op ∧
    ∀ now r s, rl_phase r = ROpen → st_opened s = true → ∃ r' s' e,
      relay (RMessage now (OnRouting (Some u))) r = Some r' ∧ rl_frames r' = rl_frames r ++ [EventFrame e] ∧ ev_modelName e = Some (op_model op) ∧
      ∀ t, stream (SourceMessage t (Some e)) s = Some (s' t) ∧ (t, ["models"]) ∈ st_stale (s' t) ∧ (t, ["cluster"]) ∈ st_stale (s' t) ∧ head (st_events (s' t)) = Some e.
Proof.
  destruct (routing_op_publishes op d) as [|(u & Hu & Hn)]; [by left|right]. exists u. split_and!; [done|done|]. intros now r s Hr Hs.
  exists (mkRelay ROpen (rl_subscriber r) (rl_frames r ++ [EventFrame (toClusterEvent u)])), (λ t, onmessage t (Some (toClusterEvent u)) s), (toClusterEvent u).
  split_and!.
  - destruct r as [ph sub fs]. cbn in Hr. by subst ph.
  - done.
  - rewrite <- Hn. by destruct u as [[]].
  - intros t. cbn [stream]. rewrite Hs. destruct (model_event_stale t (toClusterEvent u) s (toClusterEvent_models u)). split_and!; [done|done|done|].
    by destruct u as [[]].
Qed.
(** The updates for a removed or changed endpoint do not name it, so the event's text does not
    either. *)
Theorem removed_endpoint_unnamed n h p now d entry : db_routing d !! n = Some entry →
  ∃ u, db_updates (run_routing_op (RRemove n h p now) d) = db_updates d ++ [u] ∧ ev_message (toClusterEvent u) = Some "Endpoint removed: undefined:undefined".
Proof. intros He. cbn [run_routing_op]. unfold remove_endpoint_script. rewrite He. by eexists. Qed.

(** ** The connection *)
Definition action_time (a : StreamAction) : option Z := match a with SourceMessage now _ | MemoryDue now => Some now | _ => None end.
(** Runs with a clock that does not go back. *)
Inductive stream_reach : Z → Stream → Prop :=
| sr_start : stream_reach 0 unmounted
| sr_step clock a s s' : stream_reach clock s → (clock ≤ default clock (action_time a))%Z → stream a s = Some s' → stream_reach (default clock (action_time a)) s'.
Definition reconnect_delay (failures : nat) : Z := if Nat.leb FAILURE_THRESHOLD failures then RECONNECT_INTERVAL_DEGRADED else RECONNECT_INTERVAL_NORMAL.
Record stream_ok (clock : Z) (s : Stream) : Prop := {
  sk_down : st_mounted s = false → st_source s = false ∧ st_reconnect s = None ∧ ∀ due, st_memoryTimer s ≠ Some (Some due);
  sk_up : st_mounted s = true → (st_source s = true ∧ st_reconnect s = None) ∨ (st_source s = false ∧ st_reconnect s = Some (reconnect_delay (st_failures s)));
  sk_opened : st_opened s = true → st_source s = true ∧ st_status s = Connected;
  sk_last : (st_lastMemory s ≤ clock)%Z;
  sk_due : ∀ due, st_memoryTimer s = Some (Some due) → (due ≤ st_lastMemory s + MEMORY_THROTTLE_MS)%Z;
  sk_events : length (st_events s) ≤ 100;
}.
(** What a message changes. *)
Lemma on_event_frame now t s : let s' := on_event now t s in
  st_mounted s' = st_mounted s ∧ st_source s' = st_source s ∧ st_opened s' = st_opened s ∧ st_reconnect s' = st_reconnect s ∧ st_failures s' = st_failures s ∧
  st_status s' = st_status s ∧ st_events s' = st_events s.
Proof. destruct t; cbn; try done. destruct (Z.leb _ _); [done|]. by destruct (st_memoryTimer s). Qed.
Lemma on_event_memory now t s : (st_lastMemory s ≤ now)%Z → (∀ due, st_memoryTimer s = Some (Some due) → (due ≤ st_lastMemory s + MEMORY_THROTTLE_MS)%Z) →
  let s' := on_event now t s in
  (st_lastMemory s ≤ st_lastMemory s' ≤ now)%Z ∧ (∀ due, st_memoryTimer s' = Some (Some due) → (due ≤ st_lastMemory s' + MEMORY_THROTTLE_MS)%Z).
Proof.
  intros Hl Hd. destruct t; cbn; try (split; [lia|exact Hd]). destruct (Z.leb_spec MEMORY_THROTTLE_MS (now - st_lastMemory s)); cbn.
  - split; [lia|]. intros due Hdue. specialize (Hd due Hdue). lia.
  - destruct (st_memoryTimer s) eqn:Ht; cbn; [split; [lia|]; rewrite Ht; exact Hd|]. split; [lia|]. intros due [= <-]. lia.
Qed.
Lemma stream_step_ok clock a s s' :
  stream_ok clock s → (clock ≤ default clock (action_time a))%Z → stream a s = Some s' → stream_ok (default clock (action_time a)) s'.
Proof.
  intros [Hdn Hup Hop Hla Hdu Hev] Hclk Ha. destruct a as [| | | | |now [e|]|now]; cbn [stream action_time from_option] in *; unfold id in *.
  - destruct (st_mounted s); [done|]. injection Ha as <-. constructor; cbn; try done. by left.
  - destruct (st_mounted s); [|done]. injection Ha as <-. constructor; cbn; try done; [intros _; split_and!; [done..|]|]; intros due; by destruct (st_memoryTimer s).
  - destruct (st_source s) eqn:Hs; [|done]. injection Ha as <-. constructor; cbn; [|intros Hm; destruct (Hup Hm) as [[_ ?]|[? _]]; [by left|done]|done|done|done|done].
    intros Hm. by destruct (Hdn Hm).
  - destruct (st_source s) eqn:Hs; [|done]. injection Ha as <-. unfold onerror. constructor; cbn; [|by right|done|done|done|done]. intros Hm. by destruct (Hdn Hm).
  - destruct (st_reconnect s) eqn:Hr; [|done]. injection Ha as <-. constructor; cbn; [|by left|done|done|done|done]. intros Hm. by destruct (Hdn Hm) as (_ & ? & _).
  - destruct (st_opened s) eqn:Ho; [|done]. injection Ha as <-. unfold onmessage. set (s1 := mkLive _ _ _ _ _ _ _ _ _ _).
    destruct (on_event_frame now (ev_type e) s1) as (E1 & E2 & E3 & E4 & E5 & E6 & E7).
    destruct (on_event_memory now (ev_type e) s1) as [Hl2 Hd2]; [cbn; lia|done|]. cbn in Hl2.
    constructor; rewrite ?E1, ?E2, ?E3, ?E4, ?E5, ?E6, ?E7; cbn [s1 st_mounted st_source st_opened st_reconnect st_failures st_status st_events].
    + intros Hm. destruct (Hdn Hm) as (Hsrc & ? & Ht). destruct (Hop eq_refl). congruence.
    + done.
    + intros _. by apply Hop.
    + lia.
    + done.
    + cbn [length]. rewrite length_take. lia.
  - destruct (st_opened s) eqn:Ho; [|done]. injection Ha as <-. constructor; try done; [|lia]. intros _. by apply Hop.
  - destruct (st_memoryTimer s) as [[due|]|] eqn:Ht; [|done..]. destruct (Z.leb_spec due now); [|done]. injection Ha as <-. constructor; cbn; [|done|done|lia|done|done].
    intros Hm. destruct (Hdn Hm) as (_ & _ & Hno). by destruct (Hno due).
Qed.
Lemma stream_reach_ok clock s : stream_reach clock s → stream_ok clock s.
Proof. induction 1 as [|clock a s s' _ IH Hc Ha]; [constructor; cbn; try done; lia|by eapply stream_step_ok]. Qed.
(** The dashboard never stops trying.  Whatever the connection does, while the page is open
    there is either a connection or a reconnect on its way, never both, five seconds ahead, or
    thirty once five attempts in a row have failed; and only an open connection is shown as
    connected again after a failure. *)
Theorem stream_always_reconnects clock s :
  stream_reach clock s → st_mounted s = true →
  ((st_source s = true ∧ st_reconnect s = None) ∨
   (st_source s = false ∧ st_reconnect s = Some (if decide (5 ≤ st_failures s)%nat then 30000 else 5000)%Z)) ∧
  (st_opened s = true → st_status s = Connected) ∧ length (st_events s) ≤ 100.
Proof.
  intros Hr Hm. destruct (stream_reach_ok clock s Hr) as [_ Hup Hop _ _ Hev]. split_and!; [|by intros Ho; apply Hop|done].
  destruct (Hup Hm) as [?|[Hs Hd]]; [by left|right]. split; [done|]. rewrite Hd. unfold reconnect_delay, FAILURE_THRESHOLD, RECONNECT_INTERVAL_DEGRADED, RECONNECT_INTERVAL_NORMAL.
  f_equal. destruct (Nat.leb_spec 5 (st_failures s)); case_decide; lia.
Qed.

(** ** Memory updates *)
Definition refreshed (since : Z) (s : Stream) : Prop := ∃ t, (since ≤ t)%Z ∧ (t, ["workers"]) ∈ st_stale s.
Definition refresh_due (since : Z) (s : Stream) : Prop := refreshed since s ∨ ∃ due, st_memoryTimer s = Some (Some due) ∧ (due ≤ since + MEMORY_THROTTLE_MS)%Z.
Lemma invalidate_keeps now keys s t k : (t, k) ∈ st_stale s → (t, k) ∈ st_stale (invalidate now keys s).
Proof. unfold invalidate. cbn [st_stale]. rewrite elem_of_app. auto. Qed.
Lemma invalidateMemory_refreshes now s since : (since ≤ now)%Z → refreshed since (invalidateMemory now s).
Proof. intros Hs. exists now. split; [done|]. unfold invalidateMemory, invalidate. cbn. set_solver. Qed.
Lemma on_event_due now t s since : (since ≤ now)%Z → refresh_due since s → refresh_due since (on_event now t s).
Proof.
  intros Hs Hd. assert (∀ keys, refresh_due since (invalidate now keys s)) as Hi.
  { intros keys. destruct Hd as [(t0 & ? & ?)|Ht]; [left|by right]. exists t0. split; [done|]. by apply invalidate_keeps. }
  destruct t; cbn [on_event]; auto. destruct (Z.leb _ _); [left; by apply invalidateMemory_refreshes|].
  destruct (st_memoryTimer s) eqn:Ht; [done|]. destruct Hd as [Hr|(due & Hdue & _)]; [by left|congruence].
Qed.
Lemma memory_step a s s' since : (∀ t, action_time a = Some t → (since ≤ t)%Z) → a ≠ Unmount → st_mounted s = true → refresh_due since s → stream a s = Some s' →
  refresh_due since s' ∧ st_mounted s' = true.
Proof.
  intros Ht Hu Hm Hd Ha. destruct a as [| | | | |now [e|]|now]; cbn [stream action_time] in *; try done.
  - by rewrite Hm in Ha.
  - destruct (st_source s); [|done]. by injection Ha as <-.
  - destruct (st_source s); [|done]. by injection Ha as <-.
  - destruct (st_reconnect s); [|done]. by injection Ha as <-.
  - destruct (st_opened s); [|done]. injection Ha as <-. unfold onmessage. split; [by apply on_event_due; [apply Ht|]|]. by rewrite (proj1 (on_event_frame _ _ _)).
  - destruct (st_opened s); [|done]. by injection Ha as <-.
  - destruct (st_memoryTimer s) as [[due|]|]; [|done..]. destruct (Z.leb _ _); [|done]. injection Ha as <-. split; [left; by apply invalidateMemory_refreshes, Ht|done].
Qed.
Inductive later (since : Z) : Stream → Stream → Prop :=
| later_refl s : later since s s
| later_step a s s1 s2 : later since s s1 → (∀ t, action_time a = Some t → (since ≤ t)%Z) → a ≠ Unmount → stream a s1 = Some s2 → later since s s2.
(** No memory update is lost to the throttle.  When the browser receives a memory update, and the
    page has not been mounted again after a pending refresh was cleared,
    then at every later moment while the page stays open, either the workers have been marked
    as out of date since, or a refresh is scheduled for at most one second after the update. *)
Theorem memory_updates_not_lost clock s now e s1 s2 :
  stream_reach clock s → (clock ≤ now)%Z → ev_type e = ClusterEventType.WORKER_MEMORY_UPDATED → st_mounted s = true → st_memoryTimer s ≠ Some None →
  stream (SourceMessage now (Some e)) s = Some s1 → later now s1 s2 →
  refreshed now s2 ∨ ∃ due, st_memoryTimer s2 = Some (Some due) ∧ (due ≤ now + 1000)%Z.
Proof.
  intros Hr Hc He Hm Hlive Hs Hl. destruct (stream_reach_ok clock s Hr) as [_ _ _ Hla Hdu _].
  assert (refresh_due now s1 ∧ st_mounted s1 = true) as Hs1.
  { cbn [stream] in Hs. destruct (st_opened s); [|done]. injection Hs as <-. unfold onmessage. rewrite He. rewrite (proj1 (on_event_frame _ _ _)). split; [|done].
    cbn [on_event st_lastMemory st_memoryTimer]. destruct (Z.leb_spec MEMORY_THROTTLE_MS (now - st_lastMemory s)); [left; by apply invalidateMemory_refreshes|]. right.
    destruct (st_memoryTimer s) as [[due|]|] eqn:Ht; [|done|].
    - exists due. split; [done|]. specialize (Hdu due eq_refl). unfold MEMORY_THROTTLE_MS in *. lia.
    - eexists. split; [done|]. unfold MEMORY_THROTTLE_MS in *. lia. }
  assert (refresh_due now s2 ∧ st_mounted s2 = true) as [Hd _]; [|exact Hd].
  clear Hs. induction Hl as [|a x x1 x2 _ IH Ht Hu Ha]; [done|]. destruct (IH Hs1). by eapply memory_step.
Qed.

(** ** Concrete runs *)
Lemma stream_reach_calm clock a s s' : action_time a = None → stream_reach clock s → stream a s = Some s' → stream_reach clock s'.
Proof. intros Ht Hr Ha. replace clock with (default clock (action_time a)) by (by rewrite Ht). apply (sr_step clock a s); [done|rewrite Ht; simpl; lia|done]. Qed.
Definition opened : Stream := mkLive true true true None 0 Connected [] 0 None [].
Lemma opened_reach : stream_reach 0 opened.
Proof.
  apply (stream_reach_calm 0 SourceOpen (connect (mkLive true false false None 0 Reconnecting [] 0 None []))); [done| |done].
  apply (stream_reach_calm 0 Mount unmounted); [done|constructor|done].
Qed.
Lemma stream_always_reconnects_witness :
  ∃ s, stream SourceError opened = Some s ∧ st_source s = false ∧ st_reconnect s = Some 5000%Z.
Proof.
  destruct (stream SourceError opened) as [s|] eqn:Hs; [|done]. exists s. split; [done|].
  destruct (stream_always_reconnects 0 s) as [[[Hsrc _]|[Hsrc Hr]] _].
  - by eapply (stream_reach_calm 0 SourceError); [|apply opened_reach|].
  - by injection Hs as <-.
  - injection Hs as <-. discriminate.
  - split; [done|]. rewrite Hr. injection Hs as <-. done.
Defined.
Definition memory_event : ClusterEvent := mkEvent ClusterEventType.WORKER_MEMORY_UPDATED "t" None None None None None None.
Definition at_500 : Stream := set_memory_timer (Some (Some 1000%Z)) (mkLive true true true None 0 Connected [memory_event] 0 None []).
Lemma memory_updates_not_lost_witness : refreshed 500 at_500 ∨ ∃ due, st_memoryTimer at_500 = Some (Some due) ∧ (due ≤ 500 + 1000)%Z.
Proof.
  apply (memory_updates_not_lost 0 opened 500 memory_event at_500 at_500); [apply opened_reach|lia|done|done|done|done|constructor].
Defined.
