(* ===== verification/BrowserState.v ===== *)
(** * State kept by the browser (dashboard/src/contexts/NotificationContext.tsx,
    hooks/useModelLogs.ts, hooks/useModels.ts)

    The notifications of the drawer and the toasts, the view of a startup log, and the model
    list patched before the control plane has answered. *)
From stdpp Require Import base tactics list strings sets.
From Stdlib Require Import ZArith Lia.
From S2P Require Import Prelude Js Types Errors Notifications Views.

(** ** Notifications *)
Definition DEDUP_WINDOW_MS : Z := 500.
Record DedupEntry := mkDedup { dd_title : string; dd_description : option string; dd_timestamp : Z }.
Record Drawer := mkDrawer {
  dr_notifications : list StoredNotification;
  dr_toasts : list (string * string * option string * string);   (** id, title, description, variant *)
  dr_historyError : bool;
  dr_last : option DedupEntry;
}.
Definition empty_drawer : Drawer := mkDrawer [] [] false None.
Definition set_notifications (f : list StoredNotification → list StoredNotification) (d : Drawer) : Drawer :=
  mkDrawer (f (dr_notifications d)) (dr_toasts d) (dr_historyError d) (dr_last d).
(** The answer to the fetch on mount. *)
Definition history (r : option (list StoredNotification)) (d : Drawer) : Drawer :=
  match r with
  | Some l => mkDrawer l (dr_toasts d) false (dr_last d)
  | None => mkDrawer (dr_notifications d) (dr_toasts d) true (dr_last d)
  end.
Definition is_duplicate (now : Z) (n : StoredNotification) (d : Drawer) : bool :=
  match dr_last d with
  | Some l => Z.ltb (now - dd_timestamp l) DEDUP_WINDOW_MS && bool_decide (dd_title l = n_title n) && bool_decide (dd_description l = n_description n)
  | None => false
  end.
Definition addNotification (now : Z) (n : StoredNotification) (d : Drawer) : Drawer :=
  if is_duplicate now n d then d else
  mkDrawer (take (Z.to_nat MAX_NOTIFICATIONS) (n :: dr_notifications d)) (dr_toasts d ++ [(n_id n, n_title n, n_description n, n_variant n)]) (dr_historyError d)
    (Some (mkDedup (n_title n) (n_description n) now)).
(** The local half of each action; the request to the server runs beside it. *)
Definition markAsRead_local (id : string) : Drawer → Drawer := set_notifications (fmap (λ n, if decide (n_id n = id) then mark_read n else n)).
Definition markAllAsRead_local : Drawer → Drawer := set_notifications (fmap mark_read).
Definition removeNotification_local (id : string) : Drawer → Drawer := set_notifications (filter (λ n, n_id n ≠ id)).
Definition removeToastNotification (id : string) (d : Drawer) : Drawer :=
  mkDrawer (dr_notifications d) (List.filter (λ '(i, _, _, _), negb (bool_decide (i = id))) (dr_toasts d)) (dr_historyError d) (dr_last d).
Definition clearAll_local : Drawer → Drawer := set_notifications (λ _, []).
Definition unreadCount (d : Drawer) : nat := length (List.filter (λ n, negb (n_isRead n)) (dr_notifications d)).
(** An operation as the browser sees it: its own action, or the event of a new notification. *)
Definition browser_op (now : Z) (new : NotificationParams → StoredNotification) (op : n_op) : Drawer → Drawer :=
  match op with
  | NCreate params => addNotification now (new params)
  | NRead id => markAsRead_local id
  | NReadAll => markAllAsRead_local
  | NRemove id => removeNotification_local id
  | NClear => clearAll_local
  end.

(** ** The view of a startup log *)
Definition MAX_LOG_LINES : nat := 1000.
Record LogView := mkLogView {
  lw_enabled : bool;
  lw_logs : list string;
  lw_connected : bool;
  lw_ended : bool;
  lw_failed : bool;
  lw_source : bool;
  lw_timer : bool;
  lw_failures : nat;
}.
Definition closed_view : LogView := mkLogView false [] false false false false false 0.
Inductive LogAction :=
| Enable | Disable
| LogOpen | LogLine (line : option string) | LogEnd | LogError
| LogTimer
| LogReconnect                   (** [reconnect] *)
| LogClear.
Definition push_line (logs : list string) (line : string) : list string :=
  let next := logs ++ [line] in drop (length next - MAX_LOG_LINES) next.
Definition log_connect (v : LogView) : LogView := mkLogView (lw_enabled v) (lw_logs v) (lw_connected v) (lw_ended v) (lw_failed v) true (lw_timer v) (lw_failures v).
Definition log_disconnect (v : LogView) : LogView := mkLogView (lw_enabled v) (lw_logs v) false (lw_ended v) (lw_failed v) false false (lw_failures v).
Definition log_step (a : LogAction) (v : LogView) : option LogView :=
  match a with
  | Enable => if lw_enabled v then None else Some (log_connect (mkLogView true [] (lw_connected v) false false (lw_source v) (lw_timer v) 0))
  | Disable =>
      if lw_enabled v then Some (log_disconnect (mkLogView false (lw_logs v) (lw_connected v) (lw_ended v) (lw_failed v) (lw_source v) (lw_timer v) (lw_failures v))) else None
  | LogOpen => if lw_source v then Some (mkLogView (lw_enabled v) (lw_logs v) true (lw_ended v) (lw_failed v) true (lw_timer v) 0) else None
  | LogLine line =>
      if lw_source v then
        Some (match line with
              | Some l => mkLogView (lw_enabled v) (push_line (lw_logs v) l) (lw_connected v) (lw_ended v) (lw_failed v) true (lw_timer v) (lw_failures v)
              | None => v
              end)
      else None
  | LogEnd => if lw_source v then Some (log_disconnect (mkLogView (lw_enabled v) (lw_logs v) (lw_connected v) true (lw_failed v) true (lw_timer v) (lw_failures v))) else None
  | LogError =>
      if lw_source v then
        Some (if lw_ended v then mkLogView (lw_enabled v) (lw_logs v) false true (lw_failed v) false (lw_timer v) (lw_failures v)
              else let failures := S (lw_failures v) in
                   if Nat.leb 5 failures then mkLogView (lw_enabled v) (lw_logs v) false false true false (lw_timer v) failures
                   else mkLogView (lw_enabled v) (lw_logs v) false false (lw_failed v) false true failures)
      else None
  | LogTimer => if lw_timer v then Some (log_connect (mkLogView (lw_enabled v) (lw_logs v) (lw_connected v) (lw_ended v) (lw_failed v) (lw_source v) false (lw_failures v))) else None
  | LogReconnect => if lw_enabled v then Some (log_connect (mkLogView true (lw_logs v) (lw_connected v) false false (lw_source v) (lw_timer v) 0)) else None
  | LogClear => Some (mkLogView (lw_enabled v) [] (lw_connected v) (lw_ended v) (lw_failed v) (lw_source v) (lw_timer v) (lw_failures v))
  end.

(** ** Model lists patched ahead of the answer *)
(** What a query below ['models'] holds. *)
Inductive CacheData := CList (models : list ModelInfo) | CDetail (d : ModelDetail) | CEmpty.
Abbreviation Cache := (list (list string * CacheData)).
Definition updateModelListData (old : CacheData) (updater : list ModelInfo → list ModelInfo) : CacheData :=
  match old with CList ms => CList (updater ms) | other => other end.
Definition onMutate (updater : list ModelInfo → list ModelInfo) (c : Cache) : Cache * Cache :=
  ((λ '(k, v), (k, updateModelListData v updater)) <$> c, c).
(** [onError]: every entry of the snapshot is written back. *)
Definition set_entry (c : Cache) (e : list string * CacheData) : Cache := jm_set c (fst e) (snd e).
Definition onMutationError (previous : Cache) (c : Cache) : Cache := foldl set_entry c previous.
Definition set_info_state (st : ModelLifecycleState) (m : ModelInfo) : ModelInfo :=
  mkModelInfo (in_modelName m) (in_displayName m) st (in_runnerType m) (in_runtimeModule m) (in_instanceCount m) (in_workerId m) (in_workerIds m) (in_requiredMemory m)
    (in_currentMemory m) (in_lastInferenceAt m) (in_pinned m) (in_createdAt m).
Inductive Mutation := MSleep (name : string) | MWake (name : string) | MStop (name : string) | MStart (name : string) | MDelete (name : string) (force : bool)
| MDeploy (name runnerType : string) (requiredMemory : Z) (pinned : option bool) (createdAt : string).
Definition patch_state (name : string) (st : ModelLifecycleState) (ms : list ModelInfo) : list ModelInfo :=
  (λ m, if decide (in_modelName m = name) then set_info_state st m else m) <$> ms.
Definition updater_of (m : Mutation) (ms : list ModelInfo) : list ModelInfo :=
  match m with
  | MSleep name => patch_state name ModelLifecycleState.DRAINING ms
  | MWake name | MStart name => patch_state name ModelLifecycleState.STARTING ms
  | MStop name => patch_state name ModelLifecycleState.STOPPING ms
  | MDelete name force => if force then List.filter (λ m, negb (bool_decide (in_modelName m = name))) ms else patch_state name ModelLifecycleState.STOPPING ms
  | MDeploy name runnerType requiredMemory pinned createdAt =>
      ms ++ [mkModelInfo name None ModelLifecycleState.PENDING runnerType None 1 None [] (Some requiredMemory) None None (default false pinned) (Some createdAt)]
  end.

(** ** The drawer follows the store *)
(** The drawer shows what is stored.  When the drawer shows the stored notifications, then
    after any operation that runs without interference on the server, with its own action or
    the event of a new notification applied in the browser, it shows the stored notifications
    again, provided the new notification is not taken for a repetition. *)
Theorem drawer_follows_store `{!NEnv, !NQuiet, !JsDate} op w now d :
  NoDup (n_id <$> nw_list w) → dr_notifications d = nw_list w →
  (∀ params, op = NCreate params → is_duplicate now (new_notification w params) d = false) →
  let '(r, w') := run_op op w in
  r = inr tt ∧ dr_notifications (browser_op now (new_notification w) op d) = nw_list w'.
Proof.
  intros Hnd Hd Hdup. pose proof (run_op_quiet op w (λ w', nw_list w' = apply_op (new_notification w) op (nw_list w)) (λ _ _, False) Hnd) as Hwp.
  unfold wp in Hwp. destruct (run_op op w) as [[e|[]] w']; [by destruct Hwp|]. split; [done|]. rewrite Hwp, <- Hd by done.
  destruct op as [params|id| |id|]; try done. cbn [browser_op apply_op]. unfold addNotification. by rewrite Hdup.
Qed.
(** Notifications that arrive while the history is still being fetched are dropped with its
    answer, if the server read the list before they were stored. *)
Theorem late_history_drops_notification now n d l : is_duplicate now n d = false → n ∉ l → n ∈ dr_notifications (addNotification now n d) ∧
  n ∉ dr_notifications (history (Some l) (addNotification now n d)).
Proof.
  intros Hd Hn. split; [|done]. unfold addNotification. rewrite Hd. cbn. left.
Qed.
(** Two different notifications with the same title and description within half a second: the
    second is never shown. *)
Theorem same_title_dropped now n n' d : is_duplicate now n d = false → n_title n' = n_title n → n_description n' = n_description n →
  addNotification (now + 499) n' (addNotification now n d) = addNotification now n d.
Proof.
  intros Hd Ht Hs. unfold addNotification at 2 3. rewrite Hd. unfold addNotification, is_duplicate. cbn [dr_last dd_timestamp dd_title dd_description].
  rewrite Ht, Hs, !bool_decide_eq_true_2 by done. replace (now + 499 - now)%Z with 499%Z by lia. done.
Qed.

(** ** The log view *)
Record view_ok (v : LogView) : Prop := {
  vo_length : length (lw_logs v) ≤ MAX_LOG_LINES;
  vo_off : lw_enabled v = false → lw_source v = false ∧ lw_timer v = false;
  vo_on : lw_enabled v = true → lw_source v = true ∨ lw_timer v = true ∨ lw_ended v = true ∨ lw_failed v = true;
}.
Lemma push_line_length logs l : length (push_line logs l) ≤ MAX_LOG_LINES.
Proof. unfold push_line. rewrite length_drop. lia. Qed.
Lemma log_step_ok a v v' : view_ok v → log_step a v = Some v' → view_ok v'.
Proof.
  intros [Hl Hoff Hon] Ha. destruct a as [| | |[l|]| | | | |]; cbn [log_step] in Ha.
  - destruct (lw_enabled v); [done|]. injection Ha as <-. constructor; cbn; [lia|done|auto].
  - destruct (lw_enabled v); [|done]. injection Ha as <-. by constructor.
  - destruct (lw_source v) eqn:Hs; [|done]. injection Ha as <-. constructor; cbn; [done| |auto]. intros He. by destruct (Hoff He).
  - destruct (lw_source v) eqn:Hs; [|done]. injection Ha as <-. constructor; cbn; [apply push_line_length| |auto]. intros He. by destruct (Hoff He).
  - destruct (lw_source v) eqn:Hs; [|done]. injection Ha as <-. constructor; rewrite ?Hs; auto.
  - destruct (lw_source v) eqn:Hs; [|done]. injection Ha as <-. constructor; cbn; [done| |auto]. intros He. by destruct (Hoff He).
  - destruct (lw_source v) eqn:Hs; [|done]. injection Ha as <-. assert (lw_enabled v = false → False) as Hf by (intros He; by destruct (Hoff He)).
    destruct (lw_ended v); [constructor; cbn; auto; by intros He%Hf|]. match goal with |- context [if ?b then _ else _] => destruct b end; (constructor; cbn; auto; by intros He%Hf).
  - destruct (lw_timer v) eqn:Ht; [|done]. injection Ha as <-. constructor; cbn; [done| |auto]. intros He. by destruct (Hoff He).
  - destruct (lw_enabled v); [|done]. injection Ha as <-. constructor; cbn; auto. done.
  - injection Ha as <-. constructor; cbn; auto. lia.
Qed.
Definition log_run (acts : list LogAction) (v : LogView) : option LogView := foldl (λ o a, o ≫= log_step a) (Some v) acts.
(** However the connection behaves, an open log view holds at most a thousand lines and is
    connected, about to reconnect, at the end of the log, or marked as failed. *)
Theorem log_view_never_stuck acts v : log_run acts closed_view = Some v →
  length (lw_logs v) ≤ MAX_LOG_LINES ∧ (lw_enabled v = true → lw_source v = true ∨ lw_timer v = true ∨ lw_ended v = true ∨ lw_failed v = true).
Proof.
  assert (∀ v0, view_ok v0 → log_run acts v0 = Some v → view_ok v) as Hrun.
  { unfold log_run. induction acts as [|a acts IH]; intros v0 H0; cbn [foldl]; [by intros [= <-]|]. change (Some v0 ≫= log_step a) with (log_step a v0).
    destruct (log_step a v0) as [v1|] eqn:Ha; [by apply IH; eapply log_step_ok|]. intros Hn. exfalso. clear -Hn. induction acts; [done|]. by apply IHacts. }
  intros Hv. destruct (Hrun closed_view) as [? _ ?]; [constructor; cbn; [lia|done|done]|done|done].
Qed.
(** The server replays a startup log from its first line on every connection
    ([StartupLogs]), and the view keeps its lines when it reconnects: they are shown twice. *)
Theorem reconnect_repeats_lines a b :
  ∃ v, log_run [Enable; LogOpen; LogLine (Some a); LogLine (Some b); LogError; LogTimer; LogOpen; LogLine (Some a); LogLine (Some b); LogEnd] closed_view = Some v ∧
    lw_logs v = [a; b; a; b].
Proof. eexists. split; [vm_compute; reflexivity|reflexivity]. Qed.

(** ** Optimistic updates *)
Lemma jm_set_cons (c : Cache) k k' v v' : jm_set ((k', v') :: c) k v = if decide (k' = k) then (k', v) :: c else (k', v') :: jm_set c k v.
Proof. done. Qed.
Lemma jm_set_middle (pre post : Cache) k v v' : k ∉ pre.*1 → jm_set (pre ++ (k, v) :: post) k v' = pre ++ (k, v') :: post.
Proof.
  induction pre as [|[k' w] pre IH]; intros Hk; cbn [app]; rewrite jm_set_cons; [by case_decide|]. cbn [fmap list_fmap fst] in Hk. rewrite not_elem_of_cons in Hk. destruct Hk.
  case_decide; [done|]. by rewrite IH.
Qed.
Lemma restore_entries (pre rest rest' : Cache) : NoDup (pre ++ rest).*1 → rest'.*1 = rest.*1 → foldl set_entry (pre ++ rest') rest = pre ++ rest.
Proof.
  revert pre rest'. induction rest as [|[k v] rest IH]; intros pre [|[k' v'] rest'] Hnd Hk; try done. cbn [fmap list_fmap fst] in Hk. injection Hk as -> Hk.
  cbn [foldl]. unfold set_entry at 2. cbn [fst snd]. rewrite jm_set_middle.
  - change (pre ++ (k, v) :: rest') with (pre ++ [(k, v)] ++ rest'). rewrite app_assoc, IH; [by rewrite <- app_assoc| |done]. by rewrite <- app_assoc.
  - rewrite fmap_app in Hnd. apply NoDup_app in Hnd as (_ & Hd & _). intros Hin. apply (Hd k Hin). left.
Qed.
Lemma onMutate_keys updater (c : Cache) : (onMutate updater c).1.*1 = c.*1.
Proof. unfold onMutate. cbn [fst]. induction c as [|[k v] c IH]; [done|]. cbn. by rewrite IH. Qed.
(** A failed request leaves no trace: writing the snapshot back undoes the patch of every
    list, whatever the patch was. *)
Theorem rollback_exact updater (c : Cache) : NoDup c.*1 → let '(patched, previous) := onMutate updater c in onMutationError previous patched = c.
Proof. intros Hnd. apply (restore_entries [] c); [done|]. apply onMutate_keys. Qed.
(** With two requests in flight the snapshot of the first also undoes the patch of the second. *)
Theorem rollback_undoes_other m1 m2 (c : Cache) : NoDup c.*1 →
  let '(c1, previous) := onMutate (updater_of m1) c in let '(c2, _) := onMutate (updater_of m2) c1 in onMutationError previous c2 = c.
Proof. intros Hnd. apply (restore_entries [] c); [done|]. etrans; [apply (onMutate_keys (updater_of m2) (onMutate (updater_of m1) c).1)|apply onMutate_keys]. Qed.

(** ** Concrete input *)
Lemma drawer_follows_store_witness :
  dr_notifications (browser_op 0 (@new_notification calm_n decimal_date ex_nworld) (NRead "a") (mkDrawer (nw_list ex_nworld) [] false None)) =
    [ex_notification "b"; mark_read (ex_notification "a")].
Proof.
  pose proof (@drawer_follows_store calm_n calm_n_quiet decimal_date (NRead "a") ex_nworld 0 (mkDrawer (nw_list ex_nworld) [] false None)) as H.
  destruct (run_op _ ex_nworld) as [r w'] eqn:Hr. destruct H as [_ H]; [|done|done|].
  - apply (bool_decide_unpack _). vm_compute. done.
  - rewrite H. vm_compute in Hr. by injection Hr as _ <-.
Defined.
