(* ===== verification/DashboardGates.v ===== *)
(** * What the user interface lets the user ask for (dashboard/src/utils/move.ts, pages/Models/deleteGating.ts)

    The interface repeats checks of the control plane to offer only what will be accepted.  Its
    functions work on the views the control plane sends ([Views]); the theorems compare them
    with the checks themselves ([Placement.placeFixed], [ModelRoutes.delete_gracefully]). *)
From stdpp Require Import base tactics list strings gmap sets.
From Stdlib Require Import ZArith Lia.
From S2P Require Import Prelude Js Types Errors MemoryBudget WorkerPool Placement Eviction Store Lifecycle Launch Move ModelRoutes Views.

(** ** Targets of a move *)
Record MovePlacementSource := mkSource { so_workerId : string; so_deviceIndices : list Z }.
Definition move_capability (worker : WorkerInfo) (model : ModelDetail) : option WorkerCapability :=
  List.find (λ c, bool_decide (runnerType c = de_runnerType model) && Z.leb (de_tensorParallel model) (maxTensorParallelism c) &&
                  (negb (truthy_str (de_deviceType model)) || supports_device c (default "" (de_deviceType model))))
    (default [] (wi_runnerCapabilities worker)).
Definition move_device (model : ModelDetail) (c : WorkerCapability) (d : DeviceView) : bool :=
  (negb (truthy_str (de_deviceType model)) || bool_decide (de_deviceType model = Some (dv_deviceType d))) &&
  supports_device c (dv_deviceType d) && ge_quot (dv_memoryAvailableBytes d) (de_requiredMemory model) (de_tensorParallel model).
Definition compatibleMoveDevices (worker : WorkerInfo) (model : ModelDetail) : list DeviceView :=
  if negb (bool_decide (wi_status worker = WorkerStatus.ONLINE)) then [] else
  match move_capability worker model with
  | None => []
  | Some c => List.filter (move_device model c) (wi_devices worker)
  end.
Definition isEligibleMoveTargetWorker (worker : WorkerInfo) (model : ModelDetail) (source : MovePlacementSource) : bool :=
  let ds := compatibleMoveDevices worker model in
  Z.leb (de_tensorParallel model) (Z.of_nat (length ds)) &&
  (negb (bool_decide (wi_workerId worker = so_workerId source)) ||
   existsb (λ d, negb (bool_decide (dv_deviceIndex d ∈ so_deviceIndices source))) ds).

(** *** The progress shown *)
Inductive MoveProgress := Deploying | CuttingOver | DrainingSource | Complete | FailedBeforeCutover | FailedAfterCutover | Unavailable.
Definition MOVE_REPLACEMENT_OBSERVATION_TIMEOUT_MS : Z := 30000.
Definition classifyMoveProgress (instances : option (list InstanceDetail)) (sourceId replacementId : string) (observed : bool)
    (acceptedAt : option Z) (now : Z) : MoveProgress :=
  match instances with
  | None => Unavailable
  | Some is_ =>
      let source := List.find (λ i, bool_decide (id_instanceId i = sourceId)) is_ in
      match List.find (λ i, bool_decide (id_instanceId i = replacementId)) is_, source with
      | None, s =>
          let timedOut := match acceptedAt with Some t => Z.leb MOVE_REPLACEMENT_OBSERVATION_TIMEOUT_MS (now - t) | None => false end in
          if bool_decide (is_Some s) && (observed || timedOut) then FailedBeforeCutover else Deploying
      | Some r, s =>
          match id_state r, id_state <$> s with
          | ModelLifecycleState.ERROR, _ | ModelLifecycleState.STOPPED, _ => FailedBeforeCutover
          | ModelLifecycleState.ACTIVE, None => Complete
          | _, None => Unavailable
          | ModelLifecycleState.ACTIVE, Some ModelLifecycleState.ERROR | ModelLifecycleState.ACTIVE, Some ModelLifecycleState.STOPPED => FailedAfterCutover
          | ModelLifecycleState.ACTIVE, Some ModelLifecycleState.DRAINING => DrainingSource
          | ModelLifecycleState.ACTIVE, Some ModelLifecycleState.ACTIVE => CuttingOver
          | _, _ => Deploying
          end
      end
  end.

(** ** Deleting *)
Definition TRANSIENT_STATES : list ModelLifecycleState := [ModelLifecycleState.PENDING; ModelLifecycleState.DRAINING; ModelLifecycleState.STOPPING].
Definition isTransientState (s : ModelLifecycleState) : bool := bool_decide (s ∈ TRANSIENT_STATES).
Definition canDeleteModelRow (s : ModelLifecycleState) : bool := negb (isTransientState s).
Definition canDeleteModelDetail (instances : list InstanceDetail) : bool := negb (existsb (λ i, isTransientState (id_state i)) instances).
Definition canDeleteInstanceRow (s : ModelLifecycleState) : bool := negb (isTransientState s).

(** ** The move dialog and the placement agree *)
Section targets.
Context (w : WorkerRecord) (b : WorkerBudget) (counts : list (string * Z)) (model : ModelDetail) (name : string).
Notation view := (worker_info (Some b) counts w).
Notation request := (Placement.mkRequest name (de_runnerType model) (de_requiredMemory model) (de_deviceType model) (de_tensorParallel model)).
Context (Hcaps : NoDup (runnerType <$> capabilities w)) (Htype : de_deviceType model ≠ Some "").

Lemma view_capabilities : default [] (wi_runnerCapabilities view) = capabilities w.
Proof. unfold worker_info. cbn. by destruct (capabilities w). Qed.
(** With one capability for each family, the one the dialog uses is the one the placement uses. *)
Lemma find_capability_spec c : find_capability request w = Some c ↔ c ∈ capabilities w ∧ runnerType c = de_runnerType model.
Proof.
  unfold find_capability. cbn [req_runnerType]. split.
  - intros [Hin Hr%bool_decide_eq_true]%find_some. split; [by apply list_elem_of_In|done].
  - intros [Hin Hr]. clear Htype. induction (capabilities w) as [|c' cs IH]; [by apply not_elem_of_nil in Hin|]. cbn [List.find].
    rewrite fmap_cons in Hcaps. apply NoDup_cons in Hcaps as [Hnot Hnd]. case_bool_decide as Hc.
    + apply elem_of_cons in Hin as [-> |Hin]; [done|]. destruct Hnot. rewrite Hc, <- Hr. by apply list_elem_of_fmap_2.
    + apply elem_of_cons in Hin as [-> |Hin]; [done|]. by apply IH.
Qed.
Lemma move_capability_spec c : move_capability view model = Some c ↔
  find_capability request w = Some c ∧ (de_tensorParallel model ≤ maxTensorParallelism c)%Z ∧
  (truthy_str (de_deviceType model) = true → supports_device c (default "" (de_deviceType model)) = true).
Proof.
  unfold move_capability. rewrite view_capabilities. rewrite find_capability_spec. split.
  - intros [Hin Hp]%find_some. rewrite !andb_true_iff, bool_decide_eq_true, Z.leb_le, orb_true_iff, negb_true_iff in Hp.
    rewrite <- list_elem_of_In in Hin. destruct Hp as [[? ?] Hd]. split_and!; [done|done|done|]. intros Ht. destruct Hd; [congruence|done].
  - intros ([Hin Hr] & Htp & Hd). clear Htype. induction (capabilities w) as [|c' cs IH]; [by apply not_elem_of_nil in Hin|]. cbn [List.find].
    rewrite fmap_cons in Hcaps. apply NoDup_cons in Hcaps as [Hnot Hnd]. case_bool_decide as Hc.
    + apply elem_of_cons in Hin as [<- |Hin]; [|destruct Hnot; rewrite Hc, <- Hr; by apply list_elem_of_fmap_2].
      apply Z.leb_le in Htp. rewrite Htp. cbn [andb]. destruct (truthy_str (de_deviceType model)); cbn [negb orb]; [by rewrite Hd|done].
    + cbn [andb]. apply elem_of_cons in Hin as [-> |Hin]; [done|]. by apply IH.
Qed.
Lemma truthy_type : truthy_str (de_deviceType model) = bool_decide (is_Some (de_deviceType model)).
Proof using Htype. destruct (de_deviceType model) as [[|a t]|]; [done|done|done]. Qed.
Lemma fixed_device_view c d : fixed_device_ok request c (Some d) = move_device model c (budget_device d).
Proof using Htype.
  unfold fixed_device_ok, move_device, has_room. cbn [availableBytes requiredMemory tensorParallel req_deviceType dv_deviceType dv_memoryAvailableBytes budget_device].
  rewrite truthy_type. destruct (ge_quot _ _ _), (supports_device _ _); cbn [andb]; rewrite ?andb_true_r, ?andb_false_r; try done.
  destruct (de_deviceType model) as [t|]; [|done]. rewrite (bool_decide_eq_true_2 (is_Some (Some t))) by done. by rewrite (bool_decide_eq_false_2 (Some t = None)).
Qed.
Lemma find_device_unique i d : NoDup (deviceIndex <$> wb_devices b) → d ∈ wb_devices b → deviceIndex d = i → find_device i (wb_devices b) = Some d.
Proof using Type.
  intros Hnd Hin <-. unfold find_device. induction (wb_devices b) as [|d' ds IH]; [by apply not_elem_of_nil in Hin|]. cbn [List.find].
  rewrite fmap_cons in Hnd. apply NoDup_cons in Hnd as [Hnot Hnd]. apply elem_of_cons in Hin as [<- |Hin]; [by rewrite bool_decide_eq_true_2|].
  rewrite bool_decide_eq_false_2; [by apply IH|]. intros Heq. destruct Hnot. rewrite Heq. by apply list_elem_of_fmap_2.
Qed.
Lemma find_device_some i d : find_device i (wb_devices b) = Some d → d ∈ wb_devices b ∧ deviceIndex d = i.
Proof using Type. intros [Hin Hi%bool_decide_eq_true]%find_some. split; [by apply list_elem_of_In|done]. Qed.
(** The devices the dialog offers. *)
Lemma elem_of_compatible i :
  i ∈ dv_deviceIndex <$> compatibleMoveDevices view model ↔
    status w = WorkerStatus.ONLINE ∧ ∃ c d, move_capability view model = Some c ∧ d ∈ wb_devices b ∧ deviceIndex d = i ∧ move_device model c (budget_device d) = true.
Proof using Type.
  unfold compatibleMoveDevices. rewrite list_elem_of_fmap. cbn [wi_status worker_info]. case_bool_decide as Hs; cbn [negb].
  2: { split; [intros (v & _ & Hv); by apply not_elem_of_nil in Hv|by intros [? _]]. }
  destruct (move_capability view model) as [c|]; [|split; [intros (v & _ & Hv); by apply not_elem_of_nil in Hv|by intros (_ & c & d & ? & _)]].
  cbn [wi_devices worker_info worker_devices]. split.
  - intros (v & -> & [Hv Hm]%list_elem_of_In%filter_In). apply list_elem_of_In, list_elem_of_fmap in Hv as (d & -> & Hd). split; [done|]. by exists c, d.
  - intros (_ & c' & d & [= <-] & Hd & <- & Hm). exists (budget_device d). split; [done|]. apply list_elem_of_In, filter_In. split; [|done].
    by apply list_elem_of_In, list_elem_of_fmap_2.
Qed.

Context (workers : list WorkerRecord) (budgets : list (string * WorkerBudget)).
Context (Hw : List.find (λ w', bool_decide (wr_workerId w' = wr_workerId w)) workers = Some w)
  (Hb : jm_get budgets (wr_workerId w) = Some b) (Hfresh : stale b = false) (Hidx : NoDup (deviceIndex <$> wb_devices b))
  (Hann : ∀ d, d ∈ wb_devices b → ∃ d', d' ∈ devices w ∧ device_str (wdi_deviceType d') = deviceType d) (Htp : (0 < de_tensorParallel model)%Z).
(** [placeFixed] on this worker, as one condition. *)
Lemma placeFixed_accepts indices :
  is_Some (placeFixed request (wr_workerId w) indices workers budgets) ↔
    Z.of_nat (length indices) = de_tensorParallel model ∧ status w = WorkerStatus.ONLINE ∧
    ∃ c, find_capability request w = Some c ∧ (de_tensorParallel model ≤ maxTensorParallelism c)%Z ∧ hardware_ok request (w, c) = true ∧
      forallb (fixed_device_ok request c) ((λ i, find_device i (wb_devices b)) <$> indices) = true.
Proof using Hw Hb Hfresh.
  unfold placeFixed. cbn [tensorParallel]. case_decide as Hlen; [split; [by intros []|tauto]|]. rewrite Hw.
  unfold filterByHealth. rewrite filter_cons. case_decide as Hs; [|rewrite filter_nil; split; [by intros []|tauto]].
  unfold filterByRunnerType. cbn [omap list_omap]. destruct (find_capability request w) as [c|]; cbn [mbind option_bind].
  2: { split; [by intros []|by intros (_ & _ & c & ? & _)]. }
  destruct (Z.ltb_spec (maxTensorParallelism c) (de_tensorParallel model)) as [Hlt|Hge].
  { split; [by intros []|]. intros (_ & _ & c' & [= <-] & Hle & _). lia. }
  unfold filterByHardware. cbn [List.filter]. destruct (hardware_ok request (w, c)) eqn:Hh.
  2: { split; [by intros []|]. intros (_ & _ & c' & [= <-] & _ & Ht & _). congruence. }
  rewrite Hb, Hfresh. destruct (forallb _ _) eqn:Hf.
  - split; [|by eexists]. intros _. split_and!; [done|done|]. by exists c.
  - split; [by intros []|]. intros (_ & _ & c' & [= <-] & _ & _ & Ht). congruence.
Qed.

Lemma hardware_from_device c d : d ∈ wb_devices b → (de_tensorParallel model ≤ maxTensorParallelism c)%Z → move_device model c (budget_device d) = true →
  hardware_ok request (w, c) = true.
Proof using Hann Htype.
  intros Hd Hle Hm. unfold hardware_ok. cbn [tensorParallel]. destruct (Z.ltb_spec (maxTensorParallelism c) (de_tensorParallel model)); [lia|].
  apply existsb_exists. destruct (Hann d Hd) as (d' & Hd' & Hty). exists d'. split; [by apply list_elem_of_In|]. rewrite Hty.
  unfold move_device in Hm. cbn [dv_deviceType budget_device] in Hm. rewrite !andb_true_iff in Hm. destruct Hm as [[Ha Hs] _]. by rewrite Hs, andb_true_r.
Qed.
Lemma type_supported c d : move_device model c (budget_device d) = true → truthy_str (de_deviceType model) = true →
  supports_device c (default "" (de_deviceType model)) = true.
Proof using Type.
  unfold move_device. cbn [dv_deviceType budget_device]. rewrite !andb_true_iff, orb_true_iff, negb_true_iff, bool_decide_eq_true. intros [[[Hf|Ht] Hs] _] Htr; [congruence|].
  by rewrite Ht.
Qed.

(** C40: the move dialog offers exactly what the control plane accepts.  For a worker with a
    fresh memory report and one capability for each runner family, shown as the worker list
    shows it: a choice of devices is accepted by the placement of a move if and only if it has
    as many devices as the model needs and the dialog offers each of them. *)
Theorem move_targets_agree indices :
  is_Some (placeFixed request (wr_workerId w) indices workers budgets) ↔
    Z.of_nat (length indices) = de_tensorParallel model ∧ ∀ i, i ∈ indices → i ∈ dv_deviceIndex <$> compatibleMoveDevices view model.
Proof using Type*.
  rewrite placeFixed_accepts. split.
  - intros (Hlen & Hs & c & Hc & Hle & _ & Hf). split; [done|]. rewrite forallb_forall in Hf.
    assert (∀ i, i ∈ indices → ∃ d, d ∈ wb_devices b ∧ deviceIndex d = i ∧ move_device model c (budget_device d) = true) as Hdev.
    { intros i Hi. specialize (Hf (find_device i (wb_devices b))). destruct (find_device i (wb_devices b)) as [d|] eqn:Hd.
      - destruct (find_device_some _ _ Hd) as [? ?]. exists d. split_and!; [done|done|]. rewrite <- fixed_device_view. apply Hf. apply list_elem_of_In, list_elem_of_fmap. by exists i.
      - exfalso. assert (fixed_device_ok request c None = true); [|done]. apply Hf. apply list_elem_of_In, list_elem_of_fmap. by exists i. }
    intros i Hi. apply elem_of_compatible. split; [done|]. destruct (Hdev i Hi) as (d & Hd & Hi' & Hm). exists c, d. split_and!; [|done..].
    apply move_capability_spec. split_and!; [done|done|]. by eapply type_supported.
  - intros [Hlen Hin]. assert (∃ i, i ∈ indices) as [i0 Hi0] by (destruct indices as [|i ?]; [simpl in Hlen; lia|exists i; left]).
    apply Hin, elem_of_compatible in Hi0 as (Hs & c & d0 & Hc & Hd0 & _ & Hm0). apply move_capability_spec in Hc as Hspec.
    destruct Hspec as (Hfc & Hle & _). split_and!; [done|done|]. exists c. split_and!; [done|done|by eapply hardware_from_device|].
    apply forallb_forall. intros o (i & -> & Hi)%list_elem_of_In%list_elem_of_fmap. apply Hin, elem_of_compatible in Hi as (_ & c' & d & Hc' & Hd & Hi & Hm).
    rewrite Hc in Hc'. injection Hc' as <-. rewrite (find_device_unique i d) by done. by rewrite fixed_device_view.
Qed.
End targets.

(** ** The delete affordances and the delete routes *)
Lemma transient_states_agree s : isTransientState s = TRANSIENT_FOR_DELETE s.
Proof. by destruct s. Qed.
Lemma canDeleteModelDetail_views createdAt measured instances :
  canDeleteModelDetail ((λ i, toInstanceDetail i (jm_get createdAt (instanceId i)) measured) <$> instances) =
    bool_decide (List.find (λ i, TRANSIENT_FOR_DELETE (state i)) instances = None).
Proof.
  unfold canDeleteModelDetail. induction instances as [|i is_ IH]; [done|]. cbn [fmap list_fmap existsb List.find toInstanceDetail id_state].
  rewrite transient_states_agree. destruct (TRANSIENT_FOR_DELETE (state i)); [by rewrite bool_decide_eq_false_2|exact IH].
Qed.
Section deleting.
Context `{Env, RedisScan, JsDate} (keyPrefix : string) (sleepTimeoutMs healthCheckIntervalMs : Z).
(** The row of the list page, which knows only the aggregate state, hides the affordance only
    of a model whose detail page hides it too. *)
Lemma row_gate_sound createdAt measured ts row name instances :
  canDeleteModelRow (in_state (model_info measured ts name row instances)) = false →
  canDeleteModelDetail ((λ i, toInstanceDetail i (jm_get createdAt (instanceId i)) measured) <$> instances) = false.
Proof.
  rewrite canDeleteModelDetail_views, bool_decide_eq_false. cbn [in_state model_info]. unfold canDeleteModelRow. rewrite negb_false_iff, transient_states_agree.
  intros Ht Hnone. destruct (deriveAggregateState_spec instances) as (_ & Hex & _).
  destruct Hex as (i & Hi & Hs); [by intros Hs; rewrite Hs in Ht|]. apply list_elem_of_In in Hi. pose proof (find_none _ _ Hnone i Hi) as Hi'. cbn beta in Hi'. congruence.
Qed.
(** The delete affordances follow the delete route.  The detail page hides the affordance
    exactly when some instance is in a state the route refuses, and then the graceful delete
    fails with the invalid-state error of such an instance and changes nothing.  The list page,
    which knows only the aggregate state, hides the affordance only of such a model. *)
Theorem delete_affordances_follow_the_route name createdAt measured instances w :
  (canDeleteModelDetail ((λ i, toInstanceDetail i (jm_get createdAt (instanceId i)) measured) <$> instances) = false ↔
    ∃ i, i ∈ instances ∧ TRANSIENT_FOR_DELETE (state i) = true ∧
      delete_gracefully keyPrefix sleepTimeoutMs healthCheckIntervalMs name instances w =
        (inl (CPError (invalidInstanceState name (instanceId i) (lifecycle_str (state i)) "delete")), w)) ∧
  (∀ ts row, canDeleteModelRow (in_state (model_info measured ts name row instances)) = false →
    canDeleteModelDetail ((λ i, toInstanceDetail i (jm_get createdAt (instanceId i)) measured) <$> instances) = false).
Proof.
  split; [|intros ts row; apply row_gate_sound].
  rewrite canDeleteModelDetail_views, bool_decide_eq_false. unfold delete_gracefully.
  destruct (List.find _ instances) as [i|] eqn:Hf.
  - apply find_some in Hf as [Hin Ht]. split; [|done]. intros _. exists i. split_and!; [by apply list_elem_of_In|done|done].
  - split; [done|]. intros (i & Hi & Ht & _). apply list_elem_of_In in Hi. rewrite (find_none _ _ Hf i Hi) in Ht. done.
Qed.
End deleting.
(** The converse fails for the row: an ACTIVE instance hides a draining one, and the row offers
    a delete that the route refuses. *)
Lemma row_gate_incomplete : ∃ instances, canDeleteModelRow (deriveAggregateState instances) = true ∧
  existsb (λ i, TRANSIENT_FOR_DELETE (state i)) instances = true.
Proof. by exists [ex_inst "m" "a" ModelLifecycleState.ACTIVE; ex_inst "m" "b" ModelLifecycleState.DRAINING]. Qed.

(** ** The progress of a move *)
Definition listed (id : string) (is_ : list InstanceDetail) : option ModelLifecycleState :=
  id_state <$> List.find (λ i, bool_decide (id_instanceId i = id)) is_.
(** The dialog says the move is complete only when the replacement serves and the source is
    gone, and that it failed after the cutover only when both are there, the replacement
    serving. *)
Theorem classify_final instances src rep observed accepted now :
  let p := classifyMoveProgress (Some instances) src rep observed accepted now in
  (p = Complete ↔ listed rep instances = Some ModelLifecycleState.ACTIVE ∧ listed src instances = None) ∧
  (p = FailedAfterCutover ↔ listed rep instances = Some ModelLifecycleState.ACTIVE ∧
     (listed src instances = Some ModelLifecycleState.ERROR ∨ listed src instances = Some ModelLifecycleState.STOPPED)).
Proof.
  cbn zeta. unfold classifyMoveProgress, listed.
  destruct (List.find (λ i, bool_decide (id_instanceId i = rep)) instances) as [r|]; cbn [fmap option_fmap option_map].
  2: { destruct (_ && _); naive_solver. }
  destruct (List.find _ instances) as [s|]; cbn [fmap option_fmap option_map]; destruct (id_state r); try (destruct (id_state s)); naive_solver.
Qed.
(** A replacement that fails after the cutover, when the source is already gone, is shown as a
    failure before the cutover, whose message says that the source is still serving. *)
Theorem late_failure_is_shown_as_early : ∃ instances src rep,
  classifyMoveProgress (Some instances) src rep true (Some 0%Z) 1%Z = FailedBeforeCutover ∧ listed src instances = None.
Proof. by exists [toInstanceDetail (ex_inst "m" "new" ModelLifecycleState.ERROR) None []], "old", "new". Qed.
(** The dialog takes any capability that fits where the placement takes the first of the runner
    family, so with two capabilities of one family it can offer what the placement refuses. *)
Definition two_capabilities : WorkerRecord :=
  mkWorker "w2" WorkerStatus.ONLINE
    [mkCapability "vllm" "vLLM" [] [DeviceType.CUDA] [] None 1 false None; mkCapability "vllm" "vLLM" [] [DeviceType.CUDA] [] None 4 false None]
    (devices (example_worker "w2")) None "0" "http://w2".
Definition example_detail : ModelDetail :=
  mkModelDetail "m" None ModelLifecycleState.ACTIVE "vllm" "" 80 (Some "CUDA") 2 None None None None false [] None "" "".
Theorem dialog_offers_more : ∃ w b budgets,
  compatibleMoveDevices (worker_info (Some b) [] w) example_detail ≠ [] ∧ jm_get budgets (wr_workerId w) = Some b ∧
  placeFixed example_request (wr_workerId w) [0; 1]%Z [w] budgets = None.
Proof.
  exists two_capabilities, (snd (example_budget "w2" 90 40)), [example_budget "w2" 90 40]. split; [|done]. apply (bool_decide_unpack _). vm_compute. done.
Qed.

Lemma move_targets_agree_witness :
  is_Some (placeFixed example_request "w2" [1; 0]%Z example_workers (budgets example_state)).
Proof.
  apply (move_targets_agree (example_worker "w2") (snd (example_budget "w2" 90 40)) [] example_detail "m").
  - apply (bool_decide_unpack _). vm_compute. done.
  - done.
  - vm_compute. reflexivity.
  - vm_compute. reflexivity.
  - reflexivity.
  - apply (bool_decide_unpack _). vm_compute. done.
  - intros d Hd. exists (mkWorkerDevice 0 DeviceType.CUDA 100). split; [left|].
    cbn in Hd. apply elem_of_cons in Hd as [-> |Hd]; [done|]. apply list_elem_of_singleton in Hd as ->. done.
  - done.
  - split; [done|]. apply Forall_forall. apply (bool_decide_unpack _). vm_compute. done.
Defined.
