(* ===== verification/EngineArgs.v ===== *)
(** * Engine arguments in the deploy form (dashboard/src/utils/engineArgs.ts)

    The form takes the engine's arguments as text, one flag to a line, and refuses the flags
    the platform controls, so that a user sees the mistake before the deployment fails.  The
    launcher on the worker ([Apptainer]) checks the same again.  The theorem compares the two
    checks. *)
From stdpp Require Import base tactics list strings sets.
From Stdlib Require Import ZArith Lia Ascii.
From S2P Require Import Prelude Js Types Apptainer.

Definition RESERVED_ENGINE_FLAGS : list string :=
  ["--port"; "--host"; "--model"; "--served-model-name"; "--tensor-parallel-size"; "--engine-port"].
Inductive EngineArgsError :=
  | PrefixError (line : nat) (content : string)
  | ReservedError (line : nat) (flag : string) (abbreviates : option string).

Definition eq_char : ascii := "="%char.
Fixpoint last_char (s : string) : option ascii :=
  match s with EmptyString => None | String c "" => Some c | String _ s' => last_char s' end.
Definition stripOneQuoteLayer (v : string) : string :=
  match v with
  | String q _ =>
      if Nat.leb 2 (str_length v) && (bool_decide (q = "034"%char) || bool_decide (q = "'"%char)) && bool_decide (last_char v = Some q)
      then str_take (str_length v - 2) (str_drop 1 v) else v
  | EmptyString => v
  end.

(** The match of the regular expression: two dashes and a key of characters other than white
    space and the equals sign, as long as possible, then the rest, which is within one line. *)
Definition key_char (c : ascii) : bool := negb (js_space c) && negb (bool_decide (c = eq_char)).
Fixpoint span_key (s : string) : string * string :=
  match s with
  | String c s' => if key_char c then let '(k, rest) := span_key s' in (String c k, rest) else ("", s)
  | EmptyString => ("", "")
  end.
Definition match_flag (trimmed : string) : option (string * string) :=
  if negb (starts_with "--" trimmed) then None else
  let '(k, rest) := span_key (str_drop 2 trimmed) in
  if bool_decide (k = "") || has_char "010"%char rest || has_char "013"%char rest then None else Some ("--" +:+ k, rest).

(** A line: nothing to pass on, an error, or its tokens. *)
Inductive FlagLine := Bare (key : string) | Assigned (key value : string) | Spaced (key value : string).
Definition line_tokens (l : FlagLine) : list string :=
  match l with Bare k => [k] | Assigned k v => [k +:+ "=" +:+ v] | Spaced k v => [k; v] end.
Definition parse_line (n : nat) (line : string) : EngineArgsError + option FlagLine :=
  let trimmed := js_trim line in
  if bool_decide (trimmed = "") || starts_with "#" trimmed then inr None else
  match match_flag trimmed with
  | None => inl (PrefixError n trimmed)
  | Some (key, rest) =>
      if bool_decide (key ∈ RESERVED_ENGINE_FLAGS) then inl (ReservedError n key None) else
      match (if Nat.ltb 2 (str_length key)
             then List.find (λ reserved, negb (bool_decide (reserved = key)) && starts_with key reserved) RESERVED_ENGINE_FLAGS else None) with
      | Some abbreviated => inl (ReservedError n key (Some abbreviated))
      | None =>
          inr (Some match rest with
                    | EmptyString => Bare key
                    | String c v => if bool_decide (c = eq_char) then Assigned key (stripOneQuoteLayer v) else Spaced key (stripOneQuoteLayer (trim_start rest))
                    end)
      end
  end.
Fixpoint parse_lines (n : nat) (lines : list string) : EngineArgsError + list FlagLine :=
  match lines with
  | [] => inr []
  | l :: ls =>
      match parse_line n l with
      | inl e => inl e
      | inr fl => match parse_lines (S n) ls with inl e => inl e | inr fls => inr (match fl with Some f => f :: fls | None => fls end) end
      end
  end.
Definition parseEngineArgs (raw : string) : EngineArgsError + list FlagLine := parse_lines 1 (split_on "010"%char raw).
(** The [args] of a result. *)
Definition args_of (lines : list FlagLine) : list string := lines ≫= line_tokens.

(** ** Lemmas *)
Lemma flag_key_app k v : has_char eq_char k = false → flag_key (k +:+ String eq_char v) = k.
Proof. intros Hk. unfold flag_key. by rewrite split_on_app, split_on_no_char. Qed.
Lemma flag_key_plain k : has_char eq_char k = false → flag_key k = k.
Proof. intros Hk. unfold flag_key. by rewrite split_on_no_char. Qed.
Lemma span_key_no_eq s : has_char eq_char (span_key s).1 = false.
Proof.
  induction s as [|c s IH]; [done|]. cbn [span_key]. destruct (key_char c) eqn:Hc; [|done]. destruct (span_key s) as [k rest]. cbn [fst has_char] in *.
  unfold key_char in Hc. rewrite andb_true_iff, !negb_true_iff, bool_decide_eq_false in Hc. rewrite orb_false_iff, bool_decide_eq_false. split; [|done]. intros E. by apply Hc.
Qed.
Lemma match_flag_inv t key rest : match_flag t = Some (key, rest) → starts_with "--" key = true ∧ has_char eq_char key = false.
Proof.
  unfold match_flag. destruct (negb _); [done|]. pose proof (span_key_no_eq (str_drop 2 t)) as Hk. destruct (span_key (str_drop 2 t)) as [k r]. cbn [fst] in Hk.
  destruct (_ || _); [done|]. intros [= <- _]. split; [apply starts_with_app|]. by rewrite has_char_app, Hk.
Qed.
(** The two checks of a key. *)
Lemma key_checks key rest n line : match_flag (js_trim line) = Some (key, rest) → starts_with "#" (js_trim line) = false → js_trim line ≠ "" →
  match parse_line n line with
  | inl (ReservedError _ flag _) => flag = key ∧ ∀ t, flag_key t = key → starts_with "--" t = true → check_engine_arg t ≠ None
  | inl _ => False
  | inr None => False
  | inr (Some f) => (∃ tail, line_tokens f = key :: tail ∨ ∃ v, line_tokens f = [key +:+ String eq_char v]) ∧ ∀ t, flag_key t = key → check_engine_arg t = None
  end.
Proof.
  intros Hm Hh He. unfold parse_line. rewrite (bool_decide_eq_false_2 _ He), Hh. cbn [orb]. rewrite Hm.
  change RESERVED_ENGINE_FLAGS with Apptainer.RESERVED_ENGINE_FLAGS. unfold check_engine_arg.
  destruct (bool_decide (key ∈ Apptainer.RESERVED_ENGINE_FLAGS)) eqn:Hr.
  { split; [done|]. intros t -> ->. simpl. by rewrite Hr. }
  destruct (Nat.ltb 2 (str_length key)) eqn:Hl.
  - destruct (List.find _ _) as [ab|] eqn:Hf.
    + split; [done|]. intros t -> ->. cbn [negb]. by rewrite Hr, Hl, Hf.
    + split; [|intros t ->; rewrite Hr, Hl, Hf; by destruct (negb _)]. destruct rest as [|c v]; [by exists []; left|]. destruct (bool_decide (c = eq_char)); [exists []; right; by eexists|exists [stripOneQuoteLayer (trim_start (String c v))]; by left].
  - split; [|intros t ->; rewrite Hr, Hl; by destruct (negb _)]. destruct rest as [|c v]; [by exists []; left|]. destruct (bool_decide (c = eq_char)); [exists []; right; by eexists|exists [stripOneQuoteLayer (trim_start (String c v))]; by left].
Qed.
Lemma line_accepted n line f : parse_line n line = inr (Some f) →
  (∀ k v, f = Spaced k v → starts_with "--" v = false) → ∀ t, t ∈ line_tokens f → check_engine_arg t = None.
Proof.
  intros Hp Hv t Ht. destruct (bool_decide (js_trim line = "")) eqn:He; [unfold parse_line in Hp; by rewrite He in Hp|].
  destruct (starts_with "#" (js_trim line)) eqn:Hh; [unfold parse_line in Hp; by rewrite He, Hh in Hp|].
  destruct (match_flag (js_trim line)) as [[key rest]|] eqn:Hm; [|unfold parse_line in Hp; by rewrite He, Hh, Hm in Hp].
  pose proof (key_checks key rest n line Hm Hh ltac:(by apply bool_decide_eq_false in He)) as Hk. rewrite Hp in Hk. destruct Hk as [Htok Hk].
  destruct (match_flag_inv _ _ _ Hm) as [_ Hneq]. destruct f as [k|k v|k v]; cbn [line_tokens] in *.
  - apply list_elem_of_singleton in Ht as ->. apply Hk. destruct Htok as (tail & [[= -> _]|(v & [= ->])]); [by apply flag_key_plain|by apply flag_key_app].
  - apply list_elem_of_singleton in Ht as ->. apply Hk. destruct Htok as (tail & [[= <- _]|(v' & [= E])]); [by apply flag_key_plain|]. rewrite E. by apply flag_key_app.
  - apply elem_of_cons in Ht as [-> |Ht%list_elem_of_singleton].
    + apply Hk. destruct Htok as (tail & [[= -> _]|(v' & [= E])]). by apply flag_key_plain.
    + subst t. unfold check_engine_arg. by rewrite (Hv k v eq_refl).
Qed.

(** The form and the launcher agree about reserved flags.  Arguments the form accepts, in
    which no value after a space itself looks like a flag, are accepted by the launcher's check;
    and a flag the form refuses as reserved, or as an abbreviation of a reserved flag, the
    launcher refuses too, bare or with a value. *)
Theorem form_agrees_with_launcher raw :
  (∀ lines, parseEngineArgs raw = inr lines → (∀ k v, Spaced k v ∈ lines → starts_with "--" v = false) → check_engine_args (args_of lines) = None) ∧
  (∀ n flag ab, parseEngineArgs raw = inl (ReservedError n flag ab) → check_engine_arg flag ≠ None ∧ ∀ v, check_engine_arg (flag +:+ String eq_char v) ≠ None).
Proof.
  unfold parseEngineArgs. generalize 1 as n0, (split_on "010"%char raw) as ls. intros n0 ls. revert n0. induction ls as [|l ls IH]; intros n0; cbn [parse_lines].
  { split; [by intros lines [= <-]|done]. }
  destruct (parse_line n0 l) as [e|fl] eqn:Hp.
  - split; [done|]. intros n flag ab [= ->]. unfold parse_line in Hp. destruct (bool_decide (js_trim l = "") || starts_with "#" (js_trim l)) eqn:Hs; [done|].
    apply orb_false_iff in Hs as [He%bool_decide_eq_false Hh]. destruct (match_flag (js_trim l)) as [[key rest]|] eqn:Hm; [|done].
    pose proof (key_checks key rest n0 l Hm Hh He) as Hk. unfold parse_line in Hk. rewrite (bool_decide_eq_false_2 _ He), Hh in Hk. cbn [orb] in Hk. rewrite Hm in Hk. rewrite Hp in Hk.
    destruct Hk as [-> Hk], (match_flag_inv _ _ _ Hm) as [Hd Hneq]. split; [apply Hk; [by apply flag_key_plain|done]|].
    intros v. apply Hk; [by apply flag_key_app|]. apply starts_with_spec in Hd as [t ->]. apply starts_with_spec. eexists. by rewrite str_app_assoc.
  - destruct (IH (S n0)) as [IHa IHr]. destruct (parse_lines (S n0) ls) as [e|fls]; [split; [done|exact IHr]|]. split; [|done].
    intros lines [= <-] Hv. destruct fl as [f|]; [|by apply IHa]. change (args_of (f :: fls)) with (line_tokens f ++ args_of fls). apply (proj2 (check_engine_args_spec _)). intros t [Ht|Ht]%elem_of_app.
    + eapply line_accepted; [exact Hp| |exact Ht]. intros k v ->. apply (Hv k). left.
    + assert (check_engine_args (args_of fls) = None) as Hrest by (apply IHa; [done|]; intros k v Hin; apply (Hv k); by right).
      rewrite check_engine_args_spec in Hrest. by apply Hrest.
Qed.

Definition sample_text : string := "--max-model-len=" +:+ String "034" ("4096" +:+ String "034" (String "010" "# comment")) +:+ String "010" "--enforce-eager  ".
Lemma form_agrees_with_launcher_witness :
  parseEngineArgs sample_text = inr [Assigned "--max-model-len" "4096"; Bare "--enforce-eager"] ∧
  check_engine_args (args_of [Assigned "--max-model-len" "4096"; Bare "--enforce-eager"]) = None ∧
  parseEngineArgs "--hos 0.0.0.0" = inl (ReservedError 1 "--hos" (Some "--host")) ∧ check_engine_arg "--hos" ≠ None.
Proof.
  split; [by vm_compute|]. split; [|split; [by vm_compute|]].
  - destruct (form_agrees_with_launcher sample_text) as [Ha _]. apply Ha; [by vm_compute|]. intros k v [Hin|[Hin|Hin%elem_of_nil]%elem_of_cons]%elem_of_cons; done.
  - destruct (form_agrees_with_launcher "--hos 0.0.0.0") as [_ Hr]. apply (Hr 1 "--hos" (Some "--host")). by vm_compute.
Defined.
