(* ===== verification/ModelColors.v ===== *)
(** * The colours of the models (dashboard/src/utils/memorySegments.ts)

    Every model on a page gets a slot of the palette: the one its name hashes to, or the next
    free one, or when all are taken, the one used least. *)
From stdpp Require Import base tactics list strings sets sorting.
From Stdlib Require Import ZArith Lia Ascii.
From S2P Require Import Prelude Js Types Eviction.

(** [x | 0]: the value of [x] as a signed 32-bit integer. *)
Definition to_int32 (x : Z) : Z := ((x + 2 ^ 31) mod 2 ^ 32 - 2 ^ 31)%Z.
Fixpoint hash_from (h : Z) (value : string) : Z :=
  match value with EmptyString => h | String c s => hash_from (to_int32 (h * 31 + Z.of_nat (nat_of_ascii c))) s end.
Definition hashIndex (value : string) (length_ : nat) : nat := Z.to_nat (Z.abs (hash_from 0 value) mod Z.of_nat length_).

Definition MODEL_PALETTE_HEX : list string :=
  ["#0066CC"; "#63993D"; "#5E40BE"; "#37A3A3"; "#CA6C0F"; "#B98412"; "#F0561D";
   "#003366"; "#204D00"; "#21134D"; "#004D4D"; "#732E00"; "#73480B"; "#731F00"].
Definition size : nat := length MODEL_PALETTE_HEX.

Definition uses_at (uses : list nat) (slot : nat) : nat := default 0 (uses !! slot).
(** The inner loop, with [left] steps to go. *)
Fixpoint probe (left step start : nat) (uses : list nat) (best : nat) : nat :=
  match left with
  | O => best
  | S left' =>
      let slot := (start + step) mod size in
      if decide (uses_at uses slot = 0) then slot
      else probe left' (S step) start uses (if decide (uses_at uses slot < uses_at uses best) then slot else best)
  end.
Definition pick (name : string) (uses : list nat) : nat := let start := hashIndex name size in probe size 0 start uses start.
Definition assign_one (acc : list nat * list (string * nat)) (name : string) : list nat * list (string * nat) :=
  let best := pick name acc.1 in
  (<[best := S (uses_at acc.1 best)]> acc.1, jm_set acc.2 name best).
Section colors.
Context `{!LocaleCompare}.
Definition assignModelColors (modelNames : list string) : list (string * nat) :=
  (foldl assign_one (replicate size 0, []) (js_sort localeCompare (js_unique modelNames []))).2.
End colors.
Definition hexForColorIndex (index : nat) : string := default "" (MODEL_PALETTE_HEX !! (index mod length MODEL_PALETTE_HEX)).

(** ** The slot that is picked *)
Lemma hashIndex_lt name : hashIndex name size < size.
Proof. unfold hashIndex. pose proof (Z.mod_pos_bound (Z.abs (hash_from 0 name)) (Z.of_nat size)). change (Z.of_nat size) with 14%Z in *. change size with 14. lia. Qed.
(** From [step] on: a slot not used more than any slot seen, before or now. *)
Lemma probe_least left step start uses best : best < size →
  let r := probe left step start uses best in
  r < size ∧ uses_at uses r ≤ uses_at uses best ∧ ∀ k, step ≤ k < step + left → uses_at uses r ≤ uses_at uses ((start + k) mod size).
Proof.
  revert step best. induction left as [|left IH]; intros step best Hb; cbn [probe]; [split_and!; [done|done|lia]|].
  assert ((start + step) mod size < size) as Hs by (apply Nat.mod_upper_bound; done). destruct (decide (uses_at uses _ = 0)) as [H0'|Hne]; [split_and!; [done|lia|intros; lia]|].
  set (best' := if decide (uses_at uses ((start + step) mod size) < uses_at uses best) then (start + step) mod size else best).
  assert (best' < size ∧ uses_at uses best' ≤ uses_at uses best ∧ uses_at uses best' ≤ uses_at uses ((start + step) mod size)) as (Hb' & Hle & Hle') by (unfold best'; case_decide; lia).
  destruct (IH (S step) best' Hb') as (Hr & Hrb & Hrk). split_and!; [done|lia|]. intros k Hk. destruct (decide (k = step)) as [-> |Hks]; [lia|]. apply Hrk. lia.
Qed.
Lemma pick_least name uses : pick name uses < size ∧ ∀ slot, slot < size → uses_at uses (pick name uses) ≤ uses_at uses slot.
Proof.
  unfold pick. pose proof (hashIndex_lt name) as Hh. destruct (probe_least size 0 (hashIndex name size) uses (hashIndex name size) Hh) as (Hr & _ & Hk).
  split; [done|]. intros slot Hs. set (start := hashIndex name size) in *. specialize (Hk ((slot + size - start) mod size)).
  assert ((start + (slot + size - start) mod size) mod size = slot) as E.
  { rewrite Nat.Div0.add_mod_idemp_r. replace (start + (slot + size - start)) with (slot + 1 * size) by lia. rewrite Nat.Div0.mod_add. by apply Nat.mod_small. }
  rewrite E in Hk. apply Hk. split; [lia|]. pose proof (Nat.mod_upper_bound (slot + size - start) size ltac:(done)). lia.
Qed.

(** ** The assignment *)
(** How often a slot is given out. *)
Definition given (m : list (string * nat)) (slot : nat) : nat := length (List.filter (Nat.eqb slot) (jm_values m)).
Lemma given_app m n slot s : given (m ++ [(n, slot)]) s = given m s + (if Nat.eqb s slot then 1 else 0).
Proof. unfold given, jm_values. rewrite fmap_app, List.filter_app, length_app. simpl. by destruct (Nat.eqb s slot). Qed.
Lemma jm_set_new {V} (m : list (string * V)) k v : k ∉ jm_keys m → jm_set m k v = m ++ [(k, v)].
Proof.
  induction m as [|[k' v'] m IH]; [done|]. unfold jm_keys in *. rewrite fmap_cons. intros [Hne Hni]%not_elem_of_cons.
  change (jm_set ((k', v') :: m) k v) with (if decide (k' = k) then (k', v) :: m else (k', v') :: jm_set m k v). rewrite decide_False by done. by rewrite IH.
Qed.
Record color_inv (names : list string) (acc : list nat * list (string * nat)) : Prop := {
  ci_length : length acc.1 = size;
  ci_names : jm_keys acc.2 = names;
  ci_slots : Forall (λ slot, slot < size) (jm_values acc.2);
  ci_uses slot : slot < size → uses_at acc.1 slot = given acc.2 slot;
  ci_even i j : i < size → j < size → given acc.2 i ≤ S (given acc.2 j);
}.
Lemma assign_one_inv names acc name : name ∉ names → color_inv names acc → color_inv (names ++ [name]) (assign_one acc name).
Proof.
  intros Hni [Hl Hn Hs Hu He]. destruct acc as [uses m]. cbn [fst snd] in *. unfold assign_one. cbn [fst snd]. destruct (pick_least name uses) as [Hp Hleast].
  set (best := pick name uses) in *. subst names. rewrite jm_set_new by done. split; cbn [fst snd].
  - by rewrite length_insert.
  - unfold jm_keys. by rewrite fmap_app.
  - unfold jm_values in *. rewrite fmap_app, Forall_app. split; [done|]. constructor; [done|constructor].
  - intros slot Hslot. rewrite given_app, <- Hu by done. unfold uses_at. destruct (Nat.eqb_spec slot best) as [-> |Hne].
    + rewrite list_lookup_insert_eq by lia. simpl. lia.
    + rewrite list_lookup_insert_ne by done. lia.
  - intros i j Hi Hj. rewrite !given_app. specialize (He i j Hi Hj). specialize (Hleast j Hj). rewrite !Hu in Hleast by done.
    destruct (Nat.eqb_spec i best) as [-> |]; destruct (Nat.eqb j best); lia.
Qed.
Lemma assign_all_inv names acc rest : NoDup (names ++ rest) → color_inv names acc → color_inv (names ++ rest) (foldl assign_one acc rest).
Proof.
  revert names acc. induction rest as [|n rest IH]; intros names acc Hnd Hi; [by rewrite app_nil_r|]. simpl. replace (names ++ n :: rest) with ((names ++ [n]) ++ rest) in * by (by rewrite <- app_assoc).
  apply IH; [done|]. apply assign_one_inv; [|done]. apply NoDup_app in Hnd as ((Hnd & Hdisj & _)%NoDup_app & _). intros Hin. apply (Hdisj n Hin). set_solver.
Qed.
(** All slots together: as many as names. *)
Lemma given_total m : Forall (λ slot, slot < size) (jm_values m) → foldr (λ s n, given m s + n) 0 (seq 0 size) = length m.
Proof.
  unfold given, jm_values. rewrite <- (length_fmap snd m). induction (m.*2) as [|v vs IH]; intros Hv; [by vm_compute|]. inversion Hv as [|? ? Hlt Hvs]; subst.
  simpl length. rewrite <- (IH Hvs). clear -Hlt. change size with 14 in *. do 14 (destruct v as [|v]; [simpl; lia|]). lia.
Qed.
Lemma even_distinct m : Forall (λ slot, slot < size) (jm_values m) → (∀ i j, i < size → j < size → given m i ≤ S (given m j)) → length m ≤ size → NoDup (jm_values m).
Proof.
  intros Hs He Hl. assert (∀ slot, slot < size → given m slot ≤ 1) as Hone.
  { intros slot Hslot. destruct (decide (given m slot ≤ 1)) as [|Hgt]; [done|]. exfalso. pose proof (given_total m Hs) as Ht.
    assert (∀ ss, Forall (λ s, s < size) ss → length ss + (if decide (slot ∈ ss) then 1 else 0) ≤ foldr (λ s n, given m s + n) 0 ss) as Hsum.
    { induction 1 as [|s ss Hlt _ IH]; [done|]. simpl. specialize (He slot s Hslot Hlt).
      destruct (decide (slot ∈ s :: ss)) as [Hin|]; [|case_decide; lia]. destruct (decide (slot ∈ ss)); [lia|].
      apply elem_of_cons in Hin as [-> |]; [lia|done]. }
    specialize (Hsum (seq 0 size)). rewrite Ht, length_seq, decide_True in Hsum by (apply elem_of_seq; lia).
    assert (Forall (λ s, s < size) (seq 0 size)) as Hall by (apply Forall_forall; intros s ?%elem_of_seq; lia). specialize (Hsum Hall). lia. }
  unfold given in Hone. clear He Hl. induction (jm_values m) as [|v vs IH]; [constructor|]. inversion Hs as [|? ? Hlt Hvs]; subst. constructor.
  - intros Hin. specialize (Hone v Hlt). simpl in Hone. rewrite Nat.eqb_refl in Hone. simpl in Hone.
    assert (In v (List.filter (Nat.eqb v) vs)) as Hf by (apply filter_In; split; [by apply list_elem_of_In|apply Nat.eqb_refl]). destruct (List.filter _ vs); [done|]. simpl in Hone. lia.
  - apply IH; [done|]. intros slot Hslot. specialize (Hone slot Hslot). simpl in Hone. destruct (Nat.eqb slot v); simpl in Hone; lia.
Qed.

Section theorems.
Context `{!LocaleCompare}.
Lemma sorted_names_NoDup names : NoDup (js_sort localeCompare (js_unique names [])).
Proof. rewrite js_sort_perm. apply js_unique_NoDup. Qed.
Lemma assign_colors_inv names : ∃ uses, color_inv (js_sort localeCompare (js_unique names [])) (uses, assignModelColors names).
Proof.
  unfold assignModelColors. pose proof (sorted_names_NoDup names) as Hnd. revert Hnd. generalize (js_sort localeCompare (js_unique names [])) as ns. intros ns Hnd.
  pose proof (assign_all_inv [] (replicate size 0, []) ns Hnd) as Hi. destruct (foldl assign_one _ ns) as [uses m]. exists uses. apply Hi. split; cbn [fst snd]; [done|done|constructor| |].
  - intros slot Hs. unfold uses_at. by rewrite lookup_replicate_2.
  - intros. unfold given. simpl. lia.
Qed.
(** The colours tell the models apart.  Every model of the page, and nothing else, gets a
    slot of the palette; the slots are used evenly, no one more than once oftener than any
    other; and as long as there are not more models than slots, no two models share one. *)
Theorem model_colors_distinct names :
  let m := assignModelColors names in
  (∀ n, n ∈ jm_keys m ↔ n ∈ names) ∧ Forall (λ slot, slot < size) (jm_values m) ∧
  (∀ i j, i < size → j < size → given m i ≤ S (given m j)) ∧
  (length (js_unique names []) ≤ size → NoDup (jm_values m)).
Proof.
  destruct (assign_colors_inv names) as (uses & [_ Hn Hs _ He]). cbn [snd] in *. split_and!; [|done|done|].
  - intros n. rewrite Hn, js_sort_perm, elem_of_js_unique. set_solver.
  - intros Hl. apply even_distinct; [done|done|]. rewrite <- (js_sort_perm localeCompare), <- Hn in Hl. unfold jm_keys in Hl. by rewrite length_fmap in Hl.
Qed.
(** The assignment depends only on which models are shown, not on their order. *)
Theorem model_colors_order_free names names' :
  (∀ x y, localeCompare x y = 0%Z → x = y) → (∀ n, n ∈ names ↔ n ∈ names') → assignModelColors names = assignModelColors names'.
Proof.
  intros Hanti Hsame. unfold assignModelColors. do 2 f_equal. apply (StronglySorted_unique_strong (ordered localeCompare)).
  - intros x y _ _ Hxy Hyx. apply Hanti. unfold ordered in *. destruct (Z.lt_trichotomy (localeCompare x y) 0) as [Hlt|[|]]; [|done|lia]. apply localeCompare_lt in Hlt. lia.
  - apply js_sort_sorted; [apply localeCompare_ge|apply localeCompare_trans].
  - apply js_sort_sorted; [apply localeCompare_ge|apply localeCompare_trans].
  - rewrite !js_sort_perm. apply NoDup_Permutation; [apply js_unique_NoDup..|]. intros n. rewrite !elem_of_js_unique, Hsame. done.
Qed.
End theorems.
