(* ===== verification/Panels.v ===== *)
(** * What the panels of the dashboard draw (dashboard/src/utils/gpuMemoryPanel.ts,
    dashboard/src/pages/Playground/sidebarGroups.ts)

    The stacked bar of a device with the memory of the models on it, and the groups of the
    sidebar of the playground, computed from the control plane's view of the cluster's memory
    (module Views).  Shares of memory are exact rationals. *)
From stdpp Require Import base tactics list strings sets.
From Stdlib Require Import ZArith QArith Lqa Lia Ascii Sorted DecimalString.
From S2P Require Import Prelude Js Types ModelName MemoryBudget Eviction Views ModelColors.
Local Open Scope nat_scope.

(** ** gpuMemoryPanel.ts *)
Definition OTHER_COLOR_HEX : string := "#8B8D8F".
Definition FREE_COLOR_HEX : string := "#D2D2D2".
Definition SLEEPING_PATTERN_ID : string := "sleeping-pattern".
Record KvcacheBarData := mkKvBar { kb_Prealloc : Z; kb_Used : Z; kb_Free : Z; kb_totalBytes : Z }.
Definition buildKvcacheData (kvcache : option KvCache) (hasModels : bool) : option KvcacheBarData :=
  match kvcache with
  | None => None
  | Some kv => if Z.leb (kv_totalBytes kv) 0 || negb hasModels then None
               else Some (mkKvBar (kv_preallocBytes kv) (kv_usedBytes kv) (kv_freeBytes kv) (kv_totalBytes kv))
  end.
Record AttributedModelBytes := mkAttributed {
  ab_key : string;
  ab_modelName : string;
  ab_displayName : option string;
  ab_instanceId : string;
  ab_state : ModelLifecycleState;
  ab_bytes : Q;
  ab_sleeping : bool;
}.
Definition has_indices (m : WorkerModel) : bool := match wm_deviceIndices m with Some (_ :: _) => true | _ => false end.
Definition on_device (index : Z) (m : WorkerModel) : bool := bool_decide (index ∈ default [] (wm_deviceIndices m)).
Definition device_count (m : WorkerModel) : nat := Nat.max 1 (match wm_deviceIndices m with Some l => length l | None => 1 end).
Definition segment_key (m : WorkerModel) : string :=
  if decide (wm_instanceId m = "") then wm_modelName m else wm_modelName m +:+ String "#"%char (wm_instanceId m).
Definition attribute_model (m : WorkerModel) : AttributedModelBytes :=
  mkAttributed (segment_key m) (wm_modelName m) (wm_displayName m) (wm_instanceId m) (wm_state m)
    (inject_Z (default 0%Z (wm_memoryUsedBytes m)) / inject_Z (Z.of_nat (device_count m)))
    (bool_decide (wm_state m = ModelLifecycleState.SLEEPING)).
Definition attributeModelsToDevice (device : DeviceView) (workerDeviceCount : nat) (models : list WorkerModel) : list AttributedModelBytes :=
  let forDevice := if existsb has_indices models then List.filter (on_device (dv_deviceIndex device)) models
                   else if Nat.eqb workerDeviceCount 1 then models else [] in
  attribute_model <$> forDevice.

Inductive BarValue := BarText (s : string) | BarNum (q : Q).
Record DeviceBarData := mkBar {
  db_data : list (string * BarValue);
  db_keys : list string;
  db_colors : list (string * string);
  db_fill : list string;
  db_entries : list AttributedModelBytes;
  db_otherBytes : Q;
  db_freeBytes : Q;
}.
Definition qsum (l : list Q) : Q := foldr Qplus 0%Q l.
(** [Math.max(0, q)] *)
Definition max0 (q : Q) : Q := if Qle_bool q 0 then 0%Q else q.
Definition Qpos_bool (q : Q) : bool := negb (Qle_bool q 0).
Section bar.
Context `{!LocaleCompare}.
Definition segment_order (a b : AttributedModelBytes) : Z :=
  let c := localeCompare (ab_modelName a) (ab_modelName b) in if Z.eqb c 0 then localeCompare (ab_instanceId a) (ab_instanceId b) else c.
Definition set_all {V} (m : list (string * V)) (l : list (string * V)) : list (string * V) := foldl (λ m '(k, v), jm_set m k v) m l.
Definition buildDeviceBarData (device : DeviceView) (attributed : list AttributedModelBytes) (colorFor : string → string) : DeviceBarData :=
  let ordered := js_sort segment_order (List.filter (λ m, Qpos_bool (ab_bytes m)) attributed) in
  let otherBytes := max0 (inject_Z (dv_memoryUsedBytes device) - qsum (ab_bytes <$> ordered)) in
  let freeBytes := max0 (inject_Z (dv_memoryTotalBytes device - dv_memoryUsedBytes device)) in
  let other {V} (v : V) : list V := if Qpos_bool otherBytes then [v] else [] in
  mkBar
    (set_all [("id", BarText "GPU")] (((λ m, (ab_key m, BarNum (ab_bytes m))) <$> ordered) ++ other ("Other", BarNum otherBytes) ++ [("Free", BarNum freeBytes)]))
    ((ab_key <$> ordered) ++ other "Other" ++ ["Free"])
    (set_all [] (((λ m, (ab_key m, colorFor (ab_modelName m))) <$> ordered) ++ other ("Other", OTHER_COLOR_HEX) ++ [("Free", FREE_COLOR_HEX)]))
    (ab_key <$> List.filter ab_sleeping ordered)
    ordered otherBytes freeBytes.
End bar.
Definition summarizeWorkerVram (devices : list DeviceView) : Z * Z * Z :=
  let totalBytes := foldl Z.add 0%Z (dv_memoryTotalBytes <$> devices) in
  let usedBytes := foldl Z.add 0%Z (dv_memoryUsedBytes <$> devices) in
  (if Z.ltb 0 totalBytes then ((200 * usedBytes + totalBytes) / (2 * totalBytes))%Z else 0%Z, totalBytes, usedBytes).

(** ** sidebarGroups.ts *)
Definition MULTI_GPU_KEY : string := "multi-gpu".
Definition UNKNOWN_GPU_KEY : string := "gpu-unknown".
Definition UNKNOWN_WORKER_KEY : string := "worker-unknown".
Definition gpuKeyForDevices (deviceIndices : option (list Z)) : string :=
  match deviceIndices with
  | None | Some [] => UNKNOWN_GPU_KEY
  | Some [i] => "gpu-" +:+ show_int i
  | Some _ => MULTI_GPU_KEY
  end.
Definition deployableModels (models : list ModelInfo) : list ModelInfo :=
  List.filter (λ m, bool_decide (in_state m = ModelLifecycleState.ACTIVE) || bool_decide (in_state m = ModelLifecycleState.SLEEPING)) models.
Definition filterModels (models : list ModelInfo) (searchTerm : string) : list ModelInfo :=
  let term := to_lower (js_trim searchTerm) in
  if decide (term = "") then models
  else List.filter (λ m, includes term (to_lower (in_modelName m)) || includes term (to_lower (default "" (in_displayName m)))) models.
(** A slot: the worker and the key of the device. *)
Abbreviation Slot := (string * string)%type.
Definition slot_key (s : Slot) : string := s.1 +:+ String " "%char s.2.
(** Slots whose key was not seen, in order. *)
Fixpoint new_slots (ss : list Slot) (seen : list string) : list Slot :=
  match ss with
  | [] => []
  | s :: ss => if bool_decide (slot_key s ∈ seen) then new_slots ss seen else s :: new_slots ss (slot_key s :: seen)
  end.
Definition reported_slots (name : string) (memory : list WorkerMemory) : list Slot :=
  concat ((λ w, (λ e, (wme_workerId w, gpuKeyForDevices (wm_deviceIndices e))) <$> List.filter (λ e, bool_decide (wm_modelName e = name)) (wme_models w)) <$> memory).
Definition placementsFor (model : ModelInfo) (memory : list WorkerMemory) : list Slot :=
  match new_slots (reported_slots (in_modelName model) memory) [] with
  | [] =>
      let workers := match in_workerIds model with
                     | [] => if truthy_str (in_workerId model) then [default "" (in_workerId model)] else []
                     | ids => ids
                     end in
      match workers with [] => [(UNKNOWN_WORKER_KEY, UNKNOWN_GPU_KEY)] | _ => (λ w, (w, UNKNOWN_GPU_KEY)) <$> workers end
  | ss => ss
  end.
(** A model of the list, with its position: the identity of the object. *)
Abbreviation Entry := (nat * ModelInfo)%type.
Abbreviation GpuGroups := (list (string * list Entry)).
Abbreviation WorkerGroups := (list (string * GpuGroups)).
Definition push_entry (e : Entry) (l : list Entry) : list Entry := if bool_decide (e.1 ∈ l.*1) then l else l ++ [e].
Definition add_entry (e : Entry) (g : WorkerGroups) (s : Slot) : WorkerGroups :=
  let gpuGroups := default [] (jm_get g s.1) in
  jm_set g s.1 (jm_set gpuGroups s.2 (push_entry e (default [] (jm_get gpuGroups s.2)))).
Definition add_model (memory : list WorkerMemory) (g : WorkerGroups) (e : Entry) : WorkerGroups := foldl (add_entry e) g (placementsFor e.2 memory).
Definition key_rank (k : string) : Z :=
  if decide (k = UNKNOWN_GPU_KEY \/ k = UNKNOWN_WORKER_KEY) then 2%Z else if decide (k = MULTI_GPU_KEY) then 1%Z else 0%Z.
Record SidebarGrouping := mkGrouping { sg_isClusterMode : bool; sg_byGpu : GpuGroups; sg_byWorker : WorkerGroups }.
Section sidebar.
(** [localeCompare] with [numeric: true] *)
Context `{!LocaleCompare}.
Definition compareKeys (a b : string) : Z :=
  if Z.eqb (key_rank a) (key_rank b) then localeCompare a b else (key_rank a - key_rank b)%Z.
Definition sortedMap {V} (m : list (string * V)) : list (string * V) := js_sort (λ a b, compareKeys a.1 b.1) m.
Definition groupModels (models : list ModelInfo) (memory : list WorkerMemory) : SidebarGrouping :=
  let byWorker := foldl (add_model memory) [] (imap pair models) in
  let sortedByWorker := prod_map id sortedMap <$> sortedMap byWorker in
  let isClusterMode := Nat.ltb 1 (length sortedByWorker) in
  mkGrouping isClusterMode (if isClusterMode then [] else default [] (snd <$> head sortedByWorker)) sortedByWorker.
End sidebar.
Definition workerKey (workerId : string) : string := "worker:" +:+ workerId.
Definition compositeKey (workerId gpuKey : string) : string := workerId +:+ String ":"%char gpuKey.
Definition groupKeys (grouping : SidebarGrouping) : list string :=
  if sg_isClusterMode grouping
  then concat ((λ '(w, g), workerKey w :: (compositeKey w <$> jm_keys g)) <$> sg_byWorker grouping)
  else jm_keys (sg_byGpu grouping).

(** ** The bar of a device *)
Lemma qsum_perm l l' : l ≡ₚ l' -> (qsum l == qsum l')%Q.
Proof. induction 1 as [|x l l' _ IH|x y l|l1 l2 l3 _ IH1 _ IH2]; simpl; [done|by rewrite IH|ring|by rewrite IH1]. Qed.
Lemma qsum_app l l' : (qsum (l ++ l') == qsum l + qsum l')%Q.
Proof. induction l as [|x l IH]; simpl; [ring|]. rewrite IH. ring. Qed.
Lemma qsum_nonneg l : Forall (λ q, (0 <= q)%Q) l -> (0 <= qsum l)%Q.
Proof. induction 1 as [|x l Hx _ IH]; simpl; lra. Qed.
Lemma max0_cases q : (0 <= q)%Q /\ (max0 q == q)%Q \/ (q <= 0)%Q /\ (max0 q == 0)%Q.
Proof.
  unfold max0. destruct (Qle_bool q 0) eqn:E; [right; split; [by apply Qle_bool_iff|done]|left].
  split; [|done]. destruct (Qlt_le_dec 0 q) as [|H]; [lra|]. apply Qle_bool_iff in H. congruence.
Qed.
Lemma Qpos_bool_iff q : Qpos_bool q = true <-> (0 < q)%Q.
Proof.
  unfold Qpos_bool. rewrite negb_true_iff. split; intros H.
  - apply Qnot_le_lt. intros Hle. apply Qle_bool_iff in Hle. congruence.
  - destruct (Qle_bool q 0) eqn:E; [|done]. apply Qle_bool_iff in E. lra.
Qed.
Lemma max0_not_pos q : Qpos_bool (max0 q) = false -> (max0 q == 0)%Q.
Proof.
  intros E. destruct (max0_cases q) as [[Hq Hm]|[_ Hm]]; [|done]. destruct (Qlt_le_dec 0 (max0 q)) as [Hp|Hp]; [|lra].
  apply Qpos_bool_iff in Hp. congruence.
Qed.
(** Entries written under different keys are all read back. *)
Lemma set_all_get {V} (l m : list (string * V)) k v : NoDup (jm_keys l) -> (k, v) ∈ l -> jm_get (set_all m l) k = Some v.
Proof.
  unfold set_all. revert m. induction l as [|[k' v'] l IH]; intros m Hnd Hin; [by apply elem_of_nil in Hin|].
  apply NoDup_cons in Hnd as [Hk Hnd]. apply elem_of_cons in Hin as [[= -> ->]|Hin]; simpl; [|by apply IH].
  clear IH Hnd. rewrite <- (jm_get_set_eq m k' v'). generalize (jm_set m k' v'). revert Hk.
  induction l as [|[k2 v2] l IH]; intros Hk m'; [done|]. simpl. rewrite IH.
  - apply jm_get_set_ne. set_solver.
  - set_solver.
Qed.
(** What the control plane promises of the models of a worker. *)
Record models_ok (models : list WorkerModel) : Prop := {
  mo_ids : NoDup (wm_instanceId <$> models);
  mo_each : Forall (λ m, MODEL_NAME_PATTERN (wm_modelName m) = true /\ wm_instanceId m <> "" /\ (0 <= default 0 (wm_memoryUsedBytes m))%Z /\
                         NoDup (default [] (wm_deviceIndices m))) models;
}.
Lemma valid_name_no_hash name : MODEL_NAME_PATTERN name = true -> has_char "#" name = false.
Proof. intros H. by apply valid_name_chars. Qed.
Lemma segment_key_inj m m' :
  MODEL_NAME_PATTERN (wm_modelName m) = true -> MODEL_NAME_PATTERN (wm_modelName m') = true -> wm_instanceId m <> "" -> wm_instanceId m' <> "" ->
  segment_key m = segment_key m' -> wm_instanceId m = wm_instanceId m'.
Proof.
  intros H H' Hi Hi'. unfold segment_key. rewrite !decide_False by done. intros Heq.
  by apply sep_inj_l in Heq as [_ ?]; [|apply valid_name_no_hash..].
Qed.
Lemma segment_key_hash m : wm_instanceId m <> "" -> has_char "#" (segment_key m) = true.
Proof. intros H. unfold segment_key. rewrite decide_False by done. rewrite has_char_app. simpl. by rewrite orb_true_r. Qed.
Lemma models_ok_sub l l' : l' `sublist_of` l -> models_ok l -> models_ok l'.
Proof.
  intros Hs [Hnd Hf]. split.
  - eapply sublist_NoDup; [done|]. by apply fmap_sublist.
  - rewrite Forall_forall in *. intros m Hm. apply Hf. by eapply elem_of_sublist.
Qed.
Definition for_device (device : DeviceView) (workerDeviceCount : nat) (models : list WorkerModel) : list WorkerModel :=
  if existsb has_indices models then List.filter (on_device (dv_deviceIndex device)) models else if Nat.eqb workerDeviceCount 1 then models else [].
Lemma for_device_sub device n models : for_device device n models `sublist_of` models.
Proof. unfold for_device. repeat case_match; [apply filter_bool_sublist|done|apply sublist_nil_l]. Qed.
Lemma segment_keys_NoDup models : models_ok models -> NoDup (segment_key <$> models).
Proof.
  intros [Hnd Hf]. induction models as [|m models IH]; [constructor|].
  rewrite fmap_cons in *. apply NoDup_cons in Hnd as [Hm Hnd]. apply Forall_cons in Hf as [(Hn & Hi & _) Hf]. apply NoDup_cons. split; [|by apply IH].
  intros Hin. apply list_elem_of_fmap in Hin as (m' & Heq & Hm'). apply Hm. apply list_elem_of_fmap. exists m'. split; [|done].
  rewrite Forall_forall in Hf. destruct (Hf _ Hm') as (? & ? & _). by apply segment_key_inj.
Qed.
Definition bar_value (bar : DeviceBarData) (k : string) : Q := match jm_get (db_data bar) k with Some (BarNum q) => q | _ => 0%Q end.
Lemma read_back (l m : list (string * BarValue)) :
  NoDup (jm_keys l) ->
  (λ k, match jm_get (set_all m l) k with Some (BarNum q) => q | _ => 0%Q end) <$> jm_keys l = (λ v, match v with BarNum q => q | _ => 0%Q end) <$> jm_values l.
Proof.
  intros Hnd. unfold jm_keys, jm_values. rewrite <- !list_fmap_compose. apply list_fmap_ext. intros i [k v] Hi. simpl.
  by rewrite (set_all_get l m k v Hnd (list_elem_of_lookup_2 _ _ _ Hi)).
Qed.
Section bar_lemmas.
Context `{!LocaleCompare} (device : DeviceView) (attributed : list AttributedModelBytes) (colorFor : string → string).
Let ordered := js_sort segment_order (List.filter (λ m, Qpos_bool (ab_bytes m)) attributed).
Let bar := buildDeviceBarData device attributed colorFor.
Lemma elem_of_ordered a : a ∈ ordered <-> a ∈ attributed /\ (0 < ab_bytes a)%Q.
Proof. unfold ordered. rewrite js_sort_perm, <- Qpos_bool_iff. rewrite !list_elem_of_In, filter_In. done. Qed.
Lemma bar_keys_NoDup : NoDup (ab_key <$> attributed) -> Forall (λ a, has_char "#" (ab_key a) = true) attributed -> NoDup (db_keys bar).
Proof.
  intros Hnd Hf. unfold bar, buildDeviceBarData. cbn [db_keys]. fold ordered. rewrite Forall_forall in Hf. apply NoDup_app. split_and!.
  - unfold ordered. rewrite js_sort_perm. eapply sublist_NoDup; [exact Hnd|]. apply fmap_sublist, filter_bool_sublist.
  - intros k Hk. apply list_elem_of_fmap in Hk as (a & -> & Ha). apply elem_of_ordered in Ha as [Ha _]. specialize (Hf _ Ha).
    intros Hin. apply elem_of_app in Hin as [Hin|Hin]; [case_match; [|by apply elem_of_nil in Hin]|];
      apply list_elem_of_singleton in Hin; by rewrite Hin in Hf.
  - case_match; repeat constructor; set_solver.
Qed.
Lemma free_bytes_split : (dv_memoryUsedBytes device <= dv_memoryTotalBytes device)%Z ->
  (db_freeBytes bar == inject_Z (dv_memoryTotalBytes device) - inject_Z (dv_memoryUsedBytes device))%Q.
Proof.
  intros Hu. unfold bar, buildDeviceBarData. cbn [db_freeBytes]. unfold Z.sub. rewrite inject_Z_plus, inject_Z_opp. rewrite Zle_Qle in Hu.
  destruct (max0_cases (inject_Z (dv_memoryTotalBytes device) + - inject_Z (dv_memoryUsedBytes device))) as [[_ ->]|[Hle ->]]; lra.
Qed.
(** The segments of the bar, as they are drawn. *)
Lemma bar_total : NoDup (db_keys bar) -> (qsum (bar_value bar <$> db_keys bar) == qsum (ab_bytes <$> ordered) + db_otherBytes bar + db_freeBytes bar)%Q.
Proof.
  intros Hnd. unfold bar_value, bar, buildDeviceBarData in *. cbn [db_keys db_data db_otherBytes db_freeBytes] in *. fold ordered in Hnd |- *.
  set (other := max0 _). set (free := max0 _).
  set (segs := ((λ m, (ab_key m, BarNum (ab_bytes m))) <$> ordered) ++ (if Qpos_bool other then [("Other", BarNum other)] else []) ++ [("Free", BarNum free)]).
  assert (Hk : (ab_key <$> ordered) ++ (if Qpos_bool other then ["Other"] else []) ++ ["Free"] = jm_keys segs).
  { unfold segs, jm_keys. rewrite !fmap_app, <- list_fmap_compose. by destruct (Qpos_bool other). }
  fold other in Hnd. rewrite Hk in *. rewrite read_back by done. unfold segs, jm_values. rewrite !fmap_app, <- !list_fmap_compose, !qsum_app.
  change (((λ v, match v with BarNum q => q | _ => 0%Q end) ∘ snd) ∘ (λ m, (ab_key m, BarNum (ab_bytes m)))) with ab_bytes.
  destruct (Qpos_bool other) eqn:E; simpl; [ring|]. pose proof (max0_not_pos _ E) as Ho. fold other in Ho. lra.
Qed.
End bar_lemmas.
(** Of a device whose used memory is at most its capacity, and for the models the control
    plane reports, the bar draws every model with memory once, with its own bytes and colour,
    under keys that never collide with each other or with the keys Other and Free; and when the
    models do not claim more than the device has in use, the drawn segments add up to exactly the
    capacity of the device. *)
Theorem device_bar_adds_up `{!LocaleCompare} (device : DeviceView) (n : nat) (models : list WorkerModel) (colorFor : string → string)
  (Hok : models_ok models) (Hu : (dv_memoryUsedBytes device <= dv_memoryTotalBytes device)%Z) :
  let attributed := attributeModelsToDevice device n models in
  let bar := buildDeviceBarData device attributed colorFor in
  NoDup (db_keys bar) /\
  (∀ a, a ∈ attributed -> (0 < ab_bytes a)%Q -> ab_key a ∈ db_keys bar /\ bar_value bar (ab_key a) = ab_bytes a /\ jm_get (db_colors bar) (ab_key a) = Some (colorFor (ab_modelName a))) /\
  ((qsum (ab_bytes <$> db_entries bar) <= inject_Z (dv_memoryUsedBytes device))%Q ->
   (qsum (bar_value bar <$> db_keys bar) == inject_Z (dv_memoryTotalBytes device))%Q).
Proof.
  intros attributed bar. assert (Hsub : models_ok (for_device device n models)) by (eapply models_ok_sub; [apply for_device_sub|done]).
  assert (Hnd : NoDup (db_keys bar)).
  { apply bar_keys_NoDup; unfold attributed, attributeModelsToDevice; fold (for_device device n models).
    - rewrite <- list_fmap_compose. by apply segment_keys_NoDup.
    - apply Forall_fmap. eapply Forall_impl; [apply (mo_each _ Hsub)|]. intros m (_ & Hi & _). by apply segment_key_hash. }
  split_and!; [done| |].
  - intros a Ha Hp. assert (Ho : a ∈ db_entries bar) by by apply elem_of_ordered.
    unfold bar_value, bar, buildDeviceBarData in *. cbn [db_keys db_data db_colors db_entries] in *. split_and!.
    + apply elem_of_app. left. apply list_elem_of_fmap. eauto.
    + rewrite (set_all_get _ _ _ (BarNum (ab_bytes a))); [done| |].
      * unfold jm_keys. rewrite !fmap_app, <- list_fmap_compose. by destruct (Qpos_bool _).
      * apply elem_of_app. left. apply list_elem_of_fmap. eauto.
    + apply set_all_get.
      * unfold jm_keys. rewrite !fmap_app, <- list_fmap_compose. by destruct (Qpos_bool _).
      * apply elem_of_app. left. apply list_elem_of_fmap. eauto.
  - intros Hle. unfold bar. rewrite bar_total by done. rewrite free_bytes_split by done. fold bar.
    change (db_otherBytes _) with (max0 (inject_Z (dv_memoryUsedBytes device) - qsum (ab_bytes <$> db_entries bar))).
    change (js_sort _ _) with (db_entries bar).
    destruct (max0_cases (inject_Z (dv_memoryUsedBytes device) - qsum (ab_bytes <$> db_entries bar))) as [[_ ->]|[? ->]]; lra.
Qed.

(** ** A model over its devices *)
Lemma attribute_shares device n models id :
  existsb has_indices models = true ->
  List.filter (λ a, bool_decide (ab_instanceId a = id)) (attributeModelsToDevice device n models) =
  attribute_model <$> List.filter (on_device (dv_deviceIndex device)) (List.filter (λ m, bool_decide (wm_instanceId m = id)) models).
Proof.
  intros Hex. unfold attributeModelsToDevice. rewrite Hex. clear Hex. induction models as [|m models IH]; [done|]. cbn [List.filter].
  destruct (on_device _ m) eqn:E; [rewrite fmap_cons; cbn [List.filter ab_instanceId attribute_model]|].
  - case_bool_decide; cbn [List.filter]; rewrite ?E, IH; [by rewrite fmap_cons|done].
  - case_bool_decide; cbn [List.filter]; rewrite ?E; apply IH.
Qed.
Lemma single_instance models m :
  NoDup (wm_instanceId <$> models) -> m ∈ models -> List.filter (λ m', bool_decide (wm_instanceId m' = wm_instanceId m)) models = [m].
Proof.
  induction models as [|m' models IH]; intros Hnd Hin; [by apply elem_of_nil in Hin|].
  rewrite fmap_cons in Hnd. apply NoDup_cons in Hnd as [Hn Hnd]. cbn [List.filter]. apply elem_of_cons in Hin as [->|Hin].
  - rewrite bool_decide_eq_true_2 by done. f_equal. apply filter_none. rewrite Forall_forall. intros x Hx. apply bool_decide_eq_false. intros Heq.
    apply Hn. rewrite <- Heq. by apply list_elem_of_fmap_2.
  - rewrite bool_decide_eq_false_2; [by apply IH|]. intros Heq. apply Hn. rewrite Heq. by apply list_elem_of_fmap_2.
Qed.
Lemma devices_counted (devices : list DeviceView) idx :
  NoDup (dv_deviceIndex <$> devices) -> NoDup idx -> idx ⊆ (dv_deviceIndex <$> devices) ->
  length (List.filter (λ d, bool_decide (dv_deviceIndex d ∈ idx)) devices) = length idx.
Proof.
  intros Hd Hi Hsub. rewrite <- (length_fmap dv_deviceIndex). apply Permutation_length. apply NoDup_Permutation; [|done|].
  - eapply sublist_NoDup; [exact Hd|]. apply fmap_sublist, filter_bool_sublist.
  - intros i. rewrite list_elem_of_fmap. split.
    + intros (d & -> & Hin). rewrite list_elem_of_In, filter_In in Hin. by destruct Hin as [_ ?%bool_decide_eq_true].
    + intros Hin. specialize (Hsub _ Hin). apply list_elem_of_fmap in Hsub as (d & -> & ?). exists d. split; [done|].
      rewrite list_elem_of_In, filter_In, <- list_elem_of_In. split; [done|]. by apply bool_decide_eq_true.
Qed.
Lemma qsum_const {A} (l : list A) (q : Q) : (qsum ((λ _, q) <$> l) == inject_Z (Z.of_nat (length l)) * q)%Q.
Proof.
  induction l as [|x l IH]; [cbn; ring|]. rewrite fmap_cons. cbn [qsum foldr length]. fold (qsum ((λ _ : A, q) <$> l)). rewrite IH.
  rewrite Nat2Z.inj_succ. unfold Z.succ. rewrite inject_Z_plus. ring.
Qed.
Lemma qsum_selected {A} (p : A → bool) (l : list A) (q : Q) :
  (qsum ((λ x, qsum (if p x then [q] else [])) <$> l) == qsum ((λ _, q) <$> List.filter p l))%Q.
Proof. induction l as [|x l IH]; [done|]. rewrite fmap_cons. simpl. destruct (p x); simpl; fold (qsum ((λ _ : A, q) <$> List.filter p l)); rewrite <- IH; ring. Qed.
(** The shares of a model that names its devices, summed over the devices of its worker, are
    exactly the memory measured for it, however many devices it spans. *)
Theorem shares_add_up (devices : list DeviceView) (models : list WorkerModel) (m : WorkerModel) (idx : list Z)
  (Hd : NoDup (dv_deviceIndex <$> devices)) (Hok : models_ok models) (Hm : m ∈ models)
  (Hidx : wm_deviceIndices m = Some idx) (Hne : idx <> []) (Hsub : idx ⊆ dv_deviceIndex <$> devices) :
  (qsum ((λ d, qsum (ab_bytes <$> List.filter (λ a, bool_decide (ab_instanceId a = wm_instanceId m))
     (attributeModelsToDevice d (length devices) models))) <$> devices) == inject_Z (default 0%Z (wm_memoryUsedBytes m)))%Q.
Proof.
  assert (Hex : existsb has_indices models = true).
  { apply existsb_exists. exists m. split; [by apply list_elem_of_In|]. unfold has_indices. rewrite Hidx. by destruct idx. }
  set (q := ab_bytes (attribute_model m)).
  assert (Heq : (λ d, qsum (ab_bytes <$> List.filter (λ a, bool_decide (ab_instanceId a = wm_instanceId m)) (attributeModelsToDevice d (length devices) models))) <$> devices
    = (λ d, qsum (if bool_decide (dv_deviceIndex d ∈ idx) then [q] else [])) <$> devices).
  { apply list_fmap_ext. intros i d _. rewrite attribute_shares, single_instance by (done || apply (mo_ids _ Hok)). cbn [List.filter].
    unfold on_device. rewrite Hidx. cbn [default]. unfold default, id. by case_bool_decide. }
  rewrite Heq, (qsum_selected (λ d, bool_decide (dv_deviceIndex d ∈ idx))), qsum_const.
  pose proof (mo_each _ Hok) as Hf. rewrite Forall_forall in Hf. destruct (Hf _ Hm) as (_ & _ & _ & Hnd). rewrite Hidx in Hnd.
  rewrite devices_counted by done. unfold q. cbn [ab_bytes attribute_model]. unfold device_count. rewrite Hidx.
  assert (Hl : length idx <> 0%nat) by by destruct idx. replace (Nat.max 1 (length idx)) with (length idx) by lia.
  field. intros Hz. unfold Qeq in Hz. cbn in Hz. lia.
Qed.

(** ** The groups of the sidebar *)
Definition at_slot (g : WorkerGroups) (s : Slot) : list Entry := default [] (jm_get (default [] (jm_get g s.1)) s.2).
Definition groups_wf (g : WorkerGroups) : Prop := NoDup (jm_keys g) /\ Forall (λ p, NoDup (jm_keys p.2)) g.
Lemma add_entry_at e g s s' : at_slot (add_entry e g s) s' = if decide (s' = s) then push_entry e (at_slot g s) else at_slot g s'.
Proof.
  destruct s as [w k], s' as [w' k']. unfold at_slot, add_entry. cbn [fst snd]. destruct (decide (w' = w)) as [->|Hw].
  - rewrite jm_get_set_eq. cbn [default]. unfold default at 1, id at 1. destruct (decide (k' = k)) as [->|Hk].
    + rewrite jm_get_set_eq, decide_True by done. done.
    + rewrite jm_get_set_ne by done. rewrite decide_False by congruence. done.
  - rewrite jm_get_set_ne by done. rewrite decide_False by congruence. done.
Qed.
Lemma push_entry_twice e l : push_entry e (push_entry e l) = push_entry e l.
Proof.
  unfold push_entry at 2 3. case_bool_decide as H; unfold push_entry; [by rewrite bool_decide_eq_true_2|].
  rewrite bool_decide_eq_true_2; [done|]. rewrite fmap_app. set_solver.
Qed.
Lemma add_entries_at e ss g s : at_slot (foldl (add_entry e) g ss) s = if decide (s ∈ ss) then push_entry e (at_slot g s) else at_slot g s.
Proof.
  revert g. induction ss as [|s' ss IH]; intros g; cbn [foldl]; [by rewrite decide_False by apply not_elem_of_nil|].
  rewrite IH, add_entry_at. destruct (decide (s = s')) as [->|Hne].
  - rewrite (decide_True (P := s' ∈ s' :: ss)) by apply list_elem_of_here. case_decide; [apply push_entry_twice|done].
  - destruct (decide (s ∈ ss)); [rewrite decide_True|rewrite decide_False]; try done; set_solver.
Qed.
Lemma models_at memory es g s :
  NoDup (es.*1) -> (∀ e, e ∈ es -> e.1 ∉ (at_slot g s).*1) ->
  at_slot (foldl (add_model memory) g es) s = at_slot g s ++ List.filter (λ e, bool_decide (s ∈ placementsFor e.2 memory)) es.
Proof.
  revert g. induction es as [|e es IH]; intros g Hnd Hnew; cbn [foldl List.filter]; [by rewrite app_nil_r|].
  rewrite fmap_cons in Hnd. apply NoDup_cons in Hnd as [He Hnd].
  assert (Hat : at_slot (add_model memory g e) s = at_slot g s ++ (if bool_decide (s ∈ placementsFor e.2 memory) then [e] else [])).
  { unfold add_model. rewrite add_entries_at. destruct (decide (s ∈ placementsFor e.2 memory)) as [Hin|Hin].
    - rewrite (bool_decide_eq_true_2 (s ∈ _)) by done. unfold push_entry. rewrite bool_decide_eq_false_2; [done|]. apply Hnew, list_elem_of_here.
    - rewrite (bool_decide_eq_false_2 (s ∈ _)) by done. by rewrite app_nil_r. }
  rewrite IH; [|done|].
  - rewrite Hat. case_bool_decide; rewrite <- app_assoc; done.
  - intros e' He'. rewrite Hat, fmap_app, elem_of_app. intros [Hin|Hin].
    + by apply (Hnew e'); [apply list_elem_of_further|].
    + case_bool_decide; [|by apply elem_of_nil in Hin]. apply list_elem_of_singleton in Hin. simpl in Hin. apply He. rewrite <- Hin. by apply list_elem_of_fmap_2.
Qed.
Lemma add_entry_wf e g s : groups_wf g -> groups_wf (add_entry e g s).
Proof.
  intros [Hk Hf]. split; [by apply jm_set_NoDup|]. apply Forall_jm_set_at; [|done]. cbn [snd]. apply jm_set_NoDup.
  destruct (jm_get g s.1) as [gg|] eqn:E; [|constructor]. by apply (Forall_jm_get _ _ _ _ Hf E).
Qed.
Lemma add_model_wf memory g e : groups_wf g -> groups_wf (add_model memory g e).
Proof. unfold add_model. revert g. induction (placementsFor e.2 memory) as [|s ss IH]; intros g Hg; [done|]. by apply IH, add_entry_wf. Qed.
Lemma all_models_wf memory es : groups_wf (foldl (add_model memory) [] es).
Proof.
  assert (H : ∀ g, groups_wf g -> groups_wf (foldl (add_model memory) g es)); [|by apply H; repeat constructor].
  induction es as [|e es IH]; intros g Hg; [done|]. by apply IH, add_model_wf.
Qed.
Lemma jm_get_perm {V} (m m' : list (string * V)) k : m ≡ₚ m' -> NoDup (jm_keys m) -> jm_get m k = jm_get m' k.
Proof.
  intros Hp Hnd. assert (Hnd' : NoDup (jm_keys m')) by (unfold jm_keys in *; by rewrite <- Hp).
  destruct (jm_get m k) as [v|] eqn:E; symmetry.
  - apply jm_get_elem_of_NoDup; [done|]. rewrite <- Hp. by apply jm_get_elem_of.
  - apply jm_get_None. apply jm_get_None in E. unfold jm_keys in *. by rewrite <- Hp.
Qed.
Lemma jm_get_mapped {V V'} (f : V → V') (m : list (string * V)) k : jm_get (prod_map id f <$> m) k = f <$> jm_get m k.
Proof. induction m as [|[k' v] m IH]; [done|]. rewrite fmap_cons. change (prod_map id f (k', v)) with (k', f v). rewrite !jm_get_cons. by destruct (decide (k' = k)). Qed.
Lemma positions_NoDup {A} (l : list A) : NoDup ((imap pair l).*1).
Proof.
  rewrite fmap_imap. assert (H : ∀ k, imap (λ n x, (k + n)%nat) l = seq k (length l)).
  { induction l as [|x l IH]; intros k; [done|]. rewrite imap_cons. cbn [length seq]. f_equal; [lia|]. rewrite <- IH. apply imap_ext. intros. simpl. lia. }
  specialize (H 0). simpl in H. erewrite imap_ext; [rewrite H; apply NoDup_seq|done].
Qed.
Lemma placementsFor_some model memory : placementsFor model memory <> [].
Proof. unfold placementsFor. repeat case_match; done. Qed.
Section sorting.
Context `{!LocaleCompare}.
Lemma compareKeys_ge a b : (0 <= compareKeys a b)%Z -> (compareKeys b a <= 0)%Z.
Proof. unfold compareKeys. destruct (Z.eqb_spec (key_rank a) (key_rank b)), (Z.eqb_spec (key_rank b) (key_rank a)); try lia. apply localeCompare_ge. Qed.
Lemma compareKeys_trans a b c : (compareKeys a b <= 0)%Z -> (compareKeys b c <= 0)%Z -> (compareKeys a c <= 0)%Z.
Proof.
  unfold compareKeys. destruct (Z.eqb_spec (key_rank a) (key_rank b)), (Z.eqb_spec (key_rank b) (key_rank c)), (Z.eqb_spec (key_rank a) (key_rank c)); try lia.
  apply localeCompare_trans.
Qed.
Lemma sortedMap_perm {V} (m : list (string * V)) : sortedMap m ≡ₚ m.
Proof. apply js_sort_perm. Qed.
Lemma sortedMap_sorted {V} (m : list (string * V)) : StronglySorted (ordered compareKeys) (jm_keys (sortedMap m)).
Proof.
  assert (Hs : StronglySorted (ordered (λ a b : string * V, compareKeys a.1 b.1)) (sortedMap m)).
  { apply js_sort_sorted; [intros ??; apply compareKeys_ge|intros ???; apply compareKeys_trans]. }
  unfold jm_keys. induction Hs as [|p l _ IH Hp]; [constructor|]. rewrite fmap_cons. constructor; [done|]. by rewrite Forall_fmap.
Qed.
Lemma sorted_at g s : groups_wf g -> at_slot (prod_map id sortedMap <$> sortedMap g) s = at_slot g s.
Proof.
  intros [Hk Hf]. unfold at_slot. rewrite jm_get_mapped. rewrite <- (jm_get_perm g (sortedMap g)); [|symmetry; apply sortedMap_perm|done].
  destruct (jm_get g s.1) as [gg|] eqn:E; [|done]. cbn. f_equal. symmetry. apply jm_get_perm; [symmetry; apply sortedMap_perm|].
  by apply (Forall_jm_get _ _ _ _ Hf E).
Qed.
(** In the sidebar, the group of a worker and device holds exactly the models placed there,
    once each and in the order of the list; every model is in some group, and with one worker it
    is in one of the groups shown for the devices; the workers, and the devices of each, are
    shown once and in order, with the unknown ones last. *)
Theorem sidebar_groups_exact (models : list ModelInfo) (memory : list WorkerMemory) :
  let g := groupModels models memory in
  (∀ s, at_slot (sg_byWorker g) s = List.filter (λ e, bool_decide (s ∈ placementsFor e.2 memory)) (imap pair models)) /\
  (∀ e, e ∈ imap pair models -> ∃ s, e ∈ at_slot (sg_byWorker g) s) /\
  (sg_isClusterMode g = false -> ∀ e, e ∈ imap pair models -> ∃ k, e ∈ default [] (jm_get (sg_byGpu g) k)) /\
  NoDup (jm_keys (sg_byWorker g)) /\ StronglySorted (ordered compareKeys) (jm_keys (sg_byWorker g)) /\
  Forall (λ p, StronglySorted (ordered compareKeys) (jm_keys p.2)) (sg_byWorker g).
Proof.
  intros g. set (raw := foldl (add_model memory) [] (imap pair models)). pose proof (all_models_wf memory (imap pair models)) as Hwf. fold raw in Hwf.
  assert (Hat : ∀ s, at_slot (sg_byWorker g) s = List.filter (λ e, bool_decide (s ∈ placementsFor e.2 memory)) (imap pair models)).
  { intros s. unfold g, groupModels. cbn [sg_byWorker]. fold raw. rewrite sorted_at by done. unfold raw.
    rewrite models_at; [done|apply positions_NoDup|intros ? ?; apply not_elem_of_nil]. }
  assert (Hsome : ∀ e, e ∈ imap pair models -> ∃ s, e ∈ at_slot (sg_byWorker g) s).
  { intros e He. destruct (placementsFor e.2 memory) as [|s ss] eqn:E; [by apply placementsFor_some in E|]. exists s. rewrite Hat.
    rewrite list_elem_of_In, filter_In, <- list_elem_of_In. split; [done|]. rewrite E. apply bool_decide_eq_true_2, list_elem_of_here. }
  assert (Hkeys : jm_keys (sg_byWorker g) = jm_keys (sortedMap raw)).
  { unfold g, groupModels, jm_keys. cbn [sg_byWorker]. fold raw. rewrite <- list_fmap_compose. done. }
  split_and!; [done|done| |rewrite Hkeys|rewrite Hkeys; apply sortedMap_sorted|].
  - intros Hc e He. destruct (Hsome e He) as [[w k] Hin]. exists k. revert Hin Hc. unfold g, groupModels. cbn [sg_byWorker sg_byGpu sg_isClusterMode]. fold raw.
    set (l := prod_map id sortedMap <$> sortedMap raw). intros Hin Hc. rewrite Hc.
    destruct l as [|[w' gg] [|]]; [by apply elem_of_nil in Hin| |done]. unfold at_slot in Hin. rewrite jm_get_cons in Hin. simpl in *. case_decide; [done|by apply elem_of_nil in Hin].
  - unfold jm_keys. rewrite sortedMap_perm. apply Hwf.
  - unfold g, groupModels. cbn [sg_byWorker]. rewrite Forall_fmap. apply Forall_true. intros [w gg]. apply sortedMap_sorted.
Qed.
End sorting.

(** ** Slots are told apart by their keys *)
Lemma string_of_uint_no_space d : has_char " " (NilEmpty.string_of_uint d) = false.
Proof. induction d; simpl; auto. Qed.
Lemma gpuKey_no_space idx : has_char " " (gpuKeyForDevices idx) = false.
Proof.
  destruct idx as [[|i [|? ?]]|]; try done. cbn [gpuKeyForDevices]. rewrite has_char_app. cbn. unfold show_int, NilZero.string_of_int, NilZero.string_of_uint.
  destruct (Z.to_int i) as [d|d]; destruct d; simpl; rewrite ?string_of_uint_no_space; done.
Qed.
Lemma elem_of_new_slots ss seen s :
  Forall (λ s, has_char " " s.2 = false) ss -> s ∈ new_slots ss seen <-> s ∈ ss /\ slot_key s ∉ seen.
Proof.
  intros Hf. revert seen. induction Hf as [|s' ss Hs' Hf IH]; intros seen; cbn [new_slots]; [set_solver|]. rewrite Forall_forall in Hf.
  case_bool_decide as Hin; rewrite ?elem_of_cons, IH; [set_solver|]. split.
  - set_solver.
  - intros [[->|Hs] Hn]; [by left|]. destruct (decide (s = s')) as [|Hne]; [by left|]. right. split; [done|].
    apply not_elem_of_cons. split; [|done]. intros Heq. apply Hne. specialize (Hf _ Hs). destruct s as [w k], s' as [w' k'].
    unfold slot_key in Heq. cbn [fst snd] in *. apply sep_inj_r in Heq as [-> ->]; done.
Qed.
(** A model that the memory report places somewhere is shown exactly where the report places it. *)
Theorem reported_placements_exact (model : ModelInfo) (memory : list WorkerMemory) (s : Slot) (Hr : reported_slots (in_modelName model) memory <> []) :
  s ∈ placementsFor model memory <->
  ∃ w e, w ∈ memory /\ e ∈ wme_models w /\ wm_modelName e = in_modelName model /\ s = (wme_workerId w, gpuKeyForDevices (wm_deviceIndices e)).
Proof.
  assert (Hin : ∀ s, s ∈ reported_slots (in_modelName model) memory <->
    ∃ w e, w ∈ memory /\ e ∈ wme_models w /\ wm_modelName e = in_modelName model /\ s = (wme_workerId w, gpuKeyForDevices (wm_deviceIndices e))).
  { intros s'. unfold reported_slots. rewrite list_elem_of_In, in_concat. setoid_rewrite <- list_elem_of_In. split.
    - intros (l & Hl & Hs). apply list_elem_of_fmap in Hl as (w & -> & Hw). apply list_elem_of_fmap in Hs as (e & -> & He).
      rewrite list_elem_of_In, filter_In, <- list_elem_of_In in He. destruct He as [He Hn%bool_decide_eq_true]. eauto 10.
    - intros (w & e & Hw & He & Hn & ->). eexists. split; [apply list_elem_of_fmap; eauto|]. apply list_elem_of_fmap. exists e. split; [done|].
      rewrite list_elem_of_In, filter_In, <- list_elem_of_In. split; [done|]. by apply bool_decide_eq_true. }
  rewrite <- Hin. unfold placementsFor.
  assert (Hf : Forall (λ s, has_char " " s.2 = false) (reported_slots (in_modelName model) memory)).
  { apply Forall_forall. intros s' Hs'. apply Hin in Hs' as (w & e & _ & _ & _ & ->). apply gpuKey_no_space. }
  pose proof (elem_of_new_slots _ [] s Hf) as Hnew. destruct (new_slots _ []) as [|s0 ss] eqn:E.
  - exfalso. destruct (reported_slots _ _) as [|s1 ?]; [done|]. pose proof (elem_of_new_slots _ [] s1 Hf) as H1. rewrite E in H1.
    destruct H1 as [_ H1]. specialize (H1 (conj (list_elem_of_here _ _) (not_elem_of_nil _))). by apply elem_of_nil in H1.
  - rewrite Hnew. split; [by intros [? _]|]. intros. split; [done|]. apply not_elem_of_nil.
Qed.
(** The share of used memory of a worker is a percentage. *)
Lemma vram_percent_range (devices : list DeviceView) :
  Forall (λ d, (0 <= dv_memoryUsedBytes d <= dv_memoryTotalBytes d)%Z) devices -> (0 <= (summarizeWorkerVram devices).1.1 <= 100)%Z.
Proof.
  intros Hf. unfold summarizeWorkerVram. cbn [fst].
  assert (H : ∀ t u, (0 <= u <= t)%Z -> (0 <= foldl Z.add u (dv_memoryUsedBytes <$> devices) <= foldl Z.add t (dv_memoryTotalBytes <$> devices))%Z).
  { induction Hf as [|d ds Hd _ IH]; intros t u Ht; simpl; [done|]. apply IH. lia. }
  specialize (H 0%Z 0%Z ltac:(lia)). revert H. generalize (foldl Z.add 0%Z (dv_memoryTotalBytes <$> devices)) (foldl Z.add 0%Z (dv_memoryUsedBytes <$> devices)).
  intros t u H. destruct (Z.ltb_spec 0 t); [|lia]. split; [apply Z.div_pos; lia|].
  enough ((200 * u + t) / (2 * t) < 101)%Z by lia. apply Z.div_lt_upper_bound; lia.
Qed.

(** ** On a worker with two devices *)
Definition two_devices : list DeviceView := [mkDeviceView 0 "CUDA" 100 60 40 None None None; mkDeviceView 1 "CUDA" 100 30 70 None None None].
Definition two_models : list WorkerModel :=
  [mkWorkerModel "m" None "inst-1" ModelLifecycleState.ACTIVE (Some 60%Z) (Some [0%Z; 1%Z]); mkWorkerModel "m" None "inst-2" ModelLifecycleState.SLEEPING (Some 10%Z) (Some [0%Z])].
Lemma two_models_ok : models_ok two_models.
Proof. split; [apply NoDup_cons; split; [set_solver|apply NoDup_singleton]|]. repeat constructor; try done; set_solver. Qed.
Lemma device_bar_adds_up_witness :
  let bar := buildDeviceBarData (mkDeviceView 0 "CUDA" 100 60 40 None None None)
    (attributeModelsToDevice (mkDeviceView 0 "CUDA" 100 60 40 None None None) 2 two_models) (λ _, "#fff") in
  db_keys bar = ["m#inst-1"; "m#inst-2"; "Other"; "Free"] /\ db_fill bar = ["m#inst-2"] /\
  (qsum (bar_value bar <$> db_keys bar) == inject_Z 100)%Q.
Proof.
  split; [vm_compute; reflexivity|]. split; [vm_compute; reflexivity|].
  refine (proj2 (proj2 (device_bar_adds_up (mkDeviceView 0 "CUDA" 100 60 40 None None None) 2 two_models (λ _, "#fff") two_models_ok _)) _);
    [vm_compute; done|apply Qle_bool_iff; vm_compute; reflexivity].
Defined.
Lemma shares_add_up_witness :
  (qsum ((λ d, qsum (ab_bytes <$> List.filter (λ a, bool_decide (ab_instanceId a = "inst-1")) (attributeModelsToDevice d 2 two_models))) <$> two_devices) == inject_Z 60)%Q.
Proof.
  apply (shares_add_up two_devices two_models (mkWorkerModel "m" None "inst-1" ModelLifecycleState.ACTIVE (Some 60%Z) (Some [0%Z; 1%Z])) [0%Z; 1%Z]);
    [vm_compute; apply NoDup_cons; split; [set_solver|apply NoDup_singleton]|exact two_models_ok|apply list_elem_of_here|done|done|set_solver].
Defined.
(** A model of which no worker is known adds a group of its own, so that a cluster of one worker
    is shown as one of two. *)
Theorem unplaced_model_splits_sidebar :
  let placed := mkModelInfo "a" None ModelLifecycleState.ACTIVE "vllm" None 1 (Some "w0") ["w0"] None None None false None in
  let unplaced := mkModelInfo "b" None ModelLifecycleState.SLEEPING "vllm" None 1 None [] None None None false None in
  let g := groupModels [placed; unplaced] [] in
  sg_isClusterMode g = true /\ jm_keys (sg_byWorker g) = ["w0"; "worker-unknown"] /\ sg_byGpu g = [].
Proof. by vm_compute. Qed.
