(* ===== verification/BrowserSession.v ===== *)
(** * The session of the browser (dashboard/src/contexts/AuthContext.tsx)

    Who is signed in according to the user interface: the boot of the page, logins, logouts,
    refused requests, and the timer that signs out before the token expires.  Awaits are separate
    events.  The provider is mounted for the life of the page.  Times are in milliseconds. *)
From stdpp Require Import base tactics list strings.
From Stdlib Require Import ZArith Lia Ascii.
From S2P Require Import Prelude Js DashboardAuth ModelColors.

Record AuthUser := mkAuthUser { au_username : string; au_roles : list string; au_authMode : AuthMode }.
(** What [init] waits for. *)
Inductive InitPhase := FetchingConfig | Validating (token : string) | InitDone.
Record Session := mkSession {
  ss_authMode : AuthMode;
  ss_user : option AuthUser;
  ss_isLoading : bool;
  ss_loginError : option string;
  ss_stored : option string;      (** the token in the storage of the tab *)
  ss_timer : option Z;            (** [logoutTimerRef]: when it fires *)
  ss_init : InitPhase;
}.
Definition new_session (stored : option string) : Session := mkSession AuthNone None true None stored None FetchingConfig.
Definition isAuthenticated (s : Session) : bool := bool_decide (ss_authMode s = AuthNone) || bool_decide (is_Some (ss_user s)).
Definition isAdmin (s : Session) : bool :=
  bool_decide (ss_authMode s = AuthNone) || match ss_user s with Some u => bool_decide ("admin" ∈ au_roles u) | None => false end.

Definition logout (s : Session) : Session := mkSession (ss_authMode s) None (ss_isLoading s) (ss_loginError s) None None (ss_init s).
(** When [setTimeout(f, delay)] fires: the delay is taken modulo 2^32 as a signed number. *)
Definition fires_at (now delay : Z) : Z := (now + Z.max 0 (to_int32 delay))%Z.

Section session.
(** [JSON.parse(atob(...))] of the middle part of a token. *)
Context (parse_payload : string → option json).
Definition decodeJwtPayload (token : string) : option json :=
  match split_on "." token with
  | [_; encoded; _] => if decide (encoded = "") then None else parse_payload encoded
  | _ => None
  end.
Definition payload_field (key : string) (p : json) : option json := match p with JObj fields => obj_get fields key | _ => None end.
(** [payload.exp] in seconds, when it is a number; a fraction of a second is cut. *)
Definition exp_of (token : string) : option Z :=
  match decodeJwtPayload token ≫= payload_field "exp" with Some (JNum (NumInt z)) => Some z | Some (JNum (NumOther z)) => Some z | _ => None end.
Definition scheduleAutoLogout (token : string) (now : Z) (s : Session) : Session :=
  let timer := match exp_of token with
               | None => None
               | Some e => let delay := (e * 1000 - now - 30000)%Z in if Z.ltb 0 delay then Some (fires_at now delay) else None
               end in
  mkSession (ss_authMode s) (ss_user s) (ss_isLoading s) (ss_loginError s) (ss_stored s) timer (ss_init s).
Definition set_user (u : option AuthUser) (s : Session) : Session :=
  mkSession (ss_authMode s) u (ss_isLoading s) (ss_loginError s) (ss_stored s) (ss_timer s) (ss_init s).
Definition set_stored (t : option string) (s : Session) : Session :=
  mkSession (ss_authMode s) (ss_user s) (ss_isLoading s) (ss_loginError s) t (ss_timer s) (ss_init s).
Definition strings_of (v : option json) : list string := match v with Some (JArr l) => omap (λ j, is_string (Some j)) l | _ => [] end.
Definition mode_of (v : option json) : AuthMode :=
  match v with Some (JStr "oauth") => AuthOauth | Some (JStr "none") => AuthNone | _ => AuthSimple end.
(** Tokens are issued by the dashboard: the username is a string, the roles are strings, the mode is one of the three. *)
Definition setUserFromToken (token : string) (now : Z) (s : Session) : Session :=
  match decodeJwtPayload token with
  | None | Some (JNull | JBool false | JStr "" | JNum (NumInt 0)) => s
  | Some p => scheduleAutoLogout token now
      (set_user (Some (mkAuthUser (default "unknown" (is_string (payload_field "username" p))) (strings_of (payload_field "roles" p)) (mode_of (payload_field "authMode" p)))) s)
  end.
(** The end of [init]. *)
Definition init_done (s : Session) : Session := mkSession (ss_authMode s) (ss_user s) false (ss_loginError s) (ss_stored s) (ss_timer s) InitDone.
Definition begin_validation (token : string) (s : Session) : Session :=
  mkSession (ss_authMode s) (ss_user s) (ss_isLoading s) (ss_loginError s) (ss_stored s) (ss_timer s) (Validating token).
Definition set_mode (m : AuthMode) (s : Session) : Session := mkSession m (ss_user s) (ss_isLoading s) (ss_loginError s) (ss_stored s) (ss_timer s) (ss_init s).

Inductive SessionEvent :=
| ConfigAnswered (r : option (option AuthMode))     (** [None]: the fetch threw; [Some None]: not ok *)
| MeAnswered (now : Z) (r : option AuthUser)        (** [None]: not ok, or it threw *)
| LoginStarted
| LoginAnswered (now : Z) (r : string + string)     (** the message of the refusal, or the token *)
| SignOut                                           (** the button, or a request that was answered 401 *)
| TimerFires (now : Z).
(** [fragment]: the token in the address the page was opened with. *)
Definition session_step (fragment : option string) (ev : SessionEvent) (s : Session) : option Session :=
  match ev with
  | ConfigAnswered r =>
      match ss_init s with
      | FetchingConfig =>
          match r with
          | None => Some (init_done s)
          | Some m =>
              let s := match m with Some m => set_mode m s | None => s end in
              Some (match fragment with
                    | Some t => begin_validation t (set_stored (Some t) s)
                    | None => match ss_stored s with Some t => if decide (t = "") then init_done s else begin_validation t s | None => init_done s end
                    end)
          end
      | _ => None
      end
  | MeAnswered now r =>
      match ss_init s with
      | Validating token =>
          Some (init_done (match r with Some u => scheduleAutoLogout token now (set_user (Some u) s) | None => set_user None (set_stored None s) end))
      | _ => None
      end
  | LoginStarted => Some (mkSession (ss_authMode s) (ss_user s) (ss_isLoading s) None (ss_stored s) (ss_timer s) (ss_init s))
  | LoginAnswered now (inl message) => Some (mkSession (ss_authMode s) (ss_user s) (ss_isLoading s) (Some message) (ss_stored s) (ss_timer s) (ss_init s))
  | LoginAnswered now (inr token) => Some (setUserFromToken token now (set_stored (Some token) s))
  | SignOut => Some (logout s)
  | TimerFires now => match ss_timer s with Some due => if Z.leb due now then Some (logout s) else None | None => None end
  end.
Fixpoint session_run (fragment : option string) (evs : list SessionEvent) (s : Session) : option Session :=
  match evs with [] => Some s | ev :: evs => match session_step fragment ev s with Some s' => session_run fragment evs s' | None => None end end.

(** ** The timer *)
Lemma fires_in_range now delay : (0 < delay < 2 ^ 31)%Z -> fires_at now delay = (now + delay)%Z.
Proof. intros H. unfold fires_at, to_int32. rewrite Z.mod_small by lia. lia. Qed.
Lemma fires_at_once now delay : (2 ^ 31 <= delay < 2 ^ 32)%Z -> fires_at now delay = now.
Proof.
  intros H. unfold fires_at, to_int32. replace (delay + 2 ^ 31)%Z with (delay - 2 ^ 31 + 1 * 2 ^ 32)%Z by lia. rewrite Z.mod_add, Z.mod_small by lia. lia.
Qed.
(** An event that does not sign in. *)
Definition signs_in (ev : SessionEvent) : bool := match ev with MeAnswered _ (Some _) | LoginAnswered _ (inr _) => true | _ => false end.
(** Signed in until [due], or signed out for good. *)
Definition until (due : Z) (u : AuthUser) (s : Session) : Prop := (ss_user s = Some u /\ ss_timer s = Some due) \/ (ss_user s = None /\ isAuthenticated s = bool_decide (ss_authMode s = AuthNone)).
Lemma signed_out s : ss_user s = None -> isAuthenticated s = bool_decide (ss_authMode s = AuthNone).
Proof. intros H. unfold isAuthenticated. rewrite H. rewrite (bool_decide_eq_false_2 (is_Some None)) by (intros [? ?]; done). by rewrite orb_false_r. Qed.
Lemma until_step fragment due u ev s s' : signs_in ev = false -> until due u s -> session_step fragment ev s = Some s' -> until due u s'.
Proof.
  intros Hev Hs Hstep.
  assert (Hcases : (ss_user s' = ss_user s /\ ss_timer s' = ss_timer s) \/ ss_user s' = None).
  { destruct ev as [r|now r| |now [m|t]| |now]; simpl in *; repeat case_match; simplify_eq; simpl; auto. }
  destruct Hcases as [[Hu Ht]|Hu]; [|right; split; [done|by apply signed_out]].
  destruct Hs as [[? ?]|[? _]]; [left; rewrite Hu, Ht; done|right]. rewrite Hu. split; [done|]. apply signed_out. by rewrite Hu.
Qed.
Lemma until_run fragment due u evs s s' : Forall (λ ev, signs_in ev = false) evs -> until due u s -> session_run fragment evs s = Some s' -> until due u s'.
Proof.
  intros Hevs. revert s. induction Hevs as [|ev evs Hev _ IH]; simpl; intros s Hs Hrun; [by simplify_eq|].
  destruct (session_step _ _ _) as [s1|] eqn:E; [|done]. eauto using until_step.
Qed.
(** A sign-in with a token that expires between 30 seconds and 24.8 days later sets the user
    and a timer for exactly 30 seconds before the expiry; whatever happens after it short of
    another sign-in, the user interface either still shows this user with this timer pending, or
    shows nobody; and from that moment on the timer can fire and shows nobody. *)
Theorem session_ends_before_expiry (fragment : option string) (token : string) (p : list (string * json)) (e now : Z) (s : Session) (evs : list SessionEvent) (s' : Session)
  (Hp : decodeJwtPayload token = Some (JObj p)) (He : exp_of token = Some e) (Hrange : (0 < e * 1000 - now - 30000 < 2 ^ 31)%Z)
  (Hevs : Forall (λ ev, signs_in ev = false) evs)
  (Hrun : session_run fragment (LoginAnswered now (inr token) :: evs) s = Some s') :
  ∃ u, ss_user (setUserFromToken token now s) = Some u /\ until (e * 1000 - 30000) u s' /\
  (ss_user s' = Some u -> ∀ t, (e * 1000 - 30000 <= t)%Z -> session_step fragment (TimerFires t) s' = Some (logout s') /\ ss_user (logout s') = None /\ ss_stored (logout s') = None) /\
  (∀ t, (t < e * 1000 - 30000)%Z -> ss_user s' = Some u -> session_step fragment (TimerFires t) s' = None).
Proof.
  simpl in Hrun. eexists. split; [unfold setUserFromToken; rewrite Hp; reflexivity|].
  assert (Hu : until (e * 1000 - 30000) (mkAuthUser (default "unknown" (is_string (payload_field "username" (JObj p)))) (strings_of (payload_field "roles" (JObj p)))
      (mode_of (payload_field "authMode" (JObj p)))) s').
  { eapply until_run; [exact Hevs| |exact Hrun]. left. unfold setUserFromToken. rewrite Hp. cbn [scheduleAutoLogout ss_user ss_timer set_user]. split; [done|].
    rewrite He. cbn zeta. rewrite (proj2 (Z.ltb_lt 0 _)) by lia. rewrite fires_in_range by lia. f_equal. lia. }
  split; [exact Hu|]. split.
  - intros Hus t Ht. destruct Hu as [[_ Htim]|[Hn _]]; [|congruence]. simpl. rewrite Htim. by rewrite (proj2 (Z.leb_le _ _)) by lia.
  - intros t Ht Hus. destruct Hu as [[_ Htim]|[Hn _]]; [|congruence]. simpl. rewrite Htim. by rewrite (proj2 (Z.leb_gt _ _)) by lia.
Qed.
(** A token that expires within 30 seconds sets no timer: the user is shown past its expiry. *)
Lemma short_session_has_no_timer token e now s : exp_of token = Some e -> (e * 1000 - now <= 30000)%Z -> ss_timer (scheduleAutoLogout token now s) = None.
Proof. intros He H. cbn [scheduleAutoLogout ss_timer]. rewrite He. cbn zeta. by rewrite (proj2 (Z.ltb_ge 0 _)) by lia. Qed.
(** A token that expires in 25 to 49 days signs its user out in the moment of the sign-in. *)
Theorem long_session_ends_at_once (token : string) (e now : Z) (s : Session) (fragment : option string)
  (He : exp_of token = Some e) (Hrange : (2 ^ 31 <= e * 1000 - now - 30000 < 2 ^ 32)%Z) :
  session_step fragment (TimerFires now) (scheduleAutoLogout token now s) = Some (logout (scheduleAutoLogout token now s)).
Proof.
  assert (Ht : ss_timer (scheduleAutoLogout token now s) = Some now).
  { cbn [scheduleAutoLogout ss_timer]. rewrite He. cbn zeta. rewrite (proj2 (Z.ltb_lt 0 _)) by lia. by rewrite fires_at_once. }
  cbn [session_step]. rewrite Ht. by rewrite Z.leb_refl.
Qed.
End session.

(** ** On a token *)
Definition toy_payload (encoded : string) : option json :=
  if decide (encoded = "p") then Some (JObj [("username", JStr "ada"); ("roles", JArr [JStr "admin"]); ("exp", JNum (NumInt 100))]) else None.
Lemma session_ends_before_expiry_witness :
  ∃ u, ss_user (setUserFromToken toy_payload "h.p.s" 1000 (new_session None)) = Some u /\ au_roles u = ["admin"] /\
    until 70000 u (default (new_session None) (session_run toy_payload None [LoginAnswered 1000 (inr "h.p.s"); LoginStarted; LoginAnswered 2000 (inl "no")] (new_session None))).
Proof.
  eexists. split; [vm_compute; reflexivity|]. split; [reflexivity|].
  destruct (session_ends_before_expiry toy_payload None "h.p.s" [("username", JStr "ada"); ("roles", JArr [JStr "admin"]); ("exp", JNum (NumInt 100))] 100 1000 (new_session None)
    [LoginStarted; LoginAnswered 2000 (inl "no")]
    (default (new_session None) (session_run toy_payload None [LoginAnswered 1000 (inr "h.p.s"); LoginStarted; LoginAnswered 2000 (inl "no")] (new_session None))))
    as (u & Hu & H & _); [vm_compute; reflexivity|vm_compute; reflexivity|lia|repeat constructor|vm_compute; reflexivity|].
  revert H. vm_compute in Hu. injection Hu as <-. exact (λ H, H).
Defined.
(** When the page cannot reach the server, the mode stays none and everybody is shown as an administrator. *)
Theorem unreachable_server_shows_admin (s : option string) (fragment : option string) :
  ∃ s', session_step toy_payload fragment (ConfigAnswered None) (new_session s) = Some s' /\ isAuthenticated s' = true /\ isAdmin s' = true /\ ss_isLoading s' = false.
Proof. eexists. by split. Qed.
(** An outage while a stored token is checked signs its user out. *)
Theorem outage_signs_out :
  ∃ s', session_run toy_payload None [ConfigAnswered (Some (Some AuthSimple)); MeAnswered 0 None] (new_session (Some "h.p.s")) = Some s' /\
    ss_stored s' = None /\ isAuthenticated s' = false.
Proof. eexists. by split. Qed.
