(* ===== verification/ChatStream.v ===== *)
(** * Reading a streamed chat answer (dashboard/src/utils/parseSse.ts, api/client.ts, and the
    stream of the development runner, dev-worker/src/runner-stub/routes/inference.ts)

    The runner writes a chat answer as server-sent events, the dashboard server pipes them
    through ([InferenceProxy]), and the browser reads the pieces as they come.  The decoder
    ([TextDecoder] in streaming mode) is represented by the pieces of text it returns. *)
From stdpp Require Import base tactics list strings.
From Stdlib Require Import ZArith Lia.
From S2P Require Import Prelude Js.

(** ** Values *)
Definition truthy (v : json) : bool :=
  match v with
  | JNull => false
  | JBool b => b
  | JNum (NumInt z) => negb (Z.eqb z 0)
  | JStr s => negb (bool_decide (s = ""))
  | _ => true
  end.
(** [v?.key] and [v?.[0]]; [None] is [undefined]. *)
Definition opt_field (key : string) (v : option json) : option json := match v with Some (JObj fields) => obj_get fields key | _ => None end.
Definition opt_first (v : option json) : option json :=
  match v with
  | Some (JArr l) => head l
  | Some (JObj fields) => obj_get fields "0"
  | Some (JStr (String c _)) => Some (JStr (String c ""))
  | _ => None
  end.

(** ** parseSse.ts *)
Record SseDelta := mkDelta { sd_content : option json; sd_done : bool; sd_usage : option json }.
Definition parseSseBuffer (buffer : string) : string * list string :=
  let lines := split_on newline buffer in (default "" (last lines), removelast lines).
Section client.
Context (JSON_parse : string → option json) (text_of_other : json → string).
Definition no_delta : SseDelta := mkDelta None false None.
Definition extractDelta (dataLine : string) : SseDelta :=
  if bool_decide (js_trim dataLine = "") || starts_with ":" dataLine then no_delta else
  if negb (starts_with "data: " dataLine) then no_delta else
  let data := js_trim (str_drop 6 dataLine) in
  if decide (data = "[DONE]") then mkDelta None true None else
  match JSON_parse data with
  | None | Some JNull => no_delta
  | Some chunk =>
      let content := opt_field "content" (opt_field "delta" (opt_first (opt_field "choices" (Some chunk)))) in
      let usage := opt_field "usage" (Some chunk) in
      mkDelta (match content with Some v => if truthy v then Some v else None | None => None end) false
        (match usage with Some v => if truthy v then Some v else None | None => None end)
  end.

(** ** streamChatCompletion *)
(** The answer of [fetch], and what each [reader.read()] gives. *)
Inductive ReadResult := RChunk (text : string) | RDone | RFail (abort : bool).
Inductive FetchResult :=
| FetchFailed (abort : bool)
| Response (status : Z) (ok : bool) (errorBody : option json) (body : option (list ReadResult)).
(** What the function does: the callbacks, and what it does to the session. *)
Inductive ChatCall :=
| OnChunk (delta : string)
| OnDone (fullText : string) (usage : option json)
| OnError (status : option Z) (message : option string)
| ClearToken
| Unauthorized.
Record StreamState := mkStream { ss_fullText : list string; ss_usage : option json; ss_buffer : string }.
(** The text a value adds to the answer: a string is itself. *)
Definition text_of (v : json) : string := match v with JStr s => s | _ => text_of_other v end.
Definition take_usage (d : SseDelta) (u : option json) : option json := match sd_usage d with Some v => Some v | None => u end.
(** The lines of one piece: the calls, and [None] when the answer is complete. *)
Fixpoint run_lines (lines : list string) (st : StreamState) : list ChatCall * option StreamState :=
  match lines with
  | [] => ([], Some st)
  | line :: rest =>
      let d := extractDelta line in
      if sd_done d then ([OnDone (js_join "" (ss_fullText st)) (ss_usage st)], None) else
      let usage := take_usage d (ss_usage st) in
      match sd_content d with
      | Some v => let '(calls, o) := run_lines rest (mkStream (ss_fullText st ++ [text_of v]) usage (ss_buffer st)) in (OnChunk (text_of v) :: calls, o)
      | None => run_lines rest (mkStream (ss_fullText st) usage (ss_buffer st))
      end
  end.
Fixpoint run_reads (reads : list ReadResult) (st : StreamState) : list ChatCall :=
  match reads with
  | [] => []   (* the stream is still open *)
  | RDone :: _ => [OnDone (js_join "" (ss_fullText st)) (ss_usage st)]
  | RFail abort :: _ => if abort then [] else [OnError None None]
  | RChunk text :: reads =>
      let '(rest, events) := parseSseBuffer (ss_buffer st +:+ text) in
      match run_lines events (mkStream (ss_fullText st) (ss_usage st) rest) with
      | (calls, Some st') => calls ++ run_reads reads st'
      | (calls, None) => calls
      end
  end.
Definition start_state : StreamState := mkStream [] None "".
Definition error_message (status : Z) (errorBody : option json) : string :=
  match opt_field "error" errorBody with None | Some JNull => "HTTP " +:+ show_int status | Some v => text_of v end.
Definition streamChatCompletion (r : FetchResult) : list ChatCall :=
  match r with
  | FetchFailed abort => if abort then [] else [OnError None None]
  | Response status ok errorBody body =>
      if Z.eqb status 401 then [ClearToken; Unauthorized; OnError (Some 401%Z) (Some "Unauthorized")] else
      match body with
      | Some reads => if ok then run_reads reads start_state else [OnError (Some status) (Some (error_message status errorBody))]
      | None => [OnError (Some status) (Some (error_message status errorBody))]
      end
  end.

(** ** The answer does not depend on how it is cut *)
Lemma split_on_piece c a : ∃ init rest, split_on c a = init ++ [rest] ∧ ∀ b, split_on c (a +:+ b) = init ++ split_on c (rest +:+ b).
Proof.
  induction a as [|x a (init & rest & Ha & Hb)]; [by exists [], ""|]. cbn [split_on].
  setoid_rewrite str_app_cons. cbn [split_on]. case_decide as Hx.
  - exists ("" :: init), rest. rewrite Ha. split; [done|]. intros b. by rewrite Hb.
  - rewrite Ha. destruct init as [|p ps]; cbn [app] in *.
    + exists [], (String x rest). split; [done|]. intros b. rewrite Hb. cbn [app]. rewrite str_app_cons. cbn [split_on]. by rewrite decide_False.
    + exists (String x p :: ps), rest. split; [done|]. intros b. by rewrite Hb.
Qed.
Lemma parse_app a b : parseSseBuffer (a +:+ b) =
  let '(rest, events) := parseSseBuffer a in let '(rest', events') := parseSseBuffer (rest +:+ b) in (rest', events ++ events').
Proof.
  unfold parseSseBuffer. destruct (split_on_piece newline a) as (init & rest & Ha & Hb). rewrite Ha, Hb, last_snoc, removelast_last. cbn [from_option]. unfold id.
  destruct (exists_last (split_on_not_nil newline (rest +:+ b))) as (l & x & ->).
  by rewrite (app_assoc init l [x]), !last_snoc, !removelast_last.
Qed.
Lemma run_lines_app l l' st : run_lines (l ++ l') st =
  match run_lines l st with
  | (calls, Some st') => let '(calls', o) := run_lines l' st' in (calls ++ calls', o)
  | (calls, None) => (calls, None)
  end.
Proof.
  revert st. induction l as [|x l IH]; intros st; cbn [app run_lines]; [by destruct (run_lines l' st)|]. destruct (sd_done _); [done|].
  destruct (sd_content _); [|apply IH]. rewrite IH. destruct (run_lines l _) as [calls [st'|]]; [|done]. by destruct (run_lines l' st').
Qed.
(** The buffer is only carried along. *)
Lemma run_lines_buffer l st b : run_lines l (mkStream (ss_fullText st) (ss_usage st) b) =
  let '(calls, o) := run_lines l st in (calls, (λ s, mkStream (ss_fullText s) (ss_usage s) b) <$> o).
Proof.
  revert st. induction l as [|x l IH]; intros st; cbn [run_lines ss_fullText ss_usage ss_buffer]; [done|]. destruct (sd_done _); [done|].
  destruct (sd_content _); [|apply (IH (mkStream _ _ _))].
  pose proof (IH (mkStream (ss_fullText st ++ [text_of j]) (take_usage (extractDelta x) (ss_usage st)) (ss_buffer st))) as Hl.
  cbn [ss_fullText ss_usage] in Hl. rewrite Hl. clear Hl. by destruct (run_lines l _) as [calls o].
Qed.
Lemma run_lines_keeps l st calls st' : run_lines l st = (calls, Some st') → ss_buffer st' = ss_buffer st.
Proof.
  revert st calls. induction l as [|x l IH]; intros st calls; cbn [run_lines]; [by intros [= _ <-]|]. destruct (sd_done _); [done|].
  destruct (sd_content _); [|apply (IH (mkStream _ _ _))]. destruct (run_lines l _) as [c o] eqn:Hl. intros [= _ ->]. by apply IH in Hl.
Qed.
Lemma js_join_concat x xs : js_join "" (x :: xs) = x +:+ js_join "" xs.
Proof. destruct xs; [simpl; by rewrite str_app_nil_r|done]. Qed.
(** The reference: the whole text at once. *)
Definition whole (text : string) (after : list ReadResult) : list ChatCall := run_reads (RChunk text :: after) start_state.
Lemma run_reads_join a b after st : run_reads (RChunk a :: RChunk b :: after) st = run_reads (RChunk (a +:+ b) :: after) st.
Proof.
  cbn [run_reads]. rewrite <- str_app_assoc, (parse_app (ss_buffer st +:+ a) b). destruct (parseSseBuffer (ss_buffer st +:+ a)) as [rest events].
  destruct (parseSseBuffer (rest +:+ b)) as [rest' events'] eqn:Hb. rewrite run_lines_app. set (s0 := mkStream (ss_fullText st) (ss_usage st) rest).
  change (mkStream (ss_fullText st) (ss_usage st) rest') with (mkStream (ss_fullText s0) (ss_usage s0) rest'). rewrite (run_lines_buffer events s0).
  destruct (run_lines events s0) as [calls [s1|]] eqn:H1; cbn [fmap option_fmap option_map]; [|done].
  rewrite (run_lines_keeps _ _ _ _ H1). cbn [ss_buffer s0]. rewrite Hb.
  destruct (run_lines events' (mkStream (ss_fullText s1) (ss_usage s1) rest')) as [calls' [s2|]]; [by rewrite app_assoc|done].
Qed.
Lemma run_reads_cons r reads reads' st : (∀ st', run_reads reads st' = run_reads reads' st') → run_reads (r :: reads) st = run_reads (r :: reads') st.
Proof.
  intros He. destruct r; [|done|done]. cbn [run_reads]. destruct (parseSseBuffer _) as [rest events]. destruct (run_lines _ _) as [calls [s|]]; [|done]. by rewrite He.
Qed.
Lemma run_reads_cut piece pieces after st : run_reads ((RChunk <$> piece :: pieces) ++ after) st = run_reads (RChunk (js_join "" (piece :: pieces)) :: after) st.
Proof.
  revert st piece. induction pieces as [|p ps IH]; intros st piece; [done|].
  cbn [fmap list_fmap app]. rewrite run_reads_join. etrans; [exact (IH st (piece +:+ p))|]. by rewrite !js_join_concat, str_app_assoc.
Qed.
(** The transport may cut the stream anywhere.  However the text of the answer is divided
    into the pieces that the reads return, the callbacks are those of the text read in one
    piece, in the same order and with the same arguments. *)
Theorem stream_cut_anywhere piece pieces after :
  run_reads ((RChunk <$> piece :: pieces) ++ after) start_state = whole (js_join "" (piece :: pieces)) after.
Proof. apply run_reads_cut. Qed.
End client.

(** ** The stream of the development runner *)
Definition STREAMING_TOKENS : list string :=
  ["This"; " is"; " a"; " simulated"; " response"; " from"; " the"; " dev"; " worker"; " stub."; " The"; " model"; " is"; " running"; " on"; " a"; " simulated"; " device."].
Section stub.
Context (JSON_stringify : json → string) (id : string) (created : Z) (modelName : string).
Definition stub_chunk (delta : list (string * json)) (finish_reason : json) : json :=
  JObj [("id", JStr id); ("object", JStr "chat.completion.chunk"); ("created", JNum (NumInt created)); ("model", JStr modelName);
        ("choices", JArr [JObj [("index", JNum (NumInt 0)); ("delta", JObj delta); ("finish_reason", finish_reason)]])].
Definition token_chunk (token : string) : json := stub_chunk [("content", JStr token)] JNull.
Definition done_chunk : json := stub_chunk [] (JStr "stop").
Definition sse_frame (data : string) : string := "data: " +:+ data +:+ String newline (String newline "").
(** What [handleStreaming] writes. *)
Definition handleStreaming (tokens : list string) : list string :=
  ((λ t, sse_frame (JSON_stringify (token_chunk t))) <$> tokens) ++ [sse_frame (JSON_stringify done_chunk); sse_frame "[DONE]"].
End stub.

(** *** The browser reads what the runner wrote *)
Lemma trim_end_brace a : trim_end (a +:+ "}") = a +:+ "}".
Proof. induction a as [|c a IH]; [done|]. rewrite str_app_cons. cbn [trim_end]. rewrite IH. rewrite bool_decide_eq_false_2 by (by destruct a). by rewrite andb_false_r. Qed.
Lemma trim_object t : js_trim ("{" +:+ t +:+ "}") = "{" +:+ t +:+ "}".
Proof. unfold js_trim. change (trim_start ("{" +:+ t +:+ "}")) with ("{" +:+ t +:+ "}"). by rewrite <- str_app_assoc, trim_end_brace. Qed.
Lemma split_frame d rest : has_char newline d = false → split_on newline (sse_frame d +:+ rest) = ("data: " +:+ d) :: "" :: split_on newline rest.
Proof.
  intros Hd. assert (sse_frame d +:+ rest = ("data: " +:+ d) +:+ String newline (String newline rest)) as -> by (unfold sse_frame; by rewrite !str_app_assoc).
  rewrite split_on_app, split_on_no_char; [done|]. by rewrite has_char_app, Hd.
Qed.
Lemma split_frames (datas : list string) :
  Forall (λ d, has_char newline d = false) datas →
  parseSseBuffer (js_join "" (sse_frame <$> datas)) = ("", concat ((λ d, ["data: " +:+ d; ""]) <$> datas)).
Proof.
  intros Hd. unfold parseSseBuffer.
  assert (split_on newline (js_join "" (sse_frame <$> datas)) = concat ((λ d, ["data: " +:+ d; ""]) <$> datas) ++ [""]) as ->.
  { induction Hd as [|d ds Hn _ IH]; [done|]. cbn [fmap list_fmap concat]. rewrite js_join_concat, split_frame by done. cbn [app]. by do 2 f_equal. }
  by rewrite last_snoc, removelast_last.
Qed.
Section roundtrip.
Context (JSON_parse : string → option json) (text_of_other : json → string) (JSON_stringify : json → string) (id : string) (created : Z) (modelName : string).
Notation chunk_of := (token_chunk id created modelName).
Notation last_chunk := (done_chunk id created modelName).
Notation run := (run_lines JSON_parse text_of_other).
(** The text of an object is one line in braces, and parses to the object. *)
Definition written_as (v : json) : Prop :=
  (∃ t, JSON_stringify v = "{" +:+ t +:+ "}") ∧ has_char newline (JSON_stringify v) = false ∧ JSON_parse (JSON_stringify v) = Some v.
Lemma data_delta fields : written_as (JObj fields) →
  extractDelta JSON_parse ("data: " +:+ JSON_stringify (JObj fields)) =
    mkDelta (match opt_field "content" (opt_field "delta" (opt_first (obj_get fields "choices"))) with Some c => if truthy c then Some c else None | None => None end) false
      (match obj_get fields "usage" with Some u => if truthy u then Some u else None | None => None end).
Proof.
  intros ((t & Ht) & _ & Hp). unfold extractDelta. rewrite bool_decide_eq_false_2.
  2: { rewrite Ht. intros Hempty. unfold js_trim in Hempty. change (trim_start ("data: " +:+ "{" +:+ t +:+ "}")) with (("data: {" +:+ t) +:+ "}") in Hempty.
       by rewrite trim_end_brace in Hempty. }
  change (starts_with ":" ("data: " +:+ JSON_stringify (JObj fields))) with false. rewrite starts_with_app. cbn [orb negb].
  change (str_drop 6 ("data: " +:+ JSON_stringify (JObj fields))) with (JSON_stringify (JObj fields)).
  assert (js_trim (JSON_stringify (JObj fields)) = JSON_stringify (JObj fields)) as -> by (rewrite Ht; apply trim_object).
  rewrite decide_False by (by rewrite Ht). by rewrite Hp.
Qed.
Lemma token_delta t : written_as (chunk_of t) → t ≠ "" → extractDelta JSON_parse ("data: " +:+ JSON_stringify (chunk_of t)) = mkDelta (Some (JStr t)) false None.
Proof.
  intros Hw Ht. unfold token_chunk, stub_chunk in *. rewrite data_delta by done. match goal with |- context [obj_get ?f "usage"] => change (obj_get f "usage") with (@None json) end.
  match goal with |- context [opt_field "content" ?v] => change (opt_field "content" v) with (Some (JStr t)) end.
  cbn [truthy]. by rewrite bool_decide_eq_false_2.
Qed.
Lemma last_delta : written_as last_chunk → extractDelta JSON_parse ("data: " +:+ JSON_stringify last_chunk) = no_delta.
Proof. intros Hw. unfold done_chunk, stub_chunk in *. by rewrite data_delta. Qed.
Lemma run_token t rest st : written_as (chunk_of t) → t ≠ "" →
  run (("data: " +:+ JSON_stringify (chunk_of t)) :: "" :: rest) st =
    let '(calls, o) := run rest (mkStream (ss_fullText st ++ [t]) (ss_usage st) (ss_buffer st)) in (OnChunk t :: calls, o).
Proof.
  intros Hw Ht. cbn [run_lines]. rewrite token_delta by done. change (extractDelta JSON_parse "") with no_delta.
  cbn [sd_done sd_content no_delta take_usage sd_usage ss_fullText ss_usage ss_buffer text_of]. by destruct (run_lines _ _ rest _).
Qed.
Lemma run_tokens tokens rest st : Forall (λ t, written_as (chunk_of t) ∧ t ≠ "") tokens →
  run (concat ((λ d, ["data: " +:+ d; ""]) <$> ((λ t, JSON_stringify (chunk_of t)) <$> tokens)) ++ rest) st =
    let '(calls, o) := run rest (mkStream (ss_fullText st ++ tokens) (ss_usage st) (ss_buffer st)) in ((OnChunk <$> tokens) ++ calls, o).
Proof.
  intros Ht. revert st. induction Ht as [|t ts [Hw Hne] _ IH]; intros st.
  - cbn [fmap list_fmap concat app]. rewrite app_nil_r. destruct st; cbn. by destruct (run_lines _ _ rest _).
  - cbn [fmap list_fmap concat app]. rewrite run_token by done. rewrite IH. cbn [ss_fullText ss_usage ss_buffer]. rewrite <- app_assoc. cbn [app].
    by destruct (run_lines _ _ rest _).
Qed.
Lemma answer_calls tokens piece pieces after :
  Forall (λ t, written_as (chunk_of t) ∧ t ≠ "") tokens → written_as last_chunk →
  js_join "" (piece :: pieces) = js_join "" (handleStreaming JSON_stringify id created modelName tokens) →
  run_reads JSON_parse text_of_other ((RChunk <$> piece :: pieces) ++ after) start_state = (OnChunk <$> tokens) ++ [OnDone (js_join "" tokens) None].
Proof.
  intros Ht Hlast Htext. rewrite run_reads_cut, Htext. cbn [run_reads ss_buffer start_state ss_fullText ss_usage].
  set (datas := ((λ t, JSON_stringify (chunk_of t)) <$> tokens) ++ [JSON_stringify last_chunk; "[DONE]"]).
  assert (handleStreaming JSON_stringify id created modelName tokens = sse_frame <$> datas) as ->.
  { unfold handleStreaming, datas. rewrite fmap_app, <- list_fmap_compose. done. }
  change ("" +:+ js_join "" (sse_frame <$> datas)) with (js_join "" (sse_frame <$> datas)). rewrite split_frames.
  2: { unfold datas. apply Forall_app. split.
       - apply Forall_fmap. eapply Forall_impl; [exact Ht|]. intros t [(_ & Hn & _) _]. done.
       - repeat constructor. apply Hlast. }
  unfold datas. rewrite fmap_app, concat_app, run_tokens by done. cbn [fmap list_fmap concat app run_lines ss_fullText ss_usage ss_buffer].
  by rewrite last_delta.
Qed.
(** The browser shows what the runner wrote.  However the transport cuts the stream that the
    development runner writes for a list of tokens, the browser is given exactly those tokens,
    one by one and in order, and then their concatenation as the complete answer. *)
Theorem streamed_answer_roundtrip tokens piece pieces after :
  Forall (λ t, written_as (chunk_of t) ∧ t ≠ "") tokens → written_as last_chunk →
  js_join "" (piece :: pieces) = js_join "" (handleStreaming JSON_stringify id created modelName tokens) →
  run_reads JSON_parse text_of_other ((RChunk <$> piece :: pieces) ++ after) start_state = (OnChunk <$> tokens) ++ [OnDone (js_join "" tokens) None].
Proof. apply answer_calls. Qed.
End roundtrip.

(** ** Streams that do not end as they should *)
(** A response that ends without its last event is given to the caller as complete. *)
Theorem truncated_answer_is_complete JSON_parse text_of_other :
  streamChatCompletion JSON_parse text_of_other (Response 200 true None (Some [RChunk ("data: " +:+ "{"); RDone])) = [OnDone "" None].
Proof. done. Qed.
(** An aborted request calls nothing, not even [onError]. *)
Theorem aborted_calls_nothing JSON_parse text_of_other pieces :
  streamChatCompletion JSON_parse text_of_other (FetchFailed true) = [] ∧
  (Forall (λ c, ∃ d, c = OnChunk d) (run_reads JSON_parse text_of_other ((RChunk <$> pieces) ++ [RFail true]) start_state) ∨
   ∃ l t u, run_reads JSON_parse text_of_other ((RChunk <$> pieces) ++ [RFail true]) start_state = l ++ [OnDone t u]).
Proof.
  split; [done|]. generalize start_state. induction pieces as [|p ps IH]; intros st; [left; constructor|]. cbn [fmap list_fmap app run_reads].
  destruct (parseSseBuffer _) as [rest events]. set (s0 := mkStream _ _ _). clearbody s0.
  assert (∀ ls s, let '(calls, o) := run_lines JSON_parse text_of_other ls s in
    if o then Forall (λ c, ∃ d, c = OnChunk d) calls else ∃ l t u, calls = l ++ [OnDone t u]) as Hl.
  { induction ls as [|x ls IHl]; intros s; cbn [run_lines]; [constructor|]. destruct (sd_done _); [by exists [], (js_join "" (ss_fullText s)), (ss_usage s)|].
    destruct (sd_content _) as [v|]; [|apply IHl]. specialize (IHl (mkStream (ss_fullText s ++ [text_of text_of_other v]) (take_usage (extractDelta JSON_parse x) (ss_usage s)) (ss_buffer s))).
    destruct (run_lines _ _ ls _) as [calls [o|]].
    - constructor; [by eexists|done].
    - destruct IHl as (l & t & u & ->). by exists (OnChunk (text_of text_of_other v) :: l), t, u. }
  specialize (Hl events s0). destruct (run_lines _ _ events s0) as [calls [s1|]]; [|by right].
  destruct (IH s1) as [Ha|(l & t & u & ->)]; [left; by apply Forall_app|]. right. exists (calls ++ l), t, u. by rewrite app_assoc.
Qed.

(** ** Concrete input *)
Definition toy_content (v : json) : string :=
  match opt_field "content" (opt_field "delta" (opt_first (opt_field "choices" (Some v)))) with Some (JStr s) => s | _ => "" end.
Definition toy_stringify (v : json) : string := "{" +:+ toy_content v +:+ "}".
Definition toy_parse (s : string) : option json :=
  if decide (s = "{}") then Some (done_chunk "c" 0 "m")
  else token_chunk "c" 0 "m" <$> List.find (λ t, bool_decide (toy_stringify (token_chunk "c" 0 "m" t) = s)) STREAMING_TOKENS.
Definition toy_text : string := js_join "" (handleStreaming toy_stringify "c" 0 "m" STREAMING_TOKENS).
Lemma streamed_answer_roundtrip_witness :
  run_reads toy_parse (λ _, "") ((RChunk <$> [str_take 3 toy_text; str_drop 3 toy_text]) ++ []) start_state =
    (OnChunk <$> STREAMING_TOKENS) ++ [OnDone "This is a simulated response from the dev worker stub. The model is running on a simulated device." None].
Proof.
  apply (streamed_answer_roundtrip toy_parse (λ _, "") toy_stringify "c" 0 "m" STREAMING_TOKENS (str_take 3 toy_text) [str_drop 3 toy_text] []).
  - unfold STREAMING_TOKENS. repeat (constructor; [split; [split_and!; [by eexists|by vm_compute|by vm_compute]|done]|]). constructor.
  - split_and!; [by exists ""|by vm_compute|by vm_compute].
  - by vm_compute.
Defined.
