(* ===== verification/ChatSession.v ===== *)
(** * A chat of the playground (dashboard/src/pages/Playground/chatSessionState.ts, useChatSession.ts)

    The state of one chat and its transitions, and the hook that drives them: one turn at a
    time, streamed text collected and shown once per animation frame, stop, and failure.  React
    renders between two events, so the ref to the latest state is the state.  Clock readings
    enter as arguments. *)
From stdpp Require Import base tactics list strings sets.
From Stdlib Require Import ZArith Lia.
From S2P Require Import Prelude Js ChatStream.

(** ** chatSessionState.ts *)
Inductive Role := User | Bot.
#[global] Instance Role_eq_dec : EqDecision Role.
Proof. solve_decision. Defined.
Record MessageError := mkMessageError { me_message : string; me_statusCode : option Z }.
(** [tokensPerSecond] is in tenths. *)
Record Metrics := mkMetrics { latencyMs : Z; ttftMs : option Z; tokensPerSecond : option Z; promptTokens : option json; completionTokens : option json }.
Record PlaygroundMessage := mkMessage {
  pm_id : string;
  pm_role : Role;
  pm_content : string;
  pm_timestamp : string;
  pm_isLoading : bool;
  pm_metrics : option Metrics;
  pm_error : option MessageError;
}.
Record ChatSessionState := mkChat { messages : list PlaygroundMessage; useStreaming : bool; isGenerating : bool }.
Definition initialChatSessionState : ChatSessionState := mkChat [] true false.
Definition beginTurn (s : ChatSessionState) (userText userId botId timestamp : string) : ChatSessionState :=
  mkChat (messages s ++ [mkMessage userId User userText timestamp false None None; mkMessage botId Bot "" timestamp true None None]) (useStreaming s) true.
Definition patchMessage (s : ChatSessionState) (id : string) (patch : PlaygroundMessage → PlaygroundMessage) : ChatSessionState :=
  mkChat ((λ m, if decide (pm_id m = id) then patch m else m) <$> messages s) (useStreaming s) (isGenerating s).
Definition set_generating (b : bool) (s : ChatSessionState) : ChatSessionState := mkChat (messages s) (useStreaming s) b.
Definition appendDelta (s : ChatSessionState) (botId delta : string) : ChatSessionState :=
  patchMessage s botId (λ m, mkMessage (pm_id m) (pm_role m) (pm_content m +:+ delta) (pm_timestamp m) false (pm_metrics m) (pm_error m)).
Definition completeTurn (s : ChatSessionState) (botId : string) (metrics : Metrics) (content : option string) : ChatSessionState :=
  set_generating false (patchMessage s botId (λ m, mkMessage (pm_id m) (pm_role m) (default (pm_content m) content) (pm_timestamp m) false (Some metrics) (pm_error m))).
Definition failTurn (s : ChatSessionState) (botId : string) (error : MessageError) (metrics : option Metrics) : ChatSessionState :=
  set_generating false (patchMessage s botId (λ m, mkMessage (pm_id m) (pm_role m) (pm_content m) (pm_timestamp m) false metrics (Some error))).
Definition abortTurn (s : ChatSessionState) (botId : option string) : ChatSessionState :=
  set_generating false
    (match botId with
     | Some b => if decide (b = "") then s else patchMessage s b (λ m, mkMessage (pm_id m) (pm_role m) (pm_content m) (pm_timestamp m) false (pm_metrics m) (pm_error m))
     | None => s
     end).
Definition clearHistory (s : ChatSessionState) : ChatSessionState := mkChat [] (useStreaming s) (isGenerating s).
Definition setStreaming (s : ChatSessionState) (b : bool) : ChatSessionState := mkChat (messages s) b (isGenerating s).

(** ** useChatSession.ts *)
(** [historyFor]: what is sent along: the user's texts and the answers, without the failed ones. *)
Definition historyFor (ms : list PlaygroundMessage) : list (string * string) :=
  (λ m, (if decide (pm_role m = User) then "user" else "assistant", pm_content m)) <$>
    List.filter (λ m, bool_decide (pm_error m = None) && (bool_decide (pm_role m = User) || negb (bool_decide (pm_content m = "")))) ms.
(** The refs of the hook.  [hk_live] is the turn in flight: the id of its answer, and whether it
    streams. *)
Record Hook := mkHook {
  hk_state : ChatSessionState;
  hk_botId : option string;            (** [currentBotIdRef] *)
  hk_pending : string;                 (** [pendingRef] *)
  hk_raf : option string;              (** [rafRef]: the answer the next frame commits to *)
  hk_live : option (string * bool);    (** [controllerRef], and the request behind it *)
  hk_sent : list (list (string * string));   (** the requests sent *)
}.
Definition initial_hook : Hook := mkHook initialChatSessionState None "" None None [].
Definition with_state (f : ChatSessionState → ChatSessionState) (h : Hook) : Hook :=
  mkHook (f (hk_state h)) (hk_botId h) (hk_pending h) (hk_raf h) (hk_live h) (hk_sent h).
Definition flushPending (botId : string) (h : Hook) : Hook :=
  let h1 := mkHook (hk_state h) (hk_botId h) (hk_pending h) None (hk_live h) (hk_sent h) in
  if decide (hk_pending h = "") then h1
  else mkHook (appendDelta (hk_state h) botId (hk_pending h)) (hk_botId h) "" None (hk_live h) (hk_sent h).
Definition finish (h : Hook) : Hook := mkHook (hk_state h) None (hk_pending h) (hk_raf h) None (hk_sent h).

Inductive ChatAction :=
| Send (rawContent userId botId timestamp : string)
| Chunk (delta : string)                                    (** [onChunk] of the turn in flight *)
| Frame                                                     (** the animation frame *)
| Done (fullText : string) (metrics : Metrics)              (** [onDone], or the answer without streaming *)
| Fail (error : MessageError) (latency : Z)                 (** [onError] *)
| Stop
| SetUseStreaming (b : bool)
| Clear.
Definition sendMessage (rawContent userId botId timestamp : string) (h : Hook) : Hook :=
  let content := js_trim rawContent in
  let current := hk_state h in
  if bool_decide (content = "") || isGenerating current then h else
  mkHook (beginTurn current content userId botId timestamp) (Some botId) (hk_pending h) (hk_raf h) (Some (botId, useStreaming current))
    (hk_sent h ++ [historyFor (messages current) ++ [("user", content)]]).
Definition onChunk (botId delta : string) (h : Hook) : Hook :=
  mkHook (hk_state h) (hk_botId h) (hk_pending h +:+ delta) (match hk_raf h with Some b => Some b | None => Some botId end) (hk_live h) (hk_sent h).
Definition onDone (botId : string) (streaming : bool) (fullText : string) (metrics : Metrics) (h : Hook) : Hook :=
  finish (with_state (λ s, completeTurn s botId metrics (Some fullText)) (if streaming then flushPending botId h else h)).
Definition onError (botId : string) (error : MessageError) (latency : Z) (h : Hook) : Hook :=
  finish (with_state (λ s, failTurn s botId error (Some (mkMetrics latency None None None None))) h).
Definition stopGeneration (h : Hook) : Hook :=
  let botId := hk_botId h in
  let h1 := mkHook (hk_state h) None (hk_pending h) (hk_raf h) None (hk_sent h) in
  let h2 := match botId with Some b => if decide (b = "") then h1 else flushPending b h1 | None => h1 end in
  with_state (λ s, abortTurn s botId) h2.
(** [None]: the action cannot happen now; only a request that was not aborted calls back, and
    only a streamed one delivers pieces. *)
Definition chat (a : ChatAction) (h : Hook) : option Hook :=
  match a, hk_live h with
  | Send raw userId botId timestamp, _ => Some (sendMessage raw userId botId timestamp h)
  | Chunk delta, Some (b, true) => Some (onChunk b delta h)
  | Done text metrics, Some (b, streaming) => Some (onDone b streaming text metrics h)
  | Fail error latency, Some (b, _) => Some (onError b error latency h)
  | Frame, _ => match hk_raf h with Some b => Some (flushPending b h) | None => None end
  | Stop, _ => Some (stopGeneration h)
  | SetUseStreaming b, _ => Some (with_state (λ s, setStreaming s b) h)
  | Clear, _ => Some (with_state clearHistory h)
  | _, _ => None
  end.

(** ** What holds of every chat *)
Definition ids_of (a : ChatAction) : list string := match a with Send _ u b _ => [u; b] | _ => [] end.
(** [newSessionId] gives ids never used before. *)
Definition fresh (used : list string) (a : ChatAction) : Prop := match a with Send _ u b _ => u ∉ used ∧ b ∉ used ∧ u ≠ b ∧ b ≠ "" | _ => True end.
Inductive chat_reach : list string → Hook → Prop :=
| cr_start : chat_reach [] initial_hook
| cr_step used a h h' : chat_reach used h → fresh used a → chat a h = Some h' → chat_reach (ids_of a ++ used) h'.
(** An answer that arrived. *)
Definition complete (m : PlaygroundMessage) : Prop := is_Some (pm_metrics m) ∧ pm_error m = None.
Definition waiting (m : PlaygroundMessage) : Prop := pm_metrics m = None ∧ pm_error m = None.
Record hook_ok (used : list string) (h : Hook) : Prop := {
  ho_generating : isGenerating (hk_state h) = bool_decide (is_Some (hk_live h));
  ho_bot : hk_botId h = fst <$> hk_live h;
  ho_ids : Forall (λ m, pm_id m ∈ used) (messages (hk_state h));
  ho_raf : ∀ b, hk_raf h = Some b → b ∈ used ∧ (∀ m, m ∈ messages (hk_state h) → pm_id m = b → ¬ complete m) ∧ hk_live h ≠ Some (b, false);
  ho_live : ∀ b st, hk_live h = Some (b, st) → b ∈ used ∧ b ≠ "" ∧ ∀ m, m ∈ messages (hk_state h) → pm_id m = b → waiting m;
}.
Definition patched (id : string) (patch : PlaygroundMessage → PlaygroundMessage) (m : PlaygroundMessage) : PlaygroundMessage := if decide (pm_id m = id) then patch m else m.
Lemma patch_messages s id p : messages (patchMessage s id p) = patched id p <$> messages s.
Proof. done. Qed.
(** A patch that keeps ids. *)
Lemma elem_of_patched id p (ms : list PlaygroundMessage) m : (∀ x, pm_id (p x) = pm_id x) → m ∈ patched id p <$> ms → ∃ x, x ∈ ms ∧ pm_id m = pm_id x ∧ ((pm_id x = id ∧ m = p x) ∨ (pm_id x ≠ id ∧ m = x)).
Proof.
  intros Hp (x & -> & Hx)%list_elem_of_fmap. exists x. unfold patched. case_decide; (split; [done|]); split; [apply Hp|by left|done|by right].
Qed.
Lemma patched_other id p (ms : list PlaygroundMessage) m : m ∈ ms → pm_id m ≠ id → m ∈ patched id p <$> ms.
Proof. intros Hm Hid. apply list_elem_of_fmap. exists m. unfold patched. by rewrite decide_False. Qed.
Lemma patched_own id p (ms : list PlaygroundMessage) m : m ∈ ms → pm_id m = id → p m ∈ patched id p <$> ms.
Proof. intros Hm Hid. apply list_elem_of_fmap. exists m. unfold patched. by rewrite decide_True. Qed.
Lemma patched_ids (used : list string) id p (ms : list PlaygroundMessage) : (∀ x, pm_id (p x) = pm_id x) → Forall (λ m, pm_id m ∈ used) ms → Forall (λ m, pm_id m ∈ used) (patched id p <$> ms).
Proof. intros Hp Hf. rewrite Forall_forall in *. intros m (x & Hx & -> & _)%elem_of_patched; [by apply Hf|done]. Qed.
Lemma flush_ok used b h : hook_ok used h → hook_ok used (flushPending b h).
Proof.
  intros [Hg Hb Hi Hr Hl]. unfold flushPending. case_decide as Hp.
  - constructor; cbn; [done|done|done|done|done].
  - constructor; cbn [hk_state hk_botId hk_raf hk_live]; [done|done|by apply patched_ids|done|]. unfold appendDelta. cbn [messages patchMessage].
    intros b' st Hlive. destruct (Hl b' st Hlive) as (? & ? & Hw). split_and!; [done|done|].
    intros m (x & Hx & Hid & [[_ ->]|[_ ->]])%(elem_of_patched b) Hm; [|by apply Hw|done]. cbn in *. by apply (Hw x).
Qed.
(** The turn in flight ends: its answer is no longer waiting, and nothing is in flight. *)
Lemma ended_ok used b st p h raf pending sent :
  (∀ x, pm_id (p x) = pm_id x) → hook_ok used h → hk_live h = Some (b, st) →
  (raf = None ∨ (raf = hk_raf h ∧ (hk_raf h = Some b → ∀ m, pm_id m = b → waiting m → ¬ complete (p m)))) →
  hook_ok used (mkHook (set_generating false (patchMessage (hk_state h) b p)) None pending raf None sent).
Proof.
  intros Hp [Hg Hb Hi Hr Hl] Hlive Hraf. destruct (Hl b st Hlive) as (Hbu & Hb0 & Hw). constructor; cbn [hk_state hk_botId hk_raf hk_live]; [done|done|by apply patched_ids| |done].
  intros b' Hb'. destruct Hraf as [-> |[-> Hraf]]; [done|]. destruct (Hr b' Hb') as (Hu & Hc & _). split_and!; [done| |done].
  cbn [messages set_generating patchMessage]. intros m (x & Hx & Hid & [[Hxb ->]|[Hxb ->]])%(elem_of_patched b) Hm; [|by apply (Hc x)|done].
  rewrite Hid, Hxb in Hm. subst b'. apply Hraf; [done|done|by apply Hw].
Qed.
Lemma send_hook_ok used raw u b t h : hook_ok used h → u ∉ used → b ∉ used → u ≠ b → b ≠ "" → hook_ok ([u; b] ++ used) (sendMessage raw u b t h).
Proof.
  intros Hok Hu Hb Hub Hb0. assert (hook_ok ([u; b] ++ used) h) as Hok'.
  { destruct Hok as [Hg Hbot Hi Hr Hl]. constructor; [done|done| | |].
    - eapply Forall_impl; [exact Hi|]. intros m Hm. apply elem_of_app. by right.
    - intros b' Hb'. destruct (Hr b' Hb') as (? & ? & ?). split_and!; [apply elem_of_app; by right|done|done].
    - intros b' st Hb'. destruct (Hl b' st Hb') as (? & ? & ?). split_and!; [apply elem_of_app; by right|done|done]. }
  unfold sendMessage. destruct (bool_decide _ || isGenerating _) eqn:Hgo; [done|]. destruct Hok as [Hg Hbot Hi Hr Hl], Hok' as [_ _ Hi' _ _].
  constructor; cbn [hk_state hk_botId hk_raf hk_live]; [done|done| | |].
  - unfold beginTurn. cbn [messages]. apply Forall_app. split; [done|]. repeat constructor; cbn [pm_id]; apply elem_of_app; left; set_solver.
  - intros b' Hb'. destruct (Hr b' Hb') as (Hu' & Hc & _). split_and!; [apply elem_of_app; by right| |by intros [= -> _]].
    unfold beginTurn. cbn [messages]. intros m [Hm|Hm]%elem_of_app Hid; [by apply Hc|]. apply elem_of_cons in Hm as [-> |Hm]; [by intros [[? ?] _]|].
    apply list_elem_of_singleton in Hm as ->. by intros [[? ?] _].
  - intros b' st [= <- <-]. split_and!; [apply elem_of_app; left; set_solver|done|]. unfold beginTurn. cbn [messages]. intros m [Hm|Hm]%elem_of_app Hid.
    + rewrite Forall_forall in Hi. specialize (Hi m Hm). by rewrite Hid in Hi.
    + apply elem_of_cons in Hm as [-> |Hm]; [done|]. by apply list_elem_of_singleton in Hm as ->.
Qed.
Lemma chat_ok used a h h' : hook_ok used h → fresh used a → chat a h = Some h' → hook_ok (ids_of a ++ used) h'.
Proof.
  intros Hok Hf Ha. destruct a as [raw u b t|delta| |text metrics|error latency| |st|]; cbn [chat ids_of app] in *.
  - injection Ha as <-. destruct Hf as (? & ? & ? & ?). by apply send_hook_ok.
  - destruct (hk_live h) as [[b []]|] eqn:Hlive; [|done|done]. injection Ha as <-. destruct Hok as [Hg Hbot Hi Hr Hl].
    constructor; cbn [onChunk hk_state hk_botId hk_raf hk_live]; [exact Hg|exact Hbot|done| |exact Hl].
    intros b' Hb'. destruct (hk_raf h) as [r|] eqn:Hraf; [by apply Hr|]. injection Hb' as <-. destruct (Hl b true Hlive) as (? & ? & Hw).
    split_and!; [done| |by rewrite Hlive]. intros m Hm Hid [[? Hmet] _]. destruct (Hw m Hm Hid). congruence.
  - destruct (hk_raf h) as [b|]; [|done]. destruct (hk_live h) as [[? []]|]; injection Ha as <-; by apply flush_ok.
  - destruct (hk_live h) as [[b st]|] eqn:Hlive; [|done]. injection Ha as <-. unfold onDone. destruct st.
    + pose proof (flush_ok used b h Hok) as Hok'. unfold completeTurn, with_state, finish. cbn.
      apply (ended_ok used b true); [done|exact Hok'| |left]; unfold flushPending; by case_decide.
    + unfold completeTurn, with_state, finish. cbn. apply (ended_ok used b false); [done|done|done|right]. split; [done|]. intros Hraf.
      exfalso. by apply (ho_raf used h Hok b Hraf).
  - destruct (hk_live h) as [[b st]|] eqn:Hlive; [|done]. injection Ha as <-. unfold onError, failTurn, with_state, finish. cbn.
    apply (ended_ok used b st); [done|done|done|right]. split; [done|]. intros _ m _ _ [_ He]. done.
  - destruct (hk_live h) as [[b st]|] eqn:Hlive.
    + assert (Some (stopGeneration h) = Some h') as [= <-] by (by destruct st). destruct (ho_live used h Hok b st Hlive) as (_ & Hb0 & _).
      pose proof (ho_bot used h Hok) as Hbot. rewrite Hlive in Hbot. unfold stopGeneration. rewrite Hbot. cbn [fmap option_fmap option_map fst].
      rewrite decide_False by done. pose proof (flush_ok used b h Hok) as Hok'.
      unfold flushPending in *. cbn [hk_pending hk_state] in *. case_decide as Hp; unfold with_state; cbn [hk_state hk_botId hk_pending hk_raf hk_live hk_sent];
        unfold abortTurn; rewrite decide_False by done; (refine (ended_ok used b st _ _ None _ _ _ Hok' _ _); [done|done|by left]).
    + injection Ha as <-. pose proof (ho_bot used h Hok) as Hbot. rewrite Hlive in Hbot. unfold stopGeneration. rewrite Hbot. cbn. destruct Hok as [Hg _ Hi Hr Hl].
      constructor; cbn; [done|done|done| |done]. intros b' Hb'. destruct (Hr b' Hb') as (? & ? & _). done.
  - assert (Some (with_state (λ s, setStreaming s st) h) = Some h') as [= <-] by (by destruct (hk_live h) as [[? []]|]). destruct Hok as [Hg Hbot Hi Hr Hl]. by constructor.
  - assert (Some (with_state clearHistory h) = Some h') as [= <-] by (by destruct (hk_live h) as [[? []]|]). destruct Hok as [Hg Hbot Hi Hr Hl].
    constructor; cbn; [done|done|constructor| |].
    + intros b Hb. destruct (Hr b Hb) as (? & _ & ?). split_and!; [done| |done]. by intros m Hm%not_elem_of_nil.
    + intros b st Hb. destruct (Hl b st Hb) as (? & ? & _). split_and!; [done|done|]. by intros m Hm%not_elem_of_nil.
Qed.
Lemma chat_reach_ok used h : chat_reach used h → hook_ok used h.
Proof. induction 1 as [|used a h h' _ IH Hf Ha]; [by constructor|by eapply chat_ok]. Qed.

(** ** Answers that arrived stay as they are *)
Lemma flush_final used b h m : hook_ok used h → m ∈ messages (hk_state h) → pm_id m ≠ b → m ∈ messages (hk_state (flushPending b h)).
Proof. intros Hok Hm Hb. unfold flushPending. case_decide; [done|]. by apply patched_other. Qed.
Lemma complete_not_live used h m b st : hook_ok used h → m ∈ messages (hk_state h) → complete m → hk_live h = Some (b, st) → pm_id m ≠ b.
Proof. intros Hok Hm [[? Hmet] _] Hlive Hid. destruct (ho_live used h Hok b st Hlive) as (_ & _ & Hw). destruct (Hw m Hm Hid). congruence. Qed.
Lemma complete_stays used a h h' m :
  hook_ok used h → chat a h = Some h' → m ∈ messages (hk_state h) → complete m → a ≠ Clear → m ∈ messages (hk_state h').
Proof.
  intros Hok Ha Hm Hc Hnc. pose proof (λ b st, complete_not_live used h m b st Hok Hm Hc) as Hnl.
  destruct a as [raw u b t|delta| |text metrics|error latency| |st|]; cbn [chat] in Ha.
  - injection Ha as <-. unfold sendMessage. destruct (_ || _); [done|]. cbn. apply elem_of_app. by left.
  - destruct (hk_live h) as [[b []]|]; [|done|done]. by injection Ha as <-.
  - destruct (hk_raf h) as [b|] eqn:Hraf; [|done]. assert (pm_id m ≠ b) by (intros Hid; by apply (proj1 (proj2 (ho_raf used h Hok b Hraf)) m)).
    destruct (hk_live h) as [[? []]|]; injection Ha as <-; by eapply flush_final.
  - destruct (hk_live h) as [[b st]|] eqn:Hlive; [|done]. injection Ha as <-. unfold onDone. cbn. apply patched_other; [|by eapply Hnl].
    destruct st; [|done]. eapply flush_final; [done..|by eapply Hnl].
  - destruct (hk_live h) as [[b st]|] eqn:Hlive; [|done]. injection Ha as <-. apply patched_other; [done|by eapply Hnl].
  - assert (h' = stopGeneration h) as -> by (destruct (hk_live h) as [[? []]|]; by injection Ha). unfold stopGeneration.
    pose proof (ho_bot used h Hok) as Hbot. rewrite Hbot. destruct (hk_live h) as [[b st]|] eqn:Hlive; [|done]. cbn [fmap option_fmap option_map fst].
    destruct (ho_live used h Hok b st Hlive) as (_ & Hb0 & _). rewrite decide_False by done. cbn [with_state hk_state]. unfold abortTurn. rewrite decide_False by done.
    apply patched_other; [|by eapply Hnl]. unfold flushPending. cbn [hk_pending hk_state]. case_decide; [done|]. apply patched_other; [done|by eapply Hnl].
  - assert (h' = with_state (λ s, setStreaming s st) h) as -> by (destruct (hk_live h) as [[? []]|]; by injection Ha). done.
  - done.
Qed.
(** An answer that arrived is final.  Whatever the user and the requests do, however frames,
    stops, failures and later turns interleave, no action other than clearing the history
    changes or removes a message that holds a complete answer. *)
Theorem completed_answers_final used a h h' m :
  chat_reach used h → chat a h = Some h' → m ∈ messages (hk_state h) → complete m → a ≠ Clear → m ∈ messages (hk_state h').
Proof. intros Hr. eapply complete_stays. by apply chat_reach_ok. Qed.

(** ** The answer shown *)
Definition chat_all (acts : list ChatAction) (h : Hook) : option Hook := foldl (λ o a, o ≫= chat a) (Some h) acts.
Lemma chat_all_cons a acts h : chat_all (a :: acts) h = chat a h ≫= chat_all acts.
Proof.
  unfold chat_all. cbn [foldl]. change (Some h ≫= chat a) with (chat a h). destruct (chat a h) as [h1|]; [done|]. cbn. by induction acts.
Qed.
Definition passive (a : ChatAction) : Prop := match a with Chunk _ | Frame | SetUseStreaming _ => True | _ => False end.
Definition chunks_of (acts : list ChatAction) : list string := omap (λ a, match a with Chunk d => Some d | _ => None end) acts.
(** The turn in flight is [b], and its answer is on the list. *)
Definition turn_open (b : string) (h : Hook) : Prop := hk_live h = Some (b, true) ∧ ∃ m, m ∈ messages (hk_state h) ∧ pm_id m = b ∧ pm_error m = None.
Lemma appended_open b b' d h : (∃ m, m ∈ messages (hk_state h) ∧ pm_id m = b ∧ pm_error m = None) →
  ∃ m, m ∈ messages (appendDelta (hk_state h) b' d) ∧ pm_id m = b ∧ pm_error m = None.
Proof.
  intros (m & Hm & Hid & He). destruct (decide (b = b')) as [<- |Hne].
  - eexists. split; [by eapply patched_own|]. done.
  - exists m. split; [|done]. apply patched_other; [done|congruence].
Qed.
Lemma flush_open b b' h : turn_open b h → turn_open b (flushPending b' h).
Proof. intros [Hl Hm]. unfold flushPending. case_decide; split; [done|done|done|]. by apply appended_open. Qed.
Lemma passive_open b acts h h' : turn_open b h → Forall passive acts → chat_all acts h = Some h' → turn_open b h'.
Proof.
  intros Ho Hp. revert h Ho. induction Hp as [|a acts Ha _ IH]; intros h Ho; [by intros [= <-]|]. rewrite chat_all_cons.
  destruct (chat a h) as [h1|] eqn:Hc; [|done]. cbn. apply IH. destruct Ho as [Hl Hm]. destruct a; try done; cbn [chat] in Hc; rewrite ?Hl in Hc.
  - by injection Hc as <-.
  - destruct (hk_raf h); [|done]. injection Hc as <-. by apply flush_open.
  - by injection Hc as <-.
Qed.
Lemma sent_open used raw u b t h : chat_reach used h → fresh used (Send raw u b t) → js_trim raw ≠ "" → isGenerating (hk_state h) = false → useStreaming (hk_state h) = true →
  turn_open b (sendMessage raw u b t h).
Proof.
  intros _ _ Hraw Hg Hs. unfold sendMessage. rewrite bool_decide_eq_false_2, Hg, Hs by done. split; [done|]. cbn [hk_state orb].
  exists (mkMessage b Bot "" t true None None). split; [|done]. unfold beginTurn. cbn [messages]. apply elem_of_app. right. right. left.
Qed.
Lemma done_shows b h h' text metrics : turn_open b h → chat (Done text metrics) h = Some h' →
  isGenerating (hk_state h') = false ∧ hk_pending h' = "" ∧
  ∃ m, m ∈ messages (hk_state h') ∧ pm_id m = b ∧ pm_content m = text ∧ pm_isLoading m = false ∧ complete m.
Proof.
  intros Ho. destruct (flush_open b b h Ho) as [_ (m & Hm & Hid & He)]. destruct Ho as [Hl _]. cbn [chat]. rewrite Hl. intros [= <-]. unfold onDone. split; [done|].
  split; [unfold flushPending; by case_decide|]. eexists. split; [by eapply patched_own|]. done.
Qed.
Section shown.
Context (JSON_parse : string → option json) (text_of_other : json → string) (JSON_stringify : json → string) (id : string) (created : Z) (modelName : string).
(** C38: the chat shows the answer of the runner.  From any chat that waits for the user, after
    a message is sent, let the callbacks of the stream that the development runner writes for
    some tokens, cut anywhere by the transport, arrive interleaved in any way with animation
    frames and changes of the streaming setting: when the last callback has run, the chat waits
    for the user again, no text is left uncommitted, and the answer on the list is complete and
    is the text of the tokens. *)
Theorem chat_shows_answer used h h' raw u b t mids text metrics tokens piece pieces after :
  chat_reach used h → fresh used (Send raw u b t) → js_trim raw ≠ "" → isGenerating (hk_state h) = false → useStreaming (hk_state h) = true →
  Forall (λ t, written_as JSON_parse JSON_stringify (token_chunk id created modelName t) ∧ t ≠ "") tokens →
  written_as JSON_parse JSON_stringify (done_chunk id created modelName) →
  js_join "" (piece :: pieces) = js_join "" (handleStreaming JSON_stringify id created modelName tokens) →
  Forall passive mids →
  (OnChunk <$> chunks_of mids) ++ [OnDone text None] = run_reads JSON_parse text_of_other ((RChunk <$> piece :: pieces) ++ after) start_state →
  chat_all (Send raw u b t :: mids ++ [Done text metrics]) h = Some h' →
  isGenerating (hk_state h') = false ∧ hk_pending h' = "" ∧
  ∃ m, m ∈ messages (hk_state h') ∧ pm_id m = b ∧ pm_content m = js_join "" tokens ∧ pm_isLoading m = false ∧ complete m.
Proof.
  intros Hr Hf Hraw Hg Hs Ht Hl Htext Hp Hcalls Hrun. rewrite (answer_calls _ _ _ _ _ _ tokens) in Hcalls by done.
  assert (text = js_join "" tokens) as -> by (apply app_inj_tail in Hcalls as [_ Hd]; congruence).
  rewrite chat_all_cons in Hrun. cbn [chat] in Hrun. pose proof (sent_open used raw u b t h Hr Hf Hraw Hg Hs) as Ho.
  change (Some (sendMessage raw u b t h) ≫= chat_all (mids ++ [Done (js_join "" tokens) metrics])) with (chat_all (mids ++ [Done (js_join "" tokens) metrics]) (sendMessage raw u b t h)) in Hrun.
  unfold chat_all in Hrun. rewrite foldl_app in Hrun. fold (chat_all mids (sendMessage raw u b t h)) in Hrun.
  destruct (chat_all mids (sendMessage raw u b t h)) as [h1|] eqn:Hm; [|done]. cbn [foldl] in Hrun.
  eapply done_shows; [by eapply passive_open|exact Hrun].
Qed.
End shown.

(** ** Failed turns *)
(** A failed turn leaves its uncommitted text and its frame behind: the first text of the next
    answer is then committed to the failed one. *)
Definition no_metrics : Metrics := mkMetrics 0 None None None None.
Definition fail_then_ask : list ChatAction :=
  [Send "first" "u1" "b1" "t"; Chunk "a"; Fail (mkMessageError "reset" None) 5; Send "second" "u2" "b2" "t"; Chunk "b"; Frame].
Theorem failed_turn_takes_next_text :
  ∃ h, chat_all fail_then_ask initial_hook = Some h ∧
    ((λ m, (pm_id m, pm_content m)) <$> messages (hk_state h)) = [("u1", "first"); ("b1", "ab"); ("u2", "second"); ("b2", "")].
Proof. eexists. split; [vm_compute; reflexivity|done]. Qed.

(** ** Concrete inputs *)
Fixpoint fresh_all (used : list string) (acts : list ChatAction) : Prop :=
  match acts with [] => True | a :: acts => fresh used a ∧ fresh_all (ids_of a ++ used) acts end.
Lemma chat_all_reach acts used h h' : chat_reach used h → fresh_all used acts → chat_all acts h = Some h' → chat_reach (foldl (λ u a, ids_of a ++ u) used acts) h'.
Proof.
  revert used h. induction acts as [|a acts IH]; intros used h Hr Hf; [by intros [= <-]|]. rewrite chat_all_cons. destruct (chat a h) as [h1|] eqn:Hc; [|done].
  destruct Hf as [Hf Hfs]. cbn. apply (IH (ids_of a ++ used) h1); [by eapply cr_step|done].
Qed.
Definition answered : Hook := default initial_hook (chat_all [Send "hi" "u1" "b1" "t"; Chunk "yo"; Done "yo" no_metrics] initial_hook).
Lemma answered_reach : chat_reach ["u1"; "b1"] answered.
Proof.
  apply (chat_all_reach [Send "hi" "u1" "b1" "t"; Chunk "yo"; Done "yo" no_metrics] [] initial_hook); [constructor| |by vm_compute].
  cbn. split_and!; [by intros ?%not_elem_of_nil|by intros ?%not_elem_of_nil|done..].
Qed.
Definition first_answer : PlaygroundMessage := mkMessage "b1" Bot "yo" "t" false (Some no_metrics) None.
Lemma completed_answers_final_witness : first_answer ∈ messages (hk_state (sendMessage "more" "u2" "b2" "t" answered)).
Proof.
  apply (completed_answers_final ["u1"; "b1"] (Send "more" "u2" "b2" "t") answered).
  - apply answered_reach.
  - done.
  - right. left.
  - split; [by eexists|done].
  - done.
Defined.
Definition streamed : list ChatAction := Chunk "This" :: Frame :: (Chunk <$> tail STREAMING_TOKENS).
Definition whole_answer : string := js_join "" STREAMING_TOKENS.
Lemma chat_shows_answer_witness :
  ∃ h', chat_all (Send "hello" "u2" "b2" "t" :: streamed ++ [Done whole_answer no_metrics]) answered = Some h' ∧ isGenerating (hk_state h') = false ∧
    ∃ m, m ∈ messages (hk_state h') ∧ pm_id m = "b2" ∧ pm_content m = whole_answer ∧ pm_isLoading m = false ∧ complete m.
Proof.
  destruct (chat_all (Send "hello" "u2" "b2" "t" :: streamed ++ [Done whole_answer no_metrics]) answered) as [h'|] eqn:Hrun; [|by vm_compute in Hrun].
  exists h'. split; [done|].
  destruct (chat_shows_answer toy_parse (λ _, "") toy_stringify "c" 0 "m" ["u1"; "b1"] answered h' "hello" "u2" "b2" "t" streamed whole_answer no_metrics
    STREAMING_TOKENS toy_text [] []) as (Hg & _ & Hm).
  - apply answered_reach.
  - split_and!; [by apply (bool_decide_unpack _); vm_compute|by apply (bool_decide_unpack _); vm_compute|done|done].
  - done.
  - done.
  - done.
  - unfold STREAMING_TOKENS. repeat (constructor; [split; [split_and!; [by eexists|by vm_compute|by vm_compute]|done]|]). constructor.
  - split_and!; [by exists ""|by vm_compute|by vm_compute].
  - done.
  - unfold streamed. cbn. repeat constructor.
  - by vm_compute.
  - exact Hrun.
  - split; [exact Hg|exact Hm].
Defined.
