(* ===== verification/RunnerStub.v ===== *)
(** * The runner of the development worker (dev-worker/src/runner-stub: state.ts, server.ts, routes)

    A runner that simulates an engine: its state machine, its start-up in ticks of 100 ms with
    its log lines, and the routes the control plane and the proxy call.  Awaits are separate
    steps.  Fractions of the start-up time are compared as exact rationals; delays are not
    negative. *)
From stdpp Require Import base tactics list strings sets.
From Stdlib Require Import ZArith Lia.
From S2P Require Import Prelude Js Types ChatStream.

(** ** state.ts *)
Inductive LoadingPhase := INITIALIZING | LOADING_WEIGHTS | ALLOCATING_MEMORY | LOADED.
Definition phase_str (p : LoadingPhase) : string :=
  match p with INITIALIZING => "INITIALIZING" | LOADING_WEIGHTS => "LOADING_WEIGHTS" | ALLOCATING_MEMORY => "ALLOCATING_MEMORY" | LOADED => "READY" end.
Record RunnerProgress := mkProgress { rp_phase : LoadingPhase; rp_percentComplete : Z; rp_message : string }.
(** The phases with their shares, in tenths; the script with its points, in hundredths. *)
Definition LOADING_PHASES : list (LoadingPhase * Z) := [(INITIALIZING, 1); (LOADING_WEIGHTS, 5); (ALLOCATING_MEMORY, 3); (LOADED, 1)]%Z.
Definition LOG_SCRIPT : list (Z * string) :=
  [(0%Z, "INFO [engine.py] Starting vLLM engine ..."); (2%Z, "INFO [platforms/__init__.py] Detected platform: cuda");
   (12%Z, "INFO [model_runner.py] Loading model weights ..."); (55%Z, "INFO [model_runner.py] Loading weights took 4.87 seconds");
   (62%Z, "INFO [worker.py] Allocating KV cache ..."); (75%Z, "INFO [worker.py] Capturing CUDA graphs (this may take a while) ...");
   (97%Z, "INFO [api_server.py] Application startup complete.")].
(** [elapsed / delayMs >= n / d] *)
Definition fraction_ge (elapsed delayMs n d : Z) : bool := Z.leb (n * delayMs) (d * elapsed).
(** [Math.min(Math.round(fraction * 100), 100)] *)
Definition percent (elapsed delayMs : Z) : Z := if Z.eqb delayMs 0 then 100 else Z.min ((200 * elapsed + delayMs) / (2 * delayMs)) 100.

(** Who waits for the start-up: [start] of the server, or a request to [/wake]. *)
Record Startup := mkStartup { su_elapsed : Z; su_phaseIdx : nat; su_logIdx : nat; su_delay : Z; su_logs : bool }.
Record Stub := mkStub {
  rs_state : RunnerState;
  rs_progress : RunnerProgress;
  rs_active : Z;                   (** [_activeRequests] *)
  rs_level : option string;        (** [_sleepLevel] *)
  rs_startup : option Startup;     (** the pending tick, with the variables of its closure *)
  rs_waiter : bool;                (** [startupResolve] was not called yet for the start-up *)
  rs_log : list string;            (** what [onLog] was given *)
  rs_complete : nat;               (** how often [onStartupComplete] was called *)
  rs_handlers : nat;               (** inference handlers behind [incrementRequests] *)
}.
Definition initial_progress : RunnerProgress := mkProgress INITIALIZING 0 "Initializing".
Definition new_stub : Stub := mkStub RunnerState.STARTING initial_progress 0 None None false [] 0 0.
Definition set_startup (o : option Startup) (s : Stub) : Stub :=
  mkStub (rs_state s) (rs_progress s) (rs_active s) (rs_level s) o (rs_waiter s) (rs_log s) (rs_complete s) (rs_handlers s).
Definition incrementRequests (s : Stub) : Stub :=
  mkStub (rs_state s) (rs_progress s) (rs_active s + 1) (rs_level s) (rs_startup s) (rs_waiter s) (rs_log s) (rs_complete s) (S (rs_handlers s)).
Definition decrementRequests (s : Stub) : Stub :=
  mkStub (rs_state s) (rs_progress s) (Z.max 0 (rs_active s - 1)) (rs_level s) (rs_startup s) (rs_waiter s) (rs_log s) (rs_complete s) (pred (rs_handlers s)).
(** [logs]: whether [onLog] was given, as on the start of the server. *)
Definition simulateStartup (delayMs : Z) (logs : bool) (s : Stub) : Stub :=
  mkStub RunnerState.STARTING (mkProgress INITIALIZING 0 "Loading: INITIALIZING") (rs_active s) (rs_level s) (Some (mkStartup 0 0 0 delayMs logs)) true (rs_log s)
    (rs_complete s) (rs_handlers s).
(** The first [while] of a tick: the phases whose end is reached; three steps are enough. *)
Definition phase_end (i : nat) : Z := foldr Z.add 0%Z (snd <$> take (S i) LOADING_PHASES).
Fixpoint advance_phase (fuel : nat) (elapsed delayMs : Z) (i : nat) : nat :=
  match fuel with
  | O => i
  | S fuel => if Nat.ltb i 3 && fraction_ge elapsed delayMs (phase_end i) 10 then advance_phase fuel elapsed delayMs (S i) else i
  end.
(** The second one: the lines whose point is reached. *)
Fixpoint due_lines (elapsed delayMs : Z) (script : list (Z * string)) : list string :=
  match script with
  | (at_, line) :: rest => if fraction_ge elapsed delayMs at_ 100 then line :: due_lines elapsed delayMs rest else []
  | [] => []
  end.
Definition tick (u : Startup) (s : Stub) : Stub :=
  let elapsed := (su_elapsed u + 100)%Z in
  let phaseIdx := advance_phase 3 elapsed (su_delay u) (su_phaseIdx u) in
  let lines := due_lines elapsed (su_delay u) (drop (su_logIdx u) LOG_SCRIPT) in
  let log := if su_logs u then rs_log s ++ lines else rs_log s in
  let phase := default INITIALIZING (fst <$> LOADING_PHASES !! phaseIdx) in
  if Z.leb (su_delay u) elapsed then
    mkStub RunnerState.READY (mkProgress LOADED 100 "Ready") (rs_active s) (rs_level s) None false log (if su_logs u then S (rs_complete s) else rs_complete s) (rs_handlers s)
  else
    mkStub (rs_state s) (mkProgress phase (percent elapsed (su_delay u)) ("Loading: " +:+ phase_str phase)) (rs_active s) (rs_level s)
      (Some (mkStartup elapsed phaseIdx (su_logIdx u + length lines) (su_delay u) (su_logs u))) (rs_waiter s) log (rs_complete s) (rs_handlers s).
(** Up to its await; the [string] is the message of the error. *)
Definition runner_state_str (s : RunnerState) : string :=
  match s with RunnerState.STARTING => "STARTING" | RunnerState.READY => "READY" | RunnerState.BUSY => "BUSY" | RunnerState.SLEEPING => "SLEEPING" | RunnerState.ERROR => "ERROR" end.
Definition sleep (level : string) (s : Stub) : string + Stub :=
  if decide (rs_state s = RunnerState.READY) then
    inr (mkStub RunnerState.SLEEPING (rs_progress s) (rs_active s) (Some level) (rs_startup s) (rs_waiter s) (rs_log s) (rs_complete s) (rs_handlers s))
  else inl ("Cannot sleep from state " +:+ runner_state_str (rs_state s)).
Definition wake (delayMs : Z) (s : Stub) : string + Stub :=
  if decide (rs_state s = RunnerState.SLEEPING) then
    inr (simulateStartup delayMs false (mkStub (rs_state s) (rs_progress s) (rs_active s) None (rs_startup s) (rs_waiter s) (rs_log s) (rs_complete s) (rs_handlers s)))
  else inl ("Cannot wake from state " +:+ runner_state_str (rs_state s)).
(** Cancels the tick and resolves whoever waits. *)
Definition destroy (s : Stub) : Stub :=
  mkStub (rs_state s) (rs_progress s) (rs_active s) (rs_level s) None false (rs_log s)
    (if rs_waiter s then match rs_startup s with Some u => if su_logs u then S (rs_complete s) else rs_complete s | None => rs_complete s end else rs_complete s) (rs_handlers s).

(** ** The routes *)
Record Health := mkHealth { hl_state : RunnerState; hl_activeRequests : Z; hl_progress : option RunnerProgress; hl_message : option string }.
Definition get_health (s : Stub) : Health :=
  mkHealth (rs_state s) (rs_active s) (if decide (rs_state s = RunnerState.STARTING) then Some (rs_progress s) else None)
    (match rs_state s with RunnerState.STARTING | RunnerState.ERROR => Some (rp_message (rs_progress s)) | _ => None end).
Definition memory_report (requiredMemory : Z) (devices : list (Z * string)) (total : Z) (s : Stub) : option (list (Z * string * Z * Z)) :=
  match rs_state s with
  | RunnerState.STARTING | RunnerState.ERROR => None   (* 409 *)
  | st =>
      let perDevice := if decide (devices = []) then 0%Z else (requiredMemory / Z.of_nat (length devices))%Z in
      Some ((λ '(i, t), (i, t, if decide (st = RunnerState.SLEEPING) then 0%Z else perDevice, total)) <$> devices)
  end.
Definition SUPPORTED_SLEEP_LEVELS : list string := ["L1_HOST_RAM"].
(** [inl]: the status of the refusal. *)
Definition post_sleep (level : option string) (s : Stub) : Z + Stub :=
  if negb (truthy_str level) then inl 400%Z else
  if bool_decide (default "" level ∈ SUPPORTED_SLEEP_LEVELS) then
    match sleep (default "" level) s with inr s' => inr s' | inl _ => inl 409%Z end
  else inl 400%Z.
Definition post_wake (wakeDelayMs : Z) (s : Stub) : Z + Stub := match wake wakeDelayMs s with inr s' => inr s' | inl _ => inl 409%Z end.
Definition sleep_status (s : Stub) : bool * option string :=
  let isSleeping := bool_decide (rs_state s = RunnerState.SLEEPING) in
  (isSleeping, if isSleeping && truthy_str (rs_level s) then rs_level s else None).
(** POST /v1/chat/completions and /v2/models/:model/infer, up to the delay. *)
Definition begin_inference (s : Stub) : Z + Stub :=
  match rs_state s with RunnerState.READY | RunnerState.BUSY => inr (incrementRequests s) | _ => inl 503%Z end.
Definition isOipRunnerType (runnerType : string) : bool := bool_decide (runnerType = "mlserver").

(** ** Its life
    [start] of the server begins the first start-up, once; later ones come from [/wake]. *)
Inductive StubEvent := Tick | SleepRequest (level : option string) | WakeRequest | InferenceRequest | InferenceEnd | Destroy.
#[export] Instance StubEvent_eq : EqDecision StubEvent.
Proof. solve_decision. Defined.
Definition or_same (s : Stub) (r : Z + Stub) : Stub := match r with inr s' => s' | inl _ => s end.
Definition start (startupDelayMs : Z) : Stub := simulateStartup startupDelayMs true new_stub.
(** A tick needs a timer, the end of an inference needs a handler. *)
Definition stub_step (wakeDelayMs : Z) (e : StubEvent) (s : Stub) : option Stub :=
  match e with
  | Tick => match rs_startup s with Some u => Some (tick u s) | None => None end
  | SleepRequest level => Some (or_same s (post_sleep level s))
  | WakeRequest => Some (or_same s (post_wake wakeDelayMs s))
  | InferenceRequest => Some (or_same s (begin_inference s))
  | InferenceEnd => match rs_handlers s with S _ => Some (decrementRequests s) | O => None end
  | Destroy => Some (destroy s)
  end.
Fixpoint stub_run (wakeDelayMs : Z) (es : list StubEvent) (s : Stub) : option Stub :=
  match es with
  | [] => Some s
  | e :: es => match stub_step wakeDelayMs e s with Some s' => stub_run wakeDelayMs es s' | None => None end
  end.

(** ** Lemmas on a tick *)
Definition script_lines : list string := snd <$> LOG_SCRIPT.
Lemma due_lines_take elapsed delayMs script :
  due_lines elapsed delayMs script = take (length (due_lines elapsed delayMs script)) (snd <$> script).
Proof. induction script as [|[a l] script IH]; simpl; [done|]. case_match; simpl; [by f_equal|done]. Qed.
Lemma due_lines_all elapsed delayMs script :
  (0 <= delayMs <= elapsed)%Z -> Forall (λ p, (0 <= p.1 <= 100)%Z) script -> due_lines elapsed delayMs script = snd <$> script.
Proof.
  intros ?. induction 1 as [|[a l] script Ha _ IH]; simpl in *; [done|].
  unfold fraction_ge. rewrite (proj2 (Z.leb_le _ _)) by nia. by rewrite IH.
Qed.
(** The lines a tick emits continue those that were emitted; the last tick emits all the rest. *)
Lemma tick_lines elapsed delayMs i :
  take i script_lines ++ due_lines elapsed delayMs (drop i LOG_SCRIPT) =
  take (i + length (due_lines elapsed delayMs (drop i LOG_SCRIPT))) script_lines.
Proof. rewrite (due_lines_take _ _ (drop i LOG_SCRIPT)) at 1. unfold script_lines. by rewrite fmap_drop, take_take_drop. Qed.
Lemma last_lines elapsed delayMs i :
  (0 <= delayMs <= elapsed)%Z -> take i script_lines ++ due_lines elapsed delayMs (drop i LOG_SCRIPT) = script_lines.
Proof.
  intros H. rewrite due_lines_all; [|done|].
  - unfold script_lines. by rewrite fmap_drop, take_drop.
  - apply Forall_drop. unfold LOG_SCRIPT. repeat constructor; simpl; lia.
Qed.
Lemma percent_range elapsed delayMs : (0 <= elapsed)%Z -> (0 <= delayMs)%Z -> (0 <= percent elapsed delayMs <= 100)%Z.
Proof.
  intros. unfold percent. destruct (Z.eqb_spec delayMs 0); [lia|].
  split; [apply Z.min_glb; [apply Z.div_pos; lia|lia]|lia].
Qed.

(** ** The invariant of its state *)
Definition startup_ok (s : Stub) (u : Startup) : Prop :=
  rs_state s = RunnerState.STARTING /\ rs_waiter s = true /\ (0 <= su_elapsed u)%Z /\ (0 <= su_delay u)%Z /\
  (if su_logs u then rs_log s = take (su_logIdx u) script_lines /\ rs_complete s = 0 else rs_log s = script_lines /\ rs_complete s = 1).
Record stub_ok (s : Stub) : Prop := mkStubOk {
  ok_active : rs_active s = Z.of_nat (rs_handlers s);
  ok_level : is_Some (rs_level s) <-> rs_state s = RunnerState.SLEEPING;
  ok_level_known : ∀ l, rs_level s = Some l -> l ∈ SUPPORTED_SLEEP_LEVELS;
  ok_states : rs_state s <> RunnerState.BUSY /\ rs_state s <> RunnerState.ERROR;
  ok_percent : (0 <= rp_percentComplete (rs_progress s) <= 100)%Z;
  ok_log : rs_log s `prefix_of` script_lines /\ rs_complete s <= 1;
  ok_startup : ∀ u, rs_startup s = Some u -> startup_ok s u;
  ok_quiet : rs_startup s = None -> rs_waiter s = false /\ (rs_state s <> RunnerState.STARTING -> rs_log s = script_lines /\ rs_complete s = 1);
}.
Lemma started_ok startupDelayMs : (0 <= startupDelayMs)%Z -> stub_ok (start startupDelayMs).
Proof.
  intros. split; simpl; try done; try lia.
  - split; [apply prefix_nil|lia].
  - intros u [= <-]. repeat split; simpl; lia || done.
Qed.
Lemma ready_quiet s : stub_ok s -> rs_state s <> RunnerState.STARTING -> rs_startup s = None /\ rs_waiter s = false /\ rs_log s = script_lines /\ rs_complete s = 1.
Proof.
  intros Hok Hst. destruct (rs_startup s) as [u|] eqn:E.
  - by destruct (ok_startup _ Hok _ E) as [? _].
  - destruct (ok_quiet _ Hok E) as [? H]. by destruct (H Hst).
Qed.
Lemma tick_ok u s : stub_ok s -> rs_startup s = Some u -> stub_ok (tick u s).
Proof.
  intros Hok Hu. pose proof (ok_startup _ Hok _ Hu) as (Hst & Hw & He & Hd & Hl).
  pose proof (ok_active _ Hok). pose proof (ok_log _ Hok) as [Hp Hc].
  assert (Hn : rs_level s = None).
  { destruct (rs_level s) as [l|] eqn:E; [|done]. assert (rs_state s = RunnerState.SLEEPING) by (apply (ok_level _ Hok); by rewrite E). congruence. }
  unfold tick. destruct (Z.leb_spec (su_delay u) (su_elapsed u + 100)) as [Hle|Hgt].
  - assert (Hlog : (if su_logs u then rs_log s ++ due_lines (su_elapsed u + 100) (su_delay u) (drop (su_logIdx u) LOG_SCRIPT) else rs_log s) = script_lines
      /\ (if su_logs u then S (rs_complete s) else rs_complete s) = 1).
    { destruct (su_logs u); destruct Hl as [-> ->]; [|done]. split; [apply last_lines; lia|done]. }
    destruct Hlog as [-> ->]. split; simpl; rewrite ?Hn; try done; try lia.
  - split; simpl; rewrite ?Hn, ?Hst; try done.
    + apply percent_range; lia.
    + destruct (su_logs u); [|done]. destruct Hl as [-> ->]. rewrite tick_lines. split; [apply prefix_take|lia].
    + intros ? [= <-]. repeat split; simpl; try done; try lia.
      destruct (su_logs u); destruct Hl as [-> ->]; [|done]. by rewrite tick_lines.
Qed.

Lemma sleep_ok level s s' : stub_ok s -> level ∈ SUPPORTED_SLEEP_LEVELS -> sleep level s = inr s' -> stub_ok s'.
Proof.
  intros Hok Hlev. unfold sleep. case_decide as Hr; [|done]. intros [= <-].
  destruct (ready_quiet _ Hok) as (Hs & Hw & Hl & Hc); [by rewrite Hr|].
  pose proof (ok_active _ Hok). pose proof (ok_percent _ Hok). pose proof (ok_log _ Hok).
  split; simpl; try done; rewrite ?Hs; try done.
  - by intros ? [= <-].
Qed.
Lemma wake_ok wakeDelayMs s s' : (0 <= wakeDelayMs)%Z -> stub_ok s -> wake wakeDelayMs s = inr s' -> stub_ok s'.
Proof.
  intros Hd Hok. unfold wake. case_decide as Hr; [|done]. intros [= <-].
  destruct (ready_quiet _ Hok) as (Hs & Hw & Hl & Hc); [by rewrite Hr|].
  pose proof (ok_active _ Hok). pose proof (ok_log _ Hok).
  split; simpl; try done; try lia.
  - intros u [= <-]. repeat split; simpl; lia || done.
Qed.
(** Changing the counter and the handlers together keeps the rest. *)
Lemma counted_ok s n : stub_ok s ->
  stub_ok (mkStub (rs_state s) (rs_progress s) (Z.of_nat n) (rs_level s) (rs_startup s) (rs_waiter s) (rs_log s) (rs_complete s) n).
Proof. intros []. by split. Qed.
Lemma destroy_ok s : stub_ok s -> stub_ok (destroy s).
Proof.
  intros Hok. unfold destroy.
  assert (Hc : (if rs_waiter s then match rs_startup s with Some u => if su_logs u then S (rs_complete s) else rs_complete s | None => rs_complete s end else rs_complete s) <= 1
     /\ (rs_state s <> RunnerState.STARTING -> rs_log s = script_lines /\
        (if rs_waiter s then match rs_startup s with Some u => if su_logs u then S (rs_complete s) else rs_complete s | None => rs_complete s end else rs_complete s) = 1)).
  { pose proof (ok_log _ Hok) as [_ Hc]. destruct (rs_startup s) as [u|] eqn:E.
    - destruct (ok_startup _ Hok _ E) as (Hst & -> & _ & _ & Hl). split; [|done]. destruct (su_logs u); lia.
    - destruct (ok_quiet _ Hok E) as [-> ?]. done. }
  destruct Hok, Hc. split; simpl; try done. by destruct ok_log0.
Qed.
Lemma stub_step_ok wakeDelayMs e s s' : (0 <= wakeDelayMs)%Z -> stub_ok s -> stub_step wakeDelayMs e s = Some s' -> stub_ok s'.
Proof.
  intros Hd Hok. destruct e as [|level| | | |]; simpl.
  - destruct (rs_startup s) as [u|] eqn:E; [|done]. intros [= <-]. by apply tick_ok.
  - intros [= <-]. unfold post_sleep. destruct (truthy_str level); [|done]. simpl.
    case_bool_decide as Hin; [|done]. destruct (sleep _ s) as [|s1] eqn:E; [done|]. by eapply sleep_ok.
  - intros [= <-]. unfold post_wake. destruct (wake _ s) as [|s1] eqn:E; [done|]. by eapply wake_ok.
  - intros [= <-]. pose proof (counted_ok s (S (rs_handlers s)) Hok) as H. unfold begin_inference, incrementRequests.
    rewrite (ok_active _ Hok). replace (Z.of_nat (rs_handlers s) + 1)%Z with (Z.of_nat (S (rs_handlers s))) by lia. by destruct (rs_state s).
  - destruct (rs_handlers s) as [|n] eqn:E; [done|]. intros [= <-]. pose proof (counted_ok s n Hok) as H.
    unfold decrementRequests. rewrite (ok_active _ Hok), E. replace (Z.max 0 (Z.of_nat (S n) - 1)) with (Z.of_nat n) by lia. done.
  - intros [= <-]. by apply destroy_ok.
Qed.
Lemma stub_run_ok wakeDelayMs es s s' : (0 <= wakeDelayMs)%Z -> stub_ok s -> stub_run wakeDelayMs es s = Some s' -> stub_ok s'.
Proof.
  intros Hd. revert s. induction es as [|e es IH]; simpl; intros s Hok H; [by simplify_eq|].
  destruct (stub_step _ _ _) as [s1|] eqn:E; [|done]. eauto using stub_step_ok.
Qed.

(** Equal shares, rounded down, of an amount. *)
Lemma shares_total (A : Type) (l : list A) (share amount : Z) :
  (0 <= amount)%Z -> (0 <= share)%Z -> (share * Z.of_nat (length l) <= amount)%Z ->
  (0 <= foldr Z.add 0%Z ((λ _, share) <$> l) <= amount)%Z.
Proof.
  intros ? ? H. assert (foldr Z.add 0%Z ((λ _, share) <$> l) = share * Z.of_nat (length l))%Z as ->; [|nia].
  clear. induction l as [|a l IH]; [simpl; lia|]. rewrite fmap_cons. cbn [foldr length]. rewrite IH. lia.
Qed.
Definition device_share (requiredMemory : Z) (devices : list (Z * string)) (s : Stub) : Z :=
  if decide (rs_state s = RunnerState.SLEEPING) then 0%Z else if decide (devices = []) then 0%Z else (requiredMemory / Z.of_nat (length devices))%Z.
Lemma report_shares requiredMemory devices total s report :
  memory_report requiredMemory devices total s = Some report ->
  (λ r, r.1.2) <$> report = (λ _, device_share requiredMemory devices s) <$> devices.
Proof.
  unfold memory_report, device_share. intros H.
  destruct (rs_state s); simplify_eq; rewrite <- list_fmap_compose; apply list_fmap_ext; intros ? [] _; simpl; by repeat case_decide.
Qed.
Lemma share_fits requiredMemory devices s :
  (0 <= requiredMemory)%Z ->
  (0 <= device_share requiredMemory devices s)%Z /\ (device_share requiredMemory devices s * Z.of_nat (length devices) <= requiredMemory)%Z.
Proof.
  intros. unfold device_share. repeat case_decide; [lia|lia|].
  assert (0 < Z.of_nat (length devices))%Z by (destruct devices; simpl; lia || done).
  split; [apply Z.div_pos; lia|]. rewrite Z.mul_comm. by apply Z.mul_div_le.
Qed.

(** ** What the control plane reads *)
(** Over any order of ticks, sleeps, wakes, inferences and a destruction after the start,
    [/health] counts exactly the inferences in flight; [/sleep-status] names a level exactly when
    the runner sleeps, and only a supported one; [/memory-report] answers exactly when the
    start-up is over, with nothing used while asleep and otherwise shares that add up to at most
    the required memory; an inference is taken exactly when the runner is READY; and by then all
    the log lines of the start-up were emitted, once and in order. *)
Theorem stub_reports_truth (startupDelayMs wakeDelayMs requiredMemory total : Z) (devices : list (Z * string)) (es : list StubEvent) (s : Stub)
  (Hs : (0 <= startupDelayMs)%Z) (Hw : (0 <= wakeDelayMs)%Z) (Hm : (0 <= requiredMemory)%Z)
  (Hrun : stub_run wakeDelayMs es (start startupDelayMs) = Some s) :
  hl_activeRequests (get_health s) = Z.of_nat (rs_handlers s) /\
  (match sleep_status s with
   | (true, l) => rs_state s = RunnerState.SLEEPING /\ l = Some "L1_HOST_RAM"
   | (false, l) => rs_state s <> RunnerState.SLEEPING /\ l = None
   end) /\
  (match memory_report requiredMemory devices total s with
   | None => rs_state s = RunnerState.STARTING
   | Some report =>
       rs_state s <> RunnerState.STARTING /\ rs_log s = script_lines /\ rs_complete s = 1 /\
       (let used := foldr Z.add 0%Z ((λ r, r.1.2) <$> report) in
        (0 <= used <= requiredMemory)%Z /\ (rs_state s = RunnerState.SLEEPING -> used = 0%Z))
   end) /\
  (match begin_inference s with
   | inr s' => rs_state s = RunnerState.READY /\ rs_handlers s' = S (rs_handlers s)
   | inl status => status = 503%Z /\ rs_state s <> RunnerState.READY
   end) /\
  rs_log s `prefix_of` script_lines.
Proof.
  pose proof (stub_run_ok _ _ _ _ Hw (started_ok _ Hs) Hrun) as Hok. clear Hrun.
  split_and!.
  - apply (ok_active _ Hok).
  - unfold sleep_status. case_bool_decide as Hst; simpl; [|done]. split; [done|].
    destruct (proj2 (ok_level _ Hok) Hst) as [l Hl]. pose proof (ok_level_known _ Hok _ Hl) as Hin.
    apply list_elem_of_singleton in Hin as ->. by rewrite Hl.
  - destruct (memory_report _ _ _ _) as [report|] eqn:E.
    + assert (Hst : rs_state s <> RunnerState.STARTING) by (intros Hst; unfold memory_report in E; by rewrite Hst in E).
      destruct (ready_quiet _ Hok Hst) as (_ & _ & Hl & Hc). split_and!; [done..|].
      rewrite (report_shares _ _ _ _ _ E). destruct (share_fits requiredMemory devices s Hm) as [Hp Hf].
      split; [by apply shares_total|]. intros Hsl.
      enough (0 <= foldr Z.add 0%Z ((λ _, device_share requiredMemory devices s) <$> devices) <= 0)%Z by lia.
      apply shares_total; [lia|done|]. unfold device_share. by rewrite decide_True.
    + destruct (ok_states _ Hok). unfold memory_report in E. by destruct (rs_state s).
  - destruct (ok_states _ Hok). unfold begin_inference. by destruct (rs_state s).
  - apply (ok_log _ Hok).
Qed.
Lemma stub_reports_truth_witness :
  ∃ s, stub_run 0 [Tick; Tick; InferenceRequest; SleepRequest (Some "L1_HOST_RAM"); InferenceEnd] (start 150) = Some s /\
  memory_report 101 [(0%Z, "cuda"); (1%Z, "cuda")] 1000 s = Some [(0%Z, "cuda", 0%Z, 1000%Z); (1%Z, "cuda", 0%Z, 1000%Z)] /\
  sleep_status s = (true, Some "L1_HOST_RAM") /\ hl_activeRequests (get_health s) = Z.of_nat (rs_handlers s).
Proof.
  eexists. split; [vm_compute; reflexivity|]. split; [vm_compute; reflexivity|]. split; [vm_compute; reflexivity|].
  apply (stub_reports_truth 150 0 101 1000 [(0%Z, "cuda"); (1%Z, "cuda")]
    [Tick; Tick; InferenceRequest; SleepRequest (Some "L1_HOST_RAM"); InferenceEnd]); [lia|lia|lia|vm_compute; reflexivity].
Defined.

(** ** The start-up ends *)
Definition ticks_needed (delayMs : Z) : nat := Z.to_nat (Z.max 1 ((delayMs + 99) / 100)).
Definition request_during_startup (e : StubEvent) : bool :=
  match e with Tick | SleepRequest _ | WakeRequest | InferenceRequest => true | InferenceEnd | Destroy => false end.
Definition ticks (es : list StubEvent) : nat := length (filter (λ e, e = Tick) es).
(** [k] ticks of the first start-up have run. *)
Definition starting (delayMs : Z) (k : nat) (s : Stub) : Prop :=
  stub_ok s /\ ∃ u, rs_startup s = Some u /\ su_elapsed u = (100 * Z.of_nat k)%Z /\ su_delay u = delayMs /\ su_logs u = true.
Definition ready (s : Stub) : Prop :=
  rs_state s = RunnerState.READY /\ rs_startup s = None /\ rs_progress s = mkProgress LOADED 100 "Ready" /\ rs_log s = script_lines /\ rs_complete s = 1.
Lemma ticks_needed_spec delayMs k : (0 <= delayMs)%Z -> k < ticks_needed delayMs -> (delayMs <= 100 * Z.of_nat k + 100)%Z <-> S k = ticks_needed delayMs.
Proof. unfold ticks_needed. intros. pose proof (Z.div_mod (delayMs + 99) 100). pose proof (Z.mod_pos_bound (delayMs + 99) 100). lia. Qed.
Lemma starting_tick wakeDelayMs delayMs k s :
  (0 <= delayMs)%Z -> k < ticks_needed delayMs -> starting delayMs k s ->
  ∃ s', stub_step wakeDelayMs Tick s = Some s' /\ (if decide (S k = ticks_needed delayMs) then ready s' else starting delayMs (S k) s').
Proof.
  intros Hd Hk (Hok & u & Hu & He & Hdel & Hlogs). exists (tick u s). simpl. rewrite Hu. split; [done|].
  pose proof (tick_ok _ _ Hok Hu) as Hok'. pose proof (ticks_needed_spec delayMs k Hd Hk) as Hn.
  unfold tick in *. rewrite He, Hdel in *. case_decide as Hl.
  - apply Hn in Hl. apply Z.leb_le in Hl. rewrite Hl in *.
    destruct (ok_quiet _ Hok' eq_refl) as [_ Hq]. destruct Hq as [Hq1 Hq2]; [done|]. by split_and!.
  - assert (Z.leb delayMs (100 * Z.of_nat k + 100) = false) as Hl' by (apply Z.leb_gt; lia). rewrite Hl' in *.
    split; [done|]. eexists. split; [done|]. simpl. split_and!; [lia|done..].
Qed.
Lemma starting_refuses wakeDelayMs delayMs k e s :
  starting delayMs k s -> request_during_startup e = true -> e <> Tick -> stub_step wakeDelayMs e s = Some s.
Proof.
  intros (Hok & u & Hu & _) He Hne. destruct (ok_startup _ Hok _ Hu) as [Hst _].
  destruct e as [|level| | | |]; try done; simpl; f_equal; unfold post_sleep, post_wake, begin_inference, sleep, wake; rewrite Hst; [|done..].
  by repeat case_match.
Qed.
Lemma starting_run wakeDelayMs delayMs es k s :
  (0 <= delayMs)%Z -> starting delayMs k s -> Forall (λ e, request_during_startup e = true) es -> k + ticks es < ticks_needed delayMs ->
  ∃ s', stub_run wakeDelayMs es s = Some s' /\ starting delayMs (k + ticks es) s'.
Proof.
  intros Hd Hs Hes. revert k s Hs. induction Hes as [|e es He _ IH]; intros k s Hs Hk.
  - exists s. unfold ticks. by rewrite Nat.add_0_r.
  - unfold ticks in *. rewrite filter_cons in *. simpl stub_run. case_decide as Ht.
    + subst e. cbn [length] in *. destruct (starting_tick wakeDelayMs delayMs k s) as (s1 & -> & H1); [lia..|done|].
      rewrite decide_False in H1 by lia. rewrite Nat.add_succ_r in *. apply (IH (S k) s1 H1). lia.
    + rewrite (starting_refuses _ _ _ _ _ Hs He Ht). by apply IH.
Qed.
Lemma remaining_ticks wakeDelayMs delayMs n k s :
  (0 <= delayMs)%Z -> starting delayMs k s -> S n + k = ticks_needed delayMs -> ∃ s', stub_run wakeDelayMs (replicate (S n) Tick) s = Some s' /\ ready s'.
Proof.
  intros Hd. revert k s. induction n as [|n IH]; intros k s Hs Hn; destruct (starting_tick wakeDelayMs delayMs k s) as (s1 & H1 & H2); try done; try lia.
  - rewrite decide_True in H2 by lia. exists s1. simpl replicate. cbn [stub_run]. by rewrite H1.
  - rewrite decide_False in H2 by lia. destruct (IH (S k) s1 H2) as (s2 & H3 & H4); [lia|].
    exists s2. rewrite replicate_S. cbn [stub_run]. by rewrite H1.
Qed.
(** Whatever requests arrive while a started runner loads, they change nothing, and as long
    as fewer ticks than the delay takes (one per started 100 ms, at least one) have run it is
    STARTING; the ticks that then remain, and no more, make it READY, with its whole log emitted
    once and the end of the start-up reported once. *)
Theorem startup_terminates (startupDelayMs wakeDelayMs : Z) (es : list StubEvent)
  (Hd : (0 <= startupDelayMs)%Z) (Hes : Forall (λ e, request_during_startup e = true) es) (Hn : ticks es < ticks_needed startupDelayMs) :
  ∃ s s', stub_run wakeDelayMs es (start startupDelayMs) = Some s /\ rs_state s = RunnerState.STARTING /\
    stub_run wakeDelayMs (replicate (ticks_needed startupDelayMs - ticks es) Tick) s = Some s' /\
    rs_state s' = RunnerState.READY /\ rs_log s' = script_lines /\ rs_complete s' = 1 /\ stub_step wakeDelayMs Tick s' = None.
Proof.
  destruct (starting_run wakeDelayMs startupDelayMs es 0 (start startupDelayMs)) as (s & Hs & Hst); [done| |done|done|].
  { split; [by apply started_ok|]. eexists. split; [done|]. done. }
  destruct (ticks_needed startupDelayMs - ticks es) as [|n] eqn:E; [lia|].
  destruct (remaining_ticks wakeDelayMs startupDelayMs n (0 + ticks es) s) as (s' & Hs' & Hr & Hn' & _ & Hl & Hc); [done..|simpl; lia|].
  exists s, s'. destruct Hst as (Hok & u & Hu & _). destruct (ok_startup _ Hok _ Hu) as [? _]. split_and!; try done. simpl. by rewrite Hn'.
Qed.
Lemma startup_terminates_witness :
  ticks_needed 250 = 3 /\
  ∃ s s', stub_run 0 [Tick; InferenceRequest; WakeRequest] (start 250) = Some s /\ rs_state s = RunnerState.STARTING /\
    stub_run 0 (replicate (ticks_needed 250 - 1) Tick) s = Some s' /\
    rs_state s' = RunnerState.READY /\ rs_log s' = script_lines /\ rs_complete s' = 1 /\ stub_step 0 Tick s' = None.
Proof.
  split; [reflexivity|].
  apply (startup_terminates 250 0 [Tick; InferenceRequest; WakeRequest]); [lia|repeat constructor|vm_compute; lia].
Defined.

(** ** A runner that is stopped while it loads
    [destroy] resolves the promise of the start-up, so a runner stopped while it loads reports
    the end of its start-up although it never became READY. *)
Theorem stopped_start_reports_completion :
  let s := destroy (start 1000) in rs_complete s = 1 /\ rs_state s = RunnerState.STARTING /\ rs_log s = [].
Proof. by vm_compute. Qed.
(** A runner may be put to sleep while it answers: the inference in flight is still counted. *)
Theorem sleeps_with_requests :
  ∃ s, stub_run 0 [Tick; InferenceRequest; SleepRequest (Some "L1_HOST_RAM")] (start 100) = Some s /\
    get_health s = mkHealth RunnerState.SLEEPING 1 None None.
Proof. eexists. by split; vm_compute. Qed.
