(* ===== verification/Workspace.v ===== *)
(** * The playground's workspace
    (dashboard/src/pages/Playground: workspaceState.ts, workspace-types.ts, useWorkspaceState.ts)

    Open chat sessions, shown in one, two or four panes, with explicit assignments of sessions
    to panes.  The actions of the hook are the steps of a machine on the state the hook keeps;
    React's scheduling is not modelled, each action sees the state the one before it left. *)
From stdpp Require Import base tactics list strings gmap sets sorting.
From Stdlib Require Import ZArith Lia.
From S2P Require Import Prelude Js Types Eviction.

Inductive LayoutMode := single | split_2 | grid_4.
#[global] Instance LayoutMode_eq_dec : EqDecision LayoutMode.
Proof. solve_decision. Defined.
Definition paneCount (layout : LayoutMode) : nat := match layout with split_2 => 2 | grid_4 => 4 | single => 1 end.
Record ModelInfo := mkModelInfo {
  mi_modelName : string;
  mi_state : ModelLifecycleState;
  mi_displayName : option string;
  mi_instanceCount : Z;
  mi_runnerType : string;
}.
Inductive SessionStatus := idle | generating.
Record WorkspaceSession := mkWsSession {
  ws_id : string;
  ws_modelId : string;
  ws_model : ModelInfo;
  ws_status : SessionStatus;
  ws_addedAt : string;
}.
(** Pane positions to session ids; the value may be [null]. *)
Definition PaneAssignments : Type := gmap nat (option string).
Definition Sessions : Type := list (string * WorkspaceSession).

Definition createSession (model : ModelInfo) (id now : string) : WorkspaceSession := mkWsSession id (mi_modelName model) model idle now.

Section sessions.
Context `{!JsDate}.
(** A difference of dates, not a number when one of them is not a date. *)
Definition by_age (a b : WorkspaceSession) : Z :=
  match getTime (ws_addedAt a), getTime (ws_addedAt b) with Some x, Some y => (x - y)%Z | _, _ => 0%Z end.
Definition sortSessions (sessions : list WorkspaceSession) : list WorkspaceSession := js_sort by_age sessions.

(** One round of the loop over the panes. *)
Definition show_pane (sessions : Sessions) (all : list WorkspaceSession) (assignments : PaneAssignments)
    (acc : list WorkspaceSession) (paneIndex : nat) : list WorkspaceSession :=
  let used := ws_id <$> acc in
  let assigned := match assignments !! paneIndex with
                  | Some (Some id) => if decide (id = "") then None else jm_get sessions id
                  | _ => None
                  end in
  match assigned with
  | Some s => if decide (ws_id s ∈ used) then
                match List.find (λ s, negb (bool_decide (ws_id s ∈ used))) all with Some f => acc ++ [f] | None => acc end
              else acc ++ [s]
  | None => match List.find (λ s, negb (bool_decide (ws_id s ∈ used))) all with Some f => acc ++ [f] | None => acc end
  end.
Definition getVisibleSessions (sessions : Sessions) (activeSessionId : option string) (layout : LayoutMode) (assignments : PaneAssignments) : list WorkspaceSession :=
  let all := sortSessions (jm_values sessions) in
  if decide (all = []) then [] else
  match layout with
  | single =>
      match (if truthy_str activeSessionId then jm_get sessions (default "" activeSessionId) else None) with
      | Some active => [active]
      | None => take 1 all
      end
  | _ => foldl (show_pane sessions all assignments) [] (seq 0 (paneCount layout))
  end.
End sessions.

(** [Object.entries]: integer keys come in ascending order. *)
Definition entry_le (a b : nat * option string) : Prop := a.1 ≤ b.1.
#[global] Instance entry_le_dec a b : Decision (entry_le a b).
Proof. unfold entry_le. apply _. Defined.
Definition entries (a : PaneAssignments) : list (nat * option string) := merge_sort entry_le (map_to_list a).
Definition removeSessionAssignment (a : PaneAssignments) (sessionId : string) : PaneAssignments :=
  filter (λ kv : nat * option string, kv.2 ≠ Some sessionId) a.
Definition assignSessionToPane (a : PaneAssignments) (paneIndex : nat) (sessionId : option string) : PaneAssignments :=
  match sessionId with
  | None => delete paneIndex a
  | Some s =>
      let next :=
        match List.find (λ kv : nat * option string, bool_decide (kv.2 = Some s)) (entries a) with
        | Some (existing, _) =>
            match a !! paneIndex with
            | Some (Some current) => if decide (current = "") then delete existing a else <[existing := Some current]> a
            | _ => delete existing a
            end
        | None => a
        end in
      <[paneIndex := Some s]> next
  end.

(** [syncSessions]: the session map, the restored active session if any were restored, and
    whether anything changed. *)
Record PersistedSessionData := mkPersisted { pd_openModelIds : list string; pd_activeModelId : option string }.
Definition model_changed (m : ModelInfo) (s : WorkspaceSession) : bool :=
  negb (bool_decide (mi_state m = mi_state (ws_model s))) || negb (bool_decide (mi_displayName m = mi_displayName (ws_model s))) ||
  negb (bool_decide (mi_instanceCount m = mi_instanceCount (ws_model s))) || negb (bool_decide (mi_runnerType m = mi_runnerType (ws_model s))).
Definition with_model (s : WorkspaceSession) (m : ModelInfo) : WorkspaceSession := mkWsSession (ws_id s) (ws_modelId s) m (ws_status s) (ws_addedAt s).
Definition model_by_id (models : list ModelInfo) : list (string * ModelInfo) := foldl (λ m x, jm_set m (mi_modelName x) x) [] models.
Definition sync_one (byId : list (string * ModelInfo)) (acc : Sessions * bool) (ks : string * WorkspaceSession) : Sessions * bool :=
  match jm_get byId (ws_modelId ks.2) with
  | None => (jm_delete acc.1 ks.1, true)
  | Some m => if model_changed m ks.2 then (jm_set acc.1 ks.1 (with_model ks.2 m), true) else acc
  end.
(** The restored sessions take their ids from [makeId], called for the [n]th time, and their date
    from [now]. *)
Fixpoint restore (byId : list (string * ModelInfo)) (now : string) (active : option string) (makeId : nat → string) (n : nat) (open : list string)
    (sessions : Sessions) (first activeId : option string) (changed : bool) : Sessions * option string * option string * bool :=
  match open with
  | [] => (sessions, first, activeId, changed)
  | modelId :: open' =>
      match jm_get byId modelId with
      | None => restore byId now active makeId n open' sessions first activeId changed
      | Some m =>
          restore byId now active makeId (S n) open' (jm_set sessions (makeId n) (createSession m (makeId n) now)) (Some (default (makeId n) first))
            (if decide (Some modelId = active) then Some (makeId n) else activeId) true
      end
  end.
Record SyncResult := mkSync { sy_sessions : Sessions; sy_restored : option (option string); sy_changed : bool }.
Definition syncSessions (prev : Sessions) (models : list ModelInfo) (persisted : option PersistedSessionData) (makeId : nat → string) (now : string) : SyncResult :=
  let byId := model_by_id models in
  let '(updated, changed) := foldl (sync_one byId) (prev, false) prev in
  match persisted with
  | Some (mkPersisted (o :: open) active) =>
      if decide (prev = []) then
        let '(sessions, first, activeId, changed') := restore byId now active makeId 0 (o :: open) updated None None changed in
        if changed' then mkSync sessions (Some (match activeId with Some a => Some a | None => first end)) true else mkSync prev None false
      else mkSync (if changed then updated else prev) None changed
  | _ => mkSync (if changed then updated else prev) None changed
  end.

(** ** The hook *)
Record Workspace := mkWorkspace { wk_sessions : Sessions; wk_active : option string; wk_layout : LayoutMode; wk_panes : PaneAssignments }.
Inductive WorkspaceAction :=
  | addSession (model : ModelInfo) (id now : string)
  | removeSession (sessionId : string)
  | setActiveSession (sessionId : option string)
  | updateSessionStatus (sessionId : string) (status : SessionStatus)
  | setLayout (layout : LayoutMode)
  | clearAllSessions
  | assignPane (paneIndex : nat) (sessionId : option string)
  | clearPaneAssignments
  | sync (models : list ModelInfo) (stored : option PersistedSessionData) (makeId : nat → string) (now : string).
Definition act (w : Workspace) (a : WorkspaceAction) : Workspace :=
  let '(mkWorkspace sessions active layout panes) := w in
  match a with
  | addSession model id now => mkWorkspace (jm_set sessions id (createSession model id now)) (Some id) layout panes
  | removeSession id =>
      let remaining := List.filter (λ k, negb (bool_decide (k = id))) (jm_keys sessions) in
      mkWorkspace (jm_delete sessions id) (if decide (active = Some id) then head remaining else active) layout (removeSessionAssignment panes id)
  | setActiveSession id => mkWorkspace sessions id layout panes
  | updateSessionStatus id status =>
      match jm_get sessions id with
      | Some s => mkWorkspace (jm_set sessions id (mkWsSession (ws_id s) (ws_modelId s) (ws_model s) status (ws_addedAt s))) active layout panes
      | None => w
      end
  | setLayout l => mkWorkspace sessions active l panes
  | clearAllSessions => mkWorkspace [] None layout panes
  | assignPane i id => mkWorkspace sessions active layout (assignSessionToPane panes i id)
  | clearPaneAssignments => mkWorkspace sessions active layout ∅
  | sync models stored makeId now =>
      let r := syncSessions sessions models (if decide (sessions = []) then stored else None) makeId now in
      if sy_changed r then mkWorkspace (sy_sessions r) (match sy_restored r with Some a => a | None => active end) layout panes else w
  end.

(** ** The session map *)
Definition sessions_wf (m : Sessions) : Prop := NoDup (jm_keys m) ∧ Forall (λ ks : string * WorkspaceSession, ws_id ks.2 = ks.1) m.
Lemma sessions_wf_set m k s : ws_id s = k → sessions_wf m → sessions_wf (jm_set m k s).
Proof. intros Hk [Hnd Hf]. split; [by apply jm_set_NoDup|]. by apply Forall_jm_set_at. Qed.
Lemma sessions_wf_delete m k : sessions_wf m → sessions_wf (jm_delete m k).
Proof. intros [Hnd Hf]. split; [by apply jm_delete_NoDup|by apply Forall_jm_delete]. Qed.
Lemma sessions_wf_get m k s : sessions_wf m → jm_get m k = Some s → ws_id s = k.
Proof. intros [_ Hf] Hg. by eapply (Forall_jm_get _ _ _ _ Hf) in Hg. Qed.
Lemma sync_fold_wf byId l acc : Forall (λ ks : string * WorkspaceSession, ws_id ks.2 = ks.1) l → sessions_wf acc.1 → sessions_wf (foldl (sync_one byId) acc l).1.
Proof.
  intros Hl. revert acc. induction Hl as [|[k s] l Hk _ IH]; intros acc Ha; [done|]. simpl. apply IH. unfold sync_one. simpl in *.
  destruct (jm_get byId (ws_modelId s)) as [m|]; [destruct (model_changed m s); [by apply sessions_wf_set|done]|by apply sessions_wf_delete].
Qed.
Lemma restore_wf byId now active makeId n open sessions first activeId changed :
  sessions_wf sessions → sessions_wf (restore byId now active makeId n open sessions first activeId changed).1.1.1.
Proof.
  revert n sessions first activeId changed. induction open as [|o open IH]; intros n sessions first activeId changed Hs; [done|]. simpl.
  destruct (jm_get byId o) as [m|]; [|by apply IH]. apply IH. by apply sessions_wf_set.
Qed.
Lemma syncSessions_wf prev models persisted makeId now : sessions_wf prev → sessions_wf (sy_sessions (syncSessions prev models persisted makeId now)).
Proof.
  intros Hp. unfold syncSessions. pose proof (sync_fold_wf (model_by_id models) prev (prev, false) (proj2 Hp) Hp) as Hf. destruct (foldl _ _ prev) as [updated changed].
  simpl in Hf. assert (sessions_wf (if changed then updated else prev)) by (by destruct changed).
  destruct persisted as [[[|o open] active]|]; [done| |done]. destruct (decide (prev = [])); [|done].
  pose proof (restore_wf (model_by_id models) now active makeId 0 (o :: open) updated None None changed Hf) as Hr. destruct (restore _ _ _ _ _ _ _ _ _ _) as [[[ss fi] ai] ch]. by destruct ch.
Qed.
Lemma act_wf w a : sessions_wf (wk_sessions w) → sessions_wf (wk_sessions (act w a)).
Proof.
  destruct w as [sessions active layout panes]. simpl. intros Hs. destruct a; simpl; try done.
  - by apply sessions_wf_set.
  - by apply sessions_wf_delete.
  - destruct (jm_get sessions _) as [s|] eqn:Hg; [|done]. apply sessions_wf_set; [|done]. simpl. by eapply sessions_wf_get.
  - split; constructor.
  - destruct (sy_changed _); [|done]. by apply syncSessions_wf.
Qed.

(** ** What is shown *)
Section visible.
Context `{!JsDate} (sessions : Sessions) (Hwf : sessions_wf sessions).
Definition shown_ok (n : nat) (acc : list WorkspaceSession) : Prop :=
  NoDup (ws_id <$> acc) ∧ (∀ s, s ∈ acc → s ∈ jm_values sessions) ∧ length acc = n `min` length sessions.
Lemma session_ids : ws_id <$> jm_values sessions = jm_keys sessions.
Proof. destruct Hwf as [_ Hf]. unfold jm_values, jm_keys. clear Hwf. induction Hf as [|[k s] m Hk _ IH]; [done|]. rewrite !fmap_cons, IH. simpl in *. by rewrite Hk. Qed.
Lemma sorted_ids : NoDup (ws_id <$> sortSessions (jm_values sessions)).
Proof. unfold sortSessions. rewrite js_sort_perm, session_ids. by destruct Hwf. Qed.
Lemma elem_of_sorted s : s ∈ sortSessions (jm_values sessions) ↔ s ∈ jm_values sessions.
Proof. unfold sortSessions. by rewrite js_sort_perm. Qed.
Lemma sorted_length : length (sortSessions (jm_values sessions)) = length sessions.
Proof. unfold sortSessions. rewrite js_sort_perm. unfold jm_values. by rewrite length_fmap. Qed.
Lemma shown_add n acc s : shown_ok n acc → s ∈ jm_values sessions → ws_id s ∉ ws_id <$> acc → shown_ok (S n) (acc ++ [s]).
Proof.
  intros (Hnd & Hin & Hl) Hs Hni. split_and!.
  - rewrite fmap_app. apply NoDup_app. split_and!; [done|set_solver|apply NoDup_singleton].
  - intros s' [?| ->%list_elem_of_singleton]%elem_of_app; [by apply Hin|done].
  - rewrite length_app, Hl. cbn [length]. assert (length (ws_id <$> (acc ++ [s])) ≤ length (jm_keys sessions)) as Hle.
    { apply submseteq_length, NoDup_submseteq; [rewrite fmap_app; apply NoDup_app; split_and!; [done|set_solver|apply NoDup_singleton]|].
      intros id Hid. rewrite <- session_ids. rewrite fmap_app in Hid. apply elem_of_app in Hid as [(x & -> & Hx)%list_elem_of_fmap|Hid]; [by apply list_elem_of_fmap_2, Hin|].
      apply list_elem_of_singleton in Hid as ->. by apply list_elem_of_fmap_2. }
    unfold jm_keys in Hle. rewrite !length_fmap, length_app, Hl in Hle. cbn [length] in Hle. lia.
Qed.
Lemma shown_full n acc : shown_ok n acc → List.find (λ s, negb (bool_decide (ws_id s ∈ ws_id <$> acc))) (sortSessions (jm_values sessions)) = None → shown_ok (S n) acc.
Proof.
  intros (Hnd & Hin & Hl) Hf. split_and!; [done|done|]. rewrite Hl.
  assert (length sessions ≤ length acc); [|lia]. rewrite <- sorted_length, <- (length_fmap ws_id), <- (length_fmap ws_id acc).
  apply submseteq_length, NoDup_submseteq; [apply sorted_ids|]. intros id (s & -> & Hs)%list_elem_of_fmap.
  apply list_elem_of_In, (List.find_none _ _ Hf), negb_false_iff, bool_decide_eq_true in Hs. done.
Qed.
Lemma show_pane_ok assignments n acc i : shown_ok n acc → shown_ok (S n) (show_pane sessions (sortSessions (jm_values sessions)) assignments acc i).
Proof.
  intros Ha. assert (shown_ok (S n) (match List.find (λ s, negb (bool_decide (ws_id s ∈ ws_id <$> acc))) (sortSessions (jm_values sessions)) with Some f => acc ++ [f] | None => acc end)) as Hfall.
  { destruct (List.find _ _) as [f|] eqn:Hf; [|by apply shown_full]. apply List.find_some in Hf as [Hin%list_elem_of_In Hu%negb_true_iff%bool_decide_eq_false].
    apply shown_add; [done|by apply elem_of_sorted|done]. }
  unfold show_pane. destruct (match assignments !! i with Some (Some id) => _ | _ => None end) as [s|] eqn:Has; [|done]. case_decide as Hu; [done|].
  apply shown_add; [done| |done]. destruct (assignments !! i) as [[id|]|]; [|done|done]. case_decide; [done|]. apply jm_get_elem_of in Has. apply list_elem_of_fmap. by exists (id, s).
Qed.
Lemma visible_ok active layout assignments : shown_ok (paneCount layout) (getVisibleSessions sessions active layout assignments).
Proof.
  unfold getVisibleSessions. destruct (decide (sortSessions _ = [])) as [He|Hne].
  { assert (length sessions = 0) as Hl by (by rewrite <- sorted_length, He). split_and!; [constructor|by intros ? ?%elem_of_nil|rewrite Hl; simpl; lia]. }
  assert (shown_ok 0 []) as H0' by (split_and!; [constructor|by intros ? ?%elem_of_nil|done]).
  assert (∀ k i acc n, shown_ok n acc → shown_ok (k + n) (foldl (show_pane sessions (sortSessions (jm_values sessions)) assignments) acc (seq i k))) as Hloop.
  { induction k as [|k IH]; intros i acc n Ha; [done|]. simpl. replace (S (k + n)) with (k + S n) by lia. apply IH. by apply show_pane_ok. }
  destruct layout; [|apply (Hloop 2 0 [] 0 H0')|apply (Hloop 4 0 [] 0 H0')]. destruct (if truthy_str active then _ else None) as [s|] eqn:Hs.
  - destruct (truthy_str active); [|done]. apply (shown_add 0 [] s); [done| |by intros ?%elem_of_nil]. apply jm_get_elem_of in Hs. apply list_elem_of_fmap. by exists (default "" active, s).
  - pose proof elem_of_sorted as Hes. destruct (sortSessions (jm_values sessions)) as [|s ss]; [done|]. simpl.
    apply (shown_add 0 [] s); [done| |by intros ?%elem_of_nil]. apply Hes. left.
Qed.
End visible.

(** ** Assignments *)
Definition panes_inj (a : PaneAssignments) : Prop := ∀ p q s, a !! p = Some (Some s) → a !! q = Some (Some s) → p = q.
Lemma elem_of_entries a p o : (p, o) ∈ entries a ↔ a !! p = Some o.
Proof. unfold entries. rewrite merge_sort_Permutation. apply elem_of_map_to_list. Qed.
Lemma assign_inj a i s : panes_inj a → panes_inj (assignSessionToPane a i s).
Proof.
  intros Ha. destruct s as [s|]; cbn [assignSessionToPane]; [|intros p q s Hp Hq; apply lookup_delete_Some in Hp as [_ Hp], Hq as [_ Hq]; by eapply Ha].
  destruct (List.find _ (entries a)) as [[e o]|] eqn:Hf.
  - apply List.find_some in Hf as [He%list_elem_of_In%elem_of_entries Ho%bool_decide_eq_true]. simpl in Ho. subst o.
    assert (∀ p t, (match a !! i with Some (Some c) => if decide (c = "") then delete e a else <[e := Some c]> a | _ => delete e a end) !! p = Some (Some t) → p ≠ i →
      t ≠ s ∧ (a !! p = Some (Some t) ∧ p ≠ e ∨ p = e ∧ a !! i = Some (Some t))) as Hnext.
    { intros p t Hp Hpi. assert (∀ u, p ≠ e → a !! p = Some (Some u) → u ≠ s) as Hne by (intros u Hpe Hu ->; by apply Hpe; eapply Ha).
      destruct (a !! i) as [[c|]|] eqn:Hi; [case_decide|..]; try (apply lookup_delete_Some in Hp as [Hpe Hp]; split; [by eapply Hne|left; done]).
      apply lookup_insert_Some in Hp as [[<- [= <-]]|[Hpe Hp]]; [|split; [by eapply Hne|left; done]]. split; [|by right]. intros ->. apply Hpi. symmetry. by eapply Ha. }
    intros p q t [[<- [= <-]]|[Hpi Hp]]%lookup_insert_Some [[<- Hq]|[Hqi Hq]]%lookup_insert_Some; [done|..].
    + by apply Hnext in Hq as [? _].
    + injection Hq as <-. by apply Hnext in Hp as [? _].
    + apply Hnext in Hp as [_ [[Hp Hpe]|[-> Hp]]], Hq as [_ [[Hq Hqe]|[-> Hq]]]; try done; [by eapply Ha|..].
      * by destruct Hpi; eapply Ha.
      * by destruct Hqi; eapply Ha.
  - assert (∀ p, a !! p ≠ Some (Some s)) as Hnone.
    { intros p Hp. apply elem_of_entries, list_elem_of_In in Hp. apply (List.find_none _ _ Hf) in Hp. simpl in Hp. by rewrite bool_decide_eq_true_2 in Hp. }
    intros p q t [[<- Hp]|[_ Hp]]%lookup_insert_Some [[<- Hq]|[_ Hq]]%lookup_insert_Some; [done|..|by eapply Ha].
    + injection Hp as <-. by apply Hnone in Hq.
    + injection Hq as <-. by apply Hnone in Hp.
Qed.
Lemma act_inj w a : panes_inj (wk_panes w) → panes_inj (wk_panes (act w a)).
Proof.
  destruct w as [sessions active layout panes]. simpl. intros Hp. destruct a; simpl; try done.
  - intros p q s Hs Hq. unfold removeSessionAssignment in *. apply map_lookup_filter_Some in Hs as [Hs _], Hq as [Hq _]. by eapply Hp.
  - by destruct (jm_get sessions _).
  - by apply assign_inj.
  - by destruct (sy_changed _).
Qed.

(** The panes show what is open.  After any actions of the user and any updates of the list
    of models, from any stored assignments of sessions to panes: the sessions shown are open and
    distinct, and they fill the panes as far as there are open sessions; and if no session was
    assigned to two panes at first, none ever is. *)
Theorem workspace_panes `{!JsDate} layout panes actions :
  let w := foldl act (mkWorkspace [] None layout panes) actions in
  let shown := getVisibleSessions (wk_sessions w) (wk_active w) (wk_layout w) (wk_panes w) in
  NoDup (ws_id <$> shown) ∧ (∀ s, s ∈ shown → jm_get (wk_sessions w) (ws_id s) = Some s) ∧
  length shown = paneCount (wk_layout w) `min` length (wk_sessions w) ∧ (panes_inj panes → panes_inj (wk_panes w)).
Proof.
  intros w shown. assert (sessions_wf (wk_sessions w) ∧ (panes_inj panes → panes_inj (wk_panes w))) as [Hwf Hinj].
  { unfold w. clear. set (w0 := mkWorkspace [] None layout panes).
    assert (sessions_wf (wk_sessions w0) ∧ (panes_inj panes → panes_inj (wk_panes w0))) as Hw0 by (split; [split; constructor|done]). revert Hw0. generalize w0 as w.
    induction actions as [|a actions IH]; intros w [Hs Hp]; [done|]. apply IH. split; [by apply act_wf|]. intros ?. by apply act_inj, Hp. }
  destruct (visible_ok (wk_sessions w) Hwf (wk_active w) (wk_layout w) (wk_panes w)) as (Hnd & Hin & Hl). split_and!; [done| |done|done].
  intros s [[k s'] [-> Hks]]%Hin%list_elem_of_fmap. simpl. destruct Hwf as [Hk Hf]. rewrite Forall_forall in Hf. pose proof (Hf _ Hks) as E. simpl in E. rewrite E. by apply jm_get_elem_of_NoDup.
Qed.

(** ** Keeping up with the models *)
Definition refreshed (byId : list (string * ModelInfo)) (s : WorkspaceSession) : option WorkspaceSession :=
  m ← jm_get byId (ws_modelId s); Some (if model_changed m s then with_model s m else s).
Lemma sync_fold_get byId l acc k : NoDup (jm_keys l) → (∀ k s, jm_get l k = Some s → jm_get acc.1 k = Some s) →
  jm_get (foldl (sync_one byId) acc l).1 k = match jm_get l k with Some s => refreshed byId s | None => jm_get acc.1 k end ∧
  ((foldl (sync_one byId) acc l).2 = false → foldl (sync_one byId) acc l = acc).
Proof.
  revert acc. induction l as [|[k0 s0] l IH]; intros acc Hnd Hacc; [done|]. unfold jm_keys in Hnd. rewrite fmap_cons in Hnd. apply NoDup_cons in Hnd as [Hni Hnd]. simpl in Hni.
  assert (jm_get l k0 = None) as Hl0 by (by apply jm_get_None).
  assert (jm_get (sync_one byId acc (k0, s0)).1 k0 = refreshed byId s0 ∧ (∀ k, k ≠ k0 → jm_get (sync_one byId acc (k0, s0)).1 k = jm_get acc.1 k) ∧
    ((sync_one byId acc (k0, s0)).2 = false → sync_one byId acc (k0, s0) = acc)) as (H1 & H2 & H3).
  { unfold sync_one, refreshed. simpl. destruct (jm_get byId (ws_modelId s0)) as [m|]; simpl; [destruct (model_changed m s0); simpl|].
    - split_and!; [apply jm_get_set_eq|intros k' ?; by rewrite jm_get_set_ne|done].
    - split_and!; [|done|done]. apply Hacc. rewrite jm_get_cons. by rewrite decide_True.
    - split_and!; [apply jm_get_delete_eq|intros k' ?; by rewrite jm_get_delete_ne|done]. }
  destruct (IH (sync_one byId acc (k0, s0)) Hnd) as [Hg Hc].
  { intros k1 s1 Hk1. rewrite H2 by congruence. apply Hacc. rewrite jm_get_cons, decide_False; [done|congruence]. }
  simpl. rewrite Hg, jm_get_cons. split.
  - case_decide as Hk; [subst; by rewrite Hl0|]. destruct (jm_get l k); [done|]. by apply H2.
  - intros Hf. rewrite Hc in Hf |- * by done. by apply H3.
Qed.
(** The sessions keep up with the models.  While sessions are open, an update of the list of
    models closes exactly the sessions of models that are gone, brings the others up to date
    with their model where it looks different, and reports no change only when nothing has
    changed; and nothing is restored from an earlier visit. *)
Theorem sync_keeps_served_models prev models persisted makeId now :
  sessions_wf prev → prev ≠ [] →
  let r := syncSessions prev models persisted makeId now in
  (∀ k, jm_get (sy_sessions r) k = jm_get prev k ≫= refreshed (model_by_id models)) ∧
  (sy_changed r = false → sy_sessions r = prev) ∧ sy_restored r = None.
Proof.
  intros [Hnd _] Hne. unfold syncSessions.
  pose proof (λ k, sync_fold_get (model_by_id models) prev (prev, false) k Hnd ltac:(done)) as Hf. destruct (foldl _ _ prev) as [updated changed]. simpl in Hf.
  assert (∀ k, jm_get (if changed then updated else prev) k = jm_get prev k ≫= refreshed (model_by_id models)) as Hg.
  { intros k. destruct (Hf k) as [Hk Hc]. destruct changed; [rewrite Hk; by destruct (jm_get prev k)|]. specialize (Hc eq_refl). injection Hc as <-.
    by destruct (jm_get updated k). }
  assert (changed = false → (if changed then updated else prev) = prev) by (by intros ->).
  destruct persisted as [[[|o open] active]|]; rewrite ?(decide_False (P := prev = [])) by done; done.
Qed.
Definition sample_model : ModelInfo := mkModelInfo "m" ModelLifecycleState.ACTIVE None 1 "vllm".
Definition sample_prev : Sessions := [("s", createSession (mkModelInfo "m" ModelLifecycleState.SLEEPING None 1 "vllm") "s" "0"); ("t", createSession (mkModelInfo "gone" ModelLifecycleState.ACTIVE None 1 "vllm") "t" "1")].
Lemma sync_keeps_served_models_witness :
  sy_sessions (syncSessions sample_prev [sample_model] None (λ _, "") "2") = [("s", createSession sample_model "s" "0")] ∧
  jm_get (sy_sessions (syncSessions sample_prev [sample_model] None (λ _, "") "2")) "t" = None.
Proof.
  split; [by vm_compute|]. destruct (sync_keeps_served_models sample_prev [sample_model] None (λ _, "") "2") as [Hg _].
  - split; [repeat constructor; set_solver|by repeat constructor].
  - done.
  - rewrite Hg. by vm_compute.
Defined.
